(* ===== verification/_CoqProject ===== *)
-Q . S2P
Prelude.v
GoStrings.v
Base64.v
Programs.v
CircuitBreaker.v
VmcpTypes.v
HealthStatus.v
HealthMonitor.v
HealthReport.v
StorageTypes.v
MemoryStorage.v
StorageClients.v
StorageTokens.v
StorageUsers.v
AggregatorTypes.v
WorkflowTypes.v
OutputConfig.v
Workflow.v
DagExecutor.v
DagExecution.v
ToolResolvers.v
ToolAdapter.v
CapabilityConflicts.v
Aggregator.v
SessionBinding.v
Router.v
CompositeTools.v
ParamHeaders.v
Admission.v
Core.v
CoreSpec.v
EndToEnd.v
SchemaCoercion.v
WorkflowContext.v
WorkflowStore.v
TemplateExpansion.v
StepExecution.v
StepGuarantees.v
WorkflowExecution.v
WorkflowInvariant.v
WorkflowSafety.v
WorkflowOutput.v
WorkflowRun.v
Pagination.v
RateLimit.v
CachingAggregator.v
RateLimitedCore.v
SessionData.v
TransportSession.v
SessionManager.v
SessionSystem.v
AdmissionQueue.v
SessionFactory.v
EventStream.v
JsonRpc.v
RequestParser.v
AuthzLists.v
SampleCodec.v
ResponseFilter.v
AuthzMiddleware.v
FilterLimits.v
McpRevision.v
ToolFilter.v
Redis.v
RedisStorage.v
RedisSystem.v
RedisSample.v
RedisTokens.v
RedisRevocation.v
RedisUpstream.v
