(* ===== verification/Prelude.v ===== *)
(** * ToolHive: a verification development

    ToolHive runs and fronts MCP (Model Context Protocol) servers.  Its virtual
    MCP server ([pkg/vmcp]) presents many backend servers as one: it watches their
    health, merges their tools, resources and prompts into one view with a routing
    table, admits and dispatches the calls of its clients, runs composite tools, which
    are workflows of backend calls, and keeps sessions that several servers share.  Every
    server is fronted by middleware that parses requests ([pkg/mcp]), authorizes them and
    filters the responses ([pkg/authz]).  The
    authorization server ([pkg/authserver]) is an OAuth server with storage for
    clients, codes, tokens and users.  This library models the decision-making core
    of these parts and proves it correct.

    ** Parts of the program and the files that model them

    Common
    - [Prelude]: machine integers with their wrap-around, package [time], strings,
      and the generic lemmas on lists, maps and sets.
    - [GoStrings], [Base64]: the functions of packages [strings], [encoding/base64] and
      [unicode/utf8] that the code uses, with their round trips.
    - [Programs]: code that interleaves with other code, as programs over accesses to
      shared state, and the logic [holds] for what they guarantee.
    - [VmcpTypes]: [pkg/vmcp/types.go], [errors.go] and [registry.go].  The registry
      interface is the class [BackendRegistry] and its contract the class
      [BackendRegistryOk], met by the immutable and the dynamic registry.

    Health of the backends ([pkg/vmcp/health])
    - [CircuitBreaker]: [circuit_breaker.go], the breaker of one backend.
    - [HealthStatus]: [status.go], the tracker with one breaker per backend.
    - [HealthMonitor]: [monitor.go], [checker.go], [policy.go]; the goroutines that
      probe the backends are the step relation [monitor_step].
    - [HealthReport]: the queries and the status report of [monitor.go].

    Aggregation of capabilities ([pkg/vmcp/aggregator])
    - [AggregatorTypes]: the settings and the data of [aggregator.go].
    - [ToolResolvers]: the three strategies for tool names that clash, instances of
      the class [ConflictResolver] with the contract [ConflictResolverOk].
    - [ToolAdapter]: [tool_adapter.go] and the override logic of
      [pkg/mcp/tool_filter.go], with the translation back to backend names.
    - [CapabilityConflicts]: [capability_conflicts.go], the owners of resources,
      resource templates and prompts.
    - [Aggregator]: [default_aggregator.go], from the queries to the routing table.
      Its theorem is proved against [ConflictResolverOk] and the registry contract.

    - [CachingAggregator]: [caching_aggregator.go], the views kept for callers, with
      concurrent sweeps as the step relation [cache_step].

    The core: listing, routing and calling ([pkg/vmcp/core], [router])
    - [Router]: [session_router.go]; tool references, resource templates, prompts.
    - [CompositeTools]: workflows as tools and their derived annotations
      ([internal/compositetools], [config/annotations.go]).
    - [ParamHeaders]: [pkg/mcp/xmcpheader.go], arguments mirrored into headers.
    - [Admission]: [admission.go]; the seam is the record [Admission] with the contract
      [AdmissionOk], met with and without policies.
    - [Core]: [core_vmcp.go], [core_calls.go], [core_checks.go].  A call returns the
      requests it sent and its result, so theorems can say what reaches a backend.
    - [CoreSpec]: what holds of any core over an aggregated view.
    - [EndToEnd]: the core over the health monitor, the registry and the default
      aggregator, and its construction by [New].
    - [Pagination]: cursors of lists ([server/modern_pagination.go]) and the client that
      follows them ([internal/pagination]).
    - [RateLimit]: [pkg/ratelimit] with the Redis script of its token buckets;
      [RateLimitedCore]: the decorator [pkg/vmcp/ratelimit] over limiter and core.

    Sessions
    - [SessionBinding]: who may use a session ([session/binding], [session/internal/security]).
    - [SessionData]: [pkg/transport/session], the storage of session metadata; the class
      [DataStorage] with the contract [DataStorageOk], met in memory and over Redis.
    - [TransportSession]: the sessions of the proxies and their concurrent map.
    - [SessionManager]: [server/sessionmanager/session_manager.go] and
      [pkg/cache/validating_cache.go]; an operation is a program over its accesses to the
      shared storage, the cache of its server and the session factory.  Lookups of a session
      that overlap on a server share one flight, and so one answer.
    - [SessionSystem]: those programs on any number of servers, access by access in any
      order ([system_step]), over any storage that meets its contract.
    - [AdmissionQueue]: [session/admission.go], how requests and the closing of a session
      exclude each other, statement by statement ([session_step]).
    - [SessionFactory]: [session/factory.go], [default_session.go] and
      [decorating_factory.go]; new and restored sessions, their connections and calls.

    Composite tools ([pkg/vmcp/composer])
    - [WorkflowTypes]: the definitions of [composer.go] and [workflow_errors.go].
    - [OutputConfig]: [output_validator.go].
    - [Workflow]: [ValidateWorkflow] of [workflow_engine.go].
    - [DagExecutor]: the levels of [dag_executor.go].
    - [DagExecution]: the concurrent execution of the levels, as events.
    - [SchemaCoercion]: [pkg/vmcp/schema], arguments coerced to the types of a schema.
    - [WorkflowContext]: [workflow_context.go], the results of steps; [WorkflowStore]: both
      state stores, instances of [WorkflowStateStore] with the contract [StateStoreOk].
    - [TemplateExpansion]: [template_expander.go]; [WorkflowOutput]: [output_constructor.go].
    - [StepExecution]: the steps of [workflow_engine.go] (tools with retries, elicitation
      with [elicitation_handler.go], forEach), as programs; [StepGuarantees]: what one step
      guarantees whatever the others do.
    - [WorkflowExecution]: all goroutines of a workflow, access by access in any order
      ([wf_step]); [WorkflowInvariant] and [WorkflowSafety]: what holds throughout.
    - [WorkflowRun]: [ExecuteWorkflow] as a whole and what its caller is told.

    Requests and responses of the proxies ([pkg/mcp], [pkg/authz])
    - [JsonRpc]: [utils.go], [jsonrpc_write.go], [batch.go] and the search for results in
      JSON; the decoder is the class [Codec] with the contract [CodecOk].
    - [RequestParser]: [parser.go]; [McpRevision]: [revision.go], the revisions of the
      protocol and the headers of Modern requests.
    - [EventStream]: the framing of event streams of [response_filter.go], with the client
      that reads them as a specification.
    - [AuthzLists]: [annotation_cache.go], [tool_filter.go] and the filters of lists.
    - [ResponseFilter]: the filtering writer of [response_filter.go].
    - [AuthzMiddleware]: [middleware.go] over the parser; [FilterLimits]: responses that the
      filter does not catch.  [SampleCodec] is a wire format to evaluate them with.
    - [ToolFilter]: [pkg/mcp/tool_filter.go] and its factories in [middleware.go], the two
      middlewares that show a client part of the tools under other names.

    Storage of the authorization server ([pkg/authserver/storage])
    - [StorageTypes]: [types.go] and [config.go], with the canonical keys.
    - [MemoryStorage]: every method of [memory.go], and [event], the calls and the
      two phases of the background cleanup in any order.
    - [StorageClients], [StorageTokens], [StorageUsers]: what holds of any sequence
      of events, by subject.
    - [Redis]: a Redis database with keys that expire, the commands, transactions and Lua
      scripts that [redis.go] uses, and callers that interleave between commands
      ([world_step]).
    - [RedisStorage]: every method of [redis.go] as a program over commands, and the keys
      of [redis_keys.go].  [RedisSystem]: what each of them may write ([issues], proved of
      the programs by [calls_issue]).  [RedisSample] is a setting to evaluate them in.
    - [RedisTokens], [RedisRevocation], [RedisUpstream]: what holds of codes and clients,
      of tokens that are revoked, and of the tokens of upstream servers.

    ** How the code is represented

    A method that holds its mutex throughout is a function on the state.  What
    several goroutines do is a sequence of such functions: a step relation
    ([monitor_step], [wf_step]) or a list of events ([event], [exec_event]).  A reading of the
    clock is an argument, one for each call of [time.Now].  Operations that several
    servers perform on shared storage, and the steps of a workflow, are programs that
    interleave between accesses.  Go visits a map in an arbitrary order: that order is an argument ([order], [range], [map_orders]), and
    theorems hold for all of them.  Errors are values of option or sum types.
    Counters that wrap keep their width.  Log lines, traces and metrics are left out.

    Code outside the repository is a parameter: clients and requests of [fosite]
    (class [Fosite]), [errgroup] (class [Errgroup] with its documented laws),
    SHA-256, the verb [%q] of [fmt], the backend client, the policy engine, the matcher of
    URI templates, the JSON encodings of cursors and metadata (classes [CursorCodec] and
    [MetadataCodec]: a round trip), the rounding of floating-point numbers (class
    [Rounding]), [text/template], JSON and [ParseFloat] (class [Runtime]), the decoding and
    encoding of messages (classes [Codec], [McpCodec] and [ToolsCodec]), the parameters of media types
    (class [MediaParams]), the rounding of durations by the Redis client (class [RedisClient]
    with [RedisClientOk]), the JSON functions of Lua (class [CJson]), sessions and the JSON of
    stored types (classes [Sessions] and [StorageJson]), and what backends and users answer to a workflow.  Where a theorem needs a hash without
    collisions it says so.  In [SessionManager] the session factory is
    arbitrary, and so is the eviction order of the LRU caches; in [SessionFactory] the
    connections are.

    ** What the theorems show

    - Health: a breaker refines a three-state automaton, trips at its threshold,
      recovers after its timeout and admits one probe at a time.  The tracker, seen
      from one backend, refines a specification that mentions no other backend.
      A half-open circuit always has a probe in flight.  The reported phase is
      determined by the tracked backends, and reports list configured backends.
    - Registry: equal versions mean equal contents, which makes a cache keyed by
      version sound, as long as the version has not gone around 2^64.
    - Aggregation: every advertised capability is routed to its owner, and every
      routed tool is forwarded under the name its backend knows, where overrides are
      unambiguous.  The manual and the
      priority strategy, the renaming of tools and the choice of owners are
      characterised exactly.
      A view from the cache belongs to its caller and is not older than it may be.
    - Core: nothing is sent without admission, a denial does not tell whether the item
      exists and the preflight checks agree with the calls, what is listed is exactly what can
      be called, and, where overrides are unambiguous, a call ends at a healthy,
      registered backend that lists the tool.  A composite tool never looks safer than its
      steps, and headers made from arguments cannot be injected.  A core that was built is
      well-formed.
    - Lists: a client that follows the cursors gets every item once and stops, and loses
      nothing that stays when the list changes.
    - Limits: the calls a bucket admits, and so the requests a limited core sends, are
      bounded over every window of time of every history, rounding errors included.
    - Sessions: only the creator of a session can use it, also after a restore.  A session
      that is gone stays gone on every server, and is served at most to those who share a
      lookup that began before; connections are closed or cached; an
      expired backend leaves all servers.  A session routes only to backends it is connected
      to, goes back to the same ones when it is restored, and loses no connection.  It is
      closed after the requests in it are done, and closing cannot get stuck.
      [termination_lost] shows an interleaving in
      which a termination is overwritten by a concurrent creation.
    - Workflows: validation accepts exactly the acyclic workflows, the output
      validator exactly the configurations that meet a specification, and validated
      workflows can be scheduled.  Levels respect dependencies, and so does every
      interleaving of their execution, which ends.  A step sees the final results of its
      dependencies, sends at most eleven requests, all to its own tool, and what is recorded
      is what happened.  The output has the declared types, the status is kept in the store,
      and the result of a run agrees with both.  [timed_out_workflow_completes] shows how a
      workflow is reported as completed although its time was up.
    - Proxies: only requests that are authorized, or exempt by their method, reach a backend, and
      every list of tools, prompts or resources that reaches a client
      shows only what the caller may use, whatever bytes the backend sends.  A listed tool can
      be called.  Revisions are classified exactly, and headers agree with the body.
      [FilterLimits] shows responses that escape the filter.  Behind a tool filter a client is
      shown exactly the listed tools, can call each by the name it is shown under, and calls
      of names outside the filter are refused; the last theorems of [ToolFilter] show streams
      that it does not filter or merges, and a hidden tool that can be called.
    - Storage: the cap on clients holds and evictions take only aged, dynamically
      registered clients.  A used code is not accepted again, a revoked grant stays
      revoked and a client assertion cannot be replayed.  Tokens live as long as
      they should, the cleanup removes exactly what has expired, and identities
      always belong to existing users.
    - Storage over Redis, with any number of servers: a used code is not accepted again,
      except by a call in progress when its mark expires, and a client that was not
      registered dynamically never expires, whatever fails.  While calls do not overlap, the
      index of a request lists its tokens, so that a revocation leaves none, and the index of
      a session lists its rows and outlives them.  [revocation_lost] shows how
      every token can be lost to revocation otherwise; [used_code_accepted_at_expiry] and
      [upstream_row_unlisted] show the executions that the other exceptions stand for.

    ** Fuel and bounds

    Two loops have fuel.  The search for cycles in [Workflow] marks a node in each
    recursive call and starts with more fuel than there are identifiers.  The
    loop over levels in [DagExecutor] places a step in each round or fails, and
    starts with one unit more than there are steps.  [cycle_detection_exact] and
    [execution_levels_sound] state that a result is returned, so the fuel is never
    exhausted.  The walk over a schema in [ParamHeaders] and the client loop in
    [Pagination] are bounded by the limits of the code itself, 64 levels and 10000 pages;
    [pagination_delivers_all] shows that the pages are enough.  Programs of
    [SessionManager], [StepExecution] and [RedisStorage] are finite trees.  The scan of an event stream
    consumes a byte in each round and has as many rounds as bytes ([render_scan]).  An execution has at most four events for each step and one more
    ([execution_terminates]).

    ** What is not modelled

    Backend discovery, the validation of the configuration file, the closing of the core,
    the cursor of a request, and the connections of sessions to backends
    are decision-making code that this library does not model yet.  HTTP transports, container
    runtimes, the Kubernetes operator, the command line and the clients of external services
    are input and output. *)

From stdpp Require Export base gmap strings list sorting pretty fin_maps.
From Stdlib Require Export ZArith Lia.
From Stdlib Require Import Ascii.

Declare Scope go_scope.
Delimit Scope go_scope with go.

(** ** Machine integers

  Go's [int] is 64 bits wide on every platform ToolHive builds for;
  [x++] wraps around. *)
Definition MinInt64 : Z := - 2 ^ 63.
Definition MaxInt64 : Z := 2 ^ 63 - 1.
Definition wrap64 (z : Z) : Z := (z + 2 ^ 63) `mod` 2 ^ 64 - 2 ^ 63.
Definition wrap32 (z : Z) : Z := (z + 2 ^ 31) `mod` 2 ^ 32 - 2 ^ 31.
Definition wrapU64 (z : Z) : Z := z `mod` 2 ^ 64.

Lemma wrap64_id (z : Z) : (MinInt64 <= z <= MaxInt64)%Z -> wrap64 z = z.
Proof. unfold wrap64, MinInt64, MaxInt64. intros. rewrite Z.mod_small; lia. Qed.

Lemma wrap32_id (z : Z) : (- 2 ^ 31 <= z < 2 ^ 31)%Z -> wrap32 z = z.
Proof. unfold wrap32. intros. rewrite Z.mod_small; lia. Qed.

Lemma wrapU64_id (z : Z) : (0 <= z < 2 ^ 64)%Z -> wrapU64 z = z.
Proof. intros. by apply Z.mod_small. Qed.

(** ** Package [time]

  A [time.Time] is the number of nanoseconds since Go's zero time
  (January 1, year 1), so the zero time is [0] and [IsZero] is an equality
  test.  A [time.Duration] is a signed 64-bit number of nanoseconds, and
  [Time.Sub] saturates at the ends of that range as the library
  documents.  The range of a [time.Time] itself is not bounded here: it
  spans billions of years. *)
Abbreviation Time := Z (only parsing).
Abbreviation Duration := Z (only parsing).

Module time.
Definition zero : Time := 0%Z.
Definition IsZero (t : Time) : bool := (t =? 0)%Z.
Definition After (t u : Time) : bool := (u <? t)%Z.
Definition Before (t u : Time) : bool := (t <? u)%Z.
Definition Add (t : Time) (d : Duration) : Time := (t + d)%Z.
Definition Sub (t u : Time) : Duration :=
  Z.max MinInt64 (Z.min MaxInt64 (t - u)).
Definition Compare (t u : Time) : Z :=
  match (t ?= u)%Z with Lt => -1 | Eq => 0 | Gt => 1 end.

Definition Second : Duration := 1000000000%Z.
Definition Minute : Duration := (60 * Second)%Z.
Definition Hour : Duration := (60 * Minute)%Z.

Lemma After_spec t u : After t u = true <-> (u < t)%Z.
Proof. apply Z.ltb_lt. Qed.

Lemma After_false t u : After t u = false <-> (t <= u)%Z.
Proof. apply Z.ltb_ge. Qed.

Lemma Sub_lt t u d : (MinInt64 < d <= MaxInt64)%Z -> (Sub t u < d <-> t - u < d)%Z.
Proof. unfold Sub. lia. Qed.
End time.

(** ** Go maps

  A Go map is a [gmap]; [delete] and assignment are stdpp's.  A loop
  [for k, v := range m { if P(k, v) { delete(m, k) } }] visits every entry
  once in an unspecified order and its outcome does not depend on that
  order, so it is a filter. *)
Section go_maps.
Context {K V : Type} `{Countable K}.
Implicit Types (m : gmap K V) (k : K) (v : V).

Definition delete_if (P : K -> V -> bool) (m : gmap K V) : gmap K V :=
  filter (fun kv => P kv.1 kv.2 = false) m.

(** The keys a collecting loop gathers. *)
Definition keys_if (P : K -> V -> bool) (m : gmap K V) : list K :=
  (map_to_list (filter (fun kv => P kv.1 kv.2 = true) m)).*1.

(** Deleting a collected list of keys, one by one. *)
Definition delete_keys (ks : list K) (m : gmap K V) : gmap K V :=
  foldl (fun m k => delete k m) m ks.

(** Does some entry satisfy [P]? *)
Definition any_if (P : K -> V -> bool) (m : gmap K V) : bool :=
  bool_decide (map_Exists (fun k v => P k v = true) m).

Lemma lookup_delete_if P m k :
  delete_if P m !! k = v ← m !! k; if P k v then None else Some v.
Proof.
  unfold delete_if. destruct (m !! k) as [v|] eqn:E; simpl.
  - destruct (P k v) eqn:HP.
    + apply map_lookup_filter_None. right. intros v' Hv'. simpl.
      rewrite E in Hv'. congruence.
    + apply map_lookup_filter_Some. auto.
  - apply map_lookup_filter_None. auto.
Qed.

Lemma lookup_delete_if_Some P m k v :
  delete_if P m !! k = Some v <-> m !! k = Some v /\ P k v = false.
Proof. unfold delete_if. by rewrite map_lookup_filter_Some. Qed.

Lemma delete_if_subseteq P m : delete_if P m ⊆ m.
Proof. apply map_filter_subseteq. Qed.

Lemma elem_of_keys_if P m k :
  k ∈ keys_if P m <-> exists v, m !! k = Some v /\ P k v = true.
Proof.
  unfold keys_if. rewrite list_elem_of_fmap. split.
  - intros ([k' v] & -> & Hin%elem_of_map_to_list).
    apply map_lookup_filter_Some in Hin. eauto.
  - intros (v & Hm & HP). exists (k, v). split; [done|].
    apply elem_of_map_to_list, map_lookup_filter_Some. auto.
Qed.

Lemma lookup_delete_keys ks m k :
  delete_keys ks m !! k = if decide (k ∈ ks) then None else m !! k.
Proof.
  unfold delete_keys. revert m. induction ks as [|k' ks IH]; intros m; cbn [foldl].
  - case_decide; [set_solver|done].
  - rewrite IH. destruct (decide (k = k')) as [->|Hne].
    + rewrite lookup_delete_eq. repeat case_decide; set_solver.
    + rewrite lookup_delete_ne by done. repeat case_decide; set_solver.
Qed.

(** Collect-then-delete, with nothing in between, is the filter. *)
Lemma delete_keys_if P m : delete_keys (keys_if P m) m = delete_if P m.
Proof.
  apply map_eq. intros k. rewrite lookup_delete_keys, lookup_delete_if.
  destruct (m !! k) as [v|] eqn:E; case_decide as Hk; simpl; try done.
  - apply elem_of_keys_if in Hk as (v' & ? & HP).
    assert (v' = v) as -> by congruence. by rewrite HP.
  - destruct (P k v) eqn:HP; [|done].
    destruct Hk. apply elem_of_keys_if. eauto.
Qed.

Lemma keys_if_nil P m : keys_if P m = [] -> delete_if P m = m.
Proof. intros E. by rewrite <- delete_keys_if, E. Qed.

Lemma any_if_true P m : any_if P m = true <-> exists k v, m !! k = Some v /\ P k v = true.
Proof. unfold any_if. by rewrite bool_decide_eq_true. Qed.

Lemma any_if_false P m :
  any_if P m = false <-> forall k v, m !! k = Some v -> P k v = false.
Proof.
  unfold any_if. rewrite bool_decide_eq_false. split.
  - intros Hn k v Hk. destruct (P k v) eqn:HP; [|done].
    destruct Hn. exists k, v. auto.
  - intros Hf (k & v & Hk & HP). by rewrite (Hf k v Hk) in HP.
Qed.
End go_maps.

(** ** Lists of goroutines *)
Lemma elem_of_insert_inv {A} (l : list A) i x y : y ∈ <[i := x]> l -> y = x \/ y ∈ l.
Proof.
  intros [j Hj]%list_elem_of_lookup_1. apply list_lookup_insert_Some in Hj as [(_ & <- & _)|[_ Hj]];
    [by left|]. right. by eapply list_elem_of_lookup_2.
Qed.

Definition count {A} (f : A -> bool) (l : list A) : nat := length (filter (fun x => f x = true) l).

Arguments count : simpl never.

Lemma count_cons {A} (f : A -> bool) x l : count f (x :: l) = (if f x then 1 else 0) + count f l.
Proof. unfold count. rewrite filter_cons. destruct (f x); by repeat case_decide. Qed.

Lemma count_insert {A} (f : A -> bool) l i x y :
  l !! i = Some x -> count f (<[i := y]> l) + (if f x then 1 else 0) = count f l + (if f y then 1 else 0).
Proof.
  revert i. induction l as [|z l IH]; intros [|i] E; [done|done| |]; cbn in E.
  - simplify_eq. change (<[0 := y]> (x :: l)) with (y :: l). rewrite !count_cons. lia.
  - change (<[S i := y]> (z :: l)) with (z :: <[i := y]> l). rewrite !count_cons. specialize (IH i E). lia.
Qed.

Lemma count_zero {A} (f : A -> bool) l : count f l = 0 <-> forall x, x ∈ l -> f x = false.
Proof.
  induction l as [|x l IH]; [split; [by intros _ ? ?%not_elem_of_nil|done]|]. rewrite count_cons. split.
  - intros E y [->|Hy]%elem_of_cons; [by destruct (f x)|]. apply IH; [lia|done].
  - intros Hf. rewrite (Hf x) by left. apply IH. intros y Hy. apply Hf. by right.
Qed.

Lemma count_pos {A} (f : A -> bool) l x : x ∈ l -> f x = true -> 0 < count f l.
Proof.
  intros Hx Hf. destruct (count f l) eqn:E; [|lia]. rewrite count_zero in E. specialize (E x Hx). congruence.
Qed.

Lemma count_le {A} (f g : A -> bool) l : (forall x, f x = true -> g x = true) -> count f l <= count g l.
Proof.
  intros Hfg. induction l as [|x l IH]; [done|]. rewrite !count_cons. specialize (Hfg x). destruct (f x), (g x); naive_solver lia.
Qed.

(** ** Strings

  [fmt_d] is the verb [%d] of package [fmt]. *)
Definition fmt_d (n : Z) : string := pretty n.
Definition len (s : string) : Z := Z.of_nat (String.length s).

Fixpoint no_char (c : ascii) (s : string) : Prop :=
  match s with
  | EmptyString => True
  | String c' s => c ≠ c' /\ no_char c s
  end.

Lemma no_char_app c s1 s2 : no_char c (s1 +:+ s2) <-> no_char c s1 /\ no_char c s2.
Proof. induction s1 as [|c' s1 IH]; simpl; [tauto|]. rewrite IH. tauto. Qed.

Lemma app_string_nil_r s : s +:+ "" = s.
Proof. induction s as [|c s IH]; [done|]. change (String c (s +:+ "") = String c s). by f_equal. Qed.

Lemma app_string_assoc (s1 s2 s3 : string) : (s1 +:+ s2) +:+ s3 = s1 +:+ (s2 +:+ s3).
Proof. induction s1 as [|c s1 IH]; [done|]. exact (f_equal (String c) IH). Qed.

(** A separator that does not occur in the first parts splits uniquely. *)
Lemma split_at_char c s1 s2 t1 t2 :
  no_char c s1 -> no_char c t1 ->
  s1 +:+ String c s2 = t1 +:+ String c t2 -> s1 = t1 /\ s2 = t2.
Proof.
  revert t1. induction s1 as [|a s1 IH]; intros [|b t1]; simpl; intros Hs Ht E; simplify_eq; try tauto.
  destruct (IH t1) as [-> ->]; tauto.
Qed.

(** Parts of known equal length split uniquely. *)
Lemma app_string_inj (s1 s2 t1 t2 : string) :
  String.length s1 = String.length t1 -> s1 +:+ s2 = t1 +:+ t2 -> s1 = t1 /\ s2 = t2.
Proof.
  revert t1. induction s1 as [|a s1 IH]; intros [|b t1]; simpl; intros Hl E; simplify_eq; [done|].
  destruct (IH t1) as [-> ->]; auto.
Qed.

Lemma pretty_N_go_no_char c x s :
  (forall d, (d < 10)%N -> c ≠ pretty_N_char d) -> no_char c s -> no_char c (pretty_N_go x s).
Proof.
  intros Hd. revert s. induction (N.lt_wf_0 x) as [x _ IH]; intros s Hs.
  destruct (decide (x = 0)%N) as [->|Hx]; [by rewrite pretty_N_go_0|].
  rewrite pretty_N_go_step by lia. apply IH; [by apply N.div_lt; lia|].
  simpl. split; [|done]. apply Hd, N.mod_lt. lia.
Qed.

Lemma fmt_d_no_char c n :
  (forall d, (d < 10)%N -> c ≠ pretty_N_char d) -> c ≠ "0"%char -> (0 <= n)%Z -> no_char c (fmt_d n).
Proof.
  intros Hd H0 Hn. unfold fmt_d, pretty, pretty_Z.
  destruct n as [|p|p]; [done| |lia]. by apply (pretty_N_go_no_char c (N.pos p) "").
Qed.

Lemma fmt_d_no_colon n : (0 <= n)%Z -> no_char ":" (fmt_d n).
Proof.
  apply fmt_d_no_char; [|done]. intros d Hd. unfold pretty_N_char.
  by repeat case_match.
Qed.

(** ** Finite sets *)
Lemma list_to_set_size_le (l : list string) : size (list_to_set l : gset string) <= length l.
Proof.
  induction l as [|x l IH]; cbn [list_to_set foldr length]; [done|].
  rewrite size_union_alt, size_singleton.
  assert (size (list_to_set l ∖ {[x]} : gset string) <= size (list_to_set l : gset string)); [|lia].
  apply subseteq_size. set_solver.
Qed.

Lemma list_to_set_nodup (l : list string) :
  length l <= size (list_to_set l : gset string) -> NoDup l.
Proof.
  induction l as [|x l IH]; cbn [list_to_set foldr length]; intros Hl; [constructor|].
  pose proof (list_to_set_size_le l) as Hle. rewrite size_union_alt, size_singleton in Hl.
  destruct (decide (x ∈ l)) as [Hx|Hx].
  - assert (size (list_to_set l ∖ {[x]} : gset string) < size (list_to_set l : gset string)); [|lia].
    apply subset_size. set_solver.
  - apply NoDup_cons. split; [done|]. apply IH.
    assert (size (list_to_set l ∖ {[x]} : gset string) <= size (list_to_set l : gset string)); [|lia].
    apply subseteq_size. set_solver.
Qed.

Lemma set_subseteq_size_eq (X Y : gset string) : X ⊆ Y -> size Y <= size X -> X = Y.
Proof.
  intros Hsub Hs. apply set_eq. intros x. split; [set_solver|]. intros Hy.
  apply dec_stable. intros Hx. assert (size X < size Y); [|lia]. apply subset_size. set_solver.
Qed.

Lemma NoDup_fmap_elem {A B} (f : A -> B) l x y :
  NoDup (f <$> l) -> x ∈ l -> y ∈ l -> f x = f y -> x = y.
Proof.
  induction l as [|z l IH]; intros Hn Hx Hy E; [by apply elem_of_nil in Hx|].
  cbn [fmap list_fmap] in Hn. apply NoDup_cons in Hn as [Hz Hn].
  apply elem_of_cons in Hx as [->|Hx], Hy as [->|Hy]; [done| | |by apply IH].
  - destruct Hz. rewrite E. apply list_elem_of_fmap. eauto.
  - destruct Hz. rewrite <- E. apply list_elem_of_fmap. eauto.
Qed.

(** ** Lists *)
Lemma omap_cons_eq {A B} (f : A -> option B) x l :
  omap f (x :: l) = match f x with Some y => y :: omap f l | None => omap f l end.
Proof. done. Qed.

Lemma filter_all {A} (P : A -> Prop) `{forall x, Decision (P x)} (l : list A) :
  (forall x, x ∈ l -> P x) -> filter P l = l.
Proof.
  induction l as [|x l IH]; intros HP; [done|].
  rewrite filter_cons, decide_True by (apply HP; left). rewrite IH; [done|]. intros y Hy. apply HP. by right.
Qed.

(** A map built by a loop of insertions, at a key that is given one value only. *)
Lemma insert_loop_at {A B} (k : A -> string) (v : A -> B) (l : list A) (i : string) (y : B) :
  (forall a b, a ∈ l -> b ∈ l -> k a = i -> k b = i -> v a = v b) ->
  foldl (fun (m : gmap string B) a => <[k a := v a]> m) ∅ l !! i = Some y <-> exists a, a ∈ l /\ k a = i /\ v a = y.
Proof.
  induction l as [|x l IH] using rev_ind; intros Hu; [set_solver|].
  rewrite foldl_app. cbn [foldl]. destruct (decide (k x = i)) as [<-|Hne].
  - rewrite lookup_insert_eq. split; [intros [= <-]; exists x; set_solver|]. intros (a & Ha & Hk & <-).
    f_equal. apply Hu; set_solver.
  - rewrite lookup_insert_ne, IH by set_solver. set_solver.
Qed.

(** The automation database of the development. *)
Create HintDb toolhive discriminated.
#[export] Hint Resolve delete_if_subseteq : toolhive.
#[export] Hint Resolve wrap64_id wrapU64_id : toolhive.
