(* ===== verification/GoStrings.v ===== *)
(** * String functions of the Go library

    What the modelled code uses of packages [strings] and [slices] on strings, with
    single-character separators, and the lemmas that relate splitting to joining.
    A Go string is a sequence of bytes, and so is a [string] here. *)

From Stdlib Require Import Ascii.
From S2P Require Import Prelude.

(** [strings.ContainsRune] for a one-byte rune. *)
Fixpoint ContainsRune (c : ascii) (s : string) : bool :=
  match s with
  | EmptyString => false
  | String a s => if decide (c = a) then true else ContainsRune c s
  end.

(** [strings.Cut] at the first occurrence of a one-byte separator. *)
Fixpoint Cut (c : ascii) (s : string) : option (string * string) :=
  match s with
  | EmptyString => None
  | String a s =>
      if decide (c = a) then Some (EmptyString, s)
      else match Cut c s with
           | Some (before, after) => Some (String a before, after)
           | None => None
           end
  end.

(** [strings.Split] at every occurrence of a one-byte separator. *)
Fixpoint Split (c : ascii) (s : string) : list string :=
  match s with
  | EmptyString => [EmptyString]
  | String a s =>
      if decide (c = a) then EmptyString :: Split c s
      else match Split c s with
           | part :: parts => String a part :: parts
           | [] => []
           end
  end.

(** [strings.Join] with a one-byte separator. *)
Fixpoint Join (c : ascii) (l : list string) : string :=
  match l with
  | [] => EmptyString
  | [s] => s
  | s :: l => s +:+ String c (Join c l)
  end.

(** [strings.TrimSpace]; only the ASCII spaces are treated as spaces. *)
Definition is_space (a : ascii) : bool :=
  let n := nat_of_ascii a in (n =? 32) || ((9 <=? n) && (n <=? 13)).

Fixpoint TrimLeft (s : string) : string :=
  match s with
  | EmptyString => EmptyString
  | String a s' => if is_space a then TrimLeft s' else s
  end.

Fixpoint TrimRight (s : string) : string :=
  match s with
  | EmptyString => EmptyString
  | String a s =>
      match TrimRight s with
      | EmptyString => if is_space a then EmptyString else String a EmptyString
      | s' => String a s'
      end
  end.

Definition TrimSpace (s : string) : string := TrimRight (TrimLeft s).

(** [strings.HasPrefix]. *)
Fixpoint HasPrefix (s prefix : string) : bool :=
  match prefix, s with
  | EmptyString, _ => true
  | String b prefix, String a s => if decide (a = b) then HasPrefix s prefix else false
  | String _ _, EmptyString => false
  end.

(** ** Separators *)
Lemma ContainsRune_false c s : ContainsRune c s = false <-> no_char c s.
Proof. induction s as [|a s IH]; simpl; [done|]. case_decide; [naive_solver|]. rewrite IH. naive_solver. Qed.

Lemma ContainsRune_true c s : ContainsRune c s = true <-> ~ no_char c s.
Proof. rewrite <- ContainsRune_false. destruct (ContainsRune c s); naive_solver. Qed.

#[export] Instance no_char_dec c s : Decision (no_char c s).
Proof.
  destruct (ContainsRune c s) eqn:E; [right|left].
  - by apply ContainsRune_true.
  - by apply ContainsRune_false.
Defined.

Lemma Cut_Some c s before after :
  Cut c s = Some (before, after) <-> s = before +:+ String c after /\ no_char c before.
Proof.
  revert before. induction s as [|a s IH]; intros before; cbn [Cut].
  { split; [done|]. by intros [E _]; destruct before. }
  case_decide as Ha; [subst a|].
  - split; [by intros [= <- <-]|]. intros [E Hn]. destruct before as [|b before]; [by injection E as ->|].
    destruct Hn as [Hn _]. by injection E as ->.
  - split.
    + destruct (Cut c s) as [[b a']|] eqn:E; [|done]. intros [= <- <-].
      destruct (proj1 (IH b) eq_refl) as [-> Hn]. done.
    + intros [E Hn]. destruct before as [|b before]; injection E as -> ->; [done|].
      by rewrite (proj2 (IH before)) by (split; [done|apply Hn]).
Qed.

Lemma Cut_None c s : Cut c s = None <-> no_char c s.
Proof.
  induction s as [|a s IH]; cbn [Cut no_char]; [done|]. case_decide as Ha; [naive_solver|].
  destruct (Cut c s) as [[]|] eqn:E; [|naive_solver].
  split; [done|]. intros [_ Hn]. by apply IH in Hn.
Qed.

Lemma Split_not_nil c s : Split c s <> [].
Proof. induction s as [|a s IH]; cbn [Split]; [done|]. case_decide; [done|]. by destruct (Split c s). Qed.

Lemma Split_no_char c s : no_char c s -> Split c s = [s].
Proof.
  induction s as [|a s IH]; cbn [Split no_char]; [done|]. intros [Ha Hs].
  rewrite decide_False by done. by rewrite IH.
Qed.

Lemma Split_app c s t : no_char c s -> Split c (s +:+ String c t) = s :: Split c t.
Proof.
  induction s as [|a s IH]; cbn [no_char].
  { intros _. change ("" +:+ String c t) with (String c t). cbn [Split]. by rewrite decide_True. }
  intros [Ha Hs].
  change ((String a s) +:+ String c t) with (String a (s +:+ String c t)). cbn [Split].
  rewrite decide_False by done. by rewrite IH.
Qed.

Lemma Split_app_sep c s t : Split c (s +:+ String c t) = Split c s ++ Split c t.
Proof.
  induction s as [|a s IH].
  { change ("" +:+ String c t) with (String c t). cbn [Split]. by rewrite decide_True. }
  change ((String a s) +:+ String c t) with (String a (s +:+ String c t)). cbn [Split]. rewrite IH.
  case_decide; [done|]. pose proof (Split_not_nil c s). by destruct (Split c s).
Qed.

(** Splitting undoes joining. *)
Lemma Split_Join c l : l <> [] -> Forall (no_char c) l -> Split c (Join c l) = l.
Proof.
  induction l as [|s l IH]; [done|]. intros _ [Hs Hl]%Forall_cons. destruct l as [|t l]; [by apply Split_no_char|].
  change (Join c (s :: t :: l)) with (s +:+ String c (Join c (t :: l))).
  rewrite Split_app by done. by rewrite IH.
Qed.

(** ** Spaces *)
Fixpoint no_space (s : string) : Prop :=
  match s with
  | EmptyString => True
  | String a s => is_space a = false /\ no_space s
  end.

Lemma TrimRight_no_space s : no_space s -> TrimRight s = s.
Proof.
  induction s as [|a s IH]; [done|]. intros [Ha Hs]. cbn [TrimRight]. rewrite IH by done. rewrite Ha. by destruct s.
Qed.

Lemma TrimSpace_no_space s : no_space s -> TrimSpace s = s.
Proof.
  intros Hs. unfold TrimSpace. rewrite <- (TrimRight_no_space s) at 2 by done. f_equal.
  destruct s as [|a s]; [done|]. cbn [TrimLeft]. destruct Hs as [-> _]. done.
Qed.

Lemma Split_parts c s p : p ∈ Split c s -> no_char c p.
Proof.
  revert p. induction s as [|a s IH]; cbn [Split]; intros p.
  { intros ->%list_elem_of_singleton. done. }
  case_decide; [intros [->|?]%elem_of_cons; [done|by apply IH]|].
  destruct (Split c s) as [|q l]; [by intros ?%not_elem_of_nil|].
  intros [->|?]%elem_of_cons; [split; [done|]; apply IH; by left|]. apply IH. by right.
Qed.

Lemma no_char_TrimLeft c s : no_char c s -> no_char c (TrimLeft s).
Proof. induction s as [|a s IH]; [done|]. cbn [TrimLeft]. intros [? ?]. destruct (is_space a); [by apply IH|by split]. Qed.

Lemma no_char_TrimRight c s : no_char c s -> no_char c (TrimRight s).
Proof.
  induction s as [|a s IH]; [done|]. cbn [TrimRight]. intros [? ?%IH].
  repeat case_match; done.
Qed.

Lemma no_char_TrimSpace c s : no_char c s -> no_char c (TrimSpace s).
Proof. intros ?. by apply no_char_TrimRight, no_char_TrimLeft. Qed.

Lemma TrimRight_idem s : TrimRight (TrimRight s) = TrimRight s.
Proof.
  induction s as [|a s IH]; [done|]. cbn [TrimRight].
  destruct (TrimRight s) as [|b t]; [destruct (is_space a) eqn:Ha; cbn [TrimRight]; by rewrite ?Ha|].
  change (TrimRight (String a (String b t))) with
    (match TrimRight (String b t) with EmptyString => if is_space a then EmptyString else String a EmptyString
     | s' => String a s' end).
  by rewrite IH.
Qed.

Lemma TrimLeft_head s : TrimLeft s = "" \/ exists a t, TrimLeft s = String a t /\ is_space a = false.
Proof. induction s as [|a s IH]; [by left|]. cbn [TrimLeft]. destruct (is_space a) eqn:?; [done|]. right. eauto. Qed.

Lemma TrimSpace_idem s : TrimSpace (TrimSpace s) = TrimSpace s.
Proof.
  unfold TrimSpace. destruct (TrimLeft_head s) as [->|(a & t & -> & Ha)]; [done|].
  enough (TrimLeft (TrimRight (String a t)) = TrimRight (String a t)) as -> by apply TrimRight_idem.
  cbn [TrimRight]. destruct (TrimRight t); cbn [TrimLeft]; by rewrite ?Ha; cbn [TrimLeft]; rewrite ?Ha.
Qed.

Lemma HasPrefix_app p s : HasPrefix (p +:+ s) p = true.
Proof. induction p as [|a p IH]; [by destruct s|]. simpl. by rewrite decide_True. Qed.

Lemma HasPrefix_true s p : HasPrefix s p = true -> exists t, s = p +:+ t.
Proof.
  revert s. induction p as [|b p IH]; intros s; [by exists s|].
  destruct s as [|a s]; cbn [HasPrefix]; [done|]. case_decide; [subst a|done].
  intros [t ->]%IH. by exists t.
Qed.

(** ** Sorting by a key ([slices.SortFunc] with [strings.Compare]) *)
Lemma StronglySorted_by {T} (keyOf : T -> string) (l : list T) :
  StronglySorted String.le (keyOf <$> merge_sort (fun x y => String.le (keyOf x) (keyOf y)) l).
Proof.
  apply Sorted_StronglySorted; [apply _|].
  assert (Sorted (fun x y => String.le (keyOf x) (keyOf y)) (merge_sort (fun x y => String.le (keyOf x) (keyOf y)) l)) as Hs.
  { apply Sorted_merge_sort. intros a b. apply (total String.le). }
  revert Hs. generalize (merge_sort (fun x y => String.le (keyOf x) (keyOf y)) l). intros s Hs.
  induction Hs as [|a s Hs IH Ha]; [constructor|]. cbn. constructor; [done|]. destruct Ha; by constructor.
Qed.

Lemma StronglySorted_lookup {T} (R : relation T) (l : list T) i j x y :
  StronglySorted R l -> l !! i = Some x -> l !! j = Some y -> i < j -> R x y.
Proof.
  intros Hs Hi Hj Hlt. rewrite <- (take_drop_middle l i x Hi) in Hs.
  apply StronglySorted_app_1_r, StronglySorted_inv in Hs as [_ Ha]. rewrite Forall_forall in Ha. apply Ha.
  apply (list_elem_of_lookup_2 _ (j - S i)). rewrite lookup_drop. by replace (S i + (j - S i)) with j by lia.
Qed.
