(* ===== verification/Base64.v ===== *)
(** * Byte strings of the Go standard library

    [base64.RawURLEncoding] of package [encoding/base64], without padding and not
    strict, [base64.StdEncoding], and [utf8.ValidString].  A string is the list of its bytes, and a byte is an
    [ascii] with its low bit first. *)

From Stdlib Require Import Ascii.
From S2P Require Import Prelude.

(** ** The alphabet *)
Definition alphabet : string := "ABCDEFGHIJKLMNOPQRSTUVWXYZabcdefghijklmnopqrstuvwxyz0123456789-_".

(** Six bits, the low bit first. *)
Definition sextet : Type := bool * bool * bool * bool * bool * bool.

Definition sextet_nat (x : sextet) : nat :=
  let '(b0, b1, b2, b3, b4, b5) := x in
  Nat.b2n b0 + 2 * Nat.b2n b1 + 4 * Nat.b2n b2 + 8 * Nat.b2n b3 + 16 * Nat.b2n b4 + 32 * Nat.b2n b5.

Definition nat_sextet (n : nat) : sextet :=
  (Nat.testbit n 0, Nat.testbit n 1, Nat.testbit n 2, Nat.testbit n 3, Nat.testbit n 4, Nat.testbit n 5).

Definition encode_sextet (x : sextet) : ascii := default "A"%char (String.get (sextet_nat x) alphabet).

(** The position of a character in the alphabet. *)
Fixpoint position (c : ascii) (s : string) : option nat :=
  match s with
  | EmptyString => None
  | String c' s => if decide (c = c') then Some 0 else S <$> position c s
  end.

Definition decode_sextet (c : ascii) : option sextet := nat_sextet <$> position c alphabet.

(** ** Encoding *)
Fixpoint EncodeToString (s : string) : string :=
  match s with
  | String (Ascii a0 a1 a2 a3 a4 a5 a6 a7) (String (Ascii b0 b1 b2 b3 b4 b5 b6 b7)
      (String (Ascii c0 c1 c2 c3 c4 c5 c6 c7) s)) =>
      String (encode_sextet (a2, a3, a4, a5, a6, a7)) (String (encode_sextet (b4, b5, b6, b7, a0, a1))
        (String (encode_sextet (c6, c7, b0, b1, b2, b3)) (String (encode_sextet (c0, c1, c2, c3, c4, c5))
          (EncodeToString s))))
  | String (Ascii a0 a1 a2 a3 a4 a5 a6 a7) (String (Ascii b0 b1 b2 b3 b4 b5 b6 b7) EmptyString) =>
      String (encode_sextet (a2, a3, a4, a5, a6, a7)) (String (encode_sextet (b4, b5, b6, b7, a0, a1))
        (String (encode_sextet (false, false, b0, b1, b2, b3)) EmptyString))
  | String (Ascii a0 a1 a2 a3 a4 a5 a6 a7) EmptyString =>
      String (encode_sextet (a2, a3, a4, a5, a6, a7)) (String (encode_sextet (false, false, false, false, a0, a1))
        EmptyString)
  | EmptyString => EmptyString
  end.

(** ** Decoding: line breaks are skipped, the unused bits of the last character are ignored *)
Definition is_line_break (c : ascii) : bool := bool_decide (c = "010"%char) || bool_decide (c = "013"%char).

Fixpoint skip_line_breaks (s : string) : string :=
  match s with
  | EmptyString => EmptyString
  | String c s => if is_line_break c then skip_line_breaks s else String c (skip_line_breaks s)
  end.

Fixpoint decode_quads (s : string) : option string :=
  match s with
  | EmptyString => Some EmptyString
  | String w (String x s') =>
      match decode_sextet w, decode_sextet x with
      | Some (w0, w1, w2, w3, w4, w5), Some (x0, x1, x2, x3, x4, x5) =>
          let a := Ascii x4 x5 w0 w1 w2 w3 w4 w5 in
          match s' with
          | EmptyString => Some (String a EmptyString)
          | String y s' =>
              match decode_sextet y with
              | Some (y0, y1, y2, y3, y4, y5) =>
                  let b := Ascii y2 y3 y4 y5 x0 x1 x2 x3 in
                  match s' with
                  | EmptyString => Some (String a (String b EmptyString))
                  | String z s' =>
                      match decode_sextet z, decode_quads s' with
                      | Some (z0, z1, z2, z3, z4, z5), Some rest =>
                          Some (String a (String b (String (Ascii z0 z1 z2 z3 z4 z5 y0 y1) rest)))
                      | _, _ => None
                      end
                  end
              | None => None
              end
          end
      | _, _ => None
      end
  | String _ EmptyString => None
  end.

Definition DecodeString (s : string) : option string := decode_quads (skip_line_breaks s).

(** ** Round trip *)
Lemma decode_encode_sextet x : decode_sextet (encode_sextet x) = Some x.
Proof. destruct x as [[[[[[] []] []] []] []] []]; vm_compute; reflexivity. Qed.

Lemma encode_sextet_no_break x : is_line_break (encode_sextet x) = false.
Proof. destruct x as [[[[[[] []] []] []] []] []]; vm_compute; reflexivity. Qed.

(** Induction in steps of three bytes. *)
Lemma triple_ind (P : string -> Prop) :
  P "" -> (forall a, P (String a "")) -> (forall a b, P (String a (String b ""))) ->
  (forall a b c s, P s -> P (String a (String b (String c s)))) -> forall s, P s.
Proof.
  intros H0 H1 H2 H3. fix IH 1. intros [|a [|b [|c s]]]; [exact H0|apply H1|apply H2|]. apply H3, IH.
Qed.

Lemma encode_no_breaks s : skip_line_breaks (EncodeToString s) = EncodeToString s.
Proof.
  induction s as [|[]|[] []|[] [] [] s IH] using triple_ind; cbn [EncodeToString skip_line_breaks];
    rewrite ?encode_sextet_no_break; [done..|by rewrite IH].
Qed.

Lemma base64_roundtrip s : DecodeString (EncodeToString s) = Some s.
Proof.
  unfold DecodeString. rewrite encode_no_breaks.
  induction s as [|[]|[] []|[] [] [] s IH] using triple_ind; cbn [EncodeToString decode_quads];
    rewrite ?decode_encode_sextet; [done..|]. by rewrite IH.
Qed.

(** ** [base64.StdEncoding]: two other characters, and padding to a multiple of four *)
Definition to_std (c : ascii) : ascii :=
  if decide (c = "-"%char) then "+"%char else if decide (c = "_"%char) then "/"%char else c.

(** The characters of the other alphabet become one of neither. *)
Definition from_std (c : ascii) : ascii :=
  if decide (c = "+"%char) then "-"%char else if decide (c = "/"%char) then "_"%char
  else if decide (c = "-"%char \/ c = "_"%char) then "="%char else c.

Fixpoint map_string (f : ascii -> ascii) (s : string) : string :=
  match s with
  | EmptyString => EmptyString
  | String c s => String (f c) (map_string f s)
  end.

Definition padding (n : nat) : string :=
  match n mod 4 with 2 => "==" | 3 => "=" | _ => "" end.

Definition StdEncodeToString (s : string) : string :=
  let e := map_string to_std (EncodeToString s) in e +:+ padding (String.length e).

Fixpoint cut_padding (s : string) : string * string :=
  match s with
  | EmptyString => (EmptyString, EmptyString)
  | String c s' => if decide (c = "="%char) then (EmptyString, s) else let (b, p) := cut_padding s' in (String c b, p)
  end.

Definition StdDecodeString (s : string) : option string :=
  let (body, pad) := cut_padding (skip_line_breaks s) in
  if decide (pad = padding (String.length body) /\ String.length body mod 4 <> 1) then
    decode_quads (map_string from_std body)
  else None.

(** What holds of every character of an encoding. *)
Lemma EncodeToString_chars (P : string -> Prop) s :
  P "" -> (forall x t, P t -> P (String (encode_sextet x) t)) -> P (EncodeToString s).
Proof.
  intros H0 HS. induction s as [|[]|[] []|[] [] [] s IH] using triple_ind; cbn [EncodeToString]; auto 10.
Qed.

Lemma from_to_std s : map_string from_std (map_string to_std (EncodeToString s)) = EncodeToString s.
Proof.
  apply EncodeToString_chars; [done|]. intros x t IH. cbn [map_string]. rewrite IH. f_equal.
  destruct x as [[[[[[] []] []] []] []] []]; vm_compute; reflexivity.
Qed.

Lemma to_std_clean s p :
  cut_padding (skip_line_breaks (map_string to_std (EncodeToString s) +:+ padding p)) =
  (map_string to_std (EncodeToString s), padding p).
Proof.
  apply EncodeToString_chars.
  - change (map_string to_std "" +:+ padding p) with (padding p). unfold padding. by destruct (p mod 4) as [|[|[|[|]]]].
  - intros x t IH. cbn [map_string].
    change (String ?c ?u +:+ ?v) with (String c (u +:+ v)). cbn [skip_line_breaks].
    assert (is_line_break (to_std (encode_sextet x)) = false /\ to_std (encode_sextet x) <> "="%char) as [-> Hn].
    { destruct x as [[[[[[] []] []] []] []] []]; vm_compute; done. }
    cbn [cut_padding]. rewrite decide_False by done. by rewrite IH.
Qed.

Lemma length_map_string f s : String.length (map_string f s) = String.length s.
Proof. induction s as [|c s IH]; [done|]. cbn. by rewrite IH. Qed.

Lemma EncodeToString_length s : String.length (EncodeToString s) mod 4 <> 1.
Proof.
  induction s as [|[]|[] []|[] [] [] s IH] using triple_ind; cbn [EncodeToString String.length]; [done..|].
  change (S (S (S (S ?n)))) with (4 + n). rewrite (Nat.Div0.add_mod 4). change (4 mod 4) with 0.
  by rewrite Nat.add_0_l, Nat.Div0.mod_mod.
Qed.

Lemma std_roundtrip s : StdDecodeString (StdEncodeToString s) = Some s.
Proof.
  unfold StdDecodeString, StdEncodeToString. cbn zeta. rewrite to_std_clean, decide_True.
  - rewrite from_to_std. pose proof (base64_roundtrip s) as E. unfold DecodeString in E. by rewrite encode_no_breaks in E.
  - split; [done|]. rewrite length_map_string. apply EncodeToString_length.
Qed.

Lemma EncodeToString_nil s : EncodeToString s = "" -> s = "".
Proof. by destruct s as [|[] [|[] [|[] s]]]. Qed.

(** ** [utf8.ValidString] *)
Definition byte (c : ascii) : nat := nat_of_ascii c.
Definition byte_in (lo hi : nat) (c : ascii) : bool := (lo <=? byte c)%nat && (byte c <=? hi)%nat.

(** A continuation byte. *)
Definition cont (c : ascii) : bool := byte_in 128 191 c.

Fixpoint ValidString (s : string) : bool :=
  match s with
  | EmptyString => true
  | String a s =>
      if byte_in 0 127 a then ValidString s
      else match s with
      | String b s =>
          if byte_in 194 223 a then cont b && ValidString s
          else match s with
          | String c s =>
              if byte_in 224 239 a then
                byte_in (if (byte a =? 224)%nat then 160 else 128) (if (byte a =? 237)%nat then 159 else 191) b &&
                cont c && ValidString s
              else match s with
              | String d s =>
                  byte_in 240 244 a &&
                  byte_in (if (byte a =? 240)%nat then 144 else 128) (if (byte a =? 244)%nat then 143 else 191) b &&
                  cont c && cont d && ValidString s
              | EmptyString => false
              end
          | EmptyString => false
          end
      | EmptyString => false
      end
  end.
