(* ===== verification/Programs.v ===== *)
(** * Programs over accesses to shared state

    Code that several goroutines or servers run at the same time is a program: a tree
    of accesses to what they share, each with the continuation for its result.  Between
    two accesses anything may happen.  What a program guarantees, whatever the others
    do, is stated with [holds]: given what an access may answer and how it changes the
    part of the state that only this program touches, every access is permitted and the
    result is as required. *)

From S2P Require Import Prelude.

Inductive prog (op : Type -> Type) (A : Type) : Type :=
  | Ret (a : A)
  | Do {B : Type} (o : op B) (k : B -> prog op A).
Arguments Ret {op A} & _.
Arguments Do {op A B} & _ _.

Fixpoint pbind {op A C} (p : prog op A) (k : A -> prog op C) : prog op C :=
  match p with
  | Ret a => k a
  | Do o k' => Do o (fun r => pbind (k' r) k)
  end.

Definition pmap {op A C} (f : A -> C) (p : prog op A) : prog op C := pbind p (fun a => Ret (f a)).

(** A program over some accesses as one over more. *)
Fixpoint lift {op op' : Type -> Type} (f : forall B, op B -> op' B) {A} (p : prog op A) : prog op' A :=
  match p with
  | Ret a => Ret a
  | Do o k => Do (f _ o) (fun r => lift f (k r))
  end.

Declare Scope prog_scope.
Delimit Scope prog_scope with prog.
Notation "'do' x <- o ; k" := (Do o (fun x => k)) (at level 10, x name, o at level 200, k at level 200) : prog_scope.
Notation "'run' x <- p ; k" := (pbind p (fun x => k)) (at level 10, x name, p at level 200, k at level 200) : prog_scope.

(** A computation that may fail, and the continuation of its success. *)
Definition rbind {op E A C} (p : prog op (E + A)) (k : A -> prog op (E + C)) : prog op (E + C) :=
  pbind p (fun r => match r with inl e => Ret (inl e) | inr a => k a end).

(** ** Guarantees *)
Section holds.
Context {op : Type -> Type} {S : Type}.
Context (permitted : forall B, op B -> S -> Prop).
Context (answers : forall B, op B -> S -> B -> S -> Prop).

Fixpoint holds {A} (p : prog op A) (Q : A -> S -> Prop) (s : S) : Prop :=
  match p with
  | Ret a => Q a s
  | Do o k => permitted _ o s /\ forall x s', answers _ o s x s' -> holds (k x) Q s'
  end.

Lemma holds_ret {A} (a : A) (Q : A -> S -> Prop) s : Q a s -> holds (Ret a) Q s.
Proof. done. Qed.

Lemma holds_do {A B} (o : op B) (k : B -> prog op A) (Q : A -> S -> Prop) s :
  permitted _ o s -> (forall x s', answers _ o s x s' -> holds (k x) Q s') -> holds (Do o k) Q s.
Proof. by split. Qed.

Lemma holds_mono {A} (p : prog op A) (Q R : A -> S -> Prop) s :
  (forall a s, Q a s -> R a s) -> holds p Q s -> holds p R s.
Proof.
  intros HQR. revert s. induction p as [a|B o k IH]; intros s; [by apply HQR|].
  intros [Ho Hk]. split; [done|]. eauto.
Qed.

Lemma holds_bind {A C} (p : prog op A) (k : A -> prog op C) (Q : C -> S -> Prop) (R : A -> S -> Prop) s :
  holds p R s -> (forall a s, R a s -> holds (k a) Q s) -> holds (pbind p k) Q s.
Proof.
  intros Hp Hk. revert s Hp. induction p as [a|B o k' IH]; intros s; [by apply Hk|].
  intros [Ho Hp]. split; [done|]. eauto.
Qed.

Lemma holds_and {A} (p : prog op A) (Q R : A -> S -> Prop) s :
  holds p Q s -> holds p R s -> holds p (fun a s => Q a s /\ R a s) s.
Proof.
  revert s. induction p as [a|B o k IH]; intros s; [by split|].
  intros [Ho Hq] [_ Hr]. split; [done|]. eauto.
Qed.
End holds.

(** ** Results, whatever the accesses answer *)
Fixpoint always {op A} (p : prog op A) (Q : A -> Prop) : Prop :=
  match p with
  | Ret a => Q a
  | Do _ k => forall x, always (k x) Q
  end.

Lemma always_mono {op A} (p : prog op A) (Q R : A -> Prop) : (forall a, Q a -> R a) -> always p Q -> always p R.
Proof. intros HQR. induction p as [a|B o k IH]; cbn; auto. Qed.

Lemma always_bind {op A C} (p : prog op A) (k : A -> prog op C) (Q : C -> Prop) (R : A -> Prop) :
  always p R -> (forall a, R a -> always (k a) Q) -> always (pbind p k) Q.
Proof. intros Hp Hk. induction p as [a|B o k' IH]; cbn in *; auto. Qed.

Lemma always_True {op A} (p : prog op A) : always p (fun _ => True).
Proof. induction p; cbn; auto. Qed.

(** ** Results of a program on its own *)
Section runs.
Context {op : Type -> Type} {S : Type}.
Context (answers : forall B, op B -> S -> B -> S -> Prop).

Fixpoint runs {A} (p : prog op A) (s : S) (a : A) (s' : S) : Prop :=
  match p with
  | Ret b => a = b /\ s' = s
  | Do o k => exists x s1, answers _ o s x s1 /\ runs (k x) s1 a s'
  end.

Lemma holds_runs {A} (p : prog op A) permitted (Q : A -> S -> Prop) s a s' :
  holds permitted answers p Q s -> runs p s a s' -> Q a s'.
Proof.
  revert s. induction p as [b|B o k IH]; intros s; cbn; [by intros ? [-> ->]|].
  intros [_ Hk] (x & s1 & Ha & Hr). eapply IH; [by apply Hk|done].
Qed.
End runs.
