(* ===== verification/CircuitBreaker.v ===== *)
(** * The circuit breaker of one backend ([pkg/vmcp/health/circuit_breaker.go])

    [circuitBreaker] is the mutex-protected state of one breaker; every method
    holds the mutex for its whole body, so a method is an atomic state
    transformer.  Each reading of the clock in a method is an argument.
    [CircuitBreaker] is the Go interface with its two implementations, and
    [cb_op] with [cb_run] are sequences of calls.  The abstract automaton
    [phase_step] is what a breaker promises; [cb_run] refines it. *)

From S2P Require Import Prelude.

Inductive CircuitState := CircuitClosed | CircuitOpen | CircuitHalfOpen.

#[export] Instance CircuitState_eq_dec : EqDecision CircuitState.
Proof. solve_decision. Defined.

Record circuitBreaker := {
  cb_name : string;
  cb_state : CircuitState;
  cb_failureCount : Z;
  cb_failureThreshold : Z;
  cb_timeout : Duration;
  cb_lastStateChange : Time;
  cb_lastFailureTime : Time;
  cb_halfOpenTestInProgress : bool;
}.

Definition newCircuitBreaker (failureThreshold : Z) (timeout : Duration)
    (name : string) (now : Time) : circuitBreaker := {|
  cb_name := name;
  cb_state := CircuitClosed;
  cb_failureCount := 0;
  cb_failureThreshold := failureThreshold;
  cb_timeout := timeout;
  cb_lastStateChange := now;
  cb_lastFailureTime := time.zero;
  cb_halfOpenTestInProgress := false;
|}.

(** The field assignments of the methods. *)
Definition cb_set_counters (count : Z) (lastFailure : Time) (testing : bool)
    (cb : circuitBreaker) : circuitBreaker := {|
  cb_name := cb_name cb;
  cb_state := cb_state cb;
  cb_failureCount := count;
  cb_failureThreshold := cb_failureThreshold cb;
  cb_timeout := cb_timeout cb;
  cb_lastStateChange := cb_lastStateChange cb;
  cb_lastFailureTime := lastFailure;
  cb_halfOpenTestInProgress := testing;
|}.

Definition cb_set_testing (testing : bool) (cb : circuitBreaker) : circuitBreaker :=
  cb_set_counters (cb_failureCount cb) (cb_lastFailureTime cb) testing cb.

Definition transitionTo (newState : CircuitState) (now : Time)
    (cb : circuitBreaker) : circuitBreaker := {|
  cb_name := cb_name cb;
  cb_state := newState;
  cb_failureCount := cb_failureCount cb;
  cb_failureThreshold := cb_failureThreshold cb;
  cb_timeout := cb_timeout cb;
  cb_lastStateChange := now;
  cb_lastFailureTime := cb_lastFailureTime cb;
  cb_halfOpenTestInProgress := cb_halfOpenTestInProgress cb;
|}.

Definition cb_RecordSuccess (now : Time) (cb : circuitBreaker) : circuitBreaker :=
  let cb := cb_set_counters 0 (cb_lastFailureTime cb) false cb in
  if decide (cb_state cb ≠ CircuitClosed) then transitionTo CircuitClosed now cb
  else cb.

(** [now] is the reading stored in [lastFailureTime], [now'] the one
    [transitionTo] takes. *)
Definition cb_RecordFailure (now now' : Time) (cb : circuitBreaker) : circuitBreaker :=
  let cb := cb_set_counters (wrap64 (cb_failureCount cb + 1)) now false cb in
  if bool_decide (cb_state cb = CircuitClosed) &&
     (cb_failureThreshold cb <=? cb_failureCount cb)%Z
  then transitionTo CircuitOpen now' cb
  else if decide (cb_state cb = CircuitHalfOpen) then transitionTo CircuitOpen now' cb
  else cb.

Definition tryTransitionOpenToHalfOpen (now now' : Time)
    (cb : circuitBreaker) : circuitBreaker * bool :=
  if bool_decide (cb_state cb = CircuitOpen) &&
     (cb_timeout cb <=? time.Sub now (cb_lastStateChange cb))%Z
  then (transitionTo CircuitHalfOpen now' cb, true)
  else (cb, false).

Definition cb_CanAttempt (now now' : Time) (cb : circuitBreaker) : circuitBreaker * bool :=
  match cb_state cb with
  | CircuitClosed => (cb, true)
  | CircuitOpen =>
      match tryTransitionOpenToHalfOpen now now' cb with
      | (cb, true) => (cb_set_testing true cb, true)
      | (cb, false) => (cb, false)
      end
  | CircuitHalfOpen =>
      if cb_halfOpenTestInProgress cb then (cb, false)
      else (cb_set_testing true cb, true)
  end.

Record circuitBreakerSnapshot := {
  snap_State : CircuitState;
  snap_FailureCount : Z;
  snap_LastStateChange : Time;
  snap_LastFailureTime : Time;
}.

Definition cb_GetSnapshot (cb : circuitBreaker) : circuitBreakerSnapshot := {|
  snap_State := cb_state cb;
  snap_FailureCount := cb_failureCount cb;
  snap_LastStateChange := cb_lastStateChange cb;
  snap_LastFailureTime := cb_lastFailureTime cb;
|}.

(** ** The interface and its two implementations *)
Inductive CircuitBreaker :=
  | alwaysClosedCircuit
  | aCircuitBreaker (cb : circuitBreaker).

Definition RecordSuccess (now : Time) (c : CircuitBreaker) : CircuitBreaker :=
  match c with
  | alwaysClosedCircuit => alwaysClosedCircuit
  | aCircuitBreaker cb => aCircuitBreaker (cb_RecordSuccess now cb)
  end.

Definition RecordFailure (now now' : Time) (c : CircuitBreaker) : CircuitBreaker :=
  match c with
  | alwaysClosedCircuit => alwaysClosedCircuit
  | aCircuitBreaker cb => aCircuitBreaker (cb_RecordFailure now now' cb)
  end.

Definition CanAttempt (now now' : Time) (c : CircuitBreaker) : CircuitBreaker * bool :=
  match c with
  | alwaysClosedCircuit => (alwaysClosedCircuit, true)
  | aCircuitBreaker cb =>
      let '(cb, ok) := cb_CanAttempt now now' cb in (aCircuitBreaker cb, ok)
  end.

Definition GetState (c : CircuitBreaker) : CircuitState :=
  match c with
  | alwaysClosedCircuit => CircuitClosed
  | aCircuitBreaker cb => cb_state cb
  end.

Definition GetLastStateChange (c : CircuitBreaker) : Time :=
  match c with
  | alwaysClosedCircuit => time.zero
  | aCircuitBreaker cb => cb_lastStateChange cb
  end.

Definition GetFailureCount (c : CircuitBreaker) : Z :=
  match c with
  | alwaysClosedCircuit => 0
  | aCircuitBreaker cb => cb_failureCount cb
  end.

Definition GetSnapshot (c : CircuitBreaker) : circuitBreakerSnapshot :=
  match c with
  | alwaysClosedCircuit => {|
      snap_State := CircuitClosed;
      snap_FailureCount := 0;
      snap_LastStateChange := time.zero;
      snap_LastFailureTime := time.zero |}
  | aCircuitBreaker cb => cb_GetSnapshot cb
  end.

(** ** Sequences of calls *)
Inductive cb_op :=
  | OpSuccess (now : Time)
  | OpFailure (now now' : Time)
  | OpAttempt (now now' : Time).

(** One call: the new state and, for an attempt, its answer. *)
Definition cb_do (op : cb_op) (cb : circuitBreaker) : circuitBreaker * option bool :=
  match op with
  | OpSuccess now => (cb_RecordSuccess now cb, None)
  | OpFailure now now' => (cb_RecordFailure now now' cb, None)
  | OpAttempt now now' => let '(cb, ok) := cb_CanAttempt now now' cb in (cb, Some ok)
  end.

Fixpoint cb_run (ops : list cb_op) (cb : circuitBreaker) : circuitBreaker * list (option bool) :=
  match ops with
  | [] => (cb, [])
  | op :: ops =>
      let '(cb, r) := cb_do op cb in
      let '(cb, rs) := cb_run ops cb in (cb, r :: rs)
  end.

Definition is_attempt (op : cb_op) : bool :=
  match op with OpAttempt _ _ => true | _ => false end.

Definition is_failure (op : cb_op) : bool :=
  match op with OpFailure _ _ => true | _ => false end.

(** How many attempts of a run were granted. *)
Definition granted (rs : list (option bool)) : nat :=
  length (filter (fun r => r = Some true) rs).

(** ** What a breaker promises: the abstract automaton

    A phase of the breaker; [Probing] is the half-open phase with its only
    probe in flight.  The labels are the calls with their answers. *)
Inductive phase := Serving | Blocked | Probing.

Inductive phase_label := LSuccess | LFailure | LAllowed | LRefused.

Inductive phase_step : phase -> phase_label -> phase -> Prop :=
  | step_success p : phase_step p LSuccess Serving
  | step_tolerate : phase_step Serving LFailure Serving
  | step_trip : phase_step Serving LFailure Blocked
  | step_blocked_failure : phase_step Blocked LFailure Blocked
  | step_probe_failed : phase_step Probing LFailure Blocked
  | step_serve : phase_step Serving LAllowed Serving
  | step_refuse : phase_step Blocked LRefused Blocked
  | step_probe : phase_step Blocked LAllowed Probing
  | step_probe_busy : phase_step Probing LRefused Probing.

Inductive phase_trace : phase -> list phase_label -> phase -> Prop :=
  | trace_nil p : phase_trace p [] p
  | trace_cons p l p' ls p'' :
      phase_step p l p' -> phase_trace p' ls p'' -> phase_trace p (l :: ls) p''.

(** The abstraction of a concrete state and of a call. *)
Definition cb_phase (cb : circuitBreaker) : phase :=
  match cb_state cb with
  | CircuitClosed => Serving
  | CircuitOpen => Blocked
  | CircuitHalfOpen => Probing
  end.

Definition op_label (op : cb_op) (r : option bool) : phase_label :=
  match op with
  | OpSuccess _ => LSuccess
  | OpFailure _ _ => LFailure
  | OpAttempt _ _ => if decide (r = Some true) then LAllowed else LRefused
  end.

(** ** The representation invariant

    A probe is recorded as in flight exactly in the half-open state. *)
Definition cb_wf (cb : circuitBreaker) : Prop :=
  cb_halfOpenTestInProgress cb = bool_decide (cb_state cb = CircuitHalfOpen).

Create HintDb breaker discriminated.
#[export] Hint Constructors phase_step phase_trace : breaker.

(** Case analysis on the state of a breaker and on the tests of a method. *)
Ltac cb_cases cb :=
  destruct cb as [? [] ? ? ? ? ? []]; simpl in *;
  unfold cb_RecordSuccess, cb_RecordFailure, cb_CanAttempt,
    tryTransitionOpenToHalfOpen, cb_set_testing, cb_set_counters, transitionTo in *;
  simpl in *; repeat (case_match; simplify_eq/=).

Lemma cb_new_wf th to nm now : cb_wf (newCircuitBreaker th to nm now).
Proof. done. Qed.

Lemma cb_do_wf op cb : cb_wf cb -> cb_wf (cb_do op cb).1.
Proof. intros Hwf. unfold cb_wf in *. destruct op; cb_cases cb; done. Qed.
#[export] Hint Resolve cb_new_wf cb_do_wf : breaker.

(** One call is one step of the automaton. *)
Lemma cb_do_refines op cb :
  cb_wf cb ->
  phase_step (cb_phase cb) (op_label op (cb_do op cb).2) (cb_phase (cb_do op cb).1).
Proof.
  intros Hwf. unfold cb_wf in Hwf. unfold cb_phase, op_label.
  destruct op; cb_cases cb; try done; eauto with breaker.
Qed.
#[export] Hint Resolve cb_do_refines : breaker.

Lemma cb_run_wf ops cb : cb_wf cb -> cb_wf (cb_run ops cb).1.
Proof.
  revert cb. induction ops as [|op ops IH]; intros cb Hwf; [done|]. simpl.
  pose proof (cb_do_wf op cb Hwf) as Hwf1.
  destruct (cb_do op cb) as [cb1 r]. pose proof (IH cb1 Hwf1).
  by destruct (cb_run ops cb1).
Qed.

Lemma cb_run_refines ops cb :
  cb_wf cb ->
  phase_trace (cb_phase cb) (zip_with op_label ops (cb_run ops cb).2)
    (cb_phase (cb_run ops cb).1).
Proof.
  revert cb. induction ops as [|op ops IH]; intros cb Hwf; [constructor|]. simpl.
  pose proof (cb_do_wf op cb Hwf) as Hwf1. pose proof (cb_do_refines op cb Hwf) as Hs.
  destruct (cb_do op cb) as [cb1 r]. pose proof (IH cb1 Hwf1) as Ht.
  destruct (cb_run ops cb1). simpl in *. eauto with breaker.
Qed.

(** ** Counting lemmas *)
Definition failures (ops : list cb_op) : nat :=
  length (filter (fun op => is_failure op = true) ops).

Lemma failures_cons op ops :
  failures (op :: ops) = (if is_failure op then 1 else 0) + failures ops.
Proof. unfold failures. rewrite filter_cons. by destruct op. Qed.

Lemma granted_cons r rs :
  granted (r :: rs) = (if decide (r = Some true) then 1 else 0) + granted rs.
Proof. unfold granted. rewrite filter_cons. by case_decide. Qed.

(** Probes still available without another failure. *)
Definition budget (cb : circuitBreaker) : nat :=
  match cb_state cb with CircuitOpen => 1 | _ => 0 end.

Definition not_success (op : cb_op) : Prop :=
  match op with OpSuccess _ => False | _ => True end.

(** One call spends the probe budget. *)
Lemma cb_do_budget op cb :
  cb_wf cb -> cb_state cb ≠ CircuitClosed -> not_success op ->
  cb_state (cb_do op cb).1 ≠ CircuitClosed /\
  (if decide ((cb_do op cb).2 = Some true) then 1 else 0) + budget (cb_do op cb).1
    <= (if is_failure op then 1 else 0) + budget cb.
Proof.
  unfold cb_wf, budget. intros Hwf Hc Hop.
  destruct op; [done|..]; cb_cases cb; try done; split; try done; lia.
Qed.

Lemma cb_run_budget ops cb :
  cb_wf cb -> cb_state cb ≠ CircuitClosed -> Forall not_success ops ->
  granted (cb_run ops cb).2 <= budget cb + failures ops.
Proof.
  revert cb. induction ops as [|op ops IH]; intros cb Hwf Hc Hops; [unfold granted; simpl; lia|].
  inversion_clear Hops as [|?? Hop Hops']. rewrite failures_cons.
  pose proof (cb_do_wf op cb Hwf) as Hwf1.
  destruct (cb_do_budget op cb Hwf Hc Hop) as [Hc1 Hb]. simpl.
  destruct (cb_do op cb) as [cb1 r]. simpl in *.
  pose proof (IH cb1 Hwf1 Hc1 Hops') as Hrec.
  destruct (cb_run ops cb1) as [cb2 rs]. simpl in *.
  rewrite granted_cons. lia.
Qed.

(** One call that is not a success counts the failures and opens the
    breaker at the threshold. *)
Definition trip_inv (th : Z) (n : nat) (cb : circuitBreaker) : Prop :=
  cb_failureThreshold cb = th /\ cb_failureCount cb = Z.of_nat n /\
  (cb_state cb = CircuitClosed <-> (Z.of_nat n < th)%Z).

Lemma cb_do_trip th n op cb :
  (1 <= th)%Z -> (Z.of_nat n + 1 <= MaxInt64)%Z -> not_success op -> trip_inv th n cb ->
  trip_inv th (n + (if is_failure op then 1 else 0)) (cb_do op cb).1.
Proof.
  intros Hth Hn Hop (Ht & Hc & Hs). unfold trip_inv.
  assert (wrap64 (Z.of_nat n + 1) = Z.of_nat n + 1)%Z as Hw
    by (apply wrap64_id; unfold MinInt64; lia).
  destruct op; [done|..]; cb_cases cb; try rewrite Hw in *;
    repeat split; intros; try done; try lia; try naive_solver lia.
  all: match goal with H : (_ && _)%bool = _ |- _ => revert H end; rewrite ?andb_true_l;
    intros; destruct Hs; try lia; naive_solver lia.
Qed.

Lemma cb_run_trip th n ops cb :
  (1 <= th)%Z -> (Z.of_nat (n + failures ops) <= MaxInt64)%Z -> Forall not_success ops ->
  trip_inv th n cb -> trip_inv th (n + failures ops) (cb_run ops cb).1.
Proof.
  intros Hth. revert n cb. induction ops as [|op ops IH]; intros n cb Hn Hops Hinv.
  { by rewrite Nat.add_0_r. }
  inversion_clear Hops as [|?? Hop Hops']. rewrite failures_cons in *. simpl.
  assert (trip_inv th (n + (if is_failure op then 1 else 0)) (cb_do op cb).1) as Hinv1.
  { destruct (is_failure op) eqn:Ef.
    - pose proof (cb_do_trip th n op cb Hth ltac:(lia) Hop Hinv) as Hd. by rewrite Ef in Hd.
    - destruct op; [done|done|]. rewrite Nat.add_0_r.
      destruct Hinv as (? & ? & ?). unfold trip_inv. cb_cases cb; naive_solver. }
  destruct (cb_do op cb) as [cb1 r]. simpl in *.
  rewrite Nat.add_assoc in *. pose proof (IH _ cb1 Hn Hops' Hinv1) as Hrec.
  by destruct (cb_run ops cb1).
Qed.

Lemma cb_run_app ops ops' cb cb' rs :
  cb_run ops cb = (cb', rs) ->
  cb_run (ops ++ ops') cb = let '(cb'', rs') := cb_run ops' cb' in (cb'', rs ++ rs').
Proof.
  revert cb cb' rs. induction ops as [|o ops IH]; intros cb cb' rs E.
  - simplify_eq/=. by destruct (cb_run ops' cb').
  - simpl in *. destruct (cb_do o cb) as [cb1 r1].
    destruct (cb_run ops cb1) as [cb2 r2] eqn:E2.
    simplify_eq. rewrite (IH _ _ _ E2). by destruct (cb_run ops' cb').
Qed.

(** The answer of an open breaker. *)
Lemma cb_attempt_open now now' cb :
  cb_state cb = CircuitOpen ->
  cb_CanAttempt now now' cb =
    if (cb_timeout cb <=? time.Sub now (cb_lastStateChange cb))%Z
    then (cb_set_testing true (transitionTo CircuitHalfOpen now' cb), true)
    else (cb, false).
Proof.
  intros Ho. unfold cb_CanAttempt, tryTransitionOpenToHalfOpen. rewrite Ho. simpl.
  by destruct (_ <=? _)%Z.
Qed.

Definition attempt_before (deadline : Time) (op : cb_op) : Prop :=
  match op with OpAttempt now _ => (now < deadline)%Z | _ => False end.

Lemma cb_run_refused ops cb :
  cb_state cb = CircuitOpen -> (0 <= cb_timeout cb <= MaxInt64)%Z ->
  Forall (attempt_before (cb_lastStateChange cb + cb_timeout cb)) ops ->
  cb_run ops cb = (cb, replicate (length ops) (Some false)).
Proof.
  intros Ho Ht Hops. induction Hops as [|op ops Hop Hops IH]; [done|]. simpl.
  destruct op as [|?|now now']; [done..|]. simpl in *. rewrite cb_attempt_open by done.
  assert ((cb_timeout cb <=? time.Sub now (cb_lastStateChange cb))%Z = false) as ->.
  { apply Z.leb_gt. unfold time.Sub, MinInt64, MaxInt64 in *. lia. }
  by rewrite IH.
Qed.

(** C17. Every sequence of calls to a freshly created breaker, answers
    included, is a run of the three-phase automaton [phase_step]: it serves,
    trips on a failure, refuses while blocked, lets one probe through, refuses
    others while the probe is in flight, and goes back to serving only on a
    success or to blocked on the probe's failure.  In particular no other
    transition between the states exists. *)
Theorem breaker_refines_automaton (th : Z) (to : Duration) (nm : string) (now : Time)
    (ops : list cb_op) :
  let cb := newCircuitBreaker th to nm now in
  phase_trace Serving (zip_with op_label ops (cb_run ops cb).2)
    (cb_phase (cb_run ops cb).1).
Proof. apply (cb_run_refines ops (newCircuitBreaker th to nm now)), cb_new_wf. Qed.

(** While the circuit is not closed and no success is recorded, the
    number of attempts let through is at most the number of recorded failures,
    plus one if the circuit is open (rather than half-open) at the start: a
    recovery test is never run twice at the same time, whatever the order in
    which concurrent health checks ask. *)
Theorem breaker_single_probe (th : Z) (to : Duration) (nm : string) (now : Time)
    (setup ops : list cb_op) :
  let cb := (cb_run setup (newCircuitBreaker th to nm now)).1 in
  cb_state cb ≠ CircuitClosed -> Forall not_success ops ->
  granted (cb_run ops cb).2 <=
    (if decide (cb_state cb = CircuitOpen) then 1 else 0) + failures ops.
Proof.
  intros cb Hc Hops.
  pose proof (cb_run_budget ops cb (cb_run_wf _ _ (cb_new_wf _ _ _ _)) Hc Hops) as Hb.
  unfold budget in Hb. destruct (cb_state cb); case_decide; congruence || lia.
Qed.

Lemma breaker_single_probe_witness :
  granted (cb_run [OpAttempt 120 121; OpAttempt 122 123; OpFailure 124 125; OpAttempt 126 127]
    (cb_run [OpFailure 1 2; OpFailure 3 4] (newCircuitBreaker 2 100 "b" 0)).1).2 <= 1 + 1.
Proof.
  apply (breaker_single_probe 2 100 "b" 0 [OpFailure 1 2; OpFailure 3 4]).
  - vm_compute. discriminate.
  - repeat constructor.
Defined.

(** As long as no success is recorded, a breaker with a threshold of at
    least one counts exactly the failures recorded, and its circuit is closed
    if and only if fewer failures than the threshold were recorded. *)
Theorem breaker_trips_at_threshold (th : Z) (to : Duration) (nm : string) (now : Time)
    (ops : list cb_op) :
  let cb := (cb_run ops (newCircuitBreaker th to nm now)).1 in
  (1 <= th)%Z -> (Z.of_nat (failures ops) <= MaxInt64)%Z -> Forall not_success ops ->
  cb_failureCount cb = Z.of_nat (failures ops) /\
  (cb_state cb = CircuitClosed <-> (Z.of_nat (failures ops) < th)%Z).
Proof.
  intros cb Hth Hn Hops.
  assert (trip_inv th 0 (newCircuitBreaker th to nm now)) as H0.
  { repeat split; simpl; intros; done || lia. }
  by destruct (cb_run_trip th 0 ops _ Hth Hn Hops H0) as (_ & ? & ?).
Qed.

Lemma breaker_trips_at_threshold_witness :
  cb_failureCount (cb_run [OpFailure 1 2; OpAttempt 3 4; OpFailure 5 6]
    (newCircuitBreaker 2 100 "b" 0)).1 = 2%Z.
Proof.
  apply (breaker_trips_at_threshold 2 100 "b" 0 [OpFailure 1 2; OpAttempt 3 4; OpFailure 5 6]).
  - lia.
  - vm_compute. discriminate.
  - repeat constructor.
Defined.

(** An open circuit refuses every attempt made before its timeout has
    elapsed since it opened, whatever their number and order, without changing
    state; the first attempt made once the timeout has elapsed is let through
    and moves the circuit to half-open.  So a tripped breaker recovers. *)
Theorem breaker_recovers_after_timeout (cb : circuitBreaker) (early : list cb_op)
    (now now' : Time) :
  let deadline := (cb_lastStateChange cb + cb_timeout cb)%Z in
  cb_state cb = CircuitOpen -> (0 <= cb_timeout cb <= MaxInt64)%Z ->
  Forall (attempt_before deadline) early -> (deadline <= now)%Z ->
  let '(cb', rs) := cb_run (early ++ [OpAttempt now now']) cb in
  rs = replicate (length early) (Some false) ++ [Some true] /\
  cb_state cb' = CircuitHalfOpen.
Proof.
  intros deadline Ho Ht He Hnow.
  rewrite (cb_run_app _ _ _ _ _ (cb_run_refused early cb Ho Ht He)). simpl.
  rewrite cb_attempt_open by done.
  assert ((cb_timeout cb <=? time.Sub now (cb_lastStateChange cb))%Z = true) as ->.
  { apply Z.leb_le. unfold deadline, time.Sub, MinInt64, MaxInt64 in *. lia. }
  done.
Qed.

Lemma breaker_recovers_after_timeout_witness :
  let cb := (cb_run [OpFailure 10 11] (newCircuitBreaker 1 100 "b" 0)).1 in
  (cb_run ([OpAttempt 20 21; OpAttempt 110 112] ++ [OpAttempt 111 112]) cb).2
    = [Some false; Some false; Some true].
Proof.
  pose proof (breaker_recovers_after_timeout
    (cb_run [OpFailure 10 11] (newCircuitBreaker 1 100 "b" 0)).1
    [OpAttempt 20 21; OpAttempt 110 112] 111 112 eq_refl ltac:(vm_compute; split; discriminate)
    ltac:(repeat constructor) ltac:(vm_compute; discriminate)) as [H _].
  exact H.
Defined.
