(* ===== verification/VmcpTypes.v ===== *)
(** * Domain types of the virtual MCP server ([pkg/vmcp])

    The shared records of [types.go], the error classification of [errors.go]
    and the two backend registries of [registry.go].  The registry interface
    is the class [BackendRegistry]; what its clients rely on is
    [BackendRegistryOk], which both implementations satisfy. *)

From S2P Require Import Prelude.

(** Decoded JSON values ([map[string]any] of the sources).  [JNum] is a number that is
    an integer, [JFloat] any other number with its text; an object is the list of its
    entries in the order a loop visits them. *)
Inductive json :=
  | JNull
  | JBool (b : bool)
  | JNum (n : Z)
  | JFloat (text : string)
  | JStr (s : string)
  | JArr (l : list json)
  | JObj (fields : list (string * json)).

Inductive BackendHealthStatus :=
  | BackendHealthy
  | BackendDegraded
  | BackendUnhealthy
  | BackendUnknown
  | BackendUnauthenticated.

#[export] Instance BackendHealthStatus_eq_dec : EqDecision BackendHealthStatus.
Proof. solve_decision. Defined.

Definition ToCRDStatus (s : BackendHealthStatus) : string :=
  match s with
  | BackendHealthy => "ready"
  | BackendDegraded => "degraded"
  | BackendUnhealthy => "unavailable"
  | BackendUnauthenticated => "unauthenticated"
  | BackendUnknown => "unknown"
  end.

Definition StrategyTypeUnauthenticated : string := "unauthenticated".

(** Only the strategy's type is read by the modelled code; the configuration
    of the individual strategies is carried along. *)
Record BackendAuthStrategy := {
  bas_Type : string;
  bas_Config : json;
}.

Record HeaderForwardConfig := {
  hf_AddPlaintextHeaders : gmap string string;
  hf_AddHeadersFromSecret : gmap string string;
}.

Record BackendTarget := {
  bt_WorkloadID : string;
  bt_WorkloadName : string;
  bt_BaseURL : string;
  bt_TransportType : string;
  bt_CABundlePath : string;
  bt_CABundleData : string;
  bt_OriginalCapabilityName : string;
  bt_AuthConfig : option BackendAuthStrategy;
  bt_SessionAffinity : bool;
  bt_HealthStatus : option BackendHealthStatus;  (* [None] is the empty string *)
  bt_HeaderForward : option HeaderForwardConfig;
  bt_Metadata : gmap string string;
}.

Definition GetBackendCapabilityName (t : BackendTarget) (resolvedName : string) : string :=
  if decide (bt_OriginalCapabilityName t ≠ "") then bt_OriginalCapabilityName t
  else resolvedName.

Record Backend := {
  b_ID : string;
  b_Name : string;
  b_BaseURL : string;
  b_TransportType : string;
  b_Type : string;
  b_CABundlePath : string;
  b_CABundleData : string;
  b_HealthStatus : option BackendHealthStatus;
  b_AuthConfig : option BackendAuthStrategy;
  b_AuthConfigRef : string;
  b_HeaderForward : option HeaderForwardConfig;
  b_Metadata : gmap string string;
}.

Record ToolAnnotations := {
  ann_Title : string;
  ann_ReadOnlyHint : option bool;
  ann_DestructiveHint : option bool;
  ann_IdempotentHint : option bool;
  ann_OpenWorldHint : option bool;
}.

Record Tool := {
  tool_Name : string;
  tool_Description : string;
  tool_InputSchema : json;
  tool_OutputSchema : json;
  tool_Annotations : option ToolAnnotations;
  tool_BackendID : string;
}.

Record Resource := {
  res_URI : string;
  res_Name : string;
  res_Description : string;
  res_MimeType : string;
  res_BackendID : string;
}.

Record ResourceTemplate := {
  rt_URITemplate : string;
  rt_Name : string;
  rt_Description : string;
  rt_MimeType : string;
  rt_BackendID : string;
}.

Record PromptArgument := {
  arg_Name : string;
  arg_Description : string;
  arg_Required : bool;
}.

Record Prompt := {
  prompt_Name : string;
  prompt_Description : string;
  prompt_Arguments : list PromptArgument;
  prompt_BackendID : string;
}.

Record RoutingTable := {
  route_Tools : gmap string BackendTarget;
  route_Resources : gmap string BackendTarget;
  route_ResourceTemplates : gmap string BackendTarget;
  route_Prompts : gmap string BackendTarget;
}.

(** What a backend lists ([vmcp.CapabilityList]). *)
Record CapabilityList := {
  cl_Tools : list Tool;
  cl_Resources : list Resource;
  cl_ResourceTemplates : list ResourceTemplate;
  cl_Prompts : list Prompt;
  cl_SupportsLogging : bool;
  cl_SupportsSampling : bool;
}.

Inductive ConflictResolutionStrategy :=
  | ConflictStrategyPrefix
  | ConflictStrategyPriority
  | ConflictStrategyManual
  | ConflictStrategyOther (s : string).  (* any other string, the empty one included *)

(** ** Registries *)
Definition BackendToTarget (b : Backend) : BackendTarget := {|
  bt_WorkloadID := b_ID b;
  bt_WorkloadName := b_Name b;
  bt_BaseURL := b_BaseURL b;
  bt_TransportType := b_TransportType b;
  bt_CABundlePath := b_CABundlePath b;
  bt_CABundleData := b_CABundleData b;
  bt_OriginalCapabilityName := "";
  bt_AuthConfig := b_AuthConfig b;
  bt_SessionAffinity := false;
  bt_HealthStatus := b_HealthStatus b;
  bt_HeaderForward := b_HeaderForward b;
  bt_Metadata := b_Metadata b;
|}.

(** The interface [vmcp.BackendRegistry]. *)
Class BackendRegistry (R : Type) := {
  reg_Get : R -> string -> option Backend;
  reg_List : R -> list Backend;
  reg_Count : R -> nat;
}.

(** What a client of a registry relies on. *)
Class BackendRegistryOk {R : Type} `{BackendRegistry R} (r : R) : Prop := {
  reg_get_id : forall id b, reg_Get r id = Some b -> b_ID b = id;
  reg_list_get : forall b, b ∈ reg_List r <-> reg_Get r (b_ID b) = Some b;
  reg_count_list : reg_Count r = length (reg_List r);
}.

Record immutableRegistry := { ir_backends : gmap string Backend }.

(** [m[b.ID] = b] for every [b] of the slice, in order. *)
Definition index_backends (backends : list Backend) : gmap string Backend :=
  foldl (fun m b => <[b_ID b := b]> m) ∅ backends.

Definition NewImmutableRegistry (backends : list Backend) : immutableRegistry :=
  {| ir_backends := index_backends backends |}.

#[export] Instance immutableRegistry_registry : BackendRegistry immutableRegistry := {|
  reg_Get r id := ir_backends r !! id;
  reg_List r := (map_to_list (ir_backends r)).*2;
  reg_Count r := size (ir_backends r);
|}.

Record dynamicRegistry := {
  dr_backends : gmap string Backend;
  dr_version : Z;  (* uint64 *)
}.

Definition NewDynamicRegistry (backends : list Backend) : dynamicRegistry :=
  {| dr_backends := index_backends backends; dr_version := 0 |}.

#[export] Instance dynamicRegistry_registry : BackendRegistry dynamicRegistry := {|
  reg_Get r id := dr_backends r !! id;
  reg_List r := (map_to_list (dr_backends r)).*2;
  reg_Count r := size (dr_backends r);
|}.

Definition Upsert (backend : Backend) (r : dynamicRegistry) : dynamicRegistry * option string :=
  if decide (b_ID backend = "") then (r, Some "backend ID cannot be empty")
  else ({| dr_backends := <[b_ID backend := backend]> (dr_backends r);
           dr_version := wrapU64 (dr_version r + 1) |}, None).

Definition Remove (backendID : string) (r : dynamicRegistry) : dynamicRegistry * option string :=
  ({| dr_backends := delete backendID (dr_backends r);
      dr_version := wrapU64 (dr_version r + 1) |}, None).

Definition Version (r : dynamicRegistry) : Z := dr_version r.

Inductive registry_op := RegUpsert (b : Backend) | RegRemove (id : string).

Definition registry_do (op : registry_op) (r : dynamicRegistry) : dynamicRegistry :=
  match op with
  | RegUpsert b => (Upsert b r).1
  | RegRemove id => (Remove id r).1
  end.

Definition registry_run (ops : list registry_op) (r : dynamicRegistry) : dynamicRegistry :=
  foldl (fun r op => registry_do op r) r ops.

(** ** Errors ([errors.go])

    A Go error is its message and the sentinels its chain wraps;
    [errors.Is] looks a sentinel up in the chain. *)
Inductive sentinel :=
  | ErrNotFound | ErrInvalidConfig | ErrAuthenticationFailed | ErrAuthorizationFailed
  | ErrWorkflowFailed | ErrTimeout | ErrCancelled | ErrInvalidInput
  | ErrUnsupportedTransport | ErrToolExecutionFailed | ErrBackendUnavailable
  | ErrToolNameConflict.

#[export] Instance sentinel_eq_dec : EqDecision sentinel.
Proof. solve_decision. Defined.

Record error := { err_chain : list sentinel; err_Error : string }.

Definition errors_Is (e : error) (s : sentinel) : bool := bool_decide (s ∈ err_chain e).

(** [strings.ToLower] on ASCII text and [strings.Contains]. *)
Definition ascii_lower (a : Ascii.ascii) : Ascii.ascii :=
  let n := Ascii.nat_of_ascii a in
  if (65 <=? n)%nat && (n <=? 90)%nat then Ascii.ascii_of_nat (n + 32) else a.

Fixpoint ToLower (s : string) : string :=
  match s with
  | EmptyString => EmptyString
  | String a s => String (ascii_lower a) (ToLower s)
  end.

Definition Contains (s substr : string) : bool :=
  if String.index 0 substr s is Some _ then true else false.

Definition IsAuthenticationError (err : option error) : bool :=
  match err with
  | None => false
  | Some e =>
      let errLower := ToLower (err_Error e) in
      if Contains errLower "authentication failed" ||
         Contains errLower "authentication error" then true
      else if Contains errLower "401 unauthorized" ||
              Contains errLower "unauthorized (401)" ||
              Contains errLower "403 forbidden" ||
              Contains errLower "http 401" ||
              Contains errLower "http 403" ||
              Contains errLower "status code 401" ||
              Contains errLower "status code 403" then true
      else if Contains errLower "request unauthenticated" ||
              Contains errLower "request unauthorized" ||
              Contains errLower "access denied" then true
      else if Contains errLower "authorization required" then true
      else false
  end.

Definition IsTimeoutError (err : option error) : bool :=
  match err with
  | None => false
  | Some e =>
      let errLower := ToLower (err_Error e) in
      Contains errLower "timeout" ||
      Contains errLower "deadline exceeded" ||
      Contains errLower "context deadline exceeded"
  end.

Definition IsConnectionError (err : option error) : bool :=
  match err with
  | None => false
  | Some e =>
      let errStr := err_Error e in
      let errLower := ToLower errStr in
      if existsb (Contains errLower)
           ["connection refused"; "connection reset"; "no route to host";
            "network is unreachable"; "broken pipe"; "connection closed"] then true
      else if Contains errStr "EOF" then true
      else if existsb (Contains errLower)
           ["500 internal server error"; "502 bad gateway";
            "503 service unavailable"; "504 gateway timeout";
            "status code 500"; "status code 502";
            "status code 503"; "status code 504"] then true
      else false
  end.

(** ** Registry lemmas *)
Definition ids_match (m : gmap string Backend) : Prop :=
  forall id b, m !! id = Some b -> b_ID b = id.

Lemma ids_match_insert b m : ids_match m -> ids_match (<[b_ID b := b]> m).
Proof. intros Hm id b'. rewrite lookup_insert_Some. intros [[? ?]|[? ?]]; subst; auto. Qed.

Lemma ids_match_delete id m : ids_match m -> ids_match (delete id m).
Proof. intros Hm id' b'. rewrite lookup_delete_Some. intros [? ?]; auto. Qed.

Lemma index_backends_ids bs : ids_match (index_backends bs).
Proof.
  unfold index_backends. assert (ids_match ∅) as H0 by (intros id b; by rewrite lookup_empty).
  revert H0. generalize (∅ : gmap string Backend).
  induction bs as [|b bs IH]; intros m Hm; [done|]. simpl. by apply IH, ids_match_insert.
Qed.

Lemma index_backends_dom bs id : id ∈ dom (index_backends bs) <-> id ∈ b_ID <$> bs.
Proof.
  unfold index_backends. assert (forall m : gmap string Backend,
    id ∈ dom (foldl (fun m b => <[b_ID b := b]> m) m bs) <-> id ∈ dom m \/ id ∈ b_ID <$> bs) as H.
  { induction bs as [|b bs IH]; intros m; simpl; [set_solver|]. rewrite IH. set_solver. }
  rewrite H. set_solver.
Qed.

Lemma index_backends_elem bs id b : index_backends bs !! id = Some b -> b ∈ bs.
Proof.
  unfold index_backends. assert (forall m : gmap string Backend,
    foldl (fun m b => <[b_ID b := b]> m) m bs !! id = Some b -> m !! id = Some b \/ b ∈ bs) as H.
  { induction bs as [|b' bs IH]; intros m; simpl; [auto|]. intros [Hl|]%IH; [|set_solver].
    apply lookup_insert_Some in Hl as [[_ ->]|[_ ?]]; set_solver. }
  intros Hl%H. rewrite lookup_empty in Hl. by destruct Hl.
Qed.

Lemma index_backends_own bs b :
  NoDup (b_ID <$> bs) -> b ∈ bs -> index_backends bs !! b_ID b = Some b.
Proof.
  intros Hn Hb. assert (b_ID b ∈ dom (index_backends bs)) as [b' Hb']%elem_of_dom
    by (apply index_backends_dom, list_elem_of_fmap; eauto).
  rewrite Hb'. f_equal. eapply (NoDup_fmap_elem b_ID); [done|by eapply index_backends_elem|done|].
  by eapply index_backends_ids.
Qed.

Lemma ids_match_values m b :
  ids_match m -> b ∈ (map_to_list m).*2 <-> m !! b_ID b = Some b.
Proof.
  intros Hm. rewrite list_elem_of_fmap. split.
  - intros ([id b'] & -> & Hin%elem_of_map_to_list). simpl. by rewrite (Hm _ _ Hin).
  - intros Hb. exists (b_ID b, b). split; [done|]. by apply elem_of_map_to_list.
Qed.
#[export] Hint Resolve ids_match_insert ids_match_delete index_backends_ids : toolhive.

Lemma immutableRegistry_ok r : ids_match (ir_backends r) -> BackendRegistryOk r.
Proof.
  intros Hm. split; simpl; [done|intros b; by apply ids_match_values|].
  by rewrite length_fmap, length_map_to_list.
Qed.

Lemma dynamicRegistry_ok r : ids_match (dr_backends r) -> BackendRegistryOk r.
Proof.
  intros Hm. split; simpl; [done|intros b; by apply ids_match_values|].
  by rewrite length_fmap, length_map_to_list.
Qed.

#[export] Instance NewImmutableRegistry_ok bs : BackendRegistryOk (NewImmutableRegistry bs).
Proof. apply immutableRegistry_ok, index_backends_ids. Qed.

Lemma registry_do_ids op r : ids_match (dr_backends r) -> ids_match (dr_backends (registry_do op r)).
Proof.
  intros Hm. destruct op; simpl; unfold Upsert; [case_decide|]; simpl; auto with toolhive.
Qed.

Lemma registry_run_ids ops r : ids_match (dr_backends r) -> ids_match (dr_backends (registry_run ops r)).
Proof.
  revert r. induction ops as [|op ops IH]; intros r Hm; [done|]. by apply IH, registry_do_ids.
Qed.

(** Mutations that are counted. *)
Definition counted (op : registry_op) : bool :=
  match op with RegUpsert b => bool_decide (b_ID b ≠ "") | RegRemove _ => true end.

Definition mutations (ops : list registry_op) : nat :=
  length (filter (fun op => counted op = true) ops).

Lemma registry_do_version op r :
  dr_version (registry_do op r) = if counted op then wrapU64 (dr_version r + 1) else dr_version r.
Proof.
  destruct op; simpl; [|done]. unfold Upsert.
  case_decide; case_bool_decide; simpl; done || congruence.
Qed.

Lemma registry_do_uncounted op r : counted op = false -> registry_do op r = r.
Proof.
  destruct op; simpl; [|done]. unfold Upsert. intros Hc%bool_decide_eq_false.
  case_decide; [done|by destruct Hc].
Qed.

Lemma wrapU64_add a b : wrapU64 (wrapU64 a + b) = wrapU64 (a + b).
Proof. unfold wrapU64. by rewrite Z.add_mod_idemp_l. Qed.

Lemma registry_run_version ops r :
  wrapU64 (dr_version (registry_run ops r)) = wrapU64 (dr_version r + Z.of_nat (mutations ops)).
Proof.
  revert r. induction ops as [|op ops IH]; intros r.
  - unfold mutations. simpl. by rewrite Z.add_0_r.
  - change (registry_run (op :: ops) r) with (registry_run ops (registry_do op r)).
    rewrite IH, registry_do_version. unfold mutations. rewrite filter_cons.
    destruct (counted op); simpl; [|done]. rewrite wrapU64_add. f_equal. lia.
Qed.

Lemma registry_run_no_mutations ops r : mutations ops = 0 -> registry_run ops r = r.
Proof.
  revert r. induction ops as [|op ops IH]; intros r Hm; [done|].
  unfold mutations in Hm. rewrite filter_cons in Hm.
  destruct (counted op) eqn:E; simpl in *; [done|].
  rewrite registry_do_uncounted by done. by apply IH.
Qed.

(** The version of the dynamic registry is a sound cache key: between two
    points with fewer than 2^64 mutations in between, an unchanged version
    means an unchanged set of backends. *)
Theorem registry_version_sound (ops : list registry_op) (r : dynamicRegistry) :
  (Z.of_nat (mutations ops) < 2 ^ 64)%Z ->
  Version (registry_run ops r) = Version r -> registry_run ops r = r.
Proof.
  unfold Version. intros Hlt Hv. apply registry_run_no_mutations.
  pose proof (registry_run_version ops r) as Hr. rewrite Hv in Hr.
  unfold wrapU64 in Hr.
  assert ((Z.of_nat (mutations ops)) `mod` 2 ^ 64 = 0)%Z as H0.
  { replace (Z.of_nat (mutations ops)) with
      ((dr_version r + Z.of_nat (mutations ops)) - dr_version r)%Z by lia.
    by rewrite Zminus_mod, <- Hr, Z.sub_diag. }
  rewrite Z.mod_small in H0 by lia. lia.
Qed.

Definition sample_backend (id : string) : Backend := {|
  b_ID := id; b_Name := id; b_BaseURL := "http://localhost:8080"; b_TransportType := "sse";
  b_Type := ""; b_CABundlePath := ""; b_CABundleData := ""; b_HealthStatus := None;
  b_AuthConfig := None; b_AuthConfigRef := ""; b_HeaderForward := None; b_Metadata := ∅ |}.

Lemma registry_version_sound_witness :
  registry_run [RegUpsert (sample_backend "")] (NewDynamicRegistry [sample_backend "a"])
    = NewDynamicRegistry [sample_backend "a"].
Proof.
  apply (registry_version_sound [RegUpsert (sample_backend "")]
           (NewDynamicRegistry [sample_backend "a"])).
  - vm_compute. reflexivity.
  - reflexivity.
Defined.

(** Whatever sequence of upserts and removals is applied to a registry
    built from a list of backends, the registry keeps the contract its clients
    rely on: it returns a backend only under that backend's own identifier,
    lists exactly the backends it returns, and counts them. *)
Theorem dynamic_registry_contract (bs : list Backend) (ops : list registry_op) :
  BackendRegistryOk (registry_run ops (NewDynamicRegistry bs)).
Proof. apply dynamicRegistry_ok, registry_run_ids, index_backends_ids. Qed.
