(* ===== verification/HealthStatus.v ===== *)
(** * Backend health tracking ([pkg/vmcp/health/status.go])

    [statusTracker] holds one [backendHealthState] per backend, each with its
    circuit breaker.  The methods run under the tracker's mutex, so they are
    atomic; the state pointers never leave the lock ([copyState] hands out
    copies), so the map of values below has no aliasing to model.

    Methods that read the clock take [clk : nat -> Time]: [clk i] is the
    reading at the [i]-th [time.Now()] of the call in textual order, callees
    included. *)

From S2P Require Import Prelude VmcpTypes CircuitBreaker.

Abbreviation Clock := (nat -> Time) (only parsing).

Record CircuitBreakerConfig := {
  cbc_Enabled : bool;
  cbc_FailureThreshold : Z;
  cbc_Timeout : Duration;
}.

Record backendHealthState := {
  hs_status : BackendHealthStatus;
  hs_consecutiveFailures : Z;
  hs_lastCheckTime : Time;
  hs_lastError : option error;
  hs_lastTransitionTime : Time;
  hs_circuitBreaker : CircuitBreaker;
  hs_mcpRevision : string;
}.

Record statusTracker := {
  st_states : gmap string backendHealthState;
  st_removedBackends : gmap string bool;
  st_unhealthyThreshold : Z;
  st_circuitBreakerConfig : option CircuitBreakerConfig;
}.

Definition st_set_states (states : gmap string backendHealthState)
    (t : statusTracker) : statusTracker := {|
  st_states := states;
  st_removedBackends := st_removedBackends t;
  st_unhealthyThreshold := st_unhealthyThreshold t;
  st_circuitBreakerConfig := st_circuitBreakerConfig t;
|}.

Definition st_set_removed (removed : gmap string bool) (t : statusTracker) : statusTracker := {|
  st_states := st_states t;
  st_removedBackends := removed;
  st_unhealthyThreshold := st_unhealthyThreshold t;
  st_circuitBreakerConfig := st_circuitBreakerConfig t;
|}.

(** Writing through the state pointer of a backend. *)
Definition st_put (id : string) (s : backendHealthState) (t : statusTracker) : statusTracker :=
  st_set_states (<[id := s]> (st_states t)) t.

Definition newStatusTracker (unhealthyThreshold : Z)
    (circuitBreakerConfig : option CircuitBreakerConfig) : statusTracker := {|
  st_states := ∅;
  st_removedBackends := ∅;
  st_unhealthyThreshold := if (unhealthyThreshold <? 1)%Z then 1 else unhealthyThreshold;
  st_circuitBreakerConfig := circuitBreakerConfig;
|}.

(** A missing key reads as [false]. *)
Definition isRemoved (backendID : string) (t : statusTracker) : bool :=
  default false (st_removedBackends t !! backendID).

Definition newBackendBreaker (t : statusTracker) (backendName : string) (now : Time)
    : CircuitBreaker :=
  match st_circuitBreakerConfig t with
  | None => alwaysClosedCircuit
  | Some cfg =>
      if negb (cbc_Enabled cfg) then alwaysClosedCircuit
      else aCircuitBreaker
             (newCircuitBreaker (cbc_FailureThreshold cfg) (cbc_Timeout cfg) backendName now)
  end.

Definition getOrCreateState (backendID backendName : string)
    (initialStatus : BackendHealthStatus) (consecutiveFailures : Z) (err : option error)
    (clk : Clock) (t : statusTracker) : statusTracker * backendHealthState * bool :=
  match st_states t !! backendID with
  | Some state => (t, state, true)
  | None =>
      let state := {|
        hs_status := initialStatus;
        hs_consecutiveFailures := consecutiveFailures;
        hs_lastCheckTime := clk 0;
        hs_lastError := err;
        hs_lastTransitionTime := clk 1;
        hs_circuitBreaker := newBackendBreaker t backendName (clk 2);
        hs_mcpRevision := "" |} in
      (st_put backendID state t, state, false)
  end.

Definition sanitizeError (err : option error) : string :=
  match err with
  | None => ""
  | Some e =>
      if errors_Is e ErrAuthenticationFailed || errors_Is e ErrAuthorizationFailed
      then "authentication_failed"
      else if IsAuthenticationError err then "authentication_failed"
      else if errors_Is e ErrTimeout then "timeout"
      else if IsTimeoutError err then "timeout"
      else if errors_Is e ErrCancelled then "cancelled"
      else if errors_Is e ErrBackendUnavailable then "backend_unavailable"
      else if IsConnectionError err then "connection_failed"
      else "health_check_failed"
  end.

(** The immutable snapshot handed out by [GetState] and [GetAllStates]. *)
Record State := {
  State_Status : BackendHealthStatus;
  State_ConsecutiveFailures : Z;
  State_LastCheckTime : Time;
  State_LastErrorCategory : string;
  State_LastError : option error;
  State_LastTransitionTime : Time;
  State_CircuitState : CircuitState;
  State_CircuitLastChanged : Time;
  State_MCPRevision : string;
}.

Definition copyState (state : backendHealthState) : State :=
  let snapshot := GetSnapshot (hs_circuitBreaker state) in {|
  State_Status := hs_status state;
  State_ConsecutiveFailures := hs_consecutiveFailures state;
  State_LastCheckTime := hs_lastCheckTime state;
  State_LastErrorCategory := sanitizeError (hs_lastError state);
  State_LastError := hs_lastError state;
  State_LastTransitionTime := hs_lastTransitionTime state;
  State_CircuitState := snap_State snapshot;
  State_CircuitLastChanged := snap_LastStateChange snapshot;
  State_MCPRevision := hs_mcpRevision state;
|}.

Definition hs_set_breaker (c : CircuitBreaker) (s : backendHealthState) : backendHealthState := {|
  hs_status := hs_status s;
  hs_consecutiveFailures := hs_consecutiveFailures s;
  hs_lastCheckTime := hs_lastCheckTime s;
  hs_lastError := hs_lastError s;
  hs_lastTransitionTime := hs_lastTransitionTime s;
  hs_circuitBreaker := c;
  hs_mcpRevision := hs_mcpRevision s;
|}.

Definition hs_set_status (st : BackendHealthStatus) (s : backendHealthState)
    : backendHealthState := {|
  hs_status := st;
  hs_consecutiveFailures := hs_consecutiveFailures s;
  hs_lastCheckTime := hs_lastCheckTime s;
  hs_lastError := hs_lastError s;
  hs_lastTransitionTime := hs_lastTransitionTime s;
  hs_circuitBreaker := hs_circuitBreaker s;
  hs_mcpRevision := hs_mcpRevision s;
|}.

Definition tracker_RecordSuccess (backendID backendName : string)
    (status : BackendHealthStatus) (clk : Clock) (t : statusTracker) : statusTracker :=
  if isRemoved backendID t then t else
  let '(t, state, exists_) := getOrCreateState backendID backendName status 0 None clk t in
  if negb exists_ then
    st_put backendID
      (hs_set_breaker (RecordSuccess (clk 3) (hs_circuitBreaker state)) state) t
  else
    let previousStatus := hs_status state in
    let newStatus :=
      if (0 <? hs_consecutiveFailures state)%Z then BackendDegraded else status in
    st_put backendID {|
      hs_status := newStatus;
      hs_consecutiveFailures := 0;
      hs_lastCheckTime := clk 3;
      hs_lastError := None;
      hs_lastTransitionTime :=
        if decide (previousStatus ≠ newStatus) then clk 4 else hs_lastTransitionTime state;
      hs_circuitBreaker := RecordSuccess (clk 5) (hs_circuitBreaker state);
      hs_mcpRevision := hs_mcpRevision state |} t.

Definition RecordRevision (backendID revision : string) (t : statusTracker) : statusTracker :=
  match st_states t !! backendID with
  | None => t
  | Some s => st_put backendID {|
      hs_status := hs_status s;
      hs_consecutiveFailures := hs_consecutiveFailures s;
      hs_lastCheckTime := hs_lastCheckTime s;
      hs_lastError := hs_lastError s;
      hs_lastTransitionTime := hs_lastTransitionTime s;
      hs_circuitBreaker := hs_circuitBreaker s;
      hs_mcpRevision := revision |} t
  end.

Definition tracker_RecordFailure (backendID backendName : string)
    (status : BackendHealthStatus) (err : option error) (clk : Clock)
    (t : statusTracker) : statusTracker :=
  if isRemoved backendID t then t else
  let '(t, state, exists_) := getOrCreateState backendID backendName BackendUnknown 1 err clk t in
  if negb exists_ then
    let state :=
      if (st_unhealthyThreshold t <=? hs_consecutiveFailures state)%Z
      then hs_set_status status state else state in
    st_put backendID
      (hs_set_breaker (RecordFailure (clk 3) (clk 4) (hs_circuitBreaker state)) state) t
  else
    let previousStatus := hs_status state in
    let failures := wrap64 (hs_consecutiveFailures state + 1) in
    let thresholdReached := (st_unhealthyThreshold t <=? failures)%Z in
    let statusChanged := bool_decide (previousStatus ≠ status) in
    let transition := thresholdReached && statusChanged in
    st_put backendID {|
      hs_status := if transition then status else previousStatus;
      hs_consecutiveFailures := failures;
      hs_lastCheckTime := clk 3;
      hs_lastError := err;
      hs_lastTransitionTime := if transition then clk 4 else hs_lastTransitionTime state;
      hs_circuitBreaker := RecordFailure (clk 5) (clk 6) (hs_circuitBreaker state);
      hs_mcpRevision := hs_mcpRevision state |} t.

Definition GetStatus (backendID : string) (t : statusTracker) : BackendHealthStatus * bool :=
  match st_states t !! backendID with
  | None => (BackendUnknown, false)
  | Some state => (hs_status state, true)
  end.

Definition tracker_GetState (backendID : string) (t : statusTracker) : option State :=
  copyState <$> st_states t !! backendID.

Definition GetAllStates (t : statusTracker) : gmap string State :=
  copyState <$> st_states t.

Definition IsHealthy (backendID : string) (t : statusTracker) : bool :=
  let '(status, exists_) := GetStatus backendID t in
  exists_ && bool_decide (status = BackendHealthy).

Definition RemoveBackend (backendID : string) (t : statusTracker) : statusTracker :=
  st_set_removed (<[backendID := true]> (st_removedBackends t))
    (st_set_states (delete backendID (st_states t)) t).

Definition ClearRemovedFlag (backendID : string) (t : statusTracker) : statusTracker :=
  st_set_removed (delete backendID (st_removedBackends t)) t.

Definition CanAttemptHealthCheck (backendID : string) (now now' : Time)
    (t : statusTracker) : statusTracker * bool :=
  match st_states t !! backendID with
  | None => (t, true)
  | Some state =>
      let '(c, ok) := CanAttempt now now' (hs_circuitBreaker state) in
      (st_put backendID (hs_set_breaker c state) t, ok)
  end.

Definition GetCircuitBreakerState (backendID : string) (t : statusTracker)
    : option CircuitState :=
  (fun s => GetState (hs_circuitBreaker s)) <$> st_states t !! backendID.

Definition IsCircuitOpen (backendID : string) (t : statusTracker) : bool :=
  bool_decide (GetCircuitBreakerState backendID t = Some CircuitOpen).

(** Its remaining statements only choose what to log. *)
Definition ShouldAttemptHealthCheck (backendID backendName : string) (now now' : Time)
    (t : statusTracker) : statusTracker * bool :=
  CanAttemptHealthCheck backendID now now' t.

(** ** Sequences of calls *)
Inductive tracker_op :=
  | TSuccess (id name : string) (status : BackendHealthStatus) (clk : Clock)
  | TFailure (id name : string) (status : BackendHealthStatus) (err : error) (clk : Clock)
  | TRevision (id revision : string)
  | TAttempt (id name : string) (now now' : Time)
  | TRemove (id : string)
  | TClear (id : string).

Definition tracker_do (op : tracker_op) (t : statusTracker) : statusTracker :=
  match op with
  | TSuccess id name status clk => tracker_RecordSuccess id name status clk t
  | TFailure id name status err clk => tracker_RecordFailure id name status (Some err) clk t
  | TRevision id revision => RecordRevision id revision t
  | TAttempt id name now now' => (ShouldAttemptHealthCheck id name now now' t).1
  | TRemove id => RemoveBackend id t
  | TClear id => ClearRemovedFlag id t
  end.

Definition tracker_run (ops : list tracker_op) (t : statusTracker) : statusTracker :=
  foldl (fun t op => tracker_do op t) t ops.

Definition op_backend (op : tracker_op) : string :=
  match op with
  | TSuccess id _ _ _ | TFailure id _ _ _ _ | TRevision id _ | TAttempt id _ _ _
  | TRemove id | TClear id => id
  end.

(** ** What the tracker promises for one backend

    The specification follows a single backend: whether it is marked removed,
    and its reported status with the current number of consecutive failures. *)
Record backend_spec := {
  sp_removed : bool;
  sp_health : option (BackendHealthStatus * Z);
}.

Definition spec_do (threshold : Z) (sp : backend_spec) (op : tracker_op) : backend_spec :=
  match op with
  | TSuccess _ _ status _ =>
      if sp_removed sp then sp else {|
        sp_removed := false;
        sp_health := Some (match sp_health sp with
          | None => (status, 0)
          | Some (_, c) => (if (0 <? c)%Z then BackendDegraded else status, 0)
          end)%Z |}
  | TFailure _ _ status _ _ =>
      if sp_removed sp then sp else {|
        sp_removed := false;
        sp_health := Some (match sp_health sp with
          | None => (if (threshold <=? 1)%Z then status else BackendUnknown, 1)
          | Some (st, c) =>
              (if (threshold <=? wrap64 (c + 1))%Z then status else st, wrap64 (c + 1))
          end)%Z |}
  | TRevision _ _ | TAttempt _ _ _ _ => sp
  | TRemove _ => {| sp_removed := true; sp_health := None |}
  | TClear _ => {| sp_removed := false; sp_health := sp_health sp |}
  end.

(** The abstraction of a tracker to one backend. *)
Definition spec_of (id : string) (t : statusTracker) : backend_spec := {|
  sp_removed := isRemoved id t;
  sp_health := (fun s => (hs_status s, hs_consecutiveFailures s)) <$> st_states t !! id;
|}.

Lemma tracker_do_threshold op t :
  st_unhealthyThreshold (tracker_do op t) = st_unhealthyThreshold t.
Proof.
  destruct op; simpl; unfold tracker_RecordSuccess, tracker_RecordFailure, RecordRevision,
    ShouldAttemptHealthCheck, CanAttemptHealthCheck, getOrCreateState;
    repeat case_match; simplify_eq/=; done.
Qed.

Lemma tracker_run_cons op ops t :
  tracker_run (op :: ops) t = tracker_run ops (tracker_do op t).
Proof. done. Qed.

(** Other backends are untouched. *)
Lemma tracker_do_other op t id :
  op_backend op ≠ id ->
  st_states (tracker_do op t) !! id = st_states t !! id /\
  isRemoved id (tracker_do op t) = isRemoved id t.
Proof.
  intros Hne. destruct op; simpl in *; unfold tracker_RecordSuccess, tracker_RecordFailure,
    RecordRevision, ShouldAttemptHealthCheck, CanAttemptHealthCheck, RemoveBackend,
    ClearRemovedFlag, getOrCreateState, isRemoved, st_put;
    repeat (case_match; simplify_eq/=);
    simpl; rewrite ?lookup_insert_ne, ?lookup_delete_ne by done; done.
Qed.

Lemma tracker_do_spec op t :
  spec_of (op_backend op) (tracker_do op t) =
  spec_do (st_unhealthyThreshold t) (spec_of (op_backend op) t) op.
Proof.
  unfold spec_of. destruct op as [id nm st clk|id nm st e clk|id r|id nm n n'|id|id];
    cbn [op_backend tracker_do spec_do sp_removed sp_health].
  - unfold tracker_RecordSuccess. destruct (isRemoved id t) eqn:Hr; [by rewrite Hr|].
    unfold getOrCreateState. destruct (st_states t !! id) eqn:Hs; simpl;
      rewrite lookup_insert_eq; unfold isRemoved in *; simpl; by rewrite Hr.
  - unfold tracker_RecordFailure. destruct (isRemoved id t) eqn:Hr; [by rewrite Hr|].
    unfold getOrCreateState. destruct (st_states t !! id) as [s|] eqn:Hs; simpl;
      rewrite lookup_insert_eq; unfold isRemoved in *; simpl; rewrite Hr.
    + destruct (_ <=? _)%Z; simpl; [|done]. case_bool_decide as Hst; [done|].
      by destruct (decide (hs_status s = st)) as [->|].
    + by destruct (_ <=? 1)%Z.
  - unfold RecordRevision. destruct (st_states t !! id) eqn:Hs; simpl;
      rewrite ?lookup_insert_eq, ?Hs; done.
  - unfold ShouldAttemptHealthCheck, CanAttemptHealthCheck.
    destruct (st_states t !! id) as [s|] eqn:Hs; simpl; [|by rewrite Hs].
    destruct (CanAttempt n n' (hs_circuitBreaker s)); simpl.
    by rewrite lookup_insert_eq.
  - unfold RemoveBackend, isRemoved. simpl. by rewrite lookup_insert_eq, lookup_delete_eq.
  - unfold ClearRemovedFlag, isRemoved. simpl. by rewrite lookup_delete_eq.
Qed.

Lemma tracker_run_spec ops t id :
  spec_of id (tracker_run ops t) =
  foldl (spec_do (st_unhealthyThreshold t)) (spec_of id t)
    (filter (fun op => op_backend op = id) ops).
Proof.
  revert t. induction ops as [|op ops IH]; intros t; [done|].
  rewrite tracker_run_cons, IH, tracker_do_threshold, filter_cons.
  case_decide as Hop; simpl.
  - by rewrite <- Hop, tracker_do_spec.
  - f_equal. unfold spec_of. by destruct (tracker_do_other op t id Hop) as [-> ->].
Qed.

Lemma spec_of_status id t :
  GetStatus id t = (default BackendUnknown (fst <$> sp_health (spec_of id t)),
                    bool_decide (is_Some (sp_health (spec_of id t)))).
Proof. unfold GetStatus, spec_of. simpl. by destruct (st_states t !! id). Qed.

(** C30. The reported status of a backend and its failure count are a function
    of the calls about that backend alone, in their order: under any
    interleaving with calls about other backends, the tracker refines the
    single-backend specification [spec_do]. *)
Theorem tracker_refines_backend_spec (th : Z) (cfg : option CircuitBreakerConfig)
    (ops : list tracker_op) (id : string) :
  let t := tracker_run ops (newStatusTracker th cfg) in
  let sp := foldl (spec_do (Z.max 1 th)) {| sp_removed := false; sp_health := None |}
              (filter (fun op => op_backend op = id) ops) in
  GetStatus id t = (default BackendUnknown (fst <$> sp_health sp),
                    bool_decide (is_Some (sp_health sp))) /\
  hs_consecutiveFailures <$> st_states t !! id = snd <$> sp_health sp.
Proof.
  simpl. rewrite spec_of_status.
  assert (spec_of id (tracker_run ops (newStatusTracker th cfg)) =
    foldl (spec_do (Z.max 1 th)) {| sp_removed := false; sp_health := None |}
      (filter (fun op => op_backend op = id) ops)) as E.
  { rewrite tracker_run_spec. f_equal. simpl.
    destruct (th <? 1)%Z eqn:Eth; f_equal; lia. }
  rewrite <- E. split; [done|]. unfold spec_of. simpl.
  by destruct (st_states _ !! id).
Qed.

(** Failures of one backend within a specification run. *)
Definition is_failure_of (status : BackendHealthStatus) (op : tracker_op) : Prop :=
  match op with
  | TFailure _ _ st _ _ => st = status
  | TRevision _ _ | TAttempt _ _ _ _ => True
  | _ => False
  end.

Definition is_TFailure (op : tracker_op) : bool :=
  match op with TFailure _ _ _ _ _ => true | _ => false end.

Definition failure_count (ops : list tracker_op) : nat :=
  length (filter (fun op => is_TFailure op = true) ops).

Lemma failure_count_cons op ops :
  failure_count (op :: ops) = (if is_TFailure op then 1 else 0) + failure_count ops.
Proof. unfold failure_count. rewrite filter_cons. by destruct op. Qed.

(** A run of failures with one status, in the specification. *)
Lemma spec_failures th st c status ops :
  (0 <= c)%Z -> (c + Z.of_nat (failure_count ops) <= MaxInt64)%Z ->
  Forall (is_failure_of status) ops ->
  let c' := (c + Z.of_nat (failure_count ops))%Z in
  foldl (spec_do th) {| sp_removed := false; sp_health := Some (st, c) |} ops =
    {| sp_removed := false;
       sp_health := Some (if (th <=? c')%Z && (0 <? failure_count ops)%nat
                          then status else st, c') |}.
Proof.
  revert st c. induction ops as [|op ops IH]; intros st c Hc Hle Hops; simpl.
  { unfold failure_count. simpl. by rewrite Z.add_0_r, andb_false_r. }
  inversion_clear Hops as [|?? Hop Hops']. rewrite failure_count_cons in *.
  destruct op; simpl in *; try done; try by apply IH. subst.
  rewrite wrap64_id by (unfold MinInt64; lia). rewrite IH by (done || lia).
  replace (c + 1 + Z.of_nat (failure_count ops))%Z
    with (c + Z.of_nat (S (failure_count ops)))%Z by lia.
  do 3 f_equal. rewrite andb_true_r.
  destruct (failure_count ops) as [|n] eqn:En; simpl.
  - rewrite andb_false_r. by replace (c + 1)%Z with (c + Z.of_nat 1)%Z by lia.
  - rewrite andb_true_r. destruct (Z.leb_spec th (c + 1)), (Z.leb_spec th
      (c + Z.of_nat (S (S n)))); simpl in *; done || lia.
Qed.

(** A tracked backend that only fails keeps its last reported status until
    its consecutive failures reach the unhealthy threshold, and is reported
    with the failing status from that failure on, whatever happens to other
    backends in between. *)
Theorem unhealthy_only_at_threshold (t : statusTracker) (ops : list tracker_op)
    (id : string) (s : backendHealthState) (status : BackendHealthStatus) :
  let mine := filter (fun op => op_backend op = id) ops in
  let c' := (hs_consecutiveFailures s + Z.of_nat (failure_count mine))%Z in
  isRemoved id t = false -> st_states t !! id = Some s ->
  (0 <= hs_consecutiveFailures s)%Z -> (c' <= MaxInt64)%Z ->
  Forall (is_failure_of status) mine -> 0 < failure_count mine ->
  GetStatus id (tracker_run ops t) =
    (if (st_unhealthyThreshold t <=? c')%Z then status else hs_status s, true).
Proof.
  intros mine c' Hr Hs H0 Hle Hops Hpos. rewrite spec_of_status, tracker_run_spec.
  assert (spec_of id t = {| sp_removed := false;
    sp_health := Some (hs_status s, hs_consecutiveFailures s) |}) as ->.
  { unfold spec_of. by rewrite Hr, Hs. }
  fold mine. rewrite (spec_failures _ _ _ status) by done. simpl.
  destruct (failure_count mine) as [|n]; [lia|]. simpl. by rewrite andb_true_r.
Qed.

Definition clk0 : nat -> Z := fun _ => 5%Z.
Definition timeout_error : error :=
  {| err_chain := [ErrTimeout]; err_Error := "context deadline exceeded" |}.

Definition tracked_a : statusTracker :=
  tracker_run [TSuccess "a" "a" BackendHealthy clk0] (newStatusTracker 3 None).
Definition fail_a : tracker_op := TFailure "a" "a" BackendUnhealthy timeout_error clk0.
Definition state_a : backendHealthState := {|
  hs_status := BackendHealthy; hs_consecutiveFailures := 0; hs_lastCheckTime := 5;
  hs_lastError := None; hs_lastTransitionTime := 5;
  hs_circuitBreaker := alwaysClosedCircuit; hs_mcpRevision := "" |}.

Lemma unhealthy_only_at_threshold_witness :
  GetStatus "a" (tracker_run [fail_a; TRemove "b"; fail_a] tracked_a) = (BackendHealthy, true) /\
  GetStatus "a" (tracker_run [fail_a; fail_a; TRemove "b"; fail_a] tracked_a)
    = (BackendUnhealthy, true).
Proof.
  split.
  - refine (unhealthy_only_at_threshold tracked_a [fail_a; TRemove "b"; fail_a] "a" state_a
      BackendUnhealthy _ _ _ _ _ _); vm_compute; first [reflexivity | discriminate | repeat constructor].
  - refine (unhealthy_only_at_threshold tracked_a [fail_a; fail_a; TRemove "b"; fail_a] "a" state_a
      BackendUnhealthy _ _ _ _ _ _); vm_compute; first [reflexivity | discriminate | repeat constructor].
Defined.

(** Once a backend is removed, no health-check result still in flight can
    bring it back: it stays untracked until its removed flag is cleared. *)
Theorem removed_backend_stays_untracked (t : statusTracker) (ops : list tracker_op)
    (id : string) :
  TClear id ∉ ops -> GetStatus id (tracker_run ops (RemoveBackend id t)) = (BackendUnknown, false).
Proof.
  intros Hops. rewrite spec_of_status, tracker_run_spec.
  assert (foldl (spec_do (st_unhealthyThreshold (RemoveBackend id t)))
    {| sp_removed := true; sp_health := None |} (filter (fun op => op_backend op = id) ops) =
    {| sp_removed := true; sp_health := None |}) as E.
  { induction ops as [|op ops IH]; [done|]. apply not_elem_of_cons in Hops as [Hne Hops].
    rewrite filter_cons. case_decide as Hop; [|by apply IH]. simpl.
    destruct op; simpl in *; try by apply IH. congruence. }
  assert (spec_of id (RemoveBackend id t) = {| sp_removed := true; sp_health := None |}) as ->.
  { apply (tracker_do_spec (TRemove id) t). }
  by rewrite E.
Qed.

Lemma removed_backend_stays_untracked_witness :
  GetStatus "a" (tracker_run [TSuccess "a" "a" BackendHealthy clk0; TClear "b"]
    (RemoveBackend "a" (newStatusTracker 3 None))) = (BackendUnknown, false).
Proof. apply removed_backend_stays_untracked. set_solver. Defined.
