(* ===== verification/HealthMonitor.v ===== *)
(** * The health monitor ([pkg/vmcp/health/monitor.go], [checker.go], [policy.go])

    [CheckHealth] classifies the outcome of one probe; the probe itself
    ([BackendClient.ListCapabilities]) is an argument, its error and its
    duration.  [Monitor] is the monitor with its health-check goroutines, and
    [monitor_step] their interleavings: a goroutine asks the tracker whether
    it may probe, later records the result, and exits once cancelled; the
    monitor is started, stopped and given new backends in between.  The
    status report is in the file [HealthReport]. *)

From S2P Require Import Prelude VmcpTypes CircuitBreaker HealthStatus.

(** ** Checker *)
Definition authErrorStatus (target : option BackendTarget) : BackendHealthStatus :=
  match target with
  | Some tg =>
      match bt_AuthConfig tg with
      | Some a =>
          if decide (bas_Type a ≠ StrategyTypeUnauthenticated) then BackendHealthy
          else BackendUnauthenticated
      | None => BackendUnauthenticated
      end
  | None => BackendUnauthenticated
  end.

Definition categorizeError (target : option BackendTarget) (err : option error)
    : BackendHealthStatus :=
  match err with
  | None => BackendHealthy
  | Some e =>
      if errors_Is e ErrAuthenticationFailed || errors_Is e ErrAuthorizationFailed
      then authErrorStatus target
      else if errors_Is e ErrTimeout || errors_Is e ErrCancelled then BackendUnhealthy
      else if errors_Is e ErrBackendUnavailable then BackendUnhealthy
      else if IsAuthenticationError err then authErrorStatus target
      else if IsTimeoutError err || IsConnectionError err then BackendUnhealthy
      else BackendUnhealthy
  end.

(** [err] and [responseDuration] are the outcome of the probe. *)
Definition CheckHealth (degradedThreshold : Duration) (target : BackendTarget)
    (err : option error) (responseDuration : Duration)
    : BackendHealthStatus * option error :=
  match err with
  | Some e =>
      let status := categorizeError (Some target) err in
      if decide (status = BackendHealthy) then (BackendHealthy, None)
      else (status, Some {| err_chain := err_chain e;
                            err_Error := "health check failed: " +:+ err_Error e |})
  | None =>
      if (0 <? degradedThreshold)%Z && (degradedThreshold <? responseDuration)%Z
      then (BackendDegraded, None)
      else (BackendHealthy, None)
  end.

(** ** Policy: [None] is the empty status of a disabled monitor. *)
Definition ShouldAdvertise (status : option BackendHealthStatus) : bool :=
  bool_decide (status = None) || bool_decide (status = Some BackendHealthy) ||
  bool_decide (status = Some BackendDegraded).

Definition ShouldOpenSession (status : option BackendHealthStatus) : bool :=
  bool_decide (status ≠ Some BackendUnhealthy) &&
  bool_decide (status ≠ Some BackendUnauthenticated).

(** ** Monitor *)
Record MonitorConfig := {
  mc_CheckInterval : Duration;
  mc_UnhealthyThreshold : Z;
  mc_Timeout : Duration;
  mc_DegradedThreshold : Duration;
  mc_CircuitBreaker : option CircuitBreakerConfig;
}.

Definition DefaultConfig : MonitorConfig := {|
  mc_CheckInterval := 30 * time.Second;
  mc_UnhealthyThreshold := 3;
  mc_Timeout := 10 * time.Second;
  mc_DegradedThreshold := 5 * time.Second;
  mc_CircuitBreaker := None;
|}.

(** A health-check goroutine: the backend snapshot it owns, whether its
    context is cancelled, and whether it is between asking the tracker and
    recording a result. *)
Record goroutine := {
  g_backend : Backend;
  g_cancelled : bool;
  g_checking : bool;
}.

(** [bc_goroutine] is the goroutine [cancel] stops. *)
Record backendCheck := {
  bc_backend : Backend;
  bc_goroutine : nat;
}.

Record Monitor := {
  mon_degradedThreshold : Duration;
  mon_statusTracker : statusTracker;
  mon_backends : list Backend;
  mon_activeChecks : gmap string backendCheck;
  mon_started : bool;
  mon_stopped : bool;
  mon_goroutines : gmap nat goroutine;
  mon_next : nat;  (* the next goroutine *)
}.

Definition NewMonitor (backends : list Backend) (config : MonitorConfig) : option Monitor :=
  if (mc_CheckInterval config <=? 0)%Z then None
  else if (mc_UnhealthyThreshold config <? 1)%Z then None
  else if match mc_CircuitBreaker config with
          | Some cb => cbc_Enabled cb &&
              ((cbc_FailureThreshold cb <? 1)%Z || (cbc_Timeout cb <=? 0)%Z)
          | None => false
          end then None
  else Some {|
    mon_degradedThreshold := mc_DegradedThreshold config;
    mon_statusTracker := newStatusTracker (mc_UnhealthyThreshold config) (mc_CircuitBreaker config);
    mon_backends := backends;
    mon_activeChecks := ∅;
    mon_started := false;
    mon_stopped := false;
    mon_goroutines := ∅;
    mon_next := 0 |}.

Definition mon_set_tracker (t : statusTracker) (m : Monitor) : Monitor := {|
  mon_degradedThreshold := mon_degradedThreshold m;
  mon_statusTracker := t;
  mon_backends := mon_backends m;
  mon_activeChecks := mon_activeChecks m;
  mon_started := mon_started m;
  mon_stopped := mon_stopped m;
  mon_goroutines := mon_goroutines m;
  mon_next := mon_next m;
|}.

Definition mon_set_checks (active : gmap string backendCheck) (gs : gmap nat goroutine)
    (next : nat) (m : Monitor) : Monitor := {|
  mon_degradedThreshold := mon_degradedThreshold m;
  mon_statusTracker := mon_statusTracker m;
  mon_backends := mon_backends m;
  mon_activeChecks := active;
  mon_started := mon_started m;
  mon_stopped := mon_stopped m;
  mon_goroutines := gs;
  mon_next := next;
|}.

Definition mon_set_lifecycle (backends : list Backend) (started stopped : bool)
    (m : Monitor) : Monitor := {|
  mon_degradedThreshold := mon_degradedThreshold m;
  mon_statusTracker := mon_statusTracker m;
  mon_backends := backends;
  mon_activeChecks := mon_activeChecks m;
  mon_started := started;
  mon_stopped := stopped;
  mon_goroutines := mon_goroutines m;
  mon_next := mon_next m;
|}.

Definition cancel_goroutine (g : goroutine) : goroutine :=
  {| g_backend := g_backend g; g_cancelled := true; g_checking := g_checking g |}.

Definition set_checking (checking : bool) (g : goroutine) : goroutine :=
  {| g_backend := g_backend g; g_cancelled := g_cancelled g; g_checking := checking |}.

(** [bc.start] followed by [m.activeChecks[id] = bc]. *)
Definition startCheck (id : string) (backend : Backend) (m : Monitor) : Monitor :=
  let gid := mon_next m in
  mon_set_checks
    (<[id := {| bc_backend := backend; bc_goroutine := gid |}]> (mon_activeChecks m))
    (<[gid := {| g_backend := backend; g_cancelled := false; g_checking := false |}]>
       (mon_goroutines m))
    (S gid) m.

Definition stopCheck (bc : backendCheck) (m : Monitor) : Monitor :=
  mon_set_checks (mon_activeChecks m)
    (alter cancel_goroutine (bc_goroutine bc) (mon_goroutines m)) (mon_next m) m.

Definition Start (ctxNil : bool) (m : Monitor) : Monitor * option string :=
  if mon_stopped m then (m, Some "monitor has been stopped and cannot be restarted")
  else if mon_started m then (m, Some "monitor already started")
  else if ctxNil then (m, Some "context cannot be nil")
  else
    let m := mon_set_lifecycle (mon_backends m) true (mon_stopped m) m in
    (foldl (fun m b => startCheck (b_ID b) b m) m (mon_backends m), None).

(** The wait for the goroutines to exit is left to the steps below. *)
Definition Stop (m : Monitor) : Monitor * option string :=
  if negb (mon_started m) then (m, Some "monitor not started")
  else
    let m := mon_set_checks (mon_activeChecks m) (cancel_goroutine <$> mon_goroutines m)
               (mon_next m) m in
    (mon_set_lifecycle (mon_backends m) false true m, None).

Definition backendChanged (old updated : Backend) : bool :=
  bool_decide (b_BaseURL old ≠ b_BaseURL updated) ||
  bool_decide (b_TransportType old ≠ b_TransportType updated).

(** The body of the first loop of [UpdateBackends]. *)
Definition addOrRestart (m : Monitor) (idb : string * Backend) : Monitor :=
  let '(id, backend) := idb in
  let restart m :=
    startCheck id backend
      (mon_set_tracker (ClearRemovedFlag id (mon_statusTracker m)) m) in
  match mon_activeChecks m !! id with
  | Some existing =>
      if negb (backendChanged (bc_backend existing) backend) then m
      else restart (stopCheck existing m)
  | None => restart m
  end.

(** The body of the second loop. *)
Definition dropIfGone (newBackendsMap : gmap string Backend) (m : Monitor) (id : string)
    : Monitor :=
  match mon_activeChecks m !! id, newBackendsMap !! id with
  | Some bc, None =>
      let m := stopCheck bc m in
      let m := mon_set_checks (delete id (mon_activeChecks m)) (mon_goroutines m) (mon_next m) m in
      mon_set_tracker (RemoveBackend id (mon_statusTracker m)) m
  | _, _ => m
  end.

(** [order] and [order'] are the iteration orders of the two loops. *)
Definition UpdateBackends (newBackends : list Backend) (order : list (string * Backend))
    (order' : list string) (m : Monitor) : Monitor :=
  if negb (mon_started m) || mon_stopped m then m
  else
    let newBackendsMap := index_backends newBackends in
    let m := mon_set_lifecycle newBackends (mon_started m) (mon_stopped m) m in
    let m := foldl addOrRestart m order in
    foldl (dropIfGone newBackendsMap) m order'.

Definition checkTarget (b : Backend) : BackendTarget := {|
  bt_WorkloadID := b_ID b;
  bt_WorkloadName := b_Name b;
  bt_BaseURL := b_BaseURL b;
  bt_TransportType := b_TransportType b;
  bt_CABundlePath := b_CABundlePath b;
  bt_CABundleData := b_CABundleData b;
  bt_OriginalCapabilityName := "";
  bt_AuthConfig := b_AuthConfig b;
  bt_SessionAffinity := false;
  bt_HealthStatus := Some BackendUnknown;
  bt_HeaderForward := b_HeaderForward b;
  bt_Metadata := b_Metadata b;
|}.

(** [performHealthCheck] up to the probe: may the check proceed? *)
Definition beginHealthCheck (backend : Backend) (now now' : Time) (t : statusTracker)
    : statusTracker * bool :=
  ShouldAttemptHealthCheck (b_ID backend) (b_Name backend) now now' t.

(** [performHealthCheck] from the probe's outcome on; [revision] is the
    revision the client's cache reports, if any. *)
Definition finishHealthCheck (degradedThreshold : Duration) (backend : Backend)
    (probe : option error) (responseDuration : Duration) (revision : option string)
    (clk : Clock) (t : statusTracker) : statusTracker :=
  let '(status, err) := CheckHealth degradedThreshold (checkTarget backend) probe responseDuration in
  let t := match err with
           | Some _ => tracker_RecordFailure (b_ID backend) (b_Name backend) status err clk t
           | None => tracker_RecordSuccess (b_ID backend) (b_Name backend) status clk t
           end in
  match revision with
  | Some rev => RecordRevision (b_ID backend) rev t
  | None => t
  end.

(** ** Interleavings *)
Inductive monitor_step : Monitor -> Monitor -> Prop :=
  | step_start ctxNil m : monitor_step m (Start ctxNil m).1
  | step_stop m : monitor_step m (Stop m).1
  | step_update bs order order' m :
      order ≡ₚ map_to_list (index_backends bs) ->
      (forall id, id ∈ order' <-> id ∈ dom (mon_activeChecks (foldl addOrRestart
         (mon_set_lifecycle bs (mon_started m) (mon_stopped m) m) order))) ->
      monitor_step m (UpdateBackends bs order order' m)
  | step_parent_cancelled m :
      monitor_step m
        (mon_set_checks (mon_activeChecks m) (cancel_goroutine <$> mon_goroutines m)
           (mon_next m) m)
  | step_begin g gr now now' t ok m :
      mon_goroutines m !! g = Some gr -> g_checking gr = false ->
      beginHealthCheck (g_backend gr) now now' (mon_statusTracker m) = (t, ok) ->
      monitor_step m
        (mon_set_checks (mon_activeChecks m)
           (<[g := set_checking ok gr]> (mon_goroutines m)) (mon_next m)
           (mon_set_tracker t m))
  | step_finish g gr probe dur rev clk m :
      mon_goroutines m !! g = Some gr -> g_checking gr = true ->
      monitor_step m
        (mon_set_checks (mon_activeChecks m)
           (<[g := set_checking false gr]> (mon_goroutines m)) (mon_next m)
           (mon_set_tracker
              (finishHealthCheck (mon_degradedThreshold m) (g_backend gr) probe dur rev clk
                 (mon_statusTracker m)) m))
  | step_exit g gr m :
      mon_goroutines m !! g = Some gr -> g_checking gr = false -> g_cancelled gr = true ->
      monitor_step m
        (mon_set_checks (mon_activeChecks m) (delete g (mon_goroutines m)) (mon_next m) m).

Definition monitor_reachable (m : Monitor) : Prop :=
  exists bs config m0, NewMonitor bs config = Some m0 /\ rtc monitor_step m0 m.

(** ** The monitor's invariant *)
Definition breaker_of (id : string) (t : statusTracker) : option CircuitState :=
  GetCircuitBreakerState id t.

(** What the invariant sees of a goroutine: the backend it checks and whether
    a check is in flight. *)
Definition gview (m : Monitor) (g : nat) : option (string * bool) :=
  (fun gr => (b_ID (g_backend gr), g_checking gr)) <$> mon_goroutines m !! g.

(** Every goroutine checks an active backend or one whose results are
    discarded; only active backends are tracked; and a half-open circuit has a
    check in flight that will resolve it. *)
Record monitor_inv (m : Monitor) : Prop := {
  inv_goroutines : forall g id c, gview m g = Some (id, c) ->
    id ∈ dom (mon_activeChecks m) \/ isRemoved id (mon_statusTracker m) = true;
  inv_tracked : forall id, is_Some (st_states (mon_statusTracker m) !! id) ->
    id ∈ dom (mon_activeChecks m);
  inv_active : forall id, id ∈ dom (mon_activeChecks m) ->
    isRemoved id (mon_statusTracker m) = false;
  inv_probe : forall id, breaker_of id (mon_statusTracker m) = Some CircuitHalfOpen ->
    exists g, gview m g = Some (id, true);
  inv_fresh : forall g, is_Some (gview m g) -> g < mon_next m;
}.

(** Before [Start] nothing is active; afterwards the active checks are those of
    the configured backends. *)
Definition active_configured (m : Monitor) : Prop :=
  if mon_started m || mon_stopped m
  then forall id, id ∈ dom (mon_activeChecks m) <-> id ∈ b_ID <$> mon_backends m
  else mon_activeChecks m = ∅ /\ mon_goroutines m = ∅ /\
       st_states (mon_statusTracker m) = ∅ /\ st_removedBackends (mon_statusTracker m) = ∅.

(** Recording a result resolves a probe. *)
Lemma RecordSuccess_not_half_open now c : GetState (RecordSuccess now c) ≠ CircuitHalfOpen.
Proof.
  destruct c as [|cb]; simpl; [done|]. by cb_cases cb.
Qed.

Lemma RecordFailure_not_half_open now now' c :
  GetState (RecordFailure now now' c) ≠ CircuitHalfOpen.
Proof.
  destruct c as [|cb]; simpl; [done|]. by cb_cases cb.
Qed.

(** A refused attempt changes nothing. *)
Lemma CanAttempt_refused now now' c c' : CanAttempt now now' c = (c', false) -> c' = c.
Proof.
  destruct c as [|cb]; simpl; [done|].
  destruct (cb_CanAttempt now now' cb) as [cb' ok] eqn:E. intros [= <- ->].
  unfold cb_CanAttempt, tryTransitionOpenToHalfOpen in E.
  by repeat (case_match; simplify_eq/=).
Qed.

(** ** Finishing a check is one or two tracker calls *)
Definition finish_op (thr : Duration) (b : Backend) (probe : option error) (dur : Duration)
    (clk : Clock) : tracker_op :=
  match CheckHealth thr (checkTarget b) probe dur with
  | (status, Some e) => TFailure (b_ID b) (b_Name b) status e clk
  | (status, None) => TSuccess (b_ID b) (b_Name b) status clk
  end.

Lemma finish_as_ops thr b probe dur rev clk t :
  finishHealthCheck thr b probe dur rev clk t =
  tracker_run (finish_op thr b probe dur clk ::
               match rev with Some r => [TRevision (b_ID b) r] | None => [] end) t.
Proof.
  unfold finishHealthCheck, finish_op. destruct (CheckHealth _ _ _ _) as [? []]; by destruct rev.
Qed.

Lemma finish_op_backend thr b probe dur clk :
  op_backend (finish_op thr b probe dur clk) = b_ID b.
Proof. unfold finish_op. by destruct (CheckHealth _ _ _ _) as [? []]. Qed.

Definition is_result (op : tracker_op) : Prop :=
  match op with TSuccess _ _ _ _ | TFailure _ _ _ _ _ => True | _ => False end.

Lemma finish_op_result thr b probe dur clk : is_result (finish_op thr b probe dur clk).
Proof. unfold finish_op. by destruct (CheckHealth _ _ _ _) as [? []]. Qed.

(** Calls that neither remove nor re-admit a backend. *)
Definition keeps_flags (op : tracker_op) : Prop :=
  match op with TRemove _ | TClear _ => False | _ => True end.

Lemma tracker_do_removed op t id :
  keeps_flags op -> isRemoved id (tracker_do op t) = isRemoved id t.
Proof.
  intros Hk. destruct (decide (op_backend op = id)) as [<-|Hne]; [|by apply tracker_do_other].
  pose proof (f_equal sp_removed (tracker_do_spec op t)) as E. simpl in E. rewrite E.
  destruct op; simpl in *; try done; by destruct (isRemoved id t) eqn:Er; rewrite ?Er.
Qed.

Lemma tracker_do_untracked op t id :
  keeps_flags op -> isRemoved id t = true -> st_states t !! id = None ->
  st_states (tracker_do op t) !! id = None.
Proof.
  intros Hk Hr Hs. destruct (decide (op_backend op = id)) as [<-|Hne].
  - pose proof (f_equal sp_health (tracker_do_spec op t)) as E. unfold spec_of in E.
    rewrite Hr, Hs in E. simpl in E.
    destruct (st_states (tracker_do op t) !! op_backend op); [|done].
    by destruct op.
  - by destruct (tracker_do_other op t id Hne) as [-> _].
Qed.

(** A recorded result leaves the backend's circuit resolved. *)
Lemma tracker_result_resolved op t :
  is_result op -> isRemoved (op_backend op) t = false ->
  breaker_of (op_backend op) (tracker_do op t) ≠ Some CircuitHalfOpen.
Proof.
  unfold breaker_of, GetCircuitBreakerState. intros Hres Hr.
  destruct op; simpl in *; try done;
    unfold tracker_RecordSuccess, tracker_RecordFailure; rewrite Hr;
    unfold getOrCreateState; destruct (st_states t !! _); simpl; rewrite lookup_insert_eq; simpl;
    intros [= E];
    first [by apply RecordSuccess_not_half_open in E | by apply RecordFailure_not_half_open in E].
Qed.

Lemma RecordRevision_breaker id rev t id' :
  breaker_of id' (RecordRevision id rev t) = breaker_of id' t.
Proof.
  unfold breaker_of, GetCircuitBreakerState, RecordRevision.
  destruct (st_states t !! id) as [s|] eqn:Es; [|done]. simpl.
  rewrite lookup_insert. case_decide as Hid; [|done]. subst. by rewrite Es.
Qed.

(** ** The tracker calls of a check, seen from the monitor's invariant *)
Lemma finish_removed thr b probe dur rev clk t id :
  isRemoved id (finishHealthCheck thr b probe dur rev clk t) = isRemoved id t.
Proof.
  rewrite finish_as_ops, tracker_run_cons.
  assert (keeps_flags (finish_op thr b probe dur clk)) as Hk.
  { pose proof (finish_op_result thr b probe dur clk). by destruct (finish_op _ _ _ _ _). }
  destruct rev as [r|]; simpl; [|by apply tracker_do_removed].
  etrans; [by apply (tracker_do_removed (TRevision (b_ID b) r))|]. by apply tracker_do_removed.
Qed.

Lemma finish_other thr b probe dur rev clk t id :
  id ≠ b_ID b ->
  st_states (finishHealthCheck thr b probe dur rev clk t) !! id = st_states t !! id.
Proof.
  intros Hne. rewrite finish_as_ops, tracker_run_cons.
  assert (op_backend (finish_op thr b probe dur clk) ≠ id) as Hop
    by (rewrite finish_op_backend; congruence).
  destruct (tracker_do_other _ t id Hop) as [<- _].
  destruct rev as [r|]; simpl; [|done].
  by apply (tracker_do_other (TRevision (b_ID b) r)).
Qed.

Lemma finish_untracked thr b probe dur rev clk t :
  isRemoved (b_ID b) t = true -> st_states t !! b_ID b = None ->
  st_states (finishHealthCheck thr b probe dur rev clk t) !! b_ID b = None.
Proof.
  intros Hr Hs. rewrite finish_as_ops, tracker_run_cons.
  assert (keeps_flags (finish_op thr b probe dur clk)) as Hk.
  { pose proof (finish_op_result thr b probe dur clk). by destruct (finish_op _ _ _ _ _). }
  pose proof (tracker_do_untracked _ t _ Hk Hr Hs) as Hs1.
  destruct rev as [r|]; [|done]. simpl. unfold RecordRevision. by rewrite Hs1.
Qed.

Lemma finish_resolved thr b probe dur rev clk t :
  isRemoved (b_ID b) t = false ->
  breaker_of (b_ID b) (finishHealthCheck thr b probe dur rev clk t) ≠ Some CircuitHalfOpen.
Proof.
  intros Hr. rewrite finish_as_ops, tracker_run_cons.
  pose proof (tracker_result_resolved (finish_op thr b probe dur clk) t
    (finish_op_result _ _ _ _ _)) as Hres.
  rewrite finish_op_backend in Hres. specialize (Hres Hr).
  destruct rev as [r|]; simpl; [|done]. by rewrite RecordRevision_breaker.
Qed.

Lemma begin_spec b now now' t t' ok :
  beginHealthCheck b now now' t = (t', ok) ->
  (forall id, isRemoved id t' = isRemoved id t) /\
  (forall id, is_Some (st_states t' !! id) <-> is_Some (st_states t !! id)) /\
  (forall id, id ≠ b_ID b \/ ok = false -> breaker_of id t' = breaker_of id t).
Proof.
  unfold beginHealthCheck, ShouldAttemptHealthCheck, CanAttemptHealthCheck, breaker_of,
    GetCircuitBreakerState. intros E.
  destruct (st_states t !! b_ID b) as [s|] eqn:Es; [|by simplify_eq].
  destruct (CanAttempt now now' (hs_circuitBreaker s)) as [c ok'] eqn:Ec. simplify_eq.
  split_and!.
  - done.
  - intros id. simpl. rewrite lookup_insert_is_Some'. naive_solver.
  - intros id Hid. simpl. rewrite lookup_insert. case_decide as Hd; [|done]. subst.
    destruct Hid as [?| ->]; [done|]. apply CanAttempt_refused in Ec as ->. by rewrite Es.
Qed.

(** ** The invariant is preserved *)

(** Cancelling goroutines changes nothing the invariant sees. *)
Lemma inv_same_goroutines m gs :
  (forall g, gview (mon_set_checks (mon_activeChecks m) gs (mon_next m) m) g = gview m g) ->
  monitor_inv m -> monitor_inv (mon_set_checks (mon_activeChecks m) gs (mon_next m) m).
Proof.
  intros E [Hg Ht Ha Hp Hf]. split; simpl; try done.
  - intros g id c. rewrite E. apply Hg.
  - intros id Hid. destruct (Hp id Hid) as [g Eg]. exists g. by rewrite E.
  - intros g. rewrite E. apply Hf.
Qed.

Lemma cancel_all_view m g :
  gview (mon_set_checks (mon_activeChecks m) (cancel_goroutine <$> mon_goroutines m)
           (mon_next m) m) g = gview m g.
Proof. unfold gview. simpl. rewrite lookup_fmap. by destruct (mon_goroutines m !! g). Qed.

Lemma stopCheck_view bc m g : gview (stopCheck bc m) g = gview m g.
Proof.
  unfold gview. simpl. destruct (decide (g = bc_goroutine bc)) as [->|Hne].
  - rewrite lookup_alter_eq. by destruct (mon_goroutines m !! _).
  - by rewrite lookup_alter_ne.
Qed.

Lemma stopCheck_inv bc m : monitor_inv m -> monitor_inv (stopCheck bc m).
Proof. apply inv_same_goroutines, stopCheck_view. Qed.

Lemma startCheck_view id b m g :
  gview (startCheck id b m) g =
  if decide (g = mon_next m) then Some (b_ID b, false) else gview m g.
Proof.
  unfold gview. simpl. rewrite lookup_insert. repeat case_decide; by subst.
Qed.

(** Starting a check of a backend, its removed flag cleared. *)
Lemma restart_inv b m :
  monitor_inv m ->
  monitor_inv (startCheck (b_ID b) b
    (mon_set_tracker (ClearRemovedFlag (b_ID b) (mon_statusTracker m)) m)).
Proof.
  intros [Hg Ht Ha Hp Hf].
  assert (forall id, isRemoved id (ClearRemovedFlag (b_ID b) (mon_statusTracker m)) =
    if decide (id = b_ID b) then false else isRemoved id (mon_statusTracker m)) as Hr.
  { intros id. unfold isRemoved. simpl. rewrite lookup_delete. by repeat case_decide; subst. }
  split; simpl.
  - intros g id c. rewrite startCheck_view, Hr, dom_insert. simpl.
    case_decide as Hd; [set_solver|]. intros Hgv%Hg. case_decide; set_solver.
  - intros id Hid%Ht. set_solver.
  - intros id. rewrite Hr, dom_insert. case_decide; [done|]. intros Hin. apply Ha. set_solver.
  - intros id Hid. destruct (Hp id Hid) as [g Eg]. exists g. rewrite startCheck_view. simpl.
    rewrite decide_False; [done|]. pose proof (Hf g ltac:(by rewrite Eg)). lia.
  - intros g. rewrite startCheck_view. simpl. case_decide; [lia|]. intros ?%Hf. lia.
Qed.

Lemma addOrRestart_inv m b : monitor_inv m -> monitor_inv (addOrRestart m (b_ID b, b)).
Proof.
  intros Hm. unfold addOrRestart. destruct (mon_activeChecks m !! _); [|by apply restart_inv].
  case_match; [done|]. by apply restart_inv, stopCheck_inv.
Qed.

(** Dropping a check together with its tracked state. *)
Lemma dropIfGone_inv bs m id : monitor_inv m -> monitor_inv (dropIfGone bs m id).
Proof.
  intros Hm. unfold dropIfGone. destruct (mon_activeChecks m !! id) as [bc|]; [|done].
  destruct (bs !! id); [done|].
  destruct (stopCheck_inv bc m Hm) as [Hg Ht Ha Hp Hf]. simpl in *.
  assert (forall id', isRemoved id' (RemoveBackend id (mon_statusTracker m)) =
    if decide (id' = id) then true else isRemoved id' (mon_statusTracker m)) as Hr.
  { intros id'. unfold isRemoved. simpl. rewrite lookup_insert. by repeat case_decide; subst. }
  split; simpl.
  - intros g id' c Hgv. rewrite Hr, dom_delete. case_decide; [by right|].
    destruct (Hg g id' c Hgv); set_solver.
  - intros id' Hid'. rewrite dom_delete. apply lookup_delete_is_Some in Hid' as [Hne Hid'].
    apply Ht in Hid'. set_solver.
  - intros id'. rewrite dom_delete, Hr. intros Hin. rewrite decide_False by set_solver.
    apply Ha. set_solver.
  - intros id'. unfold breaker_of, GetCircuitBreakerState. simpl. rewrite lookup_delete.
    case_decide; [done|]. apply Hp.
  - done.
Qed.

(** A goroutine moving between waiting and checking. *)
Lemma set_checking_view m t g gr c g' :
  mon_goroutines m !! g = Some gr ->
  gview (mon_set_checks (mon_activeChecks m) (<[g := set_checking c gr]> (mon_goroutines m))
           (mon_next m) (mon_set_tracker t m)) g' =
  if decide (g' = g) then Some (b_ID (g_backend gr), c) else gview m g'.
Proof.
  intros Hgr. unfold gview. simpl. rewrite lookup_insert. repeat case_decide; by subst.
Qed.

Lemma begin_inv g gr now now' t ok m :
  mon_goroutines m !! g = Some gr -> g_checking gr = false ->
  beginHealthCheck (g_backend gr) now now' (mon_statusTracker m) = (t, ok) ->
  monitor_inv m ->
  monitor_inv (mon_set_checks (mon_activeChecks m)
    (<[g := set_checking ok gr]> (mon_goroutines m)) (mon_next m) (mon_set_tracker t m)).
Proof.
  intros Hgr Hc Hb [Hg Ht Ha Hp Hf]. apply begin_spec in Hb as (Hr & Hs & Hbr).
  assert (gview m g = Some (b_ID (g_backend gr), false)) as Hv
    by (unfold gview; by rewrite Hgr; simpl; rewrite Hc).
  split; simpl.
  - intros g' id c. rewrite set_checking_view by done. rewrite Hr.
    case_decide as Hd; [intros [= <- <-]; by eapply Hg|apply Hg].
  - intros id. rewrite Hs. apply Ht.
  - intros id. rewrite Hr. apply Ha.
  - intros id Hid. destruct (decide (id ≠ b_ID (g_backend gr) \/ ok = false)) as [Hd|Hd].
    + rewrite Hbr in Hid by done. destruct (Hp id Hid) as [g' Hg']. exists g'.
      rewrite set_checking_view by done. rewrite decide_False; [done|congruence].
    + exists g. rewrite set_checking_view by done. rewrite decide_True by done.
      destruct ok; [|tauto].
      destruct (decide (id = b_ID (g_backend gr))) as [->|]; [done|tauto].
  - intros g'. rewrite set_checking_view by done. case_decide; [|apply Hf].
    intros _. subst. apply Hf. by rewrite Hv.
Qed.

Lemma finish_inv g gr probe dur rev clk m :
  mon_goroutines m !! g = Some gr -> g_checking gr = true ->
  monitor_inv m ->
  monitor_inv (mon_set_checks (mon_activeChecks m)
    (<[g := set_checking false gr]> (mon_goroutines m)) (mon_next m)
    (mon_set_tracker (finishHealthCheck (mon_degradedThreshold m) (g_backend gr) probe dur rev clk
       (mon_statusTracker m)) m)).
Proof.
  intros Hgr Hc [Hg Ht Ha Hp Hf]. set (b := g_backend gr) in *.
  assert (gview m g = Some (b_ID b, true)) as Hv
    by (unfold gview; by rewrite Hgr; simpl; rewrite Hc).
  assert (b_ID b ∈ dom (mon_activeChecks m) \/
    isRemoved (b_ID b) (mon_statusTracker m) = true /\
    st_states (mon_statusTracker m) !! b_ID b = None) as Hact.
  { destruct (decide (b_ID b ∈ dom (mon_activeChecks m))) as [|Hn]; [by left|right].
    split; [by destruct (Hg _ _ _ Hv)|]. apply eq_None_not_Some. intros Hs%Ht. done. }
  split; simpl.
  - intros g' id c. rewrite set_checking_view by done. rewrite finish_removed.
    case_decide as Hd; [intros [= <- <-]; by eapply Hg|apply Hg].
  - intros id Hid. destruct (decide (id = b_ID b)) as [->|Hne].
    + destruct Hact as [|[Hr Hs]]; [done|]. rewrite finish_untracked in Hid by done.
      by destruct Hid.
    + rewrite finish_other in Hid by done. by apply Ht.
  - intros id. rewrite finish_removed. apply Ha.
  - intros id Hid. destruct (decide (id = b_ID b)) as [->|Hne].
    + exfalso. destruct Hact as [Hin|[Hr Hs]].
      * apply Ha in Hin. by eapply finish_resolved.
      * unfold breaker_of, GetCircuitBreakerState in Hid.
        by rewrite finish_untracked in Hid.
    + unfold breaker_of, GetCircuitBreakerState in Hid. rewrite finish_other in Hid by done.
      destruct (Hp id Hid) as [g' Hg']. exists g'. rewrite set_checking_view by done.
      rewrite decide_False; [done|congruence].
  - intros g'. rewrite set_checking_view by done. case_decide; [|apply Hf].
    intros _. subst. apply Hf. by rewrite Hv.
Qed.

Lemma exit_inv g gr m :
  mon_goroutines m !! g = Some gr -> g_checking gr = false -> monitor_inv m ->
  monitor_inv (mon_set_checks (mon_activeChecks m) (delete g (mon_goroutines m)) (mon_next m) m).
Proof.
  intros Hgr Hc [Hg Ht Ha Hp Hf].
  assert (forall g', gview (mon_set_checks (mon_activeChecks m) (delete g (mon_goroutines m))
    (mon_next m) m) g' = if decide (g' = g) then None else gview m g') as E.
  { intros g'. unfold gview. simpl. rewrite lookup_delete. repeat case_decide; by subst. }
  split; simpl; try done.
  - intros g' id c. rewrite E. case_decide; [done|apply Hg].
  - intros id Hid. destruct (Hp id Hid) as [g' Hg']. exists g'. rewrite E, decide_False; [done|].
    intros ->. unfold gview in Hg'. rewrite Hgr in Hg'. simpl in Hg'. congruence.
  - intros g'. rewrite E. case_decide; [by intros []|apply Hf].
Qed.

(** ** The loops of [Start] and [UpdateBackends] *)
Lemma startCheck_inv b m :
  st_removedBackends (mon_statusTracker m) = ∅ -> monitor_inv m ->
  monitor_inv (startCheck (b_ID b) b m).
Proof.
  intros Hr Hm. apply (restart_inv b) in Hm. unfold ClearRemovedFlag in Hm.
  rewrite Hr, delete_empty, <- Hr in Hm. by destruct m as [? [] ? ? ? ? ? ?].
Qed.

Lemma start_loop bs m :
  st_removedBackends (mon_statusTracker m) = ∅ -> monitor_inv m ->
  let m' := foldl (fun m b => startCheck (b_ID b) b m) m bs in
  monitor_inv m' /\ dom (mon_activeChecks m') = dom (mon_activeChecks m) ∪ list_to_set (b_ID <$> bs) /\
  mon_backends m' = mon_backends m /\ mon_started m' = mon_started m.
Proof.
  revert m. induction bs as [|b bs IH]; intros m Hr Hm; [by split_and!; [|set_solver| |]|]. simpl.
  destruct (IH (startCheck (b_ID b) b m)) as (H1 & H2 & H3 & H4); [done|by apply startCheck_inv|].
  simpl in *. split_and!; try done. rewrite H2. set_solver.
Qed.

Lemma add_loop bs m :
  (forall id b, (id, b) ∈ bs -> b_ID b = id) -> monitor_inv m ->
  let m' := foldl addOrRestart m bs in
  monitor_inv m' /\ dom (mon_activeChecks m') = dom (mon_activeChecks m) ∪ list_to_set bs.*1 /\
  mon_backends m' = mon_backends m /\ mon_started m' = mon_started m.
Proof.
  revert m. induction bs as [|[id b] bs IH]; intros m Hid Hm; [by split_and!; [|set_solver| |]|].
  assert (b_ID b = id) as <- by (apply Hid; set_solver). cbn [foldl].
  destruct (IH (addOrRestart m (b_ID b, b))) as (H1 & H2 & H3 & H4);
    [set_solver|by apply addOrRestart_inv|].
  split_and!; [done| | |].
  - rewrite H2. unfold addOrRestart. destruct (mon_activeChecks m !! b_ID b) eqn:E.
    + apply elem_of_dom_2 in E. case_match; set_solver.
    + simpl. set_solver.
  - rewrite H3. unfold addOrRestart. by repeat case_match.
  - rewrite H4. unfold addOrRestart. by repeat case_match.
Qed.

Lemma drop_loop news ids m :
  monitor_inv m ->
  let m' := foldl (dropIfGone news) m ids in
  monitor_inv m' /\
  (forall id, id ∈ dom (mon_activeChecks m') <->
     id ∈ dom (mon_activeChecks m) /\ (id ∉ ids \/ is_Some (news !! id))) /\
  mon_backends m' = mon_backends m /\ mon_started m' = mon_started m.
Proof.
  revert m. induction ids as [|id ids IH]; intros m Hm; [by split_and!; [|set_solver| |]|].
  cbn [foldl]. destruct (IH (dropIfGone news m id)) as (H1 & H2 & H3 & H4);
    [by apply dropIfGone_inv|].
  split_and!; [done| | |].
  - intros id'. rewrite H2, not_elem_of_cons. unfold dropIfGone.
    destruct (mon_activeChecks m !! id) eqn:Ea, (news !! id) eqn:En; simpl.
    + destruct (decide (id' = id)) as [->|]; [|tauto].
      rewrite En. split; [intros [? _]; split; [done|by right]|intros [? _]; split; [done|by right]].
    + rewrite dom_delete, elem_of_difference, elem_of_singleton.
      destruct (decide (id' = id)) as [->|]; [|tauto]. rewrite En.
      split; [tauto|]. intros (_ & [[] | []%is_Some_None]); done.
    + destruct (decide (id' = id)) as [->|]; [|tauto]. apply not_elem_of_dom in Ea. tauto.
    + destruct (decide (id' = id)) as [->|]; [|tauto]. apply not_elem_of_dom in Ea. tauto.
  - rewrite H3. unfold dropIfGone. by repeat case_match.
  - rewrite H4. unfold dropIfGone. by repeat case_match.
Qed.

(** ** Every step preserves the invariant *)
Definition monitor_ok (m : Monitor) : Prop := monitor_inv m /\ active_configured m.

Lemma NewMonitor_ok bs config m : NewMonitor bs config = Some m -> monitor_ok m.
Proof.
  unfold NewMonitor. intros E. repeat (case_match; try done); simplify_eq.
  all: split; [split; simpl|done]; unfold gview, breaker_of, GetCircuitBreakerState; simpl;
    intros *; rewrite ?lookup_empty; set_solver.
Qed.

Lemma Start_ok ctxNil m : monitor_ok m -> monitor_ok (Start ctxNil m).1.
Proof.
  intros Hok. unfold Start. destruct (mon_stopped m) eqn:Hs; [done|].
  destruct (mon_started m) eqn:Hst; [done|]. destruct ctxNil; [done|].
  destruct Hok as [Hm Hc]. unfold active_configured in Hc. rewrite Hst, Hs in Hc.
  destruct Hc as (Ha & Hg & Hst' & Hr). simpl.
  destruct (start_loop (mon_backends m)
    (mon_set_lifecycle (mon_backends m) true false m)) as (H1 & H2 & H3 & H4);
    [done|by destruct Hm|].
  split; [done|]. unfold active_configured. rewrite H4. simpl. rewrite H2, H3. simpl.
  rewrite Ha. set_solver.
Qed.

Lemma Stop_ok m : monitor_ok m -> monitor_ok (Stop m).1.
Proof.
  intros Hok. unfold Stop. destruct (mon_started m) eqn:Hst; simpl; [|done].
  destruct Hok as [Hm Hc]. unfold active_configured in Hc. rewrite Hst in Hc.
  split; [|done]. apply (inv_same_goroutines m _ (cancel_all_view m)) in Hm. by destruct Hm.
Qed.

Lemma UpdateBackends_ok bs order order' m :
  order ≡ₚ map_to_list (index_backends bs) ->
  (forall id, id ∈ order' <-> id ∈ dom (mon_activeChecks (foldl addOrRestart
     (mon_set_lifecycle bs (mon_started m) (mon_stopped m) m) order))) ->
  monitor_ok m -> monitor_ok (UpdateBackends bs order order' m).
Proof.
  intros Hord Hord' [Hm Hc]. unfold UpdateBackends.
  destruct (negb (mon_started m) || mon_stopped m) eqn:Hs; [done|].
  destruct (mon_started m) eqn:Hst; [|done].
  set (m0 := mon_set_lifecycle bs true (mon_stopped m) m) in *.
  destruct (add_loop order m0) as (H1 & H2 & H3 & H4).
  { intros id b. rewrite Hord, elem_of_map_to_list. apply index_backends_ids. }
  { by destruct Hm. }
  destruct (drop_loop (index_backends bs) order' (foldl addOrRestart m0 order) H1)
    as (H5 & H6 & H7 & H8).
  split; [done|]. unfold active_configured. rewrite H8, H4. simpl. intros id.
  rewrite H6, H7, H3, Hord', <- elem_of_dom, index_backends_dom. simpl.
  split; [tauto|]. intros Hid. split; [|by right]. rewrite H2, elem_of_union, elem_of_list_to_set.
  right. rewrite Hord. apply index_backends_dom, elem_of_dom in Hid as [b Hb].
  apply list_elem_of_fmap. exists (id, b). by rewrite elem_of_map_to_list.
Qed.

Lemma running_configured m m' :
  (exists g, is_Some (mon_goroutines m !! g)) ->
  mon_started m' = mon_started m -> mon_stopped m' = mon_stopped m ->
  mon_activeChecks m' = mon_activeChecks m -> mon_backends m' = mon_backends m ->
  active_configured m -> active_configured m'.
Proof.
  intros Hg E1 E2 E3 E4. unfold active_configured. rewrite E1, E2, E3, E4.
  destruct (mon_started m || mon_stopped m); [done|].
  intros (_ & Hg' & _). rewrite Hg' in Hg. destruct Hg as (g & ? & E).
  by rewrite lookup_empty in E.
Qed.

Lemma monitor_step_ok m m' : monitor_step m m' -> monitor_ok m -> monitor_ok m'.
Proof.
  intros Hstep Hok. destruct Hstep.
  - by apply Start_ok.
  - by apply Stop_ok.
  - by apply UpdateBackends_ok.
  - destruct Hok as [Hm Hc]. split; [by apply inv_same_goroutines, Hm; apply cancel_all_view|].
    revert Hc. unfold active_configured. simpl. case_match; [done|].
    intros (? & -> & ?). by rewrite fmap_empty.
  - destruct Hok as [Hm Hc]. split; [by eapply begin_inv|]. by eapply running_configured; eauto.
  - destruct Hok as [Hm Hc]. split; [by apply finish_inv|]. by eapply running_configured; eauto.
  - destruct Hok as [Hm Hc]. split; [by eapply exit_inv|]. by eapply running_configured; eauto.
Qed.

Lemma monitor_reachable_ok m : monitor_reachable m -> monitor_ok m.
Proof.
  intros (bs & config & m0 & Hnew & Hrun). apply NewMonitor_ok in Hnew.
  induction Hrun as [|m1 m2 m3 Hstep _ IH]; [done|]. by eapply IH, monitor_step_ok.
Qed.

(** C10. However the monitor's goroutines interleave with starting, stopping and
    reconfiguring it, a backend whose circuit is half-open has a health check in
    flight, and whatever that check's outcome is, recording it leaves the
    half-open state: a recovery probe is never lost, so a circuit cannot stay
    half-open with no one testing it. *)
Theorem half_open_is_probed m id :
  monitor_reachable m ->
  GetCircuitBreakerState id (mon_statusTracker m) = Some CircuitHalfOpen ->
  exists g gr, mon_goroutines m !! g = Some gr /\ b_ID (g_backend gr) = id /\
    g_checking gr = true /\
    forall probe dur rev clk,
      GetCircuitBreakerState id
        (finishHealthCheck (mon_degradedThreshold m) (g_backend gr) probe dur rev clk
           (mon_statusTracker m)) ≠ Some CircuitHalfOpen.
Proof.
  intros [Hm _]%monitor_reachable_ok Hid.
  destruct (inv_probe m Hm id Hid) as [g Hg]. unfold gview in Hg.
  destruct (mon_goroutines m !! g) as [gr|] eqn:E; [|done]. simpl in Hg. simplify_eq.
  exists g, gr. split_and!; try done. intros probe dur rev clk. apply finish_resolved.
  apply (inv_active m Hm), (inv_tracked m Hm). unfold GetCircuitBreakerState in Hid.
  by destruct (st_states _ !! _).
Qed.

Definition sample_config : MonitorConfig := {|
  mc_CheckInterval := 1; mc_UnhealthyThreshold := 1; mc_Timeout := 1; mc_DegradedThreshold := 0;
  mc_CircuitBreaker := Some {| cbc_Enabled := true; cbc_FailureThreshold := 1; cbc_Timeout := 5 |};
|}.

Definition sample_monitor : Monitor :=
  default {| mon_degradedThreshold := 0; mon_statusTracker := newStatusTracker 1 None;
             mon_backends := []; mon_activeChecks := ∅; mon_started := false;
             mon_stopped := false; mon_goroutines := ∅; mon_next := 0 |}
    (NewMonitor [sample_backend "a"] sample_config).

Definition sample_failure : error :=
  {| err_chain := [ErrTimeout]; err_Error := "timeout" |}.

Lemma half_open_is_probed_witness : exists m,
  monitor_reachable m /\
  GetCircuitBreakerState "a" (mon_statusTracker m) = Some CircuitHalfOpen /\
  exists g gr, mon_goroutines m !! g = Some gr /\ b_ID (g_backend gr) = "a".
Proof.
  assert (exists m, rtc monitor_step sample_monitor m /\
    GetCircuitBreakerState "a" (mon_statusTracker m) = Some CircuitHalfOpen) as (m & Hrun & Hm).
  { eexists. split.
    - eapply rtc_l; [apply (step_start false)|].
      eapply rtc_l; [eapply (step_begin 0 _ 1 1); vm_compute; reflexivity|].
      eapply rtc_l; [eapply (step_finish 0 _ (Some sample_failure) 1 None (fun _ => 2%Z));
        vm_compute; reflexivity|].
      eapply rtc_l; [eapply (step_begin 0 _ 9 9); vm_compute; reflexivity|]. apply rtc_refl.
    - vm_compute. reflexivity. }
  assert (monitor_reachable m) as Hr.
  { exists [sample_backend "a"], sample_config, sample_monitor.
    split; [vm_compute; reflexivity|exact Hrun]. }
  exists m. split; [exact Hr|]. split; [exact Hm|].
  destruct (half_open_is_probed m "a" Hr Hm) as (g & gr & Hg & Hb & _).
  exists g, gr. split; assumption.
Defined.
