(* ===== verification/HealthReport.v ===== *)
(** * The health report ([pkg/vmcp/health/monitor.go], from [GetBackendStatus] on)

    The queries of the monitor and the status it reports to Kubernetes and the
    CLI: the summary counts, the phase with its message and conditions, and one
    entry per tracked backend.  Counters of the summary are at most the number
    of tracked backends and are kept unbounded; [BackendCount] is an [int32].
    Go ranges over a map in an arbitrary order: [order] is that order. *)

From S2P Require Import Prelude VmcpTypes CircuitBreaker HealthStatus HealthMonitor.

(** ** Queries *)
Definition GetBackendStatus (backendID : string) (m : Monitor)
    : BackendHealthStatus * option string :=
  let '(status, exists_) := GetStatus backendID (mon_statusTracker m) in
  if negb exists_ then (BackendUnknown, Some ("backend " +:+ backendID +:+ " not found"))
  else (status, None).

Definition QueryBackendStatus (backendID : string) (m : Monitor) : BackendHealthStatus * bool :=
  GetStatus backendID (mon_statusTracker m).

Definition GetBackendState (backendID : string) (m : Monitor) : option State * option string :=
  match tracker_GetState backendID (mon_statusTracker m) with
  | None => (None, Some ("backend " +:+ backendID +:+ " not found"))
  | Some state => (Some state, None)
  end.

Definition GetAllBackendStates (m : Monitor) : gmap string State :=
  GetAllStates (mon_statusTracker m).

Definition IsBackendHealthy (backendID : string) (m : Monitor) : bool :=
  IsHealthy backendID (mon_statusTracker m).

(** ** Summary *)
Record Summary := {
  sum_Total : Z;
  sum_Healthy : Z;
  sum_Degraded : Z;
  sum_Unhealthy : Z;
  sum_Unknown : Z;
  sum_Unauthenticated : Z;
}.

(** The body of the loop. *)
Definition summary_add (_ : string) (state : State) (s : Summary) : Summary :=
  let '(Build_Summary t h d u k a) := s in
  match State_Status state with
  | BackendHealthy => Build_Summary t (h + 1) d u k a
  | BackendDegraded => Build_Summary t h (d + 1) u k a
  | BackendUnhealthy => Build_Summary t h d (u + 1) k a
  | BackendUnknown => Build_Summary t h d u (k + 1) a
  | BackendUnauthenticated => Build_Summary t h d u k (a + 1)
  end%Z.

Definition computeSummary (allStates : gmap string State) : Summary :=
  map_fold summary_add (Build_Summary (Z.of_nat (size allStates)) 0 0 0 0 0) allStates.

Definition GetHealthSummary (m : Monitor) : Summary := computeSummary (GetAllBackendStates m).

Definition Routable (s : Summary) : Z := sum_Healthy s + sum_Unauthenticated s.

Definition Summary_String (s : Summary) : string :=
  "total=" +:+ fmt_d (sum_Total s) +:+ " healthy=" +:+ fmt_d (sum_Healthy s) +:+
  " degraded=" +:+ fmt_d (sum_Degraded s) +:+ " unhealthy=" +:+ fmt_d (sum_Unhealthy s) +:+
  " unknown=" +:+ fmt_d (sum_Unknown s) +:+
  " unauthenticated=" +:+ fmt_d (sum_Unauthenticated s).

(** ** Phase and messages *)
Inductive Phase := PhasePending | PhaseReady | PhaseDegraded | PhaseFailed.

#[export] Instance Phase_eq_dec : EqDecision Phase.
Proof. solve_decision. Defined.

Definition determinePhase (summary : Summary) (configuredBackendCount : Z) : Phase :=
  if decide (sum_Total summary = 0%Z) then
    if decide (configuredBackendCount = 0%Z) then PhaseReady else PhasePending
  else if decide (Routable summary = sum_Total summary) then PhaseReady
  else if decide (Routable summary = 0%Z) then PhaseFailed
  else PhaseDegraded.

Definition pluralBackend (n : Z) : string := if decide (n = 1%Z) then "backend" else "backends".

Definition pluralRequire (n : Z) : string := if decide (n = 1%Z) then "requires" else "require".

Definition quantifyBackends (n : Z) : string :=
  if decide (n = 1%Z) then fmt_d n +:+ " backend" else "All " +:+ fmt_d n +:+ " backends".

Definition formatStatusMessage (summary : Summary) (phase : Phase) (configuredBackendCount : Z)
    : string :=
  if decide (sum_Total summary = 0%Z) then
    if decide (configuredBackendCount = 0%Z) then "Ready, no backends configured"
    else "Waiting for initial health checks (" +:+ fmt_d configuredBackendCount +:+
         " backends configured)"
  else if decide (phase = PhaseReady) then
    if decide (sum_Unauthenticated summary = 0%Z) then
      "All " +:+ fmt_d (sum_Healthy summary) +:+ " " +:+ pluralBackend (sum_Healthy summary) +:+
      " healthy"
    else if decide (sum_Healthy summary = 0%Z) then
      quantifyBackends (sum_Unauthenticated summary) +:+ " " +:+
      pluralRequire (sum_Unauthenticated summary) +:+ " authentication"
    else
      fmt_d (sum_Healthy summary) +:+ " " +:+ pluralBackend (sum_Healthy summary) +:+
      " healthy, " +:+ fmt_d (sum_Unauthenticated summary) +:+ " " +:+
      pluralRequire (sum_Unauthenticated summary) +:+ " authentication"
  else
    let nonRoutableDetails :=
      fmt_d (sum_Degraded summary) +:+ " degraded, " +:+ fmt_d (sum_Unhealthy summary) +:+
      " unhealthy, " +:+ fmt_d (sum_Unknown summary) +:+ " unknown" in
    if decide (phase = PhaseFailed) then "No routable backends (" +:+ nonRoutableDetails +:+ ")"
    else fmt_d (Routable summary) +:+ "/" +:+ fmt_d (sum_Total summary) +:+
         " backends routable (" +:+ nonRoutableDetails +:+ ")".

Definition extractAuthInfo (backend : Backend) : string * string :=
  match b_AuthConfig backend with
  | None => ("", "")
  | Some a => (b_AuthConfigRef backend, bas_Type a)
  end.

Definition categorizeErrorForMessage (err : option error) : string :=
  match err with
  | None => "Unknown error"
  | Some e =>
      if errors_Is e ErrAuthenticationFailed || errors_Is e ErrAuthorizationFailed
      then "Authentication failed"
      else if IsAuthenticationError err then "Authentication failed"
      else if errors_Is e ErrTimeout then "Health check timed out"
      else if IsTimeoutError err then "Health check timed out"
      else if errors_Is e ErrCancelled then "Health check cancelled"
      else if errors_Is e ErrBackendUnavailable then "Backend unavailable"
      else if IsConnectionError err then "Connection failed"
      else "Health check failed"
  end.

Definition formatBackendMessage (state : State) : string :=
  let baseMsg :=
    match State_LastError state with
    | Some _ =>
        let category := categorizeErrorForMessage (State_LastError state) in
        if (1 <? State_ConsecutiveFailures state)%Z
        then category +:+ " (failures: " +:+ fmt_d (State_ConsecutiveFailures state) +:+ ")"
        else category
    | None =>
        match State_Status state with
        | BackendHealthy => "Healthy"
        | BackendDegraded =>
            if (0 <? State_ConsecutiveFailures state)%Z
            then "Recovering from " +:+ fmt_d (State_ConsecutiveFailures state) +:+ " failures"
            else "Degraded performance"
        | BackendUnhealthy => "Unhealthy"
        | BackendUnauthenticated =>
            "Authentication misconfigured (backend requires auth, none configured)"
        | BackendUnknown => "Unknown"
        end
    end in
  match State_CircuitState state with
  | CircuitOpen => "Circuit breaker OPEN - " +:+ baseMsg
  | CircuitHalfOpen => "Circuit breaker testing recovery - " +:+ baseMsg
  | CircuitClosed => baseMsg
  end.

(** ** The report *)
Record DiscoveredBackend := {
  db_Name : string;
  db_URL : string;
  db_Status : string;
  db_AuthConfigRef : string;
  db_AuthType : string;
  db_LastHealthCheck : Time;
  db_Message : string;
  db_CircuitBreakerState : CircuitState;
  db_CircuitLastChanged : Time;
  db_ConsecutiveFailures : Z;
  db_MCPRevision : string;
}.

(** The body of the loop of [convertToDiscoveredBackends]. *)
Definition discoveredBackend (backendsByID : gmap string Backend) (idst : string * State)
    : DiscoveredBackend :=
  let '(backendID, state) := idst in
  let entry name url ref type := {|
    db_Name := name;
    db_URL := url;
    db_Status := ToCRDStatus (State_Status state);
    db_AuthConfigRef := ref;
    db_AuthType := type;
    db_LastHealthCheck := State_LastCheckTime state;
    db_Message := formatBackendMessage state;
    db_CircuitBreakerState := State_CircuitState state;
    db_CircuitLastChanged := State_CircuitLastChanged state;
    db_ConsecutiveFailures := State_ConsecutiveFailures state;
    db_MCPRevision := State_MCPRevision state |} in
  match backendsByID !! backendID with
  | None => entry backendID "" "" ""
  | Some backend =>
      let '(authConfigRef, authType) := extractAuthInfo backend in
      entry (b_Name backend) (b_BaseURL backend) authConfigRef authType
  end.

Definition convertToDiscoveredBackends (backends : list Backend) (order : list (string * State))
    : list DiscoveredBackend :=
  let backendsByID := index_backends backends in
  map (discoveredBackend backendsByID) order.

(** [metav1.Condition], [Status] being "True" or "False". *)
Record Condition := {
  cond_Type : string;
  cond_Status : bool;
  cond_LastTransitionTime : Time;
  cond_Reason : string;
  cond_Message : string;
}.

Definition readyCondition (summary : Summary) (phase : Phase) (configuredBackendCount : Z)
    (now : Time) : Condition :=
  let cond status reason msg := {|
    cond_Type := "Ready"; cond_Status := status; cond_LastTransitionTime := now;
    cond_Reason := reason; cond_Message := msg |} in
  match phase with
  | PhaseReady => cond true "AllBackendsRoutable"
      (if bool_decide (sum_Total summary = 0%Z) && bool_decide (configuredBackendCount = 0%Z)
       then "Ready, no backends configured"
       else if decide (sum_Unauthenticated summary = 0%Z) then
         "All " +:+ fmt_d (sum_Healthy summary) +:+ " " +:+
         pluralBackend (sum_Healthy summary) +:+ " are healthy"
       else if decide (sum_Healthy summary = 0%Z) then
         quantifyBackends (sum_Unauthenticated summary) +:+ " " +:+
         pluralRequire (sum_Unauthenticated summary) +:+ " authentication"
       else
         fmt_d (sum_Healthy summary) +:+ " " +:+ pluralBackend (sum_Healthy summary) +:+
         " healthy, " +:+ fmt_d (sum_Unauthenticated summary) +:+ " " +:+
         pluralRequire (sum_Unauthenticated summary) +:+ " authentication")
  | PhaseDegraded => cond false "SomeBackendsUnhealthy"
      (fmt_d (Routable summary) +:+ "/" +:+ fmt_d (sum_Total summary) +:+ " backends routable")
  | PhaseFailed => cond false "NoRoutableBackends" "No routable backends available"
  | PhasePending => cond false "BackendsPending"
      ("Waiting for initial health checks (" +:+ fmt_d configuredBackendCount +:+
       " backends configured)")
  end.

Definition buildConditions (summary : Summary) (phase : Phase) (configuredBackendCount : Z)
    (now : Time) : list Condition :=
  [readyCondition summary phase configuredBackendCount now;
   {| cond_Type := "BackendsDiscovered"; cond_Status := true; cond_LastTransitionTime := now;
      cond_Reason := "BackendsDiscovered";
      cond_Message := if decide (configuredBackendCount = 0%Z) then "No backends configured"
        else "Discovered " +:+ fmt_d configuredBackendCount +:+ " backends" |}] ++
  (if (0 <? sum_Degraded summary)%Z then
     [{| cond_Type := "Degraded"; cond_Status := true; cond_LastTransitionTime := now;
         cond_Reason := "BackendsDegraded";
         cond_Message := fmt_d (sum_Degraded summary) +:+ " backends degraded" |}]
   else []).

Record Status := {
  sta_Phase : Phase;
  sta_Message : string;
  sta_Conditions : list Condition;
  sta_DiscoveredBackends : list DiscoveredBackend;
  sta_BackendCount : Z;  (* int32 *)
  sta_Timestamp : Time;
}.

(** The tracker is read once and the configured backends twice, each under its
    own lock: [m], [m'] and [m''] are the monitor at the three reads.  [now] is
    the clock of the conditions and [now'] that of the report. *)
Definition BuildStatus (m m' m'' : Monitor) (order : list (string * State)) (now now' : Time)
    : Status :=
  let allStates := GetAllBackendStates m in
  let summary := computeSummary allStates in
  let configuredBackendCount := Z.of_nat (length (mon_backends m')) in
  let phase := determinePhase summary configuredBackendCount in {|
  sta_Phase := phase;
  sta_Message := formatStatusMessage summary phase configuredBackendCount;
  sta_Conditions := buildConditions summary phase configuredBackendCount now;
  sta_DiscoveredBackends := convertToDiscoveredBackends (mon_backends m'') order;
  sta_BackendCount := wrap32 (Routable summary);
  sta_Timestamp := now';
|}.

(** ** The summary counts the tracked backends *)
Definition count_status (st : BackendHealthStatus) (states : gmap string State) : Z :=
  Z.of_nat (size (filter (fun kv => State_Status kv.2 = st) states)).

Lemma count_status_empty st : count_status st ∅ = 0%Z.
Proof. unfold count_status. by rewrite map_filter_empty, map_size_empty. Qed.

Lemma count_status_insert st i x states :
  states !! i = None ->
  count_status st (<[i := x]> states) =
  (count_status st states + if decide (State_Status x = st) then 1 else 0)%Z.
Proof.
  intros Hi. unfold count_status. rewrite map_filter_insert. simpl. case_decide.
  - rewrite map_size_insert_None; [lia|]. apply map_lookup_filter_None. by left.
  - rewrite delete_id by done. lia.
Qed.

Lemma computeSummary_counts states :
  computeSummary states = {|
    sum_Total := Z.of_nat (size states);
    sum_Healthy := count_status BackendHealthy states;
    sum_Degraded := count_status BackendDegraded states;
    sum_Unhealthy := count_status BackendUnhealthy states;
    sum_Unknown := count_status BackendUnknown states;
    sum_Unauthenticated := count_status BackendUnauthenticated states |}.
Proof.
  unfold computeSummary. generalize (Z.of_nat (size states)). intros n. revert states.
  apply (map_fold_weak_ind (fun s states => s = Build_Summary n
    (count_status BackendHealthy states) (count_status BackendDegraded states)
    (count_status BackendUnhealthy states) (count_status BackendUnknown states)
    (count_status BackendUnauthenticated states))).
  - by rewrite !count_status_empty.
  - intros i x states r Hi ->. unfold summary_add. rewrite !count_status_insert by done.
    destruct (State_Status x); repeat case_decide; try done; by f_equal; lia.
Qed.

Lemma counts_total states :
  (count_status BackendHealthy states + count_status BackendDegraded states +
   count_status BackendUnhealthy states + count_status BackendUnknown states +
   count_status BackendUnauthenticated states)%Z = Z.of_nat (size states).
Proof.
  induction states as [|i x states Hi IH] using map_ind.
  - by rewrite !count_status_empty, map_size_empty.
  - rewrite !count_status_insert, map_size_insert_None by done.
    destruct (State_Status x); repeat case_decide; try done; lia.
Qed.

Lemma count_status_nonneg st states : (0 <= count_status st states)%Z.
Proof. unfold count_status. lia. Qed.

Lemma count_status_0 st states :
  count_status st states = 0%Z <-> map_Forall (fun _ s => State_Status s ≠ st) states.
Proof.
  unfold count_status. change 0%Z with (Z.of_nat 0). rewrite Nat2Z.inj_iff, map_size_empty_iff.
  by rewrite map_empty_filter.
Qed.

(** Backends that count as able to serve traffic. *)
Definition routable (s : State) : Prop :=
  State_Status s = BackendHealthy \/ State_Status s = BackendUnauthenticated.

#[export] Instance routable_dec s : Decision (routable s).
Proof. unfold routable. apply _. Defined.

Lemma Routable_all states :
  Routable (computeSummary states) = sum_Total (computeSummary states) <->
  map_Forall (fun _ s => routable s) states.
Proof.
  rewrite computeSummary_counts. unfold Routable, routable. simpl.
  pose proof (counts_total states) as Ht.
  pose proof (count_status_nonneg BackendDegraded states).
  pose proof (count_status_nonneg BackendUnhealthy states).
  pose proof (count_status_nonneg BackendUnknown states).
  trans (count_status BackendDegraded states = 0 /\ count_status BackendUnhealthy states = 0 /\
         count_status BackendUnknown states = 0)%Z; [lia|].
  rewrite !count_status_0. unfold map_Forall. split.
  - intros (Hd & Hu & Hk) i s Hs. specialize (Hd i s Hs). specialize (Hu i s Hs).
    specialize (Hk i s Hs). destruct (State_Status s); naive_solver.
  - intros Hf. split_and!; intros i s Hs; destruct (Hf i s Hs); congruence.
Qed.

Lemma Routable_none states :
  Routable (computeSummary states) = 0%Z <-> map_Forall (fun _ s => ~ routable s) states.
Proof.
  rewrite computeSummary_counts. unfold Routable, routable. simpl.
  pose proof (count_status_nonneg BackendHealthy states).
  pose proof (count_status_nonneg BackendUnauthenticated states).
  trans (count_status BackendHealthy states = 0 /\
         count_status BackendUnauthenticated states = 0)%Z; [lia|].
  rewrite !count_status_0. unfold map_Forall. naive_solver.
Qed.

(** The reported phase says what the backends' states say, for any number of
    configured backends: no health data is Ready exactly on a cold start and
    Pending otherwise; with data, Ready means every tracked backend is routable,
    Failed that none is, and Degraded that some are and some are not. *)
Theorem phase_reflects_backends states n :
  determinePhase (computeSummary states) n =
  if decide (states = ∅) then (if decide (n = 0%Z) then PhaseReady else PhasePending)
  else if decide (map_Forall (fun _ s => routable s) states) then PhaseReady
  else if decide (map_Forall (fun _ s => ~ routable s) states) then PhaseFailed
  else PhaseDegraded.
Proof.
  unfold determinePhase. assert (sum_Total (computeSummary states) = 0%Z <-> states = ∅) as Ht.
  { rewrite computeSummary_counts. simpl. rewrite <- map_size_empty_iff. lia. }
  pose proof (Routable_all states) as Ha. pose proof (Routable_none states) as Hn.
  destruct (decide (sum_Total _ = _)), (decide (states = ∅)); try tauto.
  destruct (decide (Routable _ = sum_Total _)), (decide (map_Forall (fun _ s => routable s) _));
    try tauto. by apply decide_ext.
Qed.

(** ** The monitor drives the tracker through its public calls *)
Lemma tracker_run_app ops ops' t :
  tracker_run (ops ++ ops') t = tracker_run ops' (tracker_run ops t).
Proof. apply foldl_app. Qed.

Definition by_calls (t t' : statusTracker) : Prop := exists ops, t' = tracker_run ops t.

#[export] Instance by_calls_preorder : PreOrder by_calls.
Proof.
  split.
  - intros t. by exists [].
  - intros t1 t2 t3 [ops ->] [ops' ->]. exists (ops ++ ops'). by rewrite tracker_run_app.
Qed.

Lemma by_call op t : by_calls t (tracker_do op t).
Proof. by exists [op]. Qed.

Lemma foldl_by_calls {A} (f : Monitor -> A -> Monitor) (l : list A) m :
  (forall m a, by_calls (mon_statusTracker m) (mon_statusTracker (f m a))) ->
  by_calls (mon_statusTracker m) (mon_statusTracker (foldl f m l)).
Proof.
  intros Hf. revert m. induction l as [|a l IH]; intros m; simpl; [done|].
  etrans; [apply Hf|apply IH].
Qed.

Lemma monitor_step_calls m m' :
  monitor_step m m' -> by_calls (mon_statusTracker m) (mon_statusTracker m').
Proof.
  intros Hstep. destruct Hstep; simpl; try done.
  - unfold Start. repeat (case_match; [done|]). simpl. by apply (foldl_by_calls _ _ (mon_set_lifecycle _ _ _ _)).
  - unfold Stop. by case_match.
  - unfold UpdateBackends. case_match; [done|].
    etrans; [|apply foldl_by_calls].
    + apply (foldl_by_calls _ _ (mon_set_lifecycle _ _ _ _)). intros m1 [id b].
      unfold addOrRestart. repeat case_match; try done; apply (by_call (TClear id)).
    + intros m1 id. unfold dropIfGone. repeat case_match; try done.
      apply (by_call (TRemove id)).
  - apply (f_equal fst) in H1. simpl in H1. subst. apply (by_call (TAttempt _ (b_Name (g_backend gr)) now now')).
  - rewrite finish_as_ops. by eexists.
Qed.

Lemma monitor_reachable_calls m :
  monitor_reachable m -> exists thr cfg, by_calls (newStatusTracker thr cfg) (mon_statusTracker m).
Proof.
  intros (bs & config & m0 & Hnew & Hrun). unfold NewMonitor in Hnew.
  exists (mc_UnhealthyThreshold config), (mc_CircuitBreaker config).
  assert (mon_statusTracker m0 =
    newStatusTracker (mc_UnhealthyThreshold config) (mc_CircuitBreaker config)) as <-
    by (repeat (case_match; try done); by simplify_eq).
  clear Hnew. induction Hrun; [done|]. etrans; [by apply monitor_step_calls|done].
Qed.

(** A state without an error has no failures to recover from. *)
Definition no_error_no_failures (t : statusTracker) : Prop :=
  map_Forall (fun _ s => hs_lastError s = None -> hs_consecutiveFailures s = 0%Z) (st_states t).

Lemma tracker_do_no_failures op t :
  no_error_no_failures t -> no_error_no_failures (tracker_do op t).
Proof.
  intros Ht id s Hs. destruct (decide (op_backend op = id)) as [<-|Hne].
  2: { rewrite (proj1 (tracker_do_other op t id Hne)) in Hs. by apply (Ht id). }
  destruct op; simpl in *; unfold tracker_RecordSuccess, tracker_RecordFailure,
    RecordRevision, ShouldAttemptHealthCheck, CanAttemptHealthCheck, getOrCreateState in *;
    repeat (case_match; simplify_eq/=); try (by eapply Ht);
    rewrite ?lookup_insert_eq, ?lookup_delete_eq in Hs; simplify_eq/=; try done; by eapply Ht.
Qed.

Lemma tracker_run_no_failures ops t :
  no_error_no_failures t -> no_error_no_failures (tracker_run ops t).
Proof.
  revert t. induction ops as [|op ops IH]; intros t Ht; [done|].
  rewrite tracker_run_cons. by apply IH, tracker_do_no_failures.
Qed.

(** What a backend's message says when its last check succeeded. *)
Definition success_message (state : State) : string :=
  (match State_CircuitState state with
   | CircuitOpen => "Circuit breaker OPEN - "
   | CircuitHalfOpen => "Circuit breaker testing recovery - "
   | CircuitClosed => ""
   end) +:+
  match State_Status state with
  | BackendHealthy => "Healthy"
  | BackendDegraded => "Degraded performance"
  | BackendUnhealthy => "Unhealthy"
  | BackendUnauthenticated =>
      "Authentication misconfigured (backend requires auth, none configured)"
  | BackendUnknown => "Unknown"
  end.

(** On any state the running monitor can report, a backend without a last
    error has no consecutive failures either, so its message never depends on
    the failure count: a degraded backend always reads "Degraded performance",
    also while it recovers. *)
Theorem recovering_message_unreachable m id state :
  monitor_reachable m -> GetAllBackendStates m !! id = Some state ->
  State_LastError state = None -> formatBackendMessage state = success_message state.
Proof.
  intros (thr & cfg & ops & E)%monitor_reachable_calls Hs Herr.
  assert (no_error_no_failures (mon_statusTracker m)) as Hm.
  { rewrite E. apply tracker_run_no_failures. intros i s. simpl. by rewrite lookup_empty. }
  unfold GetAllBackendStates, GetAllStates in Hs. rewrite lookup_fmap in Hs.
  apply fmap_Some in Hs as (s & Hs & ->). simpl in *. apply Hm in Hs. specialize (Hs Herr).
  unfold formatBackendMessage, success_message. simpl. rewrite Herr, Hs. simpl.
  by repeat case_match.
Qed.

(** One failed check opens the circuit, and the probe after the timeout succeeds. *)
Lemma sample_recovery : exists m state,
  monitor_reachable m /\ GetAllBackendStates m = {[ "a" := state ]} /\
  State_Status state = BackendDegraded /\ State_LastError state = None /\
  success_message state = "Degraded performance".
Proof.
  assert (exists m state, rtc monitor_step sample_monitor m /\
    GetAllBackendStates m = {[ "a" := state ]} /\ State_Status state = BackendDegraded /\
    State_LastError state = None /\ success_message state = "Degraded performance")
    as (m & state & Hrun & Hs).
  { eexists. eexists. split.
    - eapply rtc_l; [apply (step_start false)|].
      eapply rtc_l; [eapply (step_begin 0 _ 1 1); vm_compute; reflexivity|].
      eapply rtc_l; [eapply (step_finish 0 _ (Some sample_failure) 1 None (fun _ => 2%Z));
        vm_compute; reflexivity|].
      eapply rtc_l; [eapply (step_begin 0 _ 9 9); vm_compute; reflexivity|].
      eapply rtc_l; [eapply (step_finish 0 _ None 1 None (fun _ => 10%Z));
        vm_compute; reflexivity|]. apply rtc_refl.
    - split; [vm_compute; reflexivity|]. split; [reflexivity|]. split; reflexivity. }
  exists m, state. split; [|exact Hs].
  exists [sample_backend "a"], sample_config, sample_monitor.
  split; [vm_compute; reflexivity|exact Hrun].
Qed.

Lemma recovering_message_unreachable_witness : exists m state,
  monitor_reachable m /\ GetAllBackendStates m !! "a" = Some state /\
  State_Status state = BackendDegraded /\ State_LastError state = None /\
  formatBackendMessage state = "Degraded performance".
Proof.
  destruct sample_recovery as (m & state & Hr & Hs & Hd & He & Hmsg).
  assert (GetAllBackendStates m !! "a" = Some state) as Ha by (rewrite Hs; apply lookup_insert_eq).
  exists m, state. split; [exact Hr|]. split; [exact Ha|]. split; [exact Hd|]. split; [exact He|].
  rewrite (recovering_message_unreachable m "a" state Hr Ha He). exact Hmsg.
Defined.

(** ** Entries of the report *)
Lemma index_backends_tracked m id st :
  monitor_inv m -> active_configured m -> GetAllBackendStates m !! id = Some st ->
  exists b, index_backends (mon_backends m) !! id = Some b /\ b_ID b = id /\ b ∈ mon_backends m.
Proof.
  intros Hm Hc Hs. unfold GetAllBackendStates, GetAllStates in Hs. rewrite lookup_fmap in Hs.
  apply fmap_Some in Hs as (s & Hs & _).
  assert (id ∈ dom (mon_activeChecks m)) as Ha by (by apply (inv_tracked m Hm); rewrite Hs).
  unfold active_configured in Hc. case_match.
  - apply Hc, index_backends_dom, elem_of_dom in Ha as [b Hb]. exists b.
    split; [done|]. split; [by eapply index_backends_ids|by eapply index_backends_elem].
  - destruct Hc as (_ & _ & E & _). by rewrite E, lookup_empty in Hs.
Qed.

Lemma discovered_status bs id st :
  db_Status (discoveredBackend bs (id, st)) = ToCRDStatus (State_Status st).
Proof. unfold discoveredBackend. destruct (bs !! id) as [b|]; [|done]. by destruct (extractAuthInfo b). Qed.

Lemma crd_routable st :
  ToCRDStatus (State_Status st) = "ready" \/ ToCRDStatus (State_Status st) = "unauthenticated" <->
  routable st.
Proof. unfold routable. destruct (State_Status st); naive_solver. Qed.

Lemma filter_discovered bs order :
  length (filter (fun d => db_Status d = "ready" \/ db_Status d = "unauthenticated")
    (map (discoveredBackend bs) order)) = length (filter (fun idst => routable idst.2) order).
Proof.
  induction order as [|[id st] order IH]; [done|]. cbn [map]. rewrite !filter_cons.
  pose proof (crd_routable st) as Hst. rewrite discovered_status. cbn [snd].
  repeat case_decide; simpl; tauto || by rewrite IH.
Qed.

Lemma count_routable states :
  Z.of_nat (length (filter (fun idst => routable idst.2) (map_to_list states))) =
  Routable (computeSummary states).
Proof.
  rewrite computeSummary_counts. unfold Routable. simpl.
  induction states as [|i x states Hi IH] using map_ind.
  - by rewrite map_to_list_empty, !count_status_empty.
  - rewrite map_to_list_insert by done. rewrite filter_cons. cbn [snd].
    rewrite !count_status_insert by done.
    destruct (decide (routable x)) as [Hr|Hr]; unfold routable in Hr; simpl;
      repeat case_decide; try lia; destruct Hr; congruence || tauto.
Qed.

Lemma count_discovered bs order states :
  order ≡ₚ map_to_list states ->
  Z.of_nat (length (filter (fun d => db_Status d = "ready" \/ db_Status d = "unauthenticated")
    (convertToDiscoveredBackends bs order))) = Routable (computeSummary states).
Proof.
  intros Hord. unfold convertToDiscoveredBackends. by rewrite filter_discovered, Hord, count_routable.
Qed.

Lemma Routable_bounds states :
  (0 <= Routable (computeSummary states) <= Z.of_nat (size states))%Z.
Proof.
  rewrite computeSummary_counts. unfold Routable. simpl. rewrite <- (counts_total states).
  unfold count_status. lia.
Qed.

(** A status report of a running monitor (read while the backend list does not
    change) lists each tracked backend once, under the name and URL of a backend
    that is configured, never through the fallback entry for an unknown
    identifier; and its backend count is the number of listed entries that are
    ready or unauthenticated. *)
Theorem report_lists_configured_backends m order now now' :
  monitor_reachable m -> order ≡ₚ map_to_list (GetAllBackendStates m) ->
  (Z.of_nat (size (GetAllBackendStates m)) < 2 ^ 31)%Z ->
  let report := BuildStatus m m m order now now' in
  Forall2 (fun idst d => exists b, b ∈ mon_backends m /\ b_ID b = idst.1 /\
      db_Name d = b_Name b /\ db_URL d = b_BaseURL b /\
      db_Status d = ToCRDStatus (State_Status idst.2))
    order (sta_DiscoveredBackends report) /\
  sta_BackendCount report = Z.of_nat (length (filter
    (fun d => db_Status d = "ready" \/ db_Status d = "unauthenticated")
    (sta_DiscoveredBackends report))).
Proof.
  intros [Hm Hc]%monitor_reachable_ok Hord Hsize report. split.
  - apply Forall2_fmap_r, Forall_Forall2_diag, Forall_forall. intros [id st] Hin. simpl.
    rewrite Hord, elem_of_map_to_list in Hin.
    destruct (index_backends_tracked m id st) as (b & Hb & Hid & Hin'); [done|done|done|].
    exists b. rewrite Hb. by destruct (extractAuthInfo b).
  - simpl. rewrite (count_discovered (mon_backends m) order _ Hord). apply wrap32_id.
    pose proof (Routable_bounds (GetAllBackendStates m)). lia.
Qed.

Lemma report_lists_configured_backends_witness : exists m state,
  monitor_reachable m /\ GetAllBackendStates m = {[ "a" := state ]} /\
  sta_BackendCount (BuildStatus m m m [("a", state)] 11 11) =
  Z.of_nat (length (filter (fun d => db_Status d = "ready" \/ db_Status d = "unauthenticated")
    (sta_DiscoveredBackends (BuildStatus m m m [("a", state)] 11 11)))).
Proof.
  destruct sample_recovery as (m & state & Hr & Hs & _).
  exists m, state. split; [exact Hr|]. split; [exact Hs|].
  apply (report_lists_configured_backends m [("a", state)] 11 11 Hr).
  - rewrite Hs, map_to_list_singleton. reflexivity.
  - rewrite Hs, map_size_singleton. lia.
Defined.
