(* ===== verification/StorageTypes.v ===== *)
(** * Types of the authorization server's storage ([pkg/authserver/storage/types.go], [config.go])

    The records the storage holds, its error values, and the canonical keys:
    the identity key, the row identifier of an upstream token and the hash of a
    scope set.  [fosite] is a library: what the storage uses of its clients and
    requests is the class [Fosite].  SHA-256 is a parameter of the functions
    that hash. *)

From Stdlib Require Import Ascii.
From S2P Require Import Prelude.

(** ** What the storage uses of [fosite] *)
Inductive TokenType := AccessToken | RefreshToken | AuthorizeCode.

(** [Requester_expiry] is [GetSession().GetExpiresAt], [None] for a nil
    session; [DCRIssued] is the marker interface of package [registration]. *)
Class Fosite (Client Requester : Type) := {
  Client_GetID : Client -> string;
  DCRIssued : Client -> bool;
  Requester_GetID : Requester -> string;
  Requester_expiry : Requester -> option (TokenType -> Time);
}.

(** ** Errors, with the hint or text that tells two uses apart *)
Inductive storage_error :=
  | ErrNotFound (hint : string)
  | ErrExpired
  | ErrAlreadyExists (text : string)
  | ErrInvalidBinding
  | ErrClientCapacity
  | ErrInvalidRequest (hint : string)
  | ErrInvalidatedAuthorizeCode
  | ErrJTIKnown.

(** ** Lifetimes *)
Definition DefaultCleanupInterval : Duration := (5 * time.Minute)%Z.
Definition DefaultAccessTokenTTL : Duration := time.Hour.
Definition DefaultRefreshTokenTTL : Duration := (30 * 24 * time.Hour)%Z.
Definition DefaultAuthCodeTTL : Duration := (10 * time.Minute)%Z.
Definition DefaultInvalidatedCodeTTL : Duration := (30 * time.Minute)%Z.
Definition DefaultPKCETTL : Duration := (10 * time.Minute)%Z.
Definition DefaultPendingAuthorizationTTL : Duration := (10 * time.Minute)%Z.
Definition DefaultMaxClients : Z := 10000.
Definition DefaultMinClientAge : Duration := time.Hour.

(** ** Stored records *)
Record UpstreamTokens := {
  ut_ProviderID : string;
  ut_AccessToken : string;
  ut_RefreshToken : string;
  ut_IDToken : string;
  ut_ExpiresAt : Time;
  ut_SessionExpiresAt : Time;
  ut_UserID : string;
  ut_UpstreamSubject : string;
  ut_ClientID : string;
}.

Definition IsExpired (t : option UpstreamTokens) (now : Time) : bool :=
  match t with
  | None => true
  | Some t => negb (time.IsZero (ut_ExpiresAt t)) && time.After now (ut_ExpiresAt t)
  end.

Record DCRKey := {
  dk_Issuer : string;
  dk_UpstreamID : string;
  dk_RedirectURI : string;
  dk_ScopesHash : string;
}.

#[export] Instance DCRKey_eq_dec : EqDecision DCRKey.
Proof. solve_decision. Defined.

#[export] Program Instance DCRKey_countable : Countable DCRKey :=
  inj_countable' (fun k => (dk_Issuer k, dk_UpstreamID k, dk_RedirectURI k, dk_ScopesHash k))
    (fun '(i, u, r, h) => Build_DCRKey i u r h) _.
Next Obligation. by intros []. Qed.

Record DCRCredentials := {
  dc_Key : DCRKey;
  dc_ProviderName : string;
  dc_ClientID : string;
  dc_ClientSecret : string;
  dc_TokenEndpointAuthMethod : string;
  dc_RegistrationAccessToken : string;
  dc_RegistrationClientURI : string;
  dc_AuthorizationEndpoint : string;
  dc_TokenEndpoint : string;
  dc_CreatedAt : Time;
  dc_ClientSecretExpiresAt : Time;
}.

Definition validateDCRCredentialsForStore (creds : option DCRCredentials) : option storage_error :=
  match creds with
  | None => Some (ErrInvalidRequest "dcr credentials cannot be nil")
  | Some c =>
      let k := dc_Key c in
      if decide (dk_Issuer k = "")
      then Some (ErrInvalidRequest "dcr credentials key issuer cannot be empty")
      else if decide (dk_UpstreamID k = "")
      then Some (ErrInvalidRequest "dcr credentials key upstream_id cannot be empty")
      else if decide (dk_RedirectURI k = "")
      then Some (ErrInvalidRequest "dcr credentials key redirect_uri cannot be empty")
      else if decide (dk_ScopesHash k = "")
      then Some (ErrInvalidRequest "dcr credentials key scopes_hash cannot be empty")
      else if decide (dc_ClientID c = "")
      then Some (ErrInvalidRequest "dcr credentials client_id cannot be empty")
      else if decide (dc_AuthorizationEndpoint c = "")
      then Some (ErrInvalidRequest "dcr credentials authorization_endpoint cannot be empty")
      else if decide (dc_TokenEndpoint c = "")
      then Some (ErrInvalidRequest "dcr credentials token_endpoint cannot be empty")
      else None
  end.

Record User := {
  user_ID : string;
  user_CreatedAt : Time;
  user_UpdatedAt : Time;
}.

Record ProviderIdentity := {
  pi_UserID : string;
  pi_ProviderID : string;
  pi_ProviderSubject : string;
  pi_LinkedAt : Time;
  pi_LastUsedAt : Time;
}.

Record PendingAuthorization := {
  pa_ClientID : string;
  pa_RedirectURI : string;
  pa_State : string;
  pa_PKCEChallenge : string;
  pa_PKCEMethod : string;
  pa_Scopes : list string;
  pa_InternalState : string;
  pa_UpstreamPKCEVerifier : string;
  pa_UpstreamNonce : string;
  pa_UpstreamProviderName : string;
  pa_SessionID : string;
  pa_ResolvedUserID : string;
  pa_ResolvedUserName : string;
  pa_ResolvedUserEmail : string;
  pa_SingleLeg : bool;
  pa_ChainUpstreams : list string;
  pa_CreatedAt : Time;
}.

(** ** Canonical keys *)
Definition providerIdentityKey (providerID providerSubject : string) : string :=
  fmt_d (len providerID) +:+ ":" +:+ providerID +:+ ":" +:+ providerSubject.

(** What [upstreamTokenRowID] feeds the hash. *)
Fixpoint rowID_preimage (components : list string) : string :=
  match components with
  | [] => ""
  | component :: components =>
      fmt_d (len component) +:+ ":" +:+ component +:+ rowID_preimage components
  end.

Definition upstreamTokenRowID (sha256hex : string -> string) (components : list string) : string :=
  sha256hex (rowID_preimage components).

(** [slices.Compact] *)
Fixpoint Compact (l : list string) : list string :=
  match l with
  | x :: ((y :: _) as r) => if decide (x = y) then Compact r else x :: Compact r
  | _ => l
  end.

Definition newline : ascii := Ascii.Ascii false true false true false false false false.

(** Writing the elements with a newline before each but the first. *)
Fixpoint join_lines (l : list string) : string :=
  match l with
  | [] => ""
  | [s] => s
  | s :: l => s +:+ String newline (join_lines l)
  end.

Definition ScopesHash (sha256hex : string -> string) (scopes : list string) : string :=
  sha256hex (join_lines (Compact (merge_sort String.le scopes))).

(** ** Keys are unambiguous *)
Lemma length_prefix_inj s t s' t' :
  fmt_d (len s) +:+ ":" +:+ s +:+ s' = fmt_d (len t) +:+ ":" +:+ t +:+ t' -> s = t /\ s' = t'.
Proof.
  intros E. apply (split_at_char ":") in E as [Hlen E]; [|apply fmt_d_no_colon; unfold len; lia..].
  apply (inj pretty) in Hlen. apply app_string_inj in E; [done|]. unfold len in Hlen. lia.
Qed.

Lemma providerIdentityKey_inj p s p' s' :
  providerIdentityKey p s = providerIdentityKey p' s' -> p = p' /\ s = s'.
Proof.
  unfold providerIdentityKey. intros E. apply length_prefix_inj in E as [-> E]. by simplify_eq/=.
Qed.

(** Two provider identities share a storage key only if they are the same
    provider and subject, also when either contains colons. *)
Theorem providerIdentityKey_injective p s p' s' :
  providerIdentityKey p s = providerIdentityKey p' s' <-> p = p' /\ s = s'.
Proof.
  split; [apply providerIdentityKey_inj|by intros [-> ->]].
Qed.

Lemma rowID_preimage_inj cs cs' : rowID_preimage cs = rowID_preimage cs' -> cs = cs'.
Proof.
  revert cs'. induction cs as [|c cs IH]; intros [|c' cs'] E; cbn [rowID_preimage] in E.
  - done.
  - by destruct (fmt_d (len c')).
  - by destruct (fmt_d (len c)).
  - apply length_prefix_inj in E as [-> E]. by rewrite (IH cs').
Qed.

(** With a collision-free hash, two upstream-token rows have the same row
    identifier only if all their key components agree: what is hashed is a
    self-delimiting encoding of the components. *)
Theorem upstreamTokenRowID_unambiguous sha256hex cs cs' :
  Inj (=) (=) sha256hex ->
  upstreamTokenRowID sha256hex cs = upstreamTokenRowID sha256hex cs' <-> cs = cs'.
Proof.
  intros Hsha. split; [|by intros ->]. intros E%(inj sha256hex). by apply rowID_preimage_inj.
Qed.

Lemma upstreamTokenRowID_unambiguous_witness :
  upstreamTokenRowID (fun s => s) ["ab"; "c"] = upstreamTokenRowID (fun s => s) ["a"; "bc"] <->
  ["ab"; "c"] = ["a"; "bc"].
Proof.
  apply (upstreamTokenRowID_unambiguous (fun s => s)). intros x y E. exact E.
Defined.

(** ** Scope sets *)
Lemma Compact_elem x l : x ∈ Compact l <-> x ∈ l.
Proof.
  induction l as [|a [|b l] IH]; [done|done|]. cbn [Compact] in *.
  case_decide as Hab; [subst; rewrite IH; set_solver|].
  rewrite elem_of_cons, IH, (elem_of_cons (b :: l)). done.
Qed.

Lemma Compact_sorted l : Sorted String.le l -> StronglySorted String.le (Compact l) /\ NoDup (Compact l).
Proof.
  intros Hs%(Sorted_StronglySorted _). induction Hs as [|a l Hs IH Ha]; [split; constructor|].
  destruct IH as [IHs IHn]. destruct l as [|b l]; [split; [repeat constructor|apply NoDup_singleton]|].
  change (Compact (a :: b :: l)) with
    (if decide (a = b) then Compact (b :: l) else a :: Compact (b :: l)).
  case_decide as Hab; [done|].
  assert (Forall (String.le a) (Compact (b :: l))) as Ha'.
  { apply Forall_forall. intros x Hx. rewrite Compact_elem in Hx. rewrite Forall_forall in Ha. by apply Ha. }
  split; [by constructor|]. constructor; [|done]. rewrite Compact_elem. intros Hin.
  apply Hab, (anti_symm String.le); [by inversion Ha|].
  apply elem_of_cons in Hin as [->|Hin]; [done|].
  inversion Hs as [|? ? ? Hb]; subst. rewrite Forall_forall in Hb. by apply Hb.
Qed.

Lemma canonical_scopes l1 l2 :
  (forall s, s ∈ l1 <-> s ∈ l2) ->
  Compact (merge_sort String.le l1) = Compact (merge_sort String.le l2).
Proof.
  intros Heq. pose proof (Compact_sorted _ (Sorted_merge_sort String.le l1)) as [Hs1 Hn1].
  pose proof (Compact_sorted _ (Sorted_merge_sort String.le l2)) as [Hs2 Hn2].
  apply (StronglySorted_unique String.le); [done|done|].
  apply NoDup_Permutation; [done|done|]. intros x.
  rewrite !Compact_elem, !merge_sort_Permutation. apply Heq.
Qed.

(** A scope token: not empty and without a newline (RFC 6749, section 3.3). *)
Definition valid_scope (s : string) : Prop := s ≠ "" /\ no_char newline s.

Lemma join_lines_inj l1 l2 :
  Forall valid_scope l1 -> Forall valid_scope l2 -> join_lines l1 = join_lines l2 -> l1 = l2.
Proof.
  intros H1. revert l2. induction H1 as [|s l1 [Hs Hn] H1 IH]; intros l2 H2 E.
  - destruct H2 as [|t [|? ?] [Ht _] _]; [done|done|]. by destruct t.
  - destruct H2 as [|t l2 [Ht Hn'] H2]; [by destruct l1, s|].
    destruct l1 as [|s' l1], l2 as [|t' l2]; cbn [join_lines] in E.
    + by subst.
    + subst. apply no_char_app in Hn. simpl in Hn. tauto.
    + subst. apply no_char_app in Hn'. simpl in Hn'. tauto.
    + apply split_at_char in E as [-> E]; [|done|done]. f_equal. by apply IH.
Qed.

(** With a collision-free hash, the digest of a scope list identifies the
    scope set: two lists of scope tokens hash alike exactly when they hold the
    same scopes, whatever their order and repetitions. *)
Theorem ScopesHash_identifies_set sha256hex l1 l2 :
  Inj (=) (=) sha256hex -> Forall valid_scope l1 -> Forall valid_scope l2 ->
  ScopesHash sha256hex l1 = ScopesHash sha256hex l2 <-> (forall s, s ∈ l1 <-> s ∈ l2).
Proof.
  intros Hsha H1 H2. unfold ScopesHash. split; [|by intros ->%canonical_scopes].
  intros E%(inj sha256hex) s. assert (forall l, Forall valid_scope l ->
    Forall valid_scope (Compact (merge_sort String.le l))) as Hv.
  { intros l Hl. apply Forall_forall. intros x Hx.
    rewrite Compact_elem, merge_sort_Permutation in Hx. rewrite Forall_forall in Hl. by apply Hl. }
  apply join_lines_inj in E; [|by apply Hv..].
  rewrite <- (merge_sort_Permutation String.le l1), <- (merge_sort_Permutation String.le l2).
  by rewrite <- (Compact_elem s (merge_sort _ l1)), E, Compact_elem.
Qed.

Lemma ScopesHash_identifies_set_witness :
  ScopesHash (fun s => s) ["profile"; "openid"; "openid"] = ScopesHash (fun s => s) ["openid"; "profile"].
Proof.
  apply (ScopesHash_identifies_set (fun s => s)).
  - intros x y E. exact E.
  - repeat constructor; simpl; intros E; discriminate E.
  - repeat constructor; simpl; intros E; discriminate E.
  - set_solver.
Defined.
