(* ===== verification/MemoryStorage.v ===== *)
(** * The in-memory storage of the authorization server ([pkg/authserver/storage/memory.go])

    [MemoryStorage] is the storage with its maps; every exported method is a
    definition that takes the storage (and the readings of the clock it makes)
    and returns the new storage with the method's error, or the value read.
    Every method holds the storage's lock for its whole body, so it is atomic;
    only [cleanupExpired] takes the lock twice, and is split into
    [collectExpired] and [deleteExpired] there.  Values stored and returned are
    defensive copies, so the maps hold values and not pointers; requests and
    clients, which are shared with [fosite], are values of the parameter types
    and are not mutated by the storage.

    [storage_op] collects the calls that change the storage, and [system_run]
    interleaves them with the two phases of the background cleanup. *)

From S2P Require Import Prelude StorageTypes.

Record timedEntry (T : Type) := mkEntry {
  te_value : T;
  te_createdAt : Time;
  te_expiresAt : Time;
}.
Arguments mkEntry {T} _ _ _.
Arguments te_value {T} _.
Arguments te_createdAt {T} _.
Arguments te_expiresAt {T} _.

Record upstreamKey := {
  uk_sessionID : string;
  uk_providerName : string;
}.

#[export] Instance upstreamKey_eq_dec : EqDecision upstreamKey.
Proof. solve_decision. Defined.

#[export] Program Instance upstreamKey_countable : Countable upstreamKey :=
  inj_countable' (fun k => (uk_sessionID k, uk_providerName k))
    (fun '(s, p) => Build_upstreamKey s p) _.
Next Obligation. by intros []. Qed.

Record clientOrderEntry := {
  co_id : string;
  co_touchedAt : Time;
}.

Section memory.
Context {Client Requester : Type} `{Fosite Client Requester}.

Record MemoryStorage := mkStorage {
  ms_clients : gmap string Client;
  ms_clientOrder : list clientOrderEntry;
  ms_maxClients : Z;
  ms_minClientAge : Duration;
  ms_authCodes : gmap string (timedEntry Requester);
  ms_accessTokens : gmap string (timedEntry Requester);
  ms_refreshTokens : gmap string (timedEntry Requester);
  ms_pkceRequests : gmap string (timedEntry Requester);
  ms_upstreamTokens : gmap upstreamKey (timedEntry (option UpstreamTokens));
  ms_pendingAuthorizations : gmap string (timedEntry PendingAuthorization);
  ms_invalidatedCodes : gmap string (timedEntry bool);
  ms_clientAssertionJWTs : gmap string Time;
  ms_users : gmap string User;
  ms_providerIdentities : gmap string ProviderIdentity;
  ms_dcrCredentials : gmap DCRKey DCRCredentials;
  ms_cleanupInterval : Duration;
}.

(** ** Field updates *)
Definition set_clients (v : gmap string Client) (s : MemoryStorage) : MemoryStorage :=
  mkStorage
    v (ms_clientOrder s) (ms_maxClients s) (ms_minClientAge s) (ms_authCodes s)
    (ms_accessTokens s) (ms_refreshTokens s) (ms_pkceRequests s) (ms_upstreamTokens s)
    (ms_pendingAuthorizations s) (ms_invalidatedCodes s) (ms_clientAssertionJWTs s)
    (ms_users s) (ms_providerIdentities s) (ms_dcrCredentials s) (ms_cleanupInterval s).

Definition set_clientOrder (v : list clientOrderEntry) (s : MemoryStorage) : MemoryStorage :=
  mkStorage
    (ms_clients s) v (ms_maxClients s) (ms_minClientAge s) (ms_authCodes s) (ms_accessTokens
    s) (ms_refreshTokens s) (ms_pkceRequests s) (ms_upstreamTokens s)
    (ms_pendingAuthorizations s) (ms_invalidatedCodes s) (ms_clientAssertionJWTs s)
    (ms_users s) (ms_providerIdentities s) (ms_dcrCredentials s) (ms_cleanupInterval s).

Definition set_maxClients (v : Z) (s : MemoryStorage) : MemoryStorage :=
  mkStorage
    (ms_clients s) (ms_clientOrder s) v (ms_minClientAge s) (ms_authCodes s)
    (ms_accessTokens s) (ms_refreshTokens s) (ms_pkceRequests s) (ms_upstreamTokens s)
    (ms_pendingAuthorizations s) (ms_invalidatedCodes s) (ms_clientAssertionJWTs s)
    (ms_users s) (ms_providerIdentities s) (ms_dcrCredentials s) (ms_cleanupInterval s).

Definition set_minClientAge (v : Duration) (s : MemoryStorage) : MemoryStorage :=
  mkStorage
    (ms_clients s) (ms_clientOrder s) (ms_maxClients s) v (ms_authCodes s) (ms_accessTokens
    s) (ms_refreshTokens s) (ms_pkceRequests s) (ms_upstreamTokens s)
    (ms_pendingAuthorizations s) (ms_invalidatedCodes s) (ms_clientAssertionJWTs s)
    (ms_users s) (ms_providerIdentities s) (ms_dcrCredentials s) (ms_cleanupInterval s).

Definition set_authCodes (v : gmap string (timedEntry Requester)) (s : MemoryStorage) : MemoryStorage :=
  mkStorage
    (ms_clients s) (ms_clientOrder s) (ms_maxClients s) (ms_minClientAge s) v
    (ms_accessTokens s) (ms_refreshTokens s) (ms_pkceRequests s) (ms_upstreamTokens s)
    (ms_pendingAuthorizations s) (ms_invalidatedCodes s) (ms_clientAssertionJWTs s)
    (ms_users s) (ms_providerIdentities s) (ms_dcrCredentials s) (ms_cleanupInterval s).

Definition set_accessTokens (v : gmap string (timedEntry Requester)) (s : MemoryStorage) : MemoryStorage :=
  mkStorage
    (ms_clients s) (ms_clientOrder s) (ms_maxClients s) (ms_minClientAge s) (ms_authCodes s)
    v (ms_refreshTokens s) (ms_pkceRequests s) (ms_upstreamTokens s)
    (ms_pendingAuthorizations s) (ms_invalidatedCodes s) (ms_clientAssertionJWTs s)
    (ms_users s) (ms_providerIdentities s) (ms_dcrCredentials s) (ms_cleanupInterval s).

Definition set_refreshTokens (v : gmap string (timedEntry Requester)) (s : MemoryStorage) : MemoryStorage :=
  mkStorage
    (ms_clients s) (ms_clientOrder s) (ms_maxClients s) (ms_minClientAge s) (ms_authCodes s)
    (ms_accessTokens s) v (ms_pkceRequests s) (ms_upstreamTokens s)
    (ms_pendingAuthorizations s) (ms_invalidatedCodes s) (ms_clientAssertionJWTs s)
    (ms_users s) (ms_providerIdentities s) (ms_dcrCredentials s) (ms_cleanupInterval s).

Definition set_pkceRequests (v : gmap string (timedEntry Requester)) (s : MemoryStorage) : MemoryStorage :=
  mkStorage
    (ms_clients s) (ms_clientOrder s) (ms_maxClients s) (ms_minClientAge s) (ms_authCodes s)
    (ms_accessTokens s) (ms_refreshTokens s) v (ms_upstreamTokens s)
    (ms_pendingAuthorizations s) (ms_invalidatedCodes s) (ms_clientAssertionJWTs s)
    (ms_users s) (ms_providerIdentities s) (ms_dcrCredentials s) (ms_cleanupInterval s).

Definition set_upstreamTokens (v : gmap upstreamKey (timedEntry (option UpstreamTokens))) (s : MemoryStorage) : MemoryStorage :=
  mkStorage
    (ms_clients s) (ms_clientOrder s) (ms_maxClients s) (ms_minClientAge s) (ms_authCodes s)
    (ms_accessTokens s) (ms_refreshTokens s) (ms_pkceRequests s) v (ms_pendingAuthorizations
    s) (ms_invalidatedCodes s) (ms_clientAssertionJWTs s) (ms_users s)
    (ms_providerIdentities s) (ms_dcrCredentials s) (ms_cleanupInterval s).

Definition set_pendingAuthorizations (v : gmap string (timedEntry PendingAuthorization)) (s : MemoryStorage) : MemoryStorage :=
  mkStorage
    (ms_clients s) (ms_clientOrder s) (ms_maxClients s) (ms_minClientAge s) (ms_authCodes s)
    (ms_accessTokens s) (ms_refreshTokens s) (ms_pkceRequests s) (ms_upstreamTokens s) v
    (ms_invalidatedCodes s) (ms_clientAssertionJWTs s) (ms_users s) (ms_providerIdentities
    s) (ms_dcrCredentials s) (ms_cleanupInterval s).

Definition set_invalidatedCodes (v : gmap string (timedEntry bool)) (s : MemoryStorage) : MemoryStorage :=
  mkStorage
    (ms_clients s) (ms_clientOrder s) (ms_maxClients s) (ms_minClientAge s) (ms_authCodes s)
    (ms_accessTokens s) (ms_refreshTokens s) (ms_pkceRequests s) (ms_upstreamTokens s)
    (ms_pendingAuthorizations s) v (ms_clientAssertionJWTs s) (ms_users s)
    (ms_providerIdentities s) (ms_dcrCredentials s) (ms_cleanupInterval s).

Definition set_clientAssertionJWTs (v : gmap string Time) (s : MemoryStorage) : MemoryStorage :=
  mkStorage
    (ms_clients s) (ms_clientOrder s) (ms_maxClients s) (ms_minClientAge s) (ms_authCodes s)
    (ms_accessTokens s) (ms_refreshTokens s) (ms_pkceRequests s) (ms_upstreamTokens s)
    (ms_pendingAuthorizations s) (ms_invalidatedCodes s) v (ms_users s)
    (ms_providerIdentities s) (ms_dcrCredentials s) (ms_cleanupInterval s).

Definition set_users (v : gmap string User) (s : MemoryStorage) : MemoryStorage :=
  mkStorage
    (ms_clients s) (ms_clientOrder s) (ms_maxClients s) (ms_minClientAge s) (ms_authCodes s)
    (ms_accessTokens s) (ms_refreshTokens s) (ms_pkceRequests s) (ms_upstreamTokens s)
    (ms_pendingAuthorizations s) (ms_invalidatedCodes s) (ms_clientAssertionJWTs s) v
    (ms_providerIdentities s) (ms_dcrCredentials s) (ms_cleanupInterval s).

Definition set_providerIdentities (v : gmap string ProviderIdentity) (s : MemoryStorage) : MemoryStorage :=
  mkStorage
    (ms_clients s) (ms_clientOrder s) (ms_maxClients s) (ms_minClientAge s) (ms_authCodes s)
    (ms_accessTokens s) (ms_refreshTokens s) (ms_pkceRequests s) (ms_upstreamTokens s)
    (ms_pendingAuthorizations s) (ms_invalidatedCodes s) (ms_clientAssertionJWTs s)
    (ms_users s) v (ms_dcrCredentials s) (ms_cleanupInterval s).

Definition set_dcrCredentials (v : gmap DCRKey DCRCredentials) (s : MemoryStorage) : MemoryStorage :=
  mkStorage
    (ms_clients s) (ms_clientOrder s) (ms_maxClients s) (ms_minClientAge s) (ms_authCodes s)
    (ms_accessTokens s) (ms_refreshTokens s) (ms_pkceRequests s) (ms_upstreamTokens s)
    (ms_pendingAuthorizations s) (ms_invalidatedCodes s) (ms_clientAssertionJWTs s)
    (ms_users s) (ms_providerIdentities s) v (ms_cleanupInterval s).

Definition set_cleanupInterval (v : Duration) (s : MemoryStorage) : MemoryStorage :=
  mkStorage
    (ms_clients s) (ms_clientOrder s) (ms_maxClients s) (ms_minClientAge s) (ms_authCodes s)
    (ms_accessTokens s) (ms_refreshTokens s) (ms_pkceRequests s) (ms_upstreamTokens s)
    (ms_pendingAuthorizations s) (ms_invalidatedCodes s) (ms_clientAssertionJWTs s)
    (ms_users s) (ms_providerIdentities s) (ms_dcrCredentials s) v.

(** ** Construction *)
Inductive MemoryStorageOption :=
  | WithCleanupInterval (interval : Duration)
  | WithMaxClients (n : Z)
  | WithMinClientAge (d : Duration).

Definition applyOption (s : MemoryStorage) (opt : MemoryStorageOption) : MemoryStorage :=
  match opt with
  | WithCleanupInterval interval => set_cleanupInterval interval s
  | WithMaxClients n => set_maxClients n s
  | WithMinClientAge d => set_minClientAge d s
  end.

Definition NewMemoryStorage (opts : list MemoryStorageOption) : MemoryStorage :=
  foldl applyOption
    (mkStorage ∅ [] DefaultMaxClients DefaultMinClientAge ∅ ∅ ∅ ∅ ∅ ∅ ∅ ∅ ∅ ∅ ∅
       DefaultCleanupInterval) opts.

(** ** Cleanup *)
Record expiredKeys := {
  ek_authCodes : list string;
  ek_invalidatedCodes : list string;
  ek_accessTokens : list string;
  ek_refreshTokens : list string;
  ek_pkceRequests : list string;
  ek_upstreamTokens : list upstreamKey;
  ek_pendingAuthorizations : list string;
  ek_clientAssertionJWTs : list string;
}.

Definition expired {K T} (now : Time) (_ : K) (e : timedEntry T) : bool :=
  time.After now (te_expiresAt e).

(** A zero expiry is "no TTL". *)
Definition upstream_expired (now : Time) (_ : upstreamKey)
    (e : timedEntry (option UpstreamTokens)) : bool :=
  negb (time.IsZero (te_expiresAt e)) && time.After now (te_expiresAt e).

Definition jwt_expired (now : Time) (_ : string) (exp : Time) : bool := time.After now exp.

(** Phase 1, under the read lock. *)
Definition collectExpired (now : Time) (s : MemoryStorage) : expiredKeys := {|
  ek_authCodes := keys_if (expired now) (ms_authCodes s);
  ek_invalidatedCodes := keys_if (expired now) (ms_invalidatedCodes s);
  ek_accessTokens := keys_if (expired now) (ms_accessTokens s);
  ek_refreshTokens := keys_if (expired now) (ms_refreshTokens s);
  ek_pkceRequests := keys_if (expired now) (ms_pkceRequests s);
  ek_upstreamTokens := keys_if (upstream_expired now) (ms_upstreamTokens s);
  ek_pendingAuthorizations := keys_if (expired now) (ms_pendingAuthorizations s);
  ek_clientAssertionJWTs := keys_if (jwt_expired now) (ms_clientAssertionJWTs s);
|}.

Definition nothing_expired (ek : expiredKeys) : bool :=
  bool_decide (ek_authCodes ek = []) && bool_decide (ek_invalidatedCodes ek = []) &&
  bool_decide (ek_accessTokens ek = []) && bool_decide (ek_refreshTokens ek = []) &&
  bool_decide (ek_pkceRequests ek = []) && bool_decide (ek_upstreamTokens ek = []) &&
  bool_decide (ek_pendingAuthorizations ek = []) &&
  bool_decide (ek_clientAssertionJWTs ek = []).

(** Phases 2 and 3, under the write lock. *)
Definition deleteExpired (ek : expiredKeys) (s : MemoryStorage) : MemoryStorage :=
  if nothing_expired ek then s
  else
    let s := set_authCodes (delete_keys (ek_authCodes ek) (ms_authCodes s)) s in
    let s := set_invalidatedCodes (delete_keys (ek_authCodes ek) (ms_invalidatedCodes s)) s in
    let s := set_invalidatedCodes
               (delete_keys (ek_invalidatedCodes ek) (ms_invalidatedCodes s)) s in
    let s := set_accessTokens (delete_keys (ek_accessTokens ek) (ms_accessTokens s)) s in
    let s := set_refreshTokens (delete_keys (ek_refreshTokens ek) (ms_refreshTokens s)) s in
    let s := set_pkceRequests (delete_keys (ek_pkceRequests ek) (ms_pkceRequests s)) s in
    let s := set_upstreamTokens (delete_keys (ek_upstreamTokens ek) (ms_upstreamTokens s)) s in
    let s := set_pendingAuthorizations
               (delete_keys (ek_pendingAuthorizations ek) (ms_pendingAuthorizations s)) s in
    set_clientAssertionJWTs
      (delete_keys (ek_clientAssertionJWTs ek) (ms_clientAssertionJWTs s)) s.

(** The cleanup when no call comes between its phases. *)
Definition cleanupExpired (now : Time) (s : MemoryStorage) : MemoryStorage :=
  deleteExpired (collectExpired now s) s.

Definition getExpirationFromRequester (request : option Requester) (tokenType : TokenType)
    (defaultTTL : Duration) (now : Time) : Time :=
  match request with
  | None => time.Add now defaultTTL
  | Some r =>
      match Requester_expiry r with
      | None => time.Add now defaultTTL
      | Some GetExpiresAt =>
          let expTime := GetExpiresAt tokenType in
          if time.IsZero expTime then time.Add now defaultTTL else expTime
      end
  end.

(** ** Clients *)

(** [slices.DeleteFunc(s.clientOrder, func(e) { return e.id == id })] *)
Definition dropFromOrder (id : string) (l : list clientOrderEntry) : list clientOrderEntry :=
  filter (fun e => co_id e ≠ id) l.

(** The loop over [clientOrder], [i] being the index of its first entry. *)
Fixpoint oldestEvictable (clients : gmap string Client) (minClientAge : Duration) (now : Time)
    (i : nat) (l : list clientOrderEntry) : option nat :=
  match l with
  | [] => None
  | entry :: l =>
      if (time.Sub now (co_touchedAt entry) <? minClientAge)%Z
      then oldestEvictable clients minClientAge now (S i) l
      else match clients !! co_id entry with
           | Some client =>
               if DCRIssued client then Some i
               else oldestEvictable clients minClientAge now (S i) l
           | None => oldestEvictable clients minClientAge now (S i) l
           end
  end.

(** [None] is -1. *)
Definition oldestEvictableClientIndex (now : Time) (s : MemoryStorage) : option nat :=
  oldestEvictable (ms_clients s) (ms_minClientAge s) now 0 (ms_clientOrder s).

Definition addClient (id : string) (client : Client) (now : Time) (s : MemoryStorage)
    : MemoryStorage :=
  set_clients (<[id := client]> (ms_clients s))
    (set_clientOrder (ms_clientOrder s ++ [{| co_id := id; co_touchedAt := now |}]) s).

Definition RegisterClient (client : Client) (now : Time) (s : MemoryStorage)
    : MemoryStorage * option storage_error :=
  let id := Client_GetID client in
  match ms_clients s !! id with
  | Some _ =>
      let s := set_clientOrder (dropFromOrder id (ms_clientOrder s)) s in
      (addClient id client now s, None)
  | None =>
      if (0 <? ms_maxClients s)%Z && (ms_maxClients s <=? Z.of_nat (size (ms_clients s)))%Z then
        match oldestEvictableClientIndex now s with
        | Some idx =>
            match ms_clientOrder s !! idx with
            | Some victim =>
                let s := set_clientOrder
                           (take idx (ms_clientOrder s) ++ drop (S idx) (ms_clientOrder s)) s in
                let s := set_clients (delete (co_id victim) (ms_clients s)) s in
                (addClient id client now s, None)
            | None => (s, None)  (* unreachable: an index out of range panics *)
            end
        | None => (s, Some ErrClientCapacity)
        end
      else (addClient id client now s, None)
  end.

Definition RenewClientTTL (client : option Client) (now : Time) (s : MemoryStorage)
    : MemoryStorage * option storage_error :=
  match client with
  | None => (s, None)
  | Some c =>
      if negb (DCRIssued c) then (s, None)
      else
        let id := Client_GetID c in
        match ms_clients s !! id with
        | None => (s, None)
        | Some _ =>
            (set_clientOrder
               (dropFromOrder id (ms_clientOrder s) ++ [{| co_id := id; co_touchedAt := now |}]) s,
             None)
        end
  end.

Definition GetClient (id : string) (s : MemoryStorage) : option Client * option storage_error :=
  match ms_clients s !! id with
  | None => (None, Some (ErrNotFound "Client not found"))
  | Some client => (Some client, None)
  end.

Definition ClientAssertionJWTValid (jti : string) (now : Time) (s : MemoryStorage)
    : option storage_error :=
  match ms_clientAssertionJWTs s !! jti with
  | Some exp => if time.Before now exp then Some ErrJTIKnown else None
  | None => None
  end.

Definition SetClientAssertionJWT (jti : string) (exp now : Time) (s : MemoryStorage)
    : MemoryStorage * option storage_error :=
  let s := set_clientAssertionJWTs (delete_if (jwt_expired now) (ms_clientAssertionJWTs s)) s in
  (set_clientAssertionJWTs (<[jti := exp]> (ms_clientAssertionJWTs s)) s, None).

(** ** Authorization codes *)
Definition CreateAuthorizeCodeSession (code : string) (request : option Requester)
    (now now' : Time) (s : MemoryStorage) : MemoryStorage * option storage_error :=
  if decide (code = "") then (s, Some (ErrInvalidRequest "authorization code cannot be empty"))
  else match request with
  | None => (s, Some (ErrInvalidRequest "request cannot be nil"))
  | Some r =>
      let expiresAt := getExpirationFromRequester request AuthorizeCode DefaultAuthCodeTTL now' in
      (set_authCodes (<[code := mkEntry r now expiresAt]> (ms_authCodes s)) s, None)
  end.

Definition GetAuthorizeCodeSession (code : string) (s : MemoryStorage)
    : option Requester * option storage_error :=
  match ms_authCodes s !! code with
  | None => (None, Some (ErrNotFound "Authorization code not found"))
  | Some entry =>
      match ms_invalidatedCodes s !! code with
      | Some _ => (Some (te_value entry), Some ErrInvalidatedAuthorizeCode)
      | None => (Some (te_value entry), None)
      end
  end.

Definition InvalidateAuthorizeCodeSession (code : string) (now : Time) (s : MemoryStorage)
    : MemoryStorage * option storage_error :=
  match ms_authCodes s !! code with
  | None => (s, Some (ErrNotFound "Authorization code not found"))
  | Some _ =>
      (set_invalidatedCodes
         (<[code := mkEntry true now (time.Add now DefaultInvalidatedCodeTTL)]>
            (ms_invalidatedCodes s)) s, None)
  end.

(** ** Access tokens *)
Definition CreateAccessTokenSession (signature : string) (request : option Requester)
    (now now' : Time) (s : MemoryStorage) : MemoryStorage * option storage_error :=
  if decide (signature = "")
  then (s, Some (ErrInvalidRequest "access token signature cannot be empty"))
  else match request with
  | None => (s, Some (ErrInvalidRequest "request cannot be nil"))
  | Some r =>
      let expiresAt := getExpirationFromRequester request AccessToken DefaultAccessTokenTTL now' in
      (set_accessTokens (<[signature := mkEntry r now expiresAt]> (ms_accessTokens s)) s, None)
  end.

Definition GetAccessTokenSession (signature : string) (s : MemoryStorage)
    : option Requester * option storage_error :=
  match ms_accessTokens s !! signature with
  | None => (None, Some (ErrNotFound "Access token not found"))
  | Some entry => (Some (te_value entry), None)
  end.

Definition DeleteAccessTokenSession (signature : string) (s : MemoryStorage)
    : MemoryStorage * option storage_error :=
  match ms_accessTokens s !! signature with
  | None => (s, Some (ErrNotFound "Access token not found"))
  | Some _ => (set_accessTokens (delete signature (ms_accessTokens s)) s, None)
  end.

(** ** Refresh tokens *)
Definition CreateRefreshTokenSession (signature : string) (request : option Requester)
    (now now' : Time) (s : MemoryStorage) : MemoryStorage * option storage_error :=
  if decide (signature = "")
  then (s, Some (ErrInvalidRequest "refresh token signature cannot be empty"))
  else match request with
  | None => (s, Some (ErrInvalidRequest "request cannot be nil"))
  | Some r =>
      let expiresAt :=
        getExpirationFromRequester request RefreshToken DefaultRefreshTokenTTL now' in
      (set_refreshTokens (<[signature := mkEntry r now expiresAt]> (ms_refreshTokens s)) s, None)
  end.

Definition GetRefreshTokenSession (signature : string) (s : MemoryStorage)
    : option Requester * option storage_error :=
  match ms_refreshTokens s !! signature with
  | None => (None, Some (ErrNotFound "Refresh token not found"))
  | Some entry => (Some (te_value entry), None)
  end.

Definition DeleteRefreshTokenSession (signature : string) (s : MemoryStorage)
    : MemoryStorage * option storage_error :=
  match ms_refreshTokens s !! signature with
  | None => (s, Some (ErrNotFound "Refresh token not found"))
  | Some _ => (set_refreshTokens (delete signature (ms_refreshTokens s)) s, None)
  end.

Definition of_request (requestID : string) (_ : string) (e : timedEntry Requester) : bool :=
  bool_decide (Requester_GetID (te_value e) = requestID).

Definition RotateRefreshToken (requestID refreshTokenSignature : string) (s : MemoryStorage)
    : MemoryStorage * option storage_error :=
  let s := set_refreshTokens (delete refreshTokenSignature (ms_refreshTokens s)) s in
  (set_accessTokens (delete_if (of_request requestID) (ms_accessTokens s)) s, None).

Definition RevokeAccessToken (requestID : string) (s : MemoryStorage)
    : MemoryStorage * option storage_error :=
  (set_accessTokens (delete_if (of_request requestID) (ms_accessTokens s)) s, None).

Definition RevokeRefreshToken (requestID : string) (s : MemoryStorage)
    : MemoryStorage * option storage_error :=
  (set_refreshTokens (delete_if (of_request requestID) (ms_refreshTokens s)) s, None).

Definition RevokeRefreshTokenMaybeGracePeriod (requestID : string) (_ : string)
    (s : MemoryStorage) : MemoryStorage * option storage_error :=
  RevokeRefreshToken requestID s.

(** ** PKCE *)
Definition CreatePKCERequestSession (signature : string) (request : option Requester)
    (now now' : Time) (s : MemoryStorage) : MemoryStorage * option storage_error :=
  if decide (signature = "") then (s, Some (ErrInvalidRequest "PKCE signature cannot be empty"))
  else match request with
  | None => (s, Some (ErrInvalidRequest "request cannot be nil"))
  | Some r =>
      let expiresAt := getExpirationFromRequester request AuthorizeCode DefaultPKCETTL now' in
      (set_pkceRequests (<[signature := mkEntry r now expiresAt]> (ms_pkceRequests s)) s, None)
  end.

Definition GetPKCERequestSession (signature : string) (s : MemoryStorage)
    : option Requester * option storage_error :=
  match ms_pkceRequests s !! signature with
  | None => (None, Some (ErrNotFound "PKCE request not found"))
  | Some entry => (Some (te_value entry), None)
  end.

Definition DeletePKCERequestSession (signature : string) (s : MemoryStorage)
    : MemoryStorage * option storage_error :=
  match ms_pkceRequests s !! signature with
  | None => (s, Some (ErrNotFound "PKCE request not found"))
  | Some _ => (set_pkceRequests (delete signature (ms_pkceRequests s)) s, None)
  end.

(** ** Upstream tokens *)
Definition ResolveUpstreamTokenRowID (sha256hex : string -> string)
    (sessionID providerName : string) : string * option storage_error :=
  if decide (sessionID = "") then ("", Some (ErrInvalidRequest "session ID cannot be empty"))
  else if decide (providerName = "")
  then ("", Some (ErrInvalidRequest "provider name cannot be empty"))
  else (upstreamTokenRowID sha256hex [sessionID; providerName], None).

Definition upstreamExpiry (tokens : option UpstreamTokens) (now : Time) : Time :=
  match tokens with
  | None => time.Add now (DefaultAccessTokenTTL + DefaultRefreshTokenTTL)%Z
  | Some t =>
      if negb (time.IsZero (ut_ExpiresAt t)) then time.Add (ut_ExpiresAt t) DefaultRefreshTokenTTL
      else if negb (time.IsZero (ut_SessionExpiresAt t))
      then time.Add (ut_SessionExpiresAt t) DefaultRefreshTokenTTL
      else time.zero
  end.

Definition StoreUpstreamTokens (sessionID providerName : string)
    (tokens : option UpstreamTokens) (now : Time) (s : MemoryStorage)
    : MemoryStorage * option storage_error :=
  if decide (sessionID = "") then (s, Some (ErrInvalidRequest "session ID cannot be empty"))
  else if decide (providerName = "")
  then (s, Some (ErrInvalidRequest "provider name cannot be empty"))
  else
    let key := {| uk_sessionID := sessionID; uk_providerName := providerName |} in
    (set_upstreamTokens
       (<[key := mkEntry tokens now (upstreamExpiry tokens now)]> (ms_upstreamTokens s)) s, None).

Definition GetUpstreamTokens (sessionID providerName : string) (now : Time) (s : MemoryStorage)
    : option UpstreamTokens * option storage_error :=
  if decide (sessionID = "") then (None, Some (ErrInvalidRequest "session ID cannot be empty"))
  else if decide (providerName = "")
  then (None, Some (ErrInvalidRequest "provider name cannot be empty"))
  else
    match ms_upstreamTokens s !! {| uk_sessionID := sessionID; uk_providerName := providerName |} with
    | None => (None, Some (ErrNotFound "Upstream tokens not found"))
    | Some entry =>
        match te_value entry with
        | None => (None, None)
        | Some result =>
            if negb (time.IsZero (ut_ExpiresAt result)) && time.After now (ut_ExpiresAt result)
            then (Some result, Some ErrExpired)
            else (Some result, None)
        end
    end.

Definition GetAllUpstreamTokens (sessionID : string) (s : MemoryStorage)
    : gmap string (option UpstreamTokens) :=
  map_fold (fun key entry result =>
      if decide (uk_sessionID key ≠ sessionID) then result
      else <[uk_providerName key := te_value entry]> result)
    ∅ (ms_upstreamTokens s).

Definition of_session (sessionID : string) (key : upstreamKey)
    (_ : timedEntry (option UpstreamTokens)) : bool :=
  bool_decide (uk_sessionID key = sessionID).

Definition DeleteUpstreamTokens (sessionID : string) (s : MemoryStorage)
    : MemoryStorage * option storage_error :=
  let found := any_if (of_session sessionID) (ms_upstreamTokens s) in
  let s := set_upstreamTokens (delete_if (of_session sessionID) (ms_upstreamTokens s)) s in
  if negb found then (s, Some (ErrNotFound "Upstream tokens not found")) else (s, None).

Definition DeleteUpstreamTokensForProvider (sessionID providerName : string) (s : MemoryStorage)
    : MemoryStorage * option storage_error :=
  if decide (sessionID = "") then (s, Some (ErrInvalidRequest "session ID cannot be empty"))
  else if decide (providerName = "")
  then (s, Some (ErrInvalidRequest "provider name cannot be empty"))
  else
    (set_upstreamTokens
       (delete {| uk_sessionID := sessionID; uk_providerName := providerName |}
          (ms_upstreamTokens s)) s, None).

Definition compareExpiry (a b : Time) : Z :=
  let aZero := time.IsZero a in
  let bZero := time.IsZero b in
  if aZero && bZero then 0%Z
  else if aZero then 1%Z
  else if bZero then (-1)%Z
  else time.Compare a b.

(** The body of the loop of [GetLatestUpstreamTokensForUser]. *)
Definition laterTokens (userID providerID : string) (winner : option UpstreamTokens)
    (entry : upstreamKey * timedEntry (option UpstreamTokens)) : option UpstreamTokens :=
  match te_value entry.2 with
  | None => winner
  | Some t =>
      if bool_decide (ut_UserID t ≠ userID) || bool_decide (ut_ProviderID t ≠ providerID)
      then winner
      else match winner with
           | None => Some t
           | Some w =>
               if (0 <? compareExpiry (ut_ExpiresAt t) (ut_ExpiresAt w))%Z then Some t else winner
           end
  end.

(** [order] is the order the loop visits [upstreamTokens] in. *)
Definition GetLatestUpstreamTokensForUser (userID providerID : string)
    (order : list (upstreamKey * timedEntry (option UpstreamTokens)))
    : option UpstreamTokens * option storage_error :=
  if decide (userID = "") then (None, Some (ErrInvalidRequest "user ID cannot be empty"))
  else if decide (providerID = "")
  then (None, Some (ErrInvalidRequest "provider ID cannot be empty"))
  else
    match foldl (laterTokens userID providerID) None order with
    | None => (None, Some (ErrNotFound "Upstream tokens not found"))
    | Some winner => (Some winner, None)
    end.

(** ** Pending authorizations *)
Definition StorePendingAuthorization (state : string) (pending : option PendingAuthorization)
    (now : Time) (s : MemoryStorage) : MemoryStorage * option storage_error :=
  if decide (state = "") then (s, Some (ErrInvalidRequest "state cannot be empty"))
  else match pending with
  | None => (s, Some (ErrInvalidRequest "pending authorization cannot be nil"))
  | Some p =>
      let expiresAt := time.Add now DefaultPendingAuthorizationTTL in
      (set_pendingAuthorizations
         (<[state := mkEntry p now expiresAt]> (ms_pendingAuthorizations s)) s, None)
  end.

Definition LoadPendingAuthorization (state : string) (now : Time) (s : MemoryStorage)
    : option PendingAuthorization * option storage_error :=
  match ms_pendingAuthorizations s !! state with
  | None => (None, Some (ErrNotFound "Pending authorization not found"))
  | Some entry =>
      if time.After now (te_expiresAt entry) then (None, Some ErrExpired)
      else (Some (te_value entry), None)
  end.

Definition DeletePendingAuthorization (state : string) (s : MemoryStorage)
    : MemoryStorage * option storage_error :=
  match ms_pendingAuthorizations s !! state with
  | None => (s, Some (ErrNotFound "Pending authorization not found"))
  | Some _ => (set_pendingAuthorizations (delete state (ms_pendingAuthorizations s)) s, None)
  end.

(** ** Users and their identities *)
Definition CreateUser (user : option User) (s : MemoryStorage)
    : MemoryStorage * option storage_error :=
  match user with
  | None => (s, Some (ErrInvalidRequest "user cannot be nil"))
  | Some u =>
      if decide (user_ID u = "") then (s, Some (ErrInvalidRequest "user ID cannot be empty"))
      else match ms_users s !! user_ID u with
      | Some _ => (s, Some (ErrAlreadyExists "user already exists"))
      | None => (set_users (<[user_ID u := u]> (ms_users s)) s, None)
      end
  end.

Definition GetUser (id : string) (s : MemoryStorage) : option User * option storage_error :=
  match ms_users s !! id with
  | None => (None, Some (ErrNotFound "user not found"))
  | Some user => (Some user, None)
  end.

Definition identity_of (userID : string) (_ : string) (i : ProviderIdentity) : bool :=
  bool_decide (pi_UserID i = userID).

Definition tokens_of_user (userID : string) (_ : upstreamKey)
    (e : timedEntry (option UpstreamTokens)) : bool :=
  match te_value e with Some t => bool_decide (ut_UserID t = userID) | None => false end.

Definition DeleteUser (id : string) (s : MemoryStorage) : MemoryStorage * option storage_error :=
  match ms_users s !! id with
  | None => (s, Some (ErrNotFound "user not found"))
  | Some _ =>
      let s := set_providerIdentities (delete_if (identity_of id) (ms_providerIdentities s)) s in
      let s := set_upstreamTokens (delete_if (tokens_of_user id) (ms_upstreamTokens s)) s in
      (set_users (delete id (ms_users s)) s, None)
  end.

Definition CreateProviderIdentity (identity : option ProviderIdentity) (s : MemoryStorage)
    : MemoryStorage * option storage_error :=
  match identity with
  | None => (s, Some (ErrInvalidRequest "identity cannot be nil"))
  | Some i =>
      if decide (pi_UserID i = "") then (s, Some (ErrInvalidRequest "user ID cannot be empty"))
      else if decide (pi_ProviderID i = "")
      then (s, Some (ErrInvalidRequest "provider ID cannot be empty"))
      else if decide (pi_ProviderSubject i = "")
      then (s, Some (ErrInvalidRequest "provider subject cannot be empty"))
      else match ms_users s !! pi_UserID i with
      | None => (s, Some (ErrNotFound "user not found"))
      | Some _ =>
          let key := providerIdentityKey (pi_ProviderID i) (pi_ProviderSubject i) in
          match ms_providerIdentities s !! key with
          | Some _ => (s, Some (ErrAlreadyExists "provider identity already linked"))
          | None => (set_providerIdentities (<[key := i]> (ms_providerIdentities s)) s, None)
          end
      end
  end.

Definition GetProviderIdentity (providerID providerSubject : string) (s : MemoryStorage)
    : option ProviderIdentity * option storage_error :=
  match ms_providerIdentities s !! providerIdentityKey providerID providerSubject with
  | None => (None, Some (ErrNotFound "provider identity not found"))
  | Some identity => (Some identity, None)
  end.

Definition UpdateProviderIdentityLastUsed (providerID providerSubject : string)
    (lastUsedAt : Time) (s : MemoryStorage) : MemoryStorage * option storage_error :=
  let key := providerIdentityKey providerID providerSubject in
  match ms_providerIdentities s !! key with
  | None => (s, Some (ErrNotFound "provider identity not found"))
  | Some i =>
      (set_providerIdentities (<[key := {|
         pi_UserID := pi_UserID i;
         pi_ProviderID := pi_ProviderID i;
         pi_ProviderSubject := pi_ProviderSubject i;
         pi_LinkedAt := pi_LinkedAt i;
         pi_LastUsedAt := lastUsedAt |}]> (ms_providerIdentities s)) s, None)
  end.

(** [order] is the order the loop visits [providerIdentities] in. *)
Definition GetUserProviderIdentities (userID : string) (order : list (string * ProviderIdentity))
    (s : MemoryStorage) : list ProviderIdentity * option storage_error :=
  match ms_users s !! userID with
  | None => ([], Some (ErrNotFound "user not found"))
  | Some _ => (filter (fun i => pi_UserID i = userID) order.*2, None)
  end.

(** ** DCR credentials *)
Definition StoreDCRCredentials (creds : option DCRCredentials) (s : MemoryStorage)
    : MemoryStorage * option storage_error :=
  match validateDCRCredentialsForStore creds, creds with
  | None, Some c => (set_dcrCredentials (<[dc_Key c := c]> (ms_dcrCredentials s)) s, None)
  | err, _ => (s, err)
  end.

Definition GetDCRCredentials (key : DCRKey) (s : MemoryStorage)
    : option DCRCredentials * option storage_error :=
  match ms_dcrCredentials s !! key with
  | None => (None, Some (ErrNotFound "DCR credentials not found"))
  | Some entry => (Some entry, None)
  end.

(** ** Statistics *)
Record Stats := {
  stats_Clients : nat;
  stats_AuthCodes : nat;
  stats_AccessTokens : nat;
  stats_RefreshTokens : nat;
  stats_PKCERequests : nat;
  stats_UpstreamTokens : nat;
  stats_PendingAuthorizations : nat;
  stats_InvalidatedCodes : nat;
  stats_ClientAssertionJWTs : nat;
  stats_Users : nat;
  stats_ProviderIdentities : nat;
  stats_DCRCredentials : nat;
}.

Definition storage_Stats (s : MemoryStorage) : Stats := {|
  stats_Clients := size (ms_clients s);
  stats_AuthCodes := size (ms_authCodes s);
  stats_AccessTokens := size (ms_accessTokens s);
  stats_RefreshTokens := size (ms_refreshTokens s);
  stats_PKCERequests := size (ms_pkceRequests s);
  stats_UpstreamTokens := size (ms_upstreamTokens s);
  stats_PendingAuthorizations := size (ms_pendingAuthorizations s);
  stats_InvalidatedCodes := size (ms_invalidatedCodes s);
  stats_ClientAssertionJWTs := size (ms_clientAssertionJWTs s);
  stats_Users := size (ms_users s);
  stats_ProviderIdentities := size (ms_providerIdentities s);
  stats_DCRCredentials := size (ms_dcrCredentials s);
|}.

(** ** Calls and their interleaving with the cleanup *)
Inductive storage_op :=
  | OpRegisterClient (client : Client) (now : Time)
  | OpRenewClientTTL (client : option Client) (now : Time)
  | OpSetJWT (jti : string) (exp now : Time)
  | OpCreateCode (code : string) (request : option Requester) (now now' : Time)
  | OpInvalidateCode (code : string) (now : Time)
  | OpCreateAccess (signature : string) (request : option Requester) (now now' : Time)
  | OpDeleteAccess (signature : string)
  | OpCreateRefresh (signature : string) (request : option Requester) (now now' : Time)
  | OpDeleteRefresh (signature : string)
  | OpRotate (requestID signature : string)
  | OpRevokeAccess (requestID : string)
  | OpRevokeRefresh (requestID : string)
  | OpCreatePKCE (signature : string) (request : option Requester) (now now' : Time)
  | OpDeletePKCE (signature : string)
  | OpStoreUpstream (sessionID providerName : string) (tokens : option UpstreamTokens) (now : Time)
  | OpDeleteUpstream (sessionID : string)
  | OpDeleteUpstreamForProvider (sessionID providerName : string)
  | OpStorePending (state : string) (pending : option PendingAuthorization) (now : Time)
  | OpDeletePending (state : string)
  | OpCreateUser (user : option User)
  | OpDeleteUser (id : string)
  | OpCreateIdentity (identity : option ProviderIdentity)
  | OpUpdateLastUsed (providerID providerSubject : string) (lastUsedAt : Time)
  | OpStoreDCR (creds : option DCRCredentials).

Definition storage_do (op : storage_op) (s : MemoryStorage)
    : MemoryStorage * option storage_error :=
  match op with
  | OpRegisterClient client now => RegisterClient client now s
  | OpRenewClientTTL client now => RenewClientTTL client now s
  | OpSetJWT jti exp now => SetClientAssertionJWT jti exp now s
  | OpCreateCode code request now now' => CreateAuthorizeCodeSession code request now now' s
  | OpInvalidateCode code now => InvalidateAuthorizeCodeSession code now s
  | OpCreateAccess signature request now now' =>
      CreateAccessTokenSession signature request now now' s
  | OpDeleteAccess signature => DeleteAccessTokenSession signature s
  | OpCreateRefresh signature request now now' =>
      CreateRefreshTokenSession signature request now now' s
  | OpDeleteRefresh signature => DeleteRefreshTokenSession signature s
  | OpRotate requestID signature => RotateRefreshToken requestID signature s
  | OpRevokeAccess requestID => RevokeAccessToken requestID s
  | OpRevokeRefresh requestID => RevokeRefreshToken requestID s
  | OpCreatePKCE signature request now now' =>
      CreatePKCERequestSession signature request now now' s
  | OpDeletePKCE signature => DeletePKCERequestSession signature s
  | OpStoreUpstream sessionID providerName tokens now =>
      StoreUpstreamTokens sessionID providerName tokens now s
  | OpDeleteUpstream sessionID => DeleteUpstreamTokens sessionID s
  | OpDeleteUpstreamForProvider sessionID providerName =>
      DeleteUpstreamTokensForProvider sessionID providerName s
  | OpStorePending state pending now => StorePendingAuthorization state pending now s
  | OpDeletePending state => DeletePendingAuthorization state s
  | OpCreateUser user => CreateUser user s
  | OpDeleteUser id => DeleteUser id s
  | OpCreateIdentity identity => CreateProviderIdentity identity s
  | OpUpdateLastUsed providerID providerSubject lastUsedAt =>
      UpdateProviderIdentityLastUsed providerID providerSubject lastUsedAt s
  | OpStoreDCR creds => StoreDCRCredentials creds s
  end.

(** The storage together with the keys the cleanup goroutine has collected and
    not yet deleted. *)
Record system := mkSystem {
  sys_store : MemoryStorage;
  sys_pending : option expiredKeys;
}.

Inductive event :=
  | ECall (op : storage_op)
  | ECollect (now : Time)
  | EDelete.

(** An event that is not enabled (a cleanup phase out of turn) does nothing. *)
Definition system_do (sys : system) (e : event) : system :=
  match e with
  | ECall op => mkSystem (storage_do op (sys_store sys)).1 (sys_pending sys)
  | ECollect now =>
      match sys_pending sys with
      | None => mkSystem (sys_store sys) (Some (collectExpired now (sys_store sys)))
      | Some _ => sys
      end
  | EDelete =>
      match sys_pending sys with
      | None => sys
      | Some ek => mkSystem (deleteExpired ek (sys_store sys)) None
      end
  end.

Definition system_run (es : list event) (sys : system) : system := foldl system_do sys es.
End memory.

Arguments MemoryStorage : clear implicits.
Arguments storage_op : clear implicits.
Arguments system : clear implicits.
Arguments event : clear implicits.

(** Calls on other parts of the storage leave the given fields alone. *)
Ltac storage_frame op :=
  destruct op; simpl; try done;
  unfold RegisterClient, RenewClientTTL, SetClientAssertionJWT, CreateAuthorizeCodeSession,
    InvalidateAuthorizeCodeSession, CreateAccessTokenSession, DeleteAccessTokenSession,
    CreateRefreshTokenSession, DeleteRefreshTokenSession, RotateRefreshToken, RevokeAccessToken,
    RevokeRefreshToken, CreatePKCERequestSession, DeletePKCERequestSession, StoreUpstreamTokens,
    DeleteUpstreamTokens, DeleteUpstreamTokensForProvider, StorePendingAuthorization,
    DeletePendingAuthorization, CreateUser, DeleteUser, CreateProviderIdentity,
    UpdateProviderIdentityLastUsed, StoreDCRCredentials;
  repeat case_match; simplify_eq/=; done.

(** A concrete instance: a client is its identifier and marker, a request its
    identifier and the expiry of all its tokens. *)
#[export] Instance sample_fosite : Fosite (string * bool) (string * option Time) := {|
  Client_GetID := fst;
  DCRIssued := snd;
  Requester_GetID := fst;
  Requester_expiry r := (fun t _ => t) <$> r.2;
|}.

Definition sample_storage : MemoryStorage (string * bool) (string * option Time) :=
  NewMemoryStorage [WithMaxClients 1; WithMinClientAge 5].
