(* ===== verification/StorageClients.v ===== *)
(** * Client registrations of the in-memory storage

    The cap on registered clients, the eviction queue, and which clients
    [RegisterClient] may drop, over any sequence of storage calls interleaved
    with the cleanup. *)

From S2P Require Import Prelude StorageTypes MemoryStorage.

Section clients.
Context {Client Requester : Type} `{Fosite Client Requester}.
Implicit Types s : MemoryStorage Client Requester.

(** An entry of the queue that may be evicted. *)
Definition evictable (clients : gmap string Client) (minAge : Duration) (now : Time)
    (e : clientOrderEntry) : Prop :=
  (minAge <= time.Sub now (co_touchedAt e))%Z /\
  exists c, clients !! co_id e = Some c /\ DCRIssued c = true.

#[local] Instance evictable_dec clients minAge now e : Decision (evictable clients minAge now e).
Proof.
  unfold evictable. destruct (clients !! co_id e) as [c|] eqn:E.
  - destruct (decide (minAge <= time.Sub now (co_touchedAt e))%Z); [|right; tauto].
    destruct (DCRIssued c) eqn:Ed; [left; eauto|]. right. intros (_ & c' & [= <-] & ?). congruence.
  - right. by intros (_ & c' & ? & _).
Defined.

(** The queue lists the registered clients once each, every client is stored
    under its own identifier, and the cap is respected. *)
Record clients_ok (s : MemoryStorage Client Requester) : Prop := {
  ok_nodup : NoDup (co_id <$> ms_clientOrder s);
  ok_dom : forall id, id ∈ co_id <$> ms_clientOrder s <-> id ∈ dom (ms_clients s);
  ok_ids : forall id c, ms_clients s !! id = Some c -> Client_GetID c = id;
  ok_cap : (0 < ms_maxClients s)%Z -> (Z.of_nat (size (ms_clients s)) <= ms_maxClients s)%Z;
}.

Definition touches_clients (op : storage_op Client Requester) : Prop :=
  match op with OpRegisterClient _ _ | OpRenewClientTTL _ _ => True | _ => False end.

Lemma storage_do_clients op s :
  ~ touches_clients op ->
  ms_clients (storage_do op s).1 = ms_clients s /\
  ms_clientOrder (storage_do op s).1 = ms_clientOrder s /\
  ms_maxClients (storage_do op s).1 = ms_maxClients s.
Proof. intros Ht. storage_frame op. Qed.

Lemma deleteExpired_clients ek s :
  ms_clients (deleteExpired ek s) = ms_clients s /\
  ms_clientOrder (deleteExpired ek s) = ms_clientOrder s /\
  ms_maxClients (deleteExpired ek s) = ms_maxClients s.
Proof. unfold deleteExpired. by case_match. Qed.

(** The loop finds the first evictable entry. *)
Lemma oldestEvictable_find clients minAge now i l :
  oldestEvictable clients minAge now i l =
  (fun p => i + p.1) <$> list_find (evictable clients minAge now) l.
Proof.
  revert i. induction l as [|e l IH]; intros i; [done|]. cbn [oldestEvictable list_find].
  assert (forall o : option (nat * clientOrderEntry),
    (fun p => i + p.1) <$> (prod_map S id <$> o) = (fun p => S i + p.1) <$> o) as Hshift.
  { intros [[j e']|]; [|done]. simpl. f_equal. lia. }
  case_decide as He.
  - destruct He as [Hage (c & Hc & Hd)]. rewrite Hc, Hd.
    destruct (Z.ltb_spec (time.Sub now (co_touchedAt e)) minAge); [lia|]. simpl. f_equal. lia.
  - rewrite Hshift, <- IH. destruct (Z.ltb_spec (time.Sub now (co_touchedAt e)) minAge); [done|].
    destruct (clients !! co_id e) as [c|] eqn:Hc; [|done].
    destruct (DCRIssued c) eqn:Hd; [|done]. destruct He. split; [done|]. eauto.
Qed.

Lemma oldestEvictable_Some clients minAge now l idx :
  oldestEvictable clients minAge now 0 l = Some idx ->
  exists e, l !! idx = Some e /\ evictable clients minAge now e /\
    forall j e', j < idx -> l !! j = Some e' -> ~ evictable clients minAge now e'.
Proof.
  rewrite oldestEvictable_find. intros ([j e] & Hj & E)%fmap_Some. simpl in E. subst.
  apply list_find_Some in Hj as (Hj & He & Hmin). exists e. split_and!; [done|done|].
  intros k e' Hk Hl. by eapply Hmin.
Qed.

Lemma oldestEvictable_None clients minAge now l :
  oldestEvictable clients minAge now 0 l = None ->
  forall e, e ∈ l -> ~ evictable clients minAge now e.
Proof.
  rewrite oldestEvictable_find, fmap_None, list_find_None, Forall_forall. done.
Qed.

(** ** Registering and renewing keep the invariant *)
Lemma dropFromOrder_ids id l :
  NoDup (co_id <$> l) ->
  NoDup (co_id <$> dropFromOrder id l) /\
  (forall id', id' ∈ co_id <$> dropFromOrder id l <-> id' ≠ id /\ id' ∈ co_id <$> l).
Proof.
  intros Hn. assert (forall id', id' ∈ co_id <$> dropFromOrder id l <->
    id' ≠ id /\ id' ∈ co_id <$> l) as Hd.
  { intros id'. unfold dropFromOrder. rewrite !list_elem_of_fmap.
    setoid_rewrite list_elem_of_filter. naive_solver. }
  split; [|done]. clear Hd. unfold dropFromOrder. induction l as [|e l IH]; [done|].
  cbn [fmap list_fmap] in Hn. apply NoDup_cons in Hn as [He Hn].
  rewrite filter_cons. case_decide; [|by apply IH]. cbn [fmap list_fmap].
  apply NoDup_cons. split; [|by apply IH]. contradict He.
  apply list_elem_of_fmap in He as (e' & -> & He'%list_elem_of_filter).
  apply list_elem_of_fmap. naive_solver.
Qed.

Lemma addClient_ok id c now s :
  Client_GetID c = id ->
  NoDup (co_id <$> ms_clientOrder s) ->
  (forall id', id' ∈ co_id <$> ms_clientOrder s <-> id' ≠ id /\ id' ∈ dom (ms_clients s)) ->
  (forall id' c', ms_clients s !! id' = Some c' -> Client_GetID c' = id') ->
  ((0 < ms_maxClients s)%Z ->
   (Z.of_nat (size (<[id := c]> (ms_clients s))) <= ms_maxClients s)%Z) ->
  clients_ok (addClient id c now s).
Proof.
  intros Hid Hn Hd Hids Hcap. split; simpl; [| | |done].
  - rewrite fmap_app. apply NoDup_app. split_and!; [done| |apply NoDup_singleton].
    intros x Hx%Hd. set_solver.
  - intros id'. rewrite fmap_app, elem_of_app, Hd, dom_insert.
    destruct (decide (id' = id)); set_solver.
  - intros id' c'. rewrite lookup_insert. case_decide; [naive_solver|apply Hids].
Qed.

Lemma evict_ids l idx v :
  NoDup (co_id <$> l) -> l !! idx = Some v ->
  NoDup (co_id <$> take idx l ++ drop (S idx) l) /\
  forall id, id ∈ co_id <$> (take idx l ++ drop (S idx) l) <-> id ≠ co_id v /\ id ∈ co_id <$> l.
Proof.
  intros Hn Hl. rewrite <- delete_take_drop. pose proof (delete_Permutation l idx v Hl) as Hp.
  pose proof (fmap_Permutation co_id _ _ Hp) as Hp'. cbn [fmap list_fmap] in Hp'.
  rewrite Hp' in Hn. apply NoDup_cons in Hn as [Hv Hn]. split; [done|].
  intros id. rewrite Hp', elem_of_cons. split; [|tauto]. intros Hid. split; [by intros ->|by right].
Qed.

Lemma RegisterClient_ok c now s : clients_ok s -> clients_ok (RegisterClient c now s).1.
Proof.
  intros [Hn Hd Hids Hcap]. unfold RegisterClient.
  destruct (ms_clients s !! Client_GetID c) as [c0|] eqn:Ec.
  - destruct (dropFromOrder_ids (Client_GetID c) (ms_clientOrder s) Hn) as [Hn' Hd'].
    apply addClient_ok; simpl; [done|done| |done|].
    + intros id'. by rewrite Hd', Hd.
    + intros Hm. rewrite map_size_insert_Some by done. by apply Hcap.
  - case_match eqn:Efull.
    + destruct (oldestEvictableClientIndex now s) as [idx|] eqn:Ei; [|done].
      apply oldestEvictable_Some in Ei as (v & Hv & [Hage (cv & Hcv & Hdcr)] & _). rewrite Hv.
      destruct (evict_ids _ _ _ Hn Hv) as [Hn' Hd'].
      apply addClient_ok; simpl; [done|done| | |].
      * intros id'. rewrite Hd', Hd, dom_delete. split; [|set_solver].
        intros [Hne Hin]. split; [|set_solver]. intros ->. by apply not_elem_of_dom in Ec.
      * intros id' c'. rewrite lookup_delete. case_decide; [done|apply Hids].
      * intros Hm. rewrite map_size_insert_None, map_size_delete, Hcv
          by (by rewrite lookup_delete, Ec; case_decide).
        pose proof (Hcap Hm). assert (size (ms_clients s) ≠ 0).
        { intros E%map_size_empty_iff. by rewrite E, lookup_empty in Hcv. }
        simpl. lia.
    + apply addClient_ok; simpl; [done|done| |done|].
      * intros id'. rewrite Hd. split; [|tauto]. intros Hin. split; [|done].
        intros ->. by apply not_elem_of_dom in Ec.
      * intros Hm. rewrite map_size_insert_None by done.
        apply andb_false_iff in Efull as [Hz%Z.ltb_ge|Hz%Z.leb_gt]; lia.
Qed.

Lemma RenewClientTTL_ok c now s : clients_ok s -> clients_ok (RenewClientTTL c now s).1.
Proof.
  intros Hok. unfold RenewClientTTL. destruct c as [c|]; [|done].
  destruct (DCRIssued c); [|done]. simpl.
  destruct (ms_clients s !! Client_GetID c) as [c0|] eqn:Ec; [|done].
  destruct Hok as [Hn Hd Hids Hcap].
  destruct (dropFromOrder_ids (Client_GetID c) (ms_clientOrder s) Hn) as [Hn' Hd'].
  apply elem_of_dom_2 in Ec. split; simpl; [| |done|done].
  - rewrite fmap_app. apply NoDup_app. split_and!; [done| |apply NoDup_singleton].
    intros x [Hx _]%Hd'. set_solver.
  - intros id. rewrite fmap_app, elem_of_app, Hd', Hd.
    destruct (decide (id = Client_GetID c)); set_solver.
Qed.

Lemma clients_ok_frame s s' :
  ms_clients s' = ms_clients s -> ms_clientOrder s' = ms_clientOrder s ->
  ms_maxClients s' = ms_maxClients s -> clients_ok s -> clients_ok s'.
Proof. intros E1 E2 E3 [? ? ? ?]. split; by rewrite ?E1, ?E2, ?E3. Qed.

Lemma system_do_clients_ok e sys :
  clients_ok (sys_store sys) -> clients_ok (sys_store (system_do sys e)).
Proof.
  intros Hok. destruct e as [op|now|]; simpl.
  - assert (touches_clients op \/ ~ touches_clients op) as [Ht|Ht] by (destruct op; simpl; tauto).
    + destruct op; try done; [by apply RegisterClient_ok|by apply RenewClientTTL_ok].
    + destruct (storage_do_clients op (sys_store sys) Ht) as (E1 & E2 & E3).
      by apply (clients_ok_frame (sys_store sys)).
  - by case_match.
  - destruct (sys_pending sys) as [ek|]; [|done]. simpl.
    destruct (deleteExpired_clients ek (sys_store sys)) as (E1 & E2 & E3).
    by apply (clients_ok_frame (sys_store sys)).
Qed.

Lemma NewMemoryStorage_clients opts :
  ms_clients (NewMemoryStorage (Client := Client) (Requester := Requester) opts) = ∅ /\
  ms_clientOrder (NewMemoryStorage (Client := Client) (Requester := Requester) opts) = [].
Proof.
  unfold NewMemoryStorage. set (s := mkStorage _ _ _ _ _ _ _ _ _ _ _ _ _ _ _ _).
  assert (ms_clients s = ∅ /\ ms_clientOrder s = []) as Hs by done.
  revert Hs. generalize s. clear s. induction opts as [|o opts IH]; intros s Hs; simpl; [done|].
  apply IH. by destruct o.
Qed.

Lemma NewMemoryStorage_clients_ok opts :
  clients_ok (NewMemoryStorage (Client := Client) (Requester := Requester) opts).
Proof.
  destruct (NewMemoryStorage_clients opts) as [E1 E2].
  split; rewrite ?E1, ?E2; [constructor|set_solver|by intros ? ?; rewrite lookup_empty|].
  intros Hm. rewrite map_size_empty. lia.
Qed.

Lemma system_run_clients_ok es sys :
  clients_ok (sys_store sys) -> clients_ok (sys_store (system_run es sys)).
Proof.
  revert sys. induction es as [|e es IH]; intros sys Hok; [done|].
  apply IH. by apply system_do_clients_ok.
Qed.

(** ** What a registration does *)
Lemma RegisterClient_others c now s id c0 :
  clients_ok s -> ms_clients s !! id = Some c0 -> id ≠ Client_GetID c ->
  ms_clients (RegisterClient c now s).1 !! id = Some c0 \/
  (ms_clients (RegisterClient c now s).1 !! id = None /\
   (0 < ms_maxClients s <= Z.of_nat (size (ms_clients s)))%Z /\
   exists i e, ms_clientOrder s !! i = Some e /\ co_id e = id /\
     evictable (ms_clients s) (ms_minClientAge s) now e /\
     forall j e', j < i -> ms_clientOrder s !! j = Some e' ->
       ~ evictable (ms_clients s) (ms_minClientAge s) now e').
Proof.
  intros Hok Hid Hne. unfold RegisterClient.
  destruct (ms_clients s !! Client_GetID c) as [c1|] eqn:Ec.
  { left. simpl. by rewrite lookup_insert_ne. }
  case_match eqn:Efull; [|left; simpl; by rewrite lookup_insert_ne].
  apply andb_true_iff in Efull as [Hz%Z.ltb_lt Hsz%Z.leb_le].
  destruct (oldestEvictableClientIndex now s) as [idx|] eqn:Ei; [|by left].
  apply oldestEvictable_Some in Ei as (v & Hv & He & Hmin). rewrite Hv. simpl.
  rewrite lookup_insert_ne, lookup_delete by done. case_decide as Hd; [|by left].
  right. split; [done|]. split; [done|]. by exists idx, v.
Qed.

(** Whatever calls are made on a fresh storage and however the cleanup is
    interleaved with them, a positive client cap is never exceeded, and the
    eviction queue lists exactly the registered clients, each once. *)
Theorem client_cap_respected opts (es : list (event Client Requester)) :
  let s := sys_store (system_run es (mkSystem (NewMemoryStorage opts) None)) in
  ((0 < ms_maxClients s)%Z -> (Z.of_nat (size (ms_clients s)) <= ms_maxClients s)%Z) /\
  NoDup (co_id <$> ms_clientOrder s) /\
  (forall id, id ∈ co_id <$> ms_clientOrder s <-> id ∈ dom (ms_clients s)).
Proof.
  intros s. destruct (system_run_clients_ok es (mkSystem (NewMemoryStorage opts) None))
    as [Hn Hd _ Hcap]; [apply NewMemoryStorage_clients_ok|]. by split_and!.
Qed.

(** Registering a client under a new identifier at capacity drops at most one
    other client: the frontmost one of the eviction queue that was issued by
    dynamic registration and is at least the minimum age; if there is none the
    registration is refused and nothing changes, and otherwise the new client is
    found afterwards. *)
Theorem registration_evicts_only_aged_dcr_clients c now s :
  clients_ok s ->
  (forall id c0, ms_clients s !! id = Some c0 -> id ≠ Client_GetID c ->
    ms_clients (RegisterClient c now s).1 !! id = None ->
    DCRIssued c0 = true /\
    exists i e, ms_clientOrder s !! i = Some e /\ co_id e = id /\
      (ms_minClientAge s <= time.Sub now (co_touchedAt e))%Z /\
      forall j e', j < i -> ms_clientOrder s !! j = Some e' ->
        ~ evictable (ms_clients s) (ms_minClientAge s) now e') /\
  ((RegisterClient c now s).2 = None ->
    GetClient (Client_GetID c) (RegisterClient c now s).1 = (Some c, None)) /\
  ((RegisterClient c now s).2 ≠ None ->
    RegisterClient c now s = (s, Some ErrClientCapacity) /\
    forall e, e ∈ ms_clientOrder s -> ~ evictable (ms_clients s) (ms_minClientAge s) now e).
Proof.
  intros Hok. split_and!.
  - intros id c0 Hid Hne Hgone.
    destruct (RegisterClient_others c now s id c0 Hok Hid Hne) as [E|(_ & _ & i & e & Hi & <- & He & Hmin)];
      [congruence|].
    destruct He as [Hage (c1 & Hc1 & Hdcr)]. rewrite Hid in Hc1. simplify_eq. eauto 10.
  - unfold RegisterClient, GetClient. repeat case_match; simplify_eq/=; intros ?;
      try (rewrite lookup_insert_eq in *; by simplify_eq); try done.
    match goal with
    | Hi : oldestEvictableClientIndex _ _ = Some _ |- _ =>
        apply oldestEvictable_Some in Hi as (e & ? & _); congruence
    end.
  - unfold RegisterClient. repeat case_match; simplify_eq/=; intros ?; try done.
    split; [done|]. by apply oldestEvictable_None.
Qed.

(** A pre-provisioned client, once stored, stays available through any calls
    and cleanups that do not register another client under its identifier: an
    unauthenticated flood of registrations cannot evict it. *)
Theorem preprovisioned_client_kept (es : list (event Client Requester)) sys id c :
  clients_ok (sys_store sys) -> ms_clients (sys_store sys) !! id = Some c -> DCRIssued c = false ->
  (forall c' now, ECall (OpRegisterClient c' now) ∈ es -> Client_GetID c' ≠ id) ->
  GetClient id (sys_store (system_run es sys)) = (Some c, None).
Proof.
  intros Hok Hc Hd Hes. assert (ms_clients (sys_store (system_run es sys)) !! id = Some c) as E;
    [|unfold GetClient; by rewrite E].
  revert sys Hok Hc. induction es as [|e es IH]; intros sys Hok Hc; [done|].
  apply IH; [set_solver|by apply system_do_clients_ok|].
  destruct e as [op|now|]; simpl.
  - assert (touches_clients op \/ ~ touches_clients op) as [Ht|Ht] by (destruct op; simpl; tauto).
    + destruct op as [c' now|c' now| | | | | | | | | | | | | | | | | | | | | | ]; try done.
      * assert (id ≠ Client_GetID c') as Hne by (intros ->; eapply Hes; [left|done]).
        destruct (RegisterClient_others c' now _ id c Hok Hc Hne)
          as [E|(_ & _ & i & e & _ & Hid & [_ (c1 & Hc1 & Hdcr)] & _)]; [done|].
        rewrite Hid in Hc1. congruence.
      * simpl. unfold RenewClientTTL. by repeat case_match.
    + by destruct (storage_do_clients op (sys_store sys) Ht) as (-> & _).
  - by case_match.
  - destruct (sys_pending sys) as [ek|]; [|done]. simpl.
    by rewrite (proj1 (deleteExpired_clients ek (sys_store sys))).
Qed.
End clients.

Lemma sample_clients_ok c now : clients_ok (RegisterClient c now sample_storage).1.
Proof. apply RegisterClient_ok, NewMemoryStorage_clients_ok. Qed.

Lemma registration_evicts_only_aged_dcr_clients_witness :
  let s := (RegisterClient ("a", true) 0 sample_storage).1 in
  ms_clients (RegisterClient ("b", true) 10 s).1 !! "a" = None /\
  GetClient "b" (RegisterClient ("b", true) 10 s).1 = (Some ("b", true), None).
Proof.
  intros s. split; [vm_compute; reflexivity|].
  destruct (registration_evicts_only_aged_dcr_clients ("b", true) 10 s
    (sample_clients_ok ("a", true) 0)) as (_ & Hnew & _).
  apply Hnew. vm_compute. reflexivity.
Defined.

Lemma preprovisioned_client_kept_witness :
  GetClient "a" (sys_store (system_run [ECall (OpRegisterClient ("b", true) 10); ECollect 20; EDelete]
    (mkSystem (RegisterClient ("a", false) 0 sample_storage).1 None))) = (Some ("a", false), None).
Proof.
  apply (preprovisioned_client_kept
    [ECall (OpRegisterClient ("b", true) 10); ECollect 20; EDelete]
    (mkSystem (RegisterClient ("a", false) 0 sample_storage).1 None) "a" ("a", false)).
  - apply (sample_clients_ok ("a", false) 0).
  - vm_compute. reflexivity.
  - reflexivity.
  - intros c' now Hin. repeat (apply elem_of_cons in Hin as [Hin|Hin]; [simplify_eq/=; done|]).
    by apply elem_of_nil in Hin.
Defined.
