(* ===== verification/StorageTokens.v ===== *)
(** * Codes, tokens and the cleanup of the in-memory storage

    What one uninterrupted cleanup removes, and what holds over any sequence of
    calls interleaved with the two phases of the cleanup: a used authorization
    code is never accepted again, a revoked grant stays revoked, a client
    assertion cannot be replayed, and stored tokens and pending authorizations
    stay available for as long as they should and no longer. *)

From S2P Require Import Prelude StorageTypes MemoryStorage.

Section tokens.
Context {Client Requester : Type} `{Fosite Client Requester}.
Implicit Types s : MemoryStorage Client Requester.
Implicit Types es : list (event Client Requester).

(** ** Induction over a run *)
Lemma system_run_ind (P : system Client Requester -> Prop) (ok : event Client Requester -> Prop) es sys :
  (forall e sys, ok e -> P sys -> P (system_do sys e)) ->
  Forall ok es -> P sys -> P (system_run es sys).
Proof.
  intros Hstep Hes. revert sys. induction Hes as [|e es He Hes IH]; intros sys HP; [done|].
  apply IH. by apply Hstep.
Qed.

Lemma decide_or_not (x y : string) : x = y \/ x ≠ y.
Proof. destruct (decide (x = y)); auto. Qed.

Lemma NewMemoryStorage_empty opts :
  let s := NewMemoryStorage (Client := Client) (Requester := Requester) opts in
  ms_authCodes s = ∅ /\ ms_invalidatedCodes s = ∅.
Proof.
  unfold NewMemoryStorage. set (s := mkStorage _ _ _ _ _ _ _ _ _ _ _ _ _ _ _ _).
  assert (ms_authCodes s = ∅ /\ ms_invalidatedCodes s = ∅) as Hs by done.
  revert Hs. generalize s. clear s. induction opts as [|o opts IH]; intros s Hs; simpl; [done|].
  apply IH. by destruct o.
Qed.

(** ** One uninterrupted cleanup *)
Definition code_expired (now : Time) s (code : string) : bool :=
  match ms_authCodes s !! code with Some e => expired now code e | None => false end.

Lemma delete_codes_and_marks now s :
  delete_keys (keys_if (expired now) (ms_invalidatedCodes s))
    (delete_keys (keys_if (expired now) (ms_authCodes s)) (ms_invalidatedCodes s)) =
  delete_if (fun k e => expired now k e || code_expired now s k) (ms_invalidatedCodes s).
Proof.
  apply map_eq. intros k. rewrite !lookup_delete_keys, lookup_delete_if. unfold code_expired.
  destruct (ms_invalidatedCodes s !! k) as [e|] eqn:Ee; simpl; [|by repeat case_decide].
  destruct (decide (k ∈ keys_if (expired now) (ms_invalidatedCodes s))) as [Hk|Hk].
  - apply elem_of_keys_if in Hk as (e' & ? & HP). simplify_eq. by rewrite HP.
  - rewrite elem_of_keys_if in Hk. destruct (expired now k e) eqn:HP; [naive_solver|]. simpl.
    case_decide as Hc; rewrite elem_of_keys_if in Hc.
    + destruct Hc as (c & -> & HPc). by rewrite HPc.
    + destruct (ms_authCodes s !! k) as [c|] eqn:Ec; [|done].
      destruct (expired now k c) eqn:HPc; [|done]. destruct Hc. eauto.
Qed.

Lemma nothing_expired_true ek :
  nothing_expired ek = true ->
  ek_authCodes ek = [] /\ ek_invalidatedCodes ek = [] /\ ek_accessTokens ek = [] /\
  ek_refreshTokens ek = [] /\ ek_pkceRequests ek = [] /\ ek_upstreamTokens ek = [] /\
  ek_pendingAuthorizations ek = [] /\ ek_clientAssertionJWTs ek = [].
Proof.
  unfold nothing_expired. rewrite !andb_true_iff, !bool_decide_eq_true. tauto.
Qed.

(** The early return changes nothing the deletions would not. *)
Lemma deleteExpired_fields ek s :
  let s' := deleteExpired ek s in
  ms_authCodes s' = delete_keys (ek_authCodes ek) (ms_authCodes s) /\
  ms_invalidatedCodes s' = delete_keys (ek_invalidatedCodes ek)
    (delete_keys (ek_authCodes ek) (ms_invalidatedCodes s)) /\
  ms_accessTokens s' = delete_keys (ek_accessTokens ek) (ms_accessTokens s) /\
  ms_refreshTokens s' = delete_keys (ek_refreshTokens ek) (ms_refreshTokens s) /\
  ms_pkceRequests s' = delete_keys (ek_pkceRequests ek) (ms_pkceRequests s) /\
  ms_upstreamTokens s' = delete_keys (ek_upstreamTokens ek) (ms_upstreamTokens s) /\
  ms_pendingAuthorizations s' =
    delete_keys (ek_pendingAuthorizations ek) (ms_pendingAuthorizations s) /\
  ms_clientAssertionJWTs s' =
    delete_keys (ek_clientAssertionJWTs ek) (ms_clientAssertionJWTs s) /\
  ms_clients s' = ms_clients s /\ ms_clientOrder s' = ms_clientOrder s /\
  ms_users s' = ms_users s /\ ms_providerIdentities s' = ms_providerIdentities s /\
  ms_dcrCredentials s' = ms_dcrCredentials s.
Proof.
  unfold deleteExpired. destruct (nothing_expired ek) eqn:E; [|by split_and!].
  apply nothing_expired_true in E as (-> & -> & -> & -> & -> & -> & -> & ->). by split_and!.
Qed.

(** A cleanup that no call interrupts removes exactly the expired codes,
    tokens, PKCE requests, pending authorizations and assertion identifiers, the
    upstream tokens past their storage lifetime but never those without one, and
    a used-code mark only when it or its code has expired; it touches nothing
    else. *)
Theorem cleanup_removes_exactly_expired now s :
  let s' := cleanupExpired now s in
  ms_authCodes s' = delete_if (expired now) (ms_authCodes s) /\
  ms_invalidatedCodes s' =
    delete_if (fun k e => expired now k e || code_expired now s k) (ms_invalidatedCodes s) /\
  ms_accessTokens s' = delete_if (expired now) (ms_accessTokens s) /\
  ms_refreshTokens s' = delete_if (expired now) (ms_refreshTokens s) /\
  ms_pkceRequests s' = delete_if (expired now) (ms_pkceRequests s) /\
  ms_upstreamTokens s' = delete_if (upstream_expired now) (ms_upstreamTokens s) /\
  ms_pendingAuthorizations s' = delete_if (expired now) (ms_pendingAuthorizations s) /\
  ms_clientAssertionJWTs s' = delete_if (jwt_expired now) (ms_clientAssertionJWTs s) /\
  ms_clients s' = ms_clients s /\ ms_clientOrder s' = ms_clientOrder s /\
  ms_users s' = ms_users s /\ ms_providerIdentities s' = ms_providerIdentities s /\
  ms_dcrCredentials s' = ms_dcrCredentials s.
Proof.
  intros s'. subst s'. unfold cleanupExpired.
  destruct (deleteExpired_fields (collectExpired now s) s)
    as (-> & -> & -> & -> & -> & -> & -> & -> & ?).
  simpl. by rewrite delete_codes_and_marks, !delete_keys_if.
Qed.

(** ** Authorization codes are used at most once *)

(** The authorization codes in play: [code] never outlives [E], and a used-code
    mark of [code] lasts at least until [E].  The server's configuration bounds
    the lifetime of a code by ten minutes, and a mark lasts thirty. *)
Definition code_lifetime (code : string) (E : Time) (e : event Client Requester) : Prop :=
  match e with
  | ECall (OpCreateCode c request now now') =>
      c = code -> (getExpirationFromRequester request AuthorizeCode DefaultAuthCodeTTL now' <= E)%Z
  | ECall (OpInvalidateCode c now) => c = code -> (E <= now + DefaultInvalidatedCodeTTL)%Z
  | _ => True
  end.

Definition creates_code (code : string) (e : event Client Requester) : Prop :=
  match e with ECall (OpCreateCode c _ _ _) => c = code | _ => False end.

Record code_inv (code : string) (E : Time) (sys : system Client Requester) : Prop := {
  ci_code : forall c, ms_authCodes (sys_store sys) !! code = Some c -> (te_expiresAt c <= E)%Z;
  ci_mark : forall m, ms_invalidatedCodes (sys_store sys) !! code = Some m ->
    (E <= te_expiresAt m)%Z /\ is_Some (ms_authCodes (sys_store sys) !! code);
  ci_pending : forall ek, sys_pending sys = Some ek ->
    code ∈ ek_invalidatedCodes ek -> code ∈ ek_authCodes ek;
}.

(** The code is gone or marked as used. *)
Definition code_spent (code : string) (sys : system Client Requester) : Prop :=
  ms_authCodes (sys_store sys) !! code = None \/
  is_Some (ms_invalidatedCodes (sys_store sys) !! code).

Definition touches_code (code : string) (op : storage_op Client Requester) : Prop :=
  match op with
  | OpCreateCode c _ _ _ | OpInvalidateCode c _ => c = code
  | _ => False
  end.

Lemma storage_do_code op s code :
  ~ touches_code code op ->
  ms_authCodes (storage_do op s).1 !! code = ms_authCodes s !! code /\
  ms_invalidatedCodes (storage_do op s).1 !! code = ms_invalidatedCodes s !! code.
Proof.
  intros Ht. destruct (match op with OpCreateCode _ _ _ _ | OpInvalidateCode _ _ => true | _ => false end)
    eqn:E; [|storage_frame op].
  destruct op; try done; simpl in *; unfold CreateAuthorizeCodeSession, InvalidateAuthorizeCodeSession;
    repeat case_match; simpl; by rewrite ?lookup_insert_ne.
Qed.

Lemma code_inv_step code E e sys :
  code_lifetime code E e -> code_inv code E sys -> code_inv code E (system_do sys e).
Proof.
  intros Hl [Hc Hm Hp]. destruct e as [op|now|]; simpl.
  - assert (touches_code code op \/ ~ touches_code code op) as [Ht|Ht]
      by (destruct op; simpl; try tauto; apply decide_or_not).
    2: { destruct (storage_do_code op (sys_store sys) code Ht) as [E1 E2].
         split; simpl; [by rewrite E1|by rewrite E1, E2|done]. }
    destruct op; try done; simpl in *; subst.
    + unfold CreateAuthorizeCodeSession. case_decide; [done|].
      destruct request as [r|]; [|done]. split; simpl; [| |done]; rewrite lookup_insert_eq.
      * intros c [= <-]. by apply Hl.
      * intros m Hm'. split; [by apply (Hm m)|done].
    + unfold InvalidateAuthorizeCodeSession.
      destruct (ms_authCodes _ !! code) as [c|] eqn:Ec; [|by split; simpl; rewrite ?Ec].
      split; simpl; [by rewrite Ec| |done]. rewrite lookup_insert_eq, Ec.
      intros m [= <-]. split; [by apply Hl|done].
  - destruct (sys_pending sys) as [ek|] eqn:Ep; [by split; rewrite ?Ep|]. split; simpl; [done|done|].
    intros ek [= <-]. simpl. rewrite !elem_of_keys_if. intros (m & Em & HPm).
    destruct (Hm m Em) as [Hle [c Ec]]. exists c. split; [done|].
    unfold expired in *. apply time.After_spec in HPm. apply time.After_spec.
    pose proof (Hc c Ec). lia.
  - destruct (sys_pending sys) as [ek|] eqn:Ep; [|by split; rewrite ?Ep].
    specialize (Hp ek eq_refl).
    destruct (deleteExpired_fields ek (sys_store sys)) as (E1 & E2 & _).
    split; simpl; [| |done]; rewrite ?E1, ?E2, ?lookup_delete_keys; by repeat case_decide; try done; auto.
Qed.

Lemma code_spent_step code E e sys :
  ~ creates_code code e -> code_inv code E sys -> code_spent code sys ->
  code_spent code (system_do sys e).
Proof.
  intros Hnc [Hc Hm Hp] Hs. unfold code_spent in *. destruct e as [op|now|]; simpl.
  - assert (touches_code code op \/ ~ touches_code code op) as [Ht|Ht]
      by (destruct op; simpl; try tauto; apply decide_or_not).
    2: { by destruct (storage_do_code op (sys_store sys) code Ht) as [-> ->]. }
    destruct op; try done; simpl in *; subst; unfold InvalidateAuthorizeCodeSession.
    destruct (ms_authCodes _ !! code) eqn:Ec; simpl; [|by left].
    right. by rewrite lookup_insert_eq.
  - by destruct (sys_pending sys).
  - destruct (sys_pending sys) as [ek|] eqn:Ep; [|done]. simpl.
    specialize (Hp ek eq_refl).
    destruct (deleteExpired_fields ek (sys_store sys)) as (-> & -> & _).
    rewrite !lookup_delete_keys. repeat case_decide; tauto.
Qed.

(** C28. Once an authorization code has been invalidated, no later exchange of it
    succeeds, whatever calls are made and however the cleanup interleaves with
    them: the code reads as already used or as unknown.  (Provided a code does
    not outlive the mark of its use, and is not issued a second time.) *)
Theorem used_code_never_accepted opts code E es1 t0 es2 :
  Forall (code_lifetime code E) (es1 ++ ECall (OpInvalidateCode code t0) :: es2) ->
  Forall (fun e => ~ creates_code code e) es2 ->
  let sys := system_run (es1 ++ ECall (OpInvalidateCode code t0) :: es2)
               (mkSystem (NewMemoryStorage opts) None) in
  GetAuthorizeCodeSession code (sys_store sys) =
    (None, Some (ErrNotFound "Authorization code not found")) \/
  exists r, GetAuthorizeCodeSession code (sys_store sys) = (Some r, Some ErrInvalidatedAuthorizeCode).
Proof.
  intros [Hes1 [Hinv Hes2]%Forall_cons_1]%Forall_app Hnc sys.
  assert (code_inv code E sys /\ code_spent code sys) as [_ Hs].
  { unfold sys, system_run. rewrite foldl_app. cbn [foldl].
    set (sys1 := foldl system_do _ es1).
    assert (code_inv code E sys1) as Hi1.
    { apply (system_run_ind (code_inv code E) (code_lifetime code E)); [|done|].
      - intros e sy. apply code_inv_step.
      - destruct (NewMemoryStorage_empty opts) as (E1 & E2). split; simpl; rewrite ?E1, ?E2; done. }
    apply (system_run_ind (fun sy => code_inv code E sy /\ code_spent code sy)
      (fun e => code_lifetime code E e /\ ~ creates_code code e)).
    - intros e sy [Hl Hn] [Hi Hsp]. split; [by apply code_inv_step|by eapply code_spent_step].
    - apply Forall_and. done.
    - split; [by apply code_inv_step|]. unfold code_spent. simpl.
      unfold InvalidateAuthorizeCodeSession.
      destruct (ms_authCodes (sys_store sys1) !! code) eqn:Ec; [right|by left].
      simpl. by rewrite lookup_insert_eq. }
  unfold GetAuthorizeCodeSession, code_spent in *.
  destruct (ms_authCodes _ !! code) as [c|]; [|by left]. right.
  destruct Hs as [|[m ->]]; [done|]. eauto.
Qed.

(** ** Entries survive until they expire *)

(** One of the maps the cleanup sweeps, its key list and its expiry test. *)
Record swept_map (K V : Type) `{Countable K} := {
  sw_map : MemoryStorage Client Requester -> gmap K V;
  sw_keys : expiredKeys -> list K;
  sw_expired : Time -> K -> V -> bool;
  sw_collect : forall now s, sw_keys (collectExpired now s) = keys_if (sw_expired now) (sw_map s);
  sw_delete : forall ek s, sw_map (deleteExpired ek s) = delete_keys (sw_keys ek) (sw_map s);
}.

Program Definition swept_upstream : swept_map upstreamKey (timedEntry (option UpstreamTokens)) := {|
  sw_map := ms_upstreamTokens; sw_keys := ek_upstreamTokens; sw_expired := upstream_expired |}.
Next Obligation. done. Qed.
Next Obligation. intros. apply deleteExpired_fields. Qed.

Program Definition swept_pending : swept_map string (timedEntry PendingAuthorization) := {|
  sw_map := ms_pendingAuthorizations; sw_keys := ek_pendingAuthorizations; sw_expired := expired |}.
Next Obligation. done. Qed.
Next Obligation. intros. apply deleteExpired_fields. Qed.

Program Definition swept_jwts : swept_map string Time := {|
  sw_map := ms_clientAssertionJWTs; sw_keys := ek_clientAssertionJWTs; sw_expired := jwt_expired |}.
Next Obligation. done. Qed.
Next Obligation. intros. apply deleteExpired_fields. Qed.

(** The calls of a run satisfy [okop], and its cleanups start by time [t]. *)
Definition event_ok (okop : storage_op Client Requester -> Prop) (t : Time)
    (e : event Client Requester) : Prop :=
  match e with
  | ECall op => okop op
  | ECollect now => (now <= t)%Z
  | EDelete => True
  end.

(** A cleanup that has not yet deleted what it collected will not delete [k]. *)
Definition not_doomed {K V} `{Countable K} (sw : swept_map K V) (k : K)
    (sys : system Client Requester) : Prop :=
  forall ek, sys_pending sys = Some ek -> k ∉ sw_keys _ _ sw ek.

Lemma entry_survives {K V} `{Countable K} (sw : swept_map K V) okop t k v es sys :
  (forall op s, okop op -> sw_map _ _ sw s !! k = Some v ->
    sw_map _ _ sw (storage_do op s).1 !! k = Some v) ->
  (forall now, (now <= t)%Z -> sw_expired _ _ sw now k v = false) ->
  Forall (event_ok okop t) es -> not_doomed sw k sys ->
  sw_map _ _ sw (sys_store sys) !! k = Some v ->
  sw_map _ _ sw (sys_store (system_run es sys)) !! k = Some v.
Proof.
  intros Hop Hexp Hes Hnd Hk.
  apply (system_run_ind (fun sys => not_doomed sw k sys /\ sw_map _ _ sw (sys_store sys) !! k = Some v)
    (event_ok okop t)); [|done|done].
  clear es sys Hes Hnd Hk. intros e sys He [Hnd Hk]. destruct e as [op|now|]; simpl in *.
  - split; [done|]. by apply Hop.
  - destruct (sys_pending sys) eqn:Ep; [done|]. split; [|done].
    intros ek [= <-]. rewrite (sw_collect _ _ sw), elem_of_keys_if. intros (v' & Hv' & HP).
    rewrite Hk in Hv'. simplify_eq. by rewrite Hexp in HP.
  - destruct (sys_pending sys) as [ek|] eqn:Ep; [|done]. split; [done|]. simpl.
    rewrite (sw_delete _ _ sw), lookup_delete_keys, decide_False by (by apply Hnd). done.
Qed.

(** ** Client assertions *)

Definition is_set_jwt (op : storage_op Client Requester) : bool :=
  match op with OpSetJWT _ _ _ => true | _ => false end.

Lemma storage_do_jwts op s :
  is_set_jwt op = false -> ms_clientAssertionJWTs (storage_do op s).1 = ms_clientAssertionJWTs s.
Proof. intros Ht. storage_frame op. Qed.

(** Other calls by time [t]. *)
Definition other_jwt (jti : string) (t : Time) (op : storage_op Client Requester) : Prop :=
  match op with OpSetJWT j _ now => j ≠ jti /\ (now <= t)%Z | _ => True end.

(** Once a JWT identifier is recorded with its expiry, it is refused as known
    at every time before that expiry, through any calls and cleanups that happen
    by then and do not record the same identifier again. *)
Theorem client_assertion_not_replayable jti exp now0 t es sys :
  (t < exp)%Z -> not_doomed swept_jwts jti sys ->
  Forall (event_ok (other_jwt jti t) t) es ->
  ClientAssertionJWTValid jti t
    (sys_store (system_run (ECall (OpSetJWT jti exp now0) :: es) sys)) = Some ErrJTIKnown.
Proof.
  intros Ht Hnd Hes. unfold ClientAssertionJWTValid.
  assert (ms_clientAssertionJWTs (sys_store (system_run (ECall (OpSetJWT jti exp now0) :: es) sys))
    !! jti = Some exp) as ->.
  { apply (entry_survives swept_jwts (other_jwt jti t) t jti exp es
      (system_do sys (ECall (OpSetJWT jti exp now0)))); [| |exact Hes|exact Hnd|]; simpl.
    - intros op s Hop Hs. destruct (is_set_jwt op) eqn:E; [|by rewrite storage_do_jwts].
      destruct op; try done. destruct Hop as [Hne Hn]. simpl.
      rewrite lookup_insert_ne by done. apply lookup_delete_if_Some. split; [done|].
      unfold jwt_expired. apply time.After_false. lia.
    - intros now Hnow. unfold jwt_expired. apply time.After_false. lia.
    - by rewrite lookup_insert_eq. }
  unfold time.Before. by apply Z.ltb_lt in Ht as ->.
Qed.

(** ** Pending authorizations *)
Definition touches_pending (state : string) (op : storage_op Client Requester) : Prop :=
  match op with OpStorePending st _ _ | OpDeletePending st => st = state | _ => False end.

Lemma storage_do_pending state op s :
  ~ touches_pending state op ->
  ms_pendingAuthorizations (storage_do op s).1 !! state = ms_pendingAuthorizations s !! state.
Proof.
  intros Ht. destruct (match op with OpStorePending _ _ _ | OpDeletePending _ => true | _ => false end)
    eqn:E; [|by f_equal; storage_frame op].
  destruct op; try done; simpl in *; unfold StorePendingAuthorization, DeletePendingAuthorization;
    repeat case_match; simpl; by rewrite ?lookup_insert_ne, ?lookup_delete_ne.
Qed.

(** A pending authorization is found again, field for field, by the state it
    was stored under at any time up to ten minutes later, and never after that,
    whatever else happens in between (short of storing or deleting that state
    again). *)
Theorem pending_authorization_window state p t0 t es sys :
  state ≠ "" -> not_doomed swept_pending state sys ->
  Forall (event_ok (fun op => ~ touches_pending state op) t) es ->
  let s := sys_store (system_run (ECall (OpStorePending state (Some p) t0) :: es) sys) in
  ((t <= t0 + DefaultPendingAuthorizationTTL)%Z -> LoadPendingAuthorization state t s = (Some p, None)) /\
  ((t0 + DefaultPendingAuthorizationTTL < t)%Z ->
    LoadPendingAuthorization state t s =
      (None, Some (ErrNotFound "Pending authorization not found")) \/
    LoadPendingAuthorization state t s = (None, Some ErrExpired)).
Proof.
  intros Hst Hnd Hes s. set (e := mkEntry p t0 (t0 + DefaultPendingAuthorizationTTL)%Z).
  assert (ms_pendingAuthorizations (storage_do (OpStorePending state (Some p) t0) (sys_store sys)).1
    !! state = Some e) as Hstored.
  { simpl. unfold StorePendingAuthorization. rewrite decide_False by done. simpl.
    by rewrite lookup_insert_eq. }
  unfold LoadPendingAuthorization. split; intros Ht.
  - assert (ms_pendingAuthorizations s !! state = Some e) as ->.
    { apply (entry_survives swept_pending (fun op => ~ touches_pending state op) t state e es
        (system_do sys (ECall (OpStorePending state (Some p) t0)))); [| |done|exact Hnd|done]; simpl.
      - intros op s' Hop. by rewrite storage_do_pending.
      - intros now Hnow. unfold expired. apply time.After_false. simpl. lia. }
    by assert (time.After t (te_expiresAt e) = false) as -> by (apply time.After_false; simpl; lia).
  - assert (ms_pendingAuthorizations s !! state = None \/
      ms_pendingAuthorizations s !! state = Some e) as [->| ->]; [|by left|].
    { apply (system_run_ind (fun sys => ms_pendingAuthorizations (sys_store sys) !! state = None \/
        ms_pendingAuthorizations (sys_store sys) !! state = Some e)
        (event_ok (fun op => ~ touches_pending state op) t) es
        (system_do sys (ECall (OpStorePending state (Some p) t0)))); [|done|by right].
      intros [op|now|] sy Hop Hsy; simpl in *.
      - by rewrite storage_do_pending.
      - by destruct (sys_pending sy).
      - destruct (sys_pending sy) as [ek|]; [|done]. simpl.
        destruct (deleteExpired_fields ek (sys_store sy)) as (_ & _ & _ & _ & _ & _ & -> & _).
        rewrite lookup_delete_keys. case_decide; auto. }
    right. by assert (time.After t (te_expiresAt e) = true) as -> by (apply time.After_spec; simpl; lia).
Qed.

(** ** Upstream tokens *)
Definition may_touch_upstream (sid pn uid : string) (op : storage_op Client Requester) : Prop :=
  match op with
  | OpStoreUpstream s p _ _ | OpDeleteUpstreamForProvider s p => s = sid /\ p = pn
  | OpDeleteUpstream s => s = sid
  | OpDeleteUser u => u = uid
  | _ => False
  end.

Lemma storage_do_upstream sid pn e uid op s :
  (forall t, te_value e = Some t -> ut_UserID t = uid) ->
  ~ may_touch_upstream sid pn uid op ->
  let key := {| uk_sessionID := sid; uk_providerName := pn |} in
  ms_upstreamTokens s !! key = Some e -> ms_upstreamTokens (storage_do op s).1 !! key = Some e.
Proof.
  intros Hu Ht key Hk. destruct (match op with OpStoreUpstream _ _ _ _ | OpDeleteUpstreamForProvider _ _
    | OpDeleteUpstream _ | OpDeleteUser _ => true | _ => false end) eqn:E.
  2: { rewrite <- Hk. f_equal. storage_frame op. }
  destruct op as [| | | | | | | | | | | | | |s' p'|s'|s' p'| | | |u| | |]; try done; simpl in *.
  - unfold StoreUpstreamTokens. repeat (case_decide; [done|]). simpl.
    rewrite lookup_insert_ne; [done|]. unfold key. intros [= -> ->]. tauto.
  - unfold DeleteUpstreamTokens. assert (delete_if (of_session s') (ms_upstreamTokens s) !! key = Some e)
      as Hd by (apply lookup_delete_if_Some; split; [done|]; by apply bool_decide_eq_false, not_eq_sym).
    by case_match.
  - unfold DeleteUpstreamTokensForProvider. repeat (case_decide; [done|]). simpl.
    rewrite lookup_delete_ne; [done|]. unfold key. intros [= -> ->]. tauto.
  - unfold DeleteUser. case_match; [|done]. simpl. apply lookup_delete_if_Some. split; [done|].
    unfold tokens_of_user. destruct (te_value e) as [tok|]; [|done].
    apply bool_decide_eq_false. rewrite (Hu tok) by done. congruence.
Qed.

(** Upstream tokens that expire are returned to the session and provider they
    were stored for, unchanged, for thirty days past the expiry of the access
    token, whatever else happens (short of overwriting or deleting that row, or
    deleting the user); from the moment the access token expires they come with
    [ErrExpired], so that the refresh token can still be used. *)
Theorem upstream_tokens_survive sid pn tok now0 t es sys :
  sid ≠ "" -> pn ≠ "" -> ut_ExpiresAt tok ≠ 0%Z ->
  (t <= ut_ExpiresAt tok + DefaultRefreshTokenTTL)%Z ->
  not_doomed swept_upstream {| uk_sessionID := sid; uk_providerName := pn |} sys ->
  Forall (event_ok (fun op => ~ may_touch_upstream sid pn (ut_UserID tok) op) t) es ->
  GetUpstreamTokens sid pn t
    (sys_store (system_run (ECall (OpStoreUpstream sid pn (Some tok) now0) :: es) sys)) =
  (Some tok, if (ut_ExpiresAt tok <? t)%Z then Some ErrExpired else None).
Proof.
  intros Hsid Hpn Hexp Ht Hnd Hes. unfold GetUpstreamTokens. rewrite !decide_False by done.
  set (key := {| uk_sessionID := sid; uk_providerName := pn |}) in *.
  set (e := mkEntry (Some tok) now0 (ut_ExpiresAt tok + DefaultRefreshTokenTTL)%Z).
  assert (time.IsZero (ut_ExpiresAt tok) = false) as Hz by (by apply Z.eqb_neq).
  assert (ms_upstreamTokens (sys_store (system_run
    (ECall (OpStoreUpstream sid pn (Some tok) now0) :: es) sys)) !! key = Some e) as ->.
  { apply (entry_survives swept_upstream
      (fun op => ~ may_touch_upstream sid pn (ut_UserID tok) op) t key e es
      (system_do sys (ECall (OpStoreUpstream sid pn (Some tok) now0)))); [| |done|exact Hnd|]; simpl.
    - intros op s Hop. apply (storage_do_upstream sid pn e (ut_UserID tok)); [|done].
      by intros tok' [= <-].
    - intros now Hnow. unfold upstream_expired. apply andb_false_iff. right.
      apply time.After_false. simpl. lia.
    - unfold StoreUpstreamTokens. rewrite !decide_False by done. simpl. rewrite Hz.
      by rewrite lookup_insert_eq. }
  simpl. rewrite Hz. simpl. unfold time.After. by destruct (_ <? t)%Z.
Qed.

(** ** The latest tokens of a user *)
Definition tokens_match (userID providerID : string)
    (entry : upstreamKey * timedEntry (option UpstreamTokens)) (t : UpstreamTokens) : Prop :=
  te_value entry.2 = Some t /\ ut_UserID t = userID /\ ut_ProviderID t = providerID.

Lemma compareExpiry_trans a b c :
  (0 <= compareExpiry a b)%Z -> (0 <= compareExpiry b c)%Z -> (0 <= compareExpiry a c)%Z.
Proof.
  unfold compareExpiry, time.IsZero, time.Compare.
  destruct (Z.eqb_spec a 0), (Z.eqb_spec b 0), (Z.eqb_spec c 0); simpl; try lia.
  destruct (Z.compare_spec a b), (Z.compare_spec b c), (Z.compare_spec a c); lia.
Qed.

Lemma compareExpiry_total a b : (0 < compareExpiry a b)%Z \/ (0 <= compareExpiry b a)%Z.
Proof.
  unfold compareExpiry, time.IsZero, time.Compare.
  destruct (Z.eqb_spec a 0), (Z.eqb_spec b 0); simpl; try lia.
  destruct (Z.compare_spec a b), (Z.compare_spec b a); lia.
Qed.

Lemma compareExpiry_refl a : compareExpiry a a = 0%Z.
Proof.
  unfold compareExpiry, time.IsZero, time.Compare.
  destruct (Z.eqb_spec a 0); simpl; [done|]. by rewrite Z.compare_refl.
Qed.

Lemma laterTokens_keeps userID providerID w en t :
  w = Some t \/ tokens_match userID providerID en t -> exists t',
    laterTokens userID providerID w en = Some t' /\
    (0 <= compareExpiry (ut_ExpiresAt t') (ut_ExpiresAt t))%Z.
Proof.
  intros Hc. unfold laterTokens. assert (forall x, exists t', Some x = Some t' /\
    (0 <= compareExpiry (ut_ExpiresAt t') (ut_ExpiresAt x))%Z) as Hrefl.
  { intros x. exists x. by rewrite compareExpiry_refl. }
  destruct Hc as [->|(-> & -> & ->)].
  - destruct (te_value en.2) as [x|]; [|apply Hrefl]. case_match; [apply Hrefl|].
    case_match eqn:Hlt; [|apply Hrefl]. apply Z.ltb_lt in Hlt. exists x. split; [done|lia].
  - rewrite !bool_decide_eq_false_2 by (intros Hn; by apply Hn). simpl.
    destruct w as [w|]; [|apply Hrefl]. case_match eqn:Hlt; [apply Hrefl|].
    exists w. split; [done|]. apply Z.ltb_ge in Hlt.
    destruct (compareExpiry_total (ut_ExpiresAt t) (ut_ExpiresAt w)); [lia|done].
Qed.

Lemma laterTokens_spec userID providerID order w :
  let r := foldl (laterTokens userID providerID) w order in
  (forall t, w = Some t \/ (exists en, en ∈ order /\ tokens_match userID providerID en t) ->
    exists t', r = Some t' /\ (0 <= compareExpiry (ut_ExpiresAt t') (ut_ExpiresAt t))%Z) /\
  (forall t', r = Some t' -> w = Some t' \/ exists en, en ∈ order /\ tokens_match userID providerID en t').
Proof.
  revert w. induction order as [|en order IH]; intros w; simpl.
  { split; [|by left]. intros t [->|(en & Hin & _)]; [|by apply elem_of_nil in Hin].
    exists t. by rewrite compareExpiry_refl. }
  destruct (IH (laterTokens userID providerID w en)) as [IH1 IH2].
  split.
  - intros t Ht. assert (w = Some t \/ tokens_match userID providerID en t \/
      exists en', en' ∈ order /\ tokens_match userID providerID en' t) as Hc by set_solver.
    destruct Hc as [Hc|[Hc|Hc]]; [| |by apply IH1; right].
    all: destruct (laterTokens_keeps userID providerID w en t) as (t1 & E1 & Hle1); [auto|];
      destruct (IH1 t1) as (t2 & E2 & Hle2); [auto|]; exists t2; split; [done|];
      by eapply compareExpiry_trans.
  - intros t' Hr. destruct (IH2 t' Hr) as [Hl|(en' & Hin & Hm)]; [|set_solver].
    unfold laterTokens in Hl. destruct (te_value en.2) as [t|] eqn:Et; [|by left].
    case_match eqn:Eb; [by left|]. apply orb_false_iff in Eb as [E1 E2].
    apply bool_decide_eq_false in E1, E2. apply dec_stable in E1, E2.
    assert (t' = t \/ w = Some t') as [->|]; [|right; exists en|by left].
    { destruct w as [w|]; [case_match|]; naive_solver. }
    split; [set_solver|]. by repeat split.
Qed.

(** Looking up a user's tokens at a provider returns stored tokens of that
    user and provider that expire no earlier than any other such tokens (tokens
    that never expire counting as latest), and reports them missing exactly when
    there are none, in whatever order the rows are visited. *)
Theorem latest_upstream_tokens userID providerID order s :
  userID ≠ "" -> providerID ≠ "" -> order ≡ₚ map_to_list (ms_upstreamTokens s) ->
  (exists t, GetLatestUpstreamTokensForUser userID providerID order = (Some t, None) /\
     (exists k e, ms_upstreamTokens s !! k = Some e /\ tokens_match userID providerID (k, e) t) /\
     forall k e t', ms_upstreamTokens s !! k = Some e -> tokens_match userID providerID (k, e) t' ->
       (0 <= compareExpiry (ut_ExpiresAt t) (ut_ExpiresAt t'))%Z) \/
  (GetLatestUpstreamTokensForUser userID providerID order =
     (None, Some (ErrNotFound "Upstream tokens not found")) /\
   forall k e t', ms_upstreamTokens s !! k = Some e -> ~ tokens_match userID providerID (k, e) t').
Proof.
  intros Hu Hp Hord. unfold GetLatestUpstreamTokensForUser. rewrite !decide_False by done.
  destruct (laterTokens_spec userID providerID order None) as [Hmax Hin].
  assert (forall k e, (k, e) ∈ order <-> ms_upstreamTokens s !! k = Some e) as Hel
    by (intros; by rewrite Hord, elem_of_map_to_list).
  destruct (foldl _ None order) as [t|].
  - left. exists t. split; [done|]. split.
    + destruct (Hin t) as [|([k e] & Hke & Hm)]; [done|done|]. exists k, e. by rewrite <- Hel.
    + intros k e t' Hk Hm. destruct (Hmax t') as (t2 & [= <-] & Hle); [|done].
      right. exists (k, e). by rewrite Hel.
  - right. split; [done|]. intros k e t' Hk Hm. destruct (Hmax t') as (t2 & ? & _); [|done].
    right. exists (k, e). by rewrite Hel.
Qed.

(** ** Revocation *)
Definition issues_for (requestID : string) (e : event Client Requester) : Prop :=
  match e with
  | ECall (OpCreateAccess _ (Some r) _ _) | ECall (OpCreateRefresh _ (Some r) _ _) =>
      Requester_GetID r = requestID
  | _ => False
  end.

(** No token of the grant is stored. *)
Definition grant_revoked (requestID : string) (sys : system Client Requester) : Prop :=
  map_Forall (fun _ e => Requester_GetID (te_value e) ≠ requestID) (ms_accessTokens (sys_store sys)) /\
  map_Forall (fun _ e => Requester_GetID (te_value e) ≠ requestID) (ms_refreshTokens (sys_store sys)).

Lemma map_Forall_subseteq {V} (P : string -> V -> Prop) (m m' : gmap string V) :
  m' ⊆ m -> map_Forall P m -> map_Forall P m'.
Proof. intros Hsub HP k v Hk. apply HP. by eapply lookup_weaken. Qed.

Lemma delete_keys_subseteq {V} ks (m : gmap string V) : delete_keys ks m ⊆ m.
Proof.
  apply map_subseteq_spec. intros k v. rewrite lookup_delete_keys. by case_decide.
Qed.

Lemma storage_do_grant requestID op s pend :
  ~ issues_for requestID (ECall op) -> grant_revoked requestID (mkSystem s pend) ->
  grant_revoked requestID (mkSystem (storage_do op s).1 pend).
Proof.
  intros Hi [Ha Hr]. unfold grant_revoked in *. simpl in *.
  destruct (match op with OpCreateAccess _ _ _ _ | OpDeleteAccess _ | OpCreateRefresh _ _ _ _
    | OpDeleteRefresh _ | OpRotate _ _ | OpRevokeAccess _ | OpRevokeRefresh _ => true
    | _ => false end) eqn:E.
  2: { assert (ms_accessTokens (storage_do op s).1 = ms_accessTokens s) as -> by storage_frame op.
       assert (ms_refreshTokens (storage_do op s).1 = ms_refreshTokens s) as -> by storage_frame op.
       done. }
  destruct op; try done; simpl in *;
    unfold CreateAccessTokenSession, DeleteAccessTokenSession, CreateRefreshTokenSession,
      DeleteRefreshTokenSession; repeat case_match; simplify_eq/=; split; try done;
    try (apply map_Forall_insert_2; done);
    try (by eapply map_Forall_subseteq; [apply delete_subseteq|]);
    by eapply map_Forall_subseteq; [apply delete_if_subseteq|].
Qed.

(** Revoking a grant's refresh and access tokens removes every token of that
    grant and no other, and from then on no lookup by any signature returns a
    token of the grant, through any calls and cleanups that do not issue a new
    token for it. *)
Theorem revoked_grant_stays_revoked requestID es s pend :
  Forall (fun e => ~ issues_for requestID e) es ->
  let s0 := (RevokeAccessToken requestID (RevokeRefreshToken requestID s).1).1 in
  (forall sig r, Requester_GetID r ≠ requestID ->
    (GetAccessTokenSession sig s = (Some r, None) <-> GetAccessTokenSession sig s0 = (Some r, None)) /\
    (GetRefreshTokenSession sig s = (Some r, None) <-> GetRefreshTokenSession sig s0 = (Some r, None))) /\
  let s1 := sys_store (system_run es (mkSystem s0 pend)) in
  forall sig r, GetAccessTokenSession sig s1 = (Some r, None) \/
      GetRefreshTokenSession sig s1 = (Some r, None) -> Requester_GetID r ≠ requestID.
Proof.
  intros Hes s0. split.
  - intros sig r Hr. unfold GetAccessTokenSession, GetRefreshTokenSession. simpl.
    rewrite !lookup_delete_if. unfold of_request.
    destruct (ms_accessTokens s !! sig) as [a|], (ms_refreshTokens s !! sig) as [b|]; simpl;
      repeat case_bool_decide; naive_solver.
  - intros s1. assert (grant_revoked requestID (system_run es (mkSystem s0 pend))) as [Ha Hr].
    { apply (system_run_ind _ (fun e => ~ issues_for requestID e)); [|done|].
      - intros [op|now|] [sy pd] Hi HG; simpl in *.
        + by apply storage_do_grant.
        + by destruct pd.
        + destruct pd as [ek|]; [|done]. unfold grant_revoked in *. simpl in *.
          destruct (deleteExpired_fields ek sy) as (_ & _ & -> & -> & _).
          split; eapply map_Forall_subseteq; [apply delete_keys_subseteq| |apply delete_keys_subseteq|];
            by destruct HG.
      - split; intros k e; simpl; rewrite lookup_delete_if_Some; intros [_ Hof];
          by apply bool_decide_eq_false in Hof. }
    intros sig r [Hg|Hg]; revert Hg; unfold GetAccessTokenSession, GetRefreshTokenSession;
      case_match eqn:Es; intros [= <-]; [by apply (Ha sig)|by apply (Hr sig)].
Qed.

(** ** A cleanup that a call interrupts

    The deletions do not test again whether the collected entries are still
    expired: tokens stored between the two phases under a key that had expired
    are deleted although they are fresh. *)
Theorem cleanup_deletes_tokens_stored_meanwhile sid pn e tok now t s :
  sid ≠ "" -> pn ≠ "" ->
  ms_upstreamTokens s !! {| uk_sessionID := sid; uk_providerName := pn |} = Some e ->
  upstream_expired now {| uk_sessionID := sid; uk_providerName := pn |} e = true ->
  GetUpstreamTokens sid pn t (sys_store (system_run
    [ECollect now; ECall (OpStoreUpstream sid pn tok now); EDelete] (mkSystem s None))) =
  (None, Some (ErrNotFound "Upstream tokens not found")).
Proof.
  intros Hsid Hpn He Hexp. unfold GetUpstreamTokens. rewrite !decide_False by done. simpl.
  destruct (deleteExpired_fields (collectExpired now s) (StoreUpstreamTokens sid pn tok now s).1)
    as (_ & _ & _ & _ & _ & -> & _).
  rewrite lookup_delete_keys, decide_True; [done|]. apply elem_of_keys_if. eauto.
Qed.
End tokens.

(** ** Instances *)
Definition sample_request : string * option Time := ("grant", Some 100%Z).

Definition sample_tokens : UpstreamTokens := {|
  ut_ProviderID := "p"; ut_AccessToken := "at"; ut_RefreshToken := "rt"; ut_IDToken := "";
  ut_ExpiresAt := 50; ut_SessionExpiresAt := 0; ut_UserID := "u"; ut_UpstreamSubject := "";
  ut_ClientID := "c" |}.

Definition sample_pending : PendingAuthorization := {|
  pa_ClientID := "c"; pa_RedirectURI := "r"; pa_State := "s"; pa_PKCEChallenge := "";
  pa_PKCEMethod := "S256"; pa_Scopes := ["openid"]; pa_InternalState := "i";
  pa_UpstreamPKCEVerifier := ""; pa_UpstreamNonce := ""; pa_UpstreamProviderName := "p";
  pa_SessionID := "sid"; pa_ResolvedUserID := ""; pa_ResolvedUserName := "";
  pa_ResolvedUserEmail := ""; pa_SingleLeg := false; pa_ChainUpstreams := []; pa_CreatedAt := 1 |}.

Abbreviation sample_system := (mkSystem sample_storage None).

Lemma used_code_never_accepted_witness :
  let sys := system_run ([ECall (OpCreateCode "code" (Some sample_request) 1 1)] ++
    ECall (OpInvalidateCode "code" 2) :: [ECollect 200; EDelete]) sample_system in
  GetAuthorizeCodeSession "code" (sys_store sys) =
    (None, Some (ErrNotFound "Authorization code not found")) \/
  exists r, GetAuthorizeCodeSession "code" (sys_store sys) = (Some r, Some ErrInvalidatedAuthorizeCode).
Proof.
  apply (used_code_never_accepted [WithMaxClients 1; WithMinClientAge 5] "code" 100
    [ECall (OpCreateCode "code" (Some sample_request) 1 1)] 2 [ECollect 200; EDelete]).
  - repeat constructor; simpl; intros _; vm_compute; discriminate.
  - repeat constructor; simpl; tauto.
Defined.

Lemma client_assertion_not_replayable_witness :
  ClientAssertionJWTValid "jti" 9 (sys_store (system_run
    (ECall (OpSetJWT "jti" 10 1) :: [ECall (OpSetJWT "other" 5 6); ECollect 9; EDelete])
    sample_system)) = Some ErrJTIKnown.
Proof.
  apply (client_assertion_not_replayable "jti" 10 1 9
    [ECall (OpSetJWT "other" 5 6); ECollect 9; EDelete] sample_system).
  - lia.
  - intros ek E. discriminate E.
  - repeat constructor; simpl; try lia. discriminate.
Defined.

Lemma pending_authorization_window_witness :
  LoadPendingAuthorization "i" 5 (sys_store (system_run
    (ECall (OpStorePending "i" (Some sample_pending) 1) :: [ECollect 4; EDelete])
    sample_system)) = (Some sample_pending, None).
Proof.
  apply (pending_authorization_window "i" sample_pending 1 5 [ECollect 4; EDelete] sample_system).
  - discriminate.
  - intros ek E. discriminate E.
  - repeat constructor; simpl; lia.
  - vm_compute. discriminate.
Defined.

Lemma upstream_tokens_survive_witness :
  GetUpstreamTokens "sid" "p" 60 (sys_store (system_run
    (ECall (OpStoreUpstream "sid" "p" (Some sample_tokens) 1) ::
     [ECall (OpDeleteUpstream "other"); ECollect 60; EDelete]) sample_system)) =
  (Some sample_tokens, Some ErrExpired).
Proof.
  apply (upstream_tokens_survive "sid" "p" sample_tokens 1 60
    [ECall (OpDeleteUpstream "other"); ECollect 60; EDelete] sample_system).
  - discriminate.
  - discriminate.
  - discriminate.
  - vm_compute. discriminate.
  - intros ek E. discriminate E.
  - repeat constructor; simpl; try lia. discriminate.
Defined.

Lemma latest_upstream_tokens_witness :
  let s := (StoreUpstreamTokens "sid" "p" (Some sample_tokens) 1 sample_storage).1 in
  exists t, GetLatestUpstreamTokensForUser "u" "p" (map_to_list (ms_upstreamTokens s)) = (Some t, None).
Proof.
  intros s. destruct (latest_upstream_tokens "u" "p" (map_to_list (ms_upstreamTokens s)) s)
    as [(t & Ht & _)|[Hn _]].
  - discriminate.
  - discriminate.
  - reflexivity.
  - exists t. exact Ht.
  - vm_compute in Hn. discriminate Hn.
Defined.

Lemma revoked_grant_stays_revoked_witness :
  let s := (CreateAccessTokenSession "sig" (Some sample_request) 1 1 sample_storage).1 in
  let s0 := (RevokeAccessToken "grant" (RevokeRefreshToken "grant" s).1).1 in
  GetAccessTokenSession "sig" s = (Some sample_request, None) /\
  forall r, GetAccessTokenSession "sig"
    (sys_store (system_run [ECollect 2; EDelete] (mkSystem s0 None))) = (Some r, None) -> r.1 ≠ "grant".
Proof.
  intros s s0. split; [vm_compute; reflexivity|]. intros r Hr.
  assert (Forall (fun e => ~ issues_for (Client := string * bool) "grant" e) [ECollect 2; EDelete])
    as Hes by (repeat constructor; simpl; tauto).
  apply (proj2 (revoked_grant_stays_revoked "grant" [ECollect 2; EDelete] s None Hes) "sig" r).
  left. exact Hr.
Defined.
