(* ===== verification/StorageUsers.v ===== *)
(** * Users, provider identities and DCR credentials of the in-memory storage

    Referential integrity between users and their linked identities over any
    sequence of calls, what deleting a user removes, and the round trip of
    dynamic-registration credentials. *)

From S2P Require Import Prelude StorageTypes MemoryStorage.

Section users.
Context {Client Requester : Type} `{Fosite Client Requester}.
Implicit Types s : MemoryStorage Client Requester.
Implicit Types es : list (event Client Requester).

(** Users are stored under their identifier, identities under the key of their
    provider and subject, and the user of an identity exists. *)
Record users_ok (s : MemoryStorage Client Requester) : Prop := {
  ok_user : forall id u, ms_users s !! id = Some u -> user_ID u = id;
  ok_identity : forall k i, ms_providerIdentities s !! k = Some i ->
    k = providerIdentityKey (pi_ProviderID i) (pi_ProviderSubject i) /\
    is_Some (ms_users s !! pi_UserID i);
}.

Lemma users_ok_frame s s' :
  ms_users s' = ms_users s -> ms_providerIdentities s' = ms_providerIdentities s ->
  users_ok s -> users_ok s'.
Proof. intros E1 E2 [? ?]. split; by rewrite ?E1, ?E2. Qed.

Definition touches_users (op : storage_op Client Requester) : bool :=
  match op with
  | OpCreateUser _ | OpDeleteUser _ | OpCreateIdentity _ | OpUpdateLastUsed _ _ _ => true
  | _ => false
  end.

Lemma storage_do_users op s :
  touches_users op = false ->
  ms_users (storage_do op s).1 = ms_users s /\
  ms_providerIdentities (storage_do op s).1 = ms_providerIdentities s.
Proof. intros Ht. storage_frame op. Qed.

Lemma CreateUser_ok u s : users_ok s -> users_ok (CreateUser u s).1.
Proof.
  intros Hok. unfold CreateUser. destruct u as [u|]; [|done]. case_decide; [done|].
  destruct (ms_users s !! user_ID u) eqn:Eu; [done|]. destruct Hok as [Hu Hi]. split; simpl.
  - intros id u'. rewrite lookup_insert. case_decide; [naive_solver|apply Hu].
  - intros k i Hk. destruct (Hi k i Hk) as [-> Hs]. split; [done|].
    rewrite lookup_insert. by case_decide.
Qed.

Lemma DeleteUser_ok id s : users_ok s -> users_ok (DeleteUser id s).1.
Proof.
  intros Hok. unfold DeleteUser. destruct (ms_users s !! id) eqn:Eu; [|done].
  destruct Hok as [Hu Hi]. split; simpl.
  - intros id' u'. rewrite lookup_delete. case_decide; [done|apply Hu].
  - intros k i [Hk Hof]%lookup_delete_if_Some. destruct (Hi k i Hk) as [-> Hs]. split; [done|].
    apply bool_decide_eq_false in Hof. by rewrite lookup_delete_ne.
Qed.

Lemma CreateProviderIdentity_ok i s : users_ok s -> users_ok (CreateProviderIdentity i s).1.
Proof.
  intros Hok. unfold CreateProviderIdentity. destruct i as [i|]; [|done].
  repeat (case_decide; [done|]). destruct (ms_users s !! pi_UserID i) as [u|] eqn:Eu; [|done].
  case_match; [done|]. destruct Hok as [Hu Hi]. split; simpl; [done|].
  intros k i'. rewrite lookup_insert. case_decide as Hk; [|apply Hi]. intros [= <-].
  by rewrite Eu.
Qed.

Lemma UpdateLastUsed_ok p q t s : users_ok s -> users_ok (UpdateProviderIdentityLastUsed p q t s).1.
Proof.
  intros Hok. unfold UpdateProviderIdentityLastUsed. case_match eqn:Ei; [|done].
  destruct Hok as [Hu Hi]. split; simpl; [done|].
  intros k i'. rewrite lookup_insert. case_decide as Hk; [|apply Hi]. intros [= <-]. simpl.
  rewrite <- Hk. by apply Hi.
Qed.

Lemma system_do_users_ok e sys : users_ok (sys_store sys) -> users_ok (sys_store (system_do sys e)).
Proof.
  intros Hok. destruct e as [op|now|]; simpl.
  - destruct (touches_users op) eqn:Ht.
    + destruct op; try done; simpl;
        auto using CreateUser_ok, DeleteUser_ok, CreateProviderIdentity_ok, UpdateLastUsed_ok.
    + destruct (storage_do_users op (sys_store sys) Ht). by apply (users_ok_frame (sys_store sys)).
  - by case_match.
  - destruct (sys_pending sys) as [ek|]; [|done]. simpl. unfold deleteExpired.
    case_match; [done|]. by apply (users_ok_frame (sys_store sys)).
Qed.

Lemma NewMemoryStorage_users_ok opts :
  users_ok (NewMemoryStorage (Client := Client) (Requester := Requester) opts).
Proof.
  unfold NewMemoryStorage. set (s := mkStorage _ _ _ _ _ _ _ _ _ _ _ _ _ _ _ _).
  assert (users_ok s) as Hs by (split; intros ? ?; simpl; by rewrite lookup_empty).
  revert Hs. generalize s. clear s. induction opts as [|o opts IH]; intros s Hs; simpl; [done|].
  apply IH. destruct o; by apply (users_ok_frame s).
Qed.

Lemma system_run_users_ok es sys :
  users_ok (sys_store sys) -> users_ok (sys_store (system_run es sys)).
Proof.
  revert sys. induction es as [|e es IH]; intros sys Hok; [done|].
  apply IH. by apply system_do_users_ok.
Qed.

Lemma GetProviderIdentity_Some p q s i :
  GetProviderIdentity p q s = (Some i, None) <->
  ms_providerIdentities s !! providerIdentityKey p q = Some i.
Proof. unfold GetProviderIdentity. case_match; naive_solver. Qed.

(** In every state of a storage that started empty, looking up an identity by
    provider and subject returns that very identity, its user exists, and a
    user's list of identities holds exactly the identities that lookup finds for
    the user, in whatever order the map is visited. *)
Theorem identity_lookup_integrity opts es :
  let s := sys_store (system_run es (mkSystem (NewMemoryStorage opts) None)) in
  (forall p q i, GetProviderIdentity p q s = (Some i, None) ->
    pi_ProviderID i = p /\ pi_ProviderSubject i = q /\
    exists u, GetUser (pi_UserID i) s = (Some u, None) /\ user_ID u = pi_UserID i) /\
  (forall uid order l, order ≡ₚ map_to_list (ms_providerIdentities s) ->
    GetUserProviderIdentities uid order s = (l, None) ->
    forall i, i ∈ l <-> pi_UserID i = uid /\
      GetProviderIdentity (pi_ProviderID i) (pi_ProviderSubject i) s = (Some i, None)).
Proof.
  intros s. assert (users_ok s) as [Hu Hi].
  { apply system_run_users_ok, NewMemoryStorage_users_ok. }
  split.
  - intros p q i Hpi%GetProviderIdentity_Some. destruct (Hi _ _ Hpi) as [Hkey [u Hs]].
    apply providerIdentityKey_inj in Hkey as [-> ->]. split_and!; [done|done|].
    exists u. unfold GetUser. rewrite Hs. split; [done|]. by apply Hu.
  - intros uid order l Hord Hl i. unfold GetUserProviderIdentities in Hl.
    case_match; [|done]. simplify_eq. rewrite list_elem_of_filter, GetProviderIdentity_Some.
    apply and_iff_compat_l. rewrite Hord, list_elem_of_fmap. split.
    + intros ([k i'] & -> & Hin%elem_of_map_to_list). by destruct (Hi _ _ Hin) as [-> _].
    + intros Hk. eexists (_, i). split; [done|]. by apply elem_of_map_to_list.
Qed.

(** Deleting an existing user removes the user, every identity linked to it and
    every upstream token issued to it, and leaves the users, identities and
    upstream tokens of others as they were; deleting an unknown user changes
    nothing. *)
Theorem delete_user_cascades id s :
  let '(s', err) := DeleteUser id s in
  (err = None <-> is_Some (ms_users s !! id)) /\ (err ≠ None -> s' = s) /\
  (err = None ->
    GetUser id s' = (None, Some (ErrNotFound "user not found")) /\
    (forall u, u ≠ id -> GetUser u s' = GetUser u s) /\
    (forall k i, ms_providerIdentities s' !! k = Some i <->
      ms_providerIdentities s !! k = Some i /\ pi_UserID i ≠ id) /\
    (forall k e, ms_upstreamTokens s' !! k = Some e <-> ms_upstreamTokens s !! k = Some e /\
      forall t, te_value e = Some t -> ut_UserID t ≠ id)).
Proof.
  unfold DeleteUser. destruct (ms_users s !! id) as [u|] eqn:Eu.
  2: { split_and!; [|done|done]. rewrite is_Some_alt. naive_solver. }
  split_and!; [done|done|]. intros _. unfold GetUser. simpl. split_and!.
  - by rewrite lookup_delete_eq.
  - intros u' Hne. by rewrite lookup_delete_ne.
  - intros k i. rewrite lookup_delete_if_Some. unfold identity_of. by rewrite bool_decide_eq_false.
  - intros k e. rewrite lookup_delete_if_Some. unfold tokens_of_user.
    destruct (te_value e) as [t|]; [rewrite bool_decide_eq_false|]; naive_solver.
Qed.

(** ** DCR credentials *)
Definition stores_dcr (key : DCRKey) (e : event Client Requester) : Prop :=
  match e with ECall (OpStoreDCR (Some c)) => dc_Key c = key | _ => False end.

Lemma system_do_dcr key e sys :
  ~ stores_dcr key e ->
  ms_dcrCredentials (sys_store (system_do sys e)) !! key = ms_dcrCredentials (sys_store sys) !! key.
Proof.
  intros Hn. destruct e as [op|now|]; simpl.
  - destruct (match op with OpStoreDCR _ => true | _ => false end) eqn:E.
    + destruct op as [| | | | | | | | | | | | | | | | | | | | | | |[c|]]; try done. simpl in *.
      unfold StoreDCRCredentials. case_match; [done|]. simpl. by rewrite lookup_insert_ne.
    + f_equal. storage_frame op.
  - by case_match.
  - case_match; [|done]. simpl. unfold deleteExpired. by case_match.
Qed.

(** Dynamic-registration credentials are accepted exactly when their key is
    complete and the client identifier and both endpoints are present; accepted
    credentials are read back unchanged under their key for as long as no others
    are stored for it, and rejected ones leave the storage unchanged. *)
Theorem dcr_credentials_roundtrip c es sys :
  Forall (fun e => ~ stores_dcr (dc_Key c) e) es ->
  let '(s', err) := StoreDCRCredentials (Some c) (sys_store sys) in
  (err = None <-> dk_Issuer (dc_Key c) ≠ "" /\ dk_UpstreamID (dc_Key c) ≠ "" /\
     dk_RedirectURI (dc_Key c) ≠ "" /\ dk_ScopesHash (dc_Key c) ≠ "" /\ dc_ClientID c ≠ "" /\
     dc_AuthorizationEndpoint c ≠ "" /\ dc_TokenEndpoint c ≠ "") /\
  (err ≠ None -> s' = sys_store sys) /\
  (err = None -> GetDCRCredentials (dc_Key c)
     (sys_store (system_run es (mkSystem s' (sys_pending sys)))) = (Some c, None)).
Proof.
  intros Hes. unfold StoreDCRCredentials.
  destruct (validateDCRCredentialsForStore (Some c)) as [err|] eqn:Ev.
  - simpl in Ev. split_and!; [|done|done]. repeat case_decide; naive_solver.
  - split_and!; [|done|].
    + simpl in Ev. repeat case_decide; naive_solver.
    + intros _. unfold GetDCRCredentials. assert (forall sys', ms_dcrCredentials (sys_store sys')
        !! dc_Key c = Some c -> ms_dcrCredentials (sys_store (system_run es sys')) !! dc_Key c = Some c)
        as Hrun.
      { clear Ev. induction Hes as [|e es He Hes IH]; intros sys' Hs; [done|].
        apply IH. by rewrite system_do_dcr. }
      by rewrite (Hrun (mkSystem _ _)); simpl; [|rewrite lookup_insert_eq].
Qed.
End users.

Definition sample_credentials : DCRCredentials := {|
  dc_Key := {| dk_Issuer := "i"; dk_UpstreamID := "u"; dk_RedirectURI := "r"; dk_ScopesHash := "h" |};
  dc_ProviderName := "p"; dc_ClientID := "c"; dc_ClientSecret := "";
  dc_TokenEndpointAuthMethod := "none"; dc_RegistrationAccessToken := "";
  dc_RegistrationClientURI := ""; dc_AuthorizationEndpoint := "a"; dc_TokenEndpoint := "t";
  dc_CreatedAt := 1; dc_ClientSecretExpiresAt := 0 |}.

Lemma dcr_credentials_roundtrip_witness :
  GetDCRCredentials (dc_Key sample_credentials) (sys_store (system_run [ECollect 5; EDelete]
    (mkSystem (StoreDCRCredentials (Some sample_credentials) sample_storage).1 None))) =
  (Some sample_credentials, None).
Proof.
  apply (dcr_credentials_roundtrip sample_credentials [ECollect 5; EDelete]
    (mkSystem sample_storage None)).
  - repeat constructor; simpl; tauto.
  - reflexivity.
Defined.
