(* ===== verification/AggregatorTypes.v ===== *)
(** * Types of the capability aggregator
    ([pkg/vmcp/aggregator/aggregator.go], [pkg/vmcp/config/config.go])

    The aggregation settings, the capabilities of one backend, what conflict
    resolution makes of them, and the final view with its routing table.  A Go
    map that the code only looks up is a [gmap]; where the code loops over a map,
    the loop is a definition over the list of its entries in visiting order. *)

From S2P Require Import Prelude VmcpTypes.

(** ** Settings *)
Record ToolAnnotationsOverride := {
  ao_Title : option string;
  ao_ReadOnlyHint : option bool;
  ao_DestructiveHint : option bool;
  ao_IdempotentHint : option bool;
  ao_OpenWorldHint : option bool;
}.

Record ToolOverride := {
  to_Name : string;
  to_Description : string;
  to_Annotations : option ToolAnnotationsOverride;
}.

(** An entry of [Overrides] may be a nil pointer. *)
Abbreviation overrides := (gmap string (option ToolOverride)) (only parsing).

Record WorkloadToolConfig := {
  wl_Workload : string;
  wl_Filter : list string;
  wl_Overrides : overrides;
  wl_ExcludeAll : bool;
}.

Record ConflictResolutionConfig := {
  cr_PrefixFormat : string;
  cr_PriorityOrder : list string;
}.

Record AggregationConfig := {
  ac_ConflictResolution : ConflictResolutionStrategy;
  ac_ConflictResolutionConfig : option ConflictResolutionConfig;
  ac_Tools : list (option WorkloadToolConfig);
  ac_ExcludeAllTools : bool;
  ac_DefaultToolVisibility : string;
}.

Definition DefaultToolVisibilityDeny : string := "deny".

(** ** Capabilities *)
Record BackendCapabilities := {
  bc_BackendID : string;
  bc_Tools : list Tool;
  bc_Resources : list Resource;
  bc_ResourceTemplates : list ResourceTemplate;
  bc_Prompts : list Prompt;
  bc_SupportsLogging : bool;
  bc_SupportsSampling : bool;
}.

Record ResolvedTool := {
  rtool_ResolvedName : string;
  rtool_OriginalName : string;
  rtool_Description : string;
  rtool_InputSchema : json;
  rtool_OutputSchema : json;
  rtool_Annotations : option ToolAnnotations;
  rtool_BackendID : string;
  rtool_Strategy : ConflictResolutionStrategy;  (* [ConflictResolutionApplied] *)
}.

(** The embedded prompt carries the resolved name. *)
Record ResolvedPrompt := {
  rp_Prompt : Prompt;
  rp_OriginalName : string;
}.

Record ResolvedCapabilities := {
  rc_Tools : gmap string ResolvedTool;
  rc_Resources : list Resource;
  rc_ResourceTemplates : list ResourceTemplate;
  rc_Prompts : list ResolvedPrompt;
  rc_SupportsLogging : bool;
  rc_SupportsSampling : bool;
}.

Record AggregationMetadata := {
  md_BackendCount : Z;
  md_ToolCount : Z;
  md_ResourceCount : Z;
  md_ResourceTemplateCount : Z;
  md_PromptCount : Z;
  md_ConflictStrategy : ConflictResolutionStrategy;
}.

(** [CompositeTools] is filled in elsewhere. *)
Record AggregatedCapabilities := {
  ag_Tools : list Tool;
  ag_Resources : list Resource;
  ag_ResourceTemplates : list ResourceTemplate;
  ag_Prompts : list Prompt;
  ag_SupportsLogging : bool;
  ag_SupportsSampling : bool;
  ag_RoutingTable : RoutingTable;
  ag_Metadata : AggregationMetadata;
}.

(** ** Errors *)
Inductive agg_error :=
  | ErrNoPriorityOrder
  | ErrEmptyPriorityOrder
  | ErrEmptyBackendID (index : nat)
  | ErrInvalidConflictStrategy (s : string)
  | ErrUnresolvedConflicts (conflicts : list (string * list string))
  | ErrCollisionAfterOverride (name backendID existing : string)
  | ErrNoCapabilities.
