(* ===== verification/WorkflowTypes.v ===== *)
(** * Types of composite-tool workflows
    ([pkg/vmcp/composer/composer.go], [workflow_errors.go], [pkg/vmcp/config/config.go])

    The workflow definition with its steps and output configuration, and the
    errors of its validation.  The properties of an output configuration are a
    map in the source; here they are an association list, in the order a loop
    over the map visits them. *)

From S2P Require Import Prelude VmcpTypes AggregatorTypes.

Inductive StepType := StepTypeTool | StepTypeElicitation | StepTypeForEach | StepTypeOther (s : string).

#[export] Instance StepType_eq_dec : EqDecision StepType.
Proof. solve_decision. Defined.

Record ErrorHandler := {
  eh_Action : string;
  eh_RetryCount : Z;
  eh_RetryDelay : Duration;
  eh_ContinueOnError : bool;
}.

(** [OnDecline] and [OnCancel] are the actions of the handlers. *)
Record ElicitationConfig := {
  el_Message : string;
  el_Schema : option (gmap string json);  (* [None] is nil *)
  el_Timeout : Duration;
  el_OnDecline : option string;
  el_OnCancel : option string;
}.

Inductive WorkflowStep := mkStep {
  ws_ID : string;
  ws_Type : StepType;
  ws_Tool : string;
  ws_Arguments : gmap string json;
  ws_Condition : string;
  ws_DependsOn : list string;
  ws_OnError : option ErrorHandler;
  ws_Elicitation : option ElicitationConfig;
  ws_Timeout : Duration;
  ws_Metadata : gmap string string;
  ws_DefaultResults : gmap string json;
  ws_Collection : string;
  ws_ItemVar : string;
  ws_MaxParallel : Z;
  ws_MaxIterations : Z;
  ws_InnerStep : option WorkflowStep;
}.

(** ** Output configuration *)

(** A decoded default value ([json.Any]). *)
Inductive any_value :=
  | ANil
  | ABool (b : bool)
  | AInt (n : Z)
  | AFloat (text : string)
  | AString (s : string)
  | AArray (l : list json)
  | AMap (fields : list (string * json)).

Definition IsEmpty (v : any_value) : bool :=
  match v with
  | ANil | AArray [] | AMap [] => true
  | _ => false
  end.

Inductive OutputProperty := mkProperty {
  op_Type : string;
  op_Description : string;
  op_Value : string;
  op_Properties : list (string * OutputProperty);
  op_Default : any_value;
}.

Record OutputConfig := {
  oc_Properties : list (string * OutputProperty);
  oc_Required : list string;
}.

Record WorkflowDefinition := {
  wd_Name : string;
  wd_Description : string;
  wd_Parameters : gmap string json;
  wd_Steps : list WorkflowStep;
  wd_Timeout : Duration;
  wd_FailureMode : string;
  wd_Output : option OutputConfig;
  wd_Annotations : option ToolAnnotationsOverride;
  wd_Metadata : gmap string string;
}.

(** ** Errors *)
Inductive workflow_cause :=
  | ErrCircularDependency
  | ErrTemplateSyntax (text : string).

Record ValidationError := NewValidationError {
  ve_Field : string;
  ve_Message : string;
  ve_Cause : option workflow_cause;
}.

(** ** Sample data for the examples *)
Definition sample_step (id : string) (deps : list string) : WorkflowStep :=
  mkStep id StepTypeTool "tool" ∅ "" deps None None 0 ∅ ∅ "" "" 0 0 None.

Definition sample_workflow (steps : list WorkflowStep) : WorkflowDefinition := {|
  wd_Name := "workflow"; wd_Description := ""; wd_Parameters := ∅; wd_Steps := steps;
  wd_Timeout := 0; wd_FailureMode := "abort"; wd_Output := None; wd_Annotations := None;
  wd_Metadata := ∅ |}.

(** A diamond: [d] needs [b] and [c], which both need [a]. *)
Definition sample_steps : list WorkflowStep :=
  [sample_step "d" ["b"; "c"]; sample_step "b" ["a"]; sample_step "c" ["a"]; sample_step "a" []].
