(* ===== verification/OutputConfig.v ===== *)
(** * Validation of a workflow's output configuration
    ([pkg/vmcp/composer/output_validator.go])

    [quote] is the verb [%q] of package [fmt]; it only occurs in messages. *)

From Stdlib Require Import Ascii.
From S2P Require Import Prelude VmcpTypes WorkflowTypes.

Definition maxOutputPropertyDepth : Z := 10.

(** ** Template syntax *)
Record template_scan := {
  ts_depth : Z;
  ts_inTemplate : bool;
  ts_prevChar : option ascii;  (* [None] is the zero rune *)
}.

(** The loop over the characters; the delimiters are ASCII, so bytes and runes
    agree on them. *)
Fixpoint scan_template (tmpl : string) (st : template_scan) : string + template_scan :=
  match tmpl with
  | EmptyString => inr st
  | String char tmpl =>
      if bool_decide (char = "{"%char) && bool_decide (ts_prevChar st = Some "{"%char) then
        if ts_inTemplate st then inl "nested template delimiters not allowed"
        else scan_template tmpl {| ts_depth := ts_depth st + 1; ts_inTemplate := true;
                                   ts_prevChar := Some char |}
      else if bool_decide (char = "}"%char) && bool_decide (ts_prevChar st = Some "}"%char) then
        if negb (ts_inTemplate st) then inl "unmatched closing template delimiter"
        else scan_template tmpl {| ts_depth := ts_depth st - 1; ts_inTemplate := false;
                                   ts_prevChar := Some char |}
      else scan_template tmpl {| ts_depth := ts_depth st; ts_inTemplate := ts_inTemplate st;
                                 ts_prevChar := Some char |}
  end.

Definition validateTemplateSyntax (tmpl : string) : option string :=
  match scan_template tmpl {| ts_depth := 0; ts_inTemplate := false; ts_prevChar := None |} with
  | inl err => Some err
  | inr st => if decide (ts_depth st ≠ 0%Z) then Some "unbalanced template delimiters" else None
  end.

(** ** Default values *)
Definition go_type (v : any_value) : string :=
  match v with
  | ANil => "<nil>"
  | ABool _ => "bool"
  | AInt _ => "int"
  | AFloat _ => "float64"
  | AString _ => "string"
  | AArray _ => "[]interface {}"
  | AMap _ => "map[string]interface {}"
  end.

Definition default_fits (v : any_value) (targetType : string) : bool :=
  match v with
  | ABool _ => bool_decide (targetType = "boolean")
  | AInt _ => bool_decide (targetType ∈ ["integer"; "number"; "boolean"])
  | AFloat _ => bool_decide (targetType ∈ ["integer"; "number"])
  | AString _ => bool_decide (targetType ∈ ["integer"; "number"; "boolean"; "object"; "array"])
  | AArray _ => bool_decide (targetType = "array")
  | AMap _ => bool_decide (targetType = "object")
  | ANil => false
  end.

Definition validateDefaultValueType (quote : string -> string) (defaultVal : any_value)
    (targetType propertyName : string) : option ValidationError :=
  let mismatch expected :=
    if default_fits defaultVal targetType then None
    else Some (NewValidationError "output.properties.default"
      ("property " +:+ quote propertyName +:+ " has default value of type " +:+
       go_type defaultVal +:+ ", expected " +:+ expected) None) in
  if decide (targetType = "string") then None
  else if decide (targetType = "integer") then mismatch "integer-compatible type"
  else if decide (targetType = "number") then mismatch "number-compatible type"
  else if decide (targetType = "boolean") then mismatch "boolean-compatible type"
  else if decide (targetType = "object") then mismatch "object or JSON string"
  else if decide (targetType = "array") then mismatch "array ([]any) or JSON string"
  else Some (NewValidationError "output.properties.type"
    ("property " +:+ quote propertyName +:+ " has unsupported type " +:+ quote targetType) None).

(** ** Properties *)
Definition validTypes : list string :=
  ["string"; "integer"; "number"; "boolean"; "object"; "array"].

(** The checks that do not look into nested properties. *)
Definition validate_shape (quote : string -> string) (name : string) (prop : OutputProperty)
    (depth : Z) : option ValidationError :=
  let hasValue := bool_decide (op_Value prop ≠ "") in
  let hasProperties := (0 <? Z.of_nat (length (op_Properties prop)))%Z in
  if (maxOutputPropertyDepth <? depth)%Z then Some (NewValidationError "output.properties"
    ("property " +:+ quote name +:+ " exceeds maximum nesting depth " +:+
     fmt_d maxOutputPropertyDepth) None)
  else if decide (op_Type prop = "") then Some (NewValidationError "output.properties.type"
    ("property " +:+ quote name +:+ " is missing required field 'type'") None)
  else if decide (op_Type prop ∉ validTypes) then Some (NewValidationError "output.properties.type"
    ("property " +:+ quote name +:+ " has invalid type " +:+ quote (op_Type prop) +:+
     " (must be one of: string, integer, number, boolean, object, array)") None)
  else if decide (op_Description prop = "") then
    Some (NewValidationError "output.properties.description"
      ("property " +:+ quote name +:+ " is missing required field 'description'") None)
  else if hasValue && hasProperties then Some (NewValidationError "output.properties"
    ("property " +:+ quote name +:+ " cannot have both 'value' and 'properties' fields") None)
  else if negb hasValue && negb hasProperties then Some (NewValidationError "output.properties"
    ("property " +:+ quote name +:+ " must have either 'value' or 'properties' field") None)
  else None.

(** The checks after the nested properties: template and default value. *)
Definition validate_value (quote : string -> string) (name : string) (prop : OutputProperty)
    : option ValidationError :=
  match (if decide (op_Value prop ≠ "") then validateTemplateSyntax (op_Value prop) else None) with
  | Some err => Some (NewValidationError "output.properties.value"
      ("property " +:+ quote name +:+ " has invalid template syntax: " +:+ err)
      (Some (ErrTemplateSyntax err)))
  | None =>
      if negb (IsEmpty (op_Default prop))
      then validateDefaultValueType quote (op_Default prop) (op_Type prop) name
      else None
  end.

Fixpoint validateOutputProperty (quote : string -> string) (name : string)
    (prop : OutputProperty) (depth : Z) : option ValidationError :=
  match validate_shape quote name prop depth with
  | Some err => Some err
  | None =>
      let hasValue := bool_decide (op_Value prop ≠ "") in
      let nested_error :=
        if decide (op_Type prop = "object") then
          if hasValue then None
          else
            (fix go (props : list (string * OutputProperty)) : option ValidationError :=
               match props with
               | [] => None
               | (nestedName, nestedProp) :: props =>
                   match validateOutputProperty quote (name +:+ "." +:+ nestedName) nestedProp
                           (depth + 1)%Z with
                   | Some err => Some err
                   | None => go props
                   end
               end) (op_Properties prop)
        else if negb hasValue then Some (NewValidationError "output.properties.value"
          ("property " +:+ quote name +:+ " with type " +:+ quote (op_Type prop) +:+
           " must have 'value' field") None)
        else if (0 <? Z.of_nat (length (op_Properties prop)))%Z then
          Some (NewValidationError "output.properties"
            ("property " +:+ quote name +:+ " with type " +:+ quote (op_Type prop) +:+
             " cannot have 'properties' field") None)
        else None in
      match nested_error with
      | Some err => Some err
      | None => validate_value quote name prop
      end
  end.

(** ** Output configurations *)
Definition first_error {A} (f : A -> option ValidationError) (l : list A) : option ValidationError :=
  foldr (fun a r => match f a with Some err => Some err | None => r end) None l.

Definition ValidateOutputConfig (quote : string -> string) (output : option OutputConfig)
    : option ValidationError :=
  match output with
  | None => None
  | Some o =>
      if decide (length (oc_Properties o) = 0) then
        Some (NewValidationError "output.properties" "output properties cannot be empty" None)
      else
        match list_find (fun f => f ∉ (oc_Properties o).*1) (oc_Required o) with
        | Some (_, requiredField) => Some (NewValidationError "output.required"
            ("required field " +:+ quote requiredField +:+ " does not exist in properties") None)
        | None =>
            first_error (fun np => validateOutputProperty quote np.1 np.2 0) (oc_Properties o)
        end
  end.

(** ** What validation accepts *)
Section property_ind.
Context (P : OutputProperty -> Prop)
  (Hnode : forall ty desc value props dflt,
    Forall (fun np => P np.2) props -> P (mkProperty ty desc value props dflt)).

Fixpoint OutputProperty_nested_ind (p : OutputProperty) : P p :=
  match p with
  | mkProperty ty desc value props dflt =>
      Hnode ty desc value props dflt
        ((fix go (l : list (string * OutputProperty)) : Forall (fun np => P np.2) l :=
            match l with
            | [] => List.Forall_nil _
            | np :: l => List.Forall_cons _ np l (OutputProperty_nested_ind np.2) (go l)
            end) props)
  end.
End property_ind.

Definition default_ok (p : OutputProperty) : Prop :=
  IsEmpty (op_Default p) = true \/ op_Type p = "string" \/ default_fits (op_Default p) (op_Type p) = true.

(** The specification of a valid property at a nesting depth: a value that is a
    balanced template, or an object with valid nested properties. *)
Inductive property_ok : Z -> OutputProperty -> Prop :=
  | property_value depth p :
      (depth <= maxOutputPropertyDepth)%Z -> op_Type p ∈ validTypes -> op_Description p <> "" ->
      op_Value p <> "" -> op_Properties p = [] -> validateTemplateSyntax (op_Value p) = None ->
      default_ok p -> property_ok depth p
  | property_object depth p :
      (depth <= maxOutputPropertyDepth)%Z -> op_Type p = "object" -> op_Description p <> "" ->
      op_Value p = "" -> op_Properties p <> [] ->
      Forall (fun np => property_ok (depth + 1) np.2) (op_Properties p) ->
      default_ok p -> property_ok depth p.

Lemma validate_shape_None quote name p depth :
  validate_shape quote name p depth = None <->
  (depth <= maxOutputPropertyDepth)%Z /\ op_Type p ∈ validTypes /\ op_Description p <> "" /\
  (op_Value p <> "" <-> op_Properties p = []).
Proof.
  unfold validate_shape. destruct (Z.ltb_spec maxOutputPropertyDepth depth); [split; [done|lia]|].
  case_decide as Ht; [split; [done|]; intros (_ & Hin & _); rewrite Ht in Hin; set_solver|].
  case_decide as Hv; [split; [done|tauto]|]. case_decide as Hd; [split; [done|tauto]|].
  destruct (op_Properties p) as [|np l]; simpl; destruct (decide (op_Value p = "")) as [E|E];
    rewrite ?bool_decide_true, ?bool_decide_false by tauto; simpl; split; try done; try tauto.
  intros (_ & _ & _ & [Hb _]). by apply Hb in E.
Qed.

Lemma validateDefaultValueType_None quote v ty name :
  ty ∈ validTypes ->
  validateDefaultValueType quote v ty name = None <-> ty = "string" \/ default_fits v ty = true.
Proof.
  intros Hty. unfold validateDefaultValueType. case_decide; [tauto|].
  repeat (case_decide; [destruct (default_fits v ty); [tauto|split; [done|by intros [?|?]]]|]).
  exfalso. unfold validTypes in Hty. rewrite !elem_of_cons, elem_of_nil in Hty. tauto.
Qed.

Lemma validate_value_None quote name p :
  op_Type p ∈ validTypes ->
  validate_value quote name p = None <->
  (op_Value p <> "" -> validateTemplateSyntax (op_Value p) = None) /\ default_ok p.
Proof.
  intros Hty. unfold validate_value, default_ok.
  assert ((if negb (IsEmpty (op_Default p))
    then validateDefaultValueType quote (op_Default p) (op_Type p) name else None) = None <->
    IsEmpty (op_Default p) = true \/ op_Type p = "string" \/
    default_fits (op_Default p) (op_Type p) = true) as Hd.
  { destruct (IsEmpty (op_Default p)); simpl; [tauto|].
    rewrite validateDefaultValueType_None by done. naive_solver. }
  case_decide; [|tauto]. destruct (validateTemplateSyntax (op_Value p)); [naive_solver|tauto].
Qed.

Definition nested_errors (quote : string -> string) (name : string) (depth : Z) :=
  first_error (fun np : string * OutputProperty =>
    validateOutputProperty quote (name +:+ "." +:+ np.1) np.2 depth).

Lemma first_error_None {A} (f : A -> option ValidationError) l :
  first_error f l = None <-> Forall (fun a => f a = None) l.
Proof.
  induction l as [|a l IH]; cbn [first_error foldr]; [by rewrite Forall_nil|].
  fold (first_error f l). rewrite Forall_cons, <- IH. destruct (f a); [split; [done|by intros [? _]]|tauto].
Qed.

(** The definition, with its inner loop named. *)
Lemma validateOutputProperty_eq quote name p depth :
  validateOutputProperty quote name p depth =
  match validate_shape quote name p depth with
  | Some err => Some err
  | None =>
      match
        if decide (op_Type p = "object") then
          if bool_decide (op_Value p ≠ "") then None
          else nested_errors quote name (depth + 1) (op_Properties p)
        else if negb (bool_decide (op_Value p ≠ "")) then Some (NewValidationError "output.properties.value"
          ("property " +:+ quote name +:+ " with type " +:+ quote (op_Type p) +:+
           " must have 'value' field") None)
        else if (0 <? Z.of_nat (length (op_Properties p)))%Z then
          Some (NewValidationError "output.properties"
            ("property " +:+ quote name +:+ " with type " +:+ quote (op_Type p) +:+
             " cannot have 'properties' field") None)
        else None
      with
      | Some err => Some err
      | None => validate_value quote name p
      end
  end.
Proof.
  destruct p as [ty desc value props dflt]. cbn [validateOutputProperty op_Type op_Value op_Properties].
  destruct (validate_shape _ _ _ _); [done|]. destruct (decide (ty = "object")); [|done].
  destruct (bool_decide (value ≠ "")); [done|].
  assert (forall l, (fix go (l : list (string * OutputProperty)) : option ValidationError :=
    match l with
    | [] => None
    | (nestedName, nestedProp) :: l =>
        match validateOutputProperty quote (name +:+ "." +:+ nestedName) nestedProp (depth + 1)%Z with
        | Some err => Some err
        | None => go l
        end
    end) l = nested_errors quote name (depth + 1) l) as Hgo; [|by rewrite Hgo].
  induction l as [|[n q] l IH]; [done|]. rewrite IH. done.
Qed.

Lemma validateOutputProperty_None quote p : forall name depth,
  validateOutputProperty quote name p depth = None <-> property_ok depth p.
Proof.
  induction p as [ty desc value props dflt IH] using OutputProperty_nested_ind. intros name depth.
  rewrite validateOutputProperty_eq. set (p := mkProperty ty desc value props dflt) in *.
  destruct (validate_shape quote name p depth) as [err|] eqn:Es.
  { split; [done|]. intros Hp. assert (validate_shape quote name p depth = None); [|congruence].
    apply validate_shape_None. inversion Hp as [??? Hty|??? Hty ?? Hne]; subst; split_and!; try done.
    rewrite Hty. unfold validTypes. set_solver. }
  apply validate_shape_None in Es as (Hd & Hty & Hdesc & Hvp).
  pose proof (validate_value_None quote name p Hty) as Hval.
  destruct (decide (op_Value p = "")) as [Ev|Ev].
  - rewrite bool_decide_false by tauto.
    assert (op_Properties p <> []) as Hne by (intros E; by apply Hvp in E).
    destruct (decide (op_Type p = "object")) as [Eo|Eo].
    2: { split; [done|]. intros Hp. by inversion Hp; subst. }
    assert (nested_errors quote name (depth + 1) (op_Properties p) = None <->
      Forall (fun np => property_ok (depth + 1) np.2) (op_Properties p)) as Hn.
    { unfold nested_errors. rewrite first_error_None, !Forall_forall. rewrite Forall_forall in IH.
      split; intros H np Hin; eapply (IH np Hin), H, Hin. }
    destruct (nested_errors _ _ _ _).
    + split; [done|]. intros Hp. inversion Hp as [|????????]; subst; [done|]. by apply Hn.
    + rewrite Hval. split; [intros [_ ?]; apply property_object; tauto|].
      intros Hp. split; [done|]. by inversion Hp; subst.
  - rewrite bool_decide_true by done. rewrite (proj1 Hvp Ev). simpl.
    assert (validate_value quote name p = None <-> property_ok depth p) as Hfin.
    { rewrite Hval. split; [intros [? ?]; apply property_value; tauto|].
      intros Hp. inversion Hp; subst; [tauto|done]. }
    by destruct (decide (ty = "object")).
Qed.

Lemma ValidateOutputConfig_None quote o :
  ValidateOutputConfig quote (Some o) = None <->
  oc_Properties o <> [] /\ (forall f, f ∈ oc_Required o -> f ∈ (oc_Properties o).*1) /\
  forall name p, (name, p) ∈ oc_Properties o -> property_ok 0 p.
Proof.
  unfold ValidateOutputConfig. case_decide as Hl.
  { apply nil_length_inv in Hl. split; [done|]. by intros [? _]. }
  destruct (list_find _ _) as [[i f]|] eqn:Ef.
  { apply list_find_Some in Ef as (Hi & Hf & _). split; [done|]. intros (_ & Hr & _).
    destruct Hf. apply Hr. by eapply list_elem_of_lookup_2. }
  rewrite first_error_None, Forall_forall. split.
  - intros Hp. split; [by intros E; rewrite E in Hl|]. split.
    + intros f Hf. apply list_find_None in Ef. rewrite Forall_forall in Ef. specialize (Ef f Hf).
      by apply dec_stable in Ef.
    + intros name p Hin. by apply Hp, validateOutputProperty_None in Hin.
  - intros (_ & _ & Hp) [name p] Hin. by eapply validateOutputProperty_None, Hp.
Qed.

(** Validation accepts exactly the output configurations that meet the
    specification: there is at least one property, every required field is one of
    them, and every property is well formed ([property_ok]: a known type, a
    description, either a balanced template as its value or, for an object, nested
    well-formed properties down to depth ten, and a default of a compatible type).
    The verdict does not depend on the order in which the map is visited. *)
Theorem output_config_accepted_iff quote o :
  ValidateOutputConfig quote (Some o) = None <->
  oc_Properties o <> [] /\ (forall f, f ∈ oc_Required o -> f ∈ (oc_Properties o).*1) /\
  forall name p, (name, p) ∈ oc_Properties o -> property_ok 0 p.
Proof. apply ValidateOutputConfig_None. Qed.

(** ** Templates *)

(** A template as its parts: plain text and actions, neither with a brace inside. *)
Inductive template_part := Text (s : string) | Action (body : string).

Definition part_string (p : template_part) : string :=
  match p with Text s => s | Action body => "{{" +:+ body +:+ "}}" end.

Definition no_brace (s : string) : Prop := no_char "{"%char s /\ no_char "}"%char s.

Definition part_ok (p : template_part) : Prop :=
  match p with Text s => no_brace s | Action body => no_brace body end.

Definition template_string (ps : list template_part) : string :=
  foldr (fun p s => part_string p +:+ s) "" ps.

Definition is_brace (c : option ascii) : Prop := c = Some "{"%char \/ c = Some "}"%char.

Lemma scan_text s t d i prev :
  no_brace s -> exists prev',
    scan_template (s +:+ t) {| ts_depth := d; ts_inTemplate := i; ts_prevChar := prev |} =
    scan_template t {| ts_depth := d; ts_inTemplate := i; ts_prevChar := prev' |} /\
    (prev' = prev \/ ~ is_brace prev').
Proof.
  revert prev. induction s as [|c s IH]; intros prev [Ho Hc]; [eauto|].
  destruct Ho as [Ho Ho'], Hc as [Hc Hc'].
  change (String c s +:+ t) with (String c (s +:+ t)). cbn [scan_template].
  rewrite !(bool_decide_false (c = _)) by done. simpl.
  destruct (IH (Some c) (conj Ho' Hc')) as (prev' & E & Hp). exists prev'. split; [done|]. right.
  destruct Hp as [->|Hp]; [|done]. by intros [[= ->]|[= ->]].
Qed.

Lemma scan_open t d prev :
  prev <> Some "{"%char ->
  scan_template ("{{" +:+ t) {| ts_depth := d; ts_inTemplate := false; ts_prevChar := prev |} =
  scan_template t {| ts_depth := d + 1; ts_inTemplate := true; ts_prevChar := Some "{"%char |}.
Proof.
  intros Hp. change ("{{" +:+ t) with (String "{" (String "{" t)).
  cbn [scan_template ts_prevChar ts_depth ts_inTemplate].
  by rewrite (bool_decide_false (prev = Some "{"%char)).
Qed.

Lemma scan_close t d prev :
  prev <> Some "}"%char ->
  scan_template ("}}" +:+ t) {| ts_depth := d; ts_inTemplate := true; ts_prevChar := prev |} =
  scan_template t {| ts_depth := d - 1; ts_inTemplate := false; ts_prevChar := Some "}"%char |}.
Proof.
  intros Hp. change ("}}" +:+ t) with (String "}" (String "}" t)).
  cbn [scan_template ts_prevChar ts_depth ts_inTemplate].
  by rewrite (bool_decide_false (prev = Some "}"%char)).
Qed.

Lemma scan_parts ps t prev :
  Forall part_ok ps -> prev <> Some "{"%char -> exists prev', prev' <> Some "{"%char /\
    scan_template (template_string ps +:+ t)
      {| ts_depth := 0; ts_inTemplate := false; ts_prevChar := prev |} =
    scan_template t {| ts_depth := 0; ts_inTemplate := false; ts_prevChar := prev' |}.
Proof.
  intros Hps. revert prev. induction Hps as [|p ps Hp Hps IH]; intros prev Hprev; [eauto|].
  cbn [template_string foldr]. fold (template_string ps). rewrite app_string_assoc.
  destruct p as [s|body]; cbn [part_string part_ok] in *.
  - destruct (scan_text s (template_string ps +:+ t) 0 false prev Hp) as (prev1 & -> & H1).
    apply IH. destruct H1 as [->|H1]; [done|]. intros ->. apply H1. by left.
  - rewrite !app_string_assoc, scan_open by done.
    destruct (scan_text body ("}}" +:+ template_string ps +:+ t) (0 + 1) true (Some "{"%char) Hp)
      as (prev1 & -> & H1).
    rewrite scan_close by (destruct H1 as [->|H1]; [done|]; intros ->; apply H1; by right).
    change (0 + 1 - 1)%Z with 0%Z. by apply IH.
Qed.

(** The template check accepts every text with any number of [{{...}}] actions
    in it, and reports an action that is not closed, an action opened inside
    another, and a closing delimiter outside any action. *)
Theorem template_delimiters_checked ps body :
  Forall part_ok ps -> no_brace body ->
  validateTemplateSyntax (template_string ps) = None /\
  validateTemplateSyntax (template_string ps +:+ "{{" +:+ body) =
    Some "unbalanced template delimiters" /\
  validateTemplateSyntax (template_string ps +:+ "{{" +:+ body +:+ "{{") =
    Some "nested template delimiters not allowed" /\
  validateTemplateSyntax (template_string ps +:+ "}}") = Some "unmatched closing template delimiter".
Proof.
  intros Hps Hb. unfold validateTemplateSyntax.
  assert (forall t, exists prev, prev <> Some "{"%char /\
    scan_template (template_string ps +:+ t)
      {| ts_depth := 0; ts_inTemplate := false; ts_prevChar := None |} =
    scan_template t {| ts_depth := 0; ts_inTemplate := false; ts_prevChar := prev |}) as Hs
    by (intros t; by apply scan_parts).
  split_and!.
  - destruct (Hs "") as (prev & _ & E). rewrite app_string_nil_r in E. by rewrite E.
  - destruct (Hs ("{{" +:+ body)) as (prev & Hp & ->). rewrite scan_open by done.
    destruct (scan_text body "" (0 + 1) true (Some "{"%char) Hb) as (prev1 & E & _).
    rewrite app_string_nil_r in E. by rewrite E.
  - destruct (Hs ("{{" +:+ body +:+ "{{")) as (prev & Hp & ->). rewrite scan_open by done.
    destruct (scan_text body "{{" (0 + 1) true (Some "{"%char) Hb) as (prev1 & -> & H1).
    cbn [scan_template ts_prevChar ts_depth ts_inTemplate].
    by destruct (bool_decide (prev1 = Some "{"%char)).
  - destruct (Hs "}}") as (prev & _ & ->). cbn [scan_template ts_prevChar ts_depth ts_inTemplate].
    by destruct (bool_decide (prev = Some "}"%char)).
Qed.

Lemma template_delimiters_checked_witness :
  validateTemplateSyntax "id {{.steps.a.output.id}} of {{.params.user}}" = None.
Proof.
  apply (template_delimiters_checked
    [Text "id "; Action ".steps.a.output.id"; Text " of "; Action ".params.user"] "");
    [repeat constructor; discriminate|split; exact I].
Defined.

(** A template whose action is directly followed by a closing brace of the text, as
    in a JSON object, is rejected although it is a valid Go template. *)
Example brace_after_action_rejected :
  validateTemplateSyntax "{id: {{.params.id}}}" = Some "unmatched closing template delimiter".
Proof. reflexivity. Qed.
