(* ===== verification/Workflow.v ===== *)
(** * Validation of composite-tool workflows ([pkg/vmcp/composer/workflow_engine.go])

    [ValidateWorkflow] with the depth-first search for dependency cycles.  The
    search is a recursive closure over two maps in the source; here it threads
    them, with fuel for the recursion: a call marks its node as visited, so the
    number of distinct identifiers bounds the depth, and [validateDependencies]
    starts with more than that. *)

From S2P Require Import Prelude VmcpTypes WorkflowTypes OutputConfig.

Definition maxWorkflowSteps : Z := 100.

(** ** Cycle detection *)
Record dfs := mkDfs {
  visited : gset string;
  recStack : gset string;
}.

Definition dep_graph (steps : list WorkflowStep) : gmap string (list string) :=
  foldl (fun g step => <[ws_ID step := ws_DependsOn step]> g) ∅ steps.

(** The loop over the dependencies of a node, [rec] being [hasCycle]. *)
Fixpoint visit_deps (rec : string -> dfs -> option (bool * dfs)) (deps : list string) (st : dfs)
    : option (bool * dfs) :=
  match deps with
  | [] => Some (false, st)
  | depID :: deps =>
      if decide (depID ∉ visited st) then
        match rec depID st with
        | None => None
        | Some (true, st) => Some (true, st)
        | Some (false, st) => visit_deps rec deps st
        end
      else if decide (depID ∈ recStack st) then Some (true, st)
      else visit_deps rec deps st
  end.

(** [None] is running out of fuel. *)
Fixpoint hasCycle (fuel : nat) (graph : gmap string (list string)) (nodeID : string) (st : dfs)
    : option (bool * dfs) :=
  match fuel with
  | 0 => None
  | S fuel =>
      let st := mkDfs ({[nodeID]} ∪ visited st) ({[nodeID]} ∪ recStack st) in
      match visit_deps (hasCycle fuel graph) (default [] (graph !! nodeID)) st with
      | None => None
      | Some (true, st) => Some (true, st)
      | Some (false, st) => Some (false, mkDfs (visited st) (recStack st ∖ {[nodeID]}))
      end
  end.

(** The loop over the steps: the step at which a cycle is found, if any. *)
Fixpoint find_cycle (fuel : nat) (graph : gmap string (list string)) (steps : list WorkflowStep)
    (st : dfs) : option (option string * dfs) :=
  match steps with
  | [] => Some (None, st)
  | step :: steps =>
      if decide (ws_ID step ∉ visited st) then
        match hasCycle fuel graph (ws_ID step) st with
        | None => None
        | Some (true, st) => Some (Some (ws_ID step), st)
        | Some (false, st) => find_cycle fuel graph steps st
        end
      else find_cycle fuel graph steps st
  end.

Definition first_unvisited (st : dfs) (step : WorkflowStep) : option string :=
  list_find (fun depID => depID ∉ visited st) (ws_DependsOn step) ≫= fun p => Some p.2.

Fixpoint check_references (st : dfs) (steps : list WorkflowStep) : option ValidationError :=
  match steps with
  | [] => None
  | step :: steps =>
      match first_unvisited st step with
      | Some depID => Some (NewValidationError "dependencies"
          ("step " +:+ ws_ID step +:+ " depends on non-existent step " +:+ depID) None)
      | None => check_references st steps
      end
  end.

(** Every identifier the search can meet. *)
Definition step_nodes (steps : list WorkflowStep) : list string :=
  (ws_ID <$> steps) ++ (steps ≫= ws_DependsOn).

Definition validateDependencies (steps : list WorkflowStep) : option (option ValidationError) :=
  match find_cycle (S (length (step_nodes steps))) (dep_graph steps) steps (mkDfs ∅ ∅) with
  | None => None
  | Some (Some id, _) => Some (Some (NewValidationError "dependencies"
      ("circular dependency detected involving step " +:+ id) (Some ErrCircularDependency)))
  | Some (None, st) => Some (check_references st steps)
  end.

(** ** Steps *)
Definition step_type_string (t : StepType) : string :=
  match t with
  | StepTypeTool => "tool"
  | StepTypeElicitation => "elicitation"
  | StepTypeForEach => "forEach"
  | StepTypeOther s => s
  end.

(** [%q] of the offending type is part of the message; [quote] is that verb. *)
Definition validateStep (quote : string -> string) (validStepIDs : gset string)
    (step : WorkflowStep) : option ValidationError :=
  let type_error :=
    match ws_Type step with
    | StepTypeTool =>
        if decide (ws_Tool step = "") then Some (NewValidationError "step.tool"
          ("tool name is required for tool step " +:+ ws_ID step) None) else None
    | StepTypeElicitation =>
        match ws_Elicitation step with
        | None => Some (NewValidationError "step.elicitation"
            ("elicitation config is required for elicitation step " +:+ ws_ID step) None)
        | Some el =>
            if decide (el_Message el = "") then Some (NewValidationError "step.elicitation.message"
              ("elicitation message is required for step " +:+ ws_ID step) None) else None
        end
    | StepTypeForEach =>
        if decide (ws_Collection step = "") then Some (NewValidationError "step.collection"
          ("collection is required for forEach step " +:+ ws_ID step) None)
        else match ws_InnerStep step with
        | None => Some (NewValidationError "step.innerStep"
            ("inner step is required for forEach step " +:+ ws_ID step) None)
        | Some _ => None
        end
    | StepTypeOther s => Some (NewValidationError "step.type"
        ("invalid step type " +:+ quote s +:+ " for step " +:+ ws_ID step) None)
    end in
  match type_error with
  | Some err => Some err
  | None =>
      match list_find (fun depID => depID ∉ validStepIDs) (ws_DependsOn step) with
      | Some (_, depID) => Some (NewValidationError "step.depends_on"
          ("step " +:+ ws_ID step +:+ " depends on non-existent step " +:+ depID) None)
      | None => None
      end
  end.

(** ** Workflows *)

(** The loop that collects the step identifiers. *)
Fixpoint collect_ids (steps : list WorkflowStep) (stepIDs : gset string)
    : ValidationError + gset string :=
  match steps with
  | [] => inr stepIDs
  | step :: steps =>
      if decide (ws_ID step = "") then inl (NewValidationError "step.id" "step ID is required" None)
      else if decide (ws_ID step ∈ stepIDs) then
        inl (NewValidationError "step.id" ("duplicate step ID: " +:+ ws_ID step) None)
      else collect_ids steps ({[ws_ID step]} ∪ stepIDs)
  end.

(** [None] is running out of fuel. *)
Definition ValidateWorkflow (quote : string -> string) (def : option WorkflowDefinition)
    : option (option ValidationError) :=
  match def with
  | None => Some (Some (NewValidationError "workflow" "workflow definition is nil" None))
  | Some def =>
  let steps := wd_Steps def in
  if decide (wd_Name def = "") then Some (Some (NewValidationError "name" "workflow name is required" None))
  else if decide (length steps = 0) then
    Some (Some (NewValidationError "steps" "workflow must have at least one step" None))
  else if (maxWorkflowSteps <? Z.of_nat (length steps))%Z then
    Some (Some (NewValidationError "steps"
      ("too many steps: " +:+ fmt_d (Z.of_nat (length steps)) +:+ " (max " +:+
       fmt_d maxWorkflowSteps +:+ ")") None))
  else match collect_ids steps ∅ with
  | inl err => Some (Some err)
  | inr stepIDs =>
      match validateDependencies steps with
      | None => None
      | Some (Some err) => Some (Some err)
      | Some None =>
          match list_find (fun e => e ≠ None) (validateStep quote stepIDs <$> steps) with
          | Some (_, err) => Some err
          | None => Some (ValidateOutputConfig quote (wd_Output def))
          end
      end
  end
  end.

(** ** The search finds a cycle exactly when there is one *)
Definition deps_of (g : gmap string (list string)) (x : string) : list string :=
  default [] (g !! x).

(** [y] is a dependency of [x]. *)
Definition edge (g : gmap string (list string)) (x y : string) : Prop := y ∈ deps_of g x.

Definition acyclic (g : gmap string (list string)) : Prop := forall x, ~ tc (edge g) x x.

(** A list in which the dependencies of every element come before it. *)
Inductive topo (g : gmap string (list string)) : list string -> Prop :=
  | topo_nil : topo g []
  | topo_snoc l x : topo g l -> (forall d, edge g x d -> d ∈ l) -> topo g (l ++ [x]).

Definition finished (st : dfs) : gset string := visited st ∖ recStack st.

(** The finished nodes have a topological order. *)
Definition dfs_ok (g : gmap string (list string)) (st : dfs) : Prop :=
  recStack st ⊆ visited st /\ exists ord, topo g ord /\ forall x, x ∈ ord <-> x ∈ finished st.

(** What a search that reports no cycle leaves behind. *)
Record dfs_extends (g : gmap string (list string)) (st st' : dfs) : Prop := {
  ext_ok : dfs_ok g st';
  ext_stack : recStack st' = recStack st;
  ext_visited : visited st ⊆ visited st';
}.

Lemma dfs_extends_trans g st1 st2 st3 :
  dfs_extends g st1 st2 -> dfs_extends g st2 st3 -> dfs_extends g st1 st3.
Proof. intros [? E1 ?] [? E2 ?]. split; [done|congruence|set_solver]. Qed.

Lemma dfs_extends_finished g st st' x :
  dfs_extends g st st' -> x ∈ finished st -> x ∈ finished st'.
Proof. intros [_ E Hv]. unfold finished. rewrite E. set_solver. Qed.

(** The specification of [hasCycle] on an unvisited node, given that every node
    on the stack reaches it. *)
Definition search_spec (g : gmap string (list string)) (rec : string -> dfs -> option (bool * dfs))
    : Prop :=
  forall node st b st', dfs_ok g st -> node ∉ visited st ->
    (forall r, r ∈ recStack st -> rtc (edge g) r node) -> rec node st = Some (b, st') ->
    if b then exists x, tc (edge g) x x
    else dfs_extends g st st' /\ node ∈ finished st'.

Lemma visit_deps_spec g rec node deps st b st' :
  search_spec g rec -> dfs_ok g st -> (forall r, r ∈ recStack st -> rtc (edge g) r node) ->
  (forall d, d ∈ deps -> edge g node d) -> visit_deps rec deps st = Some (b, st') ->
  if b then exists x, tc (edge g) x x
  else dfs_extends g st st' /\ forall d, d ∈ deps -> d ∈ finished st'.
Proof.
  intros Hrec. revert st. induction deps as [|d deps IH]; intros st Hok Hstack Hdeps E; simpl in E.
  { simplify_eq. split; [by split|set_solver]. }
  assert (forall st1, dfs_extends g st st1 -> d ∈ finished st1 ->
    visit_deps rec deps st1 = Some (b, st') ->
    if b then exists x, tc (edge g) x x
    else dfs_extends g st st' /\ forall d', d' ∈ d :: deps -> d' ∈ finished st') as Hrest.
  { intros st1 Hext Hd E1. pose proof (ext_stack _ _ _ Hext) as Es.
    specialize (IH st1 (ext_ok _ _ _ Hext)). rewrite Es in IH.
    specialize (IH Hstack ltac:(set_solver)).
    destruct b; [by apply IH|]. destruct (IH E1) as [Hext' Hf].
    split; [by eapply dfs_extends_trans|]. intros d' [->|Hd']%elem_of_cons; [|by apply Hf].
    by eapply dfs_extends_finished. }
  destruct (decide (d ∉ visited st)) as [Hv|Hv].
  - destruct (rec d st) as [[[] st1]|] eqn:Er; [|apply (Hrec d st) in Er|done].
    + simplify_eq. eapply (Hrec d st true); [done|done| |done].
      intros r Hr. eapply rtc_r; [by apply Hstack|]. set_solver.
    + destruct Er as [Hext Hd]. by eapply Hrest.
    + done.
    + done.
    + intros r Hr. eapply rtc_r; [by apply Hstack|]. set_solver.
  - apply dec_stable in Hv. destruct (decide (d ∈ recStack st)) as [Hs|Hs].
    + simplify_eq. exists d. eapply tc_rtc_l; [by apply Hstack|]. apply tc_once. set_solver.
    + eapply (Hrest st); [by split|unfold finished; set_solver|done].
Qed.

Lemma hasCycle_spec fuel g : search_spec g (hasCycle fuel g).
Proof.
  induction fuel as [|fuel IH]; intros node st b st' [Hsub (ord & Ht & Hord)] Hn Hstack E; [done|].
  cbn [hasCycle] in E. set (st0 := mkDfs ({[node]} ∪ visited st) ({[node]} ∪ recStack st)) in E.
  destruct (visit_deps _ _ st0) as [[b1 st1]|] eqn:Ev; [|done].
  assert (dfs_ok g st0) as Hok0.
  { split; [simpl; set_solver|]. exists ord. split; [done|]. intros x. rewrite Hord.
    unfold finished. simpl. set_solver. }
  eapply (visit_deps_spec g _ node) in Ev; [|done|done| |done].
  2: { simpl. intros r [->%elem_of_singleton|Hr]%elem_of_union; [done|by apply Hstack]. }
  destruct b1; simplify_eq; [done|].
  destruct Ev as [[[Hsub1 (ord1 & Ht1 & Hord1)] Es1 Hv1] Hdeps]. simpl in *.
  assert (node ∉ recStack st) as Hns by set_solver.
  assert (finished (mkDfs (visited st1) (recStack st1 ∖ {[node]})) ≡ {[node]} ∪ finished st1) as Hfin.
  { unfold finished. simpl. rewrite Es1. intros x. destruct (decide (x = node)); set_solver. }
  split; [split; simpl|rewrite Hfin; set_solver].
  - split; simpl; [set_solver|]. exists (ord1 ++ [node]). split.
    + constructor; [done|]. intros d Hd. apply Hord1, Hdeps, Hd.
    + intros x. rewrite Hfin, elem_of_app, Hord1. set_solver.
  - rewrite Es1. set_solver.
  - set_solver.
Qed.

(** ** The fuel suffices *)
Section fuel.
Context (g : gmap string (list string)) (U : gset string).
Hypothesis closed : forall x d, edge g x d -> d ∈ U.

Lemma hasCycle_total fuel node st :
  node ∈ U -> node ∉ visited st -> size (U ∖ visited st) <= fuel ->
  exists b st', hasCycle fuel g node st = Some (b, st') /\ visited st ⊆ visited st'.
Proof using closed.
  revert node st. induction fuel as [|fuel IH]; intros node st Hn Hv Hf.
  { assert (U ∖ visited st ≡ ∅) as He by (apply size_empty_inv; lia). set_solver. }
  cbn [hasCycle]. set (st0 := mkDfs _ _).
  assert (size (U ∖ visited st0) <= fuel) as Hf0.
  { assert (size (U ∖ visited st0) < size (U ∖ visited st)); [|lia].
    apply subset_size. simpl. set_solver. }
  assert (visited st ⊆ visited st0) as Hmono by (simpl; set_solver).
  assert (exists b st', visit_deps (hasCycle fuel g) (default [] (g !! node)) st0 = Some (b, st') /\
    visited st0 ⊆ visited st') as (b & st' & -> & Hv').
  { clear Hmono. assert (forall d, d ∈ default [] (g !! node) -> d ∈ U) as Hd
      by (intros d Hd; by eapply closed).
    revert Hf0 Hd. generalize (default [] (g !! node)) as deps. generalize st0 as st1. clear -IH.
    intros st1 deps. revert st1. induction deps as [|d deps IHd]; intros st1 Hf0 Hd; [by exists false, st1|].
    simpl. destruct (decide (d ∉ visited st1)) as [Hdv|Hdv].
    - destruct (IH d st1) as ([] & st2 & -> & Hm2); [set_solver|done|done|by exists true, st2|].
      destruct (IHd st2) as (b & st3 & E3 & Hm3); [|set_solver|].
      + etrans; [|exact Hf0]. apply subseteq_size. set_solver.
      + exists b, st3. split; [done|set_solver].
    - case_decide; [by exists true, st1|]. apply IHd; [done|set_solver]. }
  destruct b; [exists true, st'|exists false; eexists]; (split; [done|simpl; set_solver]).
Qed.

Lemma find_cycle_total fuel steps st :
  (forall s, s ∈ steps -> ws_ID s ∈ U) -> size (U ∖ visited st) <= fuel ->
  exists r, find_cycle fuel g steps st = Some r.
Proof using closed.
  revert st. induction steps as [|s steps IH]; intros st Hs Hf; simpl; [by eexists|].
  case_decide as Hv; [|apply IH; [set_solver|done]].
  destruct (hasCycle_total fuel (ws_ID s) st) as ([] & st1 & -> & Hm); [set_solver|done|done|by eexists|].
  apply IH; [set_solver|]. etrans; [|exact Hf]. apply subseteq_size. set_solver.
Qed.
End fuel.

Lemma find_cycle_spec fuel g steps st r st' :
  dfs_ok g st -> recStack st = ∅ -> find_cycle fuel g steps st = Some (r, st') ->
  match r with
  | Some _ => exists x, tc (edge g) x x
  | None => dfs_extends g st st' /\ forall s, s ∈ steps -> ws_ID s ∈ finished st'
  end.
Proof.
  revert st. induction steps as [|s steps IH]; intros st Hok Hst E; simpl in E.
  { simplify_eq. split; [by split|set_solver]. }
  assert (forall st1, dfs_extends g st st1 -> ws_ID s ∈ finished st1 ->
    find_cycle fuel g steps st1 = Some (r, st') ->
    match r with
    | Some _ => exists x, tc (edge g) x x
    | None => dfs_extends g st st' /\ forall s', s' ∈ s :: steps -> ws_ID s' ∈ finished st'
    end) as Hrest.
  { intros st1 Hext Hs E1. pose proof (ext_stack _ _ _ Hext) as Es. rewrite Hst in Es.
    specialize (IH st1 (ext_ok _ _ _ Hext) Es E1). destruct r; [done|].
    destruct IH as [Hext' Hf]. split; [by eapply dfs_extends_trans|].
    intros s' [->|Hs']%elem_of_cons; [|by apply Hf]. by eapply dfs_extends_finished. }
  case_decide as Hv.
  - destruct (hasCycle fuel g (ws_ID s) st) as [[b st1]|] eqn:Eh; [|done].
    apply (hasCycle_spec fuel g) in Eh; [|done|done|rewrite Hst; set_solver].
    destruct b; simplify_eq; [done|]. destruct Eh as [Hext Hs]. by eapply Hrest.
  - eapply (Hrest st); [by split|unfold finished; rewrite Hst; set_solver|done].
Qed.

(** A graph whose nodes can be ordered has no cycle. *)
Lemma topo_edge g l x d : topo g l -> x ∈ l -> edge g x d -> d ∈ l.
Proof.
  induction 1 as [|l y Ht IH Hd]; [set_solver|]. intros Hx He. rewrite elem_of_app in *.
  destruct Hx as [Hx| ->%list_elem_of_singleton]; left; [by apply IH|by apply Hd].
Qed.

Lemma topo_tc g l x d : topo g l -> x ∈ l -> tc (edge g) x d -> d ∈ l.
Proof.
  intros Ht Hx Htc. revert Hx. induction Htc; intros Hx; [by eapply topo_edge|].
  by eapply IHHtc, topo_edge.
Qed.

Lemma topo_acyclic g l : topo g l -> forall x, x ∈ l -> ~ tc (edge g) x x.
Proof.
  induction 1 as [|l y Ht IH Hd]; intros x Hx Htc; [set_solver|].
  destruct (decide (x ∈ l)) as [Hxl|Hxl]; [by eapply IH|].
  rewrite elem_of_app, list_elem_of_singleton in Hx. destruct Hx as [|<-]; [done|].
  apply Hxl. inversion Htc as [? ? He|? y ? He Htc']; subst; [by apply Hd|].
  eapply topo_tc; [done| |done]. by apply Hd.
Qed.

(** ** The dependency graph of a list of steps *)
(** The first element of a topological order with a property: none of its
    dependencies has it. *)
Lemma topo_first g l (P : string -> Prop) `{forall x, Decision (P x)} :
  topo g l -> (exists x, x ∈ l /\ P x) -> exists x, x ∈ l /\ P x /\ forall d, edge g x d -> ~ P d.
Proof.
  induction 1 as [|l y Ht IH Hd]; intros (x & Hx & HP); [set_solver|].
  destruct (decide (Exists P l)) as [(z & Hz & HPz)%Exists_exists|Hno].
  { destruct IH as (z' & Hz' & HPz'); [by exists z|]. exists z'. split; [set_solver|done]. }
  assert (forall z, z ∈ l -> ~ P z) as Hl by (intros z Hz HPz; apply Hno, Exists_exists; eauto).
  exists y. rewrite elem_of_app, list_elem_of_singleton in Hx. destruct Hx as [Hx| ->].
  - by destruct (Hl x Hx).
  - split; [set_solver|]. split; [done|]. intros d He. apply Hl. by apply Hd.
Qed.

Lemma dep_graph_lookup steps s :
  NoDup (ws_ID <$> steps) -> s ∈ steps -> dep_graph steps !! ws_ID s = Some (ws_DependsOn s).
Proof.
  unfold dep_graph. generalize (∅ : gmap string (list string)). induction steps as [|s' steps IH];
    intros g Hn Hs; [set_solver|]. cbn [fmap list_fmap] in Hn. apply NoDup_cons in Hn as [Hs' Hn].
  simpl. apply elem_of_cons in Hs as [->|Hin]; [|by apply IH]. clear IH.
  assert (forall g' : gmap string (list string), g' !! ws_ID s' = Some (ws_DependsOn s') ->
    foldl (fun g step => <[ws_ID step := ws_DependsOn step]> g) g' steps !! ws_ID s' =
    Some (ws_DependsOn s')) as Hg; [|apply Hg, lookup_insert_eq].
  induction steps as [|s steps IH]; intros g' Hg'; [done|]. cbn [fmap list_fmap] in *.
  simpl. apply IH; [set_solver|by apply NoDup_cons in Hn as []|].
  rewrite lookup_insert_ne; [done|set_solver].
Qed.

Lemma dep_graph_edge steps x d :
  edge (dep_graph steps) x d -> exists s, s ∈ steps /\ ws_ID s = x /\ d ∈ ws_DependsOn s.
Proof.
  unfold edge, deps_of, dep_graph. assert (forall g : gmap string (list string),
    d ∈ default [] (foldl (fun g step => <[ws_ID step := ws_DependsOn step]> g) g steps !! x) ->
    d ∈ default [] (g !! x) \/ exists s, s ∈ steps /\ ws_ID s = x /\ d ∈ ws_DependsOn s) as Hg.
  { induction steps as [|s steps IH]; intros g; simpl; [auto|].
    intros [Hd|(s' & Hs' & Hx & Hd)]%IH; [|right; exists s'; set_solver].
    rewrite lookup_insert in Hd. case_decide as Hx; [|by left].
    right. exists s. simpl in Hd. set_solver. }
  intros [Hd|]%Hg; [|done]. rewrite lookup_empty in Hd. simpl in Hd. set_solver.
Qed.

Lemma check_references_None st steps :
  (forall s d, s ∈ steps -> d ∈ ws_DependsOn s -> d ∈ visited st) -> check_references st steps = None.
Proof.
  induction steps as [|s steps IH]; intros Hv; [done|]. simpl. unfold first_unvisited.
  destruct (list_find _ _) as [[i d]|] eqn:E; [|by apply IH; set_solver].
  apply list_find_Some in E as (Hd & Hn & _). destruct Hn. apply (Hv s); [set_solver|].
  by eapply list_elem_of_lookup_2.
Qed.

(** The search over a workflow's steps ends, with a topological order of all
    steps or with a cycle. *)
Lemma search_result steps :
  exists r st, find_cycle (S (length (step_nodes steps))) (dep_graph steps) steps (mkDfs ∅ ∅) =
      Some (r, st) /\
    match r with
    | Some _ => exists x, tc (edge (dep_graph steps)) x x
    | None => exists ord, topo (dep_graph steps) ord /\ (forall s, s ∈ steps -> ws_ID s ∈ ord) /\
        forall x, x ∈ ord -> x ∈ visited st
    end.
Proof.
  set (U := list_to_set (step_nodes steps) : gset string).
  assert (forall x d, edge (dep_graph steps) x d -> d ∈ U) as HU.
  { intros x d (s & Hs & _ & Hd)%dep_graph_edge. unfold U, step_nodes.
    rewrite elem_of_list_to_set, elem_of_app. right. apply list_elem_of_bind. eauto. }
  destruct (find_cycle_total (dep_graph steps) U HU (S (length (step_nodes steps))) steps (mkDfs ∅ ∅))
    as [[r st] E].
  { intros s Hs. unfold U, step_nodes. rewrite elem_of_list_to_set, elem_of_app. left.
    apply list_elem_of_fmap. eauto. }
  { simpl. rewrite difference_empty_L. etrans; [apply list_to_set_size_le|lia]. }
  exists r, st. split; [done|]. apply find_cycle_spec in E; [|split; [done|]|done].
  2: { exists []. split; [constructor|]. unfold finished. simpl. set_solver. }
  destruct r; [done|]. destruct E as [[[_ (ord & Ht & Hord)] _ _] Hf]. exists ord.
  split; [done|]. split; [intros s Hs; by apply Hord, Hf|]. intros x Hx%Hord.
  unfold finished in Hx. set_solver.
Qed.

Lemma validateDependencies_topo steps :
  NoDup (ws_ID <$> steps) ->
  (validateDependencies steps = Some None /\
   exists ord, topo (dep_graph steps) ord /\ forall s, s ∈ steps -> ws_ID s ∈ ord) \/
  ((exists id, validateDependencies steps = Some (Some (NewValidationError "dependencies"
     ("circular dependency detected involving step " +:+ id) (Some ErrCircularDependency)))) /\
   exists x, tc (edge (dep_graph steps)) x x).
Proof.
  intros Hn. destruct (search_result steps) as (r & st & E & Hr). unfold validateDependencies.
  rewrite E. destruct r as [id|]; [right; eauto|]. left. destruct Hr as (ord & Ht & Hs & Hv).
  split; [|eauto]. f_equal. apply check_references_None. intros s d Hin Hd.
  apply Hv. eapply topo_edge; [done|by apply Hs|]. unfold edge, deps_of.
  by rewrite dep_graph_lookup.
Qed.

Lemma topo_steps_acyclic steps ord :
  topo (dep_graph steps) ord -> (forall s, s ∈ steps -> ws_ID s ∈ ord) -> acyclic (dep_graph steps).
Proof.
  intros Ht Hs x Htc. eapply topo_acyclic; [done| |done].
  assert (exists d, edge (dep_graph steps) x d) as [d Hd] by (inversion Htc; subst; eauto).
  apply dep_graph_edge in Hd as (s & Hin & <- & _). by apply Hs.
Qed.

(** C35. The dependency check of a workflow with distinct step identifiers always
    ends, and accepts exactly the workflows whose dependencies have no cycle; what
    it rejects it reports as a circular dependency.  (A dependency on a step that
    does not exist is not rejected here: the search marks it as visited like any
    other.  It is rejected when the steps are validated one by one.) *)
Theorem cycle_detection_exact steps :
  NoDup (ws_ID <$> steps) ->
  (validateDependencies steps = Some None /\ acyclic (dep_graph steps)) \/
  ((exists id, validateDependencies steps = Some (Some (NewValidationError "dependencies"
     ("circular dependency detected involving step " +:+ id) (Some ErrCircularDependency)))) /\
   ~ acyclic (dep_graph steps)).
Proof.
  intros Hn. destruct (validateDependencies_topo steps Hn) as [(E & ord & Ht & Hs)|(E & x & Hx)].
  - left. split; [done|]. by eapply topo_steps_acyclic.
  - right. split; [done|]. intros Ha. by apply (Ha x).
Qed.

Lemma cycle_detection_exact_witness :
  validateDependencies sample_steps = Some None /\ acyclic (dep_graph sample_steps) /\
  ~ acyclic (dep_graph [sample_step "a" ["b"]; sample_step "b" ["a"]]).
Proof.
  split; [reflexivity|]. split.
  - destruct (cycle_detection_exact sample_steps) as [[_ Ha]|[[id E] _]];
      [apply (bool_decide_unpack _); vm_compute; exact I|exact Ha|vm_compute in E; discriminate E].
  - destruct (cycle_detection_exact [sample_step "a" ["b"]; sample_step "b" ["a"]]) as [[E _]|[_ Ha]];
      [apply (bool_decide_unpack _); vm_compute; exact I|vm_compute in E; discriminate E|exact Ha].
Defined.

(** ** What an accepted workflow satisfies *)
Lemma collect_ids_spec steps ids ids' :
  collect_ids steps ids = inr ids' ->
  NoDup (ws_ID <$> steps) /\ (forall s, s ∈ steps -> ws_ID s ∉ ids) /\
  ids' = list_to_set (ws_ID <$> steps) ∪ ids.
Proof.
  revert ids. induction steps as [|s steps IH]; intros ids E; simpl in E.
  { simplify_eq. split_and!; [constructor|set_solver|set_solver]. }
  case_decide; [done|]. case_decide as Hin; [done|]. apply IH in E as (Hn & Hids & ->).
  cbn [fmap list_fmap]. split_and!.
  - apply NoDup_cons. split; [|done]. intros (s' & Heq & Hs')%list_elem_of_fmap.
    apply (Hids s' Hs'). rewrite <- Heq. set_solver.
  - intros s' [->|Hs']%elem_of_cons; [done|]. specialize (Hids s' Hs'). set_solver.
  - set_solver.
Qed.

Lemma validateStep_deps quote ids s :
  validateStep quote ids s = None -> forall d, d ∈ ws_DependsOn s -> d ∈ ids.
Proof.
  unfold validateStep. intros E d Hd. case_match; [done|].
  destruct (list_find _ (ws_DependsOn s)) as [[i d']|] eqn:Ef; [done|].
  apply list_find_None in Ef. rewrite Forall_forall in Ef.
  specialize (Ef d Hd). by apply dec_stable in Ef.
Qed.

Lemma accepted_workflow quote def :
  ValidateWorkflow quote (Some def) = Some None ->
  NoDup (ws_ID <$> wd_Steps def) /\
  (forall s d, s ∈ wd_Steps def -> d ∈ ws_DependsOn s -> d ∈ ws_ID <$> wd_Steps def) /\
  exists ord, topo (dep_graph (wd_Steps def)) ord /\ forall s, s ∈ wd_Steps def -> ws_ID s ∈ ord.
Proof.
  unfold ValidateWorkflow. intros E. do 3 (case_match; [done|]).
  destruct (collect_ids (wd_Steps def) ∅) as [err|ids] eqn:Ei; [done|].
  apply collect_ids_spec in Ei as (Hn & _ & Hids).
  destruct (validateDependencies_topo (wd_Steps def) Hn) as [[Ev Ht]|[[id Ev] _]];
    rewrite Ev in E; [|done].
  split; [done|]. split; [|done]. intros s d Hs Hd.
  destruct (list_find _ _) as [[i e]|] eqn:Ef.
  { apply list_find_Some in Ef as (_ & He & _). by simplify_eq. }
  apply list_find_None in Ef. rewrite Forall_forall in Ef.
  assert (validateStep quote ids s = None) as Es.
  { destruct (validateStep _ _ s) as [err|] eqn:Es; [|done]. exfalso. apply (Ef (Some err)); [|done].
    apply list_elem_of_fmap. exists s. by rewrite Es. }
  apply (validateStep_deps _ _ _ Es) in Hd. set_solver.
Qed.
