(* ===== verification/DagExecutor.v ===== *)
(** * The DAG executor of composite-tool workflows ([pkg/vmcp/composer/dag_executor.go])

    [buildExecutionLevels] is the level-by-level topological sort, over any
    order in which the loop over the in-degrees visits the map ([range]).  Its
    outer loop has fuel: each round places at least one step or fails, so one
    round more than there are steps is enough.  The execution of the levels is in
    the file [DagExecution]. *)

From S2P Require Import Prelude VmcpTypes WorkflowTypes OutputConfig Workflow.

Definition defaultMaxParallelSteps : Z := 10.

Definition newDAGExecutor (maxParallel : Z) : Z :=
  if (maxParallel <=? 0)%Z then defaultMaxParallelSteps else maxParallel.

(** ** Levels *)
Definition step_map (steps : list WorkflowStep) : gmap string WorkflowStep :=
  foldl (fun m s => <[ws_ID s := s]> m) ∅ steps.

Record dep_counts := mkCounts {
  dependents : gmap string (list string);
  inDegree : gmap string Z;
}.

Definition init_counts (steps : list WorkflowStep) : dep_counts :=
  foldl (fun c s => mkCounts (<[ws_ID s := []]> (dependents c)) (<[ws_ID s := 0%Z]> (inDegree c)))
    (mkCounts ∅ ∅) steps.

(** The inner loop body of the graph construction. *)
Definition add_edge (id : string) (c : dep_counts) (depID : string) : dep_counts :=
  mkCounts (<[depID := default [] (dependents c !! depID) ++ [id]]> (dependents c))
    (<[id := (default 0 (inDegree c !! id) + 1)%Z]> (inDegree c)).

Definition build_graph (steps : list WorkflowStep) : dep_counts :=
  foldl (fun c s => foldl (add_edge (ws_ID s)) c (ws_DependsOn s)) (init_counts steps) steps.

Section levels.
Context (range : gmap string Z -> list (string * Z)).

(** The steps of the current level, in visiting order.  The in-degrees are
    keyed by step identifiers, so the lookup in [stepMap] never fails. *)
Definition current_level (inDeg : gmap string Z) (processed : gset string) : list string :=
  (filter (fun p => p.2 = 0%Z /\ p.1 ∉ processed) (range inDeg)).*1.

Definition decrement (inDeg : gmap string Z) (id : string) : gmap string Z :=
  <[id := (default 0 (inDeg !! id) - 1)%Z]> inDeg.

Fixpoint build_levels (fuel : nat) (nsteps : nat) (stepMap : gmap string WorkflowStep)
    (deps : gmap string (list string)) (inDeg : gmap string Z) (processed : gset string)
    (levels : list (list WorkflowStep)) : option (workflow_cause + list (list WorkflowStep)) :=
  match fuel with
  | 0 => None
  | S fuel =>
      if decide (size processed < nsteps) then
        let ids := current_level inDeg processed in
        if decide (length ids = 0) then Some (inl ErrCircularDependency)
        else
          build_levels fuel nsteps stepMap deps
            (foldl decrement inDeg (ids ≫= fun id => default [] (deps !! id)))
            (list_to_set ids ∪ processed)
            (levels ++ [omap (fun id => stepMap !! id) ids])
      else Some (inr levels)
  end.

Definition buildExecutionLevels (steps : list WorkflowStep)
    : option (workflow_cause + list (list WorkflowStep)) :=
  let c := build_graph steps in
  build_levels (S (length steps)) (length steps) (step_map steps) (dependents c) (inDegree c) ∅ [].
End levels.

(** ** Statistics *)
Record execution_stats := {
  total_levels : Z;
  total_steps : Z;
  max_parallelism : Z;
  min_parallelism : Z;
  sequential_steps : Z;
}.

Definition add_level_stats (st : execution_stats) (level : list WorkflowStep) : execution_stats :=
  let levelSize := Z.of_nat (length level) in {|
  total_levels := total_levels st;
  total_steps := total_steps st + levelSize;
  max_parallelism :=
    if (max_parallelism st =? 0)%Z || (max_parallelism st <? levelSize)%Z then levelSize
    else max_parallelism st;
  min_parallelism :=
    if (min_parallelism st =? 0)%Z || (levelSize <? min_parallelism st)%Z then levelSize
    else min_parallelism st;
  sequential_steps :=
    if (levelSize =? 1)%Z then sequential_steps st + 1 else sequential_steps st;
|}.

Definition getExecutionStats (levels : list (list WorkflowStep)) : execution_stats :=
  foldl add_level_stats
    {| total_levels := Z.of_nat (length levels); total_steps := 0; max_parallelism := 0;
       min_parallelism := 0; sequential_steps := 0 |} levels.

(** ** Execution *)
Definition shouldContinueOnError (step : WorkflowStep) (failureMode : string) : bool :=
  match ws_OnError step with
  | Some h => if eh_ContinueOnError h then true else bool_decide (failureMode = "continue")
  | None => bool_decide (failureMode = "continue")
  end.

(** ** Counting dependencies *)
Abbreviation dep_edges := (list (string * string)) (only parsing).

(** The pairs of a dependency and the step that has it. *)
Definition edges (steps : list WorkflowStep) : dep_edges :=
  steps ≫= fun s => (fun d => (d, ws_ID s)) <$> ws_DependsOn s.

Definition cnt (P : string * string -> Prop) `{forall e, Decision (P e)} (es : dep_edges) : Z :=
  Z.of_nat (length (filter P es)).

Lemma cnt_split P Q R `{forall e, Decision (P e)} `{forall e, Decision (Q e)}
    `{forall e, Decision (R e)} es :
  (forall e, R e <-> P e \/ Q e) -> (forall e, ~ (P e /\ Q e)) ->
  cnt R es = (cnt P es + cnt Q es)%Z.
Proof.
  intros HR Hd. unfold cnt. induction es as [|e es IH]; [done|]. rewrite !filter_cons.
  specialize (HR e). specialize (Hd e). repeat case_decide; simpl in *; try lia; tauto.
Qed.

Lemma cnt_0 P `{forall e, Decision (P e)} es : cnt P es = 0%Z <-> forall e, e ∈ es -> ~ P e.
Proof.
  unfold cnt. split.
  - intros E e He HP. assert (e ∈ filter P es) as Hin by (by apply list_elem_of_filter).
    destruct (filter P es); [set_solver|simpl in E; lia].
  - intros HP. destruct (filter P es) as [|e l] eqn:E; [done|].
    assert (e ∈ filter P es) as [He Hin]%list_elem_of_filter by (rewrite E; left).
    by destruct (HP e Hin).
Qed.

Lemma cnt_ext P Q `{forall e, Decision (P e)} `{forall e, Decision (Q e)} es :
  (forall e, e ∈ es -> P e <-> Q e) -> cnt P es = cnt Q es.
Proof.
  intros HPQ. unfold cnt. do 2 f_equal. induction es as [|e es IH]; [done|].
  rewrite !filter_cons. rewrite IH by set_solver.
  pose proof (HPQ e ltac:(left)). repeat case_decide; tauto.
Qed.

(** ** The graph construction counts the dependencies *)
Lemma build_graph_edges steps c :
  foldl (fun c s => foldl (add_edge (ws_ID s)) c (ws_DependsOn s)) c steps =
  foldl (fun c e => add_edge e.2 c e.1) c (edges steps).
Proof.
  revert c. induction steps as [|s steps IH]; intros c; [done|].
  cbn [foldl edges mbind list_bind]. change (list_bind _ _ ?f steps) with (steps ≫= f).
  rewrite foldl_app, IH. f_equal. generalize c. clear.
  induction (ws_DependsOn s) as [|d ds IHd]; intros c; [done|]. simpl. apply IHd.
Qed.

Lemma add_edges_dependents es c d :
  default [] (dependents (foldl (fun c e => add_edge e.2 c e.1) c es) !! d) =
  default [] (dependents c !! d) ++ (filter (fun e => e.1 = d) es).*2.
Proof.
  revert c. induction es as [|[d' x] es IH]; intros c; cbn [foldl]; [by rewrite app_nil_r|].
  rewrite IH, filter_cons. simpl. rewrite lookup_insert. case_decide as Hd; [|done].
  subst. simpl. by rewrite <- app_assoc.
Qed.

Lemma add_edges_inDegree es c x :
  default 0%Z (inDegree (foldl (fun c e => add_edge e.2 c e.1) c es) !! x) =
  (default 0 (inDegree c !! x) + cnt (fun e => e.2 = x) es)%Z.
Proof.
  revert c. induction es as [|[d' y] es IH]; intros c; cbn [foldl]; [unfold cnt; simpl; lia|].
  rewrite IH. unfold cnt. rewrite filter_cons. simpl. rewrite lookup_insert.
  repeat case_decide; subst; simpl; try done; lia.
Qed.

Lemma add_edges_dom es c :
  dom (inDegree (foldl (fun c e => add_edge e.2 c e.1) c es)) =
  dom (inDegree c) ∪ list_to_set es.*2.
Proof.
  revert c. induction es as [|[d x] es IH]; intros c; cbn [foldl]; [set_solver|].
  rewrite IH. simpl. rewrite dom_insert_L. set_solver.
Qed.

Lemma init_counts_spec steps :
  dom (inDegree (init_counts steps)) = list_to_set (ws_ID <$> steps) /\
  (forall x, default 0%Z (inDegree (init_counts steps) !! x) = 0%Z) /\
  (forall d, default [] (dependents (init_counts steps) !! d) = []).
Proof.
  unfold init_counts. assert (forall c,
    (forall x, default 0%Z (inDegree c !! x) = 0%Z) -> (forall d, default [] (dependents c !! d) = []) ->
    let c' := foldl (fun c s => mkCounts (<[ws_ID s := []]> (dependents c))
      (<[ws_ID s := 0%Z]> (inDegree c))) c steps in
    dom (inDegree c') = list_to_set (ws_ID <$> steps) ∪ dom (inDegree c) /\
    (forall x, default 0%Z (inDegree c' !! x) = 0%Z) /\
    (forall d, default [] (dependents c' !! d) = [])) as Hc.
  { induction steps as [|s steps IH]; intros c H1 H2; simpl; [split_and!; [set_solver|done|done]|].
    destruct (IH (mkCounts (<[ws_ID s := []]> (dependents c)) (<[ws_ID s := 0%Z]> (inDegree c))))
      as (H3 & H4 & H5).
    - intros x. simpl. rewrite lookup_insert. by case_decide.
    - intros d. simpl. rewrite lookup_insert. by case_decide.
    - split_and!; [|done|done]. rewrite H3. simpl. rewrite dom_insert_L. set_solver. }
  destruct (Hc (mkCounts ∅ ∅)) as (H1 & H2 & H3); [done|done|].
  split_and!; [|done|done]. rewrite H1. simpl. set_solver.
Qed.

Lemma edges_elem steps d x :
  (d, x) ∈ edges steps <-> exists s, s ∈ steps /\ ws_ID s = x /\ d ∈ ws_DependsOn s.
Proof.
  unfold edges. rewrite list_elem_of_bind. split.
  - intros (s & (d' & [= -> ->] & Hd)%list_elem_of_fmap & Hs). eauto.
  - intros (s & Hs & <- & Hd). exists s. split; [|done]. apply list_elem_of_fmap. eauto.
Qed.

Lemma build_graph_spec steps :
  let c := build_graph steps in
  dom (inDegree c) = list_to_set (ws_ID <$> steps) /\
  (forall x, default 0%Z (inDegree c !! x) = cnt (fun e => e.2 = x) (edges steps)) /\
  (forall d, default [] (dependents c !! d) = (filter (fun e => e.1 = d) (edges steps)).*2).
Proof.
  unfold build_graph. rewrite build_graph_edges.
  destruct (init_counts_spec steps) as (H1 & H2 & H3). split_and!.
  - rewrite add_edges_dom, H1. apply set_eq. intros x. rewrite elem_of_union, !elem_of_list_to_set.
    split; [|by left]. intros [|Hx]; [done|].
    apply list_elem_of_fmap in Hx as ([d y] & -> & (s & Hs & <- & _)%edges_elem).
    apply list_elem_of_fmap. eauto.
  - intros x. by rewrite add_edges_inDegree, H2.
  - intros d. by rewrite add_edges_dependents, H3.
Qed.

(** ** One round of the sort *)
Lemma decrement_all ids m x :
  default 0%Z (foldl decrement m ids !! x) =
  (default 0 (m !! x) - Z.of_nat (length (filter (fun y => y = x) ids)))%Z.
Proof.
  revert m. induction ids as [|y ids IH]; intros m; cbn [foldl]; [simpl; lia|].
  rewrite IH, filter_cons. unfold decrement. rewrite lookup_insert.
  repeat case_decide; subst; simpl; try done; lia.
Qed.

Lemma decrement_dom ids m : dom (foldl decrement m ids) = dom m ∪ list_to_set ids.
Proof.
  revert m. induction ids as [|y ids IH]; intros m; cbn [foldl]; [set_solver|].
  rewrite IH. unfold decrement. rewrite dom_insert_L. set_solver.
Qed.

Lemma count_dependents (es : dep_edges) (lvl : list string) x :
  NoDup lvl ->
  Z.of_nat (length (filter (fun y => y = x)
    (lvl ≫= fun id => (filter (fun e => e.1 = id) es).*2))) =
  cnt (fun e => e.2 = x /\ e.1 ∈ lvl) es.
Proof.
  induction 1 as [|id lvl Hid Hn IH].
  { symmetry. apply cnt_0. set_solver. }
  cbn [mbind list_bind]. change (list_bind _ _ ?f lvl) with (lvl ≫= f).
  rewrite filter_app, length_app, Nat2Z.inj_add, IH.
  rewrite (cnt_split (fun e => e.1 = id /\ e.2 = x) (fun e => e.2 = x /\ e.1 ∈ lvl)
    (fun e => e.2 = x /\ e.1 ∈ id :: lvl)).
  - f_equal. unfold cnt. f_equal. clear. induction es as [|e es IH]; [done|].
    rewrite !filter_cons. destruct (decide (e.1 = id)); cbn [fmap list_fmap].
    + rewrite filter_cons. repeat case_decide; simpl; try tauto; by rewrite IH.
    + rewrite IH. case_decide; [tauto|done].
  - intros e. rewrite elem_of_cons. tauto.
  - intros e [[-> _] [_ ?]]. done.
Qed.

Section sort.
Context (range : gmap string Z -> list (string * Z)).
Hypothesis range_ok : forall m, range m ≡ₚ map_to_list m.
Context (steps : list WorkflowStep).

Lemma current_level_elem inDeg processed x :
  x ∈ current_level range inDeg processed <-> inDeg !! x = Some 0%Z /\ x ∉ processed.
Proof using range_ok.
  unfold current_level. rewrite list_elem_of_fmap. split.
  - intros ([y d] & -> & [[Hd Hp] Hin]%list_elem_of_filter). simpl in *. subst.
    rewrite range_ok, elem_of_map_to_list in Hin. done.
  - intros [Hx Hp]. exists (x, 0%Z). split; [done|]. apply list_elem_of_filter.
    split; [done|]. by rewrite range_ok, elem_of_map_to_list.
Qed.

Lemma current_level_nodup inDeg processed : NoDup (current_level range inDeg processed).
Proof using range_ok.
  unfold current_level. assert (NoDup (range inDeg).*1) as Hn
    by (rewrite range_ok; apply NoDup_fst_map_to_list).
  revert Hn. generalize (range inDeg). intros l Hn. induction l as [|[x d] l IH]; [constructor|].
  cbn [fmap list_fmap] in Hn. apply NoDup_cons in Hn as [Hx Hn]. rewrite filter_cons.
  case_decide; [|by apply IH]. cbn [fmap list_fmap]. apply NoDup_cons. split; [|by apply IH].
  contradict Hx. apply list_elem_of_fmap in Hx as (p & -> & [_ Hin]%list_elem_of_filter).
  apply list_elem_of_fmap. eauto.
Qed.

(** The state between two rounds: the in-degrees count the dependencies not yet
    placed, and the placed steps are in levels after their dependencies. *)
Record sort_inv (inDeg : gmap string Z) (processed : gset string)
    (levels : list (list WorkflowStep)) : Prop := {
  si_dom : dom inDeg = list_to_set (ws_ID <$> steps);
  si_deg : forall x, default 0%Z (inDeg !! x) = cnt (fun e => e.2 = x /\ e.1 ∉ processed) (edges steps);
  si_sub : processed ⊆ list_to_set (ws_ID <$> steps);
  si_placed : forall x, x ∈ ws_ID <$> concat levels <-> x ∈ processed;
  si_nodup : NoDup (ws_ID <$> concat levels);
  si_steps : forall s, s ∈ concat levels -> s ∈ steps;
  si_order : forall i l s d, levels !! i = Some l -> s ∈ l -> d ∈ ws_DependsOn s ->
    exists j l' s', j < i /\ levels !! j = Some l' /\ s' ∈ l' /\ ws_ID s' = d;
  si_nonempty : forall l, l ∈ levels -> l <> [];
}.

Lemma step_map_lookup x :
  x ∈ ws_ID <$> steps -> exists s, step_map steps !! x = Some s /\ ws_ID s = x /\ s ∈ steps.
Proof using.
  clear range_ok range.
  intros Hx. unfold step_map. assert (forall m : gmap string WorkflowStep,
    (exists s, foldl (fun m s => <[ws_ID s := s]> m) m steps !! x = Some s /\ ws_ID s = x /\ s ∈ steps))
    as Hm; [|apply Hm].
  induction steps as [|s ss IH]; intros m; [set_solver|]. cbn [foldl].
  destruct (decide (x ∈ ws_ID <$> ss)) as [Hin|Hin].
  { destruct (IH Hin (<[ws_ID s := s]> m)) as (s' & Hs' & Hid & Hel). exists s'. set_solver. }
  cbn [fmap list_fmap] in Hx. apply elem_of_cons in Hx as [->|]; [|done].
  exists s. split_and!; [|done|left]. clear IH.
  assert (forall m' : gmap string WorkflowStep, m' !! ws_ID s = Some s ->
    foldl (fun m s => <[ws_ID s := s]> m) m' ss !! ws_ID s = Some s) as Hm; [|apply Hm, lookup_insert_eq].
  induction ss as [|s' ss IH]; intros m' Hm'; [done|]. cbn [foldl]. cbn [fmap list_fmap] in Hin.
  apply IH; [set_solver|]. rewrite lookup_insert_ne; [done|set_solver].
Qed.

Lemma level_steps (ids : list string) :
  (forall x, x ∈ ids -> x ∈ ws_ID <$> steps) ->
  ws_ID <$> omap (fun id => step_map steps !! id) ids = ids /\
  forall s, s ∈ omap (fun id => step_map steps !! id) ids -> s ∈ steps.
Proof using.
  clear range_ok range.
  induction ids as [|x ids IH]; intros Hids; [split; [done|set_solver]|].
  destruct (step_map_lookup x) as (s & Hs & Hid & Hin); [set_solver|].
  cbn [omap list_omap]. rewrite Hs. destruct IH as [IH1 IH2]; [set_solver|].
  split; [cbn [fmap list_fmap]; rewrite Hid; by f_equal|].
  intros s' [->|Hs']%elem_of_cons; [done|by apply IH2].
Qed.

Lemma placed_before levels d :
  d ∈ ws_ID <$> concat levels ->
  exists j l s, j < length levels /\ levels !! j = Some l /\ s ∈ l /\ ws_ID s = d.
Proof using.
  clear range_ok range.
  intros (s & -> & Hs)%list_elem_of_fmap.
  apply list_elem_of_In, in_concat in Hs as (l & Hl%list_elem_of_In & Hs%list_elem_of_In).
  apply list_elem_of_lookup_1 in Hl as [j Hj]. exists j, l, s. split_and!; [by eapply lookup_lt_Some|done|done|done].
Qed.

Lemma sort_round inDeg processed levels :
  sort_inv inDeg processed levels -> current_level range inDeg processed <> [] ->
  let ids := current_level range inDeg processed in
  sort_inv (foldl decrement inDeg (ids ≫= fun id => default [] (dependents (build_graph steps) !! id)))
    (list_to_set ids ∪ processed)
    (levels ++ [omap (fun id => step_map steps !! id) ids]).
Proof using range_ok.
  intros [Hdom Hdeg Hsub Hpl Hnd Hst Hord Hne] Hnew ids.
  assert (NoDup ids) as Hn by apply current_level_nodup.
  assert (forall x, x ∈ ids -> x ∈ (ws_ID <$> steps) /\ (x ∉ processed) /\
    cnt (fun e => e.2 = x /\ e.1 ∉ processed) (edges steps) = 0%Z) as Hids.
  { intros x [Hx Hp]%current_level_elem. rewrite <- Hdeg, Hx. split_and!; [|done|done].
    apply elem_of_dom_2 in Hx. rewrite Hdom in Hx. by apply elem_of_list_to_set in Hx. }
  destruct (level_steps ids) as [Hlid Hlst]; [intros x Hx; by apply Hids|].
  destruct (build_graph_spec steps) as (_ & _ & Hdep).
  assert ((ids ≫= fun id => default [] (dependents (build_graph steps) !! id)) =
    (ids ≫= fun id => (filter (fun e => e.1 = id) (edges steps)).*2)) as ->.
  { apply list_bind_ext; [|done]. intros id. apply Hdep. }
  split.
  - rewrite decrement_dom, Hdom. apply set_eq. intros x. rewrite elem_of_union, !elem_of_list_to_set.
    split; [|by left]. intros [|Hx]; [done|]. apply list_elem_of_bind in Hx as (id & Hx & _).
    apply list_elem_of_fmap in Hx as ([d y] & -> & [_ Hin]%list_elem_of_filter). simpl.
    apply edges_elem in Hin as (s & Hs & <- & _). apply list_elem_of_fmap. eauto.
  - intros x. rewrite decrement_all, Hdeg, count_dependents by done.
    rewrite (cnt_split (fun e => e.2 = x /\ e.1 ∈ ids)
      (fun e => e.2 = x /\ e.1 ∉ list_to_set ids ∪ processed)
      (fun e => e.2 = x /\ e.1 ∉ processed)); [lia| |].
    + intros e. destruct (decide (e.1 ∈ ids)) as [Hin|]; [|set_solver].
      pose proof (proj1 (proj2 (Hids _ Hin))). set_solver.
    + set_solver.
  - intros x. rewrite elem_of_union, elem_of_list_to_set. intros [Hx|Hx]; [|set_solver].
    apply elem_of_list_to_set. by apply Hids.
  - intros x. rewrite concat_app, fmap_app. simpl. rewrite app_nil_r, Hlid.
    rewrite elem_of_app, Hpl. set_solver.
  - rewrite concat_app, fmap_app. simpl. rewrite app_nil_r, Hlid. apply NoDup_app.
    split_and!; [done| |done]. intros x Hx%Hpl Hin. by apply Hids in Hin as (_ & ? & _).
  - intros s. rewrite concat_app. simpl. rewrite app_nil_r, elem_of_app. intros [|Hs]; auto.
  - intros i l s d Hi Hs Hd. apply lookup_app_Some in Hi as [Hi|[Hlen Hi]].
    + destruct (Hord i l s d Hi Hs Hd) as (j & l' & s' & Hj & Hl' & ?). exists j, l', s'.
      split; [done|]. split; [|done]. by apply lookup_app_l_Some.
    + apply list_lookup_singleton_Some in Hi as [Hi <-].
      assert (ws_ID s ∈ ids) as Hsid by (rewrite <- Hlid; apply list_elem_of_fmap; eauto).
      destruct (Hids _ Hsid) as (_ & _ & Hz). rewrite cnt_0 in Hz.
      assert (d ∈ processed) as Hdp.
      { apply dec_stable. intros Hdn. apply (Hz (d, ws_ID s)); [|done].
        apply edges_elem. exists s. split_and!; [by apply Hlst|done|done]. }
      apply Hpl, placed_before in Hdp as (j & l' & s' & Hj & Hl' & ?). exists j, l', s'.
      split; [lia|]. split; [|done]. by apply lookup_app_l_Some.
  - intros l [Hl| ->%list_elem_of_singleton]%elem_of_app; [by apply Hne|].
    intros E. apply Hnew. fold ids. by rewrite <- Hlid, E.
Qed.

(** How the loop ends: with all steps placed, or with a round that places none. *)
Lemma build_levels_end fuel inDeg processed levels :
  sort_inv inDeg processed levels -> length steps < fuel + size processed ->
  exists inDeg' processed' levels', sort_inv inDeg' processed' levels' /\
    ((build_levels range fuel (length steps) (step_map steps) (dependents (build_graph steps))
        inDeg processed levels = Some (inr levels') /\ length steps <= size processed') \/
     (build_levels range fuel (length steps) (step_map steps) (dependents (build_graph steps))
        inDeg processed levels = Some (inl ErrCircularDependency) /\
      size processed' < length steps /\ current_level range inDeg' processed' = [])).
Proof using range_ok.
  revert inDeg processed levels. induction fuel as [|fuel IH]; intros inDeg processed levels Hi Hf.
  { pose proof (subseteq_size _ _ (si_sub _ _ _ Hi)) as Hs.
    pose proof (list_to_set_size_le (ws_ID <$> steps)) as Hl. rewrite length_fmap in Hl. lia. }
  cbn [build_levels]. destruct (decide (size processed < length steps)) as [Hp|Hp].
  2: { exists inDeg, processed, levels. split; [done|]. left. split; [done|lia]. }
  destruct (decide (length (current_level range inDeg processed) = 0)) as [Hl|Hl].
  { exists inDeg, processed, levels. split; [done|]. right. split_and!; [done|done|].
    by apply nil_length_inv. }
  apply IH; [apply sort_round; [done|by intros E; rewrite E in Hl]|].
  assert (size processed < size (list_to_set (current_level range inDeg processed) ∪ processed)); [|lia].
  destruct (current_level range inDeg processed) as [|x l] eqn:E; [done|].
  assert (x ∈ current_level range inDeg processed) as [_ Hx]%current_level_elem by (rewrite E; left).
  apply subset_size. set_solver.
Qed.

Lemma sort_inv_init : sort_inv (inDegree (build_graph steps)) ∅ [].
Proof using.
  clear range_ok range. destruct (build_graph_spec steps) as (H1 & H2 & _). split; [done| | | | | | |].
  - intros x. rewrite H2. apply cnt_ext. set_solver.
  - set_solver.
  - set_solver.
  - constructor.
  - set_solver.
  - done.
  - set_solver.
Qed.

(** All steps placed: the levels are a rearrangement of the steps. *)
Lemma sort_inv_complete inDeg processed levels :
  sort_inv inDeg processed levels -> length steps <= size processed -> concat levels ≡ₚ steps.
Proof using.
  clear range_ok range. intros Hi Hs. pose proof (si_sub _ _ _ Hi) as Hsub.
  pose proof (list_to_set_size_le (ws_ID <$> steps)) as Hl. rewrite length_fmap in Hl.
  assert (processed = list_to_set (ws_ID <$> steps)) as Hp.
  { apply set_subseteq_size_eq; [done|]. lia. }
  assert (NoDup (ws_ID <$> steps)) as Hn.
  { apply list_to_set_nodup. rewrite length_fmap. subst. lia. }
  apply NoDup_Permutation; [by eapply NoDup_fmap_1, si_nodup|by eapply NoDup_fmap_1|].
  intros s. split; [apply (si_steps _ _ _ Hi)|]. intros Hin.
  assert (ws_ID s ∈ processed) as Hsp.
  { rewrite Hp. apply elem_of_list_to_set, list_elem_of_fmap. eauto. }
  apply (si_placed _ _ _ Hi), list_elem_of_fmap in Hsp as (s' & Hid & Hs').
  assert (s' = s) as ->; [|done]. apply (si_steps _ _ _ Hi) in Hs'.
  by eapply NoDup_fmap_elem.
Qed.

(** A round places nothing only when the remaining steps have a cycle or depend on
    a step that is not there. *)
Lemma sort_progress inDeg processed levels ord :
  sort_inv inDeg processed levels -> NoDup (ws_ID <$> steps) ->
  (forall s d, s ∈ steps -> d ∈ ws_DependsOn s -> d ∈ ws_ID <$> steps) ->
  topo (dep_graph steps) ord -> (forall s, s ∈ steps -> ws_ID s ∈ ord) ->
  size processed < length steps -> current_level range inDeg processed <> [].
Proof using range_ok.
  intros Hi Hn Hdeps Ht Hord Hp E.
  assert (exists x, x ∈ ord /\ (x ∈ ws_ID <$> steps /\ x ∉ processed)) as Hex.
  { destruct (decide (Forall (fun x => x ∈ processed) (ws_ID <$> steps))) as [Hall|Hall].
    - exfalso. assert (size (list_to_set (ws_ID <$> steps) : gset string) <= size processed) as Hs.
      { apply subseteq_size. intros x. rewrite elem_of_list_to_set, Forall_forall in *. auto. }
      rewrite size_list_to_set in Hs by done. rewrite length_fmap in Hs. lia.
    - apply not_Forall_Exists in Hall; [|apply _]. apply Exists_exists in Hall as (x & Hx & Hxp).
      exists x. split; [|done]. apply list_elem_of_fmap in Hx as (s & -> & Hs). auto. }
  apply (topo_first _ ord (fun x => x ∈ ws_ID <$> steps /\ x ∉ processed) Ht) in Hex
    as (x & _ & [Hx Hxp] & Hmin).
  assert (x ∈ current_level range inDeg processed) as Hc; [|rewrite E in Hc; set_solver].
  apply current_level_elem. split; [|done].
  assert (x ∈ dom inDeg) as [d Hd]%elem_of_dom
    by (rewrite (si_dom _ _ _ Hi); by apply elem_of_list_to_set).
  rewrite Hd. f_equal. pose proof (si_deg _ _ _ Hi x) as Hdeg. rewrite Hd in Hdeg. simpl in Hdeg.
  rewrite Hdeg. apply cnt_0. intros [y z] He [Hz Hy]. simpl in *. subst z.
  apply list_elem_of_bind in He as (s & Hs & Hin). apply list_elem_of_fmap in Hs as (y' & [= -> ->] & Hy').
  apply (Hmin y'); [|split; [by eapply Hdeps|done]].
  unfold edge, deps_of. by rewrite dep_graph_lookup.
Qed.

Lemma buildExecutionLevels_end :
  exists inDeg processed levels, sort_inv inDeg processed levels /\
    ((buildExecutionLevels range steps = Some (inr levels) /\ length steps <= size processed) \/
     (buildExecutionLevels range steps = Some (inl ErrCircularDependency) /\
      size processed < length steps /\ current_level range inDeg processed = [])).
Proof using range_ok.
  apply build_levels_end; [apply sort_inv_init|]. rewrite size_empty. lia.
Qed.

Lemma levels_spec levels :
  buildExecutionLevels range steps = Some (inr levels) ->
  concat levels ≡ₚ steps /\ NoDup (ws_ID <$> steps) /\ (forall l, l ∈ levels -> l <> []) /\
  forall i l s d, levels !! i = Some l -> s ∈ l -> d ∈ ws_DependsOn s ->
    exists j l' s', j < i /\ levels !! j = Some l' /\ s' ∈ l' /\ ws_ID s' = d.
Proof using range_ok.
  intros E. destruct buildExecutionLevels_end as (inDeg & processed & levels' & Hi & [[E' Hs]|[E' _]]);
    rewrite E in E'; simplify_eq.
  pose proof (sort_inv_complete _ _ _ Hi Hs) as Hp. split; [done|]. split; [|split; [apply (si_nonempty _ _ _ Hi)|apply (si_order _ _ _ Hi)]].
  rewrite <- Hp. apply (si_nodup _ _ _ Hi).
Qed.

(** The execution levels are built in finitely many rounds, whatever the order
    in which Go visits its maps.  When levels come out, together they hold every
    step exactly once, no level is empty, and a step's dependencies are all in strictly earlier levels
    than the step; so the steps of one level are independent of each other. *)
Theorem execution_levels_sound :
  exists r, buildExecutionLevels range steps = Some r /\
    forall levels, r = inr levels ->
      concat levels ≡ₚ steps /\ NoDup (ws_ID <$> steps) /\ (forall l, l ∈ levels -> l <> []) /\
      forall i l s d, levels !! i = Some l -> s ∈ l -> d ∈ ws_DependsOn s ->
        exists j l' s', j < i /\ levels !! j = Some l' /\ s' ∈ l' /\ ws_ID s' = d.
Proof using range_ok.
  destruct buildExecutionLevels_end as (inDeg & processed & levels & _ & [[E _]|[E _]]);
    eexists; (split; [exact E|]); intros ls [= ->]. by apply levels_spec.
Qed.

Lemma levels_exist ord :
  NoDup (ws_ID <$> steps) ->
  (forall s d, s ∈ steps -> d ∈ ws_DependsOn s -> d ∈ ws_ID <$> steps) ->
  topo (dep_graph steps) ord -> (forall s, s ∈ steps -> ws_ID s ∈ ord) ->
  exists levels, buildExecutionLevels range steps = Some (inr levels).
Proof using range_ok.
  intros Hn Hd Ht Ho.
  destruct buildExecutionLevels_end as (inDeg & processed & levels & Hi & [[E _]|(_ & Hs & Hc)]); [eauto|].
  by destruct (sort_progress _ _ _ _ Hi Hn Hd Ht Ho Hs).
Qed.
End sort.

Lemma execution_levels_sound_witness :
  let levels := [[sample_step "a" []]; [sample_step "c" ["a"]; sample_step "b" ["a"]];
                 [sample_step "d" ["b"; "c"]]] in
  buildExecutionLevels map_to_list sample_steps = Some (inr levels) /\
  concat levels ≡ₚ sample_steps.
Proof.
  intros levels.
  assert (buildExecutionLevels map_to_list sample_steps = Some (inr levels)) as E by (vm_compute; reflexivity).
  split; [exact E|].
  destruct (execution_levels_sound map_to_list (fun _ => reflexivity _) sample_steps) as (r & Er & Hr).
  rewrite E in Er. injection Er as <-. exact (proj1 (Hr levels eq_refl)).
Defined.

(** A workflow that validation accepts can always be scheduled: its execution
    levels exist, so running it never fails with a circular dependency. *)
Theorem validated_workflow_schedulable quote def range :
  (forall m, range m ≡ₚ map_to_list m) ->
  ValidateWorkflow quote (Some def) = Some None ->
  exists levels, buildExecutionLevels range (wd_Steps def) = Some (inr levels) /\
    concat levels ≡ₚ wd_Steps def.
Proof.
  intros Hr (Hn & Hd & ord & Ht & Ho)%accepted_workflow.
  destruct (levels_exist range Hr _ ord Hn Hd Ht Ho) as [levels E]. exists levels.
  split; [done|]. by eapply levels_spec.
Qed.

Lemma validated_workflow_schedulable_witness :
  exists levels, buildExecutionLevels map_to_list sample_steps = Some (inr levels) /\
    concat levels ≡ₚ sample_steps.
Proof.
  apply (validated_workflow_schedulable (fun s => s) (sample_workflow sample_steps) map_to_list);
    [reflexivity|vm_compute; reflexivity].
Defined.
