(* ===== verification/DagExecution.v ===== *)
(** * Execution of the levels ([executeDAG] and [executeLevel] of
    [pkg/vmcp/composer/dag_executor.go])

    A run is a sequence of events: what one goroutine of the level does, what the
    loop over the levels does, and what the environment does (the parent context
    is cancelled, another workflow of the same engine takes or frees a slot of
    the shared semaphore).  [exec_do] performs one event and is undefined where
    the code cannot perform it.  The function that runs a step is a parameter of
    the code: its outcome is an argument of the event [Finish].  A goroutine
    frees its slot before the group learns its error, so these are two events.
    The package [errgroup] is the class [Errgroup] with the laws its
    documentation states. *)

From S2P Require Import Prelude VmcpTypes WorkflowTypes OutputConfig Workflow DagExecutor.

Inductive exec_error := StepFailed (msg : string) | ContextDone.

(** What the code uses of [errgroup.Group]: its goroutines report to it, its
    context is cancelled by the first error, and [Wait] returns that error. *)
Class Errgroup (E group : Type) := {
  new_group : group;
  go_return : option E -> group -> group;
  group_done : group -> bool;
  group_wait : group -> option E;
  new_group_wait : group_wait new_group = None;
  new_group_done : group_done new_group = false;
  go_return_wait r g : group_wait (go_return r g) =
    match group_wait g with Some e => Some e | None => r end;
  go_return_done r g : group_done (go_return r g) = group_done g || bool_decide (is_Some r);
}.

(** A group as its first error. *)
#[export] Instance first_error_group E : Errgroup E (option E).
Proof.
  refine {|
    new_group := None;
    go_return r g := match g with Some e => Some e | None => r end;
    group_done g := bool_decide (is_Some g);
    group_wait g := g;
  |}; [reflexivity|reflexivity|reflexivity|intros [?|] [?|]; reflexivity].
Defined.

(** Where the goroutine of a step is. *)
Inductive run_phase :=
  | Waiting                               (** in the [select] for a slot *)
  | Running                               (** holds a slot, inside [execFunc] *)
  | Returning (err : option exec_error)   (** its function has returned [err] *)
  | Returned.                             (** the group has taken the error *)

#[export] Instance exec_error_eq_dec : EqDecision exec_error.
Proof. solve_decision. Defined.

#[export] Instance run_phase_eq_dec : EqDecision run_phase.
Proof. solve_decision. Defined.

Section executor.
Context {group : Type} `{Errgroup exec_error group}.

Record exec_state := mkExec {
  ex_max : Z;                                   (** capacity of the semaphore *)
  ex_others : Z;                                (** slots held by other workflows *)
  ex_parent_done : bool;                        (** [ctx] is cancelled *)
  ex_pending : list (list WorkflowStep);        (** levels not yet started *)
  ex_level : list (WorkflowStep * run_phase);   (** goroutines of this level *)
  ex_group : group;                             (** the group of this level *)
  ex_started : list WorkflowStep;               (** calls of [execFunc], in order *)
  ex_finished : list (WorkflowStep * option string);  (** their outcomes, in order *)
  ex_result : option (option exec_error);       (** what [executeDAG] returned *)
}.

Definition ex_group_err (st : exec_state) : option exec_error := group_wait (ex_group st).

Inductive exec_event :=
  | Acquire (i : nat)
  | GiveUp (i : nat)
  | Finish (i : nat) (err : option string)
  | Return (i : nat)
  | NextLevel
  | ParentCancelled
  | OthersAcquire
  | OthersRelease.

Definition running (level : list (WorkflowStep * run_phase)) : Z :=
  Z.of_nat (length (filter (fun p => p.2 = Running) level)).

Definition slots_used (st : exec_state) : Z := (running (ex_level st) + ex_others st)%Z.

Definition with_level (level : list (WorkflowStep * run_phase)) (st : exec_state) : exec_state :=
  mkExec (ex_max st) (ex_others st) (ex_parent_done st) (ex_pending st) level (ex_group st)
    (ex_started st) (ex_finished st) (ex_result st).

(** [select] on the semaphore and on [groupCtx.Done()]: when both are ready
    either may be chosen. *)
Definition exec_acquire (i : nat) (st : exec_state) : option exec_state :=
  match ex_level st !! i with
  | Some (s, Waiting) =>
      if (slots_used st <? ex_max st)%Z then
        Some (mkExec (ex_max st) (ex_others st) (ex_parent_done st) (ex_pending st)
          (<[i := (s, Running)]> (ex_level st)) (ex_group st)
          (ex_started st ++ [s]) (ex_finished st) (ex_result st))
      else None
  | _ => None
  end.

Definition exec_give_up (i : nat) (st : exec_state) : option exec_state :=
  match ex_level st !! i with
  | Some (s, Waiting) =>
      if ex_parent_done st || group_done (ex_group st) then
        Some (with_level (<[i := (s, Returning (Some ContextDone))]> (ex_level st)) st)
      else None
  | _ => None
  end.

(** [execFunc] returns; the error handling of the goroutine. *)
Definition exec_finish (failureMode : string) (i : nat) (err : option string) (st : exec_state)
    : option exec_state :=
  match ex_level st !! i with
  | Some (s, Running) =>
      let ret :=
        match err with
        | Some msg => if shouldContinueOnError s failureMode then None else Some (StepFailed msg)
        | None => None
        end in
      Some (mkExec (ex_max st) (ex_others st) (ex_parent_done st) (ex_pending st)
        (<[i := (s, Returning ret)]> (ex_level st)) (ex_group st)
        (ex_started st) (ex_finished st ++ [(s, err)]) (ex_result st))
  | _ => None
  end.

(** The group takes the error. *)
Definition exec_return (i : nat) (st : exec_state) : option exec_state :=
  match ex_level st !! i with
  | Some (s, Returning err) =>
      Some (mkExec (ex_max st) (ex_others st) (ex_parent_done st) (ex_pending st)
        (<[i := (s, Returned)]> (ex_level st)) (go_return err (ex_group st))
        (ex_started st) (ex_finished st) (ex_result st))
  | _ => None
  end.

Definition start_level (level : list WorkflowStep) : list (WorkflowStep * run_phase) :=
  (fun s => (s, Waiting)) <$> level.

(** [g.Wait()] and the next iteration of the loop over the levels. *)
Definition exec_next (st : exec_state) : option exec_state :=
  if decide (Forall (fun p => p.2 = Returned) (ex_level st)) then
    match ex_group_err st, ex_pending st with
    | Some e, _ =>
        Some (mkExec (ex_max st) (ex_others st) (ex_parent_done st) (ex_pending st) (ex_level st)
          (ex_group st) (ex_started st) (ex_finished st) (Some (Some e)))
    | None, [] =>
        Some (mkExec (ex_max st) (ex_others st) (ex_parent_done st) [] (ex_level st)
          (ex_group st) (ex_started st) (ex_finished st) (Some None))
    | None, level :: levels =>
        Some (mkExec (ex_max st) (ex_others st) (ex_parent_done st) levels (start_level level)
          new_group (ex_started st) (ex_finished st) (ex_result st))
    end
  else None.

Definition exec_others (d : Z) (st : exec_state) : exec_state :=
  mkExec (ex_max st) (ex_others st + d) (ex_parent_done st) (ex_pending st) (ex_level st)
    (ex_group st) (ex_started st) (ex_finished st) (ex_result st).

Definition exec_cancel (st : exec_state) : exec_state :=
  mkExec (ex_max st) (ex_others st) true (ex_pending st) (ex_level st)
    (ex_group st) (ex_started st) (ex_finished st) (ex_result st).

Definition exec_do (failureMode : string) (ev : exec_event) (st : exec_state) : option exec_state :=
  match ev, ex_result st with
  | ParentCancelled, _ => Some (exec_cancel st)
  | OthersAcquire, _ => if (slots_used st <? ex_max st)%Z then Some (exec_others 1 st) else None
  | OthersRelease, _ => if (0 <? ex_others st)%Z then Some (exec_others (-1) st) else None
  | _, Some _ => None
  | Acquire i, None => exec_acquire i st
  | GiveUp i, None => exec_give_up i st
  | Finish i err, None => exec_finish failureMode i err st
  | Return i, None => exec_return i st
  | NextLevel, None => exec_next st
  end.

Fixpoint exec_run (failureMode : string) (evs : list exec_event) (st : exec_state)
    : option exec_state :=
  match evs with
  | [] => Some st
  | ev :: evs =>
      match exec_do failureMode ev st with
      | Some st => exec_run failureMode evs st
      | None => None
      end
  end.

(** [executeDAG] up to its loop: without steps it returns at once.  [others] is
    the number of slots in use when it is called. *)
Definition executeDAG (range : gmap string Z -> list (string * Z)) (maxParallel others : Z)
    (steps : list WorkflowStep) : option (workflow_cause + exec_state) :=
  let init levels result :=
    mkExec (newDAGExecutor maxParallel) others false levels [] new_group [] [] result in
  match steps with
  | [] => Some (inr (init [] (Some None)))
  | _ =>
      match buildExecutionLevels range steps with
      | None => None
      | Some (inl err) => Some (inl err)
      | Some (inr levels) => Some (inr (init levels None))
      end
  end.

(** ** The levels of goroutines *)
Definition waiting (level : list (WorkflowStep * run_phase)) : list WorkflowStep :=
  (filter (fun p => p.2 = Waiting) level).*1.

Lemma fst_insert (level : list (WorkflowStep * run_phase)) i s ph ph' :
  level !! i = Some (s, ph) -> (<[i := (s, ph')]> level).*1 = level.*1.
Proof.
  intros E. rewrite list_fmap_insert. apply list_insert_id. by rewrite list_lookup_fmap, E.
Qed.

Lemma running_insert level i s ph ph' :
  level !! i = Some (s, ph) ->
  running (<[i := (s, ph')]> level) =
    (running level - (if decide (ph = Running) then 1 else 0)
      + (if decide (ph' = Running) then 1 else 0))%Z.
Proof.
  intros E. pose proof (count_insert (fun p => bool_decide (p.2 = Running)) level i (s, ph) (s, ph') E) as Hc.
  assert (forall l, running l = Z.of_nat (count (fun p => bool_decide (p.2 = Running)) l)) as Hr.
  { intros l. unfold running, count. f_equal. f_equal. apply list_filter_iff. intros x. by rewrite bool_decide_eq_true. }
  rewrite !Hr. cbn in Hc. repeat case_bool_decide; repeat case_decide; try done; lia.
Qed.

Lemma waiting_start level i s ph :
  level !! i = Some (s, Waiting) -> ph <> Waiting ->
  waiting level ≡ₚ s :: waiting (<[i := (s, ph)]> level).
Proof.
  unfold waiting. intros Hi Hph. revert i Hi. induction level as [|[t ph2] level IH]; intros [|i] E; [done|done| |].
  - injection E as -> ->. cbn [insert list_insert]. rewrite !filter_cons. simpl. by rewrite decide_False.
  - cbn in E. change (<[S i := ?x]> (?y :: level)) with (y :: <[i := x]> level).
    rewrite !filter_cons. simpl. case_decide; cbn [fmap list_fmap]; [|by apply IH]. rewrite (IH i E). by constructor.
Qed.

Lemma waiting_other level i s ph ph' :
  level !! i = Some (s, ph) -> ph <> Waiting -> ph' <> Waiting ->
  waiting (<[i := (s, ph')]> level) = waiting level.
Proof.
  unfold waiting. intros Hi Hph Hph'. revert i Hi. induction level as [|[t ph2] level IH]; intros [|i] E; [done|done| |].
  - injection E as -> ->. cbn [insert list_insert]. rewrite !filter_cons. simpl. by rewrite !decide_False.
  - cbn in E. change (<[S i := ?x]> (?y :: level)) with (y :: <[i := x]> level).
    rewrite !filter_cons. simpl. case_decide; cbn [fmap list_fmap]; [f_equal|]; by apply IH.
Qed.

Lemma start_level_fst level : (start_level level).*1 = level.
Proof. unfold start_level. rewrite <- list_fmap_compose. apply list_fmap_id. Qed.

Lemma start_level_waiting level : waiting (start_level level) = level.
Proof. unfold waiting, start_level. induction level as [|s l IH]; [done|]. rewrite fmap_cons, filter_cons. simpl. by f_equal. Qed.

Lemma start_level_running level : running (start_level level) = 0%Z.
Proof. unfold running, start_level. by induction level. Qed.

Lemma running_nonneg level : (0 <= running level)%Z.
Proof. unfold running. lia. Qed.

Lemma running_returned level : Forall (fun p => p.2 = Returned) level -> running level = 0%Z.
Proof.
  unfold running. induction 1 as [|[s ph] l E _ IH]; [done|]. simpl in E. subst.
  rewrite filter_cons. by rewrite decide_False.
Qed.

Lemma waiting_returned level : Forall (fun p => p.2 = Returned) level -> waiting level = [].
Proof.
  unfold waiting. induction 1 as [|[s ph] l E _ IH]; [done|]. simpl in E. subst.
  rewrite filter_cons. by rewrite decide_False.
Qed.

(** ** The invariant of a run *)

(** The step has run and its outcome lets the workflow go on. *)
Definition completed (failureMode : string) (st : exec_state) (s : WorkflowStep) : Prop :=
  exists r, (s, r) ∈ ex_finished st /\ (r = None \/ shouldContinueOnError s failureMode = true).

(** What is known of a step from where its goroutine is. *)
Definition phase_ok (failureMode : string) (st : exec_state) (p : WorkflowStep * run_phase) : Prop :=
  match p.2 with
  | Returning None => completed failureMode st p.1
  | Returned => completed failureMode st p.1 \/ is_Some (ex_group_err st)
  | _ => True
  end.

Record exec_inv (failureMode : string) (levels : list (list WorkflowStep)) (k : nat)
    (st : exec_state) : Prop := {
  ei_pending : ex_pending st = drop k levels;
  ei_level : match k with 0 => ex_level st = [] | S k' => levels !! k' = Some (ex_level st).*1 end;
  ei_done : forall j l s, S j < k -> levels !! j = Some l -> s ∈ l -> completed failureMode st s;
  ei_phase : forall p, p ∈ ex_level st -> phase_ok failureMode st p;
  ei_started : forall s, s ∈ ex_started st -> exists j l, j < k /\ levels !! j = Some l /\ s ∈ l;
  ei_once : ex_started st ++ waiting (ex_level st) ++ concat (ex_pending st) ⊆+ concat levels;
  ei_slots : (0 <= ex_others st)%Z /\ (slots_used st <= ex_max st)%Z;
  ei_result : ex_result st = Some None ->
    k = length levels /\ Forall (fun p => p.2 = Returned) (ex_level st) /\ ex_group_err st = None;
}.

Section execution.
Context (failureMode : string) (levels : list (list WorkflowStep)).
Local Abbreviation inv := (exec_inv failureMode levels).

Lemma phase_ok_mono st st' p :
  (forall x, x ∈ ex_finished st -> x ∈ ex_finished st') ->
  (is_Some (ex_group_err st) -> is_Some (ex_group_err st')) ->
  phase_ok failureMode st p -> phase_ok failureMode st' p.
Proof.
  intros Hf He. destruct p as [s [| |[e|]|]]; unfold phase_ok, completed; simpl; naive_solver.
Qed.

(** A goroutine moves on: what has to be checked for its step. *)
Lemma inv_move k st st' i s ph ph' :
  inv k st -> ex_result st = None -> ex_level st !! i = Some (s, ph) ->
  ex_level st' = <[i := (s, ph')]> (ex_level st) -> ex_pending st' = ex_pending st ->
  ex_max st' = ex_max st -> ex_others st' = ex_others st -> ex_result st' = ex_result st ->
  (forall x, x ∈ ex_finished st -> x ∈ ex_finished st') ->
  (is_Some (ex_group_err st) -> is_Some (ex_group_err st')) ->
  phase_ok failureMode st' (s, ph') ->
  (slots_used st' <= ex_max st)%Z ->
  (forall t, t ∈ ex_started st' -> t = s \/ t ∈ ex_started st) ->
  ex_started st' ++ waiting (<[i := (s, ph')]> (ex_level st)) ⊆+
    ex_started st ++ waiting (ex_level st) ->
  inv k st'.
Proof.
  intros Hi Hr Hl El Ep Em Eo Er Hf He Hph Hs Hst Hw.
  assert (forall t, completed failureMode st t -> completed failureMode st' t) as Hc.
  { intros t (r & Hin & Hok). exists r. auto. }
  split.
  - rewrite Ep. apply (ei_pending _ _ _ _ Hi).
  - pose proof (ei_level _ _ _ _ Hi) as Hk. destruct k; [by rewrite Hk in Hl|].
    rewrite El. by erewrite fst_insert.
  - intros j l t Hj Hjl Ht. eapply Hc, (ei_done _ _ _ _ Hi); eauto.
  - intros p Hp. rewrite El in Hp. apply elem_of_insert_inv in Hp as [->|Hp]; [done|].
    eapply phase_ok_mono; [done|done|]. by apply (ei_phase _ _ _ _ Hi).
  - intros t [->|Ht]%Hst; [|by apply (ei_started _ _ _ _ Hi)].
    pose proof (ei_level _ _ _ _ Hi) as Hk. destruct k; [by rewrite Hk in Hl|].
    exists k, (ex_level st).*1. split; [lia|]. split; [done|]. apply list_elem_of_fmap.
    exists (s, ph). split; [done|]. by eapply list_elem_of_lookup_2.
  - rewrite El, Ep. etrans; [|apply (ei_once _ _ _ _ Hi)]. rewrite !app_assoc.
    by apply submseteq_skips_r.
  - rewrite Em, Eo. split; [apply (ei_slots _ _ _ _ Hi)|done].
  - rewrite Er, Hr. discriminate.
Qed.

Lemma inv_acquire k st st' i :
  inv k st -> ex_result st = None -> exec_acquire i st = Some st' -> inv k st'.
Proof.
  unfold exec_acquire. intros Hi Hr E. destruct (ex_level st !! i) as [[s []]|] eqn:El; try done.
  destruct (Z.ltb_spec (slots_used st) (ex_max st)) as [Hs|]; [|done]. injection E as <-.
  eapply inv_move; try done.
  - unfold slots_used in *. simpl. erewrite running_insert by done. simpl. lia.
  - simpl. set_solver.
  - simpl. rewrite (waiting_start _ _ _ Running El) by done. by rewrite <- app_assoc.
Qed.

Lemma inv_give_up k st st' i :
  inv k st -> ex_result st = None -> exec_give_up i st = Some st' -> inv k st'.
Proof.
  unfold exec_give_up. intros Hi Hr E. destruct (ex_level st !! i) as [[s []]|] eqn:El; try done.
  case_match; [|done]. injection E as <-. eapply inv_move; try done.
  - pose proof (proj2 (ei_slots _ _ _ _ Hi)). unfold slots_used in *. simpl.
    erewrite running_insert by done. simpl. lia.
  - simpl. auto.
  - simpl. rewrite (waiting_start _ _ _ (Returning (Some ContextDone)) El) by done.
    apply submseteq_skips_l. by constructor.
Qed.

Lemma inv_finish k st st' i err :
  inv k st -> ex_result st = None -> exec_finish failureMode i err st = Some st' -> inv k st'.
Proof.
  unfold exec_finish. intros Hi Hr E. destruct (ex_level st !! i) as [[s []]|] eqn:El; try done.
  injection E as <-. eapply inv_move; try done.
  - simpl. set_solver.
  - unfold phase_ok, completed. simpl. destruct err as [msg|]; [destruct (shouldContinueOnError _ _) eqn:Ec|];
      simpl; try done; eexists; (split; [apply elem_of_app; right; by apply list_elem_of_singleton|auto]).
  - pose proof (proj2 (ei_slots _ _ _ _ Hi)). unfold slots_used in *. simpl.
    erewrite running_insert by done. simpl. lia.
  - simpl. auto.
  - simpl. by erewrite waiting_other.
Qed.

Lemma inv_return k st st' i :
  inv k st -> ex_result st = None -> exec_return i st = Some st' -> inv k st'.
Proof.
  unfold exec_return. intros Hi Hr E.
  destruct (ex_level st !! i) as [[s [| |err|]]|] eqn:El; try done; injection E as <-.
  assert (is_Some (group_wait (ex_group st)) -> is_Some (group_wait (go_return err (ex_group st)))) as Hg.
  { rewrite go_return_wait. destruct (group_wait (ex_group st)); eauto. by intros []. }
  destruct err as [e|].
  - eapply inv_move; try done.
    + right. unfold ex_group_err. simpl. rewrite go_return_wait. destruct (group_wait _); eauto.
    + pose proof (proj2 (ei_slots _ _ _ _ Hi)). unfold slots_used in *. simpl.
      erewrite running_insert by done. simpl. lia.
    + simpl. auto.
    + simpl. by erewrite waiting_other.
  - eapply inv_move; try done.
    + left. apply (ei_phase _ _ _ _ Hi (s, Returning None)). by eapply list_elem_of_lookup_2.
    + pose proof (proj2 (ei_slots _ _ _ _ Hi)). unfold slots_used in *. simpl.
      erewrite running_insert by done. simpl. lia.
    + simpl. auto.
    + simpl. by erewrite waiting_other.
Qed.

(** All goroutines of the level are back without an error: all its steps are done. *)
Lemma inv_level_completed k st s :
  inv k st -> Forall (fun p => p.2 = Returned) (ex_level st) -> ex_group_err st = None ->
  s ∈ (ex_level st).*1 -> completed failureMode st s.
Proof.
  intros Hi Hall He ([s' ph] & -> & Hp)%list_elem_of_fmap.
  rewrite Forall_forall in Hall. specialize (Hall _ Hp). simpl in Hall. subst.
  destruct (ei_phase _ _ _ _ Hi _ Hp) as [?|[e E]]; [done|]. congruence.
Qed.

Lemma inv_next k st st' :
  inv k st -> ex_result st = None -> exec_next st = Some st' -> exists k', inv k' st'.
Proof.
  unfold exec_next. intros Hi Hr E. case_decide as Hall; [|done].
  destruct (ex_group_err st) as [e|] eqn:Ee.
  { injection E as <-. exists k. by destruct Hi. }
  destruct (ex_pending st) as [|level rest] eqn:Ep; injection E as <-.
  - exists k. pose proof (ei_pending _ _ _ _ Hi) as Hp. pose proof (ei_level _ _ _ _ Hi) as Hl.
    rewrite Ep in Hp. destruct Hi as [? ? ? Hph ? Honce ? ?]. split; try done.
    + simpl. rewrite Ep in Honce. done.
    + intros _. split_and!; [|done|done]. assert (length levels <= k) by (by apply drop_nil_inv).
      destruct k as [|k]; [lia|]. apply lookup_lt_Some in Hl. lia.
  - exists (S k). pose proof (ei_pending _ _ _ _ Hi) as Hp. rewrite Ep in Hp.
    assert (levels !! k = Some level) as Hk by (rewrite <- (Nat.add_0_r k), <- lookup_drop, <- Hp; done).
    split; simpl.
    + by rewrite (drop_S _ _ _ Hk) in Hp; simplify_eq.
    + by rewrite start_level_fst.
    + intros j l s Hj Hjl Hs. destruct (decide (S j = k)) as [<-|].
      * apply (inv_level_completed (S j) st s Hi Hall Ee).
        pose proof (ei_level _ _ _ _ Hi) as Hl. simpl in Hl. by simplify_eq.
      * eapply (ei_done _ _ _ _ Hi); eauto. lia.
    + intros p (s & -> & _)%list_elem_of_fmap. done.
    + intros s (j & l & Hj & Hs)%(ei_started _ _ _ _ Hi). exists j, l. split; [lia|done].
    + rewrite start_level_waiting. pose proof (ei_once _ _ _ _ Hi) as Ho.
      by rewrite waiting_returned, Ep in Ho.
    + destruct (ei_slots _ _ _ _ Hi) as [H1 H2]. unfold slots_used in *. simpl.
      rewrite start_level_running. pose proof (running_nonneg (ex_level st)). lia.
    + by rewrite Hr.
Qed.

Lemma inv_environment k st st' :
  inv k st -> ex_pending st' = ex_pending st -> ex_level st' = ex_level st ->
  ex_group_err st' = ex_group_err st -> ex_started st' = ex_started st ->
  ex_finished st' = ex_finished st -> ex_result st' = ex_result st ->
  (0 <= ex_others st')%Z /\ (slots_used st' <= ex_max st')%Z -> inv k st'.
Proof.
  intros [H1 H2 H3 H4 H5 H6 H7 H8] E1 E2 E3 E4 E5 E6 Hs. unfold completed in *.
  split; unfold completed; rewrite ?E1, ?E2, ?E3, ?E4, ?E5, ?E6; try done.
  intros p Hp. eapply phase_ok_mono; [| |by apply H4]; [by rewrite E5|by rewrite E3].
Qed.

Lemma inv_do k ev st st' :
  inv k st -> exec_do failureMode ev st = Some st' -> exists k', inv k' st'.
Proof.
  intros Hi E. destruct (ei_slots _ _ _ _ Hi) as [Ho Hs].
  destruct ev; unfold exec_do in E; destruct (ex_result st) eqn:Er; try done;
    try by (exists k; eauto using inv_acquire, inv_give_up, inv_finish, inv_return).
  all: try by eapply inv_next.
  all: try destruct (Z.ltb_spec (slots_used st) (ex_max st)); try destruct (Z.ltb_spec 0 (ex_others st));
    simplify_eq; exists k; (eapply inv_environment; [done..|]); unfold slots_used in *; simpl; lia.
Qed.

Lemma inv_run evs k st st' :
  inv k st -> exec_run failureMode evs st = Some st' -> exists k', inv k' st'.
Proof.
  revert k st. induction evs as [|ev evs IH]; intros k st Hi E; simpl in E; [simplify_eq; eauto|].
  destruct (exec_do failureMode ev st) as [st1|] eqn:E1; [|done].
  destruct (inv_do _ _ _ _ Hi E1) as [k1 H1]. by eapply IH.
Qed.
End execution.

(** ** Runs of a workflow *)
Lemma executeDAG_start range maxParallel others steps st :
  (forall m, range m ≡ₚ map_to_list m) ->
  executeDAG range maxParallel others steps = Some (inr st) ->
  (0 <= others <= newDAGExecutor maxParallel)%Z ->
  exists levels, buildExecutionLevels range steps = Some (inr levels) /\
    ex_max st = newDAGExecutor maxParallel /\ forall failureMode, exec_inv failureMode levels 0 st.
Proof.
  intros Hr E Ho. assert (exists levels, buildExecutionLevels range steps = Some (inr levels) /\
    ex_max st = newDAGExecutor maxParallel /\ ex_others st = others /\ ex_pending st = levels /\
    ex_level st = [] /\ ex_started st = [] /\ ex_group_err st = None /\
    (ex_result st = Some None -> levels = [])) as (levels & El & E1 & E2 & E3 & E4 & E5 & E6 & E7).
  { unfold executeDAG in E. destruct steps as [|s steps].
    - simplify_eq. exists []. split_and!; try done; apply new_group_wait.
    - destruct (buildExecutionLevels range (s :: steps)) as [[err|levels]|]; simplify_eq.
      exists levels. split_and!; try done; apply new_group_wait. }
  exists levels. split; [done|]. split; [done|]. intros failureMode. split; rewrite ?E3, ?E4, ?E5; try done.
  - intros j l s Hj. lia.
  - set_solver.
  - set_solver.
  - unfold slots_used. rewrite E1, E2, E4. unfold running. simpl. lia.
  - intros ->%E7. auto.
Qed.

Lemma inv_deps_completed failureMode range steps levels k st s d :
  (forall m, range m ≡ₚ map_to_list m) -> buildExecutionLevels range steps = Some (inr levels) ->
  exec_inv failureMode levels k st -> s ∈ ex_started st -> d ∈ ws_DependsOn s ->
  exists s', ws_ID s' = d /\ completed failureMode st s'.
Proof.
  intros Hr E Hi Hs Hd. apply levels_spec in E as (_ & _ & _ & Hdeps); [|done].
  apply (ei_started _ _ _ _ Hi) in Hs as (j & l & Hj & Hl & Hs).
  destruct (Hdeps _ _ _ _ Hl Hs Hd) as (j' & l' & s' & Hj' & Hl' & Hs' & <-).
  exists s'. split; [done|]. eapply (ei_done _ _ _ _ Hi); [|done|done]. lia.
Qed.

Lemma inv_all_completed failureMode levels k st s :
  exec_inv failureMode levels k st -> ex_result st = Some None -> s ∈ concat levels ->
  completed failureMode st s.
Proof.
  intros Hi Er Hs. destruct (ei_result _ _ _ _ Hi Er) as (-> & Hall & He).
  rewrite list_elem_of_In, in_concat in Hs. destruct Hs as (l & Hl & Hs).
  rewrite <- list_elem_of_In in Hl. rewrite <- list_elem_of_In in Hs. apply list_elem_of_lookup_1 in Hl as [j Hj].
  pose proof (lookup_lt_Some _ _ _ Hj) as Hlt.
  destruct (decide (S j < length levels)) as [Hlt'|Hge]; [by eapply (ei_done _ _ _ _ Hi)|].
  eapply inv_level_completed; [done|done|done|]. pose proof (ei_level _ _ _ _ Hi) as Hk.
  destruct (length levels) as [|n]; [lia|]. assert (n = j) as -> by lia. by simplify_eq.
Qed.

(** C24. However the goroutines, the cancellation and the other workflows of the
    engine interleave: a step starts only after each of its dependencies has run
    and either succeeded or failed with an error the workflow continues after; no
    step runs twice; never more steps run at once than the executor allows; and
    when the execution returns without error, every step of the workflow has run
    to such an end. *)
Theorem execution_respects_dependencies range maxParallel others steps failureMode st0 evs st :
  (forall m, range m ≡ₚ map_to_list m) ->
  executeDAG range maxParallel others steps = Some (inr st0) ->
  (0 <= others <= newDAGExecutor maxParallel)%Z ->
  exec_run failureMode evs st0 = Some st ->
  (forall s d, s ∈ ex_started st -> d ∈ ws_DependsOn s ->
     exists s', ws_ID s' = d /\ completed failureMode st s') /\
  NoDup (ws_ID <$> ex_started st) /\ (forall s, s ∈ ex_started st -> s ∈ steps) /\
  (running (ex_level st) <= ex_max st)%Z /\
  (ex_result st = Some None -> forall s, s ∈ steps -> completed failureMode st s).
Proof.
  intros Hr E Ho Hrun. destruct (executeDAG_start _ _ _ _ _ Hr E Ho) as (levels & El & _ & H0).
  destruct (inv_run _ _ _ _ _ _ (H0 failureMode) Hrun) as [k Hi].
  destruct (levels_spec _ Hr _ _ El) as (Hp & Hn & _).
  assert (ex_started st ⊆+ concat levels) as Hsub.
  { etrans; [|apply (ei_once _ _ _ _ Hi)]. apply submseteq_inserts_r. reflexivity. }
  split_and!.
  - intros s d. by eapply inv_deps_completed.
  - apply submseteq_Permutation in Hsub as [rest Hrest].
    rewrite <- Hp, Hrest, fmap_app in Hn. apply NoDup_app in Hn as [Hn _]. exact Hn.
  - intros s Hs. rewrite <- Hp. by eapply elem_of_submseteq.
  - destruct (ei_slots _ _ _ _ Hi) as [H1 H2]. unfold slots_used in H2. lia.
  - intros Hres s Hs. eapply inv_all_completed; [done|done|]. by rewrite Hp.
Qed.

(** ** Termination *)
Lemma newDAGExecutor_pos maxParallel : (0 < newDAGExecutor maxParallel)%Z.
Proof. unfold newDAGExecutor, defaultMaxParallelSteps. case_match; lia. Qed.

Lemma exec_run_max failureMode evs st st' :
  exec_run failureMode evs st = Some st' -> ex_max st' = ex_max st.
Proof.
  revert st. induction evs as [|ev evs IH]; intros st E; simpl in E; [by simplify_eq|].
  destruct (exec_do failureMode ev st) as [st1|] eqn:E1; [|done]. rewrite (IH _ E).
  unfold exec_do, exec_acquire, exec_give_up, exec_finish, exec_return, exec_next in E1.
  repeat case_match; by simplify_eq.
Qed.

Definition own_event (ev : exec_event) : bool :=
  match ev with ParentCancelled | OthersAcquire | OthersRelease => false | _ => true end.

Definition phase_work (p : WorkflowStep * run_phase) : nat :=
  match p.2 with Waiting => 3 | Running => 2 | Returning _ => 1 | Returned => 0 end.

(** The events that are left at most. *)
Definition exec_work (st : exec_state) : nat :=
  match ex_result st with
  | Some _ => 0
  | None => 1 + sum_list (phase_work <$> ex_level st)
              + sum_list ((fun l => 1 + 3 * length l) <$> ex_pending st)
  end.

Lemma phase_work_insert level i s ph ph' :
  level !! i = Some (s, ph) -> phase_work (s, ph') < phase_work (s, ph) ->
  sum_list (phase_work <$> <[i := (s, ph')]> level) < sum_list (phase_work <$> level).
Proof.
  intros Hi Hw. revert i Hi. induction level as [|p level IH]; intros [|i] Hi; [done|done| |].
  - injection Hi as ->. cbn in *. lia.
  - change (<[S i := ?x]> (?y :: level)) with (y :: <[i := x]> level). rewrite !fmap_cons. simpl.
    specialize (IH i Hi). lia.
Qed.

Lemma start_level_work level : sum_list (phase_work <$> start_level level) = 3 * length level.
Proof.
  unfold start_level. induction level as [|s l IH]; [done|]. rewrite !fmap_cons. simpl in *. lia.
Qed.

Lemma exec_work_move st st' i s ph ph' :
  ex_level st !! i = Some (s, ph) -> ex_result st = None -> ex_result st' = None ->
  ex_pending st' = ex_pending st -> ex_level st' = <[i := (s, ph')]> (ex_level st) ->
  phase_work (s, ph') < phase_work (s, ph) -> exec_work st' < exec_work st.
Proof.
  intros Hl Er Er' Ep El Hw. unfold exec_work. rewrite Er, Er', Ep, El.
  pose proof (phase_work_insert _ _ _ _ _ Hl Hw). lia.
Qed.

Lemma exec_do_work failureMode ev st st' :
  exec_do failureMode ev st = Some st' ->
  if own_event ev then exec_work st' < exec_work st else exec_work st' = exec_work st.
Proof.
  intros E. destruct ev as [i|i|i err|i| | | |]; unfold exec_do in E; destruct (ex_result st) eqn:Er; try done;
    unfold exec_acquire, exec_give_up, exec_finish, exec_return, exec_next in E; simpl.
  1,2,3,4: destruct (ex_level st !! i) as [[s [| |[e|]|]]|] eqn:El; try done; repeat case_match; try done;
    injection E as <-; (eapply exec_work_move; [done..|]); unfold phase_work; simpl; lia.
  all: try (repeat case_match; try done; simplify_eq; unfold exec_work; simpl; by rewrite Er).
  case_decide; [|done]. unfold exec_work. rewrite Er.
  destruct (ex_group_err st), (ex_pending st) as [|l ls] eqn:Ep; injection E as <-; try (simpl; lia).
  cbn [ex_result ex_level ex_pending]. rewrite Er, fmap_cons, start_level_work. simpl. lia.
Qed.

Lemma exec_run_work failureMode evs st st' :
  exec_run failureMode evs st = Some st' ->
  length (filter (fun ev => own_event ev = true) evs) + exec_work st' <= exec_work st.
Proof.
  revert st. induction evs as [|ev evs IH]; intros st E; simpl in E; [simplify_eq; simpl; lia|].
  destruct (exec_do failureMode ev st) as [st1|] eqn:E1; [|done].
  apply exec_do_work in E1. specialize (IH _ E). rewrite filter_cons.
  destruct (own_event ev); simpl; lia.
Qed.

(** A run that has not returned can go on by itself, unless other workflows hold
    all the slots. *)
Lemma exec_progress failureMode st :
  ex_result st = None ->
  (exists ev, own_event ev = true /\ is_Some (exec_do failureMode ev st)) \/
  (ex_max st <= ex_others st)%Z.
Proof.
  intros Er. destruct (decide (Forall (fun p => p.2 = Returned) (ex_level st))) as [Hall|Hall].
  { left. exists NextLevel. split; [done|]. unfold exec_do. rewrite Er. unfold exec_next.
    rewrite decide_True by done. repeat case_match; eauto. }
  destruct (decide (Exists (fun p => p.2 = Running) (ex_level st))) as [Hrun|Hrun].
  { apply Exists_exists in Hrun as ([s ph] & Hp & E). simpl in E. subst.
    apply list_elem_of_lookup_1 in Hp as [i Hi]. left. exists (Finish i None). split; [done|].
    unfold exec_do. rewrite Er. unfold exec_finish. rewrite Hi. eauto. }
  assert (running (ex_level st) = 0%Z) as H0.
  { unfold running. destruct (filter _ _) as [|p l] eqn:Ef; [done|]. exfalso. apply Hrun, Exists_exists.
    assert (p ∈ filter (fun p => p.2 = Running) (ex_level st)) as [Hr Hp]%list_elem_of_filter
      by (rewrite Ef; left). by exists p. }
  apply not_Forall_Exists in Hall; [|apply _]. apply Exists_exists in Hall as ([s ph] & Hp & E).
  apply list_elem_of_lookup_1 in Hp as [i Hi]. destruct ph as [| |err|]; [| | |by destruct E].
  - destruct (Z.ltb_spec (slots_used st) (ex_max st)) as [Hs|Hs]; [|unfold slots_used in Hs; right; lia].
    left. exists (Acquire i). split; [done|]. unfold exec_do. rewrite Er. unfold exec_acquire. rewrite Hi.
    apply Z.ltb_lt in Hs. rewrite Hs. eauto.
  - exfalso. apply Hrun, Exists_exists. exists (s, Running). split; [by eapply list_elem_of_lookup_2|done].
  - left. exists (Return i). split; [done|]. unfold exec_do. rewrite Er. unfold exec_return. rewrite Hi.
    destruct err; eauto.
Qed.

Lemma start_work levels steps :
  concat levels ≡ₚ steps -> (forall l, l ∈ levels -> l <> []) ->
  sum_list ((fun l : list WorkflowStep => 1 + 3 * length l) <$> levels) <= 4 * length steps.
Proof.
  intros <- Hne. induction levels as [|l levels IH]; [done|]. rewrite fmap_cons. cbn [sum_list concat].
  rewrite length_app. assert (l <> []) as Hl by (apply Hne; left). destruct l; [done|].
  assert (forall l', l' ∈ levels -> l' <> []) as Hne' by (intros l' Hl'; apply Hne; by right).
  specialize (IH Hne'). simpl in *. lia.
Qed.

(** C36. Running a workflow ends: an execution performs at most four events for
    each of its steps and one more, whatever the step function returns and whatever
    happens around it; and as long as it has not returned it can go on, unless at
    that moment other workflows hold every slot of the semaphore, of which there is
    at least one.  There is no deadlock on the semaphore or on cancellation. *)
Theorem execution_terminates range maxParallel others steps failureMode st0 evs st :
  (forall m, range m ≡ₚ map_to_list m) ->
  executeDAG range maxParallel others steps = Some (inr st0) ->
  (0 <= others <= newDAGExecutor maxParallel)%Z ->
  exec_run failureMode evs st0 = Some st ->
  length (filter (fun ev => own_event ev = true) evs) <= 4 * length steps + 1 /\
  (ex_result st = None ->
   (exists ev, own_event ev = true /\ is_Some (exec_do failureMode ev st)) \/
   (0 < ex_max st <= ex_others st)%Z).
Proof.
  intros Hr E Ho Hrun. destruct (executeDAG_start _ _ _ _ _ Hr E Ho) as (levels & El & Em & H0).
  destruct (levels_spec _ Hr _ _ El) as (Hp & _ & Hne & _). split.
  - pose proof (exec_run_work _ _ _ _ Hrun) as Hw. pose proof (start_work _ _ Hp Hne) as Hs.
    pose proof (ei_pending _ _ _ _ (H0 failureMode)) as E1.
    pose proof (ei_level _ _ _ _ (H0 failureMode)) as E2. simpl in E2.
    unfold exec_work at 2 in Hw. rewrite E1, E2, drop_0 in Hw.
    change (sum_list (phase_work <$> [])) with 0 in Hw. destruct (ex_result st0); lia.
  - intros Er. destruct (exec_progress failureMode st Er) as [?|Hfull]; [by left|]. right.
    split; [|done]. rewrite (exec_run_max _ _ _ _ Hrun), Em. apply newDAGExecutor_pos.
Qed.

End executor.
Arguments exec_state : clear implicits.

(** ** A run of the diamond workflow with two slots: [b] fails and is not continued,
    [c] runs to its end, [d] never starts. *)
Definition sample_run : list exec_event :=
  [NextLevel; Acquire 0; Finish 0 None; Return 0; NextLevel; Acquire 0; Acquire 1;
   Finish 1 (Some "refused"); Return 1; Finish 0 None; Return 0; NextLevel].

Definition sample_start : exec_state (option exec_error) :=
  match executeDAG map_to_list 2 0 sample_steps with
  | Some (inr st) => st
  | _ => mkExec 0 0 false [] [] None [] [] None
  end.

Definition sample_end (evs : list exec_event) : exec_state (option exec_error) :=
  default sample_start (exec_run "abort" evs sample_start).

Lemma execution_respects_dependencies_witness :
  (ws_ID <$> ex_started (sample_end sample_run)) = ["a"; "c"; "b"] /\
  ex_result (sample_end sample_run) = Some (Some (StepFailed "refused")) /\
  NoDup (ws_ID <$> ex_started (sample_end sample_run)) /\
  (running (ex_level (sample_end (take 7 sample_run))) <= ex_max (sample_end (take 7 sample_run)))%Z.
Proof.
  split; [vm_compute; reflexivity|]. split; [vm_compute; reflexivity|]. split.
  - eapply (execution_respects_dependencies map_to_list 2 0 sample_steps "abort" sample_start sample_run);
      [reflexivity|vm_compute; reflexivity|vm_compute; split; discriminate|vm_compute; reflexivity].
  - eapply (execution_respects_dependencies map_to_list 2 0 sample_steps "abort" sample_start
      (take 7 sample_run));
      [reflexivity|vm_compute; reflexivity|vm_compute; split; discriminate|vm_compute; reflexivity].
Defined.

Lemma execution_terminates_witness :
  length (filter (fun ev => own_event ev = true) sample_run) <= 4 * length sample_steps + 1.
Proof.
  eapply (execution_terminates map_to_list 2 0 sample_steps "abort" sample_start sample_run
    (sample_end sample_run));
    [reflexivity|vm_compute; reflexivity|vm_compute; split; discriminate|vm_compute; reflexivity].
Defined.
