(* ===== verification/ToolResolvers.v ===== *)
(** * Tool name conflict resolution
    ([pkg/vmcp/aggregator/conflict_resolver.go], [prefix_resolver.go],
    [priority_resolver.go], [manual_resolver.go])

    The three strategies are instances of the class [ConflictResolver].  The tools
    of the backends are a map in the source: here they are its entries in the
    order the outer loop visits them.  The priority and manual strategies also
    loop over the map of the tools grouped by name; the order of that loop is
    [range]. *)

From Stdlib Require Import Ascii.
From S2P Require Import Prelude VmcpTypes AggregatorTypes.

(** ** Prefixes *)
Definition defaultPrefixFormat : string := "{workload}_".

(** [strings.ReplaceAll] for a non-empty [old]; [skip] characters of a match are
    still to be dropped. *)
Fixpoint replace_all (old new : string) (skip : nat) (s : string) : string :=
  match s with
  | EmptyString => EmptyString
  | String c s' =>
      match skip with
      | S skip => replace_all old new skip s'
      | O =>
          if String.prefix old s
          then new +:+ replace_all old new (String.length old - 1) s'
          else String c (replace_all old new 0 s')
      end
  end.

Definition applyPrefixFormat (prefixFormat backendID name : string) : string :=
  replace_all "{workload}" backendID 0 prefixFormat +:+ name.

(** ** The interface *)
Record toolWithBackend := {
  tb_Tool : Tool;
  tb_BackendID : string;
}.

Abbreviation tools_by_backend := (list (string * list Tool)) (only parsing).
Abbreviation tools_by_name := (gmap string (list toolWithBackend)) (only parsing).

Class ConflictResolver (R : Type) := {
  ResolveToolConflicts :
    R -> (tools_by_name -> list (string * list toolWithBackend)) -> tools_by_backend ->
    agg_error + gmap string ResolvedTool;
}.

Definition new_ResolvedTool (resolvedName originalName backendID : string) (tool : Tool)
    (strategy : ConflictResolutionStrategy) : ResolvedTool := {|
  rtool_ResolvedName := resolvedName;
  rtool_OriginalName := originalName;
  rtool_Description := tool_Description tool;
  rtool_InputSchema := tool_InputSchema tool;
  rtool_OutputSchema := tool_OutputSchema tool;
  rtool_Annotations := tool_Annotations tool;
  rtool_BackendID := backendID;
  rtool_Strategy := strategy;
|}.

(** The body of a double loop over the backends and their tools. *)
Definition over_tools {A} (f : string -> A -> Tool -> A) (acc : A) (tools : tools_by_backend) : A :=
  foldl (fun acc p => foldl (f p.1) acc p.2) acc tools.

Definition groupToolsByName (tools : tools_by_backend) : tools_by_name :=
  over_tools (fun backendID m tool =>
    <[tool_Name tool := default [] (m !! tool_Name tool) ++
        [{| tb_Tool := tool; tb_BackendID := backendID |}]]> m) ∅ tools.

(** ** The prefix strategy *)
Record PrefixConflictResolver := { pf_PrefixFormat : string }.

Definition NewPrefixConflictResolver (prefixFormat : string) : PrefixConflictResolver :=
  {| pf_PrefixFormat := if decide (prefixFormat = "") then defaultPrefixFormat else prefixFormat |}.

Definition applyPrefix (r : PrefixConflictResolver) (backendID toolName : string) : string :=
  applyPrefixFormat (pf_PrefixFormat r) backendID toolName.

Definition add_prefixed (r : PrefixConflictResolver) (backendID : string)
    (resolved : gmap string ResolvedTool) (tool : Tool) : gmap string ResolvedTool :=
  let resolvedName := applyPrefix r backendID (tool_Name tool) in
  match resolved !! resolvedName with
  | Some _ => resolved
  | None => <[resolvedName := new_ResolvedTool resolvedName (tool_Name tool) backendID tool
                ConflictStrategyPrefix]> resolved
  end.

#[export] Instance PrefixConflictResolver_resolver : ConflictResolver PrefixConflictResolver := {|
  ResolveToolConflicts r _ tools := inr (over_tools (add_prefixed r) ∅ tools);
|}.

(** ** The priority strategy *)
Record PriorityConflictResolver := {
  pc_PriorityOrder : list string;
  pc_priorityMap : gmap string Z;
  pc_prefixResolver : PrefixConflictResolver;
}.

Fixpoint build_priorities (i : nat) (order : list string) (m : gmap string Z)
    : agg_error + gmap string Z :=
  match order with
  | [] => inr m
  | backendID :: order =>
      if decide (backendID = "") then inl (ErrEmptyBackendID i)
      else build_priorities (S i) order (<[backendID := Z.of_nat i]> m)
  end.

Definition NewPriorityConflictResolver (priorityOrder : list string)
    : agg_error + PriorityConflictResolver :=
  if decide (length priorityOrder = 0) then inl ErrEmptyPriorityOrder
  else match build_priorities 0 priorityOrder ∅ with
  | inl err => inl err
  | inr m => inr {| pc_PriorityOrder := priorityOrder; pc_priorityMap := m;
                    pc_prefixResolver := NewPrefixConflictResolver defaultPrefixFormat |}
  end.

(** One candidate of the loop of [selectWinner]. *)
Definition better_candidate (r : PriorityConflictResolver) (best : option toolWithBackend * Z)
    (candidate : toolWithBackend) : option toolWithBackend * Z :=
  match pc_priorityMap r !! tb_BackendID candidate with
  | None => best
  | Some priority =>
      if (best.2 =? -1)%Z || (priority <? best.2)%Z then (Some candidate, priority) else best
  end.

Definition selectWinner (r : PriorityConflictResolver) (candidates : list toolWithBackend)
    : option toolWithBackend :=
  (foldl (better_candidate r) (None, (-1)%Z) candidates).1.

Definition add_fallback (r : PriorityConflictResolver) (toolName : string)
    (resolved : gmap string ResolvedTool) (candidate : toolWithBackend) : gmap string ResolvedTool :=
  let prefixedName := applyPrefix (pc_prefixResolver r) (tb_BackendID candidate) toolName in
  <[prefixedName := new_ResolvedTool prefixedName toolName (tb_BackendID candidate)
      (tb_Tool candidate) ConflictStrategyPrefix]> resolved.

(** The loop body over the names. *)
Definition resolve_name (r : PriorityConflictResolver) (resolved : gmap string ResolvedTool)
    (entry : string * list toolWithBackend) : gmap string ResolvedTool :=
  let '(toolName, candidates) := entry in
  match candidates with
  | [candidate] =>
      <[toolName := new_ResolvedTool toolName toolName (tb_BackendID candidate) (tb_Tool candidate)
          ConflictStrategyPriority]> resolved
  | _ =>
      match selectWinner r candidates with
      | None => foldl (add_fallback r toolName) resolved candidates
      | Some winner =>
          <[toolName := new_ResolvedTool toolName toolName (tb_BackendID winner) (tb_Tool winner)
              ConflictStrategyPriority]> resolved
      end
  end.

#[export] Instance PriorityConflictResolver_resolver : ConflictResolver PriorityConflictResolver := {|
  ResolveToolConflicts r range tools :=
    inr (foldl (resolve_name r) ∅ (range (groupToolsByName tools)));
|}.

(** ** The manual strategy *)
Record ManualConflictResolver := { mc_Overrides : gmap string ToolOverride }.

Definition override_key (backendID toolName : string) : string := backendID +:+ ":" +:+ toolName.

(** The overrides of one workload; their keys differ, so the order of the loop over
    them does not matter. *)
Definition add_overrides (wl : WorkloadToolConfig) (m : gmap string ToolOverride)
    : gmap string ToolOverride :=
  foldl (fun m (p : string * option ToolOverride) =>
    match p.2 with
    | Some o => <[override_key (wl_Workload wl) p.1 := o]> m
    | None => m
    end) m (map_to_list (wl_Overrides wl)).

(** [None] is the nil dereference of a nil workload configuration. *)
Fixpoint NewManualConflictResolver_from (m : gmap string ToolOverride)
    (workloadConfigs : list (option WorkloadToolConfig)) : option ManualConflictResolver :=
  match workloadConfigs with
  | [] => Some {| mc_Overrides := m |}
  | Some wl :: wls => NewManualConflictResolver_from (add_overrides wl m) wls
  | None :: _ => None
  end.

Definition NewManualConflictResolver (workloadConfigs : list (option WorkloadToolConfig))
    : option ManualConflictResolver := NewManualConflictResolver_from ∅ workloadConfigs.

Definition allCandidatesHaveOverrides (r : ManualConflictResolver) (toolName : string)
    (candidates : list toolWithBackend) : bool :=
  forallb (fun c => bool_decide (is_Some (mc_Overrides r !! override_key (tb_BackendID c) toolName)))
    candidates.

(** The conflicts as the entries of the map, in visiting order. *)
Definition findUnresolvedConflicts (r : ManualConflictResolver)
    (entries : list (string * list toolWithBackend)) : list (string * list string) :=
  omap (fun '(toolName, candidates) =>
    if decide (length candidates <= 1) then None
    else if allCandidatesHaveOverrides r toolName candidates then None
    else Some (toolName, tb_BackendID <$> candidates)) entries.

Definition apply_hint {A} (base override : option A) : option A :=
  match override with Some v => Some v | None => base end.

(** [applyAnnotationOverrides] of [tool_adapter.go]. *)
Definition applyAnnotationOverrides (base : option ToolAnnotations)
    (o : option ToolAnnotationsOverride) : option ToolAnnotations :=
  match o with
  | None => base
  | Some o =>
      let result := default {| ann_Title := ""; ann_ReadOnlyHint := None; ann_DestructiveHint := None;
                               ann_IdempotentHint := None; ann_OpenWorldHint := None |} base in
      Some {| ann_Title := default (ann_Title result) (ao_Title o);
              ann_ReadOnlyHint := apply_hint (ann_ReadOnlyHint result) (ao_ReadOnlyHint o);
              ann_DestructiveHint := apply_hint (ann_DestructiveHint result) (ao_DestructiveHint o);
              ann_IdempotentHint := apply_hint (ann_IdempotentHint result) (ao_IdempotentHint o);
              ann_OpenWorldHint := apply_hint (ann_OpenWorldHint result) (ao_OpenWorldHint o) |}
  end.

Definition resolveToolWithOverride (r : ManualConflictResolver) (backendID : string) (tool : Tool)
    : ResolvedTool :=
  let base := new_ResolvedTool (tool_Name tool) (tool_Name tool) backendID tool ConflictStrategyManual in
  match mc_Overrides r !! override_key backendID (tool_Name tool) with
  | None => base
  | Some o => {|
      rtool_ResolvedName := if decide (to_Name o ≠ "") then to_Name o else tool_Name tool;
      rtool_OriginalName := tool_Name tool;
      rtool_Description :=
        if decide (to_Description o ≠ "") then to_Description o else tool_Description tool;
      rtool_InputSchema := tool_InputSchema tool;
      rtool_OutputSchema := tool_OutputSchema tool;
      rtool_Annotations := applyAnnotationOverrides (tool_Annotations tool) (to_Annotations o);
      rtool_BackendID := backendID;
      rtool_Strategy := ConflictStrategyManual;
    |}
  end.

(** The loop body; an error ends the loops. *)
Definition add_overridden (r : ManualConflictResolver) (backendID : string)
    (acc : agg_error + gmap string ResolvedTool) (tool : Tool) : agg_error + gmap string ResolvedTool :=
  match acc with
  | inl err => inl err
  | inr resolved =>
      let rt := resolveToolWithOverride r backendID tool in
      match resolved !! rtool_ResolvedName rt with
      | Some existing =>
          inl (ErrCollisionAfterOverride (rtool_ResolvedName rt) backendID (rtool_BackendID existing))
      | None => inr (<[rtool_ResolvedName rt := rt]> resolved)
      end
  end.

Definition applyOverridesAndResolve (r : ManualConflictResolver) (tools : tools_by_backend)
    : agg_error + gmap string ResolvedTool :=
  over_tools (add_overridden r) (inr ∅) tools.

#[export] Instance ManualConflictResolver_resolver : ConflictResolver ManualConflictResolver := {|
  ResolveToolConflicts r range tools :=
    let unresolved := findUnresolvedConflicts r (range (groupToolsByName tools)) in
    if decide (0 < length unresolved) then inl (ErrUnresolvedConflicts unresolved)
    else applyOverridesAndResolve r tools;
|}.

(** ** The factory *)
Inductive anyResolver :=
  | PrefixResolver (r : PrefixConflictResolver)
  | PriorityResolver (r : PriorityConflictResolver)
  | ManualResolver (r : ManualConflictResolver).

#[export] Instance anyResolver_resolver : ConflictResolver anyResolver := {|
  ResolveToolConflicts r :=
    match r with
    | PrefixResolver r => ResolveToolConflicts r
    | PriorityResolver r => ResolveToolConflicts r
    | ManualResolver r => ResolveToolConflicts r
    end;
|}.

(** [None] is the panic of the manual resolver on a nil workload configuration. *)
Definition NewConflictResolver (aggregationConfig : option AggregationConfig)
    : option (agg_error + anyResolver) :=
  match aggregationConfig with
  | None => Some (inr (PrefixResolver (NewPrefixConflictResolver defaultPrefixFormat)))
  | Some ac =>
      match ac_ConflictResolution ac with
      | ConflictStrategyPrefix =>
          let prefixFormat :=
            match ac_ConflictResolutionConfig ac with
            | Some c => if decide (cr_PrefixFormat c ≠ "") then cr_PrefixFormat c else defaultPrefixFormat
            | None => defaultPrefixFormat
            end in
          Some (inr (PrefixResolver (NewPrefixConflictResolver prefixFormat)))
      | ConflictStrategyPriority =>
          match ac_ConflictResolutionConfig ac with
          | None => Some (inl ErrNoPriorityOrder)
          | Some c =>
              if decide (length (cr_PriorityOrder c) = 0) then Some (inl ErrNoPriorityOrder)
              else match NewPriorityConflictResolver (cr_PriorityOrder c) with
              | inl err => Some (inl err)
              | inr r => Some (inr (PriorityResolver r))
              end
          end
      | ConflictStrategyManual =>
          match NewManualConflictResolver (ac_Tools ac) with
          | Some r => Some (inr (ManualResolver r))
          | None => None
          end
      | ConflictStrategyOther s => Some (inl (ErrInvalidConflictStrategy s))
      end
  end.

(** ** Offered tools *)

(** All tools with their backends, in the order of the double loop. *)
Definition flat (tools : tools_by_backend) : list toolWithBackend :=
  tools ≫= fun p => (fun t => {| tb_Tool := t; tb_BackendID := p.1 |}) <$> p.2.

Lemma over_tools_flat {A} (f : string -> A -> Tool -> A) acc tools :
  over_tools f acc tools = foldl (fun acc c => f (tb_BackendID c) acc (tb_Tool c)) acc (flat tools).
Proof.
  revert acc. induction tools as [|[b ts] tools IH]; intros acc; [done|].
  unfold over_tools, flat in *. cbn [foldl mbind list_bind fst snd]. rewrite foldl_app, IH. f_equal.
  revert acc. induction ts as [|t ts IHt]; intros acc; [done|]. cbn. apply IHt.
Qed.

(** The candidates for a name, in order. *)
Definition candidates_of (tools : tools_by_backend) (n : string) : list toolWithBackend :=
  filter (fun c => tool_Name (tb_Tool c) = n) (flat tools).

Lemma group_lookup tools n :
  groupToolsByName tools !! n =
    if decide (candidates_of tools n = []) then None else Some (candidates_of tools n).
Proof.
  unfold groupToolsByName, candidates_of. rewrite over_tools_flat.
  assert (forall l (m : tools_by_name),
    foldl (fun m c => <[tool_Name (tb_Tool c) := default [] (m !! tool_Name (tb_Tool c)) ++
        [{| tb_Tool := tb_Tool c; tb_BackendID := tb_BackendID c |}]]> m) m l !! n =
    if decide (filter (fun c => tool_Name (tb_Tool c) = n) l = []) then m !! n
    else Some (default [] (m !! n) ++ filter (fun c => tool_Name (tb_Tool c) = n) l)) as Hl.
  { induction l as [|[t b] l IH]; intros m; [done|]. cbn [foldl tb_Tool tb_BackendID]. rewrite IH, filter_cons.
    cbn [tb_Tool]. destruct (decide (tool_Name t = n)) as [->|Hne].
    - rewrite lookup_insert_eq. cbn [default]. destruct (filter _ l) as [|c l'] eqn:E; simpl.
      + done.
      + by rewrite <- app_assoc.
    - by rewrite !lookup_insert_ne by done. }
  rewrite Hl, lookup_empty. done.
Qed.

(** What every strategy promises its client: the key is the resolved name, and the
    entry is a tool its backend offers, with that tool's schemas and name. *)
Definition resolved_ok (tools : tools_by_backend) (m : gmap string ResolvedTool) : Prop :=
  forall n rt, m !! n = Some rt -> rtool_ResolvedName rt = n /\
    exists t, {| tb_Tool := t; tb_BackendID := rtool_BackendID rt |} ∈ flat tools /\
      rtool_OriginalName rt = tool_Name t /\ rtool_InputSchema rt = tool_InputSchema t /\
      rtool_OutputSchema rt = tool_OutputSchema t.

Class ConflictResolverOk (R : Type) `{ConflictResolver R} : Prop :=
  resolver_sound : forall r range tools m,
    (forall g, range g ≡ₚ map_to_list g) ->
    ResolveToolConflicts r range tools = inr m -> resolved_ok tools m.

Lemma resolved_ok_empty tools : resolved_ok tools ∅.
Proof. intros n rt. by rewrite lookup_empty. Qed.

Lemma resolved_ok_insert tools m rt c :
  resolved_ok tools m -> c ∈ flat tools -> rtool_BackendID rt = tb_BackendID c ->
  rtool_OriginalName rt = tool_Name (tb_Tool c) -> rtool_InputSchema rt = tool_InputSchema (tb_Tool c) ->
  rtool_OutputSchema rt = tool_OutputSchema (tb_Tool c) ->
  resolved_ok tools (<[rtool_ResolvedName rt := rt]> m).
Proof.
  intros Hm Hc E1 E2 E3 E4 n rt'. rewrite lookup_insert_Some. intros [[<- <-]|[_ Hn]]; [|by apply Hm].
  split; [done|]. exists (tb_Tool c). rewrite E1. by destruct c.
Qed.

Lemma foldl_invariant {A B} (P : A -> Prop) (f : A -> B -> A) acc l :
  P acc -> (forall acc x, x ∈ l -> P acc -> P (f acc x)) -> P (foldl f acc l).
Proof.
  revert acc. induction l as [|x l IH]; intros acc Hacc Hf; [done|]. simpl. apply IH.
  - apply Hf; [left|done].
  - intros acc' y Hy. apply Hf. by right.
Qed.

#[export] Instance PrefixConflictResolver_ok : ConflictResolverOk PrefixConflictResolver.
Proof.
  intros r range tools m _ [= <-]. rewrite over_tools_flat.
  apply foldl_invariant; [apply resolved_ok_empty|]. intros acc c Hc Hacc. unfold add_prefixed.
  case_match; [done|]. by eapply (resolved_ok_insert _ _ (new_ResolvedTool _ _ _ _ _)).
Qed.

Lemma group_candidate tools n cs c :
  groupToolsByName tools !! n = Some cs -> c ∈ cs -> c ∈ flat tools /\ tool_Name (tb_Tool c) = n.
Proof.
  rewrite group_lookup. case_decide; [done|]. intros [= <-] [Hn Hc]%list_elem_of_filter. done.
Qed.

Lemma selectWinner_elem r cs c : selectWinner r cs = Some c -> c ∈ cs.
Proof.
  unfold selectWinner. assert (forall best, (forall c, best.1 = Some c -> c ∈ cs) ->
    forall c, (foldl (better_candidate r) best cs).1 = Some c -> c ∈ cs) as Hl.
  { intros best Hb. apply (foldl_invariant (fun best : option toolWithBackend * Z =>
      forall c, best.1 = Some c -> c ∈ cs)); [done|]. intros b x Hx Hbx c'. unfold better_candidate.
    repeat case_match; try done; [by intros [= <-]|by apply Hbx|by apply Hbx]. }
  apply Hl. done.
Qed.

#[export] Instance PriorityConflictResolver_ok : ConflictResolverOk PriorityConflictResolver.
Proof.
  intros r range tools m Hr [= <-]. apply foldl_invariant; [apply resolved_ok_empty|].
  intros acc [n cs] Hin Hacc. rewrite Hr, elem_of_map_to_list in Hin.
  pose proof (fun c => group_candidate _ _ _ c Hin) as Hcs.
  assert (forall c s, c ∈ cs -> resolved_ok tools
    (<[n := new_ResolvedTool n n (tb_BackendID c) (tb_Tool c) s]> acc)) as Hins.
  { intros c s [Hc Hn]%Hcs. by apply (resolved_ok_insert tools acc
      (new_ResolvedTool n n (tb_BackendID c) (tb_Tool c) s) c). }
  assert (resolved_ok tools match selectWinner r cs with
    | None => foldl (add_fallback r n) acc cs
    | Some w => <[n := new_ResolvedTool n n (tb_BackendID w) (tb_Tool w) ConflictStrategyPriority]> acc
    end) as Hconf.
  { destruct (selectWinner r cs) as [w|] eqn:Ew; [by apply Hins, (selectWinner_elem r)|].
    apply foldl_invariant; [done|]. intros acc' c [Hc Hn]%Hcs Hacc'.
    by apply (resolved_ok_insert tools acc' (new_ResolvedTool _ n (tb_BackendID c) (tb_Tool c) _) c). }
  unfold resolve_name. destruct cs as [|c [|c' cs]]; [done| |done]. apply Hins. left.
Qed.

(** ** The manual strategy loses nothing *)
Definition resolved_of (r : ManualConflictResolver) (c : toolWithBackend) : ResolvedTool :=
  resolveToolWithOverride r (tb_BackendID c) (tb_Tool c).

Definition resolved_names (r : ManualConflictResolver) (l : list toolWithBackend) : list string :=
  (fun c => rtool_ResolvedName (resolved_of r c)) <$> l.

Definition resolved_entries (r : ManualConflictResolver) (l : list toolWithBackend)
    : list (string * ResolvedTool) :=
  (fun c => (rtool_ResolvedName (resolved_of r c), resolved_of r c)) <$> l.

Lemma resolved_entries_fst r l : (resolved_entries r l).*1 = resolved_names r l.
Proof. unfold resolved_entries, resolved_names. by rewrite <- list_fmap_compose. Qed.

Lemma overridden_error r l err :
  foldl (fun acc c => add_overridden r (tb_BackendID c) acc (tb_Tool c)) (inl err) l = inl err.
Proof. by induction l. Qed.

Lemma overridden_fold r l m m' :
  foldl (fun acc c => add_overridden r (tb_BackendID c) acc (tb_Tool c)) (inr m) l = inr m' <->
  NoDup (resolved_names r l) /\ (forall n, n ∈ resolved_names r l -> m !! n = None) /\
  m' = list_to_map (resolved_entries r l) ∪ m.
Proof.
  revert m. induction l as [|c l IH]; intros m.
  { simpl. rewrite (left_id_L ∅ (∪)). split; [intros [= ->]; split_and!; [constructor|set_solver|done]|].
    by intros (_ & _ & ->). }
  unfold resolved_names, resolved_entries in *. cbn [foldl fmap list_fmap]. unfold add_overridden at 2.
  fold (resolved_of r c). set (n := rtool_ResolvedName (resolved_of r c)) in *.
  destruct (m !! n) as [e|] eqn:En.
  { rewrite overridden_error. split; [done|]. intros (_ & Hnone & _). rewrite Hnone in En; [done|left]. }
  rewrite IH, NoDup_cons. cbn [list_to_map foldr fst snd]. split.
  - intros (Hn & Hnone & ->).
    assert (n ∉ (fun c => rtool_ResolvedName (resolved_of r c)) <$> l) as Hnl.
    { intros Hin. specialize (Hnone n Hin). by rewrite lookup_insert_eq in Hnone. }
    split_and!; [done|done| |].
    + intros n' [->|Hin]%elem_of_cons; [done|]. specialize (Hnone n' Hin).
      by apply lookup_insert_None in Hnone as [? _].
    + rewrite <- insert_union_r; [by rewrite insert_union_l|]. apply not_elem_of_list_to_map_1.
      by rewrite <- list_fmap_compose.
  - intros ((Hnl & Hn) & Hnone & ->). split_and!; [done| |].
    + intros n' Hin. apply lookup_insert_None. split; [apply Hnone; by right|]. intros <-. done.
    + rewrite <- insert_union_r; [by rewrite insert_union_l|]. apply not_elem_of_list_to_map_1.
      by rewrite <- list_fmap_compose.
Qed.

(** A name several tools share, not all of which have an override. *)
Definition unresolved (r : ManualConflictResolver) (tools : tools_by_backend) (n : string) : Prop :=
  1 < length (candidates_of tools n) /\ exists c, c ∈ candidates_of tools n /\
    mc_Overrides r !! override_key (tb_BackendID c) n = None.

Lemma allCandidates_false r n cs :
  allCandidatesHaveOverrides r n cs = false <->
  exists c, c ∈ cs /\ mc_Overrides r !! override_key (tb_BackendID c) n = None.
Proof.
  unfold allCandidatesHaveOverrides. rewrite <- not_true_iff_false, forallb_forall. split.
  - intros Hn. destruct (decide (Exists (fun c =>
      mc_Overrides r !! override_key (tb_BackendID c) n = None) cs)) as [He|He].
    + by apply Exists_exists in He.
    + destruct Hn. intros c Hc. apply bool_decide_eq_true. apply not_eq_None_Some. intros E.
      apply He, Exists_exists. exists c. by rewrite list_elem_of_In.
  - intros (c & Hc & E) Hall. rewrite list_elem_of_In in Hc. specialize (Hall c Hc).
    apply bool_decide_eq_true in Hall. rewrite E in Hall. by destruct Hall.
Qed.

Lemma unresolved_conflicts r range tools :
  (forall g, range g ≡ₚ map_to_list g) ->
  findUnresolvedConflicts r (range (groupToolsByName tools)) = [] <-> forall n, ~ unresolved r tools n.
Proof.
  intros Hr. split.
  - intros Hnil n [Hlen Hc].
    apply (not_elem_of_nil (n, tb_BackendID <$> candidates_of tools n)). rewrite <- Hnil.
    apply list_elem_of_omap. exists (n, candidates_of tools n).
    rewrite Hr, elem_of_map_to_list, group_lookup.
    split; [destruct (candidates_of tools n); simpl in *; [lia|done]|].
    rewrite decide_False by lia. by rewrite (proj2 (allCandidates_false _ _ _) Hc).
  - intros Hun. apply elem_of_nil_inv. intros x Hx. apply list_elem_of_omap in Hx as ([n cs] & Hin & E).
    rewrite Hr, elem_of_map_to_list, group_lookup in Hin. case_decide; [done|].
    case_decide; [done|]. destruct (allCandidatesHaveOverrides _ _ _) eqn:Ea; [done|]. injection Hin as <-.
    apply (Hun n). split; [lia|]. by apply allCandidates_false.
Qed.

Lemma manual_spec (r : ManualConflictResolver) range tools m :
  (forall g, range g ≡ₚ map_to_list g) ->
  ResolveToolConflicts r range tools = inr m <->
  (forall n, ~ unresolved r tools n) /\ NoDup (resolved_names r (flat tools)) /\
  m = list_to_map (resolved_entries r (flat tools)).
Proof.
  intros Hr. cbn [ResolveToolConflicts ManualConflictResolver_resolver].
  rewrite <- (unresolved_conflicts r range tools Hr). case_decide as Hl.
  { split; [done|]. intros (E & _). rewrite E in Hl. simpl in Hl. lia. }
  assert (findUnresolvedConflicts r (range (groupToolsByName tools)) = []) as E.
  { apply nil_length_inv. lia. }
  unfold applyOverridesAndResolve. rewrite over_tools_flat, overridden_fold, (right_id_L ∅ (∪)).
  split; [intros (? & _ & ?); done|]. intros (_ & ? & ?). split_and!; [done| |done].
  intros n _. apply lookup_empty.
Qed.

#[export] Instance ManualConflictResolver_ok : ConflictResolverOk ManualConflictResolver.
Proof.
  intros r range tools m Hr (_ & _ & ->)%manual_spec n rt Hn; [|done].
  apply elem_of_list_to_map_2, list_elem_of_fmap in Hn as ([t b] & [= -> ->] & Hc).
  split; [done|]. exists t. unfold resolved_of, resolveToolWithOverride. by case_match.
Qed.

#[export] Instance anyResolver_ok : ConflictResolverOk anyResolver.
Proof. intros [r|r|r]; apply (resolver_sound r). Qed.

(** The manual strategy succeeds exactly when every name that several tools
    share is overridden for each of them and no two tools end up with the same
    name; the result then holds every tool of every backend, under its overridden
    name, and nothing else, in whatever order the maps are visited. *)
Theorem manual_resolution_exact (r : ManualConflictResolver) range tools m :
  (forall g, range g ≡ₚ map_to_list g) ->
  ResolveToolConflicts r range tools = inr m <->
  (forall n, ~ unresolved r tools n) /\ NoDup (resolved_names r (flat tools)) /\
  m = list_to_map (resolved_entries r (flat tools)).
Proof. apply manual_spec. Qed.

Definition sample_tool (name : string) : Tool := {|
  tool_Name := name; tool_Description := ""; tool_InputSchema := JNull; tool_OutputSchema := JNull;
  tool_Annotations := None; tool_BackendID := "" |}.

Definition sample_manual : ManualConflictResolver := {|
  mc_Overrides := {[ "a:get" := {| to_Name := "get_a"; to_Description := ""; to_Annotations := None |};
                     "b:get" := {| to_Name := "get_b"; to_Description := ""; to_Annotations := None |} ]} |}.

Lemma manual_resolution_exact_witness :
  let tools := [("a", [sample_tool "get"]); ("b", [sample_tool "get"; sample_tool "put"])] in
  exists m, ResolveToolConflicts sample_manual map_to_list tools = inr m /\
    NoDup (resolved_names sample_manual (flat tools)) /\
    m = list_to_map (resolved_entries sample_manual (flat tools)).
Proof.
  intros tools. eexists. split; [vm_compute; reflexivity|].
  refine (proj2 (proj1 (manual_resolution_exact sample_manual map_to_list tools _ (fun _ => reflexivity _)) _)).
  vm_compute. reflexivity.
Defined.

(** ** The priority strategy *)

(** [p] is the last position of [b] in the order. *)
Definition last_position (order : list string) (b : string) (p : nat) : Prop :=
  order !! p = Some b /\ forall q, order !! q = Some b -> q <= p.

Lemma build_priorities_spec order : forall i m m',
  build_priorities i order m = inr m' ->
  forall b, (exists p, last_position order b p /\ m' !! b = Some (Z.of_nat (i + p))) \/
    ((b ∉ order) /\ m' !! b = m !! b).
Proof.
  induction order as [|x order IH]; intros i m m' E b; simpl in E.
  { right. simplify_eq. split; [set_solver|done]. }
  case_decide; [done|]. destruct (IH _ _ _ E b) as [(p & [Hp Hl] & Hm)|[Hb Hm]].
  - left. exists (S p). rewrite Hm, Nat.add_succ_r. split; [|done]. split; [done|].
    intros [|q] Hq; [lia|]. specialize (Hl q Hq). lia.
  - destruct (decide (b = x)) as [->|Hne].
    + left. exists 0. rewrite Hm, lookup_insert_eq, Nat.add_0_r. split; [|done]. split; [done|].
      intros [|q] Hq; [lia|]. destruct Hb. by eapply list_elem_of_lookup_2.
    + right. rewrite Hm, lookup_insert_ne by done. split; [set_solver|done].
Qed.

(** The best of the candidates seen so far. *)
Lemma selectWinner_spec r cs :
  (forall b p, pc_priorityMap r !! b = Some p -> (0 <= p)%Z) ->
  match selectWinner r cs with
  | None => forall c, c ∈ cs -> pc_priorityMap r !! tb_BackendID c = None
  | Some w => exists p, pc_priorityMap r !! tb_BackendID w = Some p /\
      forall c p', c ∈ cs -> pc_priorityMap r !! tb_BackendID c = Some p' -> (p <= p')%Z
  end.
Proof.
  intros Hpos. unfold selectWinner.
  assert (let best := foldl (better_candidate r) (None, (-1)%Z) cs in
    match best.1 with
    | None => best.2 = (-1)%Z /\ forall c, c ∈ cs -> pc_priorityMap r !! tb_BackendID c = None
    | Some w => (0 <= best.2)%Z /\ pc_priorityMap r !! tb_BackendID w = Some best.2 /\
        forall c p', c ∈ cs -> pc_priorityMap r !! tb_BackendID c = Some p' -> (best.2 <= p')%Z
    end) as Hb.
  { induction cs as [|c cs IH] using rev_ind; [split; [done|set_solver]|].
    rewrite foldl_app. cbn [foldl]. set (best := foldl (better_candidate r) (None, (-1)%Z) cs) in *.
    cbn zeta in IH |- *. unfold better_candidate. clearbody best.
    destruct (pc_priorityMap r !! tb_BackendID c) as [p|] eqn:Ep.
    - specialize (Hpos _ _ Ep). destruct best as [[w|] q]; simpl in *.
      + destruct IH as (Hq & Hw & Hl). destruct (Z.eqb_spec q (-1)); [lia|]. simpl.
        destruct (Z.ltb_spec p q); simpl; (split; [lia|]; split; [done|]);
          intros c' p' [Hc| ->%list_elem_of_singleton]%elem_of_app Hp'; simplify_eq; try lia;
          specialize (Hl _ _ Hc Hp'); lia.
      + destruct IH as [-> Hl]. simpl. split; [lia|]. split; [done|].
        intros c' p' [Hc| ->%list_elem_of_singleton]%elem_of_app Hp'; simplify_eq; [|lia].
        by rewrite (Hl _ Hc) in Hp'.
    - destruct best as [[w|] q]; simpl in *.
      + destruct IH as (? & ? & Hl). split_and!; [done|done|].
        intros c' p' [Hc| ->%list_elem_of_singleton]%elem_of_app Hp'; [by eapply Hl|congruence].
      + destruct IH as [? Hl]. split; [done|].
        by intros c' [Hc| ->%list_elem_of_singleton]%elem_of_app; [apply Hl|]. }
  cbn zeta in Hb. destruct (foldl _ _ cs).1; [|by destruct Hb]. destruct Hb as (_ & ? & ?). eauto.
Qed.

(** What one name adds to the result. *)
Definition name_entries (r : PriorityConflictResolver) (entry : string * list toolWithBackend)
    : list (string * ResolvedTool) :=
  let '(n, cs) := entry in
  let own c := (n, new_ResolvedTool n n (tb_BackendID c) (tb_Tool c) ConflictStrategyPriority) in
  let prefixed c := let k := applyPrefix (pc_prefixResolver r) (tb_BackendID c) n in
    (k, new_ResolvedTool k n (tb_BackendID c) (tb_Tool c) ConflictStrategyPrefix) in
  match cs with
  | [c] => [own c]
  | _ => match selectWinner r cs with Some w => [own w] | None => prefixed <$> cs end
  end.

Definition insert_all (m : gmap string ResolvedTool) (l : list (string * ResolvedTool)) :=
  foldl (fun m p => <[p.1 := p.2]> m) m l.

Lemma resolve_names r entries m :
  foldl (resolve_name r) m entries = insert_all m (entries ≫= name_entries r).
Proof.
  revert m. induction entries as [|[n cs] entries IH]; intros m; [done|].
  cbn [foldl]. rewrite IH. unfold insert_all. rewrite bind_cons, foldl_app. f_equal.
  unfold resolve_name, name_entries.
  assert (forall m', foldl (add_fallback r n) m' cs = foldl (fun m p => <[p.1 := p.2]> m) m'
    ((fun c => let k := applyPrefix (pc_prefixResolver r) (tb_BackendID c) n in
      (k, new_ResolvedTool k n (tb_BackendID c) (tb_Tool c) ConflictStrategyPrefix)) <$> cs)) as Hf.
  { induction cs as [|c cs' IHc]; intros m'; [done|]. cbn [foldl fmap list_fmap]. by rewrite IHc. }
  destruct cs as [|c [|c' cs]]; [done|done|]. destruct (selectWinner r _); [done|]. apply Hf.
Qed.

(** A key that all its entries agree on has that value. *)
Lemma insert_all_lookup l m k v :
  (k, v) ∈ l -> (forall v', (k, v') ∈ l -> v' = v) -> insert_all m l !! k = Some v.
Proof.
  unfold insert_all. induction l as [|[k' v'] l IH] using rev_ind; intros Hin Hu; [set_solver|].
  rewrite foldl_app. cbn [foldl fst snd]. destruct (decide (k = k')) as [->|Hne].
  - rewrite lookup_insert_eq. f_equal. apply Hu. set_solver.
  - rewrite lookup_insert_ne by done. apply IH; set_solver.
Qed.

Definition conflicted (tools : tools_by_backend) (n : string) : Prop :=
  1 < length (candidates_of tools n).

(** The tools that fall back to a prefixed name: they share their name, and none of
    the backends that offer it is listed. *)
Definition falls_back (order : list string) (tools : tools_by_backend) (c : toolWithBackend) : Prop :=
  conflicted tools (tool_Name (tb_Tool c)) /\
  Forall (fun c' => tb_BackendID c' ∉ order) (candidates_of tools (tool_Name (tb_Tool c))).

Definition fallback_name (c : toolWithBackend) : string :=
  applyPrefixFormat defaultPrefixFormat (tb_BackendID c) (tool_Name (tb_Tool c)).

#[export] Instance falls_back_dec order tools c : Decision (falls_back order tools c).
Proof. unfold falls_back, conflicted. apply _. Defined.

(** No two fallback names are equal, and none is the name of a tool. *)
Definition fallback_names_free (order : list string) (tools : tools_by_backend) : Prop :=
  NoDup (fallback_name <$> filter (falls_back order tools) (flat tools)) /\
  forall c, c ∈ flat tools -> falls_back order tools c -> candidates_of tools (fallback_name c) = [].

Section priority.
Context (order : list string) (r : PriorityConflictResolver).
Hypothesis new_r : NewPriorityConflictResolver order = inr r.

Lemma priority_of b :
  (exists p, last_position order b p /\ pc_priorityMap r !! b = Some (Z.of_nat p)) \/
  ((b ∉ order) /\ pc_priorityMap r !! b = None).
Proof using new_r.
  unfold NewPriorityConflictResolver in new_r. case_decide; [done|].
  destruct (build_priorities 0 order ∅) as [|m] eqn:E; [done|]. injection new_r as <-. simpl.
  by destruct (build_priorities_spec _ _ _ _ E b) as [?|[? ->]]; [left|right].
Qed.

Lemma priority_unlisted b : pc_priorityMap r !! b = None <-> b ∉ order.
Proof using new_r.
  destruct (priority_of b) as [(p & [Hp _] & E)|[Hb E]]; rewrite E; [|done].
  split; [done|]. intros Hb. destruct Hb. by eapply list_elem_of_lookup_2.
Qed.

Lemma winner_spec cs :
  match selectWinner r cs with
  | None => Forall (fun c => tb_BackendID c ∉ order) cs
  | Some w => w ∈ cs /\ exists p, last_position order (tb_BackendID w) p /\
      forall c p', c ∈ cs -> last_position order (tb_BackendID c) p' -> p <= p'
  end.
Proof using new_r.
  assert (forall b p, pc_priorityMap r !! b = Some p -> (0 <= p)%Z) as Hpos.
  { intros b p E. destruct (priority_of b) as [(q & _ & E')|[_ E']]; simplify_eq. lia. }
  pose proof (selectWinner_spec r cs Hpos) as Hw. destruct (selectWinner r cs) as [w|] eqn:Ew.
  - split; [by eapply selectWinner_elem|]. destruct Hw as (p & Ep & Hmin).
    destruct (priority_of (tb_BackendID w)) as [(q & Hq & Eq)|[_ Eq]]; simplify_eq.
    exists q. split; [done|]. intros c p' Hc [Hp' Hlast].
    destruct (priority_of (tb_BackendID c)) as [(q' & [Hq' Hlast'] & Eq')|[Hn _]].
    + specialize (Hmin c _ Hc Eq'). specialize (Hlast _ Hq'). specialize (Hlast' _ Hp'). lia.
    + destruct Hn. by eapply list_elem_of_lookup_2.
  - apply Forall_forall. intros c Hc. apply priority_unlisted. by apply Hw.
Qed.

Lemma prefix_fallback c n :
  applyPrefix (pc_prefixResolver r) (tb_BackendID c) n = applyPrefixFormat defaultPrefixFormat (tb_BackendID c) n.
Proof using new_r.
  unfold NewPriorityConflictResolver in new_r. case_decide; [done|].
  destruct (build_priorities 0 order ∅) as [|m] eqn:E; [done|]. by injection new_r as <-.
Qed.

(** An entry of the result comes from a name whose owner is decided, or from a tool
    that falls back. *)
Lemma name_entries_inv tools n cs k v :
  groupToolsByName tools !! n = Some cs -> (k, v) ∈ name_entries r (n, cs) ->
  (k = n /\ candidates_of tools n <> [] /\ name_entries r (n, cs) = [(n, v)]) \/
  exists c, c ∈ flat tools /\ falls_back order tools c /\ k = fallback_name c /\
    v = new_ResolvedTool k (tool_Name (tb_Tool c)) (tb_BackendID c) (tb_Tool c) ConflictStrategyPrefix.
Proof using new_r.
  intros Hg Hin. pose proof (fun c => group_candidate _ _ _ c Hg) as Hcs.
  rewrite group_lookup in Hg. case_decide as Hne; [done|]. injection Hg as Hg.
  unfold name_entries in *. pose proof (winner_spec cs) as Hw.
  destruct cs as [|c [|c' cs']] eqn:Ecs; [congruence| |].
  { apply list_elem_of_singleton in Hin as [= -> ->]. left. by rewrite Hg. }
  rewrite <- Ecs in *. destruct (selectWinner r cs) as [w|].
  { apply list_elem_of_singleton in Hin as [= -> ->]. left. by rewrite Hg, Ecs. }
  right. apply list_elem_of_fmap in Hin as (d & [= -> ->] & Hd). destruct (Hcs d Hd) as [Hf Hn].
  exists d. split; [done|]. unfold falls_back, fallback_name, conflicted. rewrite Hn, Hg, prefix_fallback.
  split_and!; [rewrite Ecs; simpl; lia|done|done|done].
Qed.

Lemma own_name_kept range tools n cs v :
  (forall g, range g ≡ₚ map_to_list g) -> fallback_names_free order tools ->
  groupToolsByName tools !! n = Some cs -> name_entries r (n, cs) = [(n, v)] ->
  insert_all ∅ (range (groupToolsByName tools) ≫= name_entries r) !! n = Some v.
Proof using new_r.
  intros Hr [_ Hfree] Hg E. apply insert_all_lookup.
  - apply list_elem_of_bind. exists (n, cs). rewrite E. split; [left|].
    by rewrite Hr, elem_of_map_to_list.
  - intros v' Hin. apply list_elem_of_bind in Hin as ([n' cs'] & Hin & Hg').
    rewrite Hr, elem_of_map_to_list in Hg'.
    destruct (name_entries_inv _ _ _ _ _ Hg' Hin) as [(<- & _ & E')|(c & Hc & Hfb & Hk & _)].
    + rewrite Hg in Hg'. injection Hg' as <-. rewrite E in E'. by injection E' as <-.
    + specialize (Hfree c Hc Hfb). rewrite group_lookup in Hg. rewrite Hk, Hfree in Hg.
      by rewrite decide_True in Hg.
Qed.

Lemma fallback_kept range tools c cs :
  (forall g, range g ≡ₚ map_to_list g) -> fallback_names_free order tools ->
  c ∈ flat tools -> falls_back order tools c ->
  groupToolsByName tools !! tool_Name (tb_Tool c) = Some cs ->
  insert_all ∅ (range (groupToolsByName tools) ≫= name_entries r) !! fallback_name c =
    Some (new_ResolvedTool (fallback_name c) (tool_Name (tb_Tool c)) (tb_BackendID c) (tb_Tool c)
      ConflictStrategyPrefix).
Proof using new_r.
  intros Hr [Hnd Hfree] Hc Hfb Hg. apply insert_all_lookup.
  - apply list_elem_of_bind. exists (tool_Name (tb_Tool c), cs). rewrite Hr, elem_of_map_to_list.
    split; [|done]. pose proof (winner_spec cs) as Hw. pose proof Hfb as [Hconf Hall].
    rewrite group_lookup in Hg. case_decide; [done|]. injection Hg as <-. unfold conflicted in Hconf.
    assert (c ∈ candidates_of tools (tool_Name (tb_Tool c))) as Hin by (by apply list_elem_of_filter).
    unfold name_entries. destruct (candidates_of tools _) as [|c1 [|c2 cs]] eqn:Ecs; simpl in Hconf; [lia|lia|].
    rewrite <- Ecs in *. destruct (selectWinner r _) as [w|].
    + destruct Hw as (Hwin & p & [Hp _] & _). rewrite Forall_forall in Hall.
      destruct (Hall w Hwin). by eapply list_elem_of_lookup_2.
    + apply list_elem_of_fmap. exists c. by rewrite prefix_fallback.
  - intros v' Hin. apply list_elem_of_bind in Hin as ([n' cs'] & Hin & Hg').
    rewrite Hr, elem_of_map_to_list in Hg'.
    destruct (name_entries_inv _ _ _ _ _ Hg' Hin) as [(Hk & Hne & _)|(c' & Hc' & Hfb' & Hk & ->)].
    + rewrite <- Hk, (Hfree c Hc Hfb) in Hne. done.
    + assert (c' = c) as ->; [|done].
      eapply (NoDup_fmap_elem fallback_name); [exact Hnd|by apply list_elem_of_filter..|done].
Qed.
End priority.

(** The priority strategy, as long as no prefixed fallback name is taken twice or
    is the name of a tool: a name only one tool has is kept; a shared name goes to
    the backend that comes first in the priority order among those that offer it
    (a backend listed twice counting at its last position); and when none of them
    is listed, each of the tools is kept under its prefixed name.  The order in
    which maps are visited does not matter. *)
Theorem priority_resolution order r range tools m :
  NewPriorityConflictResolver order = inr r ->
  (forall g, range g ≡ₚ map_to_list g) -> fallback_names_free order tools ->
  ResolveToolConflicts r range tools = inr m ->
  forall c, c ∈ flat tools -> let n := tool_Name (tb_Tool c) in
    (~ conflicted tools n -> m !! n =
       Some (new_ResolvedTool n n (tb_BackendID c) (tb_Tool c) ConflictStrategyPriority)) /\
    (falls_back order tools c -> m !! fallback_name c =
       Some (new_ResolvedTool (fallback_name c) n (tb_BackendID c) (tb_Tool c) ConflictStrategyPrefix)) /\
    (conflicted tools n -> ~ falls_back order tools c ->
       exists w p, w ∈ candidates_of tools n /\
         m !! n = Some (new_ResolvedTool n n (tb_BackendID w) (tb_Tool w) ConflictStrategyPriority) /\
         last_position order (tb_BackendID w) p /\
         forall c' p', c' ∈ candidates_of tools n -> last_position order (tb_BackendID c') p' -> p <= p').
Proof.
  intros Hnew Hr Hfree [= <-] c Hc n. rewrite resolve_names.
  assert (c ∈ candidates_of tools n) as Hin by (by apply list_elem_of_filter).
  assert (groupToolsByName tools !! n = Some (candidates_of tools n)) as Hg.
  { rewrite group_lookup, decide_False; [done|]. intros E. rewrite E in Hin. set_solver. }
  split_and!.
  - intros Hone. eapply own_name_kept; [done|done|done|exact Hg|]. unfold conflicted in Hone.
    destruct (candidates_of tools n) as [|c1 [|c2 cs]]; simpl in Hone; [set_solver| |lia].
    by apply list_elem_of_singleton in Hin as ->.
  - intros Hfb. by eapply fallback_kept.
  - intros Hconf Hnf. pose proof (winner_spec order r Hnew (candidates_of tools n)) as Hw.
    destruct (selectWinner r (candidates_of tools n)) as [w|] eqn:Ew; [|by destruct Hnf].
    destruct Hw as (Hwin & p & Hp & Hmin). exists w, p. split; [done|]. split; [|done].
    eapply own_name_kept; [done|done|done|exact Hg|]. unfold name_entries, conflicted in *.
    rewrite Ew. destruct (candidates_of tools n) as [|c1 [|c2 cs]]; simpl in Hconf; [lia|lia|done].
Qed.

Lemma priority_resolution_witness :
  let tools := [("x", [sample_tool "get"]); ("a", [sample_tool "get"]); ("b", [sample_tool "get"; sample_tool "put"])] in
  exists r m, NewPriorityConflictResolver ["b"; "a"] = inr r /\
    ResolveToolConflicts r map_to_list tools = inr m /\
    m !! "put" = Some (new_ResolvedTool "put" "put" "b" (sample_tool "put") ConflictStrategyPriority) /\
    rtool_BackendID <$> m !! "get" = Some "b".
Proof.
  intros tools. eexists _, _. split; [reflexivity|]. split; [reflexivity|]. split; [|vm_compute; reflexivity].
  refine (proj1 (priority_resolution ["b"; "a"] _ map_to_list tools _ eq_refl (fun _ => reflexivity _) _ eq_refl
    {| tb_Tool := sample_tool "put"; tb_BackendID := "b" |} _) _).
  - split; [vm_compute; constructor|]. intros c Hc Hfb. exfalso.
    assert (Forall (fun c => ~ falls_back ["b"; "a"] tools c) (flat tools)) as Hall
      by (apply (bool_decide_unpack _); vm_compute; exact I).
    rewrite Forall_forall in Hall. exact (Hall c Hc Hfb).
  - right. right. right. left.
  - unfold conflicted. vm_compute. lia.
Defined.

(** With the prefix strategy two tools of different backends can get the same name;
    which one keeps it then depends on the order in which the map is visited. *)
Example prefix_collision_depends_on_order :
  let r := NewPrefixConflictResolver "" in
  let t1 := ("b1", [sample_tool "x_y"]) in
  let t2 := ("b1_x", [sample_tool "y"]) in
  let owner o := match ResolveToolConflicts r map_to_list o with
    | inr m => rtool_BackendID <$> m !! "b1_x_y" | inl _ => None end in
  owner [t1; t2] = Some "b1" /\ owner [t2; t1] = Some "b1_x".
Proof. split; reflexivity. Qed.
