(* ===== verification/ToolAdapter.v ===== *)
(** * Per-backend tool overrides
    ([pkg/vmcp/aggregator/tool_adapter.go], the override part of
    [pkg/mcp/tool_filter.go], and [actualBackendCapabilityName] of
    [pkg/vmcp/aggregator/default_aggregator.go])

    The overrides of a workload are a map the code loops over; [range] is the order
    of such a loop. *)

From S2P Require Import Prelude VmcpTypes AggregatorTypes ToolResolvers.

(** ** [pkg/mcp/tool_filter.go] *)
Record SimpleTool := {
  st_Name : string;
  st_Description : string;
}.

Record toolOverrideEntry := {
  oe_ActualName : string;
  oe_OverrideName : string;
  oe_OverrideDescription : string;
}.

Record toolMiddlewareConfig := {
  mw_filterTools : gset string;
  mw_actualToUserOverride : gmap string toolOverrideEntry;
  mw_userToActualOverride : gmap string toolOverrideEntry;
}.

Definition isToolInFilter (c : toolMiddlewareConfig) (toolName : string) : bool :=
  if decide (size (mw_filterTools c) = 0) then true else bool_decide (toolName ∈ mw_filterTools c).

Definition getToolListOverride (c : toolMiddlewareConfig) (toolName : string)
    : option toolOverrideEntry :=
  if decide (size (mw_actualToUserOverride c) = 0) then None
  else mw_actualToUserOverride c !! toolName.

(** The options; [None] is an error. *)
Inductive ToolMiddlewareOption :=
  | WithToolsFilter (toolsFilter : list string)
  | WithToolsOverride (actualName overrideName overrideDescription : string).

Fixpoint add_filters (toolsFilter : list string) (c : toolMiddlewareConfig)
    : option toolMiddlewareConfig :=
  match toolsFilter with
  | [] => Some c
  | tf :: toolsFilter =>
      if decide (tf = "") then None
      else add_filters toolsFilter {|
        mw_filterTools := {[tf]} ∪ mw_filterTools c;
        mw_actualToUserOverride := mw_actualToUserOverride c;
        mw_userToActualOverride := mw_userToActualOverride c |}
  end.

Definition apply_option (c : toolMiddlewareConfig) (opt : ToolMiddlewareOption)
    : option toolMiddlewareConfig :=
  match opt with
  | WithToolsFilter toolsFilter => add_filters toolsFilter c
  | WithToolsOverride actualName overrideName overrideDescription =>
      if decide (actualName = "") then None
      else if decide (overrideName = "" /\ overrideDescription = "") then None
      else
        let entry := {| oe_ActualName := actualName; oe_OverrideName := overrideName;
                        oe_OverrideDescription := overrideDescription |} in
        Some {| mw_filterTools := mw_filterTools c;
                mw_actualToUserOverride := <[actualName := entry]> (mw_actualToUserOverride c);
                mw_userToActualOverride := <[overrideName := entry]> (mw_userToActualOverride c) |}
  end.

Fixpoint apply_options (opts : list ToolMiddlewareOption) (c : toolMiddlewareConfig)
    : option toolMiddlewareConfig :=
  match opts with
  | [] => Some c
  | opt :: opts =>
      match apply_option c opt with
      | Some c => apply_options opts c
      | None => None
      end
  end.

(** One tool of the loop: its overridden form. *)
Definition override_simple (c : toolMiddlewareConfig) (tool : SimpleTool) : SimpleTool :=
  match getToolListOverride c (st_Name tool) with
  | None => tool
  | Some entry => {|
      st_Name := if decide (oe_OverrideName entry ≠ "") then oe_OverrideName entry else st_Name tool;
      st_Description :=
        if decide (oe_OverrideDescription entry ≠ "") then oe_OverrideDescription entry
        else st_Description tool |}
  end.

Definition applyFilteringAndOverrides (c : toolMiddlewareConfig) (tools : list SimpleTool)
    : list SimpleTool :=
  filter (fun tool => isToolInFilter c (st_Name tool) = true) (override_simple c <$> tools).

Definition ApplyToolFiltering (opts : list ToolMiddlewareOption) (tools : list SimpleTool)
    : option (list SimpleTool) :=
  match apply_options opts {| mw_filterTools := ∅; mw_actualToUserOverride := ∅;
                              mw_userToActualOverride := ∅ |} with
  | Some c => Some (applyFilteringAndOverrides c tools)
  | None => None
  end.

(** ** [tool_adapter.go] *)
Abbreviation override_entries := (list (string * option ToolOverride)) (only parsing).

(** The options and the reverse map that the loop over the overrides builds. *)
Definition override_options (entries : override_entries) : list ToolMiddlewareOption :=
  omap (fun '(originalName, override) =>
    match override with
    | Some o => Some (WithToolsOverride originalName (to_Name o) (to_Description o))
    | None => None
    end) entries.

Definition reverse_overrides (entries : override_entries) : gmap string string :=
  foldl (fun m (p : string * option ToolOverride) =>
    match p.2 with
    | Some o => if decide (to_Name o ≠ "") then <[to_Name o := p.1]> m else m
    | None => m
    end) ∅ entries.

(** One processed tool converted back; [None] skips it. *)
Definition restore_tool (wl : WorkloadToolConfig) (backendID : string) (reverse : gmap string string)
    (originals : gmap string Tool) (simple : SimpleTool) : option Tool :=
  let originalName := default (st_Name simple) (reverse !! st_Name simple) in
  match originals !! originalName with
  | None => None
  | Some original => Some {|
      tool_Name := st_Name simple;
      tool_Description := st_Description simple;
      tool_InputSchema := tool_InputSchema original;
      tool_OutputSchema := tool_OutputSchema original;
      tool_Annotations :=
        match wl_Overrides wl !! originalName with
        | Some (Some o) => applyAnnotationOverrides (tool_Annotations original) (to_Annotations o)
        | _ => tool_Annotations original
        end;
      tool_BackendID := backendID |}
  end.

Section range.
Context (range : gmap string (option ToolOverride) -> override_entries).

Definition processBackendTools (backendID : string) (tools : list Tool)
    (workloadConfig : option WorkloadToolConfig) : list Tool :=
  match workloadConfig with
  | None => tools
  | Some wl =>
      if decide (size (wl_Overrides wl) = 0) then tools
      else
        let entries := range (wl_Overrides wl) in
        let originals := foldl (fun m t => <[tool_Name t := t]> m) (∅ : gmap string Tool) tools in
        match ApplyToolFiltering (override_options entries)
                ((fun t => {| st_Name := tool_Name t; st_Description := tool_Description t |}) <$> tools) with
        | None => tools
        | Some processed => omap (restore_tool wl backendID (reverse_overrides entries) originals) processed
        end
  end.

Definition actualBackendCapabilityName (toolConfigMap : gmap string WorkloadToolConfig)
    (backendID postOverrideName : string) : string :=
  match toolConfigMap !! backendID with
  | None => postOverrideName
  | Some wl =>
      match list_find (fun p : string * option ToolOverride =>
              to_Name <$> p.2 = Some postOverrideName) (range (wl_Overrides wl)) with
      | Some (_, (origName, _)) => origName
      | None => postOverrideName
      end
  end.
End range.

(** ** Renaming and back *)
Definition renamed (wl : WorkloadToolConfig) (t : Tool) : string :=
  match wl_Overrides wl !! tool_Name t with
  | Some (Some o) => if decide (to_Name o ≠ "") then to_Name o else tool_Name t
  | _ => tool_Name t
  end.

(** Every override changes something of a named tool. *)
Definition overrides_valid (wl : WorkloadToolConfig) : Prop :=
  forall k o, wl_Overrides wl !! k = Some (Some o) -> k <> "" /\ ~ (to_Name o = "" /\ to_Description o = "").

(** The name a tool ends up with is not given to another tool by an override. *)
Definition renaming_unambiguous (wl : WorkloadToolConfig) (tools : list Tool) : Prop :=
  forall t k o, t ∈ tools -> wl_Overrides wl !! k = Some (Some o) ->
    to_Name o = renamed wl t -> k = tool_Name t.

Definition entry_of (k : string) (o : ToolOverride) : toolOverrideEntry :=
  {| oe_ActualName := k; oe_OverrideName := to_Name o; oe_OverrideDescription := to_Description o |}.

Lemma apply_overrides_spec (entries : override_entries) c :
  NoDup entries.*1 ->
  (forall k o, (k, Some o) ∈ entries -> k <> "" /\ ~ (to_Name o = "" /\ to_Description o = "")) ->
  exists c', apply_options (override_options entries) c = Some c' /\
    mw_filterTools c' = mw_filterTools c /\
    (forall k o, (k, Some o) ∈ entries -> mw_actualToUserOverride c' !! k = Some (entry_of k o)) /\
    (forall k, (forall o, (k, Some o) ∉ entries) ->
      mw_actualToUserOverride c' !! k = mw_actualToUserOverride c !! k).
Proof.
  revert c. induction entries as [|[k [o|]] entries IH]; intros c Hn Hv.
  { exists c. split_and!; [done|done|set_solver|done]. }
  all: cbn [fmap list_fmap fst] in Hn; apply NoDup_cons in Hn as [Hk Hn];
    assert (forall k' o', (k', Some o') ∈ entries -> k' <> "" /\ ~ (to_Name o' = "" /\ to_Description o' = ""))
      as Hv' by (intros k' o' Hin; apply Hv; by right).
  - destruct (Hv k o) as [Hk0 Ho]; [left|].
    cbn [override_options omap list_omap]. fold (override_options entries). cbn [apply_options apply_option].
    rewrite decide_False by done. rewrite decide_False by done.
    edestruct IH as (c' & -> & Hf & Hin & Hout); [done|done|]. exists c'. split; [done|].
    split; [done|]. split.
    + intros k' o' [[= -> ->]|Hin']%elem_of_cons; [|by apply Hin].
      rewrite Hout; [simpl; apply lookup_insert_eq|]. intros o'' Hin'. apply Hk, list_elem_of_fmap.
      by exists (k, Some o'').
    + intros k' Hno. rewrite Hout by set_solver. simpl. apply lookup_insert_ne.
      intros ->. apply (Hno o). left.
  - cbn [override_options omap list_omap]. fold (override_options entries).
    destruct (IH c Hn Hv') as (c' & -> & Hf & Hin & Hout). exists c'. split_and!; [done|done| |].
    + intros k' o' [[=]|Hin']%elem_of_cons. by apply Hin.
    + intros k' Hno. apply Hout. set_solver.
Qed.

Lemma reverse_overrides_spec (entries : override_entries) n :
  match reverse_overrides entries !! n with
  | Some k => n <> "" /\ exists o, (k, Some o) ∈ entries /\ to_Name o = n
  | None => forall k o, (k, Some o) ∈ entries -> to_Name o = n -> n = ""
  end.
Proof.
  unfold reverse_overrides. induction entries as [|[k [o|]] entries IH] using rev_ind;
    [cbn [foldl]; rewrite lookup_empty; set_solver|..]; rewrite foldl_app; cbn [foldl fst snd].
  - destruct (decide (to_Name o ≠ "")) as [Ho|Ho].
    + destruct (decide (to_Name o = n)) as [<-|Hne].
      * rewrite lookup_insert_eq. split; [done|]. exists o. set_solver.
      * rewrite lookup_insert_ne by done. destruct (_ !! n) as [k'|].
        -- destruct IH as (? & o' & Hin & Ho'). split; [done|]. exists o'. set_solver.
        -- intros k' o' [Hin|Hin]%elem_of_app Ho'; [by eapply IH|]. set_solver.
    + destruct (_ !! n) as [k'|].
      * destruct IH as (? & o' & Hin & Ho'). split; [done|]. exists o'. set_solver.
      * intros k' o' [Hin|[= -> ->]%list_elem_of_singleton]%elem_of_app Ho'; [by eapply IH|].
        rewrite <- Ho'. by apply dec_stable in Ho.
  - destruct (_ !! n) as [k'|].
    + destruct IH as (? & o' & Hin & Ho'). split; [done|]. exists o'. set_solver.
    + intros k' o' [Hin|[=]%list_elem_of_singleton]%elem_of_app Ho'. by eapply IH.
Qed.

Lemma originals_lookup (tools : list Tool) t :
  NoDup (tool_Name <$> tools) -> t ∈ tools ->
  foldl (fun m t => <[tool_Name t := t]> m) (∅ : gmap string Tool) tools !! tool_Name t = Some t.
Proof.
  induction tools as [|u tools IH] using rev_ind; intros Hn Hin; [set_solver|].
  rewrite fmap_app in Hn. apply NoDup_app in Hn as (Hn & Hd & _).
  rewrite foldl_app. cbn [foldl]. apply elem_of_app in Hin as [Hin| ->%list_elem_of_singleton].
  - rewrite lookup_insert_ne; [by apply IH|]. intros E. apply (Hd (tool_Name t)).
    + apply list_elem_of_fmap. eauto.
    + rewrite <- E. set_solver.
  - apply lookup_insert_eq.
Qed.

Section renaming.
Context (range : gmap string (option ToolOverride) -> override_entries).
Hypothesis range_ok : forall m, range m ≡ₚ map_to_list m.
Context (wl : WorkloadToolConfig) (tools : list Tool).

Lemma range_elem k v : (k, v) ∈ range (wl_Overrides wl) <-> wl_Overrides wl !! k = Some v.
Proof using range_ok. by rewrite range_ok, elem_of_map_to_list. Qed.

Lemma actual_name_of_renamed toolConfigMap backendID t :
  renaming_unambiguous wl tools -> toolConfigMap !! backendID = Some wl -> t ∈ tools ->
  actualBackendCapabilityName range toolConfigMap backendID (renamed wl t) = tool_Name t.
Proof using range_ok.
  intros Hu Hcfg Ht. unfold actualBackendCapabilityName. rewrite Hcfg.
  destruct (list_find _ _) as [[i [k v]]|] eqn:E.
  - apply list_find_Some in E as (Hi & Hv & _). simpl in Hv.
    apply fmap_Some in Hv as (o & -> & Ho). apply (Hu t k o Ht); [|done].
    apply range_elem. by eapply list_elem_of_lookup_2.
  - apply list_find_None in E. rewrite Forall_forall in E. unfold renamed in *.
    destruct (wl_Overrides wl !! tool_Name t) as [[o|]|] eqn:Eo; [|done|done].
    case_decide as Hne; [|done]. destruct (E (tool_Name t, Some o)); [by apply range_elem|done].
Qed.

Lemma original_name_of_renamed t :
  renaming_unambiguous wl tools -> t ∈ tools ->
  default (renamed wl t) (reverse_overrides (range (wl_Overrides wl)) !! renamed wl t) = tool_Name t.
Proof using range_ok.
  intros Hu Ht. pose proof (reverse_overrides_spec (range (wl_Overrides wl)) (renamed wl t)) as Hr.
  destruct (reverse_overrides _ !! _) as [k|]; simpl.
  - destruct Hr as (_ & o & Hin & Ho). apply (Hu t k o Ht); [|done]. by apply range_elem.
  - unfold renamed in *. destruct (wl_Overrides wl !! tool_Name t) as [[o|]|] eqn:Eo; [|done|done].
    case_decide as Hne; [|done]. destruct Hne. eapply Hr; [by apply range_elem|done].
Qed.

Definition simple_of (t : Tool) : SimpleTool :=
  {| st_Name := tool_Name t; st_Description := tool_Description t |}.

(** The tool the client sees. *)
Definition overridden_tool (backendID : string) (t : Tool) : Tool := {|
  tool_Name := renamed wl t;
  tool_Description :=
    match wl_Overrides wl !! tool_Name t with
    | Some (Some o) => if decide (to_Description o ≠ "") then to_Description o else tool_Description t
    | _ => tool_Description t
    end;
  tool_InputSchema := tool_InputSchema t;
  tool_OutputSchema := tool_OutputSchema t;
  tool_Annotations :=
    match wl_Overrides wl !! tool_Name t with
    | Some (Some o) => applyAnnotationOverrides (tool_Annotations t) (to_Annotations o)
    | _ => tool_Annotations t
    end;
  tool_BackendID := backendID;
|}.

Lemma override_simple_renamed c t :
  (forall k o, wl_Overrides wl !! k = Some (Some o) ->
    mw_actualToUserOverride c !! k = Some (entry_of k o)) ->
  (forall k, (forall o, wl_Overrides wl !! k <> Some (Some o)) -> mw_actualToUserOverride c !! k = None) ->
  override_simple c (simple_of t) =
    {| st_Name := renamed wl t; st_Description := tool_Description (overridden_tool "" t) |}.
Proof using.
  clear range_ok range tools. intros Hin Hout. unfold override_simple, getToolListOverride, simple_of, renamed. cbn [st_Name st_Description tool_Description overridden_tool].
  destruct (wl_Overrides wl !! tool_Name t) as [[o|]|] eqn:Eo.
  - rewrite (Hin _ _ Eo). case_decide as Hs; [|done].
    apply map_size_empty_inv in Hs. specialize (Hin _ _ Eo). by rewrite Hs, lookup_empty in Hin.
  - rewrite Hout by (intros o; by rewrite Eo). by case_decide.
  - rewrite Hout by (intros o; by rewrite Eo). by case_decide.
Qed.

Lemma processBackendTools_spec backendID :
  overrides_valid wl -> renaming_unambiguous wl tools -> NoDup (tool_Name <$> tools) ->
  wl_Overrides wl <> ∅ ->
  processBackendTools range backendID tools (Some wl) = overridden_tool backendID <$> tools.
Proof using range_ok.
  intros Hv Hu Hn Hne. unfold processBackendTools.
  rewrite decide_False by (by intros Hs%map_size_empty_inv).
  destruct (apply_overrides_spec (range (wl_Overrides wl))
    {| mw_filterTools := ∅; mw_actualToUserOverride := ∅; mw_userToActualOverride := ∅ |})
    as (c & Ec & Hf & Hin & Hout).
  { rewrite range_ok. apply NoDup_fst_map_to_list. }
  { intros k o Hko%range_elem. by apply Hv. }
  unfold ApplyToolFiltering. rewrite Ec. unfold applyFilteringAndOverrides.
  assert (forall t, override_simple c (simple_of t) =
    {| st_Name := renamed wl t; st_Description := tool_Description (overridden_tool "" t) |}) as Hs.
  { intros t. apply override_simple_renamed.
    - intros k o Hko. by apply Hin, range_elem.
    - intros k Hno. rewrite Hout; [apply lookup_empty|]. intros o Hko%range_elem. by apply (Hno o). }
  assert (forall l : list SimpleTool, filter (fun t => isToolInFilter c (st_Name t) = true) l = l) as Hfil.
  { intros l. induction l as [|x l IH]; [done|]. rewrite filter_cons, decide_True; [by rewrite IH|].
    unfold isToolInFilter. rewrite Hf. done. }
  rewrite Hfil. fold simple_of. pose proof (fun t => originals_lookup tools t Hn) as Horig. revert Horig.
  generalize (foldl (fun m t => <[tool_Name t := t]> m) (∅ : gmap string Tool) tools). intros originals Horig.
  assert (forall l : list Tool, (forall t, t ∈ l -> t ∈ tools) ->
    omap (restore_tool wl backendID (reverse_overrides (range (wl_Overrides wl))) originals)
      (override_simple c <$> (simple_of <$> l)) = overridden_tool backendID <$> l) as Hl; [|by apply Hl].
  induction l as [|t l IH]; intros Hsub; [done|].
  rewrite !fmap_cons. cbn [omap list_omap]. unfold restore_tool at 1. rewrite Hs. cbn [st_Name st_Description].
  rewrite original_name_of_renamed by (try done; apply Hsub; left).
  rewrite Horig by (apply Hsub; left). f_equal. apply IH. intros u Hu'. apply Hsub. by right.
Qed.
End renaming.

Lemma processBackendTools_fmap range wl tools backendID :
  (forall m, range m ≡ₚ map_to_list m) -> overrides_valid wl -> renaming_unambiguous wl tools ->
  NoDup (tool_Name <$> tools) -> exists f,
    processBackendTools range backendID tools (Some wl) = f <$> tools /\
    forall t, tool_Name (f t) = renamed wl t /\ tool_InputSchema (f t) = tool_InputSchema t /\
      tool_OutputSchema (f t) = tool_OutputSchema t.
Proof.
  intros Hr Hv Hu Hn. destruct (decide (size (wl_Overrides wl) = 0)) as [Hs|Hs].
  - exists id. unfold processBackendTools. rewrite decide_True, list_fmap_id by done. split; [done|].
    intros t. unfold renamed. apply map_size_empty_inv in Hs. by rewrite Hs, lookup_empty.
  - exists (overridden_tool wl backendID). split; [|done]. apply processBackendTools_spec; try done.
    intros E. by rewrite E, map_size_empty in Hs.
Qed.

(** Overriding tool names is undone when a call is forwarded: as long as the
    overrides are valid and do not give a tool a name that another tool keeps or is
    given, every tool of the backend comes out once, in order, with its schemas,
    under a name of its own, and that name translates back to the name the backend
    knows, in whatever order the overrides are visited each time. *)
Theorem tool_renaming_roundtrip range range' wl tools toolConfigMap backendID :
  (forall m, range m ≡ₚ map_to_list m) -> (forall m, range' m ≡ₚ map_to_list m) ->
  overrides_valid wl -> renaming_unambiguous wl tools -> NoDup (tool_Name <$> tools) ->
  toolConfigMap !! backendID = Some wl ->
  let tools' := processBackendTools range backendID tools (Some wl) in
  NoDup (tool_Name <$> tools') /\
  Forall2 (fun t t' => tool_Name t' = renamed wl t /\
    tool_InputSchema t' = tool_InputSchema t /\ tool_OutputSchema t' = tool_OutputSchema t /\
    actualBackendCapabilityName range' toolConfigMap backendID (tool_Name t') = tool_Name t)
    tools tools'.
Proof.
  intros Hr Hr' Hv Hu Hn Hcfg tools'.
  pose proof (fun t => actual_name_of_renamed range' Hr' wl tools toolConfigMap backendID t Hu Hcfg) as Hact.
  destruct (processBackendTools_fmap range wl tools backendID Hr Hv Hu Hn) as (f & E & Hf).
  unfold tools'. rewrite E. split.
  - rewrite <- list_fmap_compose. apply (NoDup_fmap_2_strong _).
    + intros t u Ht Hu' Heq. simpl in Heq. rewrite !(proj1 (Hf _)) in Heq.
      eapply (NoDup_fmap_elem tool_Name); [exact Hn|done|done|].
      by rewrite <- (Hact t Ht), <- (Hact u Hu'), Heq.
    + by eapply NoDup_fmap_1.
  - apply Forall2_fmap_r, Forall_Forall2_diag, Forall_forall. intros t Ht.
    destruct (Hf t) as (E1 & E2 & E3). unfold compose. rewrite E1, E2, E3. split_and!; try done. by apply Hact.
Qed.

Definition sample_workload : WorkloadToolConfig := {|
  wl_Workload := "b"; wl_Filter := [];
  wl_Overrides := {[ "get" := Some {| to_Name := "fetch"; to_Description := ""; to_Annotations := None |} ]};
  wl_ExcludeAll := false |}.

Lemma tool_renaming_roundtrip_witness :
  let tools' := processBackendTools map_to_list "b" [sample_tool "get"; sample_tool "put"]
                  (Some sample_workload) in
  (tool_Name <$> tools') = ["fetch"; "put"] /\
  actualBackendCapabilityName map_to_list {[ "b" := sample_workload ]} "b" "fetch" = "get" /\
  NoDup (tool_Name <$> tools').
Proof.
  intros tools'. split; [vm_compute; reflexivity|]. split; [vm_compute; reflexivity|].
  refine (proj1 (tool_renaming_roundtrip map_to_list map_to_list sample_workload
    [sample_tool "get"; sample_tool "put"] {[ "b" := sample_workload ]} "b"
    (fun _ => reflexivity _) (fun _ => reflexivity _) _ _ _ _)).
  - intros k o Hk. cbn [wl_Overrides sample_workload] in Hk.
    apply lookup_singleton_Some in Hk as [<- [= <-]]. split; [discriminate|intros [[=] _]].
  - intros t k o Ht Hk Hname. cbn [wl_Overrides sample_workload] in Hk.
    apply lookup_singleton_Some in Hk as [<- [= <-]]. apply elem_of_cons in Ht as [->|Ht]; [reflexivity|].
    apply list_elem_of_singleton in Ht as ->. vm_compute in Hname. discriminate Hname.
  - apply (bool_decide_unpack _). vm_compute. exact I.
  - reflexivity.
Defined.
