(* ===== verification/CapabilityConflicts.v ===== *)
(** * Conflicts of resources, resource templates and prompts
    ([pkg/vmcp/aggregator/capability_conflicts.go] and the prompt naming of
    [conflict_resolver.go])

    The loops follow the sorted list of backend identifiers; the identifiers are the
    keys of the map of capabilities, so its lookups never fail.  [sort.Slice] is not
    stable, but the keys it sorts by are distinct here, so every sort gives the same
    list. *)

From stdpp Require Import sorting.
From S2P Require Import Prelude VmcpTypes AggregatorTypes ToolResolvers.

Abbreviation backend_map := (gmap string BackendCapabilities) (only parsing).

(** ** Resources and templates: the first backend wins *)
Definition items_at {T} (itemsOf : BackendCapabilities -> list T) (capabilities : backend_map)
    (backendID : string) : list T :=
  match capabilities !! backendID with Some caps => itemsOf caps | None => [] end.

(** The loop body; [seen] maps a key to the backend that has it. *)
Definition dedupe_item {T} (keyOf : T -> string) (backendID : string)
    (acc : gmap string string * list T) (item : T) : gmap string string * list T :=
  match acc.1 !! keyOf item with
  | Some _ => acc
  | None => (<[keyOf item := backendID]> acc.1, acc.2 ++ [item])
  end.

Definition dedupeByKey {T} (backendIDs : list string) (capabilities : backend_map)
    (itemsOf : BackendCapabilities -> list T) (keyOf : T -> string) : list T :=
  merge_sort (fun a b => String.le (keyOf a) (keyOf b))
    (foldl (fun acc backendID =>
       foldl (dedupe_item keyOf backendID) acc (items_at itemsOf capabilities backendID))
       (∅, []) backendIDs).2.

Definition resolveResourceConflicts (backendIDs : list string) (capabilities : backend_map)
    : list Resource := dedupeByKey backendIDs capabilities bc_Resources res_URI.

Definition resolveResourceTemplateConflicts (backendIDs : list string) (capabilities : backend_map)
    : list ResourceTemplate := dedupeByKey backendIDs capabilities bc_ResourceTemplates rt_URITemplate.

(** ** Prompts *)
Record promptNaming := {
  pn_prefixFormat : string;
  pn_priorityRank : gmap string Z;  (* the nil map is the empty one *)
}.

(** The rank of the first position of each backend, from position [i] on. *)
Fixpoint first_ranks (i : nat) (order : list string) (m : gmap string Z) : gmap string Z :=
  match order with
  | [] => m
  | backendID :: order =>
      first_ranks (S i) order
        (match m !! backendID with Some _ => m | None => <[backendID := Z.of_nat i]> m end)
  end.

Definition promptNamingFromConfig (aggregationConfig : option AggregationConfig) : promptNaming :=
  match aggregationConfig with
  | None => {| pn_prefixFormat := defaultPrefixFormat; pn_priorityRank := ∅ |}
  | Some ac => {|
      pn_prefixFormat :=
        match ac_ConflictResolutionConfig ac with
        | Some c => if decide (cr_PrefixFormat c ≠ "") then cr_PrefixFormat c else defaultPrefixFormat
        | None => defaultPrefixFormat
        end;
      pn_priorityRank :=
        match ac_ConflictResolution ac, ac_ConflictResolutionConfig ac with
        | ConflictStrategyPriority, Some c => first_ranks 0 (cr_PriorityOrder c) ∅
        | _, _ => ∅
        end |}
  end.

Record candidate := {
  cd_prompt : Prompt;
  cd_backendID : string;
  cd_rank : Z;
  cd_listed : bool;
}.

Definition advertised_name (naming : promptNaming) (backendID name : string) : string :=
  match pn_priorityRank naming !! backendID with
  | Some _ => name
  | None => applyPrefixFormat (pn_prefixFormat naming) backendID name
  end.

(** The loop body that collects one prompt. *)
Definition add_candidate (naming : promptNaming) (backendID : string)
    (byName : gmap string (list candidate)) (prompt : Prompt) : gmap string (list candidate) :=
  let rank := pn_priorityRank naming !! backendID in
  let resolvedName := advertised_name naming backendID (prompt_Name prompt) in
  let claims := default [] (byName !! resolvedName) in
  if existsb (fun c => bool_decide (cd_backendID c = backendID)) claims then byName
  else <[resolvedName := claims ++ [{| cd_prompt := prompt; cd_backendID := backendID;
           cd_rank := default 0%Z rank; cd_listed := bool_decide (is_Some rank) |}]]> byName.

Definition better_rank (winner contender : candidate) : candidate :=
  if (cd_rank contender <? cd_rank winner)%Z then contender else winner.

Definition with_name (p : Prompt) (name : string) : Prompt := {|
  prompt_Name := name;
  prompt_Description := prompt_Description p;
  prompt_Arguments := prompt_Arguments p;
  prompt_BackendID := prompt_BackendID p;
|}.

(** The loop body that decides one name; [None] drops it. *)
Definition resolve_prompt (resolvedName : string) (candidates : list candidate)
    : option ResolvedPrompt :=
  if bool_decide (1 < length candidates) && existsb (fun c => negb (cd_listed c)) candidates then None
  else match candidates with
  | [] => None
  | c :: rest =>
      let winner := foldl better_rank c rest in
      Some {| rp_Prompt := with_name (cd_prompt winner) resolvedName;
              rp_OriginalName := prompt_Name (cd_prompt winner) |}
  end.

Definition group_prompts (naming : promptNaming) (backendIDs : list string)
    (capabilities : backend_map) : gmap string (list candidate) :=
  foldl (fun byName backendID =>
    foldl (add_candidate naming backendID) byName (items_at bc_Prompts capabilities backendID))
    ∅ backendIDs.

Definition resolvePromptConflicts (naming : promptNaming) (backendIDs : list string)
    (capabilities : backend_map) : list ResolvedPrompt :=
  let byName := group_prompts naming backendIDs capabilities in
  omap (fun name => resolve_prompt name (default [] (byName !! name)))
    (merge_sort String.le (map_to_list byName).*1).

(** ** First occurrences *)
Section first.
Context {A : Type} (key : A -> string).

(** The elements of a list without those whose key has occurred before. *)
Definition first_by (l : list A) : list A :=
  foldl (fun out x => if decide (key x ∈ key <$> out) then out else out ++ [x]) [] l.

Definition first_in (l : list A) (x : A) : Prop :=
  exists l1 l2, l = l1 ++ x :: l2 /\ key x ∉ key <$> l1.

Lemma first_in_snoc l a x :
  first_in (l ++ [a]) x <-> first_in l x \/ (x = a /\ key a ∉ key <$> l).
Proof.
  split.
  - intros (l1 & l2 & E & Hk). destruct l2 as [|b l2 _] using rev_ind.
    + apply app_inj_tail in E as [-> ->]. by right.
    + rewrite app_comm_cons, app_assoc in E. apply app_inj_tail in E as [-> _]. left. by exists l1, l2.
  - intros [(l1 & l2 & -> & Hk)|[-> Hk]].
    + exists l1, (l2 ++ [a]). by rewrite <- app_assoc.
    + by exists l, [].
Qed.

Lemma first_by_spec l :
  NoDup (key <$> first_by l) /\ (forall k, k ∈ key <$> first_by l <-> k ∈ key <$> l) /\
  forall x, x ∈ first_by l <-> first_in l x.
Proof.
  induction l as [|a l (Hn & Hk & Hx)] using rev_ind.
  { split; [constructor|]. split; [done|]. intros x. split; [set_solver|].
    intros (l1 & l2 & E & _). by destruct l1. }
  unfold first_by. rewrite foldl_app. fold (first_by l). cbn [foldl]. rewrite fmap_app.
  setoid_rewrite first_in_snoc. cbn [fmap list_fmap]. case_decide as Ha.
  - split; [done|]. split.
    + intros k. rewrite elem_of_app, list_elem_of_singleton, Hk. split; [by left|].
      intros [?| ->]; [done|]. by apply Hk.
    + intros x. rewrite Hx. split; [by left|]. intros [?|[-> Hna]]; [done|]. by apply Hk in Ha.
  - split; [|split].
    + rewrite fmap_app. apply NoDup_app. split; [done|]. split; [|apply NoDup_singleton].
      intros k Hin ->%list_elem_of_singleton. done.
    + intros k. by rewrite fmap_app, !elem_of_app, Hk.
    + intros x. rewrite elem_of_app, list_elem_of_singleton, Hx, <- Hk. naive_solver.
Qed.

Lemma first_by_snoc l a :
  first_by (l ++ [a]) = if decide (key a ∈ key <$> first_by l) then first_by l else first_by l ++ [a].
Proof. unfold first_by. by rewrite foldl_app. Qed.

Lemma first_in_elem l x : first_in l x -> x ∈ l.
Proof. intros (l1 & l2 & -> & _). set_solver. Qed.
End first.

(** A double loop as one loop over the pairs. *)
Definition pairs {T} (items : string -> list T) (ids : list string) : list (string * T) :=
  ids ≫= fun b => (fun x => (b, x)) <$> items b.

Lemma nested_foldl {A T} (f : string -> A -> T -> A) (items : string -> list T) acc ids :
  foldl (fun acc b => foldl (f b) acc (items b)) acc ids =
  foldl (fun acc p => f p.1 acc p.2) acc (pairs items ids).
Proof.
  revert acc. induction ids as [|b ids IH]; intros acc; [done|]. unfold pairs in *.
  rewrite bind_cons, foldl_app, <- IH. cbn [foldl]. f_equal. generalize (items b). intros l. revert acc.
  induction l as [|x l IHl]; intros acc; [done|]. cbn. apply IHl.
Qed.

Lemma pairs_elem {T} (items : string -> list T) ids b x :
  (b, x) ∈ pairs items ids <-> b ∈ ids /\ x ∈ items b.
Proof.
  unfold pairs. rewrite list_elem_of_bind. split.
  - intros (b' & (x' & [= -> ->] & Hx)%list_elem_of_fmap & Hb). done.
  - intros [Hb Hx]. exists b. split; [apply list_elem_of_fmap; eauto|done].
Qed.

(** ** De-duplication *)
Lemma dedupe_first {T} (keyOf : T -> string) (l : list (string * T)) :
  let acc := foldl (fun acc p => dedupe_item keyOf p.1 acc p.2) (∅, []) l in
  acc.2 = (first_by (fun p => keyOf p.2) l).*2 /\
  forall k, is_Some (acc.1 !! k) <-> k ∈ (fun p => keyOf p.2) <$> first_by (fun p => keyOf p.2) l.
Proof.
  induction l as [|[b x] l (E & Hs)] using rev_ind; cbn zeta in *.
  { split; [done|]. intros k. cbn [foldl fst]. rewrite lookup_empty. split; [by intros []|set_solver]. }
  unfold first_by. rewrite !foldl_app. fold (first_by (fun p : string * T => keyOf p.2) l). cbn [foldl fst snd].
  set (acc := foldl _ (∅, []) l) in *. clearbody acc. destruct acc as [seen out]. simpl in *.
  unfold dedupe_item. simpl. specialize (Hs (keyOf x)) as Hx.
  destruct (seen !! keyOf x) as [b'|] eqn:Eb.
  - rewrite decide_True by (apply Hx; eauto). done.
  - rewrite decide_False by (rewrite <- Hx; by intros []). simpl. rewrite fmap_app, <- E. split; [done|].
    intros k. rewrite fmap_app, elem_of_app, <- Hs. cbn [fmap list_fmap]. rewrite list_elem_of_singleton.
    destruct (decide (k = keyOf x)) as [->|Hne].
    + rewrite lookup_insert_eq. naive_solver.
    + rewrite lookup_insert_ne by done. naive_solver.
Qed.

Lemma dedupeByKey_spec {T} (keyOf : T -> string) itemsOf backendIDs capabilities :
  let l := pairs (items_at itemsOf capabilities) backendIDs in
  let res := dedupeByKey backendIDs capabilities itemsOf keyOf in
  StronglySorted String.le (keyOf <$> res) /\ NoDup (keyOf <$> res) /\
  forall x, x ∈ res <-> exists b, first_in (fun p => keyOf p.2) l (b, x).
Proof.
  intros l res. unfold res, dedupeByKey. rewrite nested_foldl. fold l.
  destruct (dedupe_first keyOf l) as [E _]. cbn zeta in E. rewrite E.
  destruct (first_by_spec (fun p : string * T => keyOf p.2) l) as (Hn & _ & Hx).
  set (out := (first_by _ l).*2). set (R := fun a b => String.le (keyOf a) (keyOf b)).
  pose proof (merge_sort_Permutation R out) as Hp. split; [|split].
  - assert (Sorted R (merge_sort R out)) as Hs.
    { apply Sorted_merge_sort. intros a b. apply (total String.le). }
    apply Sorted_StronglySorted; [apply _|]. revert Hs. clear. generalize (merge_sort R out). intros s Hs.
    induction Hs as [|a s Hs IH Ha]; [constructor|]. cbn. constructor; [done|].
    destruct Ha; constructor. done.
  - rewrite Hp. unfold out. rewrite <- list_fmap_compose. exact Hn.
  - intros x. rewrite Hp. unfold out. rewrite list_elem_of_fmap. split.
    + intros ([b y] & -> & Hy). exists b. by apply Hx.
    + intros [b Hb]. exists (b, x). split; [done|]. by apply Hx.
Qed.

(** ** Prompts *)
Lemma first_in_cons {A} (key : A -> string) a l x :
  first_in key (a :: l) x <-> x = a \/ (key a <> key x /\ first_in key l x).
Proof.
  split.
  - intros ([|b l1] & l2 & E & Hk); simplify_eq/=; [by left|]. right.
    apply not_elem_of_cons in Hk as [Hk1 Hk2]. split; [done|]. by exists l1, l2.
  - intros [->|[Hne (l1 & l2 & -> & Hk)]]; [exists [], l; set_solver|].
    exists (a :: l1), l2. split; [done|]. cbn. apply not_elem_of_cons. done.
Qed.

Section prompts.
Context (naming : promptNaming) (capabilities : backend_map).
Local Abbreviation prompts := (items_at bc_Prompts capabilities).

Definition cand (p : string * Prompt) : candidate :=
  let rank := pn_priorityRank naming !! p.1 in
  {| cd_prompt := p.2; cd_backendID := p.1; cd_rank := default 0%Z rank;
     cd_listed := bool_decide (is_Some rank) |}.

Definition adv (p : string * Prompt) : string := advertised_name naming p.1 (prompt_Name p.2).

Definition claimants (n : string) (l : list (string * Prompt)) : list candidate :=
  first_by cd_backendID (cand <$> filter (fun p => adv p = n) l).

Lemma existsb_backend cs b :
  existsb (fun c => bool_decide (cd_backendID c = b)) cs = bool_decide (b ∈ cd_backendID <$> cs).
Proof using.
  induction cs as [|c cs IH]; [done|]. cbn [existsb fmap list_fmap]. rewrite IH.
  apply eq_iff_eq_true. rewrite orb_true_iff, !bool_decide_eq_true, elem_of_cons. naive_solver.
Qed.

Lemma group_claimants l n :
  foldl (fun m p => add_candidate naming p.1 m p.2) ∅ l !! n =
    if decide (claimants n l = []) then None else Some (claimants n l).
Proof using.
  unfold claimants. revert n. induction l as [|[b p] l IH] using rev_ind; intros n; [done|].
  rewrite foldl_app. cbn [foldl fst snd]. set (m := foldl _ ∅ l) in *. unfold add_candidate.
  assert (forall n, default [] (m !! n) = first_by cd_backendID (cand <$> filter (fun p => adv p = n) l)) as Hd.
  { intros n'. rewrite IH. by case_decide as E; [rewrite E|]. }
  rewrite filter_app, filter_cons, filter_nil. cbn [fst snd]. rewrite Hd, existsb_backend.
  change (advertised_name naming b (prompt_Name p)) with (adv (b, p)).
  set (old := first_by cd_backendID (cand <$> filter (fun p0 => adv p0 = adv (b, p)) l)).
  destruct (decide (adv (b, p) = n)) as [<-|Hne].
  - rewrite fmap_app. cbn [fmap list_fmap]. rewrite first_by_snoc. fold old.
    change (cd_backendID (cand (b, p))) with b.
    destruct (decide (b ∈ cd_backendID <$> old)) as [Hb|Hb].
    + rewrite bool_decide_true by done. rewrite IH. fold old. done.
    + rewrite bool_decide_false by done. rewrite lookup_insert_eq, decide_False; [done|].
      intros E. by apply app_eq_nil in E as [_ ?].
  - rewrite app_nil_r. destruct (bool_decide _); [apply IH|]. rewrite lookup_insert_ne by done. apply IH.
Qed.

Lemma applyPrefixFormat_inj fmt b n1 n2 :
  applyPrefixFormat fmt b n1 = applyPrefixFormat fmt b n2 -> n1 = n2.
Proof using.
  unfold applyPrefixFormat. generalize (replace_all "{workload}" b 0 fmt). intros s.
  induction s as [|c s IH]; [done|]. intros E. apply IH. by injection E.
Qed.

Lemma advertised_inj b n1 n2 :
  advertised_name naming b n1 = advertised_name naming b n2 -> n1 = n2.
Proof using. unfold advertised_name. case_match; [done|]. apply applyPrefixFormat_inj. Qed.

(** The claims on a name come from the first prompt of that name at each backend. *)
Lemma claimants_elem n ids b p :
  NoDup ids ->
  cand (b, p) ∈ claimants n (pairs prompts ids) <->
  b ∈ ids /\ adv (b, p) = n /\ first_in prompt_Name (prompts b) p.
Proof using.
  intros Hn. unfold claimants. destruct (first_by_spec cd_backendID
    (cand <$> filter (fun p => adv p = n) (pairs prompts ids))) as (_ & _ & ->).
  assert (forall items rest, (forall q, q ∈ rest -> q.1 <> b) ->
    first_in cd_backendID (cand <$> filter (fun p => adv p = n) (((fun x => (b, x)) <$> items) ++ rest)) (cand (b, p)) <->
    adv (b, p) = n /\ first_in prompt_Name items p) as Hblock.
  { intros items rest Hrest. induction items as [|q items IH].
    - split; [|intros [_ (l1 & l2 & E & _)]; by destruct l1].
      intros Hin%first_in_elem. apply list_elem_of_fmap in Hin as (q & Eq & [_ Hq]%list_elem_of_filter).
      destruct (Hrest q Hq). by injection Eq.
    - cbn [fmap list_fmap app]. rewrite filter_cons, first_in_cons. case_decide as Hq.
      + cbn [fmap list_fmap]. rewrite first_in_cons, IH. split.
        * intros [[= ->]|[Hne _]]; [auto|]. by destruct Hne.
        * intros [Ha [->|[Hne _]]]; [by left|]. destruct Hne. apply (advertised_inj b).
          change (adv (b, q) = adv (b, p)). congruence.
      + rewrite IH. split; [intros [Ha Hf]; split; [done|]; right; split; [|done]|].
        * intros E. apply Hq. unfold adv in *. cbn [fst snd] in *. by rewrite E.
        * intros [Ha [->|[_ Hf]]]; [done|]. done. }
  unfold pairs. induction ids as [|b' ids IH].
  { split; [|set_solver]. by intros (l1 & l2 & E & _); destruct l1. }
  apply NoDup_cons in Hn as [Hb' Hn]. rewrite bind_cons. destruct (decide (b' = b)) as [->|Hne].
  - rewrite Hblock.
    + split; [intros [? ?]; set_solver|intros (_ & ? & ?); done].
    + intros [b'' q] Hq. fold (pairs prompts ids) in Hq. apply pairs_elem in Hq as [Hq _].
      simpl. by intros ->.
  - rewrite filter_app, fmap_app. assert (forall l1 l2 : list candidate,
      (forall c, c ∈ l1 -> cd_backendID c <> b) ->
      first_in cd_backendID (l1 ++ l2) (cand (b, p)) <-> first_in cd_backendID l2 (cand (b, p))) as Hskip.
    { intros l1 l2 Hl1. induction l1 as [|c l1 IHl]; [done|]. cbn [app]. rewrite first_in_cons, IHl by set_solver.
      assert (cd_backendID c <> b) as Hc by set_solver. split; [|intros ?; right; done].
      intros [E|[_ ?]]; [|done]. destruct Hc. by rewrite <- E. }
    rewrite Hskip, (IH Hn); [set_solver|].
    intros c (q & -> & [_ Hq]%list_elem_of_filter)%list_elem_of_fmap.
    apply list_elem_of_fmap in Hq as (x & -> & _). done.
Qed.

Lemma claimants_inv n ids c :
  c ∈ claimants n (pairs prompts ids) -> exists b p, c = cand (b, p).
Proof using.
  unfold claimants. destruct (first_by_spec cd_backendID
    (cand <$> filter (fun p => adv p = n) (pairs prompts ids))) as (_ & _ & ->).
  intros ([b p] & -> & _)%first_in_elem%list_elem_of_fmap. eauto.
Qed.

(** Every backend that has a prompt with the advertised name is among the claimants. *)
Lemma claimants_backend n ids b p :
  b ∈ ids -> p ∈ prompts b -> adv (b, p) = n ->
  exists c, c ∈ claimants n (pairs prompts ids) /\ cd_backendID c = b.
Proof using.
  intros Hb Hp Ha. unfold claimants. destruct (first_by_spec cd_backendID
    (cand <$> filter (fun p => adv p = n) (pairs prompts ids))) as (_ & Hk & _).
  assert (b ∈ cd_backendID <$> (cand <$> filter (fun p => adv p = n) (pairs prompts ids))) as Hin.
  { apply list_elem_of_fmap. exists (cand (b, p)). split; [done|]. apply list_elem_of_fmap.
    exists (b, p). split; [done|]. apply list_elem_of_filter. split; [done|]. by apply pairs_elem. }
  apply Hk, list_elem_of_fmap in Hin as (c & -> & Hc). eauto.
Qed.

Lemma claimants_nodup n ids : NoDup (cd_backendID <$> claimants n (pairs prompts ids)).
Proof using. apply first_by_spec. Qed.

Lemma best_claimant c rest :
  let w := foldl better_rank c rest in
  w ∈ c :: rest /\ forall c', c' ∈ c :: rest -> (cd_rank w <= cd_rank c')%Z.
Proof using.
  clear. cbn zeta. induction rest as [|d rest [IH1 IH2]] using rev_ind.
  { split; [set_solver|]. intros c' ->%list_elem_of_singleton. done. }
  rewrite foldl_app. cbn [foldl]. set (w := foldl better_rank c rest) in *. clearbody w.
  unfold better_rank. destruct (Z.ltb_spec (cd_rank d) (cd_rank w)); (split; [set_solver|]);
    intros c' Hc'; rewrite app_comm_cons in Hc';
    apply elem_of_app in Hc' as [Hc'| ->%list_elem_of_singleton]; try lia;
    specialize (IH2 c' Hc'); lia.
Qed.

(** Who owns a name: the only claimant, or the best of several that are all listed. *)
Lemma resolve_prompt_spec n cs rp :
  resolve_prompt n cs = Some rp <->
  exists w, w ∈ cs /\ rp = {| rp_Prompt := with_name (cd_prompt w) n; rp_OriginalName := prompt_Name (cd_prompt w) |} /\
    w = match cs with c :: rest => foldl better_rank c rest | [] => w end /\
    (1 < length cs -> forall c, c ∈ cs -> cd_listed c = true).
Proof using.
  clear. unfold resolve_prompt. destruct cs as [|c rest]; [split; [done|]; intros (w & ? & _); set_solver|].
  destruct (decide (1 < length (c :: rest))) as [Hl|Hl].
  - rewrite bool_decide_true by done. rewrite andb_true_l.
    destruct (existsb (fun c => negb (cd_listed c)) (c :: rest)) eqn:Ee.
    + split; [done|]. intros (w & _ & _ & _ & Hall). specialize (Hall Hl).
      apply existsb_exists in Ee as (d & Hd & Hn). rewrite <- list_elem_of_In in Hd.
      by rewrite (Hall d Hd) in Hn.
    + assert (forall d, d ∈ c :: rest -> cd_listed d = true) as Hall.
      { intros d Hd. destruct (cd_listed d) eqn:El; [done|]. exfalso. apply not_true_iff_false in Ee. apply Ee.
        apply existsb_exists. exists d. by rewrite <- list_elem_of_In, El. }
      split; [intros [= <-]; eexists; split; [apply best_claimant|done]|].
      by intros (w & _ & -> & <- & _).
  - rewrite bool_decide_false by done. cbn [andb].
    split; [intros [= <-]; eexists; split; [apply best_claimant|done]|].
    by intros (w & _ & -> & <- & _).
Qed.
End prompts.

(** [b] is listed before [b']. *)
Definition outranks (naming : promptNaming) (b b' : string) : Prop :=
  exists r r', pn_priorityRank naming !! b = Some r /\ pn_priorityRank naming !! b' = Some r' /\ (r < r')%Z.

Lemma first_ranks_spec order : forall i m b r,
  first_ranks i order m !! b = Some r -> m !! b = Some r \/ exists j, r = Z.of_nat (i + j) /\ order !! j = Some b.
Proof.
  induction order as [|x order IH]; intros i m b r E; simpl in E; [by left|].
  apply IH in E as [E|(j & -> & Hj)]; [|right; exists (S j); split; [lia|done]].
  destruct (m !! x) eqn:Ex; [by left|]. apply lookup_insert_Some in E as [[<- <-]|[_ E]]; [|by left].
  right. exists 0. split; [lia|done].
Qed.

Lemma ranks_distinct cfg b1 b2 r :
  pn_priorityRank (promptNamingFromConfig cfg) !! b1 = Some r ->
  pn_priorityRank (promptNamingFromConfig cfg) !! b2 = Some r -> b1 = b2.
Proof.
  destruct cfg as [ac|]; simpl; [|by rewrite lookup_empty].
  repeat case_match; try by rewrite lookup_empty.
  intros [E1|(j1 & -> & Hj1)]%first_ranks_spec; [by rewrite lookup_empty in E1|].
  intros [E2|(j2 & Hj & Hj2)]%first_ranks_spec; [by rewrite lookup_empty in E2|].
  assert (j1 = j2) as -> by lia. congruence.
Qed.

Lemma omap_names {A} (f : string -> option A) (name : A -> string) (l : list string) :
  (forall n a, f n = Some a -> name a = n) -> StronglySorted String.le l -> NoDup l ->
  StronglySorted String.le (name <$> omap f l) /\ NoDup (name <$> omap f l).
Proof.
  intros Hf Hs Hn. assert (forall k, k ∈ name <$> omap f l -> k ∈ l) as Hsub.
  { intros k (a & -> & (n & Hin & E)%list_elem_of_omap)%list_elem_of_fmap. by rewrite (Hf _ _ E). }
  induction Hs as [|n l Hs IH Hall]; [split; constructor|]. apply NoDup_cons in Hn as [Hnl Hn].
  assert (forall k, k ∈ name <$> omap f l -> k ∈ l) as Hsub'.
  { intros k (a & -> & (n' & Hin & E)%list_elem_of_omap)%list_elem_of_fmap. by rewrite (Hf _ _ E). }
  destruct (IH Hn Hsub') as [IH1 IH2]. cbn [omap list_omap]. destruct (f n) as [a|] eqn:E; [|done].
  cbn [fmap list_fmap]. rewrite (Hf _ _ E). split.
  - constructor; [done|]. rewrite Forall_forall in *. intros k Hk. by apply Hall, Hsub'.
  - constructor; [|done]. by intros Hk%Hsub'.
Qed.

Section ownership.
Context (naming : promptNaming) (ids : list string) (capabilities : backend_map).
Hypothesis ids_nodup : NoDup ids.
Hypothesis ranks_inj : forall b1 b2 r, pn_priorityRank naming !! b1 = Some r ->
  pn_priorityRank naming !! b2 = Some r -> b1 = b2.
Local Abbreviation prompts := (items_at bc_Prompts capabilities).
Local Abbreviation cs_of n := (claimants naming n (pairs prompts ids)).

(** The backend's prompt is advertised: every other backend whose prompt would have
    the same name is outranked. *)
Definition owns (b : string) (p : Prompt) : Prop :=
  forall b' p', b' ∈ ids -> p' ∈ prompts b' -> b' <> b ->
    advertised_name naming b' (prompt_Name p') = advertised_name naming b (prompt_Name p) ->
    outranks naming b b'.

Lemma winner_owns n b p :
  cand naming (b, p) ∈ cs_of n ->
  (1 < length (cs_of n) -> forall c, c ∈ cs_of n -> cd_listed c = true) ->
  (forall c, c ∈ cs_of n -> (cd_rank (cand naming (b, p)) <= cd_rank c)%Z) -> owns b p.
Proof using ids_nodup ranks_inj.
  intros Hc Hlisted Hmin b' p' Hb' Hp' Hne Hadv.
  apply claimants_elem in Hc as Hc'; [|done]. destruct Hc' as (Hb & Ha & _).
  destruct (claimants_backend naming capabilities n ids b' p' Hb' Hp') as (c' & Hc' & <-);
    [by unfold adv in *; simpl in *; rewrite Hadv|].
  assert (1 < length (cs_of n)) as Hlen.
  { pose proof (claimants_nodup naming capabilities n ids) as Hnd. destruct (cs_of n) as [|c1 [|c2 l]]; simpl; try lia.
    - by apply elem_of_nil in Hc.
    - apply list_elem_of_singleton in Hc, Hc'. subst c'. by rewrite <- Hc in Hne. }
  specialize (Hlisted Hlen). pose proof (Hlisted _ Hc) as L1. pose proof (Hlisted _ Hc') as L2.
  specialize (Hmin _ Hc'). destruct (claimants_inv _ _ _ _ _ Hc') as (b2 & p2 & ->). simpl in *.
  apply bool_decide_eq_true in L1 as [r E1], L2 as [r' E2]. rewrite E1, E2 in Hmin. simpl in Hmin.
  exists r, r'. split_and!; [done|done|]. destruct (decide (r = r')) as [->|]; [|lia].
  by destruct Hne; eapply ranks_inj.
Qed.

Lemma owner_wins n b p c rest :
  cs_of n = c :: rest -> cand naming (b, p) ∈ cs_of n -> owns b p ->
  foldl better_rank c rest = cand naming (b, p) /\
  (1 < length (cs_of n) -> forall d, d ∈ cs_of n -> cd_listed d = true).
Proof using ids_nodup.
  intros Ecs Hc Hown. pose proof (claimants_nodup naming capabilities n ids) as Hnd.
  assert (forall d, d ∈ cs_of n -> d = cand naming (b, p) \/
    (cd_listed d = true /\ cd_listed (cand naming (b, p)) = true /\
     (cd_rank (cand naming (b, p)) < cd_rank d)%Z)) as Hd.
  { intros d Hd. destruct (claimants_inv _ _ _ _ _ Hd) as (b2 & p2 & ->).
    destruct (decide (b2 = b)) as [->|Hne].
    { left. eapply (NoDup_fmap_elem cd_backendID); [exact Hnd|done|done|done]. }
    right. apply claimants_elem in Hd as (Hb2 & Ha2 & Hp2%first_in_elem); [|done].
    apply claimants_elem in Hc as (_ & Ha & _); [|done].
    destruct (Hown b2 p2 Hb2 Hp2 Hne) as (r & r' & E1 & E2 & Hlt); [by unfold adv in *; simpl in *; congruence|].
    simpl. rewrite E1, E2. simpl. split_and!; [done|done|lia]. }
  split.
  - destruct (best_claimant c rest) as [Hw Hmin]. rewrite <- Ecs in Hw, Hmin.
    destruct (Hd _ Hw) as [?|(_ & _ & Hlt)]; [done|]. specialize (Hmin _ Hc). lia.
  - intros Hlen d Hdin. destruct (Hd d Hdin) as [->|(? & _)]; [|done].
    destruct (cs_of n) as [|c1 [|c2 l]]; simpl in Hlen; try lia.
    destruct (Hd c1) as [->|(_ & ? & _)]; [left| |done].
    destruct (Hd c2) as [->|(_ & ? & _)]; [right; left| |done].
    cbn in Hnd. apply NoDup_cons in Hnd as [Hnd _]. destruct Hnd. left.
Qed.
End ownership.

Definition resolved_prompt (naming : promptNaming) (b : string) (p : Prompt) : ResolvedPrompt := {|
  rp_Prompt := with_name p (advertised_name naming b (prompt_Name p));
  rp_OriginalName := prompt_Name p;
|}.

Lemma resolvePromptConflicts_elem naming ids capabilities rp :
  NoDup ids ->
  (forall b1 b2 r, pn_priorityRank naming !! b1 = Some r -> pn_priorityRank naming !! b2 = Some r -> b1 = b2) ->
  rp ∈ resolvePromptConflicts naming ids capabilities <->
  exists b p, b ∈ ids /\ first_in prompt_Name (items_at bc_Prompts capabilities b) p /\
    rp = resolved_prompt naming b p /\ owns naming ids capabilities b p.
Proof.
  intros Hn Hinj. unfold resolvePromptConflicts, group_prompts. rewrite nested_foldl.
  set (L := pairs (items_at bc_Prompts capabilities) ids).
  rewrite list_elem_of_omap. setoid_rewrite merge_sort_Permutation. split.
  - intros (n & Hkey & E). apply resolve_prompt_spec in E as (w & Hw & -> & Ew & Hl).
    rewrite group_claimants in Hw, Ew, Hl. case_decide as Hnil; [by apply elem_of_nil in Hw|]. simpl in *.
    destruct (claimants_inv _ _ _ _ _ Hw) as (b & p & ->).
    apply claimants_elem in Hw as Hw'; [|done]. destruct Hw' as (Hb & <- & Hf).
    exists b, p. split_and!; [done|done|done|]. eapply winner_owns; [done|done|exact Hw|done|].
    fold L. destruct (claimants naming (adv naming (b, p)) L) as [|c rest]; [done|]. rewrite Ew.
    apply best_claimant.
  - intros (b & p & Hb & Hf & -> & Hown). set (n := adv naming (b, p)). exists n.
    assert (cand naming (b, p) ∈ claimants naming n L) as Hc by (by apply claimants_elem).
    destruct (claimants naming n L) as [|c rest] eqn:Ecs; [by apply elem_of_nil in Hc|].
    destruct (owner_wins naming ids capabilities Hn n b p c rest Ecs) as [Ew Hl]; [by fold L; rewrite Ecs|done|].
    fold L in Hl. split.
    + apply list_elem_of_fmap. exists (n, claimants naming n L). split; [done|].
      apply elem_of_map_to_list. by rewrite group_claimants, Ecs.
    + apply resolve_prompt_spec. exists (cand naming (b, p)). rewrite group_claimants, Ecs. simpl.
      rewrite Ecs in Hl. by rewrite Ew.
Qed.

(** What happens to the prompts of the backends.  The advertised names are
    distinct and sorted, and a prompt is advertised exactly when its name, which
    depends on the configuration, its backend and its own name only, is claimed by
    no other backend that does not rank below it in the priority order.  So a name
    that two backends compose differently is advertised by neither, and a name is
    never handed to a backend of lower rank.  The prompt keeps the name its backend
    knows it by. *)
Theorem prompt_ownership cfg ids capabilities :
  NoDup ids ->
  let naming := promptNamingFromConfig cfg in
  let res := resolvePromptConflicts naming ids capabilities in
  StronglySorted String.le ((fun rp => prompt_Name (rp_Prompt rp)) <$> res) /\
  NoDup ((fun rp => prompt_Name (rp_Prompt rp)) <$> res) /\
  forall rp, rp ∈ res <-> exists b p, b ∈ ids /\
    first_in prompt_Name (items_at bc_Prompts capabilities b) p /\
    rp = resolved_prompt naming b p /\ owns naming ids capabilities b p.
Proof.
  intros Hn naming res. refine ((fun H1 H2 => conj (proj1 H1) (conj (proj2 H1) H2)) _ _).
  - apply omap_names.
    + intros n a (w & _ & -> & _)%resolve_prompt_spec. done.
    + apply Sorted_StronglySorted; [apply _|]. apply Sorted_merge_sort, _.
    + rewrite merge_sort_Permutation. apply NoDup_fst_map_to_list.
  - intros rp. apply resolvePromptConflicts_elem; [done|]. apply ranks_distinct.
Qed.

Definition sample_prompt (name backendID : string) : Prompt :=
  {| prompt_Name := name; prompt_Description := ""; prompt_Arguments := []; prompt_BackendID := backendID |}.

Definition sample_capabilities (id : string) (prompts : list string) : BackendCapabilities := {|
  bc_BackendID := id; bc_Tools := []; bc_Resources := []; bc_ResourceTemplates := [];
  bc_Prompts := (fun n => sample_prompt n id) <$> prompts;
  bc_SupportsLogging := false; bc_SupportsSampling := false |}.

(** Both backends compose [b1_x_y]; only the unambiguous prompt is advertised. *)
Lemma prompt_ownership_witness :
  let caps := {[ "b1" := sample_capabilities "b1" ["x_y"; "review"];
                 "b1_x" := sample_capabilities "b1_x" ["y"] ]} in
  let res := resolvePromptConflicts (promptNamingFromConfig None) ["b1"; "b1_x"] caps in
  res = [resolved_prompt (promptNamingFromConfig None) "b1" (sample_prompt "review" "b1")] /\
  owns (promptNamingFromConfig None) ["b1"; "b1_x"] caps "b1" (sample_prompt "review" "b1").
Proof.
  intros caps res.
  assert (res = [resolved_prompt (promptNamingFromConfig None) "b1" (sample_prompt "review" "b1")])
    as E by (vm_compute; reflexivity).
  split; [exact E|].
  assert (NoDup ["b1"; "b1_x"]) as Hn by (apply (bool_decide_unpack _); vm_compute; exact I).
  destruct (prompt_ownership None ["b1"; "b1_x"] caps Hn) as (_ & _ & Hres).
  destruct (proj1 (Hres (resolved_prompt (promptNamingFromConfig None) "b1" (sample_prompt "review" "b1"))))
    as (b & p & Hb & Hf & Ep & Ho); [fold res; rewrite E; left|].
  apply elem_of_cons in Hb as [->|Hb]; [|apply list_elem_of_singleton in Hb as ->; vm_compute in Ep; discriminate Ep].
  apply first_in_elem in Hf. apply elem_of_cons in Hf as [->|Hf]; [vm_compute in Ep; discriminate Ep|].
  apply list_elem_of_singleton in Hf as ->. exact Ho.
Defined.

(** Resources and resource templates: the advertised identities are distinct and
    sorted, and each is the item of the first backend, in sorted order, that has it;
    no identity is lost. *)
Theorem resource_ownership ids capabilities :
  let first_item {T} (keyOf : T -> string) itemsOf x :=
    exists b, first_in (fun p => keyOf p.2) (pairs (items_at itemsOf capabilities) ids) (b, x) in
  let rs := resolveResourceConflicts ids capabilities in
  let ts := resolveResourceTemplateConflicts ids capabilities in
  (StronglySorted String.le (res_URI <$> rs) /\ NoDup (res_URI <$> rs) /\
   (forall x, x ∈ rs <-> first_item res_URI bc_Resources x)) /\
  (StronglySorted String.le (rt_URITemplate <$> ts) /\ NoDup (rt_URITemplate <$> ts) /\
   (forall x, x ∈ ts <-> first_item rt_URITemplate bc_ResourceTemplates x)).
Proof. split; apply dedupeByKey_spec. Qed.
