(* ===== verification/Aggregator.v ===== *)
(** * The capability aggregator ([pkg/vmcp/aggregator/default_aggregator.go])

    Querying the backends, resolving conflicts, and merging the result into the view
    the clients see and the routing table.  The backend client is the parameter
    [ListCapabilities] ([None] is an error).  The queries run concurrently; the list
    [completed] is the order in which they finish.  The orders in which loops visit
    maps are the fields of [map_orders].  Tracing and logging are left out. *)

From stdpp Require Import sorting.
From S2P Require Import Prelude GoStrings VmcpTypes AggregatorTypes ToolResolvers ToolAdapter CapabilityConflicts.

Record map_orders := {
  ord_overrides : gmap string (option ToolOverride) -> list (string * option ToolOverride);
  ord_tools : gmap string (list Tool) -> list (string * list Tool);
  ord_names : gmap string (list toolWithBackend) -> list (string * list toolWithBackend);
  ord_resolved : gmap string ResolvedTool -> list (string * ResolvedTool);
}.

Record map_orders_ok (o : map_orders) : Prop := {
  ord_overrides_ok : forall m, ord_overrides o m ≡ₚ map_to_list m;
  ord_tools_ok : forall m, ord_tools o m ≡ₚ map_to_list m;
  ord_names_ok : forall m, ord_names o m ≡ₚ map_to_list m;
  ord_resolved_ok : forall m, ord_resolved o m ≡ₚ map_to_list m;
}.

Section aggregator.
Context {R : Type} `{ConflictResolver R} (orders : map_orders).
Context (ListCapabilities : BackendTarget -> option CapabilityList).

Record defaultAggregator := {
  da_conflictResolver : option R;
  da_toolConfigMap : gmap string WorkloadToolConfig;
  da_excludeAllTools : bool;
  da_denyUnlisted : bool;
  da_promptNaming : promptNaming;
}.

Definition tool_config_map (tools : list (option WorkloadToolConfig)) : gmap string WorkloadToolConfig :=
  foldl (fun m wl => match wl with Some wl => <[wl_Workload wl := wl]> m | None => m end) ∅ tools.

Definition NewDefaultAggregator (conflictResolver : option R) (cfg : option AggregationConfig)
    : defaultAggregator := {|
  da_conflictResolver := conflictResolver;
  da_toolConfigMap := match cfg with Some ac => tool_config_map (ac_Tools ac) | None => ∅ end;
  da_excludeAllTools := match cfg with Some ac => ac_ExcludeAllTools ac | None => false end;
  da_denyUnlisted :=
    match cfg with
    | Some ac => bool_decide (ac_DefaultToolVisibility ac = DefaultToolVisibilityDeny)
    | None => false
    end;
  da_promptNaming := promptNamingFromConfig cfg;
|}.

(** ** Querying *)
Definition QueryCapabilities (a : defaultAggregator) (backend : Backend) : option BackendCapabilities :=
  match ListCapabilities (BackendToTarget backend) with
  | None => None
  | Some capabilities => Some {|
      bc_BackendID := b_ID backend;
      bc_Tools := processBackendTools (ord_overrides orders) (b_ID backend) (cl_Tools capabilities)
                    (da_toolConfigMap a !! b_ID backend);
      bc_Resources := cl_Resources capabilities;
      bc_ResourceTemplates := cl_ResourceTemplates capabilities;
      bc_Prompts := cl_Prompts capabilities;
      bc_SupportsLogging := cl_SupportsLogging capabilities;
      bc_SupportsSampling := cl_SupportsSampling capabilities |}
  end.

Definition QueryAllCapabilities (a : defaultAggregator) (completed : list Backend)
    : agg_error + gmap string BackendCapabilities :=
  let capabilities := foldl (fun m backend =>
    match QueryCapabilities a backend with
    | Some caps => <[b_ID backend := caps]> m
    | None => m
    end) ∅ completed in
  if decide (size capabilities = 0) then inl ErrNoCapabilities else inr capabilities.

Definition unmatchedToolConfigWorkloads (a : defaultAggregator) (backends : list Backend) : list string :=
  merge_sort String.le
    (filter (fun workload => workload ∉ b_ID <$> backends) (map_to_list (da_toolConfigMap a)).*1).

(** ** Conflicts *)
Definition sorted_keys {T} (m : gmap string T) : list string :=
  merge_sort String.le (map_to_list m).*1.

(** Without a resolver: the first backend, in sorted order, keeps a name. *)
Definition add_first (backendID : string) (resolved : gmap string ResolvedTool) (tool : Tool)
    : gmap string ResolvedTool :=
  match resolved !! tool_Name tool with
  | Some _ => resolved
  | None => <[tool_Name tool := new_ResolvedTool (tool_Name tool) (tool_Name tool) backendID tool
                (ConflictStrategyOther "")]> resolved
  end.

Definition resolve_tools (a : defaultAggregator) (toolsByBackend : gmap string (list Tool))
    : agg_error + gmap string ResolvedTool :=
  match da_conflictResolver a with
  | Some r => ResolveToolConflicts r (ord_names orders) (ord_tools orders toolsByBackend)
  | None =>
      inr (over_tools add_first ∅
        ((fun id => (id, default [] (toolsByBackend !! id))) <$> sorted_keys toolsByBackend))
  end.

Definition any_backend (f : BackendCapabilities -> bool) (capabilities : gmap string BackendCapabilities)
    : bool := existsb f (map_to_list capabilities).*2.

Definition ResolveConflicts (a : defaultAggregator) (capabilities : gmap string BackendCapabilities)
    : agg_error + ResolvedCapabilities :=
  match resolve_tools a (bc_Tools <$> capabilities) with
  | inl err => inl err
  | inr tools =>
      let backendIDs := sorted_keys capabilities in
      inr {| rc_Tools := tools;
             rc_Resources := resolveResourceConflicts backendIDs capabilities;
             rc_ResourceTemplates := resolveResourceTemplateConflicts backendIDs capabilities;
             rc_Prompts := resolvePromptConflicts (da_promptNaming a) backendIDs capabilities;
             rc_SupportsLogging := any_backend bc_SupportsLogging capabilities;
             rc_SupportsSampling := any_backend bc_SupportsSampling capabilities |}
  end.

(** ** Advertising *)
Definition shouldAdvertiseTool (a : defaultAggregator) (backendID originalToolName : string) : bool :=
  if da_excludeAllTools a then false
  else match da_toolConfigMap a !! backendID with
  | None => negb (da_denyUnlisted a)
  | Some wl =>
      if wl_ExcludeAll wl then false
      else if decide (0 < length (wl_Filter wl)) then bool_decide (originalToolName ∈ wl_Filter wl)
      else true
  end.

(** ** Merging *)
Section merge.
Context {Reg : Type} `{BackendRegistry Reg} (registry : Reg).

Definition with_original (t : BackendTarget) (name : string) : BackendTarget := {|
  bt_WorkloadID := bt_WorkloadID t;
  bt_WorkloadName := bt_WorkloadName t;
  bt_BaseURL := bt_BaseURL t;
  bt_TransportType := bt_TransportType t;
  bt_CABundlePath := bt_CABundlePath t;
  bt_CABundleData := bt_CABundleData t;
  bt_OriginalCapabilityName := name;
  bt_AuthConfig := bt_AuthConfig t;
  bt_SessionAffinity := bt_SessionAffinity t;
  bt_HealthStatus := bt_HealthStatus t;
  bt_HeaderForward := bt_HeaderForward t;
  bt_Metadata := bt_Metadata t;
|}.

(** The target when the registry does not know the backend. *)
Definition minimal_target (backendID name : string) : BackendTarget := {|
  bt_WorkloadID := backendID; bt_WorkloadName := ""; bt_BaseURL := ""; bt_TransportType := "";
  bt_CABundlePath := ""; bt_CABundleData := ""; bt_OriginalCapabilityName := name;
  bt_AuthConfig := None; bt_SessionAffinity := false; bt_HealthStatus := None;
  bt_HeaderForward := None; bt_Metadata := ∅ |}.

Definition route_target (backendID name : string) : BackendTarget :=
  match reg_Get registry backendID with
  | None => minimal_target backendID name
  | Some backend => with_original (BackendToTarget backend) name
  end.

Definition final_tool (rt : ResolvedTool) : Tool := {|
  tool_Name := rtool_ResolvedName rt;
  tool_Description := rtool_Description rt;
  tool_InputSchema := rtool_InputSchema rt;
  tool_OutputSchema := rtool_OutputSchema rt;
  tool_Annotations := rtool_Annotations rt;
  tool_BackendID := rtool_BackendID rt;
|}.

(** The loop over the resolved tools: the advertised ones and the routes. *)
Definition merge_tool (a : defaultAggregator) (acc : list Tool * gmap string BackendTarget)
    (rt : ResolvedTool) : list Tool * gmap string BackendTarget :=
  (if shouldAdvertiseTool a (rtool_BackendID rt) (rtool_OriginalName rt)
   then acc.1 ++ [final_tool rt] else acc.1,
   <[rtool_ResolvedName rt :=
       route_target (rtool_BackendID rt)
         (actualBackendCapabilityName (ord_overrides orders) (da_toolConfigMap a)
            (rtool_BackendID rt) (rtool_OriginalName rt))]> acc.2).

(** The loops over resources, templates and prompts: a key already routed is skipped. *)
Definition merge_item {T U} (keyOf : T -> string) (out : T -> U) (target : T -> BackendTarget)
    (acc : list U * gmap string BackendTarget) (item : T) : list U * gmap string BackendTarget :=
  match acc.2 !! keyOf item with
  | Some _ => acc
  | None => (acc.1 ++ [out item], <[keyOf item := target item]> acc.2)
  end.

Definition mergeResources (resolved : list Resource) : list Resource * gmap string BackendTarget :=
  foldl (merge_item res_URI id (fun r => route_target (res_BackendID r) (res_URI r))) ([], ∅) resolved.

(** The concrete URI of a read must reach the backend, so the original name is empty. *)
Definition mergeResourceTemplates (resolved : list ResourceTemplate)
    : list ResourceTemplate * gmap string BackendTarget :=
  foldl (merge_item rt_URITemplate id (fun t => route_target (rt_BackendID t) "")) ([], ∅) resolved.

Definition mergePrompts (resolved : list ResolvedPrompt) : list Prompt * gmap string BackendTarget :=
  foldl (merge_item (fun p => prompt_Name (rp_Prompt p)) rp_Prompt
           (fun p => route_target (prompt_BackendID (rp_Prompt p)) (rp_OriginalName p))) ([], ∅) resolved.

Definition MergeCapabilities (a : defaultAggregator) (resolved : ResolvedCapabilities)
    : AggregatedCapabilities :=
  let entries := (ord_resolved orders (rc_Tools resolved)).*2 in
  let '(tools, toolRoutes) := foldl (merge_tool a) ([], ∅) entries in
  let tools := merge_sort (fun x y => String.le (tool_Name x) (tool_Name y)) tools in
  let '(resources, resourceRoutes) := mergeResources (rc_Resources resolved) in
  let '(templates, templateRoutes) := mergeResourceTemplates (rc_ResourceTemplates resolved) in
  let '(prompts, promptRoutes) := mergePrompts (rc_Prompts resolved) in
  {| ag_Tools := tools;
     ag_Resources := resources;
     ag_ResourceTemplates := templates;
     ag_Prompts := prompts;
     ag_SupportsLogging := rc_SupportsLogging resolved;
     ag_SupportsSampling := rc_SupportsSampling resolved;
     ag_RoutingTable := {|
       route_Tools := toolRoutes;
       route_Resources := resourceRoutes;
       route_ResourceTemplates := templateRoutes;
       route_Prompts := promptRoutes |};
     ag_Metadata := {|
       md_BackendCount := 0;
       md_ToolCount := Z.of_nat (length tools);
       md_ResourceCount := Z.of_nat (length resources);
       md_ResourceTemplateCount := Z.of_nat (length templates);
       md_PromptCount := Z.of_nat (length prompts);
       md_ConflictStrategy :=
         match entries with
         | rt :: _ => rtool_Strategy rt
         | [] => ConflictStrategyPrefix
         end |} |}.
End merge.

Definition with_backend_count (ag : AggregatedCapabilities) (n : Z) : AggregatedCapabilities :=
  let md := ag_Metadata ag in {|
  ag_Tools := ag_Tools ag;
  ag_Resources := ag_Resources ag;
  ag_ResourceTemplates := ag_ResourceTemplates ag;
  ag_Prompts := ag_Prompts ag;
  ag_SupportsLogging := ag_SupportsLogging ag;
  ag_SupportsSampling := ag_SupportsSampling ag;
  ag_RoutingTable := ag_RoutingTable ag;
  ag_Metadata := {|
    md_BackendCount := n;
    md_ToolCount := md_ToolCount md;
    md_ResourceCount := md_ResourceCount md;
    md_ResourceTemplateCount := md_ResourceTemplateCount md;
    md_PromptCount := md_PromptCount md;
    md_ConflictStrategy := md_ConflictStrategy md |};
|}.

(** [completed] is the order in which the queries of the backends finish. *)
Definition AggregateCapabilities (a : defaultAggregator) (backends completed : list Backend)
    : agg_error + AggregatedCapabilities :=
  let registry := NewImmutableRegistry backends in
  match QueryAllCapabilities a completed with
  | inl err => inl err
  | inr capabilities =>
      match ResolveConflicts a capabilities with
      | inl err => inl err
      | inr resolved =>
          inr (with_backend_count (MergeCapabilities registry a resolved) (Z.of_nat (length backends)))
      end
  end.
End aggregator.

(** ** Merged lists and routes agree *)

Lemma merge_item_spec {T U} (keyOf : T -> string) (out : T -> U) target (l : list T) :
  let acc := foldl (merge_item keyOf out target) ([], ∅) l in
  acc.1 = out <$> first_by keyOf l /\
  (forall x, x ∈ first_by keyOf l -> acc.2 !! keyOf x = Some (target x)) /\
  (forall k, is_Some (acc.2 !! k) <-> k ∈ keyOf <$> first_by keyOf l).
Proof.
  induction l as [|a l (E & Hx & Hk)] using rev_ind; cbn zeta in *.
  { split; [done|]. split; [set_solver|]. intros k. cbn. rewrite lookup_empty. split; [by intros []|set_solver]. }
  rewrite foldl_app, first_by_snoc. cbn [foldl]. set (acc := foldl _ ([], ∅) l) in *. clearbody acc.
  destruct acc as [items routes]. simpl in *. unfold merge_item. simpl. specialize (Hk (keyOf a)) as Ha.
  destruct (routes !! keyOf a) as [t|] eqn:Et.
  - rewrite decide_True by (apply Ha; eauto). done.
  - rewrite decide_False by (rewrite <- Ha; by intros []). simpl. rewrite !fmap_app, E. split; [done|]. split.
    + intros x [Hin| ->%list_elem_of_singleton]%elem_of_app; [|apply lookup_insert_eq].
      rewrite lookup_insert_ne; [by apply Hx|]. intros Hkey. rewrite Hkey, (Hx x Hin) in Et. done.
    + intros k. rewrite elem_of_app, <- Hk. cbn [fmap list_fmap]. rewrite list_elem_of_singleton.
      destruct (decide (k = keyOf a)) as [->|Hne].
      * rewrite lookup_insert_eq. naive_solver.
      * rewrite lookup_insert_ne by done. naive_solver.
Qed.

Section view.
Context {R : Type} `{ConflictResolverOk R} (orders : map_orders).
Context (ListCapabilities : BackendTarget -> option CapabilityList).
Hypothesis orders_ok : map_orders_ok orders.

(** The route of a resolved tool. *)
Definition tool_target {Reg} `{BackendRegistry Reg} (registry : Reg) (a : defaultAggregator)
    (rt : ResolvedTool) : BackendTarget :=
  route_target registry (rtool_BackendID rt)
    (actualBackendCapabilityName (ord_overrides orders) (da_toolConfigMap (R := R) a)
       (rtool_BackendID rt) (rtool_OriginalName rt)).

Definition advertised (a : defaultAggregator) (rt : ResolvedTool) : Prop :=
  shouldAdvertiseTool (R := R) a (rtool_BackendID rt) (rtool_OriginalName rt) = true.

#[local] Instance advertised_dec a rt : Decision (advertised a rt).
Proof using. unfold advertised. apply _. Defined.

Lemma merge_tools_spec {Reg} `{BackendRegistry Reg} (registry : Reg) a (l : list ResolvedTool) :
  NoDup (rtool_ResolvedName <$> l) ->
  let acc := foldl (merge_tool orders registry a) ([], ∅) l in
  acc.1 = final_tool <$> filter (advertised a) l /\
  (forall rt, rt ∈ l -> acc.2 !! rtool_ResolvedName rt = Some (tool_target registry a rt)) /\
  (forall k, is_Some (acc.2 !! k) <-> k ∈ rtool_ResolvedName <$> l).
Proof using.
  clear orders_ok H0. induction l as [|rt l IH] using rev_ind; intros Hn; cbn zeta in *.
  { split; [done|]. split; [set_solver|]. intros k. cbn. rewrite lookup_empty. split; [by intros []|set_solver]. }
  rewrite fmap_app in Hn. apply NoDup_app in Hn as (Hn & Hd & _). destruct (IH Hn) as (E & Hx & Hk).
  rewrite foldl_app, filter_app, fmap_app. cbn [foldl]. set (acc := foldl _ ([], ∅) l) in *. clearbody acc.
  destruct acc as [tools routes]. simpl in *. split; [|split].
  - rewrite filter_cons, filter_nil. destruct (decide (advertised a rt)) as [Ha|Ha]; unfold advertised in Ha.
    + by rewrite Ha, E.
    + apply not_true_is_false in Ha. by rewrite Ha, app_nil_r, E.
  - intros rt' [Hin| ->%list_elem_of_singleton]%elem_of_app; [|apply lookup_insert_eq].
    rewrite lookup_insert_ne; [by apply Hx|]. intros Hkey.
    apply (Hd (rtool_ResolvedName rt')); [apply list_elem_of_fmap; eauto|]. rewrite Hkey. set_solver.
  - intros k. rewrite fmap_app, elem_of_app, <- Hk. cbn [fmap list_fmap]. rewrite list_elem_of_singleton.
    destruct (decide (k = rtool_ResolvedName rt)) as [->|Hne].
    + rewrite lookup_insert_eq. naive_solver.
    + rewrite lookup_insert_ne by done. naive_solver.
Qed.

(** The resolved tools come from the tools of the backends, with or without a
    resolver. *)
Lemma resolve_tools_ok a (toolsByBackend : gmap string (list Tool)) m n rt :
  resolve_tools orders a toolsByBackend = inr m -> m !! n = Some rt ->
  rtool_ResolvedName rt = n /\ exists ts t, toolsByBackend !! rtool_BackendID rt = Some ts /\ t ∈ ts /\
    rtool_OriginalName rt = tool_Name t /\ rtool_InputSchema rt = tool_InputSchema t /\
    rtool_OutputSchema rt = tool_OutputSchema t.
Proof using orders_ok H0.
  intros E Hn.
  assert (exists tools, resolved_ok tools m /\
    forall b ts, (b, ts) ∈ tools -> toolsByBackend !! b = Some ts) as (tools & Hok & Htools).
  { unfold resolve_tools in E. destruct (da_conflictResolver a) as [r|].
    - exists (ord_tools orders toolsByBackend). split.
      + eapply resolver_sound; [apply (ord_names_ok _ orders_ok)|exact E].
      + intros b ts. by rewrite (ord_tools_ok _ orders_ok), elem_of_map_to_list.
    - injection E as <-. eexists. split.
      + rewrite over_tools_flat. apply foldl_invariant; [apply resolved_ok_empty|].
        intros acc c Hc Hacc. unfold add_first. case_match; [done|].
        by eapply (resolved_ok_insert _ _ (new_ResolvedTool _ _ _ _ _)).
      + intros b ts (id & [= -> ->] & Hid)%list_elem_of_fmap. unfold sorted_keys in Hid.
        rewrite merge_sort_Permutation in Hid. apply list_elem_of_fmap in Hid as ([k v] & -> & Hkv).
        apply elem_of_map_to_list in Hkv. simpl. by rewrite Hkv. }
  destruct (Hok n rt Hn) as (Hname & t & Hc & Ho & Hs). split; [done|].
  unfold flat in Hc. apply list_elem_of_bind in Hc as ([b ts] & Hc & Hin).
  apply list_elem_of_fmap in Hc as (t' & [= -> ->] & Ht). exists ts, t'. split; [by apply Htools|done].
Qed.

(** The tools of the merged view and their routes, from the resolved tools. *)
Lemma merged_tools {Reg} `{BackendRegistry Reg} (registry : Reg) a rc :
  (forall n rt, rc_Tools rc !! n = Some rt -> rtool_ResolvedName rt = n) ->
  let ag := MergeCapabilities orders registry a rc in
  StronglySorted String.le (tool_Name <$> ag_Tools ag) /\ NoDup (tool_Name <$> ag_Tools ag) /\
  (forall t, t ∈ ag_Tools ag <-> exists n rt, rc_Tools rc !! n = Some rt /\ advertised a rt /\ t = final_tool rt) /\
  (forall n target, route_Tools (ag_RoutingTable ag) !! n = Some target <->
     exists rt, rc_Tools rc !! n = Some rt /\ target = tool_target registry a rt).
Proof using orders_ok.
  intros Hkey ag. set (l := (ord_resolved orders (rc_Tools rc)).*2).
  assert (forall rt, rt ∈ l <-> rc_Tools rc !! rtool_ResolvedName rt = Some rt) as Hl.
  { intros rt. unfold l. rewrite (ord_resolved_ok _ orders_ok), list_elem_of_fmap. split.
    - intros ([n rt'] & -> & Hin%elem_of_map_to_list). simpl. by rewrite (Hkey _ _ Hin).
    - intros Hin. exists (rtool_ResolvedName rt, rt). by rewrite elem_of_map_to_list. }
  assert (NoDup (rtool_ResolvedName <$> l)) as Hn.
  { unfold l. rewrite (ord_resolved_ok _ orders_ok).
    assert (rtool_ResolvedName <$> (map_to_list (rc_Tools rc)).*2 = (map_to_list (rc_Tools rc)).*1) as ->;
      [|apply NoDup_fst_map_to_list].
    rewrite <- list_fmap_compose. apply list_fmap_ext. intros i [n rt] Hi%list_elem_of_lookup_2.
    apply elem_of_map_to_list in Hi. by apply Hkey in Hi. }
  destruct (merge_tools_spec registry a l Hn) as (E & Hx & Hk).
  assert (ag_Tools ag = merge_sort (fun x y => String.le (tool_Name x) (tool_Name y))
    (foldl (merge_tool orders registry a) ([], ∅) l).1 /\
    route_Tools (ag_RoutingTable ag) = (foldl (merge_tool orders registry a) ([], ∅) l).2) as [-> ->].
  { unfold ag, MergeCapabilities. fold l. destruct (foldl (merge_tool orders registry a) ([], ∅) l) as [tools routes].
    by destruct (mergeResources _ _), (mergeResourceTemplates _ _), (mergePrompts _ _). }
  split; [apply StronglySorted_by|]. rewrite !merge_sort_Permutation, E. split; [|split].
  - rewrite <- list_fmap_compose. change (tool_Name ∘ final_tool) with rtool_ResolvedName.
    eapply sublist_NoDup; [exact Hn|]. apply fmap_sublist, sublist_filter.
  - intros t. rewrite merge_sort_Permutation, list_elem_of_fmap. split.
    + intros (rt & -> & [Ha Hin%Hl]%list_elem_of_filter). eauto.
    + intros (n & rt & Hrt & Ha & ->). exists rt. split; [done|]. apply list_elem_of_filter.
      split; [done|]. apply Hl. by rewrite (Hkey _ _ Hrt).
  - intros n target. split.
    + intros Hr. assert (is_Some ((foldl (merge_tool orders registry a) ([], ∅) l).2 !! n)) as Hs by eauto.
      apply Hk, list_elem_of_fmap in Hs as (rt & -> & Hin). rewrite (Hx rt Hin) in Hr.
      exists rt. by apply Hl in Hin; simplify_eq.
    + intros (rt & Hrt & ->). rewrite <- (Hkey _ _ Hrt). apply Hx, Hl. by rewrite (Hkey _ _ Hrt).
Qed.

Lemma route_target_workload {Reg} `{BackendRegistry Reg} (registry : Reg) `{!BackendRegistryOk registry}
    backendID name :
  bt_WorkloadID (route_target registry backendID name) = backendID /\
  bt_OriginalCapabilityName (route_target registry backendID name) = name.
Proof using.
  unfold route_target. destruct (reg_Get registry backendID) as [b|] eqn:E; [|done].
  by rewrite <- (reg_get_id _ _ E).
Qed.

Lemma query_all_inv a completed capabilities id caps :
  QueryAllCapabilities orders ListCapabilities (R := R) a completed = inr capabilities ->
  capabilities !! id = Some caps ->
  exists b, b ∈ completed /\ b_ID b = id /\ QueryCapabilities orders ListCapabilities a b = Some caps.
Proof using.
  clear. unfold QueryAllCapabilities. case_decide; [done|]. intros [= <-].
  apply (foldl_invariant (fun m : gmap string BackendCapabilities => m !! id = Some caps ->
    exists b, b ∈ completed /\ b_ID b = id /\ QueryCapabilities orders ListCapabilities a b = Some caps)).
  - by rewrite lookup_empty.
  - intros m b Hb Hm. destruct (QueryCapabilities _ _ a b) as [caps'|] eqn:E; [|done].
    intros [[<- ->]|[_ Hin]]%lookup_insert_Some; eauto.
Qed.

(** Resources and prompts of the merged view are routed to their backends. *)
Lemma merged_items {Reg} `{BackendRegistry Reg} (registry : Reg) `{!BackendRegistryOk registry} a rc :
  let ag := MergeCapabilities orders registry (R := R) a rc in
  (forall r, r ∈ ag_Resources ag -> exists target,
     route_Resources (ag_RoutingTable ag) !! res_URI r = Some target /\
     bt_WorkloadID target = res_BackendID r /\ bt_OriginalCapabilityName target = res_URI r) /\
  (forall t, t ∈ ag_ResourceTemplates ag -> exists target,
     route_ResourceTemplates (ag_RoutingTable ag) !! rt_URITemplate t = Some target /\
     bt_WorkloadID target = rt_BackendID t /\ bt_OriginalCapabilityName target = "") /\
  (forall p, p ∈ ag_Prompts ag -> exists rp target, rp ∈ rc_Prompts rc /\ rp_Prompt rp = p /\
     route_Prompts (ag_RoutingTable ag) !! prompt_Name p = Some target /\
     bt_WorkloadID target = prompt_BackendID p /\ bt_OriginalCapabilityName target = rp_OriginalName rp).
Proof using.
  clear orders_ok H0. intros ag.
  pose proof (merge_item_spec res_URI id (fun r => route_target registry (res_BackendID r) (res_URI r))
    (rc_Resources rc)) as Hr.
  pose proof (merge_item_spec rt_URITemplate id (fun t => route_target registry (rt_BackendID t) "")
    (rc_ResourceTemplates rc)) as Ht.
  pose proof (merge_item_spec (fun p => prompt_Name (rp_Prompt p)) rp_Prompt
    (fun p => route_target registry (prompt_BackendID (rp_Prompt p)) (rp_OriginalName p)) (rc_Prompts rc)) as Hp.
  cbn zeta in Hr, Ht, Hp. fold (mergeResources registry (rc_Resources rc)) in Hr.
  fold (mergeResourceTemplates registry (rc_ResourceTemplates rc)) in Ht.
  fold (mergePrompts registry (rc_Prompts rc)) in Hp.
  unfold ag, MergeCapabilities. destruct (foldl (merge_tool orders registry a) _ _) as [ts tr].
  destruct (mergeResources _ _), (mergeResourceTemplates _ _), (mergePrompts _ _). simpl in *.
  destruct Hr as (-> & Hr & _), Ht as (-> & Ht & _), Hp as (-> & Hp & _). rewrite !list_fmap_id.
  split; [|split].
  - intros r Hin. eexists. split; [by apply Hr|]. by apply route_target_workload.
  - intros t Hin. eexists. split; [by apply Ht|]. by apply route_target_workload.
  - intros p (rp & -> & Hin)%list_elem_of_fmap. exists rp. eexists.
    split; [by eapply first_in_elem, first_by_spec|]. split; [done|]. split; [by apply (Hp rp)|].
    by apply route_target_workload.
Qed.

(** The tools a backend lists have distinct names, and the overrides configured for it are valid
    and give no tool a name that another tool keeps or is given. *)
Definition overrides_unambiguous (a : defaultAggregator (R := R)) (b : Backend) (caps : CapabilityList) : Prop :=
  NoDup (tool_Name <$> cl_Tools caps) /\
  forall wl, da_toolConfigMap a !! b_ID b = Some wl -> overrides_valid wl /\ renaming_unambiguous wl (cl_Tools caps).

(** A processed tool is one the backend lists, and its name is translated back to the name the
    backend lists it under. *)
Lemma processed_tool a b caps t :
  overrides_unambiguous a b caps ->
  t ∈ processBackendTools (ord_overrides orders) (b_ID b) (cl_Tools caps) (da_toolConfigMap a !! b_ID b) ->
  exists t', t' ∈ cl_Tools caps /\
    actualBackendCapabilityName (ord_overrides orders) (da_toolConfigMap a) (b_ID b) (tool_Name t) = tool_Name t' /\
    tool_InputSchema t = tool_InputSchema t' /\ tool_OutputSchema t = tool_OutputSchema t'.
Proof using orders_ok.
  intros [Hn Hwl] Ht. pose proof (ord_overrides_ok _ orders_ok) as Hr.
  destruct (da_toolConfigMap a !! b_ID b) as [wl|] eqn:Ew.
  - destruct (Hwl wl eq_refl) as [Hv Hu].
    destruct (processBackendTools_fmap _ wl (cl_Tools caps) (b_ID b) Hr Hv Hu Hn) as (f & E & Hf).
    rewrite E in Ht. apply list_elem_of_fmap in Ht as (t' & -> & Hin). exists t'.
    destruct (Hf t') as (-> & ? & ?). split_and!; [done|by eapply actual_name_of_renamed|done|done].
  - exists t. unfold actualBackendCapabilityName. by rewrite Ew.
Qed.

(** What it means that the view [ag] of [backends] can be served.  Every route of a tool leads to
    one of the backends that answered; where the overrides of that backend are unambiguous, the
    route carries the name under which the backend itself lists a tool, and what is advertised
    under the routed name has the schemas of that tool. *)
Definition routable_view (a : defaultAggregator (R := R)) (backends : list Backend)
    (ag : AggregatedCapabilities) : Prop :=
  let routes := ag_RoutingTable ag in
  NoDup (tool_Name <$> ag_Tools ag) /\
  (forall t, t ∈ ag_Tools ag -> exists target, route_Tools routes !! tool_Name t = Some target /\
     bt_WorkloadID target = tool_BackendID t) /\
  (forall n target, route_Tools routes !! n = Some target -> exists b caps,
     b ∈ backends /\ ListCapabilities (BackendToTarget b) = Some caps /\
     (exists name, target = with_original (BackendToTarget b) name) /\
     (overrides_unambiguous a b caps -> exists t, t ∈ cl_Tools caps /\ target = with_original (BackendToTarget b) (tool_Name t) /\
        forall shown, shown ∈ ag_Tools ag -> tool_Name shown = n ->
          tool_InputSchema shown = tool_InputSchema t /\ tool_OutputSchema shown = tool_OutputSchema t)) /\
  (forall r, r ∈ ag_Resources ag -> exists target, route_Resources routes !! res_URI r = Some target /\
     bt_WorkloadID target = res_BackendID r /\ bt_OriginalCapabilityName target = res_URI r) /\
  (forall t, t ∈ ag_ResourceTemplates ag -> exists target,
     route_ResourceTemplates routes !! rt_URITemplate t = Some target /\
     bt_WorkloadID target = rt_BackendID t /\ bt_OriginalCapabilityName target = "") /\
  (forall p, p ∈ ag_Prompts ag -> exists target, route_Prompts routes !! prompt_Name p = Some target /\
     bt_WorkloadID target = prompt_BackendID p).

Lemma aggregate_routable a backends completed ag :
  completed ≡ₚ backends -> NoDup (b_ID <$> backends) ->
  AggregateCapabilities orders ListCapabilities (R := R) a backends completed = inr ag ->
  routable_view a backends ag.
Proof using orders_ok H0.
  intros Hperm Hn E. unfold routable_view. unfold AggregateCapabilities in E.
  destruct (QueryAllCapabilities _ _ a completed) as [|capabilities] eqn:Eq; [done|].
  unfold ResolveConflicts in E. destruct (resolve_tools orders a _) as [|tools] eqn:Et; [done|].
  injection E as <-. cbn [with_backend_count ag_RoutingTable ag_Tools ag_Resources ag_ResourceTemplates ag_Prompts].
  set (rc := Build_ResolvedCapabilities _ _ _ _ _ _). set (registry := NewImmutableRegistry backends).
  assert (forall n rt, rc_Tools rc !! n = Some rt -> rtool_ResolvedName rt = n) as Hkey.
  { intros n rt Hrt. by eapply (resolve_tools_ok a) in Hrt as [? _]. }
  destruct (merged_tools registry a rc Hkey) as (_ & Hnd & Htools & Hroutes).
  destruct (merged_items registry a rc) as (Hr & Ht & Hp).
  split_and!; [done| | |done|done|].
  - intros t (n & rt & Hrt & _ & ->)%Htools. eexists. split; [apply Hroutes; eexists; split; [|done]|].
    + simpl. by rewrite (Hkey _ _ Hrt).
    + exact (proj1 (route_target_workload registry _ _)).
  - intros n target (rt & Hrt & ->)%Hroutes. pose proof Hrt as Hrt'.
    eapply (resolve_tools_ok a) in Hrt as (_ & ts & t & Hts & Hin & Ho & Hi & Hout); [|exact Et].
    rewrite lookup_fmap in Hts. apply fmap_Some in Hts as (caps & Hcaps & ->).
    destruct (query_all_inv _ _ _ _ _ Eq Hcaps) as (b & Hb & Hid & Hq). rewrite Hperm in Hb.
    unfold QueryCapabilities in Hq. destruct (ListCapabilities (BackendToTarget b)) as [cl|] eqn:El; [|done].
    injection Hq as <-. cbn [bc_Tools] in Hin. exists b, cl. unfold tool_target, route_target. rewrite Ho, <- Hid.
    assert (reg_Get registry (b_ID b) = Some b) as -> by (by apply index_backends_own).
    split_and!; [done|done|by eexists|]. intros Hu.
    destruct (processed_tool a b cl t Hu Hin) as (t' & Ht' & -> & E1 & E2). exists t'. split_and!; [done|done|].
    intros shown (n' & rt' & Hrt'' & _ & ->)%Htools Hshown. cbn [final_tool tool_Name] in Hshown.
    rewrite (Hkey _ _ Hrt'') in Hshown. subst n'. rewrite Hrt' in Hrt''. injection Hrt'' as <-.
    cbn [final_tool tool_InputSchema tool_OutputSchema]. split; congruence.
  - intros p (rp & target & _ & _ & ? & ? & _)%Hp. eauto.
Qed.

(** C27. The aggregated view can be served: the advertised tools have distinct names,
    and every advertised tool, resource, template and prompt is routed to the backend
    it belongs to.  Every tool that can be routed, advertised or hidden, leads to
    one of the aggregated backends that answered its query.  Where that backend lists tools
    of distinct names and its overrides are valid and unambiguous, the route carries the
    name under which the backend itself lists one of its tools, and the tool advertised
    under the routed name has the schemas of that very tool: overrides and the renaming
    that resolves conflicts are both undone.  This holds for every conflict resolver that meets
    its contract, and for every order of the queries and of the loops over maps. *)
Theorem aggregated_view_routable a backends completed ag :
  completed ≡ₚ backends -> NoDup (b_ID <$> backends) ->
  AggregateCapabilities orders ListCapabilities (R := R) a backends completed = inr ag ->
  routable_view a backends ag.
Proof using orders_ok H0. apply aggregate_routable. Qed.
End view.

(** ** A sample aggregation: two backends with a tool each *)
Definition sample_orders : map_orders := {|
  ord_overrides := map_to_list; ord_tools := map_to_list; ord_names := map_to_list;
  ord_resolved := map_to_list |}.

Definition sample_list (t : BackendTarget) : option CapabilityList := Some {|
  cl_Tools := [sample_tool "get"]; cl_Resources := []; cl_ResourceTemplates := []; cl_Prompts := [];
  cl_SupportsLogging := false; cl_SupportsSampling := false |}.

Definition sample_aggregator : defaultAggregator (R := anyResolver) :=
  NewDefaultAggregator (Some (PrefixResolver (NewPrefixConflictResolver ""))) None.

(** An override renames the tool of the second backend. *)
Definition renaming_aggregator : defaultAggregator (R := anyResolver) :=
  NewDefaultAggregator (Some (PrefixResolver (NewPrefixConflictResolver "")))
    (Some {| ac_ConflictResolution := ConflictStrategyPrefix; ac_ConflictResolutionConfig := None;
             ac_Tools := [Some sample_workload]; ac_ExcludeAllTools := false; ac_DefaultToolVisibility := "" |}).

Lemma renaming_unambiguous_sample caps :
  sample_list (BackendToTarget (sample_backend "b")) = Some caps -> overrides_unambiguous renaming_aggregator (sample_backend "b") caps.
Proof.
  intros [= <-]. split; [apply NoDup_singleton|]. intros wl Hwl.
  assert (wl = sample_workload) as -> by (apply (inj Some); rewrite <- Hwl; vm_compute; reflexivity).
  split.
  - intros k o Hk. cbn [wl_Overrides sample_workload] in Hk. apply lookup_singleton_Some in Hk as [<- [= <-]]. split; [discriminate|intros [[=] _]].
  - intros t k o Ht Hk Hname. cbn [wl_Overrides sample_workload] in Hk. apply lookup_singleton_Some in Hk as [<- [= <-]].
    apply list_elem_of_singleton in Ht as ->. reflexivity.
Qed.

Lemma aggregated_view_routable_witness :
  let backends := [sample_backend "a"; sample_backend "b"] in
  exists ag target, AggregateCapabilities sample_orders sample_list renaming_aggregator backends backends = inr ag /\
    (tool_Name <$> ag_Tools ag) = ["a_get"; "b_fetch"] /\ NoDup (tool_Name <$> ag_Tools ag) /\
    route_Tools (ag_RoutingTable ag) !! "b_fetch" = Some target /\ bt_OriginalCapabilityName target = "get".
Proof.
  intros backends. destruct (AggregateCapabilities _ _ renaming_aggregator backends backends) as [|ag] eqn:E;
    [vm_compute in E; discriminate E|].
  assert (NoDup (b_ID <$> backends)) as Hids by (apply (bool_decide_unpack _); vm_compute; exact I).
  destruct (aggregated_view_routable sample_orders sample_list (Build_map_orders_ok sample_orders
    (fun _ => reflexivity _) (fun _ => reflexivity _) (fun _ => reflexivity _) (fun _ => reflexivity _))
    renaming_aggregator backends backends ag (reflexivity _) Hids E) as (Hn & Ht & Hroutes & _).
  assert ((tool_Name <$> ag_Tools ag) = ["a_get"; "b_fetch"]) as Hnames by (vm_compute in E; injection E as <-; reflexivity).
  assert (exists t, t ∈ ag_Tools ag /\ tool_Name t = "b_fetch" /\ tool_BackendID t = "b") as (t & Hin & Hname & Hid)
    by (vm_compute in E; injection E as <-; eexists; split; [right; left|split; reflexivity]).
  destruct (Ht t Hin) as (target & Hr & Hw). rewrite Hname in Hr. exists ag, target. split_and!; [done..|].
  destruct (Hroutes _ _ Hr) as (b & caps & Hb & Hl & [name Htarget] & Hu).
  assert (b = sample_backend "b") as ->.
  { apply elem_of_cons in Hb as [->|Hb]; [|by apply list_elem_of_singleton in Hb].
    subst target. rewrite Hid in Hw. discriminate Hw. }
  destruct (Hu (renaming_unambiguous_sample _ Hl)) as (t' & Hin' & -> & _). injection Hl as <-.
  apply list_elem_of_singleton in Hin' as ->. reflexivity.
Defined.
