(* ===== verification/SessionBinding.v ===== *)
(** * Binding of sessions to identities
    ([pkg/vmcp/session/binding/binding.go], [pkg/vmcp/session/internal/security/security.go],
    [ShouldAllowAnonymous] of [pkg/vmcp/session/types/session.go])

    A session stores the issuer and the subject of the identity that created it, or a
    sentinel when there is none; every later request is compared with it.  A Go
    pointer to an identity is an option.  [subtle.ConstantTimeCompare] is equality.
    The decorator embeds the session: of the session only the metadata is touched
    here, and the embedded method that a decorated one calls is an argument. *)

From Stdlib Require Import Ascii.
From S2P Require Import Prelude VmcpTypes GoStrings.

(** ** Identities ([pkg/auth/identity.go])

    The fields of the embedded [PrincipalInfo] come first.  The delegation chain is
    carried but not inspected. *)
Record Identity := {
  id_Subject : string;
  id_PlatformUserID : string;
  id_Name : string;
  id_Email : string;
  id_Groups : list string;
  id_Claims : gmap string json;
  id_DelegationChain : option json;
  id_Token : string;
  id_TokenType : string;
  id_Metadata : gmap string string;
  id_UpstreamTokens : option (gmap string string);
  id_UpstreamIDTokens : option (gmap string string);
}.

(** ** The format of a binding *)
Definition nul : ascii := "000".

Definition UnauthenticatedSentinel : string := "unauthenticated".

(** [None] is [ErrInvalidBinding]. *)
Definition Format (iss sub : string) : option string :=
  if decide (iss = "" \/ sub = "") then None
  else if ContainsRune nul iss || ContainsRune nul sub then None
  else Some (iss +:+ String nul sub).

Definition Parse (s : string) : option (string * string) :=
  match Cut nul s with
  | None => None
  | Some (iss, sub) =>
      if decide (iss = "" \/ sub = "") then None
      else if ContainsRune nul sub then None
      else Some (iss, sub)
  end.

Definition IsUnauthenticated (s : string) : bool := bool_decide (s = UnauthenticatedSentinel).

(** ** Who is anonymous *)

(** The value, and whether the claim is missing or a string. *)
Definition claimString (claims : gmap string json) (key : string) : string * bool :=
  match claims !! key with
  | None => ("", true)
  | Some (JStr s) => (s, true)
  | Some _ => ("", false)
  end.

Definition ShouldAllowAnonymous (identity : option Identity) : bool :=
  match identity with
  | None => true
  | Some identity =>
      if decide (id_Token identity <> "") then false
      else
        let '(iss, issOK) := claimString (id_Claims identity) "iss" in
        let '(sub, subOK) := claimString (id_Claims identity) "sub" in
        if negb issOK || negb subOK then false
        else match Format iss sub with Some _ => false | None => true end
  end.

(** ** Deriving and checking a binding *)
Inductive extract_error :=
  | IdentityIsNil | MissingIss | NonStringIss | MissingSub | NonStringSub | InvalidPair.

Definition extractBindingID (identity : option Identity) : extract_error + string :=
  match identity with
  | None => inl IdentityIsNil
  | Some identity =>
      match id_Claims identity !! "iss" with
      | None => inl MissingIss
      | Some (JStr iss) =>
          match id_Claims identity !! "sub" with
          | None => inl MissingSub
          | Some (JStr sub) =>
              match Format iss sub with
              | None => inl InvalidPair
              | Some b => inr b
              end
          | Some _ => inl NonStringSub
          end
      | Some _ => inl NonStringIss
      end
  end.

Inductive caller_error := ErrUnauthorizedCaller | ErrNilCaller | ErrSessionOwnerUnknown.

(** [None] is acceptance. *)
Definition validateCallerBinding (boundIdentity : string) (allowAnonymous : bool)
    (caller : option Identity) : option caller_error :=
  if allowAnonymous && IsUnauthenticated boundIdentity then
    match caller with
    | Some c => if decide (id_Token c <> "") then Some ErrUnauthorizedCaller else None
    | None => None
    end
  else match caller with
  | None => Some ErrNilCaller
  | Some c =>
      if negb (IsUnauthenticated boundIdentity) && bool_decide (Parse boundIdentity = None)
      then Some ErrSessionOwnerUnknown
      else match extractBindingID (Some c) with
      | inl _ => Some ErrUnauthorizedCaller
      | inr callerBinding =>
          if decide (boundIdentity = callerBinding) then None else Some ErrUnauthorizedCaller
      end
  end.

Definition ValidateCaller (storedBinding : string) (caller : option Identity) : option caller_error :=
  validateCallerBinding storedBinding (IsUnauthenticated storedBinding) caller.

Record sessionBindingDecorator := {
  sbd_boundIdentity : string;
  sbd_allowAnonymous : bool;
}.

Definition validateCaller (d : sessionBindingDecorator) (caller : option Identity) : option caller_error :=
  validateCallerBinding (sbd_boundIdentity d) (sbd_allowAnonymous d) caller.

(** [CallTool], [ReadResource] and [GetPrompt] of the decorator: [call] is the method
    of the embedded session, with the arguments that follow the caller applied. *)
Definition guarded {A E} (wrap : caller_error -> E) (d : sessionBindingDecorator)
    (caller : option Identity) (call : option Identity -> E + A) : E + A :=
  match validateCaller d caller with
  | Some err => inl (wrap err)
  | None => call caller
  end.

Definition MetadataKeyIdentityBinding : string := "vmcp.identity.binding".

(** The session's new metadata and its decorator; on an error nothing is written. *)
Definition BindSession (metadata : gmap string string) (identity : option Identity)
    : extract_error + (gmap string string * sessionBindingDecorator) :=
  let allowAnonymous := ShouldAllowAnonymous identity in
  match (if allowAnonymous then inr UnauthenticatedSentinel else extractBindingID identity) with
  | inl err => inl err
  | inr bid =>
      inr (<[MetadataKeyIdentityBinding := bid]> metadata,
           {| sbd_boundIdentity := bid; sbd_allowAnonymous := allowAnonymous |})
  end.

(** [None] is the error for corrupted metadata. *)
Definition RestoreSessionBinding (storedBinding : string) : option sessionBindingDecorator :=
  if IsUnauthenticated storedBinding
  then Some {| sbd_boundIdentity := storedBinding; sbd_allowAnonymous := true |}
  else match Parse storedBinding with
  | None => None
  | Some _ => Some {| sbd_boundIdentity := storedBinding; sbd_allowAnonymous := false |}
  end.

(** ** The format round-trips *)
Lemma Format_Some iss sub b :
  Format iss sub = Some b <->
  iss <> "" /\ sub <> "" /\ no_char nul iss /\ no_char nul sub /\ b = iss +:+ String nul sub.
Proof.
  unfold Format. case_decide as He; [naive_solver|].
  destruct (ContainsRune nul iss || ContainsRune nul sub) eqn:E.
  - apply orb_true_iff in E. rewrite !ContainsRune_true in E. naive_solver.
  - apply orb_false_iff in E. rewrite !ContainsRune_false in E. naive_solver.
Qed.

Lemma Parse_Some s iss sub : Parse s = Some (iss, sub) <-> Format iss sub = Some s.
Proof.
  rewrite Format_Some. unfold Parse. destruct (Cut nul s) as [[i u]|] eqn:E.
  - apply Cut_Some in E as [-> Hi]. case_decide as He.
    + split; [done|]. intros (? & ? & Hiss & _ & [-> ->]%split_at_char); naive_solver.
    + destruct (ContainsRune nul u) eqn:Eu.
      * apply ContainsRune_true in Eu. split; [done|].
        intros (? & ? & Hiss & Hsub & [-> ->]%split_at_char); naive_solver.
      * apply ContainsRune_false in Eu. split; [naive_solver|].
        intros (? & ? & Hiss & Hsub & [-> ->]%split_at_char); naive_solver.
  - apply Cut_None in E. split; [done|]. intros (_ & _ & _ & _ & ->).
    apply no_char_app in E. simpl in E. naive_solver.
Qed.

Lemma Format_inj iss sub iss' sub' b :
  Format iss sub = Some b -> Format iss' sub' = Some b -> iss = iss' /\ sub = sub'.
Proof. intros H1%Parse_Some H2%Parse_Some. naive_solver. Qed.

Lemma sentinel_not_bound iss sub : Format iss sub <> Some UnauthenticatedSentinel.
Proof. intros E%Parse_Some. by vm_compute in E. Qed.

(** ** What a binding decides *)

(** The issuer and the subject an identity can be bound by. *)
Definition principal (identity : Identity) (iss sub : string) : Prop :=
  id_Claims identity !! "iss" = Some (JStr iss) /\ id_Claims identity !! "sub" = Some (JStr sub) /\
  is_Some (Format iss sub).

Lemma extractBindingID_inr identity b :
  extractBindingID (Some identity) = inr b <->
  exists iss sub, principal identity iss sub /\ Format iss sub = Some b.
Proof.
  unfold principal. split.
  - cbn. repeat case_match; intros; simplify_eq. naive_solver.
  - intros (iss & sub & (Hi & Hs & _) & E). cbn. by rewrite Hi, Hs, E.
Qed.

Definition presents_token (caller : option Identity) : Prop :=
  exists c, caller = Some c /\ id_Token c <> "".

Lemma validate_anonymous caller :
  validateCallerBinding UnauthenticatedSentinel true caller = None <-> ~ presents_token caller.
Proof.
  unfold validateCallerBinding, presents_token. cbn [andb].
  assert (IsUnauthenticated UnauthenticatedSentinel = true) as -> by reflexivity.
  destruct caller as [c|]; [|naive_solver]. case_decide; naive_solver.
Qed.

Lemma validate_bound iss sub b caller :
  Format iss sub = Some b ->
  (validateCallerBinding b false caller = None <-> exists c, caller = Some c /\ principal c iss sub).
Proof.
  intros Eb. assert (IsUnauthenticated b = false) as Hb.
  { apply bool_decide_eq_false. intros ->. by apply sentinel_not_bound in Eb. }
  unfold validateCallerBinding. cbn [andb]. destruct caller as [c|]; [|naive_solver].
  rewrite Hb. cbn [negb andb]. rewrite bool_decide_eq_false_2 by (by rewrite (proj2 (Parse_Some _ _ _) Eb)).
  destruct (extractBindingID (Some c)) as [e|b'] eqn:E.
  - split; [done|]. intros (c' & [= <-] & Hp).
    rewrite (proj2 (extractBindingID_inr c b)) in E by eauto. done.
  - apply extractBindingID_inr in E as (iss' & sub' & Hp & Eb'). case_decide as Hbb.
    + subst b'. destruct (Format_inj _ _ _ _ _ Eb Eb') as [<- <-]. naive_solver.
    + split; [done|]. intros (c' & [= <-] & Hi & Hs & _). destruct Hp as (Hi' & Hs' & _). naive_solver.
Qed.

Lemma BindSession_inr md creator md' d :
  BindSession md creator = inr (md', d) ->
  md' = <[MetadataKeyIdentityBinding := sbd_boundIdentity d]> md /\
  sbd_allowAnonymous d = ShouldAllowAnonymous creator /\
  (if ShouldAllowAnonymous creator then sbd_boundIdentity d = UnauthenticatedSentinel
   else exists c iss sub, creator = Some c /\ principal c iss sub /\
          Format iss sub = Some (sbd_boundIdentity d)).
Proof.
  unfold BindSession. destruct (ShouldAllowAnonymous creator) eqn:Ea; [naive_solver|].
  destruct (extractBindingID creator) as [e|b] eqn:E; [done|]. intros [= <- <-]. split_and!; [done..|].
  destruct creator as [c|]; [|done]. apply extractBindingID_inr in E as (iss & sub & ? & ?). naive_solver.
Qed.

(** C25. Sessions cannot be taken over.  A request on a session created by an
    authenticated identity is accepted exactly when the caller's token carries the
    same issuer and the same subject as the creator's; on a session created
    anonymously it is accepted exactly when the caller presents no token, so a
    session is never upgraded either. *)
Theorem session_hijack_prevented md creator md' d caller :
  BindSession md creator = inr (md', d) ->
  (validateCaller d caller = None <->
   if ShouldAllowAnonymous creator then ~ presents_token caller
   else exists o c iss sub, creator = Some o /\ principal o iss sub /\
          caller = Some c /\ principal c iss sub).
Proof.
  intros (-> & Ha & Hb)%BindSession_inr. unfold validateCaller. rewrite Ha.
  destruct (ShouldAllowAnonymous creator).
  - rewrite Hb. apply validate_anonymous.
  - destruct Hb as (o & iss & sub & -> & Ho & Hf). rewrite (validate_bound _ _ _ _ Hf). split; [naive_solver|].
    intros (o' & c & iss' & sub' & [= <-] & Ho' & Hc & Hp). exists c. split; [done|].
    destruct Ho as (Hi & Hs & _), Ho' as (Hi' & Hs' & _). naive_solver.
Qed.

Lemma bound_restored md creator md' d :
  BindSession md creator = inr (md', d) ->
  exists stored, md' !! MetadataKeyIdentityBinding = Some stored /\
    RestoreSessionBinding stored = Some d /\
    forall caller, ValidateCaller stored caller = validateCaller d caller.
Proof.
  intros (-> & Ha & Hb)%BindSession_inr. exists (sbd_boundIdentity d). split; [apply lookup_insert_eq|].
  unfold ValidateCaller, validateCaller, RestoreSessionBinding. destruct d as [b a]. simpl in *. subst a.
  destruct (ShouldAllowAnonymous creator).
  - subst b. split; [done|]. intros caller. done.
  - destruct Hb as (o & iss & sub & _ & _ & Hf).
    assert (IsUnauthenticated b = false) as ->.
    { apply bool_decide_eq_false. intros ->. by apply sentinel_not_bound in Hf. }
    apply Parse_Some in Hf. rewrite Hf. done.
Qed.

(** A binding survives storage: what is written into the metadata when a session
    is created restores the same decorator after a restart or on another replica, and
    the check on the stored text alone decides as the decorator does. *)
Theorem binding_survives_restore md creator md' d :
  BindSession md creator = inr (md', d) ->
  exists stored, md' !! MetadataKeyIdentityBinding = Some stored /\
    RestoreSessionBinding stored = Some d /\
    forall caller, ValidateCaller stored caller = validateCaller d caller.
Proof. apply bound_restored. Qed.

(** ** Witnesses *)
Definition sample_identity (token iss sub : string) : Identity := {|
  id_Subject := sub; id_PlatformUserID := sub; id_Name := ""; id_Email := ""; id_Groups := [];
  id_Claims := {["iss" := JStr iss; "sub" := JStr sub]}; id_DelegationChain := None;
  id_Token := token; id_TokenType := "Bearer"; id_Metadata := ∅;
  id_UpstreamTokens := None; id_UpstreamIDTokens := None |}.

Lemma session_hijack_prevented_witness :
  let alice := Some (sample_identity "t1" "https://idp" "alice") in
  let alice' := Some (sample_identity "t2" "https://idp" "alice") in
  let other := Some (sample_identity "t3" "https://other" "alice") in
  exists md' d, BindSession ∅ alice = inr (md', d) /\
    validateCaller d alice' = None /\ validateCaller d other = Some ErrUnauthorizedCaller.
Proof.
  intros alice alice' other. eexists _, _. split; [vm_compute; reflexivity|]. split.
  - apply (session_hijack_prevented ∅ alice _ _ alice' eq_refl). vm_compute ShouldAllowAnonymous.
    exists (sample_identity "t1" "https://idp" "alice"), (sample_identity "t2" "https://idp" "alice"),
      "https://idp", "alice". repeat split; try (vm_compute; reflexivity); by eexists.
  - vm_compute. reflexivity.
Defined.

Lemma binding_survives_restore_witness :
  let alice := Some (sample_identity "t1" "https://idp" "alice") in
  exists md' d stored, BindSession ∅ alice = inr (md', d) /\
    md' !! MetadataKeyIdentityBinding = Some stored /\ RestoreSessionBinding stored = Some d.
Proof.
  intros alice. eexists _, _.
  destruct (binding_survives_restore ∅ alice _ _ eq_refl) as (stored & H1 & H2 & _).
  exists stored. split; [reflexivity|]. split; assumption.
Defined.
