(* ===== verification/Router.v ===== *)
(** * Routing of requests ([pkg/vmcp/router/session_router.go])

    The router of a session resolves names against a routing table.  A nil table is
    [None]; a nil map behaves like an empty one.  URI templates are parsed and matched
    by the package [uritemplate]: [compile] is its [New], [None] on a parse error,
    and the function it returns is [Match].  [range] is the order in which the loop
    over the tools visits the map. *)

From Stdlib Require Import Ascii.
From stdpp Require Import sorting.
From S2P Require Import Prelude VmcpTypes GoStrings.

(** ** Tool references *)
Definition refers (workloadID capName : string) (entry : string * BackendTarget) : bool :=
  bool_decide (bt_WorkloadID entry.2 = workloadID) &&
  bool_decide (GetBackendCapabilityName entry.2 entry.1 = capName).

Definition ResolveToolRef (range : gmap string BackendTarget -> list (string * BackendTarget))
    (rt : option RoutingTable) (stepTool : string) : option string :=
  match rt with
  | None => None
  | Some rt =>
      if decide (stepTool = "") then None
      else match route_Tools rt !! stepTool with
      | Some _ => Some stepTool
      | None =>
          match Cut "." stepTool with
          | Some (workloadID, capName) =>
              if decide (workloadID = "") then None
              else match filter (fun e => refers workloadID capName e = true) (range (route_Tools rt)) with
                   | (resolvedName, _) :: _ => Some resolvedName
                   | [] => None
                   end
          | None => None
          end
      end
  end.

Inductive route_error := RouterToolNotFound | RouterResourceNotFound | RouterPromptNotFound.

(** ** The session router *)
Section router.
Context (compile : string -> option (string -> bool)).
Context (range : gmap string BackendTarget -> list (string * BackendTarget)).

Record compiledResourceTemplate := {
  ct_tmpl : string -> bool;
  ct_target : BackendTarget;
}.

Record sessionRouter := {
  sr_routingTable : option RoutingTable;
  sr_resourceTemplates : list compiledResourceTemplate;
}.

(** The keys sorted; templates that do not parse are dropped. *)
Definition compileResourceTemplates (rt : option RoutingTable) : list compiledResourceTemplate :=
  match rt with
  | None => []
  | Some rt =>
      omap (fun tmplStr =>
        match compile tmplStr, route_ResourceTemplates rt !! tmplStr with
        | Some tmpl, Some target => Some {| ct_tmpl := tmpl; ct_target := target |}
        | _, _ => None
        end)
        (merge_sort String.le (map_to_list (route_ResourceTemplates rt)).*1)
  end.

Definition NewSessionRouter (rt : option RoutingTable) : sessionRouter :=
  {| sr_routingTable := rt; sr_resourceTemplates := compileResourceTemplates rt |}.

Definition RouteTool (r : sessionRouter) (toolName : string) : route_error + BackendTarget :=
  match ResolveToolRef range (sr_routingTable r) toolName with
  | None => inl RouterToolNotFound
  | Some resolvedName =>
      match sr_routingTable r with
      | Some rt =>
          match route_Tools rt !! resolvedName with
          | Some target => inr target
          | None => inl RouterToolNotFound
          end
      | None => inl RouterToolNotFound
      end
  end.

Definition ResolveToolName (r : sessionRouter) (toolName : string) : string :=
  match ResolveToolRef range (sr_routingTable r) toolName with
  | Some n => n
  | None => toolName
  end.

Definition matchResourceTemplate (r : sessionRouter) (uri : string) : option BackendTarget :=
  match filter (fun t => ct_tmpl t uri = true) (sr_resourceTemplates r) with
  | t :: _ => Some (ct_target t)
  | [] => None
  end.

Definition RouteResource (r : sessionRouter) (uri : string) : route_error + BackendTarget :=
  match sr_routingTable r with
  | None => inl RouterResourceNotFound
  | Some rt =>
      match route_Resources rt !! uri with
      | Some target => inr target
      | None =>
          match route_ResourceTemplates rt !! uri with
          | Some target => inr target
          | None =>
              match matchResourceTemplate r uri with
              | Some target => inr target
              | None => inl RouterResourceNotFound
              end
          end
      end
  end.

Definition RoutePrompt (r : sessionRouter) (name : string) : route_error + BackendTarget :=
  match sr_routingTable r with
  | None => inl RouterPromptNotFound
  | Some rt =>
      match route_Prompts rt !! name with
      | Some target => inr target
      | None => inl RouterPromptNotFound
      end
  end.
End router.

(** ** Resolution of tool references *)

(** No two tools of the table are the same tool of the same backend. *)
Definition unambiguous (tools : gmap string BackendTarget) : Prop :=
  forall n1 t1 n2 t2, tools !! n1 = Some t1 -> tools !! n2 = Some t2 ->
    bt_WorkloadID t1 = bt_WorkloadID t2 ->
    GetBackendCapabilityName t1 n1 = GetBackendCapabilityName t2 n2 -> n1 = n2.

(** What a reference means: a name of the table, or the backend's identifier and the
    backend's name of a tool, joined by a dot. *)
Definition denotes (tools : gmap string BackendTarget) (ref n : string) : Prop :=
  ref <> "" /\
  match tools !! ref with
  | Some _ => n = ref
  | None => exists w cap t, ref = w +:+ String "." cap /\ no_char "." w /\ w <> "" /\
      tools !! n = Some t /\ bt_WorkloadID t = w /\ GetBackendCapabilityName t n = cap
  end.

Lemma refers_true w cap n t :
  refers w cap (n, t) = true <-> bt_WorkloadID t = w /\ GetBackendCapabilityName t n = cap.
Proof. unfold refers. simpl. rewrite andb_true_iff, !bool_decide_eq_true. done. Qed.

Lemma ResolveToolRef_sound range rt ref n :
  (forall m, range m ≡ₚ map_to_list m) ->
  ResolveToolRef range (Some rt) ref = Some n -> denotes (route_Tools rt) ref n.
Proof.
  intros Hr. unfold ResolveToolRef, denotes. case_decide as He; [done|].
  destruct (route_Tools rt !! ref) as [t|] eqn:E; [naive_solver|].
  destruct (Cut "." ref) as [[w cap]|] eqn:Ec; [|done]. apply Cut_Some in Ec as [-> Hw].
  case_decide as Hw0; [done|]. intros H. split; [done|].
  destruct (filter _ _) as [|[m t] l] eqn:Ef; simplify_eq.
  assert ((n, t) ∈ filter (fun e => refers w cap e = true) (range (route_Tools rt))) as Hin.
  { rewrite Ef. left. }
  apply list_elem_of_filter in Hin as [[Hid Hcap]%refers_true Hin].
  rewrite Hr, elem_of_map_to_list in Hin. naive_solver.
Qed.

Lemma ResolveToolRef_complete range rt ref n :
  (forall m, range m ≡ₚ map_to_list m) ->
  denotes (route_Tools rt) ref n -> is_Some (ResolveToolRef range (Some rt) ref).
Proof.
  intros Hr [He Hd]. unfold ResolveToolRef. rewrite decide_False by done.
  destruct (route_Tools rt !! ref) as [t|] eqn:E; [eauto|].
  destruct Hd as (w & cap & t & -> & Hw & Hw0 & Ht & Hid & Hcap).
  rewrite (proj2 (Cut_Some "." _ w cap)) by done. rewrite decide_False by done.
  destruct (filter _ _) as [|[m t'] l] eqn:Ef; [|eauto].
  assert ((n, t) ∈ filter (fun e => refers w cap e = true) (range (route_Tools rt))) as Hin.
  { apply list_elem_of_filter. rewrite refers_true, Hr, elem_of_map_to_list. done. }
  rewrite Ef in Hin. by apply elem_of_nil in Hin.
Qed.

Lemma denotes_unique tools ref n n' :
  unambiguous tools -> denotes tools ref n -> denotes tools ref n' -> n = n'.
Proof.
  intros Hu [_ H1] [_ H2]. destruct (tools !! ref); [congruence|].
  destruct H1 as (w & cap & t & E & Hw & _ & Ht & Hid & Hcap), H2 as (w' & cap' & t' & E' & Hw' & _ & Ht' & Hid' & Hcap').
  rewrite E in E'. apply split_at_char in E' as [<- <-]; [|done..]. apply (Hu n t n' t'); congruence.
Qed.

(** A reference to a tool is resolved exactly when it names a tool of the routing
    table, by its name or as backend and original name joined by a dot, and then to
    that tool.  In a table without duplicates the result does not depend on the order
    in which the map is visited. *)
Theorem tool_reference_resolution range rt ref :
  (forall m, range m ≡ₚ map_to_list m) -> unambiguous (route_Tools rt) ->
  forall n, ResolveToolRef range (Some rt) ref = Some n <-> denotes (route_Tools rt) ref n.
Proof.
  intros Hr Hu n. split; [by apply ResolveToolRef_sound|]. intros Hd.
  destruct (ResolveToolRef_complete range rt ref n Hr Hd) as [n' E].
  rewrite E. f_equal. eapply denotes_unique; [done| |done]. by eapply ResolveToolRef_sound.
Qed.

(** A name of the table routes to its target. *)
Lemma denotes_routed tools ref n : denotes tools ref n -> is_Some (tools !! n).
Proof. intros [_ Hd]. destruct (tools !! ref) eqn:E; [subst|]; naive_solver. Qed.

Lemma RouteTool_key compile range rt n t :
  n <> "" -> route_Tools rt !! n = Some t ->
  RouteTool range (NewSessionRouter compile (Some rt)) n = inr t.
Proof. intros Hn E. unfold RouteTool. cbn. rewrite decide_False by done. by rewrite E, E. Qed.

Lemma RouteTool_inr compile range rt ref t :
  (forall m, range m ≡ₚ map_to_list m) ->
  RouteTool range (NewSessionRouter compile (Some rt)) ref = inr t ->
  exists n, denotes (route_Tools rt) ref n /\ route_Tools rt !! n = Some t.
Proof.
  intros Hr. unfold RouteTool. cbn [NewSessionRouter sr_routingTable].
  destruct (ResolveToolRef range (Some rt) ref) as [n|] eqn:E; [|done].
  apply ResolveToolRef_sound in E; [|done]. destruct (route_Tools rt !! n) eqn:En; [|done]. naive_solver.
Qed.

(** ** Routing of resources *)

(** Template [k] comes first among the templates that match. *)
Definition first_match (compile : string -> option (string -> bool))
    (templates : gmap string BackendTarget) (uri k : string) (t : BackendTarget) : Prop :=
  templates !! k = Some t /\ (exists f, compile k = Some f /\ f uri = true) /\
  forall k' f, is_Some (templates !! k') -> compile k' = Some f -> f uri = true -> String.le k k'.

Lemma omap_filter_first {A B} (f : A -> option B) (P : B -> bool) (l : list A) y ys :
  filter (fun b => P b = true) (omap f l) = y :: ys ->
  exists l1 x l2, l = l1 ++ x :: l2 /\ f x = Some y /\ P y = true /\
    forall z w, z ∈ l1 -> f z = Some w -> P w = false.
Proof.
  induction l as [|a l IH]; [done|].
  rewrite omap_cons_eq. destruct (f a) as [b|] eqn:Ea.
  - rewrite filter_cons. case_decide as Hb.
    + intros [= <- _]. exists [], a, l. split_and!; try done. intros z w Hz. by apply elem_of_nil in Hz.
    + intros (l1 & x & l2 & -> & Hx & Hy & Hl)%IH. exists (a :: l1), x, l2. split_and!; try done.
      intros z w [->|Hz]%elem_of_cons Hf; [|by eapply Hl]. rewrite Ea in Hf. simplify_eq.
      by apply not_true_is_false.
  - intros (l1 & x & l2 & -> & Hx & Hy & Hl)%IH. exists (a :: l1), x, l2. split_and!; try done.
    intros z w [->|Hz]%elem_of_cons Hf; [congruence|by eapply Hl].
Qed.

Lemma sorted_templates_le (l : list string) l1 x l2 y :
  merge_sort String.le l = l1 ++ x :: l2 -> y ∈ x :: l2 -> String.le x y.
Proof.
  intros E Hy. assert (StronglySorted String.le (l1 ++ x :: l2)) as Hs.
  { rewrite <- E. apply Sorted_StronglySorted; [apply _|]. apply Sorted_merge_sort, _. }
  clear E. induction l1 as [|z l1 IH]; simpl in Hs; apply StronglySorted_inv in Hs as [Hs Hall]; [|by apply IH].
  apply elem_of_cons in Hy as [->|Hy]; [reflexivity|]. rewrite Forall_forall in Hall. by apply Hall.
Qed.

Lemma matchResourceTemplate_spec compile rt uri t :
  matchResourceTemplate (NewSessionRouter compile (Some rt)) uri = Some t ->
  exists k, first_match compile (route_ResourceTemplates rt) uri k t.
Proof.
  unfold matchResourceTemplate. cbn [NewSessionRouter sr_resourceTemplates compileResourceTemplates].
  destruct (filter _ _) as [|c cs] eqn:E; [done|]. intros [= <-].
  apply (omap_filter_first _ (fun c => ct_tmpl c uri)) in E as (l1 & k & l2 & El & Hk & Hc & Hl).
  destruct (compile k) as [f|] eqn:Ek; [|done].
  destruct (route_ResourceTemplates rt !! k) as [t|] eqn:Et; [|done]. simplify_eq. simpl in *.
  exists k. split; [done|]. split; [eauto|]. intros k' f' [t' Ht'] Hk' Hf'.
  assert (k' ∈ l1 ++ k :: l2) as Hin.
  { rewrite <- El, merge_sort_Permutation. apply list_elem_of_fmap. exists (k', t').
    by rewrite elem_of_map_to_list. }
  apply elem_of_app in Hin as [Hin|Hin]; [|by eapply sorted_templates_le].
  specialize (Hl k' {| ct_tmpl := f'; ct_target := t' |} Hin). rewrite Hk', Ht' in Hl. simpl in Hl.
  rewrite Hl in Hf' by done. done.
Qed.

Lemma matchResourceTemplate_None compile rt uri :
  matchResourceTemplate (NewSessionRouter compile (Some rt)) uri = None ->
  forall k f, is_Some (route_ResourceTemplates rt !! k) -> compile k = Some f -> f uri = false.
Proof.
  unfold matchResourceTemplate. cbn [NewSessionRouter sr_resourceTemplates compileResourceTemplates].
  destruct (filter _ _) as [|c cs] eqn:E; [|done]. intros _ k f [t Ht] Hf.
  destruct (f uri) eqn:Eu; [|done]. exfalso.
  apply (not_elem_of_nil {| ct_tmpl := f; ct_target := t |}). rewrite <- E.
  apply list_elem_of_filter. split; [done|]. apply list_elem_of_omap. exists k. rewrite Hf, Ht. split; [|done].
  rewrite merge_sort_Permutation. apply list_elem_of_fmap. exists (k, t). by rewrite elem_of_map_to_list.
Qed.

(** A resource is routed to the backend that lists it; a URI that is itself a
    template, to the owner of the template; any other URI, to the owner of the first
    template, in the order of their text, that matches it; and it is not found only
    when no template matches either. *)
Theorem resource_routing compile rt uri :
  match RouteResource (NewSessionRouter compile (Some rt)) uri with
  | inr t =>
      route_Resources rt !! uri = Some t \/
      (route_Resources rt !! uri = None /\ route_ResourceTemplates rt !! uri = Some t) \/
      (route_Resources rt !! uri = None /\ route_ResourceTemplates rt !! uri = None /\
       exists k, first_match compile (route_ResourceTemplates rt) uri k t)
  | inl err =>
      err = RouterResourceNotFound /\
      route_Resources rt !! uri = None /\ route_ResourceTemplates rt !! uri = None /\
      forall k f, is_Some (route_ResourceTemplates rt !! k) -> compile k = Some f -> f uri = false
  end.
Proof.
  unfold RouteResource. cbn [NewSessionRouter sr_routingTable].
  destruct (route_Resources rt !! uri) as [t|] eqn:E1; [by left|].
  destruct (route_ResourceTemplates rt !! uri) as [t|] eqn:E2; [by right; left|].
  destruct (matchResourceTemplate _ uri) as [t|] eqn:E3.
  - right. right. split_and!; [done..|]. by apply matchResourceTemplate_spec.
  - split_and!; [done..|]. by apply matchResourceTemplate_None.
Qed.

(** ** Witness *)
Definition sample_target (id original : string) : BackendTarget := {|
  bt_WorkloadID := id; bt_WorkloadName := id; bt_BaseURL := ""; bt_TransportType := "";
  bt_CABundlePath := ""; bt_CABundleData := ""; bt_OriginalCapabilityName := original;
  bt_AuthConfig := None; bt_SessionAffinity := false; bt_HealthStatus := None;
  bt_HeaderForward := None; bt_Metadata := ∅ |}.

Definition sample_routes : RoutingTable := {|
  route_Tools := {["b1_echo" := sample_target "b1" "echo"; "b2_echo" := sample_target "b2" "echo"]};
  route_Resources := ∅; route_ResourceTemplates := ∅; route_Prompts := ∅ |}.

Lemma sample_routes_unambiguous : unambiguous (route_Tools sample_routes).
Proof.
  intros n1 t1 n2 t2 H1 H2 Hid _. cbn in H1, H2.
  apply lookup_insert_Some in H1 as [[<- <-]|[? H1]], H2 as [[<- <-]|[? H2]]; [done|..];
    repeat match goal with H : {[_ := _]} !! _ = Some _ |- _ => apply lookup_singleton_Some in H as [<- <-] end; done.
Qed.

Lemma tool_reference_resolution_witness :
  ResolveToolRef map_to_list (Some sample_routes) "b2.echo" = Some "b2_echo" /\
  denotes (route_Tools sample_routes) "b2.echo" "b2_echo".
Proof.
  assert (ResolveToolRef map_to_list (Some sample_routes) "b2.echo" = Some "b2_echo") as E by (vm_compute; reflexivity).
  split; [exact E|]. by apply (tool_reference_resolution map_to_list sample_routes "b2.echo" (fun m => reflexivity _)
    sample_routes_unambiguous "b2_echo").
Defined.
