(* ===== verification/CompositeTools.v ===== *)
(** * Composite tools as tools
    ([pkg/vmcp/internal/compositetools/annotations.go] and [workflow_converter.go],
    [pkg/vmcp/config/annotations.go])

    Which workflows a session can run, under which annotations they are advertised,
    and the schemas shown for them.  A pointer to a boolean is an option.  The order in
    which a loop visits a map of definitions is [defs_range].  Warnings are left out. *)

From S2P Require Import Prelude VmcpTypes AggregatorTypes WorkflowTypes GoStrings Router.

(** ** Annotations *)
Definition ToAnnotations (o : option ToolAnnotationsOverride) : option ToolAnnotations :=
  match o with
  | None => None
  | Some o => Some {|
      ann_Title := default "" (ao_Title o);
      ann_ReadOnlyHint := ao_ReadOnlyHint o;
      ann_DestructiveHint := ao_DestructiveHint o;
      ann_IdempotentHint := ao_IdempotentHint o;
      ann_OpenWorldHint := ao_OpenWorldHint o |}
  end.

(** The three hints of the floor while the steps are visited. *)
Record hints := { h_readOnly : bool; h_destructive : bool; h_openWorld : bool }.

(** A hint that is missing or has the given value. *)
Definition hint_is (hint : option bool) (b : bool) : bool :=
  match hint with None => true | Some v => eqb v b end.

Definition derive_step (h : hints) (ann : option ToolAnnotations) : hints :=
  match ann with
  | None => {| h_readOnly := false; h_destructive := true; h_openWorld := true |}
  | Some a => {|
      h_readOnly := if hint_is (ann_ReadOnlyHint a) false then false else h_readOnly h;
      h_destructive := if hint_is (ann_DestructiveHint a) true then true else h_destructive h;
      h_openWorld := if hint_is (ann_OpenWorldHint a) true then true else h_openWorld h |}
  end.

Definition DeriveCompositeAnnotations (stepAnn : list (option ToolAnnotations)) : option ToolAnnotations :=
  match stepAnn with
  | [] => None
  | _ =>
      let h := foldl derive_step {| h_readOnly := true; h_destructive := false; h_openWorld := false |} stepAnn in
      Some {| ann_Title := "";
              ann_ReadOnlyHint := Some (h_readOnly h);
              ann_DestructiveHint := Some (h_destructive h);
              ann_IdempotentHint := None;
              ann_OpenWorldHint := Some (h_openWorld h) |}
  end.

Inductive contradiction := ClaimsReadOnly | ClaimsNonDestructive | ClaimsClosedWorld.

(** [None] is no contradiction. *)
Definition CheckAnnotationContradiction (explicit floor : option ToolAnnotations) : option contradiction :=
  match explicit, floor with
  | Some e, Some f =>
      if decide (ann_ReadOnlyHint e = Some true /\ ann_ReadOnlyHint f <> Some true)
      then Some ClaimsReadOnly
      else if decide (ann_DestructiveHint e = Some false /\ ann_DestructiveHint f = Some true)
      then Some ClaimsNonDestructive
      else if decide (ann_OpenWorldHint e = Some false /\ ann_OpenWorldHint f = Some true)
      then Some ClaimsClosedWorld
      else None
  | _, _ => None
  end.

(** [copyBoolPtr]: the source wins over the destination unless it is nil. *)
Definition copyBoolPtr (dst src : option bool) : option bool :=
  match src with None => dst | Some v => Some v end.

Definition no_annotations : ToolAnnotations := {|
  ann_Title := ""; ann_ReadOnlyHint := None; ann_DestructiveHint := None;
  ann_IdempotentHint := None; ann_OpenWorldHint := None |}.

Definition merge_over (title : string) (dst src : ToolAnnotations) : ToolAnnotations := {|
  ann_Title := title;
  ann_ReadOnlyHint := copyBoolPtr (ann_ReadOnlyHint dst) (ann_ReadOnlyHint src);
  ann_DestructiveHint := copyBoolPtr (ann_DestructiveHint dst) (ann_DestructiveHint src);
  ann_IdempotentHint := copyBoolPtr (ann_IdempotentHint dst) (ann_IdempotentHint src);
  ann_OpenWorldHint := copyBoolPtr (ann_OpenWorldHint dst) (ann_OpenWorldHint src) |}.

Definition MergeAnnotations (floor explicit : option ToolAnnotations) : option ToolAnnotations :=
  match floor, explicit with
  | None, None => None
  | _, _ =>
      let merged := match floor with
        | Some f => merge_over (ann_Title f) no_annotations f
        | None => no_annotations
        end in
      Some match explicit with
        | Some e => merge_over (if decide (ann_Title e <> "") then ann_Title e else ann_Title merged) merged e
        | None => merged
        end
  end.

(** ** The steps of a workflow *)

(** The references of the tool steps, those inside [forEach] steps included. *)
Definition step_refs (step : WorkflowStep) : list string :=
  (if decide (ws_Type step = StepTypeTool) then [ws_Tool step] else []) ++
  (if decide (ws_Type step = StepTypeForEach) then
     match ws_InnerStep step with
     | Some inner => if decide (ws_Type inner = StepTypeTool) then [ws_Tool inner] else []
     | None => []
     end
   else []).

Definition tool_refs (def : WorkflowDefinition) : list string := wd_Steps def ≫= step_refs.

(** The annotations of the tool steps with their references; [None] is a nil resolver. *)
Definition resolveStepAnnotations (def : WorkflowDefinition)
    (stepResolver : option (string -> option ToolAnnotations))
    : list (option ToolAnnotations) * list string :=
  ((fun ref => match stepResolver with Some f => f ref | None => None end) <$> tool_refs def,
   tool_refs def).

(** [None] is the result [ok=false]. *)
Definition resolveCompositeAnnotations (def : WorkflowDefinition)
    (stepResolver : option (string -> option ToolAnnotations)) : option (option ToolAnnotations) :=
  match stepResolver, wd_Annotations def with
  | None, None => Some None
  | _, _ =>
      let '(stepAnn, _) := resolveStepAnnotations def stepResolver in
      let floor := DeriveCompositeAnnotations stepAnn in
      let explicit := ToAnnotations (wd_Annotations def) in
      match CheckAnnotationContradiction explicit floor with
      | Some _ => None
      | None => Some (MergeAnnotations floor explicit)
      end
  end.

(** ** Filtering the definitions *)
Section composite.
Context (range : gmap string BackendTarget -> list (string * BackendTarget)).
Context (defs_range : gmap string WorkflowDefinition -> list (string * WorkflowDefinition)).

Definition isToolStepAccessible (stepTool : string) (rt : option RoutingTable) : bool :=
  bool_decide (is_Some (ResolveToolRef range rt stepTool)).

Definition allToolStepsAccessible (def : WorkflowDefinition) (rt : option RoutingTable) : bool :=
  forallb (fun ref => isToolStepAccessible ref rt) (tool_refs def).

Definition FilterWorkflowDefsForSession (defs : gmap string WorkflowDefinition) (rt : option RoutingTable)
    : gmap string WorkflowDefinition :=
  filter (fun kd => allToolStepsAccessible kd.2 rt = true) defs.

Definition FilterWorkflowDefsByAnnotations (defs : gmap string WorkflowDefinition)
    (stepResolver : option (string -> option ToolAnnotations)) : gmap string WorkflowDefinition :=
  filter (fun kd => is_Some (resolveCompositeAnnotations kd.2 stepResolver)) defs.

Definition CompositeToolNames (defs : gmap string WorkflowDefinition) : list string := (defs_range defs).*1.

(** The conflicting names; none is success. *)
Definition ValidateNoToolConflicts (backendTools : list Tool) (compositeNames : list string) : list string :=
  filter (fun name => name ∈ tool_Name <$> backendTools) compositeNames.

(** ** Schemas *)
Fixpoint buildOutputPropertySchema (prop : OutputProperty) : json :=
  let nested := (fix go (l : list (string * OutputProperty)) : list (string * json) :=
    match l with
    | [] => []
    | (nestedName, nestedProp) :: l => (nestedName, buildOutputPropertySchema nestedProp) :: go l
    end) (op_Properties prop) in
  JObj ([("type", JStr (op_Type prop)); ("description", JStr (op_Description prop))] ++
        if bool_decide (op_Type prop = "object") && bool_decide (op_Properties prop <> [])
        then [("properties", JObj nested)] else []).

Definition buildOutputSchema (output : OutputConfig) : json :=
  JObj ([("type", JStr "object");
         ("properties", JObj (prod_map id buildOutputPropertySchema <$> oc_Properties output))] ++
        if decide (0 < length (oc_Required output)) then [("required", JArr (JStr <$> oc_Required output))] else []).

(** A nil map is the JSON null. *)
Definition workflow_tool (def : WorkflowDefinition) (ann : option ToolAnnotations) : Tool := {|
  tool_Name := wd_Name def;
  tool_Description := wd_Description def;
  tool_InputSchema := JObj (map_to_list (wd_Parameters def));
  tool_OutputSchema := match wd_Output def with Some o => buildOutputSchema o | None => JNull end;
  tool_Annotations := ann;
  tool_BackendID := "";
|}.

Definition ConvertWorkflowDefsToTools (defs : gmap string WorkflowDefinition)
    (stepResolver : option (string -> option ToolAnnotations)) : list Tool :=
  omap (fun kd => match resolveCompositeAnnotations kd.2 stepResolver with
                  | Some ann => Some (workflow_tool kd.2 ann)
                  | None => None
                  end) (defs_range defs).
End composite.

(** ** The floor *)
Lemma derive_readOnly l h :
  h_readOnly (foldl derive_step h l) = true <->
  h_readOnly h = true /\ forall a, a ∈ l -> exists x, a = Some x /\ ann_ReadOnlyHint x = Some true.
Proof.
  revert h. induction l as [|a l IH]; intros h; cbn [foldl]; [set_solver|]. rewrite IH.
  setoid_rewrite elem_of_cons. destruct a as [[t [[]|] d i o]|]; cbn; naive_solver.
Qed.

Lemma derive_destructive l h :
  h_destructive (foldl derive_step h l) = false <->
  h_destructive h = false /\ forall a, a ∈ l -> exists x, a = Some x /\ ann_DestructiveHint x = Some false.
Proof.
  revert h. induction l as [|a l IH]; intros h; cbn [foldl]; [set_solver|]. rewrite IH.
  setoid_rewrite elem_of_cons. destruct a as [[t r [[]|] i o]|]; cbn; naive_solver.
Qed.

Lemma derive_openWorld l h :
  h_openWorld (foldl derive_step h l) = false <->
  h_openWorld h = false /\ forall a, a ∈ l -> exists x, a = Some x /\ ann_OpenWorldHint x = Some false.
Proof.
  revert h. induction l as [|a l IH]; intros h; cbn [foldl]; [set_solver|]. rewrite IH.
  setoid_rewrite elem_of_cons. destruct a as [[t r d i [[]|]]|]; cbn; naive_solver.
Qed.

(** What the annotations of a step allow the composite tool to claim. *)
Definition allows_readOnly (ann : option ToolAnnotations) : Prop :=
  exists a, ann = Some a /\ ann_ReadOnlyHint a = Some true.
Definition allows_nonDestructive (ann : option ToolAnnotations) : Prop :=
  exists a, ann = Some a /\ ann_DestructiveHint a = Some false.
Definition allows_closedWorld (ann : option ToolAnnotations) : Prop :=
  exists a, ann = Some a /\ ann_OpenWorldHint a = Some false.

Lemma Derive_spec l f :
  DeriveCompositeAnnotations l = Some f ->
  (exists r d o, ann_ReadOnlyHint f = Some r /\ ann_DestructiveHint f = Some d /\ ann_OpenWorldHint f = Some o) /\
  (ann_ReadOnlyHint f = Some true <-> forall a, a ∈ l -> allows_readOnly a) /\
  (ann_DestructiveHint f = Some false <-> forall a, a ∈ l -> allows_nonDestructive a) /\
  (ann_OpenWorldHint f = Some false <-> forall a, a ∈ l -> allows_closedWorld a).
Proof.
  destruct l as [|x l]; [done|]. intros [= <-]. cbn [ann_ReadOnlyHint ann_DestructiveHint ann_OpenWorldHint].
  set (h0 := {| h_readOnly := true; h_destructive := false; h_openWorld := false |}).
  pose proof (derive_readOnly (x :: l) h0) as Hr. pose proof (derive_destructive (x :: l) h0) as Hd.
  pose proof (derive_openWorld (x :: l) h0) as Ho. cbn [foldl] in *.
  rewrite !(inj_iff Some), Hr, Hd, Ho. unfold allows_readOnly, allows_nonDestructive, allows_closedWorld.
  split; [eauto 10|]. split_and!; (split; [by intros [_ ?]|done]).
Qed.

Lemma no_contradiction e f :
  CheckAnnotationContradiction (Some e) (Some f) = None <->
  (ann_ReadOnlyHint e = Some true -> ann_ReadOnlyHint f = Some true) /\
  (ann_DestructiveHint e = Some false -> ann_DestructiveHint f <> Some true) /\
  (ann_OpenWorldHint e = Some false -> ann_OpenWorldHint f <> Some true).
Proof.
  cbn. destruct (decide (ann_ReadOnlyHint f = Some true)) as [Hf|Hf];
    repeat case_decide; split; (done || tauto).
Qed.

Lemma copyBoolPtr_Some dst src v : copyBoolPtr dst src = Some v -> src = Some v \/ (src = None /\ dst = Some v).
Proof. destruct src; naive_solver. Qed.

Lemma copyBoolPtr_nil src : copyBoolPtr None src = src.
Proof. by destruct src. Qed.

Lemma tool_refs_nil (resolver : string -> option ToolAnnotations) def :
  DeriveCompositeAnnotations (resolver <$> tool_refs def) = None -> tool_refs def = [].
Proof. by destruct (tool_refs def). Qed.

(** The explicit annotations do not claim more than the steps allow. *)
Definition claims_allowed (resolver : string -> option ToolAnnotations) (def : WorkflowDefinition)
    (e : ToolAnnotations) : Prop :=
  forall ref, ref ∈ tool_refs def ->
    (ann_ReadOnlyHint e = Some true -> allows_readOnly (resolver ref)) /\
    (ann_DestructiveHint e = Some false -> allows_nonDestructive (resolver ref)) /\
    (ann_OpenWorldHint e = Some false -> allows_closedWorld (resolver ref)).

Lemma check_claims resolver def e f :
  DeriveCompositeAnnotations (resolver <$> tool_refs def) = Some f ->
  (CheckAnnotationContradiction (Some e) (Some f) = None <-> claims_allowed resolver def e).
Proof.
  intros ((r & d & o & Er & Ed & Eo) & Hr & Hd & Ho)%Derive_spec. rewrite no_contradiction.
  rewrite Ed in *. rewrite Eo in *. unfold claims_allowed.
  assert (forall P : option ToolAnnotations -> Prop,
    (forall a, a ∈ resolver <$> tool_refs def -> P a) <-> (forall ref, ref ∈ tool_refs def -> P (resolver ref))) as HP.
  { intros P. split; [intros H ref Hin; apply H, list_elem_of_fmap; eauto|].
    intros H a (ref & -> & Hin)%list_elem_of_fmap. by apply H. }
  rewrite HP in Hr, Hd, Ho. destruct d, o; naive_solver.
Qed.

Lemma resolve_spec resolver def :
  match resolveCompositeAnnotations def (Some resolver) with
  | None => exists e, ToAnnotations (wd_Annotations def) = Some e /\ ~ claims_allowed resolver def e
  | Some None => tool_refs def = []
  | Some (Some ann) => claims_allowed resolver def ann /\
      (tool_refs def <> [] -> exists r d o, ann_ReadOnlyHint ann = Some r /\
         ann_DestructiveHint ann = Some d /\ ann_OpenWorldHint ann = Some o)
  end.
Proof.
  unfold resolveCompositeAnnotations, resolveStepAnnotations.
  destruct (DeriveCompositeAnnotations (resolver <$> tool_refs def)) as [f|] eqn:Ef.
  - pose proof (Derive_spec _ _ Ef) as ((r & d & o & Er & Ed & Eo) & _).
    assert (claims_allowed resolver def f) as Hf.
    { apply (check_claims _ _ f f Ef), no_contradiction. naive_solver. }
    destruct (ToAnnotations (wd_Annotations def)) as [e|].
    + destruct (CheckAnnotationContradiction (Some e) (Some f)) as [c|] eqn:Ec.
      { exists e. split; [done|]. rewrite <- (check_claims _ _ e f Ef), Ec. done. }
      apply (check_claims _ _ e f Ef) in Ec. cbn [MergeAnnotations]. split.
      * intros ref Hin. destruct (Hf ref Hin) as (F1 & F2 & F3), (Ec ref Hin) as (E1 & E2 & E3).
        cbn. rewrite !copyBoolPtr_nil. split_and!; intros [H|[_ H]]%copyBoolPtr_Some; auto.
      * intros _. cbn. rewrite !copyBoolPtr_nil, Er, Ed, Eo. destruct (ann_ReadOnlyHint e), (ann_DestructiveHint e), (ann_OpenWorldHint e);
          cbn; eauto 10.
    + cbn [MergeAnnotations]. split.
      * intros ref Hin. cbn. rewrite !copyBoolPtr_nil. by apply Hf.
      * intros _. cbn. rewrite !copyBoolPtr_nil. eauto 10.
  - apply tool_refs_nil in Ef. destruct (ToAnnotations (wd_Annotations def)) as [e|]; cbn; [|done].
    unfold claims_allowed. rewrite Ef. split; [set_solver|done].
Qed.

(** A composite tool never looks safer than its steps.  When it is advertised as
    read-only, as not destructive or as closed-world, each tool it calls declares the
    same, and with at least one tool step all three hints are stated; it is withheld
    exactly when its author's annotations claim more than some step allows. *)
Theorem composite_never_looks_safer resolver def :
  (forall ann, resolveCompositeAnnotations def (Some resolver) = Some (Some ann) ->
     claims_allowed resolver def ann /\
     (tool_refs def <> [] -> exists r d o, ann_ReadOnlyHint ann = Some r /\
        ann_DestructiveHint ann = Some d /\ ann_OpenWorldHint ann = Some o)) /\
  (resolveCompositeAnnotations def (Some resolver) = None <->
   exists e, ToAnnotations (wd_Annotations def) = Some e /\ ~ claims_allowed resolver def e).
Proof.
  pose proof (resolve_spec resolver def) as H. split.
  - intros ann E. by rewrite E in H.
  - split; [intros E; by rewrite E in H|]. intros (e & Ee & Hn).
    unfold resolveCompositeAnnotations, resolveStepAnnotations in *. rewrite Ee in *.
    destruct (DeriveCompositeAnnotations _) as [f|] eqn:Ef.
    + rewrite <- (check_claims _ _ e f Ef) in Hn.
      by destruct (CheckAnnotationContradiction (Some e) (Some f)).
    + destruct Hn. intros ref. rewrite (tool_refs_nil _ _ Ef). set_solver.
Qed.

(** ** Accessibility *)
Lemma accessible_iff range def rt :
  allToolStepsAccessible range def rt = true <->
  forall ref, ref ∈ tool_refs def -> is_Some (ResolveToolRef range rt ref).
Proof.
  unfold allToolStepsAccessible, isToolStepAccessible. rewrite forallb_forall.
  setoid_rewrite bool_decide_eq_true. setoid_rewrite <- list_elem_of_In. done.
Qed.
