(* ===== verification/ParamHeaders.v ===== *)
(** * Tool parameters mirrored into HTTP headers ([pkg/mcp/xmcpheader.go])

    A backend can mark parameters of a tool whose values it also wants as headers.
    This file models the walk over a tool's schema that collects the marks, and the
    rendering of a call's arguments.  A schema comes from a backend and the arguments
    from a caller; neither is trusted.

    The walk is bounded by [maxSchemaDepth], so the number of levels left is what the
    recursion decreases, and reaching zero is the code's own error.  Strings are
    bytes; the control characters the code looks for are single bytes in UTF-8. *)

From Stdlib Require Import Ascii.
From S2P Require Import Prelude VmcpTypes GoStrings.

Definition XMCPHeaderAnnotation : string := "x-mcp-header".
Definition ParamHeaderPrefix : string := "Mcp-Param-".
Definition maxSchemaDepth : nat := 64.
Definition maxSafeInteger : Z := 2 ^ 53 - 1.

Record ParamHeader := {
  ph_Path : list string;
  ph_Name : string;
  ph_Type : string;
}.

Definition HeaderName (p : ParamHeader) : string := ParamHeaderPrefix +:+ ph_Name p.

Inductive param_error :=
  | ErrSchemaTooDeep
  | AnnotationNotString (where_ : string)
  | AnnotationEmpty (where_ : string)
  | AnnotationNotToken (where_ : string)
  | AnnotationCollides (where_ first : string)
  | AnnotationUntyped (where_ : string)
  | AnnotationBadType (where_ declared : string)
  | ErrUnmirrorableValue (where_ : string).

(** ** Characters *)
Definition in_range (lo hi c : ascii) : bool :=
  (nat_of_ascii lo <=? nat_of_ascii c) && (nat_of_ascii c <=? nat_of_ascii hi).

Definition isTokenChar (c : ascii) : bool :=
  in_range "a" "z" c || in_range "A" "Z" c || in_range "0" "9" c ||
  bool_decide (c ∈ ["!"; "#"; "$"; "%"; "&"; "'"; "*"; "+"; "-"; "."; "^"; "_"; "`"; "|"; "~"]%char).

Fixpoint all_chars (P : ascii -> bool) (s : string) : bool :=
  match s with
  | EmptyString => true
  | String c s => P c && all_chars P s
  end.

(** [firstNonTokenChar] and [firstControlChar] find nothing. *)
Definition is_token (s : string) : bool := all_chars isTokenChar s.

Definition is_control (c : ascii) : bool :=
  (nat_of_ascii c <? 32) || (nat_of_ascii c =? 127).

Definition no_control (s : string) : bool := all_chars (fun c => negb (is_control c)) s.

(** ** Collecting the annotations *)
Definition fields := list (string * json).

Definition get (key : string) (node : fields) : option json :=
  match filter (fun kv => kv.1 = key) node with
  | (_, v) :: _ => Some v
  | [] => None
  end.

(** The names already claimed, with the path that claimed them, and what was found. *)
Record walk_state := {
  wk_seen : gmap string string;
  wk_found : list ParamHeader;
}.

Definition parseAnnotation (raw : json) (node : fields) (path : list string) (st : walk_state)
    : param_error + walk_state :=
  let where_ := Join "." path in
  match raw with
  | JStr name =>
      if decide (name = "") then inl (AnnotationEmpty where_)
      else if negb (is_token name) then inl (AnnotationNotToken where_)
      else
        let folded := ToLower name in
        match wk_seen st !! folded with
        | Some first => inl (AnnotationCollides where_ first)
        | None =>
            match get "type" node with
            | Some (JStr declared) =>
                if decide (declared = "string" \/ declared = "integer" \/ declared = "boolean")
                then inr {| wk_seen := <[folded := where_]> (wk_seen st);
                            wk_found := wk_found st ++
                              [{| ph_Path := path; ph_Name := name; ph_Type := declared |}] |}
                else inl (AnnotationBadType where_ declared)
            | _ => inl (AnnotationUntyped where_)
            end
        end
  | _ => inl (AnnotationNotString where_)
  end.

(** A loop that stops at the first error. *)
Fixpoint each {A} (f : A -> walk_state -> param_error + walk_state) (l : list A) (st : walk_state)
    : param_error + walk_state :=
  match l with
  | [] => inr st
  | a :: l => match f a st with inl e => inl e | inr st => each f l st end
  end.

Section walk.
Context (walk : fields -> list string -> walk_state -> param_error + walk_state).

(** A value that is not an object is skipped. *)
Definition walk_value (path : list string) (named : string * json) (st : walk_state)
    : param_error + walk_state :=
  match named.2 with
  | JObj sub => walk sub (path ++ [named.1]) st
  | _ => inr st
  end.

Definition walkCombinators (node : fields) (path : list string) (st : walk_state)
    : param_error + walk_state :=
  each (fun combinator =>
    match get combinator node with
    | Some (JArr branches) =>
        each (walk_value path)
          (imap (fun i branch => (combinator +:+ "[" +:+ fmt_d (Z.of_nat i) +:+ "]", branch)) branches)
    | _ => inr
    end) ["oneOf"; "anyOf"; "allOf"] st.

Definition walkChildren (node : fields) (path : list string) (st : walk_state)
    : param_error + walk_state :=
  match (match get "properties" node with
         | Some (JObj props) => each (walk_value path) props st
         | _ => inr st
         end) with
  | inl e => inl e
  | inr st =>
      match (match get "items" node with
             | Some items => walk_value path ("[]", items) st
             | None => inr st
             end) with
      | inl e => inl e
      | inr st => walkCombinators node path st
      end
  end.
End walk.

(** [levels] is how many levels may still be entered. *)
Fixpoint walkSchema (levels : nat) (node : fields) (path : list string) (st : walk_state)
    : param_error + walk_state :=
  match levels with
  | 0 => inl ErrSchemaTooDeep
  | S levels =>
      match (match path, get XMCPHeaderAnnotation node with
             | _ :: _, Some raw => parseAnnotation raw node path st
             | _, _ => inr st
             end) with
      | inl e => inl e
      | inr st => walkChildren (walkSchema levels) node path st
      end
  end.

Definition path_le (a b : ParamHeader) : Prop := String.le (Join "." (ph_Path a)) (Join "." (ph_Path b)).

#[export] Instance path_le_dec a b : Decision (path_le a b).
Proof. unfold path_le. apply _. Defined.

Definition ParamHeaders (schema : fields) : param_error + list ParamHeader :=
  match schema with
  | [] => inr []
  | _ =>
      match walkSchema (S maxSchemaDepth) schema [] {| wk_seen := ∅; wk_found := [] |} with
      | inl e => inl e
      | inr st => inr (merge_sort path_le (wk_found st))
      end
  end.

Definition ValidateParamHeaders (schema : fields) : option param_error :=
  match ParamHeaders schema with inl e => Some e | inr _ => None end.

(** ** Rendering the arguments *)
Definition isCombinatorSegment (seg : string) : bool :=
  existsb (fun combinator => HasPrefix seg (combinator +:+ "[") &&
             match rev (String.list_ascii_of_string seg) with c :: _ => bool_decide (c = "]"%char) | [] => false end)
    ["oneOf"; "anyOf"; "allOf"].

Fixpoint resolveArg (current : json) (path : list string) : option json :=
  match path with
  | [] => Some current
  | seg :: path =>
      if isCombinatorSegment seg then resolveArg current path
      else match current with
           | JObj obj => match get seg obj with Some v => resolveArg v path | None => None end
           | _ => None
           end
  end.

(** An integer above the range is refused whatever the conversion to a float made of
    it, since rounding is monotone and the bounds are floats. *)
Definition renderIntegerHeaderValue (where_ : string) (value : json) : param_error + string :=
  match value with
  | JNum n =>
      if (maxSafeInteger <? n)%Z || (n <? - maxSafeInteger)%Z then inl (ErrUnmirrorableValue where_)
      else inr (fmt_d n)
  | _ => inl (ErrUnmirrorableValue where_)
  end.

Definition renderHeaderValue (h : ParamHeader) (value : json) : param_error + string :=
  let where_ := Join "." (ph_Path h) in
  if decide (ph_Type h = "string") then
    match value with
    | JStr s => if no_control s then inr s else inl (ErrUnmirrorableValue where_)
    | _ => inl (ErrUnmirrorableValue where_)
    end
  else if decide (ph_Type h = "boolean") then
    match value with
    | JBool b => inr (if b then "true" else "false")
    | _ => inl (ErrUnmirrorableValue where_)
    end
  else if decide (ph_Type h = "integer") then renderIntegerHeaderValue where_ value
  else inl (ErrUnmirrorableValue where_).

(** The loop over the annotations. *)
Fixpoint mirror (headers : list ParamHeader) (args : fields) (out : gmap string string)
    : param_error + gmap string string :=
  match headers with
  | [] => inr out
  | h :: headers =>
      if decide ("[]" ∈ ph_Path h) then mirror headers args out
      else match resolveArg (JObj args) (ph_Path h) with
           | None => mirror headers args out
           | Some value =>
               match renderHeaderValue h value with
               | inl e => inl e
               | inr rendered => mirror headers args (<[HeaderName h := rendered]> out)
               end
           end
  end.

Definition MirrorParamHeaders (headers : list ParamHeader) (args : fields)
    : param_error + gmap string string :=
  match headers, args with
  | [], _ | _, [] => inr ∅
  | _, _ => mirror headers args ∅
  end.

Definition ParamHeadersForSchema (schema args : fields) : param_error + gmap string string :=
  match ParamHeaders schema with
  | inl e => inl e
  | inr [] => inr ∅
  | inr annotations => MirrorParamHeaders annotations args
  end.

(** ** What the walk guarantees *)
Record header_ok (p : ParamHeader) : Prop := {
  hok_path : ph_Path p <> [];
  hok_name : ph_Name p <> "";
  hok_token : is_token (ph_Name p) = true;
  hok_type : ph_Type p ∈ ["string"; "integer"; "boolean"];
}.

(** What was found is well-formed, and the names, case ignored, are those seen. *)
Record walk_inv (st : walk_state) : Prop := {
  wi_ok : Forall header_ok (wk_found st);
  wi_nodup : NoDup (ToLower ∘ ph_Name <$> wk_found st);
  wi_seen : forall k, is_Some (wk_seen st !! k) <-> k ∈ ToLower ∘ ph_Name <$> wk_found st;
}.

Lemma parse_inv raw node path st st' :
  path <> [] -> walk_inv st -> parseAnnotation raw node path st = inr st' -> walk_inv st'.
Proof.
  intros Hp [Hok Hnd Hseen]. unfold parseAnnotation. destruct raw as [| | | |name| |]; try done.
  case_decide as Hne; [done|]. destruct (is_token name) eqn:Ht; cbn [negb]; [|done].
  destruct (wk_seen st !! ToLower name) as [first|] eqn:Es; [done|].
  destruct (get "type" node) as [[| | | |declared| |]|]; try done. case_decide as Hd; [|done].
  intros [= <-]. split; cbn.
  - apply Forall_app. split; [done|]. apply Forall_singleton. split; cbn; [done..|]. set_solver.
  - rewrite fmap_app. apply NoDup_app. split; [done|]. split; [|apply NoDup_singleton].
    intros k Hk Hk'. apply list_elem_of_singleton in Hk'. cbn in Hk'. subst k. apply Hseen in Hk. rewrite Es in Hk. by destruct Hk.
  - intros k. rewrite fmap_app, elem_of_app, <- Hseen. cbn. rewrite list_elem_of_singleton.
    destruct (decide (k = ToLower name)) as [->|Hk].
    + rewrite lookup_insert_eq. naive_solver.
    + rewrite lookup_insert_ne by done. naive_solver.
Qed.

Lemma each_inv {A} (f : A -> walk_state -> param_error + walk_state) l st st' :
  (forall a st st', a ∈ l -> walk_inv st -> f a st = inr st' -> walk_inv st') ->
  walk_inv st -> each f l st = inr st' -> walk_inv st'.
Proof.
  revert st. induction l as [|a l IH]; intros st Hf Hst; cbn [each]; [by intros [= <-]|].
  destruct (f a st) as [|st1] eqn:E; [done|]. apply IH; [|by eapply (Hf a); [left|..]].
  intros b s s' Hb. apply Hf. by right.
Qed.

Lemma walk_value_inv walk path named st st' :
  (forall node p s s', p <> [] -> walk_inv s -> walk node p s = inr s' -> walk_inv s') ->
  walk_inv st -> walk_value walk path named st = inr st' -> walk_inv st'.
Proof.
  intros Hw Hst. unfold walk_value. destruct named.2; try (by intros [= <-]).
  apply Hw; [by destruct path|done].
Qed.

Lemma walkChildren_inv walk node path st st' :
  (forall node p s s', p <> [] -> walk_inv s -> walk node p s = inr s' -> walk_inv s') ->
  walk_inv st -> walkChildren walk node path st = inr st' -> walk_inv st'.
Proof.
  intros Hw Hst. unfold walkChildren.
  destruct (match get "properties" node with Some (JObj props) => each (walk_value walk path) props st | _ => inr st end)
    as [|st1] eqn:E1; [done|].
  assert (walk_inv st1) as H1.
  { destruct (get "properties" node) as [[]|]; try (by injection E1 as <-).
    eapply each_inv; [|done|exact E1]. intros a s s' _. by apply walk_value_inv. }
  destruct (match get "items" node with Some items => walk_value walk path ("[]", items) st1 | None => inr st1 end)
    as [|st2] eqn:E2; [done|].
  assert (walk_inv st2) as H2.
  { destruct (get "items" node); [by eapply walk_value_inv|by injection E2 as <-]. }
  unfold walkCombinators. apply each_inv; [|done]. intros c s s' _ Hs.
  destruct (get c node) as [[| | | | |branches|]|]; try (by intros [= <-]).
  apply each_inv; [|done]. intros b s1 s1' _. by apply walk_value_inv.
Qed.

Lemma walkSchema_inv levels node path st st' :
  walk_inv st -> walkSchema levels node path st = inr st' -> walk_inv st'.
Proof.
  revert node path st st'. induction levels as [|levels IH]; intros node path st st' Hst; cbn [walkSchema]; [done|].
  destruct path as [|seg path].
  - apply walkChildren_inv; [|done]. intros n p s s' _. apply IH.
  - destruct (get XMCPHeaderAnnotation node) as [raw|].
    + destruct (parseAnnotation raw node (seg :: path) st) as [|st1] eqn:E; [done|].
      apply walkChildren_inv; [|by apply (parse_inv raw node (seg :: path) st)]. intros n p s s' _. apply IH.
    + apply walkChildren_inv; [|done]. intros n p s s' _. apply IH.
Qed.

Lemma ParamHeaders_inv schema l :
  ParamHeaders schema = inr l ->
  Forall header_ok l /\ NoDup (ToLower ∘ ph_Name <$> l).
Proof.
  destruct schema as [|f schema]; [intros [= <-]; split; constructor|]. unfold ParamHeaders.
  destruct (walkSchema _ _ _ _) as [|st] eqn:E; [done|]. intros [= <-].
  apply walkSchema_inv in E as [Hok Hnd _].
  - rewrite merge_sort_Permutation. done.
  - split; cbn; [constructor..|]. intros k. rewrite lookup_empty. split; [by intros []|set_solver].
Qed.

(** ** What rendering guarantees *)
Lemma all_chars_app P s t : all_chars P (s +:+ t) = all_chars P s && all_chars P t.
Proof. induction s as [|c s IH]; [done|]. simpl. by rewrite IH, andb_assoc. Qed.

Lemma pretty_N_go_chars P x s :
  (forall d, (d < 10)%N -> P (pretty_N_char d) = true) -> all_chars P s = true ->
  all_chars P (pretty_N_go x s) = true.
Proof.
  intros Hd. revert s. induction (N.lt_wf_0 x) as [x _ IH]; intros s Hs.
  destruct (decide (x = 0)%N) as [->|Hx]; [by rewrite pretty_N_go_0|].
  rewrite pretty_N_go_step by lia. apply IH; [by apply N.div_lt; lia|].
  cbn [all_chars]. rewrite Hs, Hd; [done|]. apply N.mod_lt. lia.
Qed.

Lemma pretty_N_char_no_control d : negb (is_control (pretty_N_char d)) = true.
Proof. unfold pretty_N_char. by repeat case_match. Qed.

Lemma fmt_d_no_control n : no_control (fmt_d n) = true.
Proof.
  unfold no_control, fmt_d, pretty, pretty_Z. destruct n as [|p|p]; [done|..].
  - apply (pretty_N_go_chars _ (N.pos p) ""); [|done]. intros. apply pretty_N_char_no_control.
  - rewrite all_chars_app. apply (pretty_N_go_chars _ (N.pos p) ""); [|done]. intros. apply pretty_N_char_no_control.
Qed.

Lemma render_no_control h v s : renderHeaderValue h v = inr s -> no_control s = true.
Proof.
  unfold renderHeaderValue, renderIntegerHeaderValue. repeat case_decide; destruct v as [|[]| | | | |];
    repeat (case_match; try done); intros [= <-]; try done. apply fmt_d_no_control.
Qed.

(** The value a mirrored header must have. *)
Definition mirrors (args : fields) (h : ParamHeader) (s : string) : Prop :=
  ("[]" ∉ ph_Path h) /\ exists v, resolveArg (JObj args) (ph_Path h) = Some v /\ renderHeaderValue h v = inr s.

Lemma mirror_spec hs args out out' :
  NoDup (HeaderName <$> hs) -> mirror hs args out = inr out' ->
  forall name s, out' !! name = Some s <->
    (exists h, h ∈ hs /\ HeaderName h = name /\ mirrors args h s) \/
    (out !! name = Some s /\ forall h, h ∈ hs -> HeaderName h = name -> forall s', ~ mirrors args h s').
Proof.
  revert out. induction hs as [|h hs IH]; intros out Hn; cbn [mirror].
  { intros [= <-] name s. set_solver. }
  cbn [fmap list_fmap] in Hn. apply NoDup_cons in Hn as [Hh Hn].
  assert (forall h', h' ∈ hs -> HeaderName h' <> HeaderName h) as Hother.
  { intros h' Hin E. apply Hh. rewrite <- E. apply list_elem_of_fmap. eauto. }
  assert ((forall s', ~ mirrors args h s') -> mirror hs args out = inr out' ->
    forall name s, out' !! name = Some s <->
    (exists h', h' ∈ h :: hs /\ HeaderName h' = name /\ mirrors args h' s) \/
    (out !! name = Some s /\ forall h', h' ∈ h :: hs -> HeaderName h' = name -> forall s', ~ mirrors args h' s')) as Hskip.
  { intros Hno E name s. rewrite (IH out Hn E name s). setoid_rewrite elem_of_cons. naive_solver. }
  unfold mirrors in Hskip at 1. case_decide as Hb; [apply Hskip; naive_solver|].
  destruct (resolveArg _ _) as [v|] eqn:Ev; [|apply Hskip; naive_solver].
  destruct (renderHeaderValue h v) as [|r] eqn:Er; [done|]. intros E name s.
  rewrite (IH _ Hn E name s). setoid_rewrite elem_of_cons.
  assert (forall s', mirrors args h s' <-> s' = r) as Hm.
  { intros s'. unfold mirrors. rewrite Ev. split; [intros (_ & v' & [= <-] & E'); congruence|intros ->; eauto]. }
  destruct (decide (HeaderName h = name)) as [<-|Hne].
  - rewrite lookup_insert_eq. split.
    + intros [(h' & Hin & Hk & _)|[[= <-] _]]; [by destruct (Hother h')|]. left. exists h.
      split; [by left|]. split; [done|]. by apply Hm.
    + intros [(h' & [->|Hin] & Hk & Hs)|[_ Hno]]; [|by destruct (Hother h')|].
      * apply Hm in Hs as ->. right. split; [done|]. intros h' Hin Hk'. by destruct (Hother h').
      * exfalso. apply (Hno h (or_introl eq_refl) eq_refl r). by apply Hm.
  - rewrite lookup_insert_ne by done. split.
    + intros [(h' & Hin & Hk & Hs)|[Ho Hno]]; [left; exists h'; auto|]. right. split; [done|].
      intros h' [->|Hin] Hk; [done|by apply Hno].
    + intros [(h' & [->|Hin] & Hk & Hs)|[Ho Hno]]; [done|left; eauto|]. right. split; [done|].
      intros h' Hin. apply Hno. by right.
Qed.

Lemma HeaderName_NoDup l : NoDup (ToLower ∘ ph_Name <$> l) -> NoDup (HeaderName <$> l).
Proof.
  intros H. apply (NoDup_fmap_1 ToLower). rewrite <- list_fmap_compose.
  replace (ToLower ∘ HeaderName <$> l) with ((fun s => "mcp-param-" +:+ s) <$> (ToLower ∘ ph_Name <$> l)).
  - apply NoDup_fmap_2; [|done]. intros s t. by apply app_string_inj.
  - rewrite <- list_fmap_compose. apply list_fmap_ext. intros. reflexivity.
Qed.

(** Header mirroring is exact and safe, for any schema of a backend and any
    arguments of a caller.  The headers sent are exactly those of the marked
    parameters that are present, with their rendered values.  Every header name is
    the fixed prefix and a valid token, no two names differ only in case, and no value
    contains a control character, so no argument can inject a header. *)
Theorem mirrored_headers_safe schema args out :
  ParamHeadersForSchema schema args = inr out -> args <> [] ->
  exists marked, ParamHeaders schema = inr marked /\
    NoDup (ToLower ∘ HeaderName <$> marked) /\
    (forall name s, out !! name = Some s <-> exists h, h ∈ marked /\ HeaderName h = name /\ mirrors args h s) /\
    (forall name s, out !! name = Some s -> no_control s = true /\
       exists suffix, name = ParamHeaderPrefix +:+ suffix /\ suffix <> "" /\ is_token suffix = true).
Proof.
  unfold ParamHeadersForSchema. destruct (ParamHeaders schema) as [|marked] eqn:E; [done|]. intros Hout Hargs.
  exists marked. apply ParamHeaders_inv in E as [Hok Hnd].
  assert (mirror marked args ∅ = inr out) as Hm by (by destruct marked, args).
  pose proof (mirror_spec _ _ _ _ (HeaderName_NoDup _ Hnd) Hm) as Hs. setoid_rewrite lookup_empty in Hs.
  assert (forall name s, out !! name = Some s <-> exists h, h ∈ marked /\ HeaderName h = name /\ mirrors args h s) as Hiff.
  { intros name s. rewrite Hs. naive_solver. }
  split_and!; [done| |done|].
  - replace (ToLower ∘ HeaderName <$> marked) with ((fun s => "mcp-param-" +:+ s) <$> (ToLower ∘ ph_Name <$> marked)).
    + apply NoDup_fmap_2; [|done]. intros s t. by apply app_string_inj.
    + rewrite <- list_fmap_compose. apply list_fmap_ext. intros. reflexivity.
  - intros name s (h & Hin & <- & _ & v & _ & Hr)%Hiff. split; [by eapply render_no_control|].
    rewrite Forall_forall in Hok. destruct (Hok h Hin). exists (ph_Name h). done.
Qed.

(** ** Witness *)
Definition sample_schema : fields :=
  [("type", JStr "object");
   ("properties", JObj [("region", JObj [("type", JStr "string"); ("x-mcp-header", JStr "Region")]);
                        ("size", JObj [("type", JStr "integer"); ("x-mcp-header", JStr "Size")])])].

Definition sample_args : fields := [("region", JStr "eu"); ("size", JNum 3)].
Definition sample_headers : gmap string string := {[ "Mcp-Param-Region" := "eu"; "Mcp-Param-Size" := "3" ]}.

Lemma sample_mirrored : ParamHeadersForSchema sample_schema sample_args = inr sample_headers.
Proof. vm_compute. reflexivity. Qed.

Lemma sample_region : sample_headers !! "Mcp-Param-Region" = Some "eu".
Proof. vm_compute. reflexivity. Qed.

Lemma mirrored_headers_safe_witness :
  ParamHeadersForSchema sample_schema sample_args = inr sample_headers /\
  sample_headers !! "Mcp-Param-Region" = Some "eu" /\ no_control "eu" = true.
Proof.
  split; [exact sample_mirrored|]. split; [exact sample_region|].
  destruct (mirrored_headers_safe sample_schema sample_args sample_headers sample_mirrored ltac:(discriminate))
    as (m & _ & _ & _ & H).
  exact (proj1 (H _ _ sample_region)).
Defined.

(** A line break in an argument is refused. *)
Example line_break_refused :
  ParamHeadersForSchema sample_schema [("region", JStr (String "010" "X-Evil: 1"))] = inl (ErrUnmirrorableValue "region").
Proof. vm_compute. reflexivity. Qed.
