(* ===== verification/Admission.v ===== *)
(** * The admission seam of the core ([pkg/vmcp/core/admission.go])

    The Go interface [Admission] is a record of its six operations, and what the core
    relies on is [AdmissionOk]: a list shows exactly what a call with no arguments is
    allowed to use.  Both implementations meet it.  The authorizer evaluates policies
    in a library; it is a function of the identity and the annotations the context
    carries, and [None] is its error.  Warnings are left out. *)

From S2P Require Import Prelude VmcpTypes SessionBinding ParamHeaders.

Inductive MCPFeature := MCPFeatureTool | MCPFeaturePrompt | MCPFeatureResource.
Inductive MCPOperation := MCPOperationList | MCPOperationGet | MCPOperationCall | MCPOperationRead.

(** The annotations a policy sees. *)
Record AuthzAnnotations := {
  az_ReadOnlyHint : option bool;
  az_DestructiveHint : option bool;
  az_IdempotentHint : option bool;
  az_OpenWorldHint : option bool;
}.

Definition Authorizer : Type :=
  option Identity -> option AuthzAnnotations -> MCPFeature -> MCPOperation -> string -> option fields -> option bool.

Record Admission := {
  adm_FilterTools : option Identity -> list Tool -> option (list Tool);
  adm_AllowToolCall : option Identity -> Tool -> option fields -> option bool;
  adm_FilterResources : option Identity -> list Resource -> option (list Resource);
  adm_AllowResourceRead : option Identity -> Resource -> option bool;
  adm_FilterPrompts : option Identity -> list Prompt -> option (list Prompt);
  adm_AllowPromptGet : option Identity -> Prompt -> option bool;
}.

(** No hint at all is the same as no annotations. *)
Definition convertAnnotations (ann : option ToolAnnotations) : option AuthzAnnotations :=
  match ann with
  | None => None
  | Some a =>
      match ann_ReadOnlyHint a, ann_DestructiveHint a, ann_IdempotentHint a, ann_OpenWorldHint a with
      | None, None, None, None => None
      | r, d, i, o => Some {| az_ReadOnlyHint := r; az_DestructiveHint := d;
                              az_IdempotentHint := i; az_OpenWorldHint := o |}
      end
  end.

Section cedar.
Context (authorize : Authorizer).

(** The filters skip an item on an authorizer error. *)
Definition cedar_FilterTools (identity : option Identity) (tools : list Tool) : option (list Tool) :=
  Some (omap (fun tool =>
    match authorize identity (convertAnnotations (tool_Annotations tool))
            MCPFeatureTool MCPOperationCall (tool_Name tool) None with
    | None => None
    | Some true => Some tool
    | Some false => None
    end) tools).

Definition cedar_AllowToolCall (identity : option Identity) (tool : Tool) (args : option fields) : option bool :=
  authorize identity (convertAnnotations (tool_Annotations tool))
    MCPFeatureTool MCPOperationCall (tool_Name tool) args.

Definition cedar_FilterResources (identity : option Identity) (resources : list Resource)
    : option (list Resource) :=
  Some (omap (fun r =>
    match authorize identity None MCPFeatureResource MCPOperationRead (res_URI r) None with
    | None => None
    | Some true => Some r
    | Some false => None
    end) resources).

Definition cedar_AllowResourceRead (identity : option Identity) (r : Resource) : option bool :=
  authorize identity None MCPFeatureResource MCPOperationRead (res_URI r) None.

Definition cedar_FilterPrompts (identity : option Identity) (prompts : list Prompt) : option (list Prompt) :=
  Some (omap (fun p =>
    match authorize identity None MCPFeaturePrompt MCPOperationGet (prompt_Name p) None with
    | None => None
    | Some true => Some p
    | Some false => None
    end) prompts).

Definition cedar_AllowPromptGet (identity : option Identity) (p : Prompt) : option bool :=
  authorize identity None MCPFeaturePrompt MCPOperationGet (prompt_Name p) None.

Definition newCedarAdmission : Admission := {|
  adm_FilterTools := cedar_FilterTools;
  adm_AllowToolCall := cedar_AllowToolCall;
  adm_FilterResources := cedar_FilterResources;
  adm_AllowResourceRead := cedar_AllowResourceRead;
  adm_FilterPrompts := cedar_FilterPrompts;
  adm_AllowPromptGet := cedar_AllowPromptGet;
|}.
End cedar.

Definition allowAllAdmission : Admission := {|
  adm_FilterTools := fun _ tools => Some tools;
  adm_AllowToolCall := fun _ _ _ => Some true;
  adm_FilterResources := fun _ resources => Some resources;
  adm_AllowResourceRead := fun _ _ => Some true;
  adm_FilterPrompts := fun _ prompts => Some prompts;
  adm_AllowPromptGet := fun _ _ => Some true;
|}.

(** ** Construction: [factory] is the registry of authorizer kinds *)
Record AuthzConfig := {
  azc_Type : string;
  azc_RawConfig : string;
}.

Inductive admission_error := EmptyServerName | UnsupportedAuthzType (t : string) | AuthorizerNotBuilt.

Definition newAdmission (GetFactory : string -> option (string -> string -> option Authorizer))
    (authzCfg : option AuthzConfig) (serverName : string) : admission_error + Admission :=
  match authzCfg with
  | None => inr allowAllAdmission
  | Some cfg =>
      if decide (serverName = "") then inl EmptyServerName
      else match GetFactory (azc_Type cfg) with
      | None => inl (UnsupportedAuthzType (azc_Type cfg))
      | Some CreateAuthorizer =>
          match CreateAuthorizer (azc_RawConfig cfg) serverName with
          | None => inl AuthorizerNotBuilt
          | Some authorizer => inr (newCedarAdmission authorizer)
          end
      end
  end.

(** ** What the core relies on *)

(** A decision depends on the name of an item, and on the annotations of a tool. *)
Class AdmissionOk (a : Admission) : Prop := {
  adm_tools : forall identity l, exists l', adm_FilterTools a identity l = Some l' /\
    l' = filter (fun t => adm_AllowToolCall a identity t None = Some true) l;
  adm_resources : forall identity l, exists l', adm_FilterResources a identity l = Some l' /\
    l' = filter (fun r => adm_AllowResourceRead a identity r = Some true) l;
  adm_prompts : forall identity l, exists l', adm_FilterPrompts a identity l = Some l' /\
    l' = filter (fun p => adm_AllowPromptGet a identity p = Some true) l;
  adm_resource_uri : forall identity r r', res_URI r = res_URI r' ->
    adm_AllowResourceRead a identity r = adm_AllowResourceRead a identity r';
  adm_prompt_name : forall identity p p', prompt_Name p = prompt_Name p' ->
    adm_AllowPromptGet a identity p = adm_AllowPromptGet a identity p';
}.

Lemma omap_filter {A} (f : A -> option bool) (l : list A) :
  omap (fun x => match f x with None => None | Some true => Some x | Some false => None end) l =
  filter (fun x => f x = Some true) l.
Proof.
  induction l as [|x l IH]; [done|]. rewrite filter_cons, omap_cons_eq, IH.
  destruct (f x) as [[]|]; case_decide; (done || congruence).
Qed.

#[export] Instance cedarAdmission_ok authorize : AdmissionOk (newCedarAdmission authorize).
Proof.
  split.
  - intros identity l. eexists. split; [done|]. apply omap_filter.
  - intros identity l. eexists. split; [done|]. apply omap_filter.
  - intros identity l. eexists. split; [done|]. apply omap_filter.
  - intros identity r r' E. cbn. unfold cedar_AllowResourceRead. by rewrite E.
  - intros identity p p' E. cbn. unfold cedar_AllowPromptGet. by rewrite E.
Qed.

#[export] Instance allowAllAdmission_ok : AdmissionOk allowAllAdmission.
Proof.
  split; try done; intros identity l; eexists; (split; [done|]); by rewrite filter_all.
Qed.

Lemma newAdmission_ok GetFactory cfg serverName a :
  newAdmission GetFactory cfg serverName = inr a -> AdmissionOk a.
Proof.
  unfold newAdmission. intros E. repeat (case_match || case_decide); simplify_eq; apply _.
Qed.

Section laws.
Context (a : Admission) `{!AdmissionOk a}.

Lemma FilterTools_spec identity l :
  adm_FilterTools a identity l = Some (filter (fun t => adm_AllowToolCall a identity t None = Some true) l).
Proof. by destruct (adm_tools identity l) as (l' & -> & ->). Qed.

Lemma FilterResources_spec identity l :
  adm_FilterResources a identity l = Some (filter (fun r => adm_AllowResourceRead a identity r = Some true) l).
Proof. by destruct (adm_resources identity l) as (l' & -> & ->). Qed.

Lemma FilterPrompts_spec identity l :
  adm_FilterPrompts a identity l = Some (filter (fun p => adm_AllowPromptGet a identity p = Some true) l).
Proof. by destruct (adm_prompts identity l) as (l' & -> & ->). Qed.
End laws.
