(* ===== verification/Core.v ===== *)
(** * The core of the virtual MCP server
    ([pkg/vmcp/core/core_vmcp.go], [core_calls.go], [core_checks.go])

    The core answers list, lookup and call requests of an identity.  Each operation
    derives the advertised view anew, from the registry, the health monitor and the
    aggregator as they are at that moment; a second derivation within one operation
    sees the same state.  Backends and workflows are reached through interfaces, and
    what is sent to them is recorded: a call returns the requests it made together
    with its result.  [compile] parses URI templates, [range] and [defs_range] are the
    orders in which loops visit maps, and [Marshal] is [json.Marshal], with its error
    on the left.  Telemetry, the auditor and logging are left out. *)

From S2P Require Import Prelude VmcpTypes HealthMonitor HealthReport AggregatorTypes WorkflowTypes Workflow.
From S2P Require Import SessionBinding Router CompositeTools ParamHeaders Admission.

(** ** Results of the backends ([pkg/vmcp/types.go]) *)
Record ContentAnnotations := {
  ca_Audience : list string;
  ca_Priority : option string;  (* the text of the number *)
  ca_LastModified : string;
}.

Definition ContentTypeText : string := "text".

Record Content := {
  co_Type : string;
  co_Text : string;
  co_Data : string;
  co_MimeType : string;
  co_URI : string;
  co_Name : string;
  co_Description : string;
  co_Annotations : option ContentAnnotations;
}.

Record ToolCallResult := {
  tcr_Content : list Content;
  tcr_StructuredContent : option fields;
  tcr_IsError : bool;
  tcr_Meta : option fields;
  tcr_BackendID : string;
}.

Record ResourceContent := {
  rco_URI : string;
  rco_MimeType : string;
  rco_Text : string;
  rco_Blob : string;
}.

Record ResourceReadResult := {
  rrr_Contents : list ResourceContent;
  rrr_Meta : option fields;
  rrr_BackendID : string;
}.

Record PromptMessage := {
  pm_Role : string;
  pm_Content : Content;
}.

Record PromptGetResult := {
  pgr_Messages : list PromptMessage;
  pgr_Description : string;
  pgr_Meta : option fields;
  pgr_BackendID : string;
}.

Definition CompletionRefTypePrompt : string := "ref/prompt".
Definition CompletionRefTypeResource : string := "ref/resource".

Record CompletionRef := {
  cref_Type : string;
  cref_Name : string;
  cref_URI : string;
}.

Record CompletionResult := {
  cres_Values : list string;
  cres_Total : Z;
  cres_HasMore : bool;
}.

(** ** The collaborators *)

(** The interface [vmcp.BackendClient]; an error is on the left. *)
Record BackendClient := {
  client_CallTool : BackendTarget -> string -> option fields -> option fields -> gmap string string ->
    error + ToolCallResult;
  client_ReadResource : BackendTarget -> string -> error + ResourceReadResult;
  client_GetPrompt : BackendTarget -> string -> option fields -> error + PromptGetResult;
  client_Complete : BackendTarget -> CompletionRef -> string -> string -> gmap string string ->
    error + CompletionResult;
}.

(** What [ExecuteWorkflow] returns: an error, nothing, or a result that may carry one. *)
Inductive workflow_outcome :=
  | WorkflowErr (deadlineExceeded : bool) (text : string)
  | WorkflowNil
  | WorkflowResult (err : option string) (output : option fields).

Definition Composer : Type := WorkflowDefinition -> option fields -> workflow_outcome.

Record coreVMCP := {
  core_aggregator : list Backend -> agg_error + AggregatedCapabilities;
  core_registry : list Backend;  (* [backendRegistry.List] *)
  core_client : BackendClient;
  core_health : option Monitor;
  core_admission : Admission;
  core_workflowDefs : gmap string WorkflowDefinition;
  core_composerFactory : RoutingTable -> list Tool -> Composer;
}.

(** ** Errors and effects *)
Inductive core_error :=
  | AggregationFailed (cause : agg_error)
  | AuthorizationFailed (item : string)
  | NotFound (item : string)
  | InvalidInput (tool : string) (cause : param_error)
  | InvalidAnnotation (tool : string) (cause : param_error)
  | RoutingFailed (item : string) (cause : route_error)
  | FilterFailed
  | BackendFailed (cause : error).

(** A request to a backend, or a workflow handed to a composer. *)
Inductive effect :=
  | SentTool (target : BackendTarget) (name : string) (args meta : option fields) (headers : gmap string string)
  | SentRead (target : BackendTarget) (uri : string)
  | SentPrompt (target : BackendTarget) (name : string) (args : option fields)
  | SentCompletion (target : BackendTarget) (ref : CompletionRef)
  | RanWorkflow (table : RoutingTable) (tools : list Tool) (def : WorkflowDefinition) (args : option fields).

(** A call: the effects it had, in order, and its result. *)
Definition call (A : Type) : Type := list effect * (core_error + A).

Definition stop {A} (e : core_error) : call A := ([], inl e).

(** [if err != nil { return nil, err }]. *)
Definition bind {A B} (x : core_error + A) (k : A -> core_error + B) : core_error + B :=
  match x with inl e => inl e | inr a => k a end.
Definition call_bind {A B} (x : core_error + A) (k : A -> call B) : call B :=
  match x with inl e => stop e | inr a => k a end.

Declare Scope core_scope.
Delimit Scope core_scope with core.
Notation "'try' x := e 'in' k" := (bind e (fun x => k)) (at level 10, x name, k at level 200) : core_scope.
Notation "'attempt' x := e 'in' k" := (call_bind e (fun x => k)) (at level 10, x name, k at level 200) : core_scope.
Local Open Scope core_scope.

(** The filters of the admission seam, with their error. *)
Definition filtered {A} (x : option A) : core_error + A :=
  match x with None => inl FilterFailed | Some a => inr a end.

(** ** Health filter *)
Definition health_status (provider : option Monitor) (backend : Backend) : option BackendHealthStatus :=
  match provider with
  | Some m => match QueryBackendStatus (b_ID backend) m with
              | (status, true) => Some status
              | (_, false) => b_HealthStatus backend
              end
  | None => b_HealthStatus backend
  end.

Definition filterHealthyBackends (backends : list Backend) (provider : option Monitor) : list Backend :=
  filter (fun backend => ShouldAdvertise (health_status provider backend) = true) backends.

Section core.
Context (compile : string -> option (string -> bool)).
Context (range : gmap string BackendTarget -> list (string * BackendTarget)).
Context (defs_range : gmap string WorkflowDefinition -> list (string * WorkflowDefinition)).
Context (Marshal : option fields -> string + string).
Implicit Types (c : coreVMCP) (identity : option Identity) (agg : AggregatedCapabilities).

(** ** The advertised view *)
Definition aggregateBackends c (backends : list Backend) : core_error + AggregatedCapabilities :=
  match core_aggregator c backends with
  | inl e => inl (AggregationFailed e)
  | inr agg => inr agg
  end.

Definition aggregatedView c : core_error + AggregatedCapabilities :=
  aggregateBackends c (filterHealthyBackends (core_registry c) (core_health c)).

(** The annotations by name; a later tool of the same name wins. *)
Definition annByName (tools : list Tool) : gmap string ToolAnnotations :=
  foldl (fun m t => match tool_Annotations t with Some a => <[tool_Name t := a]> m | None => m end) ∅ tools.

Definition stepAnnotationResolver agg (stepTool : string) : option ToolAnnotations :=
  match ResolveToolRef range (Some (ag_RoutingTable agg)) stepTool with
  | None => None
  | Some resolvedName => annByName (ag_Tools agg) !! resolvedName
  end.

(** A nil map is the empty one. *)
Definition accessibleComposites c agg : gmap string WorkflowDefinition :=
  if decide (core_workflowDefs c = ∅) then ∅
  else
    let defs := FilterWorkflowDefsForSession range (core_workflowDefs c) (Some (ag_RoutingTable agg)) in
    if decide (defs = ∅) then ∅
    else match ValidateNoToolConflicts (ag_Tools agg) (CompositeToolNames defs_range defs) with
         | _ :: _ => ∅
         | [] => FilterWorkflowDefsByAnnotations defs (Some (stepAnnotationResolver agg))
         end.

Definition advertisedToolsWith agg (defs : gmap string WorkflowDefinition) : list Tool :=
  if decide (defs = ∅) then ag_Tools agg
  else ag_Tools agg ++ ConvertWorkflowDefsToTools defs_range defs (Some (stepAnnotationResolver agg)).

Definition advertisedTools c agg : list Tool := advertisedToolsWith agg (accessibleComposites c agg).

Fixpoint findAdvertisedTool (tools : list Tool) (name : string) : option Tool :=
  match tools with
  | [] => None
  | t :: tools => if decide (tool_Name t = name) then Some t else findAdvertisedTool tools name
  end.

(** ** Admission *)
Definition bare_tool (name : string) : Tool := {|
  tool_Name := name; tool_Description := ""; tool_InputSchema := JNull; tool_OutputSchema := JNull;
  tool_Annotations := None; tool_BackendID := "" |}.
Definition bare_resource (uri backendID : string) : Resource := {|
  res_URI := uri; res_Name := ""; res_Description := ""; res_MimeType := ""; res_BackendID := backendID |}.
Definition bare_prompt (name : string) : Prompt := {|
  prompt_Name := name; prompt_Description := ""; prompt_Arguments := []; prompt_BackendID := "" |}.

(** A denial and an error of the authorizer alike. *)
Definition decision (item : string) (allowed : option bool) : core_error + unit :=
  match allowed with
  | None => inl (AuthorizationFailed item)
  | Some false => inl (AuthorizationFailed item)
  | Some true => inr tt
  end.

Definition authorizeToolCall c identity (name : string) (args : option fields) (tool : option Tool)
    : core_error + unit :=
  decision name (adm_AllowToolCall (core_admission c) identity (default (bare_tool name) tool) args).

Definition authorizeResourceRead c identity (uri : string) : core_error + unit :=
  decision uri (adm_AllowResourceRead (core_admission c) identity (bare_resource uri "")).

Definition authorizePromptGet c identity (name : string) : core_error + unit :=
  decision name (adm_AllowPromptGet (core_admission c) identity (bare_prompt name)).

Definition CheckToolCall c identity (name : string) (args : option fields) : core_error + unit :=
  try agg := aggregatedView c in
  authorizeToolCall c identity name args (findAdvertisedTool (advertisedTools c agg) name).

Definition CheckResourceRead c identity (uri : string) : core_error + unit :=
  authorizeResourceRead c identity uri.

Definition CheckPromptGet c identity (name : string) : core_error + unit :=
  authorizePromptGet c identity name.

(** ** Lists *)
Definition ListTools c identity : core_error + list Tool :=
  try agg := aggregatedView c in
  filtered (adm_FilterTools (core_admission c) identity (advertisedTools c agg)).

Definition ListResources c identity : core_error + list Resource :=
  try agg := aggregatedView c in
  filtered (adm_FilterResources (core_admission c) identity (ag_Resources agg)).

Definition filterResourceTemplates c identity (templates : list ResourceTemplate)
    : core_error + list ResourceTemplate :=
  match templates with
  | [] => inr []
  | _ =>
      let proxies := (fun t => bare_resource (rt_URITemplate t) (rt_BackendID t)) <$> templates in
      try allowedProxies := filtered (adm_FilterResources (core_admission c) identity proxies) in
      let allowed : gset string := list_to_set (res_URI <$> allowedProxies) in
      inr (filter (fun t => rt_URITemplate t ∈ allowed) templates)
  end.

Definition ListResourceTemplates c identity : core_error + list ResourceTemplate :=
  try agg := aggregatedView c in
  filterResourceTemplates c identity (ag_ResourceTemplates agg).

Definition ListPrompts c identity : core_error + list Prompt :=
  try agg := aggregatedView c in
  filtered (adm_FilterPrompts (core_admission c) identity (ag_Prompts agg)).

Record DiscoverCapabilities := {
  HasTools : bool;
  HasResources : bool;
  HasResourceTemplates : bool;
  HasPrompts : bool;
}.

Definition Discover c identity : core_error + DiscoverCapabilities :=
  try agg := aggregatedView c in
  try tools := filtered (adm_FilterTools (core_admission c) identity (advertisedTools c agg)) in
  try resources := filtered (adm_FilterResources (core_admission c) identity (ag_Resources agg)) in
  try templates := filterResourceTemplates c identity (ag_ResourceTemplates agg) in
  try prompts := filtered (adm_FilterPrompts (core_admission c) identity (ag_Prompts agg)) in
  inr {| HasTools := bool_decide (0 < length tools);
         HasResources := bool_decide (0 < length resources);
         HasResourceTemplates := bool_decide (0 < length templates);
         HasPrompts := bool_decide (0 < length prompts) |}.

(** ** Lookups: the first item of the list that satisfies [P] *)
Fixpoint lookup_first {A B} (P : A -> bool) (f : A -> B) (item : string) (l : list A) : core_error + B :=
  match l with
  | [] => inl (NotFound item)
  | x :: l => if P x then inr (f x) else lookup_first P f item l
  end.

Definition LookupTool c identity (name : string) : core_error + Tool :=
  try tools := ListTools c identity in
  lookup_first (fun t => bool_decide (tool_Name t = name)) id name tools.

Definition templateMatches (tmplStr uri : string) : bool :=
  match compile tmplStr with
  | None => false
  | Some tmpl => tmpl uri
  end.

Definition template_resource (t : ResourceTemplate) : Resource := {|
  res_URI := rt_URITemplate t; res_Name := rt_Name t; res_Description := rt_Description t;
  res_MimeType := rt_MimeType t; res_BackendID := rt_BackendID t |}.

Definition LookupResource c identity (uri : string) : core_error + Resource :=
  try resources := ListResources c identity in
  match lookup_first (fun r => bool_decide (res_URI r = uri)) id uri resources with
  | inr resource => inr resource
  | inl _ =>
      try templates := ListResourceTemplates c identity in
      lookup_first (fun t => bool_decide (rt_URITemplate t = uri) || templateMatches (rt_URITemplate t) uri)
        template_resource uri templates
  end.

Definition LookupPrompt c identity (name : string) : core_error + Prompt :=
  try prompts := ListPrompts c identity in
  lookup_first (fun p => bool_decide (prompt_Name p = name)) id name prompts.

(** ** Backends *)
Definition authorizedBackends c identity (all : list Backend) : core_error + list Backend :=
  try agg := aggregateBackends c all in
  try tools := filtered (adm_FilterTools (core_admission c) identity (ag_Tools agg)) in
  try resources := filtered (adm_FilterResources (core_admission c) identity (ag_Resources agg)) in
  try prompts := filtered (adm_FilterPrompts (core_admission c) identity (ag_Prompts agg)) in
  let allowed : gset string := list_to_set (tool_BackendID <$> tools) ∪
    list_to_set (res_BackendID <$> resources) ∪ list_to_set (prompt_BackendID <$> prompts) in
  inr (filter (fun b => b_ID b ∈ allowed) all).

Definition ListBackends c identity (filterUnauthorized : bool) : core_error + list Backend :=
  let all := core_registry c in
  if negb filterUnauthorized then inr all
  else match all with
       | [] => inr []
       | _ => authorizedBackends c identity all
       end.

Definition LookupBackend c identity (backendID : string) : core_error + Backend :=
  try backends := ListBackends c identity true in
  lookup_first (fun b => bool_decide (b_ID b = backendID)) id backendID backends.

(** ** Calls *)
Definition text_content (text : string) : Content := {|
  co_Type := ContentTypeText; co_Text := text; co_Data := ""; co_MimeType := ""; co_URI := "";
  co_Name := ""; co_Description := ""; co_Annotations := None |}.

Definition compositeErrorResult (msg : string) : ToolCallResult := {|
  tcr_Content := [text_content msg]; tcr_StructuredContent := None; tcr_IsError := true;
  tcr_Meta := None; tcr_BackendID := "" |}.

Definition executeComposite (engine : Composer) (def : WorkflowDefinition) (params : option fields)
    : ToolCallResult :=
  match engine def params with
  | WorkflowErr true _ => compositeErrorResult "Workflow execution timeout exceeded"
  | WorkflowErr false text => compositeErrorResult ("Workflow execution failed: " +:+ text)
  | WorkflowNil => compositeErrorResult "Workflow executor returned nil result"
  | WorkflowResult (Some text) _ => compositeErrorResult ("Workflow error: " +:+ text)
  | WorkflowResult None output =>
      match Marshal output with
      | inl text => compositeErrorResult ("failed to marshal output: " +:+ text)
      | inr bytes => {| tcr_Content := [text_content bytes]; tcr_StructuredContent := output;
                        tcr_IsError := false; tcr_Meta := None; tcr_BackendID := "" |}
      end
  end.

(** A nil map is an empty one here. *)
Definition schema_of (tool : Tool) : fields :=
  match tool_InputSchema tool with JObj schema => schema | _ => [] end.

Definition paramHeadersFor (tools : list Tool) (name : string) (args : option fields)
    : core_error + gmap string string :=
  match findAdvertisedTool tools name with
  | None => inr ∅
  | Some tool =>
      match ParamHeadersForSchema (schema_of tool) (default [] args) with
      | inr headers => inr headers
      | inl (ErrUnmirrorableValue where_ as e) => inl (InvalidInput name e)
      | inl e => inl (InvalidAnnotation name e)
      end
  end.

Definition served_tool (target : BackendTarget) (r : ToolCallResult) : ToolCallResult := {|
  tcr_Content := tcr_Content r; tcr_StructuredContent := tcr_StructuredContent r;
  tcr_IsError := tcr_IsError r; tcr_Meta := tcr_Meta r; tcr_BackendID := bt_WorkloadID target |}.

Definition from_backend {A B} (f : A -> B) (r : error + A) : core_error + B :=
  match r with inl e => inl (BackendFailed e) | inr a => inr (f a) end.

Definition CallTool c identity (name : string) (args meta : option fields) : call ToolCallResult :=
  attempt agg := aggregatedView c in
  let composites := accessibleComposites c agg in
  let advertised := advertisedToolsWith agg composites in
  let tool := findAdvertisedTool advertised name in
  attempt _ := authorizeToolCall c identity name args tool in
  match tool with
  | None => stop (NotFound name)
  | Some _ =>
      match composites !! name with
      | Some def =>
          ([RanWorkflow (ag_RoutingTable agg) (ag_Tools agg) def args],
           inr (executeComposite (core_composerFactory c (ag_RoutingTable agg) (ag_Tools agg)) def args))
      | None =>
          match RouteTool range (NewSessionRouter compile (Some (ag_RoutingTable agg))) name with
          | inl RouterToolNotFound => stop (NotFound name)
          | inl e => stop (RoutingFailed name e)
          | inr target =>
              attempt headers := paramHeadersFor (ag_Tools agg) name args in
              ([SentTool target name args meta headers],
               from_backend (served_tool target) (client_CallTool (core_client c) target name args meta headers))
          end
      end
  end.

Definition served_resource (target : BackendTarget) (r : ResourceReadResult) : ResourceReadResult := {|
  rrr_Contents := rrr_Contents r; rrr_Meta := rrr_Meta r; rrr_BackendID := bt_WorkloadID target |}.

Definition ReadResource c identity (uri : string) : call ResourceReadResult :=
  attempt agg := aggregatedView c in
  attempt _ := authorizeResourceRead c identity uri in
  match RouteResource (NewSessionRouter compile (Some (ag_RoutingTable agg))) uri with
  | inl RouterResourceNotFound => stop (NotFound uri)
  | inl e => stop (RoutingFailed uri e)
  | inr target =>
      ([SentRead target uri],
       from_backend (served_resource target) (client_ReadResource (core_client c) target uri))
  end.

Definition served_prompt (target : BackendTarget) (r : PromptGetResult) : PromptGetResult := {|
  pgr_Messages := pgr_Messages r; pgr_Description := pgr_Description r; pgr_Meta := pgr_Meta r;
  pgr_BackendID := bt_WorkloadID target |}.

Definition GetPrompt c identity (name : string) (args : option fields) : call PromptGetResult :=
  attempt agg := aggregatedView c in
  attempt _ := authorizePromptGet c identity name in
  match RoutePrompt (NewSessionRouter compile (Some (ag_RoutingTable agg))) name with
  | inl RouterPromptNotFound => stop (NotFound name)
  | inl e => stop (RoutingFailed name e)
  | inr target =>
      ([SentPrompt target name args],
       from_backend (served_prompt target) (client_GetPrompt (core_client c) target name args))
  end.

Definition emptyCompletion : CompletionResult :=
  {| cres_Values := []; cres_Total := 0; cres_HasMore := false |}.

Definition Complete c identity (ref : CompletionRef) (argName argValue : string)
    (contextArgs : gmap string string) : call CompletionResult :=
  attempt agg := aggregatedView c in
  let sessionRouter := NewSessionRouter compile (Some (ag_RoutingTable agg)) in
  let forward target :=
    ([SentCompletion target ref],
     from_backend id (client_Complete (core_client c) target ref argName argValue contextArgs)) in
  if decide (cref_Type ref = CompletionRefTypePrompt) then
    attempt _ := authorizePromptGet c identity (cref_Name ref) in
    match RoutePrompt sessionRouter (cref_Name ref) with
    | inl RouterPromptNotFound => ([], inr emptyCompletion)
    | inl e => stop (RoutingFailed (cref_Name ref) e)
    | inr target => forward target
    end
  else if decide (cref_Type ref = CompletionRefTypeResource) then
    attempt _ := authorizeResourceRead c identity (cref_URI ref) in
    match RouteResource sessionRouter (cref_URI ref) with
    | inl RouterResourceNotFound => ([], inr emptyCompletion)
    | inl e => stop (RoutingFailed (cref_URI ref) e)
    | inr target => forward target
    end
  else ([], inr emptyCompletion).
End core.

(** ** Construction

    A required collaborator that is nil is [None], or [false] when nothing else of it
    is used here.  [engine] builds a workflow engine over a backend client.  Telemetry
    and audit are not configured. *)
Record Config := {
  cfg_Aggregator : option (list Backend -> agg_error + AggregatedCapabilities);
  cfg_Router : bool;
  cfg_BackendRegistry : option (list Backend);
  cfg_BackendClient : option BackendClient;
  cfg_WorkflowDefs : gmap string WorkflowDefinition;
  cfg_Authz : option AuthzConfig;
  cfg_ServerName : string;
  cfg_HealthMonitorConfig : option MonitorConfig;
  cfg_Elicitation : bool;
}.

Inductive config_error :=
  | NilConfig
  | AggregatorRequired
  | RouterRequired
  | BackendRegistryRequired
  | BackendClientRequired
  | ElicitationRequired
  | AdmissionNotBuilt (cause : admission_error)
  | InvalidWorkflow (name : string)
  | HealthMonitorNotCreated.

Definition requires_elicitation (step : WorkflowStep) : bool :=
  bool_decide (ws_Type step = StepTypeElicitation) ||
  (bool_decide (ws_Type step = StepTypeForEach) &&
   match ws_InnerStep step with
   | Some inner => bool_decide (ws_Type inner = StepTypeElicitation)
   | None => false
   end).

Definition workflowsRequireElicitation (defs : gmap string WorkflowDefinition) : bool :=
  any_if (fun _ def => existsb requires_elicitation (wd_Steps def)) defs.

Definition is_nil {A} (x : option A) : bool := match x with None => true | Some _ => false end.

Definition validateConfig (cfg : option Config) : option config_error :=
  match cfg with
  | None => Some NilConfig
  | Some cfg =>
      if is_nil (cfg_Aggregator cfg) then Some AggregatorRequired
      else if negb (cfg_Router cfg) then Some RouterRequired
      else if is_nil (cfg_BackendRegistry cfg) then Some BackendRegistryRequired
      else if is_nil (cfg_BackendClient cfg) then Some BackendClientRequired
      else if negb (cfg_Elicitation cfg) && workflowsRequireElicitation (cfg_WorkflowDefs cfg)
      then Some ElicitationRequired
      else None
  end.

Fixpoint valid_defs (quote : string -> string) (l : list (string * WorkflowDefinition))
    (validDefs : gmap string WorkflowDefinition) : config_error + gmap string WorkflowDefinition :=
  match l with
  | [] => inr validDefs
  | (name, def) :: l =>
      match ValidateWorkflow quote (Some def) with
      | Some None => valid_defs quote l (<[name := def]> validDefs)
      | _ => inl (InvalidWorkflow name)
      end
  end.

(** A nil map is the empty one. *)
Definition validateWorkflowDefs (quote : string -> string)
    (defs_range : gmap string WorkflowDefinition -> list (string * WorkflowDefinition))
    (workflowDefs : gmap string WorkflowDefinition) : config_error + gmap string WorkflowDefinition :=
  valid_defs quote (defs_range workflowDefs) ∅.

(** A monitor that does not start is dropped. *)
Definition buildHealthMonitor (config : option MonitorConfig) (backends : list Backend)
    : config_error + option Monitor :=
  match config with
  | None => inr None
  | Some config =>
      match NewMonitor backends config with
      | None => inl HealthMonitorNotCreated
      | Some monitor =>
          match Start false monitor with
          | (_, Some _) => inr None
          | (monitor, None) => inr (Some monitor)
          end
      end
  end.

Definition New (quote : string -> string)
    (defs_range : gmap string WorkflowDefinition -> list (string * WorkflowDefinition))
    (GetFactory : string -> option (string -> string -> option Authorizer))
    (engine : BackendClient -> RoutingTable -> list Tool -> Composer)
    (config : option Config) : config_error + coreVMCP :=
  match validateConfig config with
  | Some e => inl e
  | None =>
  match config with
  | Some {| cfg_Aggregator := Some aggregator; cfg_BackendRegistry := Some registry;
            cfg_BackendClient := Some client; cfg_WorkflowDefs := defs; cfg_Authz := authz;
            cfg_ServerName := serverName; cfg_HealthMonitorConfig := healthConfig |} =>
      match newAdmission GetFactory authz serverName with
      | inl e => inl (AdmissionNotBuilt e)
      | inr admission =>
      match validateWorkflowDefs quote defs_range defs with
      | inl e => inl e
      | inr workflowDefs =>
      match buildHealthMonitor healthConfig registry with
      | inl e => inl e
      | inr health => inr {|
          core_aggregator := aggregator; core_registry := registry; core_client := client;
          core_health := health; core_admission := admission; core_workflowDefs := workflowDefs;
          core_composerFactory := engine client |}
      end end end
  | _ => inl NilConfig
  end
  end.
