(* ===== verification/CoreSpec.v ===== *)
(** * What the core promises

    Nothing reaches a backend or a workflow engine without the admission of the
    caller; a denial is answered the same way whether the item exists or not; what is
    listed can be looked up and called; and a request that is sent goes to a
    registered backend whose health allows it and that offers the tool. *)

From S2P Require Import Prelude VmcpTypes HealthMonitor HealthReport AggregatorTypes WorkflowTypes Workflow.
From S2P Require Import ToolAdapter CapabilityConflicts Aggregator SessionBinding Router CompositeTools ParamHeaders Admission Core.

(** ** Lookups *)
Lemma findAdvertisedTool_Some l name t :
  findAdvertisedTool l name = Some t -> t ∈ l /\ tool_Name t = name.
Proof.
  induction l as [|x l IH]; [done|]. cbn. case_decide as E; [intros [= <-]; split; [left|done]|].
  intros [? ?]%IH. split; [by right|done].
Qed.

Lemma findAdvertisedTool_None l name : findAdvertisedTool l name = None <-> (name ∉ tool_Name <$> l).
Proof.
  induction l as [|x l IH]; cbn; [split; [intros _; apply not_elem_of_nil|done]|].
  rewrite not_elem_of_cons. case_decide as E; [split; [done|]|rewrite IH]; intuition congruence.
Qed.

Lemma findAdvertisedTool_unique l t :
  NoDup (tool_Name <$> l) -> t ∈ l -> findAdvertisedTool l (tool_Name t) = Some t.
Proof.
  intros Hn Hin. destruct (findAdvertisedTool l (tool_Name t)) as [t'|] eqn:E.
  - apply findAdvertisedTool_Some in E as [Hin' E]. f_equal. by eapply (NoDup_fmap_elem tool_Name).
  - apply findAdvertisedTool_None in E. destruct E. apply list_elem_of_fmap. eauto.
Qed.

Lemma lookup_first_spec {A B} (P : A -> bool) (f : A -> B) item l :
  match lookup_first P f item l with
  | inr y => exists x, x ∈ l /\ P x = true /\ y = f x
  | inl e => e = NotFound item /\ forall x, x ∈ l -> P x = false
  end.
Proof.
  induction l as [|x l IH]; cbn; [split; [done|]; intros x Hx; by apply elem_of_nil in Hx|].
  destruct (P x) eqn:E; [exists x; split; [left|done]|].
  destruct (lookup_first P f item l) as [e|y].
  - destruct IH as [-> IH]. split; [done|]. intros z [->|Hz]%elem_of_cons; auto.
  - destruct IH as (z & ? & ? & ?). exists z. split; [by right|done].
Qed.

Lemma paramHeaders_error tools name args e :
  paramHeadersFor tools name args = inl e ->
  exists cause, e = InvalidInput name cause \/ e = InvalidAnnotation name cause.
Proof.
  unfold paramHeadersFor. destruct (findAdvertisedTool tools name); [|done].
  destruct (ParamHeadersForSchema _ _) as [[]|]; intros [= <-]; eauto.
Qed.

Lemma no_args_no_headers schema marked :
  ParamHeaders schema = inr marked -> ParamHeadersForSchema schema [] = inr ∅.
Proof. intros E. unfold ParamHeadersForSchema. rewrite E. by destruct marked. Qed.

Lemma decision_inr item d : decision item d = inr tt <-> d = Some true.
Proof. destruct d as [[]|]; done. Qed.

Lemma decision_inl item d : d <> Some true -> decision item d = inl (AuthorizationFailed item).
Proof. by destruct d as [[]|]. Qed.

Section spec.
Context (compile : string -> option (string -> bool)).
Context (range : gmap string BackendTarget -> list (string * BackendTarget)).
Context (defs_range : gmap string WorkflowDefinition -> list (string * WorkflowDefinition)).
Context (Marshal : option fields -> string + string).
Hypothesis range_ok : forall m, range m ≡ₚ map_to_list m.
Hypothesis defs_range_ok : forall m, defs_range m ≡ₚ map_to_list m.
Implicit Types (c : coreVMCP) (identity : option Identity) (agg : AggregatedCapabilities).

Local Abbreviation CallTool := (CallTool compile range defs_range Marshal).
Local Abbreviation ReadResource := (ReadResource compile).
Local Abbreviation GetPrompt := (GetPrompt compile).
Local Abbreviation Complete := (Complete compile).
Local Abbreviation ListTools := (ListTools range defs_range).
Local Abbreviation LookupTool := (LookupTool range defs_range).
Local Abbreviation advertisedTools := (advertisedTools range defs_range).
Local Abbreviation accessibleComposites := (accessibleComposites range defs_range).

(** ** The advertised view *)
Lemma composites_spec c agg k def :
  accessibleComposites c agg !! k = Some def <->
  core_workflowDefs c !! k = Some def /\
  (forall ref, ref ∈ tool_refs def -> is_Some (ResolveToolRef range (Some (ag_RoutingTable agg)) ref)) /\
  (forall k' def', FilterWorkflowDefsForSession range (core_workflowDefs c) (Some (ag_RoutingTable agg)) !! k' =
     Some def' -> (k' ∉ tool_Name <$> ag_Tools agg)) /\
  is_Some (resolveCompositeAnnotations def (Some (stepAnnotationResolver range agg))).
Proof using defs_range_ok.
  clear compile Marshal range_ok. unfold Core.accessibleComposites. case_decide as E0.
  { rewrite E0, !lookup_empty. naive_solver. }
  set (defs := FilterWorkflowDefsForSession _ _ _). case_decide as E1.
  { rewrite lookup_empty. split; [done|]. intros (Hk & Ha & _).
    assert (defs !! k = Some def) as Hd; [|by rewrite E1, lookup_empty in Hd].
    apply map_lookup_filter_Some. split; [done|]. by apply accessible_iff. }
  destruct (ValidateNoToolConflicts _ _) as [|n ns] eqn:E2.
  - unfold FilterWorkflowDefsByAnnotations. rewrite map_lookup_filter_Some. unfold defs at 1.
    unfold FilterWorkflowDefsForSession at 1. rewrite map_lookup_filter_Some. cbn. rewrite accessible_iff.
    assert (forall k' def', defs !! k' = Some def' -> (k' ∉ tool_Name <$> ag_Tools agg)); [|tauto].
    intros k' def' Hk' Hin. assert (k' ∈ ValidateNoToolConflicts (ag_Tools agg) (CompositeToolNames defs_range defs)) as Hc.
    { apply list_elem_of_filter. split; [done|]. unfold CompositeToolNames. rewrite defs_range_ok.
      apply list_elem_of_fmap. exists (k', def'). by rewrite elem_of_map_to_list. }
    rewrite E2 in Hc. by apply elem_of_nil in Hc.
  - rewrite lookup_empty. split; [done|]. intros (_ & _ & Hnc & _).
    assert (n ∈ ValidateNoToolConflicts (ag_Tools agg) (CompositeToolNames defs_range defs)) as Hc by (rewrite E2; left).
    apply list_elem_of_filter in Hc as [Hc Hn]. unfold CompositeToolNames in Hn. rewrite defs_range_ok in Hn.
    apply list_elem_of_fmap in Hn as ([k' def'] & -> & Hd%elem_of_map_to_list). by destruct (Hnc _ _ Hd).
Qed.

Lemma advertised_spec c agg t :
  t ∈ advertisedTools c agg <->
  t ∈ ag_Tools agg \/ exists k def ann, accessibleComposites c agg !! k = Some def /\
    resolveCompositeAnnotations def (Some (stepAnnotationResolver range agg)) = Some ann /\ t = workflow_tool def ann.
Proof using defs_range_ok.
  clear compile Marshal range_ok. unfold Core.advertisedTools, advertisedToolsWith. case_decide as E.
  { rewrite E. setoid_rewrite lookup_empty. naive_solver. }
  rewrite elem_of_app. apply or_iff_compat_l. unfold ConvertWorkflowDefsToTools.
  rewrite list_elem_of_omap. split.
  - intros ([k def] & Hin & Ht). rewrite defs_range_ok, elem_of_map_to_list in Hin. cbn [snd] in Ht.
    destruct (resolveCompositeAnnotations _ _) as [ann|] eqn:Ea; [|done]. simplify_eq. eauto 10.
  - intros (k & def & ann & Hd & Ea & ->). exists (k, def). rewrite defs_range_ok, elem_of_map_to_list.
    cbn [snd]. by rewrite Ea.
Qed.

(** What the aggregator gives the core: distinct, non-empty names, a route to its
    backend for every tool, and well-formed header annotations, because the backend
    client drops a tool with malformed ones. *)
Record view_ok agg : Prop := {
  vo_names : NoDup (tool_Name <$> ag_Tools agg);
  vo_nonempty : forall t, t ∈ ag_Tools agg -> tool_Name t <> "";
  vo_routed : forall t, t ∈ ag_Tools agg -> exists target,
    route_Tools (ag_RoutingTable agg) !! tool_Name t = Some target /\ bt_WorkloadID target = tool_BackendID t;
  vo_headers : forall t, t ∈ ag_Tools agg -> exists marked, ParamHeaders (schema_of t) = inr marked;
}.

(** The workflows are stored under their names. *)
Definition defs_named c : Prop := forall k def, core_workflowDefs c !! k = Some def -> wd_Name def = k.

Lemma omap_tool_names {A} (f : string * A -> option Tool) l :
  (forall kd t, kd ∈ l -> f kd = Some t -> tool_Name t = kd.1) -> tool_Name <$> omap f l `sublist_of` l.*1.
Proof using.
  induction l as [|[k d] l IH]; intros Hf; [done|]. rewrite omap_cons_eq.
  assert (tool_Name <$> omap f l `sublist_of` l.*1) by (apply IH; intros; apply Hf; [by right|done]).
  destruct (f (k, d)) as [t|] eqn:E; cbn.
  - rewrite (Hf (k, d) t) by (done || left). by apply sublist_skip.
  - by apply sublist_cons.
Qed.

Lemma advertised_nodup c agg :
  view_ok agg -> defs_named c -> NoDup (tool_Name <$> advertisedTools c agg).
Proof using defs_range_ok.
  intros Hv Hd. unfold Core.advertisedTools, advertisedToolsWith. case_decide; [by apply vo_names|].
  set (defs := accessibleComposites c agg). rewrite fmap_app. apply NoDup_app.
  assert (tool_Name <$> ConvertWorkflowDefsToTools defs_range defs (Some (stepAnnotationResolver range agg))
    `sublist_of` (defs_range defs).*1) as Hs.
  { apply omap_tool_names. intros [k def] t Hin. cbn [fst snd]. destruct (resolveCompositeAnnotations _ _); [|done].
    intros [= <-]. rewrite defs_range_ok, elem_of_map_to_list in Hin. cbn. apply Hd.
    by apply composites_spec in Hin as [? _]. }
  split; [by apply vo_names|]. split.
  - intros n Hn Hin. eapply elem_of_submseteq in Hin; [|by apply sublist_submseteq].
    rewrite defs_range_ok in Hin. apply list_elem_of_fmap in Hin as ([k def] & -> & Hk%elem_of_map_to_list).
    apply composites_spec in Hk as (Hk & Ha & Hnc & _). apply (Hnc k def); [|done].
    apply map_lookup_filter_Some. split; [done|]. by apply accessible_iff.
  - eapply sublist_NoDup; [|exact Hs]. rewrite defs_range_ok. apply NoDup_fst_map_to_list.
Qed.

(** ** Calls *)

(** What a call does once the view is known. *)
Definition dispatch c agg (name : string) (args meta : option fields) (e : effect) : Prop :=
  (exists def, accessibleComposites c agg !! name = Some def /\
     e = RanWorkflow (ag_RoutingTable agg) (ag_Tools agg) def args) \/
  (exists target headers, accessibleComposites c agg !! name = None /\
     RouteTool range (NewSessionRouter compile (Some (ag_RoutingTable agg))) name = inr target /\
     paramHeadersFor (ag_Tools agg) name args = inr headers /\ e = SentTool target name args meta headers).

Lemma CallTool_effects c identity name args meta e :
  e ∈ (CallTool c identity name args meta).1 ->
  (CallTool c identity name args meta).1 = [e] /\
  exists agg t, aggregatedView c = inr agg /\ t ∈ advertisedTools c agg /\ tool_Name t = name /\
    adm_AllowToolCall (core_admission c) identity t args = Some true /\ dispatch c agg name args meta e.
Proof using.
  clear range_ok defs_range_ok. unfold Core.CallTool.
  destruct (aggregatedView c) as [|agg]; cbn [call_bind]; [by intros ?%elem_of_nil|].
  fold (advertisedTools c agg). destruct (authorizeToolCall _ _ _ _ _) as [|[]] eqn:Ea; cbn [call_bind]; [by intros ?%elem_of_nil|].
  destruct (findAdvertisedTool _ name) as [t|] eqn:Et; [|by intros ?%elem_of_nil].
  apply findAdvertisedTool_Some in Et as [Ht <-]. apply decision_inr in Ea. cbn in Ea.
  destruct (accessibleComposites c agg !! _) as [def|] eqn:Ed.
  - intros ->%list_elem_of_singleton. split; [done|]. exists agg, t. split_and!; try done. left. eauto.
  - destruct (RouteTool _ _ _) as [[]|target] eqn:Er; [by intros ?%elem_of_nil..|].
    destruct (paramHeadersFor _ _ _) as [|headers] eqn:Eh; cbn [call_bind]; [by intros ?%elem_of_nil|].
    intros ->%list_elem_of_singleton. split; [done|]. exists agg, t. split_and!; try done. right. eauto 10.
Qed.

(** C8. Nothing is sent without admission.  A tool call makes at most one request, and
    only for a tool that is advertised under the requested name and that the caller may
    call with these arguments.  Reads, prompts and completions are sent only when the
    caller may use the item they name, and to the backend the routing table gives. *)
Theorem calls_are_admitted c identity :
  (forall name args meta e, e ∈ (CallTool c identity name args meta).1 ->
     (CallTool c identity name args meta).1 = [e] /\
     exists agg t, aggregatedView c = inr agg /\ t ∈ advertisedTools c agg /\ tool_Name t = name /\
       adm_AllowToolCall (core_admission c) identity t args = Some true /\ dispatch c agg name args meta e) /\
  (forall uri e, e ∈ (ReadResource c identity uri).1 -> exists agg target,
     aggregatedView c = inr agg /\ e = SentRead target uri /\
     RouteResource (NewSessionRouter compile (Some (ag_RoutingTable agg))) uri = inr target /\
     adm_AllowResourceRead (core_admission c) identity (bare_resource uri "") = Some true) /\
  (forall name args e, e ∈ (GetPrompt c identity name args).1 -> exists agg target,
     aggregatedView c = inr agg /\ e = SentPrompt target name args /\
     route_Prompts (ag_RoutingTable agg) !! name = Some target /\
     adm_AllowPromptGet (core_admission c) identity (bare_prompt name) = Some true) /\
  (forall ref argName argValue ctx e, e ∈ (Complete c identity ref argName argValue ctx).1 -> exists agg target,
     aggregatedView c = inr agg /\ e = SentCompletion target ref /\
     (cref_Type ref = CompletionRefTypePrompt /\ route_Prompts (ag_RoutingTable agg) !! cref_Name ref = Some target /\
        adm_AllowPromptGet (core_admission c) identity (bare_prompt (cref_Name ref)) = Some true \/
      cref_Type ref = CompletionRefTypeResource /\
        RouteResource (NewSessionRouter compile (Some (ag_RoutingTable agg))) (cref_URI ref) = inr target /\
        adm_AllowResourceRead (core_admission c) identity (bare_resource (cref_URI ref) "") = Some true)).
Proof using.
  clear range_ok defs_range_ok. split; [apply CallTool_effects|].
  assert (forall e, ~ e ∈ ([] : list effect)) as Hnil by (intros e ?%elem_of_nil; done).
  unfold Core.ReadResource, Core.GetPrompt, Core.Complete, authorizeResourceRead, authorizePromptGet.
  destruct (aggregatedView c) as [|agg]; cbn [call_bind]; [split_and!; intros; exfalso; by eapply Hnil|].
  assert (forall n t, RoutePrompt (NewSessionRouter compile (Some (ag_RoutingTable agg))) n = inr t ->
    route_Prompts (ag_RoutingTable agg) !! n = Some t) as Hprompt.
  { intros n t. unfold RoutePrompt, NewSessionRouter. cbn. destruct (_ !! n); by intros [= ->]. }
  split_and!.
  - intros uri e. destruct (adm_AllowResourceRead _ _ _) as [[]|] eqn:Ea; cbn [decision call_bind]; [|by intros ?%Hnil..].
    destruct (RouteResource _ _) as [[]|target] eqn:Er; [by intros ?%Hnil..|]. intros ->%list_elem_of_singleton. eauto 10.
  - intros name args e. destruct (adm_AllowPromptGet _ _ _) as [[]|]; cbn [decision call_bind]; [|by intros ?%Hnil..].
    destruct (RoutePrompt _ _) as [[]|target] eqn:Er; [by intros ?%Hnil..|]. intros ->%list_elem_of_singleton. eauto 10.
  - intros ref argName argValue ctx e. case_decide; [|case_decide; [|by intros ?%Hnil]].
    + destruct (adm_AllowPromptGet _ _ _) as [[]|] eqn:Ea; cbn [decision call_bind]; [|by intros ?%Hnil..].
      destruct (RoutePrompt _ _) as [[]|target] eqn:Er; [by intros ?%Hnil..|]. intros ->%list_elem_of_singleton. eauto 10.
    + destruct (adm_AllowResourceRead _ _ _) as [[]|] eqn:Ea; cbn [decision call_bind]; [|by intros ?%Hnil..].
      destruct (RouteResource _ _) as [[]|target] eqn:Er; [by intros ?%Hnil..|]. intros ->%list_elem_of_singleton. eauto 10.
Qed.

(** A preflight check and the call it is made for, given what the admission answers:
    either both let the caller through or both answer the same denial, the call without
    an effect. *)
Definition preflight_agrees {A} (item : string) (allowed : option bool) (check : core_error + unit) (answer : call A) : Prop :=
  if decide (allowed = Some true) then check = inr tt /\ forall i, answer.2 <> inl (AuthorizationFailed i)
  else check = inl (AuthorizationFailed item) /\ answer = ([], inl (AuthorizationFailed item)).

Lemma from_backend_failed {A B} (f : A -> B) r i : from_backend f r <> inl (AuthorizationFailed i).
Proof using. by destruct r. Qed.

Lemma CallTool_agrees c identity agg name args meta :
  aggregatedView c = inr agg ->
  preflight_agrees name
    (adm_AllowToolCall (core_admission c) identity
       (default (bare_tool name) (findAdvertisedTool (advertisedTools c agg) name)) args)
    (CheckToolCall range defs_range c identity name args) (CallTool c identity name args meta).
Proof using.
  intros Ev. unfold preflight_agrees, Core.CallTool, CheckToolCall, authorizeToolCall. rewrite Ev. cbn [call_bind bind].
  fold (advertisedTools c agg). case_decide as Hd; [rewrite Hd|by rewrite (decision_inl _ _ Hd)].
  cbn [decision call_bind]. split; [done|]. intros i. destruct (findAdvertisedTool _ _); [|done].
  destruct (accessibleComposites c agg !! name); [done|]. destruct (RouteTool _ _ _) as [[]|target]; [done..|].
  destruct (paramHeadersFor _ _ _) as [e|] eqn:Eh; cbn; [|apply from_backend_failed].
  by apply paramHeaders_error in Eh as (cause & [-> | ->]).
Qed.

(** C19. A denial does not tell whether the item exists.  When the caller is denied a
    tool, resource or prompt, or the authorizer fails, the call answers with a failed
    authorization, whatever the view contains, and has no effect, and the preflight check
    gives that answer; when the caller is allowed the check passes and the call never
    answers with a failed authorization: check and call always agree.  A tool is reported
    missing only to a caller who would be allowed to call a tool of that name and when no
    such tool is advertised. *)
Theorem denial_hides_existence c identity agg :
  aggregatedView c = inr agg ->
  (forall name args meta,
     preflight_agrees name
       (adm_AllowToolCall (core_admission c) identity
          (default (bare_tool name) (findAdvertisedTool (advertisedTools c agg) name)) args)
       (CheckToolCall range defs_range c identity name args) (CallTool c identity name args meta)) /\
  (forall uri, preflight_agrees uri (adm_AllowResourceRead (core_admission c) identity (bare_resource uri ""))
     (CheckResourceRead c identity uri) (ReadResource c identity uri)) /\
  (forall name args, preflight_agrees name (adm_AllowPromptGet (core_admission c) identity (bare_prompt name))
     (CheckPromptGet c identity name) (GetPrompt c identity name args)) /\
  (view_ok agg -> defs_named c -> forall name args meta,
     (CallTool c identity name args meta).2 = inl (NotFound name) <->
     (name ∉ tool_Name <$> advertisedTools c agg) /\
     adm_AllowToolCall (core_admission c) identity (bare_tool name) args = Some true).
Proof using defs_range_ok.
  intros Ev. split; [by intros; apply CallTool_agrees|].
  unfold Core.CallTool, Core.ReadResource, Core.GetPrompt, CheckResourceRead, CheckPromptGet,
    authorizeToolCall, authorizeResourceRead, authorizePromptGet, preflight_agrees.
  rewrite Ev. cbn [call_bind bind]. fold (advertisedTools c agg). split_and!.
  - intros uri. case_decide as Hd; [rewrite Hd|by rewrite (decision_inl _ _ Hd)]. cbn [decision call_bind]. split; [done|]. intros i.
    destruct (RouteResource _ _) as [[]|]; [done..|]. apply from_backend_failed.
  - intros name args. case_decide as Hd; [rewrite Hd|by rewrite (decision_inl _ _ Hd)]. cbn [decision call_bind]. split; [done|]. intros i.
    destruct (RoutePrompt _ _) as [[]|]; [done..|]. apply from_backend_failed.
  - intros Hv Hn name args meta. destruct (findAdvertisedTool _ name) as [t|] eqn:Et; cbn [default].
    + apply findAdvertisedTool_Some in Et as [Ht <-]. split.
      2:{ intros [Hx _]. destruct Hx. apply list_elem_of_fmap. eauto. }
      intros E. exfalso. revert E. destruct (adm_AllowToolCall _ _ _ _) as [[]|]; cbn [decision call_bind]; [|done..].
      destruct (accessibleComposites c agg !! _) as [def|] eqn:Ed; [done|].
      apply advertised_spec in Ht as [Ht|(k & def & ann & Hk & _ & ->)].
      * destruct (vo_routed _ Hv t Ht) as (target & Hr & _).
        rewrite (RouteTool_key _ _ _ _ _ (vo_nonempty _ Hv t Ht) Hr).
        destruct (paramHeadersFor _ _ _) as [e|] eqn:Eh; cbn; [|by destruct (client_CallTool _ _ _ _ _ _)].
        by apply paramHeaders_error in Eh as (cause & [-> | ->]).
      * cbn in Ed. rewrite (Hn k) in Ed; [congruence|]. by apply composites_spec in Hk as [? _].
    + apply findAdvertisedTool_None in Et. destruct (adm_AllowToolCall _ _ _ _) as [[]|]; cbn [decision call_bind];
        split; try done; by intros [_ ?].
Qed.

(** ** What is listed *)
Section admission.
Context c `{!AdmissionOk (core_admission c)} (identity : option Identity).
Local Abbreviation admission := (core_admission c).

Lemma ListTools_spec agg :
  aggregatedView c = inr agg ->
  ListTools c identity = inr (filter (fun t => adm_AllowToolCall admission identity t None = Some true)
    (advertisedTools c agg)).
Proof using AdmissionOk0. intros E. unfold Core.ListTools. rewrite E. cbn [bind]. by rewrite FilterTools_spec. Qed.

Lemma filterTemplates_spec l :
  filterResourceTemplates c identity l = inr (filter (fun t =>
    adm_AllowResourceRead admission identity (bare_resource (rt_URITemplate t) "") = Some true) l).
Proof using AdmissionOk0.
  unfold filterResourceTemplates. destruct l as [|t l]; [done|]. cbv zeta. generalize (t :: l). clear t l. intros l.
  rewrite FilterResources_spec by done. cbn [filtered bind]. f_equal.
  assert (forall t, t ∈ l -> rt_URITemplate t ∈ (list_to_set (res_URI <$> filter (fun r =>
    adm_AllowResourceRead admission identity r = Some true)
      ((fun t => bare_resource (rt_URITemplate t) (rt_BackendID t)) <$> l)) : gset string) <->
    adm_AllowResourceRead admission identity (bare_resource (rt_URITemplate t) "") = Some true) as Hiff.
  { intros t Ht. rewrite elem_of_list_to_set, list_elem_of_fmap. split.
    - intros (r & E & [Hr _]%list_elem_of_filter). by rewrite <- (adm_resource_uri identity r).
    - intros Ha. exists (bare_resource (rt_URITemplate t) (rt_BackendID t)). split; [done|].
      apply list_elem_of_filter. split; [by rewrite <- Ha; apply adm_resource_uri|]. apply list_elem_of_fmap. eauto. }
  revert Hiff. generalize (list_to_set (res_URI <$> filter (fun r => adm_AllowResourceRead admission identity r = Some true)
    ((fun t => bare_resource (rt_URITemplate t) (rt_BackendID t)) <$> l)) : gset string). intros allowed.
  induction l as [|t l IH]; intros Hiff; [done|]. rewrite !filter_cons, IH by (intros; apply Hiff; by right).
  assert (t ∈ t :: l) as Ht%Hiff by left. repeat case_decide; tauto.
Qed.

Lemma call_listed agg t meta :
  aggregatedView c = inr agg -> view_ok agg -> defs_named c -> t ∈ advertisedTools c agg ->
  adm_AllowToolCall admission identity t None = Some true ->
  exists e, (CallTool c identity (tool_Name t) None meta).1 = [e] /\
    ((exists target, e = SentTool target (tool_Name t) None meta ∅ /\ bt_WorkloadID target = tool_BackendID t /\ t ∈ ag_Tools agg) \/
     (exists def, e = RanWorkflow (ag_RoutingTable agg) (ag_Tools agg) def None /\
        core_workflowDefs c !! tool_Name t = Some def /\ wd_Name def = tool_Name t)).
Proof using defs_range_ok.
  intros Ev Hv Hd Ht Ha. unfold Core.CallTool. rewrite Ev. cbn [call_bind]. fold (advertisedTools c agg).
  rewrite findAdvertisedTool_unique by (done || by apply advertised_nodup).
  unfold authorizeToolCall. cbn [from_option id]. rewrite Ha. cbn [decision call_bind].
  destruct (accessibleComposites c agg !! _) as [def|] eqn:Ed.
  { eexists. split; [done|]. right. exists def. apply composites_spec in Ed as [Ed _]. split_and!; [done..|]. by apply Hd. }
  apply advertised_spec in Ht as [Ht|(k & def & ann & Hk & _ & ->)].
  2:{ cbn in Ed. rewrite (Hd k) in Ed; [congruence|]. by apply composites_spec in Hk as [? _]. }
  destruct (vo_routed _ Hv t Ht) as (target & Hr & Hw). rewrite (RouteTool_key _ _ _ _ _ (vo_nonempty _ Hv t Ht) Hr).
  unfold paramHeadersFor. rewrite findAdvertisedTool_unique by (done || by apply vo_names).
  destruct (vo_headers _ Hv t Ht) as [marked Hm].
  cbn [from_option]. rewrite (no_args_no_headers _ _ Hm).
  cbn [call_bind]. eexists. split; [done|]. left. eauto.
Qed.

(** C18. What is listed is what can be called.  The tools listed for a caller have distinct
    names and can each be looked up.  A call without arguments is carried out, with one
    request, exactly for the names that are listed: a backend tool goes to the backend it
    is listed with, and a composite tool runs the workflow of its name. *)
Theorem listed_is_callable agg :
  aggregatedView c = inr agg -> view_ok agg -> defs_named c ->
  exists ts, ListTools c identity = inr ts /\ NoDup (tool_Name <$> ts) /\
    (forall t, t ∈ ts -> LookupTool c identity (tool_Name t) = inr t) /\
    (forall name meta, (exists e, (CallTool c identity name None meta).1 = [e]) <-> name ∈ tool_Name <$> ts) /\
    (forall t meta, t ∈ ts ->
       (exists target, (CallTool c identity (tool_Name t) None meta).1 = [SentTool target (tool_Name t) None meta ∅] /\
          bt_WorkloadID target = tool_BackendID t /\ t ∈ ag_Tools agg) \/
       (exists def, (CallTool c identity (tool_Name t) None meta).1 =
          [RanWorkflow (ag_RoutingTable agg) (ag_Tools agg) def None] /\
          core_workflowDefs c !! tool_Name t = Some def /\ wd_Name def = tool_Name t)).
Proof using defs_range_ok AdmissionOk0.
  intros Ev Hv Hd. pose proof (ListTools_spec agg Ev) as El. eexists. split; [exact El|].
  pose proof (advertised_nodup c agg Hv Hd) as Hn.
  assert (NoDup (tool_Name <$> filter (fun t => adm_AllowToolCall admission identity t None = Some true)
    (advertisedTools c agg))) as Hn'.
  { eapply sublist_NoDup; [exact Hn|]. apply fmap_sublist, sublist_filter. }
  split_and!; [done| | |].
  - intros t Ht. unfold Core.LookupTool. rewrite El. cbn [bind].
    pose proof (lookup_first_spec (fun t' => bool_decide (tool_Name t' = tool_Name t)) id (tool_Name t)
      (filter (fun t => adm_AllowToolCall admission identity t None = Some true) (advertisedTools c agg))) as Hl.
    destruct (lookup_first _ _ _ _) as [e|t'].
    + destruct Hl as [_ Hl]. specialize (Hl t Ht). by rewrite bool_decide_eq_false in Hl.
    + destruct Hl as (x & Hx & E & ->). apply bool_decide_eq_true in E. unfold id. f_equal.
      by eapply (NoDup_fmap_elem tool_Name).
  - intros name meta. rewrite list_elem_of_fmap. split.
    + intros [e He]. destruct (CallTool_effects c identity name None meta e) as (_ & agg' & t & Ev' & Ht & Hname & Ha & _).
      { rewrite He. left. }
      assert (agg' = agg) as -> by congruence. exists t. split; [done|]. by apply list_elem_of_filter.
    + intros (t & -> & [Ha Ht]%list_elem_of_filter). destruct (call_listed agg t meta Ev Hv Hd Ht Ha) as (e & He & _). eauto.
  - intros t meta [Ha Ht]%list_elem_of_filter.
    destruct (call_listed agg t meta Ev Hv Hd Ht Ha) as (e & He & [(target & -> & Hw & Hin)|(def & -> & Hk & Hname)]); eauto.
Qed.

(** Discovery and the lists agree. *)
Lemma discover_spec agg :
  aggregatedView c = inr agg -> exists tools resources templates prompts d,
    ListTools c identity = inr tools /\ ListResources c identity = inr resources /\
    ListResourceTemplates c identity = inr templates /\ ListPrompts c identity = inr prompts /\
    Discover range defs_range c identity = inr d /\
    (HasTools d = true <-> tools <> []) /\ (HasResources d = true <-> resources <> []) /\
    (HasResourceTemplates d = true <-> templates <> []) /\ (HasPrompts d = true <-> prompts <> []).
Proof using AdmissionOk0.
  intros Ev. unfold Discover, Core.ListTools, ListResources, ListResourceTemplates, ListPrompts.
  rewrite Ev. cbn [bind]. rewrite FilterTools_spec, FilterResources_spec, FilterPrompts_spec, filterTemplates_spec by done.
  cbn [filtered bind]. do 5 eexists. split_and!; [done..| | | |]; cbn;
    rewrite bool_decide_eq_true, <- Nat.neq_0_lt_0; by rewrite length_zero_iff_nil.
Qed.

(** A backend is visible to a caller exactly when the caller may use one of the
    tools, resources or prompts it contributes, whatever its health; only the backends
    of the registry are shown, in the order of the registry.  A lookup resolves
    exactly the identifiers of the visible backends. *)
Theorem backend_visibility agg :
  core_registry c <> [] -> core_aggregator c (core_registry c) = inr agg ->
  exists bs, ListBackends c identity true = inr bs /\ bs `sublist_of` core_registry c /\
    (forall b, b ∈ bs <-> b ∈ core_registry c /\
       ((exists t, t ∈ ag_Tools agg /\ tool_BackendID t = b_ID b /\ adm_AllowToolCall admission identity t None = Some true) \/
        (exists r, r ∈ ag_Resources agg /\ res_BackendID r = b_ID b /\ adm_AllowResourceRead admission identity r = Some true) \/
        (exists p, p ∈ ag_Prompts agg /\ prompt_BackendID p = b_ID b /\ adm_AllowPromptGet admission identity p = Some true))) /\
    (forall id, (exists b, LookupBackend c identity id = inr b) <-> id ∈ b_ID <$> bs) /\
    (forall id b, LookupBackend c identity id = inr b -> b ∈ bs /\ b_ID b = id).
Proof using AdmissionOk0.
  intros Hne Ea. unfold LookupBackend, ListBackends. cbn [negb]. destruct (core_registry c) as [|b0 l] eqn:El; [done|].
  unfold authorizedBackends, aggregateBackends. rewrite Ea. cbn [bind].
  rewrite FilterTools_spec, FilterResources_spec, FilterPrompts_spec by done. cbn [filtered bind].
  eexists. split; [done|]. split; [apply sublist_filter|]. split; [|split].
  - intros b. rewrite list_elem_of_filter, !elem_of_union, !elem_of_list_to_set, !list_elem_of_fmap.
    setoid_rewrite list_elem_of_filter. split.
    + intros [[[(x & ? & ? & ?)|(x & ? & ? & ?)]|(x & ? & ? & ?)] Hb]; split; eauto 10.
    + intros [Hb [(x & ? & ? & ?)|[(x & ? & ? & ?)|(x & ? & ? & ?)]]]; split; eauto 10.
  - intros id. set (bs := filter _ _). pose proof (lookup_first_spec (fun b => bool_decide (b_ID b = id)) Datatypes.id id bs) as Hl.
    rewrite list_elem_of_fmap. destruct (lookup_first _ _ _ _) as [e|y].
    + destruct Hl as [_ Hl]. split; [by intros [? ?]|]. intros (b & -> & Hb%Hl). by rewrite bool_decide_eq_false in Hb.
    + destruct Hl as (x & Hx & E%bool_decide_eq_true & ->). split; [eauto|]. eauto.
  - intros id b. set (bs := filter _ _). pose proof (lookup_first_spec (fun b => bool_decide (b_ID b = id)) Datatypes.id id bs) as Hl.
    intros E. rewrite E in Hl. by destruct Hl as (x & Hx & E'%bool_decide_eq_true & ->).
Qed.
End admission.
End spec.
