(* ===== verification/EndToEnd.v ===== *)
(** * From a call to a backend

    The core over the default aggregator and the health monitor, and its construction
    by [New]: where a call ends up, and what a core that was built may rely on. *)

From S2P Require Import Prelude VmcpTypes HealthMonitor HealthReport AggregatorTypes WorkflowTypes Workflow.
From S2P Require Import ToolResolvers ToolAdapter CapabilityConflicts Aggregator SessionBinding Router CompositeTools ParamHeaders.
From S2P Require Import Admission Core CoreSpec.

Section end_to_end.
Context (compile : string -> option (string -> bool)).
Context (range : gmap string BackendTarget -> list (string * BackendTarget)).
Context (defs_range : gmap string WorkflowDefinition -> list (string * WorkflowDefinition)).
Context (Marshal : option fields -> string + string).
Hypothesis range_ok : forall m, range m ≡ₚ map_to_list m.
Hypothesis defs_range_ok : forall m, defs_range m ≡ₚ map_to_list m.

(** The default aggregator, and the order in which its queries complete. *)
Context {R : Type} `{ConflictResolverOk R} (orders : map_orders).
Context (ListCapabilities : BackendTarget -> option CapabilityList) (a : defaultAggregator (R := R)).
Context (completed : list Backend -> list Backend).
Hypothesis orders_ok : map_orders_ok orders.
Hypothesis completed_ok : forall bs, completed bs ≡ₚ bs.

Context (c : coreVMCP).
Hypothesis c_aggregator :
  core_aggregator c = fun bs => AggregateCapabilities orders ListCapabilities a bs (completed bs).
Hypothesis c_registry : NoDup (b_ID <$> core_registry c).

(** The target is a backend of the registry whose health allows it to be advertised,
    and the request names a tool this backend lists. *)
Definition serves (target : BackendTarget) : Prop :=
  exists b caps t, b ∈ core_registry c /\ ShouldAdvertise (health_status (core_health c) b) = true /\
    ListCapabilities (BackendToTarget b) = Some caps /\ t ∈ cl_Tools caps /\
    target = with_original (BackendToTarget b) (tool_Name t).

(** Every backend lists tools of distinct names, and its configured overrides are valid and
    unambiguous. *)
Definition overrides_ok : Prop :=
  forall b caps, ListCapabilities (BackendToTarget b) = Some caps -> overrides_unambiguous a b caps.

Lemma view_routable agg :
  aggregatedView c = inr agg ->
  routable_view ListCapabilities a (filterHealthyBackends (core_registry c) (core_health c)) agg.
Proof using orders_ok completed_ok c_aggregator c_registry H0.
  unfold aggregatedView, aggregateBackends. rewrite c_aggregator.
  destruct (AggregateCapabilities _ _ _ _ _) as [|agg'] eqn:E; [done|]. intros [= ->].
  eapply aggregate_routable; [exact orders_ok|apply completed_ok| |exact E].
  eapply sublist_NoDup; [exact c_registry|]. apply fmap_sublist, sublist_filter.
Qed.

Lemma routes_serve agg n target :
  overrides_ok -> aggregatedView c = inr agg ->
  route_Tools (ag_RoutingTable agg) !! n = Some target -> serves target.
Proof using orders_ok completed_ok c_aggregator c_registry H0.
  intros Ho Hv Hn. destruct (view_routable agg Hv) as (_ & _ & Hroutes & _).
  destruct (Hroutes n target Hn) as (b & caps & Hb & Hl & _ & Ht).
  apply list_elem_of_filter in Hb as [Hh Hb].
  destruct (Ht (Ho b caps Hl)) as (t & Hin & -> & _). exists b, caps, t. done.
Qed.

(** C1. A call ends at a backend that offers the tool.  Where every backend lists tools of
    distinct names and the configured overrides are valid and unambiguous (no override gives a
    tool a name that another tool of the backend keeps or is given), whatever the conflict
    resolution and the order of the queries, a request the core sends
    for a tool call goes to a backend of the registry, under the address and
    credentials the registry has for it, whose health allows it to be advertised at
    that moment, and names a tool this backend itself lists.  When the call runs a
    workflow, every tool its steps refer to is routed to such a backend. *)
Theorem call_reaches_offering_backend identity name args meta e :
  overrides_ok -> e ∈ (CallTool compile range defs_range Marshal c identity name args meta).1 ->
  match e with
  | SentTool target _ _ _ _ => serves target
  | RanWorkflow table _ def _ =>
      core_workflowDefs c !! name = Some def /\
      forall ref, ref ∈ tool_refs def -> exists target,
        RouteTool range (NewSessionRouter compile (Some table)) ref = inr target /\ serves target
  | _ => False
  end.
Proof using range_ok defs_range_ok orders_ok completed_ok c_aggregator c_registry H0.
  intros Ho (_ & agg & t & Hv & _ & _ & _ & Hd)%CallTool_effects.
  destruct Hd as [(def & Hc & ->)|(target & headers & _ & Hr & _ & ->)].
  - apply (composites_spec range defs_range defs_range_ok) in Hc as (Hk & Ha & _). split; [done|].
    intros ref [n Hn]%Ha. unfold RouteTool. cbn [NewSessionRouter sr_routingTable]. rewrite Hn.
    apply ResolveToolRef_sound in Hn as [target Ht]%denotes_routed; [|done]. rewrite Ht.
    exists target. split; [done|]. by eapply routes_serve.
  - apply RouteTool_inr in Hr as (n & _ & Hn); [|done]. by eapply routes_serve.
Qed.

(** The view of the default aggregator meets what the core relies on, when the names
    are not empty and malformed annotations are dropped. *)
Lemma default_view_ok agg :
  aggregatedView c = inr agg ->
  (forall t, t ∈ ag_Tools agg -> tool_Name t <> "" /\ exists marked, ParamHeaders (schema_of t) = inr marked) ->
  view_ok agg.
Proof using orders_ok completed_ok c_aggregator c_registry H0.
  intros Hv Ht. destruct (view_routable agg Hv) as (Hn & Hr & _).
  split; [done| |done|]; intros t Hin; by destruct (Ht t Hin).
Qed.
End end_to_end.

(** ** Construction *)
Lemma valid_defs_spec quote l acc valid :
  NoDup l.*1 -> valid_defs quote l acc = inr valid ->
  valid = list_to_map l ∪ acc /\ forall k def, (k, def) ∈ l -> ValidateWorkflow quote (Some def) = Some None.
Proof.
  revert acc. induction l as [|[k def] l IH]; intros acc Hn; cbn [valid_defs].
  { intros [= ->]. split; [symmetry; apply map_empty_union|]. intros k def Hin. by apply elem_of_nil in Hin. }
  apply NoDup_cons in Hn as [Hk Hn]. destruct (ValidateWorkflow quote (Some def)) as [[|]|] eqn:Ev; [done| |done].
  intros [-> Hin]%IH; [|done]. split.
  - cbn [list_to_map foldr]. rewrite <- insert_union_r; [by rewrite <- insert_union_l|]. by apply not_elem_of_list_to_map_1.
  - intros k' def' [[= -> ->]|Hin']%elem_of_cons; eauto.
Qed.

Lemma validateWorkflowDefs_spec quote defs_range defs valid :
  (forall m, defs_range m ≡ₚ map_to_list m) ->
  validateWorkflowDefs quote defs_range defs = inr valid ->
  valid = defs /\ forall k def, defs !! k = Some def -> ValidateWorkflow quote (Some def) = Some None.
Proof.
  intros Hr. assert (NoDup (defs_range defs).*1) as Hn by (rewrite Hr; apply NoDup_fst_map_to_list).
  intros [-> Hin]%valid_defs_spec; [|done]. split.
  - rewrite map_union_empty. transitivity (list_to_map (map_to_list defs) : gmap string WorkflowDefinition);
      [by apply list_to_map_proper|apply list_to_map_to_list].
  - intros k def Hk. apply (Hin k). by rewrite Hr, elem_of_map_to_list.
Qed.

Lemma startChecks_started l m : mon_started (foldl (fun m b => startCheck (b_ID b) b m) m l) = mon_started m.
Proof. revert m. induction l as [|b l IH]; intros m; [done|]. cbn [foldl]. by rewrite IH. Qed.

Lemma buildHealthMonitor_started config backends health :
  buildHealthMonitor config backends = inr health ->
  config <> None <-> exists m, health = Some m /\ mon_started m = true.
Proof.
  unfold buildHealthMonitor. destruct config as [config|]; [|intros [= <-]; naive_solver].
  destruct (NewMonitor backends config) as [monitor|] eqn:Em; [|done].
  unfold NewMonitor in Em. repeat (case_match; [done|]). injection Em as <-.
  unfold Start. cbn [mon_stopped mon_started]. intros [= <-]. split; [|done]. intros _. eexists. split; [done|]. by rewrite startChecks_started.
Qed.

(** A core that was built is well-formed: nothing it needs is missing, its admission
    seam lists exactly what it lets through, every workflow it holds passed validation and
    is one of the configured ones, a workflow that asks the user something has a way to
    ask, and without authorization settings every caller is admitted.  The health monitor,
    when there is one, runs. *)
Theorem New_well_formed quote defs_range GetFactory engine config c :
  (forall m, defs_range m ≡ₚ map_to_list m) ->
  New quote defs_range GetFactory engine config = inr c ->
  exists cfg, config = Some cfg /\
    AdmissionOk (core_admission c) /\ (cfg_Authz cfg = None -> core_admission c = allowAllAdmission) /\
    (cfg_Authz cfg <> None -> cfg_ServerName cfg <> "") /\
    core_workflowDefs c = cfg_WorkflowDefs cfg /\
    (forall k def, core_workflowDefs c !! k = Some def ->
       ValidateWorkflow quote (Some def) = Some None /\
       (cfg_Elicitation cfg = false -> existsb requires_elicitation (wd_Steps def) = false)) /\
    Some (core_registry c) = cfg_BackendRegistry cfg /\
    (cfg_HealthMonitorConfig cfg <> None <-> exists m, core_health c = Some m /\ mon_started m = true).
Proof.
  intros Hr. unfold New. destruct (validateConfig config) as [|] eqn:Ev; [done|].
  destruct config as [cfg|]; [|done]. unfold validateConfig in Ev.
  destruct cfg as [[aggregator|] router [registry|] [client|] defs authz serverName hc elicit] eqn:Ec; cbn in Ev |- *;
    try (by repeat case_match).
  destruct (newAdmission GetFactory authz serverName) as [|admission] eqn:Ea; [done|].
  destruct (validateWorkflowDefs quote defs_range defs) as [|valid] eqn:Ew; [done|].
  apply validateWorkflowDefs_spec in Ew as [-> Hw]; [|done].
  destruct (buildHealthMonitor hc registry) as [|health] eqn:Eh; [done|]. intros [= <-]. cbn.
  exists cfg. rewrite Ec. cbn. split_and!; try done.
  - by eapply newAdmission_ok.
  - intros ->. by injection Ea.
  - intros Hz ->. unfold newAdmission in Ea. by destruct authz.
  - intros k def Hk. split; [by eapply Hw|]. intros ->. destruct router; [|done]. cbn in Ev.
    destruct (workflowsRequireElicitation defs) eqn:Ee; [done|]. unfold workflowsRequireElicitation in Ee.
    rewrite any_if_false in Ee. by eapply Ee.
  - by eapply buildHealthMonitor_started.
Qed.

(** ** A sample core: two backends that list a tool each, a workflow, and a policy that
    denies the tool of the second backend *)
Definition sample_completed (bs : list Backend) : list Backend := bs.
Definition sample_compile (tmpl : string) : option (string -> bool) := Some (fun uri => bool_decide (tmpl = uri)).
Definition sample_marshal (output : option fields) : string + string := inr "{}".

Definition sample_list_of (t : BackendTarget) : option CapabilityList := Some {|
  cl_Tools := [{| tool_Name := "get"; tool_Description := ""; tool_InputSchema := JNull; tool_OutputSchema := JNull;
                  tool_Annotations := None; tool_BackendID := bt_WorkloadID t |}];
  cl_Resources := []; cl_ResourceTemplates := []; cl_Prompts := [];
  cl_SupportsLogging := false; cl_SupportsSampling := false |}.

Definition sample_authorizer : Authorizer :=
  fun _ _ _ _ name _ => Some (bool_decide (name <> "b_get")).

Definition sample_client : BackendClient := {|
  client_CallTool _ _ _ _ _ := inr {| tcr_Content := []; tcr_StructuredContent := None; tcr_IsError := false;
                                     tcr_Meta := None; tcr_BackendID := "" |};
  client_ReadResource _ _ := inr {| rrr_Contents := []; rrr_Meta := None; rrr_BackendID := "" |};
  client_GetPrompt _ _ _ := inr {| pgr_Messages := []; pgr_Description := ""; pgr_Meta := None; pgr_BackendID := "" |};
  client_Complete _ _ _ _ _ := inr emptyCompletion |}.

Definition sample_flow : WorkflowDefinition := {|
  wd_Name := "flow"; wd_Description := ""; wd_Parameters := ∅;
  wd_Steps := [mkStep "s" StepTypeTool "a.get" ∅ "" [] None None 0 ∅ ∅ "" "" 0 0 None];
  wd_Timeout := 0; wd_FailureMode := "abort"; wd_Output := None; wd_Annotations := None; wd_Metadata := ∅ |}.

Definition sample_config : Config := {|
  cfg_Aggregator := Some (fun bs =>
    AggregateCapabilities sample_orders sample_list_of sample_aggregator bs (sample_completed bs));
  cfg_Router := true;
  cfg_BackendRegistry := Some [sample_backend "a"; sample_backend "b"];
  cfg_BackendClient := Some sample_client;
  cfg_WorkflowDefs := {["flow" := sample_flow]};
  cfg_Authz := Some {| azc_Type := "cedarv1"; azc_RawConfig := "" |};
  cfg_ServerName := "vmcp";
  cfg_HealthMonitorConfig := None;
  cfg_Elicitation := false |}.

Definition sample_core : coreVMCP := {|
  core_aggregator bs := AggregateCapabilities sample_orders sample_list_of sample_aggregator bs (sample_completed bs);
  core_registry := [sample_backend "a"; sample_backend "b"];
  core_client := sample_client;
  core_health := None;
  core_admission := newCedarAdmission sample_authorizer;
  core_workflowDefs := {["flow" := sample_flow]};
  core_composerFactory _ _ _ _ := WorkflowNil |}.

Definition sample_view : AggregatedCapabilities :=
  match aggregatedView sample_core with
  | inr agg => agg
  | inl _ => {| ag_Tools := []; ag_Resources := []; ag_ResourceTemplates := []; ag_Prompts := [];
                ag_SupportsLogging := false; ag_SupportsSampling := false;
                ag_RoutingTable := {| route_Tools := ∅; route_Resources := ∅; route_ResourceTemplates := ∅;
                                      route_Prompts := ∅ |};
                ag_Metadata := {| md_BackendCount := 0; md_ToolCount := 0; md_ResourceCount := 0;
                                  md_ResourceTemplateCount := 0; md_PromptCount := 0;
                                  md_ConflictStrategy := ConflictStrategyPrefix |} |}
  end.

Lemma New_well_formed_witness :
  New id map_to_list (fun _ => Some (fun _ _ => Some sample_authorizer)) (fun _ _ _ _ _ => WorkflowNil)
    (Some sample_config) = inr sample_core /\ AdmissionOk (core_admission sample_core).
Proof.
  assert (New id map_to_list (fun _ => Some (fun _ _ => Some sample_authorizer)) (fun _ _ _ _ _ => WorkflowNil)
    (Some sample_config) = inr sample_core) as E by reflexivity.
  split; [exact E|]. destruct (New_well_formed _ _ _ _ _ _ (fun m => reflexivity _) E) as (cfg & _ & Ha & _). exact Ha.
Defined.

Lemma sample_view_eq : aggregatedView sample_core = inr sample_view.
Proof. vm_compute. reflexivity. Qed.

Definition sample_advertised (id : string) : Tool := {|
  tool_Name := id +:+ "_get"; tool_Description := ""; tool_InputSchema := JNull; tool_OutputSchema := JNull;
  tool_Annotations := None; tool_BackendID := id |}.

Lemma sample_view_tools : ag_Tools sample_view = [sample_advertised "a"; sample_advertised "b"].
Proof. vm_compute. reflexivity. Qed.

Lemma sample_view_ok : view_ok sample_view.
Proof.
  assert (forall P : Tool -> Prop, P (sample_advertised "a") -> P (sample_advertised "b") ->
    forall t, t ∈ ag_Tools sample_view -> P t) as Hall.
  { intros P Ha Hb t. rewrite sample_view_tools, !elem_of_cons, elem_of_nil. naive_solver. }
  split.
  - rewrite sample_view_tools. apply (bool_decide_unpack _). vm_compute. exact I.
  - apply Hall; done.
  - apply Hall; eexists; vm_compute; done.
  - apply Hall; eexists; vm_compute; reflexivity.
Qed.

Lemma sample_defs_named : defs_named sample_core.
Proof.
  intros k def Hk. change (({["flow" := sample_flow]} : gmap string WorkflowDefinition) !! k = Some def) in Hk.
  by apply lookup_singleton_Some in Hk as [<- <-].
Qed.

Lemma denial_hides_existence_witness :
  CallTool sample_compile map_to_list map_to_list sample_marshal sample_core None "b_get" None None =
    ([], inl (AuthorizationFailed "b_get")) /\
  CheckToolCall map_to_list map_to_list sample_core None "a_get" None = inr tt /\
  (CallTool sample_compile map_to_list map_to_list sample_marshal sample_core None "none" None None).2 =
    inl (NotFound "none").
Proof.
  destruct (denial_hides_existence sample_compile map_to_list map_to_list sample_marshal
    (fun m => reflexivity _) sample_core None sample_view sample_view_eq) as (Hd & _ & _ & Hn).
  split_and!.
  - pose proof (Hd "b_get" None None) as Hb. unfold preflight_agrees in Hb. rewrite decide_False in Hb; [apply Hb|].
    vm_compute. discriminate.
  - pose proof (Hd "a_get" None None) as Ha. unfold preflight_agrees in Ha. rewrite decide_True in Ha; [apply Ha|].
    vm_compute. reflexivity.
  - apply (Hn sample_view_ok sample_defs_named "none" None None). split; [|vm_compute; reflexivity].
    apply (bool_decide_unpack _). vm_compute. exact I.
Defined.

Lemma listed_is_callable_witness :
  exists ts, ListTools map_to_list map_to_list sample_core None = inr ts /\ (tool_Name <$> ts) = ["a_get"; "flow"] /\
    exists e, (CallTool sample_compile map_to_list map_to_list sample_marshal sample_core None "flow" None None).1 = [e].
Proof.
  destruct (listed_is_callable sample_compile map_to_list map_to_list sample_marshal
    (fun m => reflexivity _) sample_core None sample_view sample_view_eq sample_view_ok sample_defs_named)
    as (ts & Hl & _ & _ & Hc & _).
  assert ((tool_Name <$> ts) = ["a_get"; "flow"]) as Hn.
  { assert (inr ts = ListTools map_to_list map_to_list sample_core None) as E by done.
    vm_compute in E. injection E as ->. reflexivity. }
  exists ts. split; [exact Hl|]. split; [exact Hn|]. apply Hc. rewrite Hn. right. left.
Defined.

Lemma backend_visibility_witness :
  exists bs, ListBackends sample_core None true = inr bs /\ (forall b, b ∈ bs -> b ∈ core_registry sample_core).
Proof.
  destruct (backend_visibility sample_core None sample_view) as (bs & Hl & _ & Hb & _).
  - discriminate.
  - vm_compute. reflexivity.
  - exists bs. split; [exact Hl|]. intros b [Hin _]%Hb. exact Hin.
Defined.

Lemma sample_overrides_ok : overrides_ok sample_list_of sample_aggregator.
Proof.
  intros b caps [= <-]. split; [apply NoDup_singleton|]. intros wl Hwl. by vm_compute in Hwl.
Qed.

Lemma call_reaches_offering_backend_witness :
  exists target, (CallTool sample_compile map_to_list map_to_list sample_marshal sample_core None "a_get" None None).1 =
    [SentTool target "a_get" None None ∅] /\ serves sample_list_of sample_core target.
Proof.
  eexists. split; [vm_compute; reflexivity|].
  refine (call_reaches_offering_backend sample_compile map_to_list map_to_list sample_marshal
    (fun m => reflexivity _) (fun m => reflexivity _) sample_orders sample_list_of sample_aggregator sample_completed
    _ (fun bs => reflexivity _) sample_core eq_refl _ None "a_get" None None (SentTool _ "a_get" None None ∅)
    sample_overrides_ok _).
  - split; intros m; reflexivity.
  - apply (bool_decide_unpack _). vm_compute. exact I.
  - vm_compute. left.
Defined.

(** ** A template that is withheld while its expansions may be read

    [LookupResource] checks the templates that are listed, [ReadResource] the URI: a policy
    that denies the template's own text hides the resource from the lookup only. *)
Definition template_core : coreVMCP := {|
  core_aggregator _ := inr {|
    ag_Tools := []; ag_Resources := [];
    ag_ResourceTemplates := [{| rt_URITemplate := "file:///{name}"; rt_Name := ""; rt_Description := "";
                                rt_MimeType := ""; rt_BackendID := "a" |}];
    ag_Prompts := []; ag_SupportsLogging := false; ag_SupportsSampling := false;
    ag_RoutingTable := {| route_Tools := ∅; route_Resources := ∅; route_Prompts := ∅;
      route_ResourceTemplates := {["file:///{name}" := BackendToTarget (sample_backend "a")]} |};
    ag_Metadata := ag_Metadata sample_view |};
  core_registry := [sample_backend "a"];
  core_client := sample_client;
  core_health := None;
  core_admission := newCedarAdmission (fun _ _ _ _ name _ => Some (bool_decide (name = "file:///readme")));
  core_workflowDefs := ∅;
  core_composerFactory _ _ _ _ := WorkflowNil |}.

Example readable_but_not_found :
  let compile tmpl := Some (fun uri => bool_decide (tmpl = "file:///{name}" /\ uri = "file:///readme")) in
  (ReadResource compile template_core None "file:///readme").1 =
    [SentRead (BackendToTarget (sample_backend "a")) "file:///readme"] /\
  LookupResource compile template_core None "file:///readme" = inl (NotFound "file:///readme").
Proof. vm_compute. split; reflexivity. Qed.
