(* ===== verification/SchemaCoercion.v ===== *)
(** * Coercion of arguments to the types of a schema ([pkg/vmcp/schema])

    Template expansion produces text; the arguments of a tool have the types of its
    schema.  A raw JSON schema is parsed into a tree of coercers, and coercing a value
    converts the strings that stand where another type is declared.  An object is the
    list of its entries in the order of the loop.  [strconv.ParseInt] and
    [strconv.ParseBool] are written out; [ParseFloat] is [strconv.ParseFloat], whose
    result is a number. *)

From Stdlib Require Import Ascii.
From S2P Require Import Prelude VmcpTypes GoStrings ParamHeaders.

(** ** Package [strconv] *)
Definition digit (c : ascii) : option Z :=
  let n := nat_of_ascii c in
  if (48 <=? n) && (n <=? 57) then Some (Z.of_nat n - 48)%Z else None.

Fixpoint digits (s : string) (acc : Z) : option Z :=
  match s with
  | EmptyString => Some acc
  | String c s => match digit c with Some d => digits s (10 * acc + d)%Z | None => None end
  end.

Definition unsigned (s : string) : option Z := if decide (s = "") then None else digits s 0.

(** Base 10, 64 bits: a number out of range is an error. *)
Definition ParseInt (s : string) : option Z :=
  let n := match s with
           | String "+" s => unsigned s
           | String "-" s => Z.opp <$> unsigned s
           | _ => unsigned s
           end in
  match n with
  | Some n => if (MinInt64 <=? n)%Z && (n <=? MaxInt64)%Z then Some n else None
  | None => None
  end.

Definition ParseBool (s : string) : option bool :=
  if decide (s ∈ ["1"; "t"; "T"; "true"; "TRUE"; "True"]) then Some true
  else if decide (s ∈ ["0"; "f"; "F"; "false"; "FALSE"; "False"]) then Some false
  else None.

(** ** Schemas *)
Inductive TypeCoercer :=
  | passthroughSchema
  | primitiveSchema (schemaType : string)
  | arraySchema (items : TypeCoercer)
  | objectSchema (properties : list (string * TypeCoercer)).

(** The entry of a map. *)
Fixpoint assoc {A} (key : string) (l : list (string * A)) : option A :=
  match l with
  | [] => None
  | (k, v) :: l => if decide (k = key) then Some v else assoc key l
  end.

(** [makeObjectSchema]: properties that are not objects are skipped; [makeArraySchema]:
    items that are not an object pass through. *)
Fixpoint MakeSchema (raw : json) : TypeCoercer :=
  let makeObjectSchema := fix find (l : list (string * json)) :=
    match l with
    | [] => []
    | (k, v) :: l =>
        if decide (k = "properties") then
          match v with
          | JObj props => (fix go (l : list (string * json)) :=
              match l with
              | [] => []
              | (n, p) :: l => match p with JObj _ => (n, MakeSchema p) :: go l | _ => go l end
              end) props
          | _ => []
          end
        else find l
    end in
  let makeArraySchema := fix find (l : list (string * json)) :=
    match l with
    | [] => passthroughSchema
    | (k, v) :: l =>
        if decide (k = "items") then match v with JObj _ => MakeSchema v | _ => passthroughSchema end
        else find l
    end in
  match raw with
  | JObj fields =>
      match assoc "type" fields with
      | Some (JStr schemaType) =>
          if decide (schemaType = "object") then objectSchema (makeObjectSchema fields)
          else if decide (schemaType = "array") then arraySchema (makeArraySchema fields)
          else if decide (schemaType ∈ ["string"; "integer"; "number"; "boolean"])
          then primitiveSchema schemaType
          else passthroughSchema
      | _ => passthroughSchema
      end
  | _ => passthroughSchema
  end.

Section coercion.
Context (ParseFloat : string -> option json).

Definition coerce_primitive (schemaType str : string) : json :=
  if decide (schemaType = "integer") then match ParseInt str with Some v => JNum v | None => JStr str end
  else if decide (schemaType = "number") then match ParseFloat str with Some v => v | None => JStr str end
  else if decide (schemaType = "boolean") then match ParseBool str with Some b => JBool b | None => JStr str end
  else JStr str.

Fixpoint TryCoerce (value : json) (s : TypeCoercer) : json :=
  match s, value with
  | primitiveSchema schemaType, JStr str => coerce_primitive schemaType str
  | arraySchema items, JArr arr => JArr (map (fun elem => TryCoerce elem items) arr)
  | objectSchema properties, JObj obj =>
      JObj (map (fun entry => (entry.1, match assoc entry.1 properties with
                                        | Some propSchema => TryCoerce entry.2 propSchema
                                        | None => entry.2
                                        end)) obj)
  | _, value => value
  end.

(** The arguments of a call: an object stays one. *)
Definition coerce_args (schema : json) (args : fields) : fields :=
  match TryCoerce (JObj args) (MakeSchema schema) with JObj coerced => coerced | _ => args end.
End coercion.

(** ** Equations of [MakeSchema] *)
Definition object_properties (fields : list (string * json)) : list (string * TypeCoercer) :=
  match assoc "properties" fields with
  | Some (JObj props) => omap (fun np => match np.2 with JObj _ => Some (np.1, MakeSchema np.2) | _ => None end) props
  | _ => []
  end.

Definition array_items (fields : list (string * json)) : TypeCoercer :=
  match assoc "items" fields with Some (JObj _ as items) => MakeSchema items | _ => passthroughSchema end.

Lemma MakeSchema_object fields :
  assoc "type" fields = Some (JStr "object") -> MakeSchema (JObj fields) = objectSchema (object_properties fields).
Proof.
  intros E. cbn [MakeSchema]. rewrite E, decide_True by done. f_equal. unfold object_properties. clear E.
  induction fields as [|[k v] l IH]; [done|]. cbn [assoc]. case_decide; [|by rewrite IH].
  destruct v as [| | | | | |props]; try done. induction props as [|[n p] props IHp]; [done|].
  rewrite omap_cons_eq. cbn [fst snd]. rewrite IHp. by destruct p.
Qed.

Lemma MakeSchema_array fields :
  assoc "type" fields = Some (JStr "array") -> MakeSchema (JObj fields) = arraySchema (array_items fields).
Proof.
  intros E. cbn [MakeSchema]. rewrite E, decide_False, decide_True by done. f_equal. unfold array_items. clear E.
  induction fields as [|[k v] l IH]; [done|]. cbn [assoc]. by case_decide.
Qed.

(** ** Induction over values *)
Lemma json_ind' (P : json -> Prop) :
  P JNull -> (forall b, P (JBool b)) -> (forall n, P (JNum n)) -> (forall t, P (JFloat t)) ->
  (forall s, P (JStr s)) -> (forall l, Forall P l -> P (JArr l)) ->
  (forall fields, Forall (fun e => P e.2) fields -> P (JObj fields)) -> forall v, P v.
Proof.
  intros Hn Hb Hi Hf Hs Ha Ho. fix IH 1. intros [|b|n|t|s|l|fields]; [done|apply Hb|apply Hi|apply Hf|apply Hs| |].
  - apply Ha. induction l as [|v l IHl]; constructor; [apply IH|apply IHl].
  - apply Ho. induction fields as [|[k v] l IHl]; constructor; [apply IH|apply IHl].
Qed.

(** ** Reading printed numbers back *)
Lemma digit_char d : (d < 10)%N -> digit (pretty_N_char d) = Some (Z.of_N d).
Proof.
  intros Hd. assert (d = 0 \/ d = 1 \/ d = 2 \/ d = 3 \/ d = 4 \/ d = 5 \/ d = 6 \/ d = 7 \/ d = 8 \/ d = 9)%N as H by lia.
  by repeat destruct H as [->|H]; subst.
Qed.

Lemma digits_pretty x s acc :
  exists k, (0 < k)%Z /\ digits (pretty_N_go x s) acc = digits s (acc * k + Z.of_N x)%Z.
Proof.
  revert s acc. induction (N.lt_wf_0 x) as [x _ IH]; intros s acc.
  destruct (decide (x = 0)%N) as [->|Hx].
  { rewrite pretty_N_go_0. exists 1%Z. split; [lia|]. f_equal. lia. }
  rewrite pretty_N_go_step by lia.
  destruct (IH (x `div` 10)%N ltac:(apply N.div_lt; lia) (String (pretty_N_char (x `mod` 10)) s) acc) as (k & Hk & ->).
  exists (10 * k)%Z. split; [lia|]. cbn [digits]. rewrite digit_char by (apply N.mod_lt; lia). f_equal.
  pose proof (N.div_mod x 10 ltac:(lia)) as E. lia.
Qed.

Lemma pretty_N_go_not_empty x s : s <> "" -> pretty_N_go x s <> "".
Proof.
  revert s. induction (N.lt_wf_0 x) as [x _ IH]; intros s Hs. destruct (decide (x = 0)%N) as [->|Hx].
  { by rewrite pretty_N_go_0. }
  rewrite pretty_N_go_step by lia. apply IH; [apply N.div_lt; lia|done].
Qed.

Lemma pretty_N_go_head x s : (0 < x)%N -> exists d t, (d < 10)%N /\ pretty_N_go x s = String (pretty_N_char d) t.
Proof.
  revert s. induction (N.lt_wf_0 x) as [x _ IH]; intros s Hx. rewrite pretty_N_go_step by done.
  destruct (decide (x `div` 10 = 0)%N) as [E|E].
  - rewrite E, pretty_N_go_0. eexists _, _. split; [|done]. apply N.mod_lt. lia.
  - apply IH; [apply N.div_lt; lia|by apply N.neq_0_lt_0].
Qed.

Lemma unsigned_pretty p : unsigned (pretty_N_go (N.pos p) "") = Some (Z.pos p).
Proof.
  unfold unsigned. destruct (pretty_N_go_head (N.pos p) "" ltac:(lia)) as (d & t & _ & E).
  rewrite decide_False by (rewrite E; discriminate). clear E.
  destruct (digits_pretty (N.pos p) "" 0) as (k & _ & ->). reflexivity.
Qed.

Lemma ParseInt_fmt_d n : (MinInt64 <= n <= MaxInt64)%Z -> ParseInt (fmt_d n) = Some n.
Proof.
  intros Hn. assert ((MinInt64 <=? n)%Z && (n <=? MaxInt64)%Z = true) as Hr.
  { rewrite andb_true_iff, !Z.leb_le. lia. }
  destruct n as [|p|p]; [done| |].
  - change (fmt_d (Z.pos p)) with (pretty_N_go (N.pos p) "").
    destruct (pretty_N_go_head (N.pos p) "" ltac:(lia)) as (d & t & Hd & E).
    pose proof (unsigned_pretty p) as Hu. rewrite E in *. clear E.
    assert (d = 0 \/ d = 1 \/ d = 2 \/ d = 3 \/ d = 4 \/ d = 5 \/ d = 6 \/ d = 7 \/ d = 8 \/ d = 9)%N as H by lia.
    repeat destruct H as [->|H]; subst; cbn [pretty_N_char] in *; unfold ParseInt; by rewrite Hu, Hr.
  - change (fmt_d (Z.neg p)) with (String "-" (pretty_N_go (N.pos p) "")).
    unfold ParseInt. rewrite unsigned_pretty. change (Z.opp <$> Some (Z.pos p)) with (Some (Z.neg p)).
    cbv iota. by rewrite Hr.
Qed.

(** ** What coercion does *)
Definition is_number (v : json) : bool := match v with JNum _ | JFloat _ => true | _ => false end.

(** The text a template produces for a value of a primitive type. *)
Definition print_leaf (v : json) : json :=
  match v with
  | JNum n => JStr (fmt_d n)
  | JFloat text => JStr text
  | JBool b => JStr (if b then "true" else "false")
  | v => v
  end.

(** A value after expansion: where the schema declares a primitive type, its text. *)
Fixpoint printed (v : json) (s : TypeCoercer) : json :=
  match s, v with
  | primitiveSchema _, v => print_leaf v
  | arraySchema items, JArr l => JArr (map (fun e => printed e items) l)
  | objectSchema properties, JObj l =>
      JObj (map (fun e => (e.1, match assoc e.1 properties with
                                | Some p => printed e.2 p
                                | None => e.2
                                end)) l)
  | _, v => v
  end.

Section theorems.
Context (ParseFloat : string -> option json).

(** The value has the type its schema declares, where it declares one. *)
Fixpoint conforms (v : json) (s : TypeCoercer) : Prop :=
  match s, v with
  | passthroughSchema, _ => True
  | primitiveSchema t, JStr _ => t = "string"
  | primitiveSchema t, JNum n =>
      t = "integer" /\ (MinInt64 <= n <= MaxInt64)%Z \/ t = "number" /\ ParseFloat (fmt_d n) = Some (JNum n)
  | primitiveSchema t, JFloat text => t = "number" /\ ParseFloat text = Some (JFloat text)
  | primitiveSchema t, JBool _ => t = "boolean"
  | arraySchema items, JArr l => foldr (fun e acc => conforms e items /\ acc) True l
  | objectSchema properties, JObj l =>
      foldr (fun e acc => match assoc e.1 properties with Some p => conforms e.2 p | None => True end /\ acc) True l
  | _, _ => False
  end.

Lemma foldr_and {A} (P : A -> Prop) l : foldr (fun x acc => P x /\ acc) True l <-> Forall P l.
Proof. induction l as [|x l IH]; cbn [foldr]; [by split; constructor|]. by rewrite IH, Forall_cons. Qed.

Lemma conforms_array l items : conforms (JArr l) (arraySchema items) <-> Forall (fun e => conforms e items) l.
Proof. apply (foldr_and (fun e => conforms e items)). Qed.

Lemma conforms_object l properties :
  conforms (JObj l) (objectSchema properties) <->
  Forall (fun e => match assoc e.1 properties with Some p => conforms e.2 p | None => True end) l.
Proof. apply (foldr_and (fun e => match assoc e.1 properties with Some p => conforms e.2 p | None => True end)). Qed.

Lemma coerce_number str v : (forall t w, ParseFloat t = Some w -> is_number w = true) ->
  ParseFloat str = Some v -> forall t, v <> JStr t.
Proof. intros Hf E t ->. by apply Hf in E. Qed.

Lemma coerce_primitive_idem t str : (forall s w, ParseFloat s = Some w -> is_number w = true) ->
  TryCoerce ParseFloat (coerce_primitive ParseFloat t str) (primitiveSchema t) = coerce_primitive ParseFloat t str.
Proof.
  intros Hf. unfold coerce_primitive. repeat case_decide; subst.
  - destruct (ParseInt str) eqn:E; cbn; [done|]. unfold coerce_primitive. by rewrite E.
  - destruct (ParseFloat str) as [v|] eqn:E.
    + pose proof (coerce_number _ _ Hf E). destruct v; try done. exfalso; naive_solver.
    + cbn. unfold coerce_primitive. by rewrite E.
  - destruct (ParseBool str) eqn:E; cbn; [done|]. unfold coerce_primitive. by rewrite E.
  - cbn. unfold coerce_primitive. by rewrite !decide_False.
Qed.

Lemma map_ext_Forall {A B} (f g : A -> B) l : Forall (fun x => f x = g x) l -> map f l = map g l.
Proof. induction 1 as [|x l E _ IH]; [done|]. cbn. by rewrite E, IH. Qed.

Lemma TryCoerce_idem v s : (forall t w, ParseFloat t = Some w -> is_number w = true) ->
  TryCoerce ParseFloat (TryCoerce ParseFloat v s) s = TryCoerce ParseFloat v s.
Proof.
  intros Hf. revert s. induction v as [|b|n|t|str|l IH|l IH] using json_ind'; intros [|t'|items|props]; try done.
  - by apply coerce_primitive_idem.
  - cbn. rewrite map_map. f_equal. apply map_ext_Forall. by eapply Forall_impl; [done|]; intros e He; apply He.
  - cbn. rewrite map_map. f_equal. apply map_ext_Forall. eapply Forall_impl; [done|]. intros [k e] He. cbn in *.
    destruct (assoc k props); [|done]. by rewrite He.
Qed.

Lemma print_leaf_coerced v t : conforms v (primitiveSchema t) ->
  TryCoerce ParseFloat (print_leaf v) (primitiveSchema t) = v.
Proof.
  destruct v as [|[]|n|text|str| |]; cbn; unfold coerce_primitive; try done; intros H.
  - by subst.
  - by subst.
  - destruct H as [[-> ?]|[-> E]].
    + rewrite decide_True by done. by rewrite ParseInt_fmt_d.
    + rewrite decide_False, decide_True by done. by rewrite E.
  - destruct H as [-> E]. rewrite decide_False, decide_True by done. by rewrite E.
  - by subst.
Qed.

(** Coercion restores what template expansion turned into text: when a value has the
    types its schema declares, printing the integers, numbers and booleans in it and
    coercing the result with the schema gives the value back, at any depth of objects
    and arrays.  Coercing a second time changes nothing. *)
Theorem coercion_restores_types schema v :
  (forall t w, ParseFloat t = Some w -> is_number w = true) ->
  (conforms v (MakeSchema schema) ->
   TryCoerce ParseFloat (printed v (MakeSchema schema)) (MakeSchema schema) = v) /\
  (forall w, TryCoerce ParseFloat (TryCoerce ParseFloat w (MakeSchema schema)) (MakeSchema schema) =
             TryCoerce ParseFloat w (MakeSchema schema)).
Proof.
  intros Hf. split; [|intros w; by apply TryCoerce_idem]. generalize (MakeSchema schema). clear schema.
  induction v as [|b|n|t|str|l IH|l IH] using json_ind'; intros [|t'|items|props] Hc; try done;
    try by apply print_leaf_coerced.
  - apply conforms_array in Hc. cbn. rewrite map_map. f_equal. rewrite <- (map_id l) at 2.
    apply map_ext_Forall. apply Forall_forall. rewrite Forall_forall in IH, Hc. intros e He. by apply IH, Hc.
  - apply conforms_object in Hc. cbn. rewrite map_map. f_equal. rewrite <- (map_id l) at 2.
    apply map_ext_Forall. apply Forall_forall. rewrite Forall_forall in IH, Hc. intros [k e] He.
    specialize (IH _ He). specialize (Hc _ He). cbn in *. destruct (assoc k props); [|done]. by rewrite IH.
Qed.

(** Coercion keeps the keys of an object, in their order. *)
Lemma coerce_args_keys schema args : (coerce_args ParseFloat schema args).*1 = args.*1.
Proof.
  unfold coerce_args. destruct (MakeSchema schema); cbn; try done.
  rewrite <- list_fmap_compose. induction args as [|e l IH]; [done|]. cbn in *. by rewrite IH.
Qed.
End theorems.

(** ** Witness *)
Definition sample_schema : json :=
  JObj [("type", JStr "object");
        ("properties", JObj [("count", JObj [("type", JStr "integer")]);
                             ("flags", JObj [("type", JStr "array"); ("items", JObj [("type", JStr "boolean")])])])].

Definition sample_args : json := JObj [("count", JNum (-12)); ("flags", JArr [JBool true; JBool false]); ("x", JNull)].

Lemma coercion_restores_types_witness :
  printed sample_args (MakeSchema sample_schema) =
    JObj [("count", JStr "-12"); ("flags", JArr [JStr "true"; JStr "false"]); ("x", JNull)] /\
  TryCoerce (fun _ => None) (printed sample_args (MakeSchema sample_schema)) (MakeSchema sample_schema) = sample_args.
Proof.
  split; [vm_compute; reflexivity|].
  apply (proj1 (coercion_restores_types (fun _ => None) sample_schema sample_args
    (fun t w (H : None = Some w) => match H with eq_refl => I end))).
  vm_compute. split; [left; split; [reflexivity|split; discriminate]|]. repeat split.
Defined.
