(* ===== verification/WorkflowContext.v ===== *)
(** * The state of a workflow execution
    ([pkg/vmcp/composer/workflow_context.go], [state_store.go], [workflow_state_store.go],
    and the status operations of [workflow_engine.go])

    The context of an execution holds the results of its steps; the store keeps a
    status for each workflow.  A step result is a shared object in the source: the
    entry of the map is updated in place.  [now] is a reading of the clock and
    [range] the order in which a loop visits a map.  A nil map of default results is
    the empty one. *)

From S2P Require Import Prelude Programs VmcpTypes WorkflowTypes Router ParamHeaders Core.

(** ** Errors of the execution *)
Inductive expand_error :=
  | ExpandCancelled
  | ExpandTooDeep
  | TemplateFailed (text : string)
  | TemplateTooLarge (size : Z)
  | AtKey (key : string) (cause : expand_error)
  | AtElement (i : nat) (cause : expand_error)
  | NotABoolean (got : string).

Inductive call_error :=
  | HeadersFailed (step tool : string) (cause : param_error)
  | BackendError (cause : error)
  | NilToolResult (step : string)
  | ToolFailed (msg : string)             (* [ErrToolExecutionFailed] *)
  | RetryStopped.                         (* the context ended while waiting *)

Inductive elicit_error :=
  | ErrElicitationNotConfigured (step : string)
  | ElicitationInvalid (text : string)
  | ErrSchemaInvalid | ErrSchemaTooLarge (size : Z) | SchemaTooDeep (depth : Z)
  | ErrContentInvalid | ErrContentTooLarge (size : Z)
  | ErrElicitationTimeout (step : string)
  | RequesterFailed (step text : string).

Inductive wf_error :=
  | StepContextDone
  | ConditionFailed (step : string) (cause : expand_error)
  | ExpansionFailed (step : string) (cause : expand_error)
  | RouteFailed (tool step : string) (cause : route_error)
  | ErrToolCallFailed (tool step : string) (cause : call_error)
  | UnsupportedStepType
  | HandlerNotConfigured (step : string)
  | ElicitationConfigMissing (step : string)
  | ElicitationRequestFailed (step : string) (cause : elicit_error)
  | ElicitationTimedOut (step : string)
  | ErrElicitationDeclined (step : string)
  | ErrElicitationCancelled (step : string)
  | InvalidResponseAction (action step : string)
  | InvalidElicitationAction (action : string)
  | InnerStepNil (step : string)
  | CollectionExpansion (step : string) (cause : expand_error)
  | CollectionNotArray (step got : string)
  | CollectionTooLarge (step : string) (size max : Z)
  | IterationFailed (step : string) (index : nat) (text : string)
  | IterationsCancelled.

(** ** Results *)
Inductive StepStatusType :=
  | StepStatusPending | StepStatusRunning | StepStatusCompleted | StepStatusFailed | StepStatusSkipped.

#[export] Instance StepStatusType_eq_dec : EqDecision StepStatusType.
Proof. solve_decision. Defined.

Definition step_status_text (s : StepStatusType) : string :=
  match s with
  | StepStatusPending => "pending"
  | StepStatusRunning => "running"
  | StepStatusCompleted => "completed"
  | StepStatusFailed => "failed"
  | StepStatusSkipped => "skipped"
  end.

Inductive WorkflowStatusType :=
  | WorkflowStatusPending | WorkflowStatusRunning | WorkflowStatusWaitingForElicitation
  | WorkflowStatusCompleted | WorkflowStatusFailed | WorkflowStatusCancelled | WorkflowStatusTimedOut.

#[export] Instance WorkflowStatusType_eq_dec : EqDecision WorkflowStatusType.
Proof. solve_decision. Defined.

Definition workflow_status_text (s : WorkflowStatusType) : string :=
  match s with
  | WorkflowStatusPending => "pending"
  | WorkflowStatusRunning => "running"
  | WorkflowStatusWaitingForElicitation => "waiting_for_elicitation"
  | WorkflowStatusCompleted => "completed"
  | WorkflowStatusFailed => "failed"
  | WorkflowStatusCancelled => "cancelled"
  | WorkflowStatusTimedOut => "timed_out"
  end.

Record StepResult := {
  stp_StepID : string;
  stp_Status : StepStatusType;
  stp_Output : option fields;
  stp_Content : list Content;
  stp_Error : option wf_error;
  stp_StartTime : Time;
  stp_EndTime : Time;
  stp_Duration : Duration;
  stp_RetryCount : Z;
}.

Record WorkflowMetadata := {
  wm_ID : string;
  wm_StartTime : Time;
  wm_StepCount : Z;
  wm_Status : WorkflowStatusType;
  wm_DurationMs : Z;
}.

Record WorkflowContext := {
  wc_WorkflowID : string;
  wc_Params : fields;
  wc_Steps : gmap string StepResult;
  wc_Variables : fields;
  wc_Workflow : option WorkflowMetadata;
}.

(** ** Contexts *)
Definition contexts : Type := gmap string WorkflowContext.

(** [workflowID] is the fresh identifier. *)
Definition CreateContext (workflowID : string) (now : Time) (params : fields) (m : contexts)
    : WorkflowContext * contexts :=
  let ctx := {|
    wc_WorkflowID := workflowID; wc_Params := params; wc_Steps := ∅; wc_Variables := [];
    wc_Workflow := Some {| wm_ID := workflowID; wm_StartTime := now; wm_StepCount := 0;
                           wm_Status := WorkflowStatusPending; wm_DurationMs := 0 |} |} in
  (ctx, <[workflowID := ctx]> m).

Definition GetContext (workflowID : string) (m : contexts) : option WorkflowContext := m !! workflowID.

Definition DeleteContext (workflowID : string) (m : contexts) : contexts := delete workflowID m.

Definition with_steps (steps : gmap string StepResult) (ctx : WorkflowContext) : WorkflowContext :=
  {| wc_WorkflowID := wc_WorkflowID ctx; wc_Params := wc_Params ctx; wc_Steps := steps;
     wc_Variables := wc_Variables ctx; wc_Workflow := wc_Workflow ctx |}.

(** ** Recording steps *)
Definition started_result (now : Time) (stepID : string) : StepResult :=
  {| stp_StepID := stepID; stp_Status := StepStatusRunning; stp_Output := None; stp_Content := [];
     stp_Error := None; stp_StartTime := now; stp_EndTime := time.zero; stp_Duration := 0; stp_RetryCount := 0 |}.

Definition RecordStepStart (now : Time) (stepID : string) (ctx : WorkflowContext) : WorkflowContext :=
  with_steps (<[stepID := started_result now stepID]> (wc_Steps ctx)) ctx.

Definition succeeded_result (now : Time) (output : option fields) (content : list Content) (r : StepResult)
    : StepResult :=
  {| stp_StepID := stp_StepID r; stp_Status := StepStatusCompleted; stp_Output := output;
     stp_Content := content; stp_Error := stp_Error r; stp_StartTime := stp_StartTime r;
     stp_EndTime := now; stp_Duration := time.Sub now (stp_StartTime r); stp_RetryCount := stp_RetryCount r |}.

(** A result is changed only where it exists. *)
Definition RecordStepSuccess (now : Time) (stepID : string) (output : option fields) (content : list Content)
    (ctx : WorkflowContext) : WorkflowContext :=
  with_steps (alter (succeeded_result now output content) stepID (wc_Steps ctx)) ctx.

Definition failed_result (now : Time) (err : wf_error) (r : StepResult) : StepResult :=
  {| stp_StepID := stp_StepID r; stp_Status := StepStatusFailed; stp_Output := stp_Output r;
     stp_Content := stp_Content r; stp_Error := Some err; stp_StartTime := stp_StartTime r;
     stp_EndTime := now; stp_Duration := time.Sub now (stp_StartTime r); stp_RetryCount := stp_RetryCount r |}.

Definition RecordStepFailure (now : Time) (stepID : string) (err : wf_error) (ctx : WorkflowContext)
    : WorkflowContext :=
  with_steps (alter (failed_result now err) stepID (wc_Steps ctx)) ctx.

(** Two readings of the clock. *)
Definition skipped_result (now now' : Time) (stepID : string) (output : option fields) : StepResult :=
  {| stp_StepID := stepID; stp_Status := StepStatusSkipped; stp_Output := output; stp_Content := [];
     stp_Error := None; stp_StartTime := now; stp_EndTime := now'; stp_Duration := 0; stp_RetryCount := 0 |}.

Definition RecordStepSkipped (now now' : Time) (stepID : string) (output : option fields)
    (ctx : WorkflowContext) : WorkflowContext :=
  with_steps (<[stepID := skipped_result now now' stepID output]> (wc_Steps ctx)) ctx.

Definition GetStepResult (stepID : string) (ctx : WorkflowContext) : option StepResult := wc_Steps ctx !! stepID.

(** [result.RetryCount = n] and [result.Output = output] on the shared result. *)
Definition set_retry_count (n : Z) (r : StepResult) : StepResult :=
  {| stp_StepID := stp_StepID r; stp_Status := stp_Status r; stp_Output := stp_Output r;
     stp_Content := stp_Content r; stp_Error := stp_Error r; stp_StartTime := stp_StartTime r;
     stp_EndTime := stp_EndTime r; stp_Duration := stp_Duration r; stp_RetryCount := n |}.

Definition set_output (output : option fields) (r : StepResult) : StepResult :=
  {| stp_StepID := stp_StepID r; stp_Status := stp_Status r; stp_Output := output;
     stp_Content := stp_Content r; stp_Error := stp_Error r; stp_StartTime := stp_StartTime r;
     stp_EndTime := stp_EndTime r; stp_Duration := stp_Duration r; stp_RetryCount := stp_RetryCount r |}.

Definition HasStepCompleted (stepID : string) (ctx : WorkflowContext) : bool :=
  match wc_Steps ctx !! stepID with
  | Some r => bool_decide (stp_Status r = StepStatusCompleted)
  | None => false
  end.

Definition HasStepFailed (stepID : string) (ctx : WorkflowContext) : bool :=
  match wc_Steps ctx !! stepID with
  | Some r => bool_decide (stp_Status r = StepStatusFailed)
  | None => false
  end.

Section maps.
Context (range : gmap string StepResult -> list (string * StepResult)).

(** One turn of the loop of [GetLastStepOutput]. *)
Definition later_output (acc : Time * option fields) (entry : string * StepResult) : Time * option fields :=
  if bool_decide (stp_Status entry.2 = StepStatusCompleted) && time.After (stp_EndTime entry.2) acc.1
  then (stp_EndTime entry.2, stp_Output entry.2) else acc.

Definition GetLastStepOutput (ctx : WorkflowContext) : option fields :=
  (foldl later_output (time.zero, None) (range (wc_Steps ctx))).2.

Record PendingElicitation := {
  pe_StepID : string;
  pe_Message : string;
  pe_Schema : gmap string json;
  pe_ExpiresAt : Time;
}.

Record WorkflowStatus := {
  wst_WorkflowID : string;
  wst_Status : WorkflowStatusType;
  wst_CurrentStep : string;
  wst_CompletedSteps : list string;
  wst_PendingElicitations : list PendingElicitation;
  wst_StartTime : Time;
  wst_LastUpdateTime : Time;
}.

Definition completed_steps (steps : gmap string StepResult) : list string :=
  (filter (fun kv => stp_Status kv.2 = StepStatusCompleted) (range steps)).*1.

(** Two readings of the clock. *)
Definition buildWorkflowStatus (now now' : Time) (ctx : WorkflowContext) (status : WorkflowStatusType)
    : WorkflowStatus :=
  {| wst_WorkflowID := wc_WorkflowID ctx; wst_Status := status; wst_CurrentStep := "";
     wst_CompletedSteps := completed_steps (wc_Steps ctx); wst_PendingElicitations := [];
     wst_StartTime := now; wst_LastUpdateTime := now' |}.

Definition Milliseconds (d : Duration) : Z := (d ÷ 1000000)%Z.

Definition updateWorkflowMetadata (now : Time) (startTime : Time) (status : WorkflowStatusType)
    (ctx : WorkflowContext) : WorkflowContext :=
  match wc_Workflow ctx with
  | None => ctx
  | Some w =>
      {| wc_WorkflowID := wc_WorkflowID ctx; wc_Params := wc_Params ctx; wc_Steps := wc_Steps ctx;
         wc_Variables := wc_Variables ctx;
         wc_Workflow := Some {| wm_ID := wm_ID w; wm_StartTime := wm_StartTime w;
           wm_StepCount := Z.of_nat (length (completed_steps (wc_Steps ctx))); wm_Status := status;
           wm_DurationMs := Milliseconds (time.Sub now startTime) |} |}
  end.
End maps.

(** A nil map of default results is no output. *)
Definition default_output (results : gmap string json) : option fields :=
  if decide (results = ∅) then None else Some (map_to_list results).
