(* ===== verification/WorkflowStore.v ===== *)
(** * The stores of workflow states
    ([pkg/vmcp/composer/state_store.go], [workflow_state_store.go], and the status
    operations of [workflow_engine.go])

    A store keeps the status of each workflow.  Each method runs under the store's lock
    and copies what it takes and gives, so the map is the whole state.  The class
    [WorkflowStateStore] is the interface of the source, [StateStoreOk] what its clients
    rely on; both stores of the package are instances.  [now] is a reading of the clock. *)

From S2P Require Import Prelude Programs VmcpTypes WorkflowTypes Router ParamHeaders Core WorkflowContext.
Local Open Scope prog_scope.

Inductive store_error :=
  | WorkflowIDRequired
  | StateRequired
  | ErrWorkflowNotFound (workflowID : string).

Abbreviation states := (gmap string WorkflowStatus).

Class WorkflowStateStore (S : Type) := {
  SaveState : Time -> string -> option WorkflowStatus -> S -> store_error + S;   (* [None] is nil *)
  LoadState : string -> S -> store_error + WorkflowStatus;
  DeleteState : string -> S -> store_error + S;
}.

(** The status with the time of its last update set. *)
Definition stamped (now : Time) (s : WorkflowStatus) : WorkflowStatus :=
  {| wst_WorkflowID := wst_WorkflowID s; wst_Status := wst_Status s; wst_CurrentStep := wst_CurrentStep s;
     wst_CompletedSteps := wst_CompletedSteps s; wst_PendingElicitations := wst_PendingElicitations s;
     wst_StartTime := wst_StartTime s; wst_LastUpdateTime := now |}.

Definition with_status (status : WorkflowStatusType) (s : WorkflowStatus) : WorkflowStatus :=
  {| wst_WorkflowID := wst_WorkflowID s; wst_Status := status; wst_CurrentStep := wst_CurrentStep s;
     wst_CompletedSteps := wst_CompletedSteps s; wst_PendingElicitations := wst_PendingElicitations s;
     wst_StartTime := wst_StartTime s; wst_LastUpdateTime := wst_LastUpdateTime s |}.

Definition isTerminal (status : WorkflowStatusType) : bool :=
  bool_decide (status ∈ [WorkflowStatusCompleted; WorkflowStatusFailed; WorkflowStatusCancelled; WorkflowStatusTimedOut]).

(** ** [inMemoryStateStore], whose cleanup drops old workflows *)
Record inMemoryStateStore := {
  ims_states : states;
  ims_cleanupInterval : Duration;
  ims_maxAge : Duration;
}.

Definition NewInMemoryStateStore (cleanupInterval maxAge : Duration) : inMemoryStateStore :=
  {| ims_states := ∅;
     ims_cleanupInterval := if (cleanupInterval <=? 0)%Z then (5 * time.Minute)%Z else cleanupInterval;
     ims_maxAge := if (maxAge <=? 0)%Z then time.Hour else maxAge |}.

Definition with_states (m : states) (s : inMemoryStateStore) : inMemoryStateStore :=
  {| ims_states := m; ims_cleanupInterval := ims_cleanupInterval s; ims_maxAge := ims_maxAge s |}.

#[export] Instance inMemoryStateStore_store : WorkflowStateStore inMemoryStateStore := {|
  SaveState := fun now workflowID state s =>
    if decide (workflowID = "") then inl WorkflowIDRequired
    else match state with
         | None => inl StateRequired
         | Some state => inr (with_states (<[workflowID := stamped now state]> (ims_states s)) s)
         end;
  LoadState := fun workflowID s =>
    if decide (workflowID = "") then inl WorkflowIDRequired
    else match ims_states s !! workflowID with
         | Some state => inr state
         | None => inl (ErrWorkflowNotFound workflowID)
         end;
  DeleteState := fun workflowID s =>
    if decide (workflowID = "") then inl WorkflowIDRequired
    else match ims_states s !! workflowID with
         | Some _ => inr (with_states (delete workflowID (ims_states s)) s)
         | None => inl (ErrWorkflowNotFound workflowID)
         end |}.

Section loops.
Context (range : states -> list (string * WorkflowStatus)).

Definition ListActiveWorkflows (s : inMemoryStateStore) : list string :=
  (filter (fun kv => wst_Status kv.2 ∈ [WorkflowStatusRunning; WorkflowStatusWaitingForElicitation; WorkflowStatusPending])
    (range (ims_states s))).*1.

Definition count_status (status : WorkflowStatusType) (l : list (string * WorkflowStatus)) : Z :=
  Z.of_nat (length (filter (fun kv => wst_Status kv.2 = status) l)).

Definition GetStats (s : inMemoryStateStore) : gmap string Z :=
  let l := range (ims_states s) in
  list_to_map
    [("total", Z.of_nat (length l)); ("pending", count_status WorkflowStatusPending l);
     ("running", count_status WorkflowStatusRunning l);
     ("waiting_for_elicit", count_status WorkflowStatusWaitingForElicitation l);
     ("completed", count_status WorkflowStatusCompleted l); ("failed", count_status WorkflowStatusFailed l);
     ("cancelled", count_status WorkflowStatusCancelled l); ("timed_out", count_status WorkflowStatusTimedOut l)].

End loops.

Definition expired (now : Time) (maxAge : Duration) (state : WorkflowStatus) : bool :=
  isTerminal (wst_Status state) && (maxAge <? time.Sub now (wst_LastUpdateTime state))%Z.

Definition cleanup (now : Time) (s : inMemoryStateStore) : inMemoryStateStore :=
  with_states (filter (fun kv => expired now (ims_maxAge s) kv.2 = false) (ims_states s)) s.

(** ** [InMemoryWorkflowStateStore], which keeps everything *)
Record InMemoryWorkflowStateStore := { iws_workflows : states }.

(** A clone has the same fields; the slices and schemas are copied. *)
Definition clonePendingElicitation (pe : PendingElicitation) : PendingElicitation :=
  {| pe_StepID := pe_StepID pe; pe_Message := pe_Message pe; pe_Schema := pe_Schema pe; pe_ExpiresAt := pe_ExpiresAt pe |}.

Definition cloneWorkflowStatus (state : WorkflowStatus) : WorkflowStatus :=
  {| wst_WorkflowID := wst_WorkflowID state; wst_Status := wst_Status state; wst_CurrentStep := wst_CurrentStep state;
     wst_CompletedSteps := wst_CompletedSteps state;
     wst_PendingElicitations := clonePendingElicitation <$> wst_PendingElicitations state;
     wst_StartTime := wst_StartTime state; wst_LastUpdateTime := wst_LastUpdateTime state |}.

#[export] Instance InMemoryWorkflowStateStore_store : WorkflowStateStore InMemoryWorkflowStateStore := {|
  SaveState := fun _ workflowID state s =>
    if decide (workflowID = "") then inl WorkflowIDRequired
    else match state with
         | None => inl StateRequired
         | Some state => inr {| iws_workflows := <[workflowID := cloneWorkflowStatus state]> (iws_workflows s) |}
         end;
  LoadState := fun workflowID s =>
    if decide (workflowID = "") then inl WorkflowIDRequired
    else match iws_workflows s !! workflowID with
         | Some state => inr (cloneWorkflowStatus state)
         | None => inl (ErrWorkflowNotFound workflowID)
         end;
  DeleteState := fun workflowID s =>
    if decide (workflowID = "") then inl WorkflowIDRequired
    else inr {| iws_workflows := delete workflowID (iws_workflows s) |} |}.

(** ** What the clients rely on *)
Class StateStoreOk (S : Type) `{WorkflowStateStore S} : Prop := {
  save_load : forall now id state s, id <> "" ->
    exists s' t, SaveState now id (Some state) s = inr s' /\ LoadState id s' = inr (stamped t state);
  save_other : forall now id id' state s s', SaveState now id state s = inr s' -> id' <> id -> LoadState id' s' = LoadState id' s;
  save_refused : forall now state s, SaveState now "" state s = inl WorkflowIDRequired;
  delete_load : forall id s s', DeleteState id s = inr s' -> LoadState id s' = inl (ErrWorkflowNotFound id);
  delete_other : forall id id' s s', DeleteState id s = inr s' -> id' <> id -> LoadState id' s' = LoadState id' s;
  load_error : forall id s err, LoadState id s = inl err -> err = WorkflowIDRequired \/ err = ErrWorkflowNotFound id;
}.

Lemma clone_id state : cloneWorkflowStatus state = state.
Proof.
  destruct state as [a b c d pes f g]. unfold cloneWorkflowStatus. cbn. f_equal.
  induction pes as [|[? ? ? ?] pes IH]; [done|]. cbn. by rewrite IH.
Qed.

#[export] Instance inMemoryStateStore_ok : StateStoreOk inMemoryStateStore.
Proof.
  split; cbn.
  - intros now id state s Hid. rewrite !decide_False by done. eexists _, now. split; [reflexivity|].
    cbn. by rewrite decide_False, lookup_insert_eq by done.
  - intros now id id' state s s' E Hne. repeat case_decide; try done; destruct state; simplify_eq; cbn.
    by rewrite lookup_insert_ne by done.
  - done.
  - intros id s s' E. case_decide as Hid; [done|]. destruct (ims_states s !! id); simplify_eq. cbn. by rewrite lookup_delete_eq.
  - intros id id' s s' E Hne. repeat case_decide; try done; destruct (ims_states s !! id); simplify_eq. cbn.
    by rewrite lookup_delete_ne by done.
  - intros id s err. case_decide; [intros [= <-]; by left|]. case_match; [done|]. intros [= <-]. by right.
Qed.

#[export] Instance InMemoryWorkflowStateStore_ok : StateStoreOk InMemoryWorkflowStateStore.
Proof.
  split; cbn.
  - intros now id state s Hid. rewrite !decide_False by done. exists {| iws_workflows := <[id := cloneWorkflowStatus state]> (iws_workflows s) |}, (wst_LastUpdateTime state).
    split; [done|]. cbn. rewrite decide_False, lookup_insert_eq, !clone_id by done. by destruct state.
  - intros now id id' state s s' E Hne. repeat case_decide; try done; destruct state; simplify_eq; cbn.
    by rewrite lookup_insert_ne by done.
  - done.
  - intros id s s' E. case_decide as Hid; [done|]. simplify_eq. cbn. by rewrite lookup_delete_eq.
  - intros id id' s s' E Hne. repeat case_decide; try done; simplify_eq. cbn. by rewrite lookup_delete_ne by done.
  - intros id s err. case_decide; [intros [= <-]; by left|]. case_match; [done|]. intros [= <-]. by right.
Qed.

(** ** Keeping a status *)
Inductive store_event :=
  | StoreSave (now : Time) (id : string) (state : option WorkflowStatus)
  | StoreDelete (id : string)
  | StoreCleanup (now : Time).

(** A refused operation changes nothing. *)
Definition store_event_do (ev : store_event) (s : inMemoryStateStore) : inMemoryStateStore :=
  let or_same (r : store_error + inMemoryStateStore) := match r with inr s' => s' | inl _ => s end in
  match ev with
  | StoreSave now id state => or_same (SaveState now id state s)
  | StoreDelete id => or_same (DeleteState id s)
  | StoreCleanup now => cleanup now s
  end.

Definition concerns (id : string) (ev : store_event) : bool :=
  match ev with StoreSave _ id' _ | StoreDelete id' => bool_decide (id' = id) | StoreCleanup _ => false end.

Lemma store_event_age ev s : ims_maxAge (store_event_do ev s) = ims_maxAge s.
Proof. destruct ev; cbn; repeat case_match; simplify_eq; done. Qed.

Lemma store_event_lookup ev s id :
  concerns id ev = false ->
  ims_states (store_event_do ev s) !! id =
  match ev, ims_states s !! id with
  | StoreCleanup now, Some state => if expired now (ims_maxAge s) state then None else Some state
  | _, r => r
  end.
Proof.
  destruct ev as [now id' state|id'|now]; cbn; intros Hc.
  - apply bool_decide_eq_false in Hc. case_decide; [done|]. destruct state; [|done]. cbn. by rewrite lookup_insert_ne.
  - apply bool_decide_eq_false in Hc. case_decide; [done|]. destruct (ims_states s !! id'); [|done]. cbn. by rewrite lookup_delete_ne.
  - destruct (ims_states s !! id) as [state|] eqn:E.
    + destruct (expired now (ims_maxAge s) state) eqn:Ee.
      * apply map_lookup_filter_None. right. intros x Hx. simplify_eq. cbn. by rewrite Ee.
      * apply map_lookup_filter_Some. done.
    + apply map_lookup_filter_None. by left.
Qed.

Lemma absent_kept id evs s :
  Forall (fun ev => concerns id ev = false) evs -> ims_states s !! id = None ->
  ims_states (foldl (fun s ev => store_event_do ev s) s evs) !! id = None.
Proof.
  intros Hall. revert s. induction Hall as [|ev evs Hev _ IH]; intros s Hn; [done|]. cbn. apply IH.
  rewrite store_event_lookup, Hn by done. by destruct ev.
Qed.

(** A saved status is there until it is saved again, deleted, or old and final:
    after a save, whatever is done to other workflows and however often cleanup runs,
    loading gives the saved status with the time of the save, except that cleanup may
    have dropped the status of a workflow that has ended, more than the maximal age ago. *)
Theorem saved_state_kept s id now state evs :
  id <> "" -> Forall (fun ev => concerns id ev = false) evs ->
  let s' := foldl (fun s ev => store_event_do ev s) (store_event_do (StoreSave now id (Some state)) s) evs in
  LoadState id s' = inr (stamped now state) \/
  LoadState id s' = inl (ErrWorkflowNotFound id) /\ isTerminal (wst_Status state) = true /\
    exists t, StoreCleanup t ∈ evs /\ (ims_maxAge s < time.Sub t now)%Z.
Proof.
  intros Hid. set (s1 := store_event_do (StoreSave now id (Some state)) s). intros Hall s'.
  assert (ims_maxAge s1 = ims_maxAge s) as Hage by apply store_event_age.
  assert (ims_states s1 !! id = Some (stamped now state)) as H1.
  { subst s1. cbn. rewrite decide_False by done. cbn. by rewrite lookup_insert_eq. }
  cut (ims_states s' !! id = Some (stamped now state) \/
    ims_states s' !! id = None /\ isTerminal (wst_Status state) = true /\
    exists t, StoreCleanup t ∈ evs /\ (ims_maxAge s < time.Sub t now)%Z).
  { cbn. rewrite decide_False by done. intros [->|[-> ?]]; auto. }
  subst s'. generalize dependent s1. induction evs as [|ev evs IH]; intros s1 Hage H1; cbn [foldl]; [by left|].
  apply Forall_cons in Hall as [Hev Hall]. specialize (IH Hall (store_event_do ev s1)).
  rewrite store_event_age in IH. specialize (IH Hage).
  pose proof (store_event_lookup ev s1 id Hev) as Hl. rewrite H1 in Hl.
  assert (forall t, StoreCleanup t ∈ evs -> StoreCleanup t ∈ ev :: evs) as Hin by (intros; by right).
  destruct ev as [| |t]; [by naive_solver..|]. destruct (expired t (ims_maxAge s1) (stamped now state)) eqn:Ee; [|by naive_solver].
  right. apply andb_prop in Ee as [Et Ho%Z.ltb_lt]. rewrite Hage in Ho. split; [by apply absent_kept|].
  split; [done|]. exists t. split; [left|done].
Qed.

Definition sample_status (status : WorkflowStatusType) : WorkflowStatus := {|
  wst_WorkflowID := "w"; wst_Status := status; wst_CurrentStep := ""; wst_CompletedSteps := ["a"];
  wst_PendingElicitations := []; wst_StartTime := 1; wst_LastUpdateTime := 1 |}.

Lemma saved_state_kept_witness :
  let s' := foldl (fun s ev => store_event_do ev s)
    (store_event_do (StoreSave 5 "w" (Some (sample_status WorkflowStatusRunning))) (NewInMemoryStateStore 0 0))
    [StoreCleanup (100 * time.Hour); StoreDelete "v"] in
  LoadState "w" s' = inr (stamped 5 (sample_status WorkflowStatusRunning)).
Proof.
  intros s'. destruct (saved_state_kept (NewInMemoryStateStore 0 0) "w" 5 (sample_status WorkflowStatusRunning)
    [StoreCleanup (100 * time.Hour); StoreDelete "v"]) as [H|(_ & H & _)];
    [discriminate|repeat constructor|exact H|discriminate].
Defined.

(** ** Status and cancellation

    The engine loads and saves in two steps; others may use the store in between. *)
Inductive store_op : Type -> Type :=
  | OLoad (workflowID : string) : store_op (store_error + WorkflowStatus)
  | OSave (workflowID : string) (state : WorkflowStatus) : store_op (option store_error)
  | ONow : store_op Time.

Inductive status_error :=
  | StoreNotConfigured
  | StatusIDRequired
  | StatusLoadFailed (cause : store_error)
  | AlreadyTerminal (workflowID : string) (status : WorkflowStatusType)
  | StatusSaveFailed (cause : store_error).

(** [configured]: is there a store? *)
Definition GetWorkflowStatus (configured : bool) (workflowID : string) : prog store_op (status_error + WorkflowStatus) :=
  if negb configured then Ret (inl StoreNotConfigured)
  else if decide (workflowID = "") then Ret (inl StatusIDRequired)
  else
    do r <- OLoad workflowID;
    Ret match r with inl err => inl (StatusLoadFailed err) | inr status => inr status end.

Definition CancelWorkflow (configured : bool) (workflowID : string) : prog store_op (option status_error) :=
  if negb configured then Ret (Some StoreNotConfigured)
  else if decide (workflowID = "") then Ret (Some StatusIDRequired)
  else
    do r <- OLoad workflowID;
    match r with
    | inl err => Ret (Some (StatusLoadFailed err))
    | inr status =>
        if isTerminal (wst_Status status) then Ret (Some (AlreadyTerminal workflowID (wst_Status status)))
        else
          do now <- ONow;
          do err <- OSave workflowID (stamped now (with_status WorkflowStatusCancelled status));
          Ret (StatusSaveFailed <$> err)
    end.

(** The accesses on a store. *)
Definition store_exec {S} `{WorkflowStateStore S} (now : Time) {B : Type} (o : store_op B) (s : S) : B * S :=
  match o in store_op B return B * S with
  | OLoad id => (LoadState id s, s)
  | OSave id state => match SaveState now id (Some state) s with inr s' => (None, s') | inl err => (Some err, s) end
  | ONow => (now, s)
  end.

(** A program alone with the store. *)
Fixpoint store_run {S} `{WorkflowStateStore S} (now : Time) {A} (p : prog store_op A) (s : S) : A * S :=
  match p with
  | Ret a => (a, s)
  | Do o k => store_run now (k (store_exec now o s).1) (store_exec now o s).2
  end.

(** Undisturbed, cancellation ends exactly the workflows that have not ended. *)
Lemma CancelWorkflow_spec {S} `{StateStoreOk S} now id (s : S) :
  id <> "" ->
  let (err, s') := store_run now (CancelWorkflow true id) s in
  match LoadState id s with
  | inl e => err = Some (StatusLoadFailed e) /\ s' = s
  | inr status =>
      if isTerminal (wst_Status status) then err = Some (AlreadyTerminal id (wst_Status status)) /\ s' = s
      else err = None /\ exists t, LoadState id s' = inr (stamped t (with_status WorkflowStatusCancelled status))
  end.
Proof.
  intros Hid. unfold CancelWorkflow. cbn [negb]. rewrite decide_False by done. cbn [store_run store_exec fst snd].
  destruct (LoadState id s) as [e|status]; [done|]. destruct (isTerminal _); [done|]. cbn [store_run store_exec fst snd].
  destruct (save_load now id (stamped now (with_status WorkflowStatusCancelled status)) s Hid) as (s' & t & E & Hl).
  rewrite E. cbn. split; [done|]. by exists t.
Qed.
