(* ===== verification/TemplateExpansion.v ===== *)
(** * Expansion of templates ([pkg/vmcp/composer/template_expander.go] and
    [ContentArrayToMap] of [pkg/vmcp/conversion/content.go])

    Expansion reads the context of the workflow once for each template, under its lock,
    so other steps may record results between two templates of one step; it is a
    program over such reads.  What the engine uses of Go's library and leaves open here
    is the class [Runtime]. *)

From S2P Require Import Prelude Programs VmcpTypes WorkflowTypes Router ParamHeaders SchemaCoercion Core WorkflowContext.
Local Open Scope prog_scope.

Definition maxTemplateDepth : Z := 100.
Definition maxTemplateOutputSize : Z := (10 * 1024 * 1024)%Z.

(** ** Contents as a map *)
Definition ContentTypeImage : string := "image".
Definition ContentTypeResource : string := "resource".

Record content_counts := { cc_text : Z; cc_image : Z; cc_resource : Z }.

Definition numbered (name : string) (i : Z) : string :=
  if (0 <? i)%Z then name +:+ "_" +:+ fmt_d i else name.

(** One turn of the loop: the entry it adds, and the counters after it. *)
Definition content_entry (item : Content) (c : content_counts) : option (string * json) * content_counts :=
  if decide (co_Type item = ContentTypeText) then
    (Some (numbered "text" (cc_text c), JStr (co_Text item)),
     {| cc_text := cc_text c + 1; cc_image := cc_image c; cc_resource := cc_resource c |})
  else if decide (co_Type item = ContentTypeImage) then
    (Some ("image_" +:+ fmt_d (cc_image c), JStr (co_Data item)),
     {| cc_text := cc_text c; cc_image := cc_image c + 1; cc_resource := cc_resource c |})
  else if decide (co_Type item = ContentTypeResource) then
    (Some (numbered "resource" (cc_resource c),
           JStr (if decide (co_Text item = "") then co_Data item else co_Text item)),
     {| cc_text := cc_text c; cc_image := cc_image c; cc_resource := cc_resource c + 1 |})
  else (None, c).

Fixpoint content_loop (content : list Content) (c : content_counts) : fields :=
  match content with
  | [] => []
  | item :: content =>
      match content_entry item c with
      | (Some e, c) => e :: content_loop content c
      | (None, c) => content_loop content c
      end
  end.

Definition ContentArrayToMap (content : list Content) : fields :=
  content_loop content {| cc_text := 0; cc_image := 0; cc_resource := 0 |}.

(** ** Accesses of an expansion and of a tool call *)
Inductive base_op : Type -> Type :=
  | BCancelled : base_op bool                                  (* is the context done? *)
  | BContext : base_op WorkflowContext                         (* read under the lock *)
  | BAttempts (maxTries : Z) (initialDelay : Duration) : base_op nat   (* tries after the first *)
  | BCall (target : BackendTarget) (name : string) (args : fields) (headers : gmap string string)
      : base_op (error + option ToolCallResult)
  | BStopped (last : call_error) : base_op call_error.         (* the error of a retry that gave up *)

(** [template text data] is [text/template] with the functions of [pkg/templates]: its
    output, or the text of its error on the left.  [rfc3339] formats a time; the functions
    [describe] give the texts of errors; the orders in which loops visit maps are arbitrary.
    [ParseFloat] is that of [strconv], [ParseArray] is [json.Unmarshal] into a slice,
    [ParseObject] into a map, with [Some None] the nil one that [null] gives, and
    [MarshalSize] is the length of [json.Marshal], [None] on its error.  [float64] and
    [int64] convert between the numeric types, [fmt_v] is the verb [%v]. *)
Class Runtime := {
  template : string -> json -> string + string;
  rfc3339 : Time -> string;
  describe : wf_error -> string;
  describe_expand : expand_error -> string;
  describe_call : call_error -> string;
  describe_route : route_error -> string;
  steps_range : gmap string StepResult -> list (string * StepResult);
  args_range : gmap string json -> list (string * json);
  tools_range : gmap string BackendTarget -> list (string * BackendTarget);
  ParseFloat : string -> option json;
  ParseArray : string -> option (option (list json));
  ParseObject : string -> option (option fields);
  MarshalSize : json -> option Z;
  float64 : Z -> json;
  int64 : string -> Z;
  fmt_v : any_value -> string;
}.

(** The loops visit each entry once. *)
Class RuntimeOk `{Runtime} : Prop := {
  steps_range_ok : forall m, steps_range m ≡ₚ map_to_list m;
  args_range_ok : forall m, args_range m ≡ₚ map_to_list m;
  tools_range_ok : forall m, tools_range m ≡ₚ map_to_list m;
  ParseFloat_number : forall t v, ParseFloat t = Some v -> is_number v = true;
  float64_number : forall n, is_number (float64 n) = true;
  int64_range : forall t, (MinInt64 <= int64 t <= MaxInt64)%Z;
}.

Section expander.
Context `{Runtime}.

(** ** The data of a template *)
Definition opt_object (o : option fields) : json := match o with Some l => JObj l | None => JNull end.

Definition buildStepsContext (ctx : WorkflowContext) : json :=
  JObj ((fun '(stepID, result) =>
    (stepID, JObj ([("status", JStr (step_status_text (stp_Status result)));
                    ("output", opt_object (stp_Output result));
                    ("content", JObj (ContentArrayToMap (stp_Content result)))] ++
                   match stp_Error result with
                   | Some err => [("error", JStr (describe err))]
                   | None => []
                   end))) <$> steps_range (wc_Steps ctx)).

Definition buildWorkflowContext (ctx : WorkflowContext) : json :=
  match wc_Workflow ctx with
  | None => JObj []
  | Some w => JObj [("id", JStr (wm_ID w)); ("duration_ms", JNum (wm_DurationMs w));
                    ("step_count", JNum (wm_StepCount w)); ("status", JStr (workflow_status_text (wm_Status w)));
                    ("start_time", JStr (rfc3339 (wm_StartTime w)))]
  end.

(** [extraCtx] holds the variables of an iteration. *)
Definition template_data (ctx : WorkflowContext) (extraCtx : option fields) : json :=
  JObj ([("params", JObj (wc_Params ctx)); ("steps", buildStepsContext ctx);
         ("vars", JObj (wc_Variables ctx)); ("workflow", buildWorkflowContext ctx)] ++
        match extraCtx with Some extra => [("forEach", JObj extra)] | None => [] end).

(** ** Expansion *)
Definition expandStringInternal (tmplStr : string) (extraCtx : option fields)
    : prog base_op (expand_error + string) :=
  do cancelled <- BCancelled;
  if cancelled then Ret (inl ExpandCancelled)
  else
    do ctx <- BContext;
    Ret match template tmplStr (template_data ctx extraCtx) with
        | inl text => inl (TemplateFailed text)
        | inr out => if (maxTemplateOutputSize <? len out)%Z then inl (TemplateTooLarge (len out)) else inr out
        end.

(** The loops over the entries of a map and over the elements of a slice. *)
Section loops.
Context (expand : json -> prog base_op (expand_error + json)).

Fixpoint expand_entries (l : list (string * json)) (result : fields) : prog base_op (expand_error + fields) :=
  match l with
  | [] => Ret (inr result)
  | (key, value) :: l =>
      run r <- expand value;
      match r with
      | inl e => Ret (inl (AtKey key e))
      | inr expanded => expand_entries l (result ++ [(key, expanded)])
      end
  end.

Fixpoint expand_elements (i : nat) (l : list json) (result : list json) : prog base_op (expand_error + list json) :=
  match l with
  | [] => Ret (inr result)
  | value :: l =>
      run r <- expand value;
      match r with
      | inl e => Ret (inl (AtElement i e))
      | inr expanded => expand_elements (S i) l (result ++ [expanded])
      end
  end.
End loops.

Fixpoint expandValueWithDepth (extraCtx : option fields) (value : json) (depth : Z)
    : prog base_op (expand_error + json) :=
  do cancelled <- BCancelled;
  if cancelled then Ret (inl ExpandCancelled)
  else if (maxTemplateDepth <? depth)%Z then Ret (inl ExpandTooDeep)
  else match value with
  | JStr v =>
      run r <- expandStringInternal v extraCtx;
      Ret match r with inl e => inl e | inr s => inr (JStr s) end
  | JObj v =>
      run r <- expand_entries (fun val => expandValueWithDepth extraCtx val (depth + 1)%Z) v [];
      Ret match r with inl e => inl e | inr l => inr (JObj l) end
  | JArr v =>
      run r <- expand_elements (fun val => expandValueWithDepth extraCtx val (depth + 1)%Z) 0 v [];
      Ret match r with inl e => inl e | inr l => inr (JArr l) end
  | value => Ret (inr value)
  end.

Definition expandMap (data : gmap string json) (extraCtx : option fields) : prog base_op (expand_error + fields) :=
  expand_entries (fun value => expandValueWithDepth extraCtx value 0) (args_range data) [].

Definition Expand (data : gmap string json) : prog base_op (expand_error + fields) := expandMap data None.

Definition ExpandString (tmplStr : string) : prog base_op (expand_error + string) :=
  expandStringInternal tmplStr None.

Definition ExpandWithForEach (data : gmap string json) (forEachCtx : fields) : prog base_op (expand_error + fields) :=
  expandMap data (Some forEachCtx).

Definition EvaluateCondition (condition : string) : prog base_op (expand_error + bool) :=
  if decide (condition = "") then Ret (inr true)
  else
    run r <- expandStringInternal condition None;
    Ret match r with
        | inl e => inl e
        | inr result =>
            if decide (result ∈ ["true"; "True"; "TRUE"]) then inr true
            else if decide (result ∈ ["false"; "False"; "FALSE"]) then inr false
            else inl (NotABoolean result)
        end.
End expander.

(** ** A library for the examples: a template is its own output. *)
Definition sample_runtime : Runtime := {|
  template := fun text _ => inr text; rfc3339 := fun _ => ""; describe := fun _ => "error";
  describe_expand := fun _ => ""; describe_call := fun _ => ""; describe_route := fun _ => "";
  steps_range := map_to_list; args_range := map_to_list; tools_range := map_to_list;
  ParseFloat := fun _ => None; ParseArray := fun _ => Some (Some [JNum 1; JNum 2]); ParseObject := fun text => if decide (text = "null") then Some None else None;
  MarshalSize := fun _ => None; float64 := JNum; int64 := fun _ => 0%Z; fmt_v := fun _ => "" |}.

Lemma sample_runtime_ok : RuntimeOk (H:=sample_runtime).
Proof. by split. Qed.
