(* ===== verification/StepExecution.v ===== *)
(** * Execution of one workflow step
    ([executeStep] and what it calls in [pkg/vmcp/composer/workflow_engine.go], and
    [elicitation_handler.go])

    The execution of a step is a program over its accesses: the shared context of the
    workflow, the state store, the backends and the user.  Within a level of the
    workflow several of these programs run at once.  The iterations of a forEach step
    run at once too: they are programs of their own, handed to the access [SIterate]
    with the number that may run together.

    Package [backoff] decides after how many failed attempts to give up ([BAttempts]) and
    with which error ([BStopped]).  Auditing and logging are left out, and so are the time limits of contexts, which may end at any access. *)

From S2P Require Import Prelude Programs VmcpTypes WorkflowTypes Router ParamHeaders SchemaCoercion Core.
From S2P Require Import DagExecutor WorkflowContext TemplateExpansion.
Local Open Scope prog_scope.

Definition maxRetryCount : Z := 10.
Definition defaultMaxIterations : Z := 100.
Definition MaxForEachIterations : Z := 1000.
Definition runtimeMaxParallel : Z := 50.
Definition defaultElicitationTimeout : Duration := (5 * time.Minute)%Z.
Definition maxElicitationTimeout : Duration := (10 * time.Minute)%Z.
Definition maxSchemaSize : Z := (100 * 1024)%Z.
Definition maxElicitationDepth : Z := 10.  (* [maxSchemaDepth] *)
Definition maxResponseContentSize : Z := (1024 * 1024)%Z.

Definition elicitationActionAccept : string := "accept".
Definition elicitationActionDecline : string := "decline".
Definition elicitationActionCancel : string := "cancel".

(** ** Accesses *)
Record ElicitationRequest := {
  ereq_Message : string;
  ereq_RequestedSchema : gmap string json;
}.

(** What the requester answers: the deadline passed, another error, or an action with
    its content, where the JSON null is nil. *)
Inductive elicit_answer :=
  | ElicitDeadline
  | ElicitFailed (text : string)
  | ElicitResult (action : string) (content : json).

Record iterationResult := {
  it_Index : nat;
  it_Item : json;
  it_Status : string;
  it_Output : option fields;
  it_Error : string;
}.

Inductive step_op : Type -> Type :=
  | SBase {B} (o : base_op B) : step_op B
  | SContextDone : step_op bool
  | SNow : step_op Time
  | SStart (id : string) : step_op unit
  | SSuccess (id : string) (output : option fields) (content : list Content) : step_op unit
  | SFailure (id : string) (err : wf_error) : step_op unit
  | SSkipped (id : string) (output : option fields) : step_op unit
  | SRetryCount (id : string) (n : Z) : step_op unit
  | SOutput (id : string) (output : option fields) : step_op unit
  | SStatus (status : WorkflowStatusType) : step_op WorkflowStatus   (* [buildWorkflowStatus] *)
  | SSave (state : WorkflowStatus) : step_op bool
  | SElicit (timeout : Duration) (req : ElicitationRequest) : step_op elicit_answer
  | SIterate (id : string) (maxPar : Z) (continueOnIterError : bool) (items : list json)
      (bodies : list (prog base_op iterationResult)) : step_op (list iterationResult * option wf_error).

Definition base {A} (p : prog base_op A) : prog step_op A := lift (@SBase) p.

(** ** Elicitation *)
Record ElicitationResponse := {
  eres_Action : string;
  eres_Content : option fields;
  eres_ReceivedAt : Time;
}.

Section engine.
Context `{Runtime}.

Definition validateConfig (config : ElicitationConfig) : option elicit_error :=
  if decide (el_Message config = "") then Some (ElicitationInvalid "elicitation message is required")
  else match el_Schema config with
       | None => Some (ElicitationInvalid "elicitation schema is required")
       | Some _ => None
       end.

(** Recursion through objects and arrays; the depth of the first value too deep. *)
Fixpoint validateSchemaDepth (obj : json) (depth maxDepth : Z) : option Z :=
  if (maxDepth <? depth)%Z then Some depth
  else match obj with
  | JObj v => (fix go (l : list (string * json)) :=
      match l with
      | [] => None
      | (_, val) :: l =>
          match validateSchemaDepth val (depth + 1)%Z maxDepth with Some d => Some d | None => go l end
      end) v
  | JArr v => (fix go (l : list json) :=
      match l with
      | [] => None
      | val :: l => match validateSchemaDepth val (depth + 1)%Z maxDepth with Some d => Some d | None => go l end
      end) v
  | _ => None
  end.

Definition depth_error (d : option Z) : option elicit_error := SchemaTooDeep <$> d.

Definition validateSchemaSize (schema : gmap string json) : option elicit_error :=
  let obj := JObj (args_range schema) in
  match MarshalSize obj with
  | None => Some ErrSchemaInvalid
  | Some size =>
      if (maxSchemaSize <? size)%Z then Some (ErrSchemaTooLarge size)
      else depth_error (validateSchemaDepth obj 0 maxElicitationDepth)
  end.

Definition validateContentSize (content : json) : option elicit_error :=
  match content with
  | JNull => None
  | _ =>
      match MarshalSize content with
      | None => Some ErrContentInvalid
      | Some size => if (maxResponseContentSize <? size)%Z then Some (ErrContentTooLarge size) else None
      end
  end.

Definition validateContentDepth (content : json) : option elicit_error :=
  match content with
  | JNull => None
  | _ => depth_error (validateSchemaDepth content 0 maxElicitationDepth)
  end.

Definition elicitation_timeout (config : ElicitationConfig) : Duration :=
  let timeout := if (el_Timeout config =? 0)%Z then defaultElicitationTimeout else el_Timeout config in
  if (maxElicitationTimeout <? timeout)%Z then maxElicitationTimeout else timeout.

Definition respond (action : string) (content : json) : prog step_op (elicit_error + ElicitationResponse) :=
  do now <- SNow;
  Ret (inr {| eres_Action := action;
              eres_Content := match content with JObj contentMap => Some contentMap | _ => None end;
              eres_ReceivedAt := now |}).

(** [requester] says whether the handler was given a requester. *)
Definition RequestElicitation (requester : bool) (stepID : string) (config : ElicitationConfig)
    : prog step_op (elicit_error + ElicitationResponse) :=
  if negb requester then Ret (inl (ErrElicitationNotConfigured stepID))
  else match validateConfig config, el_Schema config with
  | Some err, _ => Ret (inl err)
  | None, None => Ret (inl (ElicitationInvalid "elicitation schema is required"))
  | None, Some schema =>
      match validateSchemaSize schema with
      | Some err => Ret (inl err)
      | None =>
          do answer <- SElicit (elicitation_timeout config)
                         {| ereq_Message := el_Message config; ereq_RequestedSchema := schema |};
          match answer with
          | ElicitDeadline => Ret (inl (ErrElicitationTimeout stepID))
          | ElicitFailed text => Ret (inl (RequesterFailed stepID text))
          | ElicitResult action content =>
              if decide (action = elicitationActionAccept) then
                match validateContentSize content with
                | Some err => Ret (inl err)
                | None =>
                    match validateContentDepth content with
                    | Some err => Ret (inl err)
                    | None => respond action content
                    end
                end
              else respond action content
          end
      end
  end.

(** ** The engine *)
Record workflowEngine := {
  we_router : sessionRouter;
  we_tools : list Tool;
  we_elicitation : option bool;   (* the handler, if any, and whether it has a requester *)
  we_stateStore : bool;           (* is a store configured? *)
  we_maxParallel : Z;             (* [dagExecutor.MaxParallel()] *)
}.
Implicit Types (e : workflowEngine) (step : WorkflowStep).

(** [RecordStepFailure] and the return of the error. *)
Definition fail (id : string) (err : wf_error) : prog step_op (option wf_error) :=
  do _ <- SFailure id err; Ret (Some err).

Definition succeed (id : string) (output : option fields) : prog step_op (option wf_error) :=
  do _ <- SSuccess id output []; Ret None.

Definition getToolInputSchema e (toolName : string) : json :=
  match findAdvertisedTool (we_tools e) (ResolveToolName tools_range (we_router e) toolName) with
  | Some t => tool_InputSchema t
  | None => JNull
  end.

(** ** Tool calls *)
Definition getRetryConfig step : Z * Duration :=
  match ws_OnError step with
  | Some h =>
      if decide (eh_Action h = "retry") then
        ((if (maxRetryCount <? eh_RetryCount h)%Z then maxRetryCount else eh_RetryCount h),
         (if (0 <? eh_RetryDelay h)%Z then eh_RetryDelay h else time.Second))
      else (0%Z, time.Second)
  | None => (0%Z, time.Second)
  end.

Definition string_field (key : string) (l : fields) : option string :=
  match assoc key l with
  | Some (JStr s) => if decide (s = "") then None else Some s
  | _ => None
  end.

Definition extractErrorMessage (result : ToolCallResult) : string :=
  match filter (fun c => co_Type c = "text" /\ co_Text c <> "") (tcr_Content result) with
  | c :: _ => co_Text c
  | [] =>
      match tcr_StructuredContent result with
      | Some sc =>
          match string_field "error" sc with
          | Some m => m
          | None => match string_field "message" sc with
                    | Some m => m
                    | None => default "tool execution error" (string_field "text" sc)
                    end
          end
      | None => "tool execution error"
      end
  end.

(** What one attempt makes of the backend's answer. *)
Definition attempt_result step (r : error + option ToolCallResult) : call_error + ToolCallResult :=
  match r with
  | inl err => inl (BackendError err)
  | inr None => inl (NilToolResult (ws_ID step))
  | inr (Some result) => if tcr_IsError result then inl (ToolFailed (extractErrorMessage result)) else inr result
  end.

(** [more] further attempts are possible; [retries] were made. *)
Fixpoint attempts (target : BackendTarget) step (args : fields) (headers : gmap string string)
    (more : nat) (retries : Z) : prog base_op ((call_error + ToolCallResult) * Z) :=
  do r <- BCall target (ws_Tool step) args headers;
  match attempt_result step r with
  | inr result => Ret (inr result, retries)
  | inl err =>
      match more with
      | 0 => do err <- BStopped err; Ret (inl err, retries)
      | S more => attempts target step args headers more (retries + 1)%Z
      end
  end.

Definition callToolWithRetry e (target : BackendTarget) step (args : fields)
    : prog base_op ((call_error + ToolCallResult) * Z) :=
  let (maxRetries, initialDelay) := getRetryConfig step in
  match ParamHeadersForSchema (match getToolInputSchema e (ws_Tool step) with JObj s => s | _ => [] end) args with
  | inl err => Ret (inl (HeadersFailed (ws_ID step) (ws_Tool step) err), 0%Z)
  | inr paramHeaders =>
      do more <- BAttempts (wrapU64 (maxRetries + 1)) initialDelay;
      attempts target step args paramHeaders more 0
  end.

Definition tool_output (result : ToolCallResult) : option fields :=
  match tcr_StructuredContent result with
  | Some output => Some output
  | None => Some (ContentArrayToMap (tcr_Content result))
  end.

Definition handleToolStepFailure step (retryCount : Z) (err : call_error) : prog step_op (option wf_error) :=
  let finalErr := ErrToolCallFailed (ws_Tool step) (ws_ID step) err in
  do _ <- SFailure (ws_ID step) finalErr;
  do _ <- SRetryCount (ws_ID step) retryCount;
  if (match ws_OnError step with Some h => eh_ContinueOnError h | None => false end) then
    match default_output (ws_DefaultResults step) with
    | Some output => do _ <- SOutput (ws_ID step) (Some output); Ret None
    | None => Ret None
    end
  else Ret (Some finalErr).

Definition checkpointWorkflowState e : prog step_op unit :=
  if we_stateStore e then
    do state <- SStatus WorkflowStatusRunning;
    do _ <- SSave state;
    Ret tt
  else Ret tt.

Definition handleToolStepSuccess e step (output : option fields) (content : list Content) (retryCount : Z)
    : prog step_op (option wf_error) :=
  do _ <- SSuccess (ws_ID step) output content;
  do _ <- SRetryCount (ws_ID step) retryCount;
  run _ <- checkpointWorkflowState e;
  Ret None.

Definition executeToolStep e step : prog step_op (option wf_error) :=
  run expanded <- base (expandMap (ws_Arguments step) None);
  match expanded with
  | inl err => fail (ws_ID step) (ExpansionFailed (ws_ID step) err)
  | inr expandedArgs =>
      let args := coerce_args ParseFloat (getToolInputSchema e (ws_Tool step)) expandedArgs in
      match RouteTool tools_range (we_router e) (ws_Tool step) with
      | inl err => fail (ws_ID step) (RouteFailed (ws_Tool step) (ws_ID step) err)
      | inr target =>
          run r <- base (callToolWithRetry e target step args);
          match r.1 with
          | inl err => handleToolStepFailure step r.2 err
          | inr result => handleToolStepSuccess e step (tool_output result) (tcr_Content result) r.2
          end
      end
  end.

(** ** Elicitation steps *)
Definition action_output (action : string) (rest : fields) : option fields := Some (("action", JStr action) :: rest).

Definition handleElicitationAccept step (response : ElicitationResponse) : prog step_op (option wf_error) :=
  succeed (ws_ID step) (action_output (eres_Action response) [("content", opt_object (eres_Content response))]).

Definition handleElicitationAction step (action reason : string) : prog step_op (option wf_error) :=
  if decide (action = "skip_remaining") then
    succeed (ws_ID step) (action_output reason [("skipped", JBool true)])
  else if decide (action = "abort") then
    if decide (reason = "decline") then fail (ws_ID step) (ErrElicitationDeclined (ws_ID step))
    else fail (ws_ID step) (ErrElicitationCancelled (ws_ID step))
  else if decide (action = "continue") then succeed (ws_ID step) (action_output reason [])
  else fail (ws_ID step) (InvalidElicitationAction action).

Definition handleElicitationDecline step (el : ElicitationConfig) : prog step_op (option wf_error) :=
  match el_OnDecline el with
  | Some action => handleElicitationAction step action "decline"
  | None => fail (ws_ID step) (ErrElicitationDeclined (ws_ID step))
  end.

Definition handleElicitationCancel step (el : ElicitationConfig) : prog step_op (option wf_error) :=
  match el_OnCancel el with
  | Some action => handleElicitationAction step action "cancel"
  | None => fail (ws_ID step) (ErrElicitationCancelled (ws_ID step))
  end.

Definition handleElicitationTimeout step (el : ElicitationConfig) : prog step_op (option wf_error) :=
  match el_OnCancel el with
  | Some action => handleElicitationAction step action "timeout"
  | None => fail (ws_ID step) (ElicitationTimedOut (ws_ID step))
  end.

(** The message after expansion; a result that is not a string is ignored. *)
Definition expanded_message (message : string) : prog base_op (expand_error + string) :=
  if decide (message = "") then Ret (inr message)
  else
    run r <- expandMap {["message" := JStr message]} None;
    Ret match r with
        | inl err => inl err
        | inr expanded => match assoc "message" expanded with Some (JStr msg) => inr msg | _ => inr message end
        end.

Definition with_message (message : string) (el : ElicitationConfig) : ElicitationConfig :=
  {| el_Message := message; el_Schema := el_Schema el; el_Timeout := el_Timeout el;
     el_OnDecline := el_OnDecline el; el_OnCancel := el_OnCancel el |}.

Definition executeElicitationStep e step : prog step_op (option wf_error) :=
  match we_elicitation e with
  | None => fail (ws_ID step) (HandlerNotConfigured (ws_ID step))
  | Some requester =>
      match ws_Elicitation step with
      | None => fail (ws_ID step) (ElicitationConfigMissing (ws_ID step))
      | Some el =>
          run message <- base (expanded_message (el_Message el));
          match message with
          | inl err => fail (ws_ID step) (ExpansionFailed (ws_ID step) err)
          | inr message =>
              run response <- RequestElicitation requester (ws_ID step) (with_message message el);
              match response with
              | inl (ErrElicitationTimeout _) => handleElicitationTimeout step el
              | inl err => fail (ws_ID step) (ElicitationRequestFailed (ws_ID step) err)
              | inr response =>
                  if decide (eres_Action response = elicitationActionAccept)
                  then handleElicitationAccept step response
                  else if decide (eres_Action response = elicitationActionDecline)
                  then handleElicitationDecline step el
                  else if decide (eres_Action response = elicitationActionCancel)
                  then handleElicitationCancel step el
                  else fail (ws_ID step) (InvalidResponseAction (eres_Action response) (ws_ID step))
              end
          end
      end
  end.

(** ** forEach steps *)
Definition max_iterations step : Z :=
  let maxIter := if (ws_MaxIterations step <=? 0)%Z then defaultMaxIterations else ws_MaxIterations step in
  if (MaxForEachIterations <? maxIter)%Z then MaxForEachIterations else maxIter.

Definition validateCollectionSize step (size : Z) : option wf_error :=
  if (max_iterations step <? size)%Z then Some (CollectionTooLarge (ws_ID step) size (max_iterations step)) else None.

(** The start of the text in the error is cut to 100 runes; here it is the text. *)
Definition resolveForEachCollection step : prog base_op (wf_error + list json) :=
  run r <- ExpandString (ws_Collection step);
  Ret match r with
      | inl err => inl (CollectionExpansion (ws_ID step) err)
      | inr expanded =>
          match ParseArray expanded with
          | None => inl (CollectionNotArray (ws_ID step) expanded)
          | Some items => inr (default [] items)
          end
      end.

Definition prepareForEachCollection step : prog base_op (wf_error + list json) :=
  match ws_InnerStep step with
  | None => Ret (inl (InnerStepNil (ws_ID step)))
  | Some _ =>
      run r <- resolveForEachCollection step;
      Ret match r with
          | inl err => inl err
          | inr items =>
              match validateCollectionSize step (Z.of_nat (length items)) with
              | Some err => inl err
              | None => inr items
              end
          end
  end.

Definition iteration (index : nat) (item : json) (status : string) (output : option fields) (err : string)
    : iterationResult :=
  {| it_Index := index; it_Item := item; it_Status := status; it_Output := output; it_Error := err |}.

Definition executeForEachIteration e (inner : WorkflowStep) (itemVar : string) (index : nat) (item : json)
    : prog base_op iterationResult :=
  run expanded <- expandMap (ws_Arguments inner)
    (Some (if decide (itemVar = "index") then [("index", JNum (Z.of_nat index))]
           else [(itemVar, item); ("index", JNum (Z.of_nat index))]));
  match expanded with
  | inl err => Ret (iteration index item "failed" None ("template expansion failed: " +:+ describe_expand err))
  | inr expandedArgs =>
      let args := coerce_args ParseFloat (getToolInputSchema e (ws_Tool inner)) expandedArgs in
      match RouteTool tools_range (we_router e) (ws_Tool inner) with
      | inl err => Ret (iteration index item "failed" None ("failed to route tool: " +:+ describe_route err))
      | inr target =>
          run r <- callToolWithRetry e target inner args;
          Ret match r.1 with
              | inl err => iteration index item "failed" None (describe_call err)
              | inr result => iteration index item "completed" (tool_output result) ""
              end
      end
  end.

Definition iteration_entry (r : iterationResult) : json :=
  JObj ([("index", JNum (Z.of_nat (it_Index r))); ("item", it_Item r); ("status", JStr (it_Status r));
         ("output", opt_object (it_Output r))] ++
        if decide (it_Error r = "") then [] else [("error", JStr (it_Error r))]).

Definition count_completed (results : list iterationResult) : nat :=
  length (filter (fun r => it_Status r = "completed") results).

Definition buildForEachOutput (results : list iterationResult) (totalCount : nat) : option fields :=
  let completed := Z.of_nat (count_completed results) in
  Some [("iterations", JArr (iteration_entry <$> results)); ("count", JNum (Z.of_nat totalCount));
        ("completed", JNum completed); ("failed", JNum (Z.of_nat (length results) - completed))].

Definition max_parallel e step : Z :=
  let maxPar := if (ws_MaxParallel step <=? 0)%Z then we_maxParallel e else ws_MaxParallel step in
  if (runtimeMaxParallel <? maxPar)%Z then runtimeMaxParallel else maxPar.

Definition continueOnIterError step : bool :=
  match ws_OnError step with Some h => bool_decide (eh_Action h = "continue") | None => false end.

Definition executeForEachStep e step : prog step_op (option wf_error) :=
  run r <- base (prepareForEachCollection step);
  match r, ws_InnerStep step with
  | inl err, _ => fail (ws_ID step) err
  | inr [], _ => succeed (ws_ID step) (buildForEachOutput [] 0)
  | inr items, Some inner =>
      let itemVar := if decide (ws_ItemVar step = "") then "item" else ws_ItemVar step in
      do outcome <- SIterate (ws_ID step) (max_parallel e step) (continueOnIterError step) items
        (imap (fun i item => executeForEachIteration e inner itemVar i item) items);
      let aggregatedOutput := buildForEachOutput outcome.1 (length items) in
      match outcome.2 with
      | Some execErr =>
          if continueOnIterError step then succeed (ws_ID step) aggregatedOutput
          else
            do _ <- SFailure (ws_ID step) execErr;
            do _ <- SOutput (ws_ID step) aggregatedOutput;
            Ret (Some execErr)
      | None => succeed (ws_ID step) aggregatedOutput
      end
  | inr _, None => fail (ws_ID step) (InnerStepNil (ws_ID step))
  end.

(** ** Steps *)
Definition executeStep e step : prog step_op (option wf_error) :=
  do _ <- SStart (ws_ID step);
  run condition <- base (if decide (ws_Condition step = "") then Ret (inr true)
                         else EvaluateCondition (ws_Condition step));
  match condition with
  | inl err => fail (ws_ID step) (ConditionFailed (ws_ID step) err)
  | inr false =>
      do _ <- SSkipped (ws_ID step) (default_output (ws_DefaultResults step));
      Ret None
  | inr true =>
      match ws_Type step with
      | StepTypeTool => executeToolStep e step
      | StepTypeElicitation => executeElicitationStep e step
      | StepTypeForEach => executeForEachStep e step
      | StepTypeOther _ => fail (ws_ID step) UnsupportedStepType
      end
  end.

(** The function [ExecuteWorkflow] hands to the executor. *)
Definition stepExecutor e step : prog step_op (option wf_error) :=
  do cancelled <- SContextDone;
  if cancelled then Ret (Some StepContextDone) else executeStep e step.
End engine.
