(* ===== verification/StepGuarantees.v ===== *)
(** * What the execution of a step guarantees

    Seen from one step, the state is the step's own entry in the context and the
    requests it has sent; nothing else writes these.  [step_answers] says how the
    accesses of a program change this part and what they may answer, whatever other
    steps do.  The theorems hold for every such behaviour. *)

From S2P Require Import Prelude Programs VmcpTypes WorkflowTypes Router ParamHeaders SchemaCoercion Core.
From S2P Require Import DagExecutor WorkflowContext TemplateExpansion StepExecution.
Local Open Scope prog_scope.

Record tool_request := {
  tr_target : BackendTarget;
  tr_name : string;
  tr_args : fields;
  tr_headers : gmap string string;
}.

(** ** Programs that read and call *)
Definition base_permitted (ok : tool_request -> Prop) (limit : nat) (B : Type) (o : base_op B)
    (sent : list tool_request) : Prop :=
  match o with
  | BCall target name args headers =>
      ok {| tr_target := target; tr_name := name; tr_args := args; tr_headers := headers |} /\ length sent < limit
  | _ => True
  end.

(** [MaxTries] is zero when there is no limit. *)
Definition base_answers (B : Type) (o : base_op B) (sent : list tool_request) : B -> list tool_request -> Prop :=
  match o in base_op B return B -> list tool_request -> Prop with
  | BCall target name args headers => fun _ sent' =>
      sent' = sent ++ [{| tr_target := target; tr_name := name; tr_args := args; tr_headers := headers |}]
  | BAttempts maxTries _ => fun more sent' => sent' = sent /\ ((0 < maxTries)%Z -> (Z.of_nat more < maxTries)%Z)
  | BStopped last => fun err sent' => sent' = sent /\ (err = last \/ err = RetryStopped)
  | BCancelled => fun _ sent' => sent' = sent
  | BContext => fun _ sent' => sent' = sent
  end.

(** ** The view of a step *)
Record history := {
  h_clear : bool;      (* the step found its context not done *)
  h_stopped : bool;    (* it found its context done *)
  h_iterated : bool;   (* it has started its iterations *)
}.

Record local := {
  l_entry : option StepResult;
  l_sent : list tool_request;
  l_past : history;
}.

Section guarantees.
Context `{Runtime}.
Implicit Types (e : workflowEngine) (step : WorkflowStep).

(** A request a step may send: its own tool, at the backend the router gives for it,
    with arguments coerced to the tool's schema and the headers that mirror them. *)
Definition request_ok e step (r : tool_request) : Prop :=
  RouteTool tools_range (we_router e) (ws_Tool step) = inr (tr_target r) /\
  tr_name r = ws_Tool step /\
  (tr_args r).*1 = (args_range (ws_Arguments step)).*1 /\
  (exists expanded, tr_args r = coerce_args ParseFloat (getToolInputSchema e (ws_Tool step)) expanded) /\
  ParamHeadersForSchema (match getToolInputSchema e (ws_Tool step) with JObj s => s | _ => [] end) (tr_args r) =
    inr (tr_headers r).

(** The attempts a step has. *)
Definition max_calls step : nat := Z.to_nat (fst (getRetryConfig step) + 1).

Definition iteration_ok (i : nat) (item : json) (r : iterationResult) : Prop :=
  it_Index r = i /\ it_Item r = item /\
  (it_Status r = "completed" /\ it_Error r = "" \/ it_Status r = "failed" /\ it_Output r = None).

(** An iteration that was never started. *)
Definition cancelled_iteration (i : nat) (item : json) (r : iterationResult) : Prop :=
  it_Index r = i /\ it_Item r = item /\ it_Status r = "cancelled" /\ it_Output r = None /\ it_Error r <> "".

(** What the goroutine of an iteration returns to its group. *)
Definition iteration_error (id : string) (continueOnIterError : bool) (i : nat) (r : iterationResult)
    : option wf_error :=
  if decide (it_Error r <> "") then
    if continueOnIterError then None else Some (IterationFailed id i (it_Error r))
  else None.

Definition body_ok e step (i : nat) (item : json) (body : prog base_op iterationResult) : Prop :=
  exists inner, ws_InnerStep step = Some inner /\
    holds (base_permitted (request_ok e inner) (max_calls inner)) base_answers body
      (fun r _ => iteration_ok i item r) [].

Definition step_permitted e step (B : Type) (o : step_op B) (l : local) : Prop :=
  match o with
  | SBase o => base_permitted (request_ok e step) (max_calls step) _ o (l_sent l)
  | SStart id => id = ws_ID step /\ h_clear (l_past l) = true
  | SSkipped id _ => id = ws_ID step /\ is_Some (l_entry l)
  | SSuccess id _ _ | SFailure id _ | SRetryCount id _ | SOutput id _ => id = ws_ID step
  | SSave state => wst_Status state = WorkflowStatusRunning
  | SStatus status => status = WorkflowStatusRunning
  | SElicit timeout req =>
      (timeout <= maxElicitationTimeout)%Z /\ ereq_Message req <> "" /\
      validateSchemaSize (ereq_RequestedSchema req) = None
  | SIterate id maxPar cont items bodies =>
      id = ws_ID step /\ h_iterated (l_past l) = false /\ (maxPar <= runtimeMaxParallel)%Z /\ (Z.of_nat (length items) <= max_iterations step)%Z /\
      items <> [] /\ Forall2 (fun ii body => body_ok e step ii.1 ii.2 body) (imap pair items) bodies
  | SContextDone | SNow => True
  end.

(** What the results of the iterations are when all their goroutines have returned. *)
Definition iterations_done (id : string) (cont : bool) (items : list json) (results : list iterationResult)
    (err : option wf_error) : Prop :=
  Forall2 (fun ii r => iteration_ok ii.1 ii.2 r \/ cancelled_iteration ii.1 ii.2 r) (imap pair items) results /\
  match err with
  | None => forall i r, results !! i = Some r -> iteration_error id cont i r = None
  | Some IterationsCancelled => exists r, r ∈ results /\ it_Status r = "cancelled"
  | Some e => cont = false /\ exists i r, results !! i = Some r /\ iteration_error id cont i r = Some e
  end.

Definition step_answers step (B : Type) (o : step_op B) (l : local) : B -> local -> Prop :=
  match o in step_op B return B -> local -> Prop with
  | SBase o => fun x l' =>
      l_entry l' = l_entry l /\ l_past l' = l_past l /\ base_answers _ o (l_sent l) x (l_sent l')
  | SContextDone => fun isDone l' => l_entry l' = l_entry l /\ l_sent l' = l_sent l /\
      l_past l' = {| h_clear := negb isDone; h_stopped := isDone; h_iterated := h_iterated (l_past l) |}
  | SNow => fun _ l' => l' = l
  | SStart id => fun _ l' =>
      l_sent l' = l_sent l /\ l_past l' = l_past l /\ exists now, l_entry l' = Some (started_result now id)
  | SSuccess _ output content => fun _ l' =>
      l_sent l' = l_sent l /\ exists now, l_entry l' = succeeded_result now output content <$> l_entry l
  | SFailure _ err => fun _ l' => l_sent l' = l_sent l /\ exists now, l_entry l' = failed_result now err <$> l_entry l
  | SSkipped id output => fun _ l' =>
      l_sent l' = l_sent l /\ exists now now', l_entry l' = Some (skipped_result now now' id output)
  | SRetryCount _ n => fun _ l' => l_sent l' = l_sent l /\ l_entry l' = set_retry_count n <$> l_entry l
  | SOutput _ output => fun _ l' => l_sent l' = l_sent l /\ l_entry l' = set_output output <$> l_entry l
  | SStatus status => fun state l' => l' = l /\ wst_Status state = status
  | SSave _ => fun _ l' => l' = l
  | SElicit _ _ => fun _ l' => l' = l
  | SIterate id _ cont items _ => fun x l' =>
      l_entry l' = l_entry l /\ l_sent l' = l_sent l /\ iterations_done id cont items x.1 x.2
  end.

(** ** The outcome of a step *)
Definition continues step : bool := match ws_OnError step with Some h => eh_ContinueOnError h | None => false end.

(** What a completed step reports. *)
Definition completed_ok step (r : StepResult) (sent : list tool_request) : Prop :=
  stp_Status r = StepStatusCompleted /\ stp_Error r = None /\ is_Some (stp_Output r) /\
  (ws_Type step = StepTypeTool -> stp_RetryCount r = (Z.of_nat (length sent) - 1)%Z /\ sent <> []).

Definition step_outcome step (err : option wf_error) (l : local) : Prop :=
  match err, l_entry l with
  | Some StepContextDone, None => l_sent l = [] /\ h_stopped (l_past l) = true
  | Some err, Some r => err <> StepContextDone /\ stp_Status r = StepStatusFailed /\ stp_Error r = Some err
  | None, Some r =>
      completed_ok step r (l_sent l) \/
      (stp_Status r = StepStatusSkipped /\ l_sent l = [] /\ stp_Output r = default_output (ws_DefaultResults step)) \/
      (stp_Status r = StepStatusFailed /\ continues step = true /\ ws_Type step = StepTypeTool /\
       stp_Output r = default_output (ws_DefaultResults step) /\ is_Some (stp_Error r))
  | _, _ => False
  end.

(** ** Lifting *)
Lemma holds_base e step {A} (p : prog base_op A) (Q : A -> list tool_request -> Prop) l :
  holds (base_permitted (request_ok e step) (max_calls step)) base_answers p Q (l_sent l) ->
  holds (step_permitted e step) (step_answers step) (base p)
    (fun a l' => l_entry l' = l_entry l /\ l_past l' = l_past l /\ Q a (l_sent l')) l.
Proof.
  revert l. induction p as [a|B o k IH]; intros l; [by split|].
  intros [Ho Hk]. split; [done|]. intros x l' (He & Hc & Ha). rewrite <- He, <- Hc. by apply IH, Hk.
Qed.

(** ** Expansion sends nothing *)
Section expansion.
Context (ok : tool_request -> Prop) (limit : nat).
Local Abbreviation reads p Q := (holds (base_permitted ok limit) base_answers p Q).

Definition quiet {A} (sent : list tool_request) (Q : A -> Prop) : A -> list tool_request -> Prop :=
  fun a sent' => sent' = sent /\ Q a.

Lemma expandString_quiet tmpl extra sent :
  reads (expandStringInternal tmpl extra) (quiet sent (fun _ => True)) sent.
Proof.
  unfold expandStringInternal. apply holds_do; [done|]. intros [] ? ->; [done|].
  apply holds_do; [done|]. by intros ? ? ->.
Qed.

Lemma expand_entries_quiet f l : forall acc sent,
  Forall (fun kv => forall sent, reads (f kv.2) (quiet sent (fun _ => True)) sent) l ->
  reads (expand_entries f l acc) (quiet sent (fun r => forall l', r = inr l' -> l'.*1 = acc.*1 ++ l.*1)) sent.
Proof.
  induction l as [|[k v] l IH]; intros acc sent Hl; cbn [expand_entries].
  - split; [done|]. intros l' [= ->]. by rewrite app_nil_r.
  - apply Forall_cons in Hl as [Hv Hl]. eapply holds_bind; [apply Hv|]. intros [err|v'] ? [-> _]; [by split|].
    eapply holds_mono; [|by apply IH]. intros r s [-> Hr]. split; [done|]. intros l' ->.
    rewrite (Hr l' eq_refl), fmap_app, <- app_assoc. done.
Qed.

Lemma expand_elements_quiet f l : forall i acc sent,
  Forall (fun v => forall sent, reads (f v) (quiet sent (fun _ => True)) sent) l ->
  reads (expand_elements f i l acc) (quiet sent (fun _ => True)) sent.
Proof.
  induction l as [|v l IH]; intros i acc sent Hl; cbn [expand_elements]; [done|].
  apply Forall_cons in Hl as [Hv Hl]. eapply holds_bind; [apply Hv|]. intros [err|v'] ? [-> _]; [by split|].
  by apply IH.
Qed.

Lemma expandValue_quiet v : forall extra depth sent,
  reads (expandValueWithDepth extra v depth) (quiet sent (fun _ => True)) sent.
Proof.
  induction v as [|b|n|t|str|l IH|l IH] using json_ind'; intros extra depth sent;
    (apply holds_do; [done|]; intros [] ? ->; [done|]; destruct (maxTemplateDepth <? depth)%Z; [done|]);
    try done.
  - eapply holds_bind; [apply expandString_quiet|]. by intros ? ? [-> _].
  - eapply holds_bind; [apply expand_elements_quiet|by intros ? ? [-> _]]. eapply Forall_impl; [done|]. eauto.
  - eapply holds_bind; [apply expand_entries_quiet|by intros ? ? [-> _]]. eapply Forall_impl; [done|]. eauto.
Qed.

Lemma expandMap_quiet data extra sent :
  reads (expandMap data extra)
    (quiet sent (fun r => forall l, r = inr l -> l.*1 = (args_range data).*1)) sent.
Proof.
  unfold expandMap. apply (expand_entries_quiet _ _ []). apply Forall_forall. intros kv _ s. apply expandValue_quiet.
Qed.

Lemma condition_quiet cond sent : reads (EvaluateCondition cond) (quiet sent (fun _ => True)) sent.
Proof.
  unfold EvaluateCondition. case_decide; [done|]. eapply holds_bind; [apply expandString_quiet|]. by intros ? ? [-> _].
Qed.
End expansion.

(** ** Calls *)
Definition bounded_retries step : Prop := (0 <= fst (getRetryConfig step))%Z.

Lemma retries_capped step : (fst (getRetryConfig step) <= maxRetryCount)%Z.
Proof.
  unfold getRetryConfig, maxRetryCount. destruct (ws_OnError step) as [h|]; [|done]. case_decide; [|done]. cbn.
  destruct (Z.ltb_spec 10 (eh_RetryCount h)); lia.
Qed.

Lemma max_calls_le step : max_calls step <= 11.
Proof. unfold max_calls. pose proof (retries_capped step) as Hc. unfold maxRetryCount in Hc. lia. Qed.

(** The requests of a call: one more than the retries it reports, and none when the
    headers could not be made. *)
Definition call_counted (r : (call_error + ToolCallResult) * Z) (sent : list tool_request) : Prop :=
  match r.1 with
  | inr _ => r.2 = (Z.of_nat (length sent) - 1)%Z /\ sent <> []
  | inl _ => sent = [] \/ r.2 = (Z.of_nat (length sent) - 1)%Z
  end.

Lemma attempts_holds ok limit target step args headers more : forall retries sent,
  ok {| tr_target := target; tr_name := ws_Tool step; tr_args := args; tr_headers := headers |} ->
  length sent + more < limit -> retries = Z.of_nat (length sent) ->
  holds (base_permitted ok limit) base_answers (attempts target step args headers more retries) call_counted sent.
Proof.
  induction more as [|more IH]; intros retries sent Hok Hl Hr; cbn [attempts];
    (apply holds_do; [split; [done|lia]|]; intros r ? ->; destruct (attempt_result step r) as [err|res];
     [|split; [rewrite length_app; cbn; lia|by destruct sent]]).
  - apply holds_do; [done|]. intros err' ? [-> _]. right. rewrite length_app. cbn. lia.
  - apply IH; [done|rewrite length_app; cbn; lia|rewrite length_app; cbn; lia].
Qed.

Lemma call_holds e step target args :
  bounded_retries step ->
  RouteTool tools_range (we_router e) (ws_Tool step) = inr target ->
  (exists expanded, args = coerce_args ParseFloat (getToolInputSchema e (ws_Tool step)) expanded /\
     expanded.*1 = (args_range (ws_Arguments step)).*1) ->
  holds (base_permitted (request_ok e step) (max_calls step)) base_answers
    (callToolWithRetry e target step args) call_counted [].
Proof.
  intros Hb Hroute (expanded & Ea & Hk). unfold callToolWithRetry.
  destruct (getRetryConfig step) as [maxRetries delay] eqn:Ec.
  assert (0 <= maxRetries <= maxRetryCount)%Z as Hm.
  { pose proof (retries_capped step) as H1. unfold bounded_retries in Hb. by rewrite Ec in *. }
  destruct (ParamHeadersForSchema _ args) as [err|headers] eqn:Eh; [by left|].
  apply holds_do; [done|]. intros more ? [-> Hmore]. unfold maxRetryCount in Hm. rewrite wrapU64_id in Hmore by lia.
  apply attempts_holds; [|unfold max_calls; rewrite Ec; cbn; lia|done].
  unfold request_ok. cbn. split_and!; [done|done| |eauto|done]. by rewrite Ea, coerce_args_keys.
Qed.

(** ** Steps *)
Section steps.
Context e step.
Local Abbreviation runs p Q := (holds (step_permitted e step) (step_answers step) p Q).

Ltac access := apply holds_do; [done|]; intros ? ?; cbn [step_answers].

Lemma fail_holds err r l :
  err <> StepContextDone -> l_entry l = Some r -> runs (fail (ws_ID step) err) (step_outcome step) l.
Proof.
  intros Hne El. unfold fail. access. intros [Es [now Ee]]. rewrite El in Ee. unfold holds, step_outcome.
  rewrite Ee. cbn. destruct err; done.
Qed.

Lemma succeed_holds output r l :
  l_entry l = Some r -> ws_Type step <> StepTypeTool -> stp_Error r = None ->
  runs (succeed (ws_ID step) (Some output)) (step_outcome step) l.
Proof.
  intros El Hne Er. unfold succeed. access. intros [Es [now Ee]]. rewrite El in Ee. unfold holds, step_outcome.
  rewrite Ee. cbn. left. split; [done|]. split; [done|]. split; [by eexists|done].
Qed.

Lemma tool_failure_holds n err r l :
  l_entry l = Some r -> ws_Type step = StepTypeTool -> stp_Output r = None ->
  runs (handleToolStepFailure step n err) (step_outcome step) l.
Proof.
  intros El Ht Eo. unfold handleToolStepFailure. access. intros [Es [now Ee]]. rewrite El in Ee. cbn in Ee.
  access. intros [Es2 Ee2]. rewrite Ee in Ee2. cbn in Ee2.
  change (match ws_OnError step with Some h => eh_ContinueOnError h | None => false end) with (continues step).
  destruct (continues step) eqn:Ec.
  - destruct (default_output (ws_DefaultResults step)) as [o|] eqn:Ed.
    + access. intros [Es3 Ee3]. rewrite Ee2 in Ee3. unfold holds, step_outcome. rewrite Ee3. cbn. right. right.
      rewrite Ed. by eauto.
    + unfold holds, step_outcome. rewrite Ee2. cbn. right. right. rewrite Ed. by eauto.
  - unfold holds, step_outcome. rewrite Ee2. done.
Qed.

Lemma tool_success_holds output content n r l :
  l_entry l = Some r -> stp_Error r = None -> n = (Z.of_nat (length (l_sent l)) - 1)%Z -> l_sent l <> [] ->
  runs (handleToolStepSuccess e step (Some output) content n) (step_outcome step) l.
Proof.
  intros El Er Hn Hs. unfold handleToolStepSuccess. access. intros [Es [now Ee]]. rewrite El in Ee. cbn in Ee.
  access. intros [Es2 Ee2]. rewrite Ee in Ee2. cbn in Ee2.
  assert (forall l', l' = s'0 -> step_outcome step None l') as Hdone.
  { intros l' ->. unfold step_outcome. rewrite Ee2. left. cbn. rewrite Es2, Es. by split_and!. }
  unfold checkpointWorkflowState. destruct (we_stateStore e); [|by apply Hdone].
  cbn [pbind]. access. intros [-> Hst]. apply holds_do; [done|]. intros ? ? ->. by apply Hdone.
Qed.

(** The entry of a step that has just been started. *)
Definition fresh (l : local) : Prop :=
  exists now past, l = {| l_entry := Some (started_result now (ws_ID step)); l_sent := []; l_past := past |} /\
    h_iterated past = false.

Lemma base_holds {A} (p : prog base_op A) (k : A -> prog step_op (option wf_error)) (Q : A -> Prop) l :
  holds (base_permitted (request_ok e step) (max_calls step)) base_answers p (quiet (l_sent l) Q) (l_sent l) ->
  (forall a, Q a -> runs (k a) (step_outcome step) l) ->
  runs (pbind (base p) k) (step_outcome step) l.
Proof.
  intros Hp Hk. eapply holds_bind; [by apply holds_base|]. intros a l' (Ee & Ec & Es & Hq).
  assert (l' = l) as -> by (destruct l, l'; cbn in *; congruence). by apply Hk.
Qed.

Lemma tool_holds l :
  bounded_retries step -> ws_Type step = StepTypeTool -> fresh l ->
  runs (executeToolStep e step) (step_outcome step) l.
Proof.
  intros Hb Ht (now & past & -> & Hp). unfold executeToolStep.
  eapply base_holds; [apply expandMap_quiet|]. intros [err|expanded] Hk; [by eapply fail_holds|].
  destruct (RouteTool tools_range (we_router e) (ws_Tool step)) as [err|target] eqn:Er; [by eapply fail_holds|].
  eapply holds_bind.
  { apply holds_base. cbn [l_sent]. apply call_holds; [done|done|]. exists expanded. split; [done|]. by apply Hk. }
  intros [[err|res] n] l' (Ee & _ & Hc); cbn [fst snd].
  - by eapply tool_failure_holds.
  - destruct Hc as [Hn Hne]. cbn [fst snd] in Hn. unfold tool_output.
    destruct (tcr_StructuredContent res); by eapply tool_success_holds.
Qed.

(** ** Elicitation *)
Lemma action_holds action reason l :
  ws_Type step <> StepTypeTool -> fresh l -> runs (handleElicitationAction step action reason) (step_outcome step) l.
Proof.
  intros Ht (now & past & -> & Hp). unfold handleElicitationAction, action_output.
  repeat case_decide; solve [by eapply fail_holds | by eapply succeed_holds].
Qed.

Lemma elicitation_timeout_le config : (elicitation_timeout config <= maxElicitationTimeout)%Z.
Proof. unfold elicitation_timeout. case_match eqn:E; [done|]. by apply Z.ltb_ge in E. Qed.

(** The answer of the user is one the handler's limits allow. *)
Definition response_ok (r : ElicitationResponse) : Prop :=
  eres_Action r = elicitationActionAccept ->
  forall l, eres_Content r = Some l ->
    validateContentDepth (JObj l) = None /\ exists size, MarshalSize (JObj l) = Some size /\ (size <= maxResponseContentSize)%Z.

Lemma respond_holds action content l :
  (action = elicitationActionAccept -> validateContentSize content = None /\ validateContentDepth content = None) ->
  runs (respond action content) (fun r l' => l' = l /\ forall x, r = inr x -> response_ok x) l.
Proof.
  intros Ha. unfold respond. access. intros ->. split; [done|]. intros x' [= <-]. unfold response_ok. cbn.
  intros Hacc l'. destruct (Ha Hacc) as [Hs Hd]. destruct content; try done. intros [= ->]. split; [done|].
  unfold validateContentSize in Hs. destruct (MarshalSize (JObj l')) as [size|]; [|done]. exists size. split; [done|].
  destruct (Z.ltb_spec maxResponseContentSize size); [done|lia].
Qed.

Lemma request_holds requester config l :
  runs (RequestElicitation requester (ws_ID step) config)
    (fun r l' => l' = l /\ forall x, r = inr x -> response_ok x) l.
Proof.
  unfold RequestElicitation. destruct requester; [|done]. cbn [negb].
  destruct (validateConfig config) as [err|] eqn:Ev; [done|].
  destruct (el_Schema config) as [schema|]; [|done].
  destruct (validateSchemaSize schema) as [err|] eqn:Es; [done|].
  apply holds_do.
  { cbn. split; [apply elicitation_timeout_le|]. split; [|done]. unfold validateConfig in Ev. by case_decide. }
  intros [|text|action content] ? ->; [done|done|]. case_decide as Ha; [|by apply respond_holds].
  destruct (validateContentSize content) as [err|] eqn:E1; [done|].
  destruct (validateContentDepth content) as [err|] eqn:E2; [done|]. by apply respond_holds.
Qed.

Lemma elicitation_holds l :
  ws_Type step <> StepTypeTool -> fresh l -> runs (executeElicitationStep e step) (step_outcome step) l.
Proof.
  intros Ht Hf. pose proof Hf as (now & past & El & Hp). assert (l_entry l = Some (started_result now (ws_ID step))) as El' by (by subst).
  unfold executeElicitationStep.
  destruct (we_elicitation e) as [requester|]; [|by eapply fail_holds].
  destruct (ws_Elicitation step) as [el|]; [|by eapply fail_holds].
  apply (base_holds _ _ (fun _ => True)).
  { unfold expanded_message. case_decide; [done|]. eapply holds_bind; [apply expandMap_quiet|]. by intros ? ? [-> _]. }
  intros [err|message] _; [by eapply fail_holds|].
  eapply holds_bind; [apply request_holds|]. intros [err|response] ? [-> _].
  - destruct err; try by eapply fail_holds. unfold handleElicitationTimeout.
    destruct (el_OnCancel el); [by apply action_holds|by eapply fail_holds].
  - unfold handleElicitationAccept, handleElicitationDecline, handleElicitationCancel, action_output.
    repeat case_decide; [by eapply succeed_holds| | |by eapply fail_holds].
    + destruct (el_OnDecline el); [by apply action_holds|by eapply fail_holds].
    + destruct (el_OnCancel el); [by apply action_holds|by eapply fail_holds].
Qed.

(** ** Iterations *)
Lemma iteration_holds inner itemVar i item :
  bounded_retries inner ->
  holds (base_permitted (request_ok e inner) (max_calls inner)) base_answers
    (executeForEachIteration e inner itemVar i item) (fun r _ => iteration_ok i item r) [].
Proof.
  intros Hb. unfold executeForEachIteration. eapply holds_bind; [apply expandMap_quiet|].
  intros [err|expanded] ? [-> Hk]; [split_and!; [done|done|by right]|].
  destruct (RouteTool tools_range (we_router e) (ws_Tool inner)) as [err|target] eqn:Er; [split_and!; [done|done|by right]|].
  eapply holds_bind; [apply call_holds; [done|done|]; exists expanded; split; [done|by apply Hk]|].
  intros [[err|res] n] ? _; (split_and!; [done|done|]); [by right|by left].
Qed.

Lemma collection_holds l :
  holds (base_permitted (request_ok e step) (max_calls step)) base_answers (prepareForEachCollection step)
    (quiet l (fun r => match r with
                       | inl err => err <> StepContextDone
                       | inr items => is_Some (ws_InnerStep step) /\ (Z.of_nat (length items) <= max_iterations step)%Z
                       end)) l.
Proof.
  unfold prepareForEachCollection. destruct (ws_InnerStep step) as [inner|]; [|done].
  unfold resolveForEachCollection, ExpandString.
  eapply (holds_bind _ _ _ _ _ (quiet l (fun r => match r with inl err => err <> StepContextDone | inr _ => True end))).
  - eapply holds_bind; [apply expandString_quiet|]. intros [err|text] ? [-> _]; [done|]. cbn.
    destruct (ParseArray text); done.
  - intros [err|items] ? [-> Hr]; [done|]. cbn. unfold validateCollectionSize.
    destruct (Z.ltb_spec (max_iterations step) (Z.of_nat (length items))); [done|]. split; [done|]. split; [by eexists|lia].
Qed.

Lemma max_parallel_le : (max_parallel e step <= runtimeMaxParallel)%Z.
Proof. unfold max_parallel. case_match eqn:E; [done|]. by apply Z.ltb_ge in E. Qed.

Lemma bodies_ok inner itemVar items :
  ws_InnerStep step = Some inner -> bounded_retries inner ->
  Forall2 (fun ii body => body_ok e step ii.1 ii.2 body) (imap pair items)
    (imap (fun i item => executeForEachIteration e inner itemVar i item) items).
Proof.
  intros Hi Hb. apply Forall2_same_length_lookup. split; [by rewrite !length_imap|].
  intros i [i' item] body E1 E2. rewrite list_lookup_imap in E1. rewrite list_lookup_imap in E2.
  destruct (items !! i) as [x|]; [|done]. cbn in *. simplify_eq. exists inner. split; [done|]. by apply iteration_holds.
Qed.

Lemma foreach_holds l :
  (forall inner, ws_InnerStep step = Some inner -> bounded_retries inner) ->
  ws_Type step <> StepTypeTool -> fresh l -> runs (executeForEachStep e step) (step_outcome step) l.
Proof.
  intros Hb Ht (now & past & -> & Hp). unfold executeForEachStep. eapply base_holds; [apply collection_holds|].
  intros [err|items] Hr; [by eapply fail_holds|]. destruct Hr as [[inner Hi] Hlen].
  rewrite Hi. destruct items as [|item items]; [by eapply succeed_holds|].
  apply holds_do.
  { cbn [step_permitted]. split_and!; [done|done|apply max_parallel_le|done|done|]. by apply bodies_ok; [|apply Hb]. }
  intros [results [err|]] l' (El & Esent & Hall & Herr); cbn [fst snd l_entry] in *; [|by eapply succeed_holds].
  destruct (continueOnIterError step) eqn:Ec; [by eapply succeed_holds|].
  access. intros [Es [now' Ee]]. rewrite El in Ee. cbn in Ee. access. intros [Es2 Ee2]. rewrite Ee in Ee2. cbn in Ee2.
  unfold holds, step_outcome. rewrite Ee2. cbn. destruct err; try done.
  destruct Herr as (_ & i & r & _ & Hd). unfold iteration_error in Hd. by repeat case_match.
Qed.

(** ** The whole step *)
Definition bounded : Prop :=
  bounded_retries step /\ forall inner, ws_InnerStep step = Some inner -> bounded_retries inner.

Lemma step_holds l :
  bounded -> l_sent l = [] -> l_past l = {| h_clear := true; h_stopped := false; h_iterated := false |} ->
  runs (executeStep e step) (step_outcome step) l.
Proof.
  intros [Hb Hi] Es Hc. unfold executeStep. apply holds_do; [cbn; by rewrite Hc|]. intros ? l' (Es' & Hp & [now Ee]).
  assert (fresh l') as Hf by (exists now, (l_past l'); rewrite Hp, Hc; destruct l'; cbn in *; split; congruence).
  apply (base_holds _ _ (fun _ => True)).
  { case_decide; [done|]. apply condition_quiet. }
  intros [err|[]] _; [by eapply fail_holds| |].
  - destruct (ws_Type step) eqn:Et; [by apply tool_holds|by apply elicitation_holds; [congruence|]|
      by apply foreach_holds; [|congruence|]|].
    by eapply fail_holds.
  - apply holds_do; [split; [done|by rewrite Ee]|]. intros ? ? [Es2 (n1 & n2 & Ee2)]. unfold holds, step_outcome. rewrite Ee2. cbn. right. left. split_and!; [done| |done].
    congruence.
Qed.

Lemma executor_holds :
  bounded -> runs (stepExecutor e step) (step_outcome step) 
    {| l_entry := None; l_sent := []; l_past := {| h_clear := false; h_stopped := false; h_iterated := false |} |}.
Proof.
  intros Hb. unfold stepExecutor. apply holds_do; [done|]. intros [] l' (Ee & Es & Ec).
  - unfold holds, step_outcome. by rewrite Ee, Ec.
  - by apply step_holds.
Qed.
End steps.
End guarantees.
