(* ===== verification/WorkflowExecution.v ===== *)
(** * The concurrent execution of a workflow
    ([ExecuteWorkflow] of [pkg/vmcp/composer/workflow_engine.go] over [dag_executor.go])

    The executor of [DagExecution] decides when a step starts and ends; what a step does
    in between is its program of [StepExecution].  A state has the shared world, the
    executor, and for each goroutine of the current level the rest of its program.  The
    goroutines take turns access by access, in any order; within a forEach step so do its
    iterations, as many at a time as their semaphore allows.  Backends and users answer
    anything, contexts end at any time, and the store, which the workflows of a server
    share, is used by others too. *)

From S2P Require Import Prelude Programs VmcpTypes WorkflowTypes Router ParamHeaders SchemaCoercion Core.
From S2P Require Import Workflow DagExecutor DagExecution WorkflowContext WorkflowStore TemplateExpansion StepExecution StepGuarantees.

(** ** The shared world *)

(** Which step, and which of its iterations, sent a request. *)
Definition sender : Type := string * option nat.

Record wf_world := {
  ww_ctx : WorkflowContext;
  ww_sent : list (sender * tool_request);
  ww_store : inMemoryStateStore;
}.

Definition with_ctx (ctx : WorkflowContext) (w : wf_world) : wf_world :=
  {| ww_ctx := ctx; ww_sent := ww_sent w; ww_store := ww_store w |}.

Definition update_step (f : StepResult -> StepResult) (id : string) (w : wf_world) : wf_world :=
  with_ctx (with_steps (alter f id (wc_Steps (ww_ctx w))) (ww_ctx w)) w.

Definition send (who : sender) (r : tool_request) (w : wf_world) : wf_world :=
  {| ww_ctx := ww_ctx w; ww_sent := ww_sent w ++ [(who, r)]; ww_store := ww_store w |}.

Definition with_store (store : inMemoryStateStore) (w : wf_world) : wf_world :=
  {| ww_ctx := ww_ctx w; ww_sent := ww_sent w; ww_store := store |}.

(** The workflow's status is saved; [false] is an error. *)
Definition save (now : Time) (s : WorkflowStatus) (w : wf_world) : bool * wf_world :=
  match SaveState now (wc_WorkflowID (ww_ctx w)) (Some s) (ww_store w) with
  | inr store => (true, with_store store w)
  | inl _ => (false, w)
  end.

Definition own (who : sender) (sent : list (sender * tool_request)) : list tool_request :=
  (filter (fun p => p.1 = who) sent).*2.

Section system.
Context `{RT : Runtime} {group egroup : Type} `{EX : Errgroup exec_error group} `{EI : Errgroup wf_error egroup}.
Implicit Types (e : workflowEngine) (w : wf_world).

(** What an access may answer, and the world after it. *)
Definition base_exec (who : sender) {B : Type} (o : base_op B) (w : wf_world) : B -> wf_world -> Prop :=
  match o in base_op B return B -> wf_world -> Prop with
  | BCancelled => fun _ w' => w' = w
  | BContext => fun ctx w' => ctx = ww_ctx w /\ w' = w
  | BAttempts maxTries _ => fun more w' => w' = w /\ ((0 < maxTries)%Z -> (Z.of_nat more < maxTries)%Z)
  | BCall target name args headers => fun _ w' =>
      w' = send who {| tr_target := target; tr_name := name; tr_args := args; tr_headers := headers |} w
  | BStopped last => fun err w' => w' = w /\ (err = last \/ err = RetryStopped)
  end.

(** [isDone]: the context of the level is done. *)
Definition step_exec (id : string) (isDone : bool) {B : Type} (o : step_op B) (w : wf_world) : B -> wf_world -> Prop :=
  match o in step_op B return B -> wf_world -> Prop with
  | SBase o => fun x w' => base_exec (id, None) o w x w'
  | SContextDone => fun b w' => b = isDone /\ w' = w
  | SNow => fun _ w' => w' = w
  | SStart id => fun _ w' => exists now, w' = with_ctx (RecordStepStart now id (ww_ctx w)) w
  | SSuccess id output content => fun _ w' =>
      exists now, w' = with_ctx (RecordStepSuccess now id output content (ww_ctx w)) w
  | SFailure id err => fun _ w' => exists now, w' = with_ctx (RecordStepFailure now id err (ww_ctx w)) w
  | SSkipped id output => fun _ w' =>
      exists now now', w' = with_ctx (RecordStepSkipped now now' id output (ww_ctx w)) w
  | SRetryCount id n => fun _ w' => w' = update_step (set_retry_count n) id w
  | SOutput id output => fun _ w' => w' = update_step (set_output output) id w
  | SStatus status => fun state w' =>
      w' = w /\ exists now now', state = buildWorkflowStatus steps_range now now' (ww_ctx w) status
  | SSave state => fun ok w' => exists now, (ok, w') = save now state w
  | SElicit _ _ => fun _ w' => w' = w
  | SIterate _ _ _ _ _ => fun _ _ => False   (* not one access, see below *)
  end.

(** ** The iterations of a forEach step *)
Inductive iter_phase :=
  | IWaiting                                 (** in the [select] for a slot *)
  | IRunning (p : prog base_op iterationResult)
  | IReturning (err : option wf_error)
  | IReturned.

Record each_state := {
  es_id : string;
  es_max : Z;
  es_cont : bool;
  es_items : list json;
  es_bodies : list (prog base_op iterationResult);
  es_phases : list iter_phase;
  es_results : list (option iterationResult);
  es_group : egroup;
}.

Definition start_each (id : string) (maxPar : Z) (cont : bool) (items : list json)
    (bodies : list (prog base_op iterationResult)) : each_state :=
  {| es_id := id; es_max := maxPar; es_cont := cont; es_items := items; es_bodies := bodies;
     es_phases := (fun _ => IWaiting) <$> items; es_results := (fun _ => None) <$> items; es_group := new_group |}.

Definition set_phase (i : nat) (ph : iter_phase) (st : each_state) : each_state :=
  {| es_id := es_id st; es_max := es_max st; es_cont := es_cont st; es_items := es_items st;
     es_bodies := es_bodies st; es_phases := <[i := ph]> (es_phases st); es_results := es_results st;
     es_group := es_group st |}.

Definition set_result (i : nat) (r : iterationResult) (st : each_state) : each_state :=
  {| es_id := es_id st; es_max := es_max st; es_cont := es_cont st; es_items := es_items st;
     es_bodies := es_bodies st; es_phases := es_phases st; es_results := <[i := Some r]> (es_results st);
     es_group := es_group st |}.

Definition report (err : option wf_error) (st : each_state) : each_state :=
  {| es_id := es_id st; es_max := es_max st; es_cont := es_cont st; es_items := es_items st;
     es_bodies := es_bodies st; es_phases := es_phases st; es_results := es_results st;
     es_group := go_return err (es_group st) |}.

Definition is_running (ph : iter_phase) : bool := match ph with IRunning _ => true | _ => false end.

Definition iters_running (st : each_state) : Z :=
  Z.of_nat (length (filter (fun ph => is_running ph = true) (es_phases st))).

Inductive each_step : wf_world -> each_state -> wf_world -> each_state -> Prop :=
  | each_acquire i body w st :
      es_phases st !! i = Some IWaiting -> es_bodies st !! i = Some body -> (iters_running st < es_max st)%Z ->
      each_step w st w (set_phase i (IRunning body) st)
  | each_give_up i item text w st :
      es_phases st !! i = Some IWaiting -> es_items st !! i = Some item -> text <> "" ->
      each_step w st w
        (set_result i (iteration i item "cancelled" None text)
          (set_phase i (IReturning (Some IterationsCancelled)) st))
  | each_access i {B} (o : base_op B) k x w w' st :
      es_phases st !! i = Some (IRunning (Do o k)) -> base_exec (es_id st, Some i) o w x w' ->
      each_step w st w' (set_phase i (IRunning (k x)) st)
  | each_finish i r w st :
      es_phases st !! i = Some (IRunning (Ret r)) ->
      each_step w st w
        (set_result i r (set_phase i (IReturning (iteration_error (es_id st) (es_cont st) i r)) st))
  | each_return i err w st :
      es_phases st !! i = Some (IReturning err) ->
      each_step w st w (report err (set_phase i IReturned st)).

(** ** Goroutines *)
Inductive thread :=
  | TMain (p : prog step_op (option wf_error))
  | TEach (st : each_state) (k : list iterationResult * option wf_error -> prog step_op (option wf_error)).

Record wf_state := {
  wf_w : wf_world;
  wf_exec : exec_state group;
  wf_threads : list (option thread);
}.

Definition level_done (ex : exec_state group) : bool := ex_parent_done ex || group_done (ex_group ex).

Definition environment_event (ev : exec_event) : bool :=
  match ev with ParentCancelled | OthersAcquire | OthersRelease => true | _ => false end.

Inductive wf_step e (failureMode : string) : wf_state -> wf_state -> Prop :=
  | wf_acquire i s w ex ex' ts :
      ex_level ex !! i = Some (s, Waiting) -> exec_do failureMode (Acquire i) ex = Some ex' ->
      wf_step e failureMode {| wf_w := w; wf_exec := ex; wf_threads := ts |}
        {| wf_w := w; wf_exec := ex'; wf_threads := <[i := Some (TMain (stepExecutor e s))]> ts |}
  | wf_access i s ph {B} (o : step_op B) k x w w' ex ts :
      ex_level ex !! i = Some (s, ph) -> ts !! i = Some (Some (TMain (Do o k))) ->
      step_exec (ws_ID s) (level_done ex) o w x w' ->
      wf_step e failureMode {| wf_w := w; wf_exec := ex; wf_threads := ts |}
        {| wf_w := w'; wf_exec := ex; wf_threads := <[i := Some (TMain (k x))]> ts |}
  | wf_iterate i id maxPar cont items bodies k w ex ts :
      ts !! i = Some (Some (TMain (Do (SIterate id maxPar cont items bodies) k))) ->
      wf_step e failureMode {| wf_w := w; wf_exec := ex; wf_threads := ts |}
        {| wf_w := w; wf_exec := ex;
           wf_threads := <[i := Some (TEach (start_each id maxPar cont items bodies) k)]> ts |}
  | wf_each i st st' k w w' ex ts :
      ts !! i = Some (Some (TEach st k)) -> each_step w st w' st' ->
      wf_step e failureMode {| wf_w := w; wf_exec := ex; wf_threads := ts |}
        {| wf_w := w'; wf_exec := ex; wf_threads := <[i := Some (TEach st' k)]> ts |}
  | wf_joined i st k w ex ts :
      ts !! i = Some (Some (TEach st k)) -> Forall (eq IReturned) (es_phases st) ->
      wf_step e failureMode {| wf_w := w; wf_exec := ex; wf_threads := ts |}
        {| wf_w := w; wf_exec := ex;
           wf_threads := <[i := Some (TMain (k (omap id (es_results st), group_wait (es_group st))))]> ts |}
  | wf_finish i err w ex ex' ts :
      ts !! i = Some (Some (TMain (Ret err))) -> exec_do failureMode (Finish i (describe <$> err)) ex = Some ex' ->
      wf_step e failureMode {| wf_w := w; wf_exec := ex; wf_threads := ts |}
        {| wf_w := w; wf_exec := ex'; wf_threads := <[i := None]> ts |}
  | wf_give_up i w ex ex' ts :
      exec_do failureMode (GiveUp i) ex = Some ex' ->
      wf_step e failureMode {| wf_w := w; wf_exec := ex; wf_threads := ts |}
        {| wf_w := w; wf_exec := ex'; wf_threads := ts |}
  | wf_return i w ex ex' ts :
      exec_do failureMode (Return i) ex = Some ex' ->
      wf_step e failureMode {| wf_w := w; wf_exec := ex; wf_threads := ts |}
        {| wf_w := w; wf_exec := ex'; wf_threads := ts |}
  | wf_next w ex ex' ts :
      exec_do failureMode NextLevel ex = Some ex' ->
      wf_step e failureMode {| wf_w := w; wf_exec := ex; wf_threads := ts |}
        {| wf_w := w; wf_exec := ex'; wf_threads := (fun _ => None) <$> ex_level ex' |}
  | wf_store_event ev w ex ts :
      wf_step e failureMode {| wf_w := w; wf_exec := ex; wf_threads := ts |}
        {| wf_w := with_store (store_event_do ev (ww_store w)) w; wf_exec := ex; wf_threads := ts |}
  | wf_environment ev w ex ex' ts :
      environment_event ev = true -> exec_do failureMode ev ex = Some ex' ->
      wf_step e failureMode {| wf_w := w; wf_exec := ex; wf_threads := ts |}
        {| wf_w := w; wf_exec := ex'; wf_threads := ts |}.

(** A workflow about to run: nothing recorded, nothing sent. *)
Definition wf_start (w : wf_world) (ex : exec_state group) : wf_state :=
  {| wf_w := w; wf_exec := ex; wf_threads := [] |}.

Definition untouched (w : wf_world) : Prop := wc_Steps (ww_ctx w) = ∅ /\ ww_sent w = [].
End system.
