(* ===== verification/WorkflowInvariant.v ===== *)
(** * What holds throughout the execution of a workflow

    The invariant of [WorkflowExecution]: each goroutine still guarantees the outcome of
    its step, each finished step has the outcome it returned, and nothing else touches
    the entry of a step in the context. *)

From S2P Require Import Prelude Programs VmcpTypes WorkflowTypes Router ParamHeaders SchemaCoercion Core.
From S2P Require Import Workflow DagExecutor DagExecution WorkflowContext WorkflowStore TemplateExpansion StepExecution StepGuarantees.
From S2P Require Import WorkflowExecution.

Section invariant.
Context `{RT : Runtime} {group egroup : Type} `{EX : Errgroup exec_error group} `{EI : Errgroup wf_error egroup}.
Implicit Types (e : workflowEngine) (w : wf_world) (s : WorkflowStep).

Definition entry (id : string) w : option StepResult := wc_Steps (ww_ctx w) !! id.

Definition view s (past : history) w : local :=
  {| l_entry := entry (ws_ID s) w; l_sent := own (ws_ID s, None) (ww_sent w); l_past := past |}.

(** Only the step [s] has acted. *)
Record frame s w w' : Prop := {
  fr_entry : forall id, id <> ws_ID s -> entry id w' = entry id w;
  fr_sent : forall who, who.1 <> ws_ID s -> own who (ww_sent w') = own who (ww_sent w);
  fr_mono : forall id, is_Some (entry id w) -> is_Some (entry id w');
}.

Lemma frame_refl s w : frame s w w.
Proof. by split. Qed.

Lemma own_send who who' r w :
  own who (ww_sent (send who' r w)) = own who (ww_sent w) ++ (if decide (who' = who) then [r] else []).
Proof.
  unfold own, send. cbn [ww_sent]. rewrite filter_app, fmap_app. f_equal. rewrite filter_cons, filter_nil. cbn.
  repeat case_decide; try done; congruence.
Qed.

Lemma base_exec_answers who {B} (o : base_op B) w x w' :
  base_exec who o w x w' ->
  base_answers B o (own who (ww_sent w)) x (own who (ww_sent w')) /\
  (forall id, entry id w' = entry id w) /\
  (forall who', who' <> who -> own who' (ww_sent w') = own who' (ww_sent w)).
Proof.
  unfold entry. destruct o; cbn; intros Hx; try (subst; done); try (by destruct Hx; subst).
  subst. rewrite own_send, decide_True by done. split; [done|]. split; [done|]. intros who' Hne.
  rewrite own_send, decide_False by done. by rewrite app_nil_r.
Qed.

Definition insert_step (r : StepResult) (id : string) w : wf_world :=
  with_ctx (with_steps (<[id := r]> (wc_Steps (ww_ctx w))) (ww_ctx w)) w.

Lemma entry_update f id id' w :
  entry id' (update_step f id w) = if decide (id = id') then f <$> entry id' w else entry id' w.
Proof. unfold entry, update_step. cbn. case_decide; [subst; apply lookup_alter_eq|by apply lookup_alter_ne]. Qed.

Lemma entry_insert r id id' w :
  entry id' (insert_step r id w) = if decide (id = id') then Some r else entry id' w.
Proof. unfold entry, insert_step. cbn. case_decide; [subst; apply lookup_insert_eq|by apply lookup_insert_ne]. Qed.

Lemma frame_update f s w : frame s w (update_step f (ws_ID s) w).
Proof.
  split; [|done|]; intros id; rewrite entry_update; case_decide; try done. by rewrite fmap_is_Some.
Qed.

Lemma frame_insert r s w : frame s w (insert_step r (ws_ID s) w).
Proof. split; [|done|]; intros id; rewrite entry_insert; case_decide; done. Qed.

(** What [step_exec_answers] states of one access. *)
Definition acted (s : WorkflowStep) (c : history) (isDone : bool) {B} (o : step_op B) w (x : B) w' : Prop :=
  exists c', step_answers s B o (view s c w) x (view s c' w') /\ frame s w w' /\
    (h_clear c' = true -> h_clear c = true \/ isDone = false) /\
    (h_stopped c' = true -> h_stopped c = true \/ isDone = true) /\ h_iterated c' = h_iterated c /\
    (forall i, own (ws_ID s, Some i) (ww_sent w') = own (ws_ID s, Some i) (ww_sent w)) /\
    (is_Some (entry (ws_ID s) w') -> is_Some (entry (ws_ID s) w) \/ h_clear c = true).

Lemma acted_update s c isDone {B} (o : step_op B) f w x :
  step_answers s B o (view s c w) x (view s c (update_step f (ws_ID s) w)) ->
  acted s c isDone o w x (update_step f (ws_ID s) w).
Proof.
  intros Ha. exists c. split; [done|]. split; [apply frame_update|]. split; [auto|]. split; [auto|]. split; [done|].
  split; [done|].
  rewrite entry_update, decide_True, fmap_is_Some by done. auto.
Qed.

Lemma acted_insert s c isDone {B} (o : step_op B) r w x :
  step_answers s B o (view s c w) x (view s c (insert_step r (ws_ID s) w)) ->
  is_Some (entry (ws_ID s) w) \/ h_clear c = true ->
  acted s c isDone o w x (insert_step r (ws_ID s) w).
Proof. intros Ha Hs. exists c. split; [done|]. split; [apply frame_insert|]. auto 10. Qed.

Lemma acted_same s c isDone {B} (o : step_op B) w x w' :
  step_answers s B o (view s c w) x (view s c w) -> ww_ctx w' = ww_ctx w -> ww_sent w' = ww_sent w ->
  acted s c isDone o w x w'.
Proof.
  intros Ha Ec Es. exists c. unfold view, entry in *. rewrite Ec, Es. split; [done|]. split; [|auto 10].
  split; unfold entry; by rewrite ?Ec, ?Es.
Qed.

Ltac own_entry := unfold view; cbn; rewrite ?entry_update, ?entry_insert, decide_True by done; eauto.

(** An access of the step [s]: what it does to its part, and that it leaves the rest. *)
Lemma step_exec_answers e s c isDone {B} (o : step_op B) w x w' :
  step_permitted e s B o (view s c w) -> step_exec (ws_ID s) isDone o w x w' -> acted s c isDone o w x w'.
Proof.
  destruct o as [B o| | |id|id out cont|id err|id out|id n|id out|status|state|t req|]; cbn [step_permitted step_exec]; intros Hp Hx.
  - destruct (base_exec_answers _ _ _ _ _ Hx) as (Ha & He & Ho). exists c. split.
    { cbn. by rewrite He. }
    split; [|rewrite He; split; [auto|]; split; [auto|]; split; [done|]; split; [|auto]; intros i; by apply Ho].
    split; [done| |by intros id; rewrite He]. intros who Hne. apply Ho. by intros ->.
  - destruct Hx as [-> ->]. exists {| h_clear := negb isDone; h_stopped := isDone; h_iterated := h_iterated c |}. split; [done|].
    split; [apply frame_refl|]. destruct isDone; cbn; auto 10.
  - subst. by apply acted_same.
  - destruct Hp as [-> Hc]. destruct Hx as [now ->]. apply (acted_insert _ _ _ _ (started_result now (ws_ID s))); [own_entry|by right].
  - subst. destruct Hx as [now ->]. apply (acted_update _ _ _ _ (succeeded_result now out cont)). own_entry.
  - subst. destruct Hx as [now ->]. apply (acted_update _ _ _ _ (failed_result now err)). own_entry.
  - destruct Hp as [-> Hs]. destruct Hx as (now & now' & ->).
    apply (acted_insert _ _ _ _ (skipped_result now now' (ws_ID s) out)); [own_entry|by left].
  - subst. apply acted_update. own_entry.
  - subst. apply acted_update. own_entry.
  - destruct Hx as [-> (? & ? & ->)]. by apply acted_same.
  - destruct Hx as [now Hx]. unfold save in Hx. destruct (SaveState _ _ _ _); simplify_eq; by apply acted_same.
  - subst. by apply acted_same.
  - done.
Qed.

(** What an access sends is permitted, and within the limit. *)
Lemma base_exec_sent ok limit who {B} (o : base_op B) w x w' :
  base_permitted ok limit B o (own who (ww_sent w)) -> base_exec who o w x w' ->
  (forall p, p ∈ ww_sent w' -> p ∈ ww_sent w \/ (p.1 = who /\ ok p.2)) /\
  (length (own who (ww_sent w)) <= limit -> length (own who (ww_sent w')) <= limit).
Proof.
  destruct o; cbn; intros Hp Hx; try (subst; by auto); try (destruct Hx; subst; by auto).
  subst. split.
  - intros p [?|E%list_elem_of_singleton]%elem_of_app; [by left|]. right. subst. by destruct Hp.
  - intros _. rewrite own_send, decide_True, length_app by done. cbn. lia.
Qed.

(** ** Iterations *)
Section iterations.
Context e s.

(** What is known of an iteration from where its goroutine is. *)
Definition iter_ok w (st : each_state (egroup:=egroup)) (i : nat) (item : json) (ph : iter_phase) : Prop :=
  match ph with
  | IWaiting => own (ws_ID s, Some i) (ww_sent w) = [] /\
      exists body, es_bodies st !! i = Some body /\ body_ok e s i item body
  | IRunning p => exists inner, ws_InnerStep s = Some inner /\
      holds (base_permitted (request_ok e inner) (max_calls inner)) base_answers p
        (fun r _ => iteration_ok i item r) (own (ws_ID s, Some i) (ww_sent w))
  | IReturning err => exists r, es_results st !! i = Some (Some r) /\
      (iteration_ok i item r /\ err = iteration_error (ws_ID s) (es_cont st) i r \/
       cancelled_iteration i item r /\ err = Some IterationsCancelled)
  | IReturned => exists r, es_results st !! i = Some (Some r) /\
      (iteration_ok i item r /\ (iteration_error (ws_ID s) (es_cont st) i r = None \/ is_Some (group_wait (es_group st))) \/
       cancelled_iteration i item r /\ is_Some (group_wait (es_group st)))
  end.

(** Where an error of the group comes from. *)
Definition error_source (st : each_state (egroup:=egroup)) (err : wf_error) : Prop :=
  exists i r, es_results st !! i = Some (Some r) /\
    (it_Status r = "cancelled" /\ err = IterationsCancelled \/
     iteration_error (ws_ID s) (es_cont st) i r = Some err).

(** Results that are there stay. *)
Definition results_kept (st : each_state (egroup:=egroup)) : Prop :=
  forall i ph, es_phases st !! i = Some ph -> match ph with IWaiting | IRunning _ => es_results st !! i = Some None | _ => True end.

Record each_ok w (st : each_state (egroup:=egroup)) : Prop := {
  eo_id : es_id st = ws_ID s;
  eo_phases : length (es_phases st) = length (es_items st);
  eo_results : length (es_results st) = length (es_items st);
  eo_kept : results_kept st;
  eo_iter : forall i item ph, es_items st !! i = Some item -> es_phases st !! i = Some ph -> iter_ok w st i item ph;
  eo_group : forall err, group_wait (es_group st) = Some err -> error_source st err;
  eo_slots : (iters_running st <= Z.max 0 (es_max st))%Z;
  eo_limits : (es_max st <= runtimeMaxParallel)%Z /\ (Z.of_nat (length (es_items st)) <= max_iterations s)%Z;
}.

Lemma running_set i ph ph0 (st : each_state (egroup:=egroup)) :
  es_phases st !! i = Some ph0 ->
  iters_running (set_phase i ph st) =
    (iters_running st - (if is_running ph0 then 1 else 0) + (if is_running ph then 1 else 0))%Z.
Proof.
  intros E. pose proof (count_insert is_running (es_phases st) i ph0 ph E) as Hc. unfold iters_running. cbn.
  unfold count in Hc. destruct (is_running ph0), (is_running ph); lia.
Qed.

(** A goroutine moves on; the others are not affected. *)
Lemma each_move w w' st st' i ph0 ph item :
  each_ok w st -> es_phases st !! i = Some ph0 -> es_items st !! i = Some item ->
  es_phases st' = <[i := ph]> (es_phases st) ->
  es_id st' = es_id st -> es_max st' = es_max st -> es_cont st' = es_cont st -> es_items st' = es_items st ->
  es_bodies st' = es_bodies st ->
  length (es_results st') = length (es_results st) ->
  (forall j, j <> i -> es_results st' !! j = es_results st !! j) ->
  (forall j, j <> i -> own (ws_ID s, Some j) (ww_sent w') = own (ws_ID s, Some j) (ww_sent w)) ->
  (is_Some (group_wait (es_group st)) -> is_Some (group_wait (es_group st'))) ->
  match ph with IWaiting | IRunning _ => es_results st' !! i = Some None | _ => True end ->
  iter_ok w' st' i item ph ->
  (forall err, group_wait (es_group st') = Some err -> error_source st' err) ->
  (iters_running st' <= Z.max 0 (es_max st))%Z ->
  each_ok w' st'.
Proof.
  intros [H1 H2 H3 H4 H5 H6 H7 H8] Eph Eit Ephs Eid Emax Econt Eits Ebod Elen Eres Esent Egrp Hkept Hok Hgrp Hslots.
  split; [by rewrite Eid|by rewrite Ephs, Eits, length_insert|by rewrite Elen, Eits| | |done|by rewrite Emax|by rewrite Emax, Eits].
  - intros j ph'. rewrite Ephs. destruct (decide (i = j)) as [<-|Hne].
    + rewrite list_lookup_insert_eq by (by eapply lookup_lt_Some). by intros [= <-].
    + rewrite list_lookup_insert_ne by done. intros Hj. rewrite Eres by done. by apply H4.
  - intros j item' ph'. rewrite Ephs, Eits. destruct (decide (i = j)) as [<-|Hne].
    + rewrite list_lookup_insert_eq by (by eapply lookup_lt_Some). intros ? [= <-]. by simplify_eq.
    + rewrite list_lookup_insert_ne by done. intros Hit Hph. specialize (H5 j item' ph' Hit Hph).
      unfold iter_ok in *. rewrite Econt, Ebod, Eres, Esent by done. destruct ph'; try done.
      destruct H5 as (r & Hr & Hc). exists r. split; [done|]. naive_solver.
Qed.

Lemma each_source_kept st st' err :
  es_cont st' = es_cont st ->
  (forall j r, es_results st !! j = Some (Some r) -> es_results st' !! j = Some (Some r)) ->
  error_source st err -> error_source st' err.
Proof. intros Ec Hr (i & r & Hi & Hs). exists i, r. rewrite Ec. auto. Qed.

(** What the iterations of [s] do to the world. *)
Record iterated w w' : Prop := {
  id_entry : forall id, entry id w' = entry id w;
  id_sent : forall who, who.1 <> ws_ID s \/ who.2 = None -> own who (ww_sent w') = own who (ww_sent w);
  id_requests : forall p, p ∈ ww_sent w' -> p ∈ ww_sent w \/
    (p.1.1 = ws_ID s /\ is_Some p.1.2 /\ exists inner, ws_InnerStep s = Some inner /\ request_ok e inner p.2);
  id_counts : forall i inner, ws_InnerStep s = Some inner ->
    length (own (ws_ID s, Some i) (ww_sent w)) <= max_calls inner ->
    length (own (ws_ID s, Some i) (ww_sent w')) <= max_calls inner;
}.

Lemma iterated_refl w : iterated w w.
Proof. split; auto. Qed.

Lemma item_of w st i ph : each_ok w st -> es_phases st !! i = Some ph -> exists item, es_items st !! i = Some item.
Proof. intros Hok Hi. apply lookup_lt_is_Some. rewrite <- (eo_phases _ _ Hok). by eapply lookup_lt_Some. Qed.

Lemma each_acquire_ok w st i body :
  each_ok w st -> es_phases st !! i = Some IWaiting -> es_bodies st !! i = Some body ->
  (iters_running st < es_max st)%Z -> each_ok w (set_phase i (IRunning body) st).
Proof.
  intros Hok Hi Hb Hr. destruct (item_of _ _ _ _ Hok Hi) as [item Hit].
  eapply (each_move w w st _ i IWaiting _ item); try done.
  - apply (eo_kept _ _ Hok _ _ Hi).
  - destruct (eo_iter _ _ Hok _ _ _ Hit Hi) as (Hs & body' & Hb' & inner & Hin & Hh). simplify_eq.
    exists inner. split; [done|]. by rewrite Hs.
  - intros err Hg. eapply (each_source_kept st); [done|done|]. by apply (eo_group _ _ Hok).
  - rewrite (running_set _ _ _ _ Hi). cbn. lia.
Qed.

Lemma set_result_kept st i ph r :
  results_kept st -> es_phases st !! i = Some ph -> (ph = IWaiting \/ exists p, ph = IRunning p) ->
  forall j x, es_results st !! j = Some (Some x) -> es_results (set_result i r st) !! j = Some (Some x).
Proof.
  intros Hk Hi Hph j x Hj. cbn. destruct (decide (i = j)) as [<-|]; [|by rewrite list_lookup_insert_ne].
  specialize (Hk _ _ Hi). destruct Hph as [->|[p ->]]; congruence.
Qed.

(** The result is written and the error is on its way. *)
Lemma each_result_ok w st i item ph0 r err :
  each_ok w st -> es_phases st !! i = Some ph0 -> es_items st !! i = Some item ->
  (ph0 = IWaiting \/ exists p, ph0 = IRunning p) ->
  (iteration_ok i item r /\ err = iteration_error (ws_ID s) (es_cont st) i r \/
   cancelled_iteration i item r /\ err = Some IterationsCancelled) ->
  each_ok w (set_result i r (set_phase i (IReturning err) st)).
Proof.
  intros Hok Hi Hit Hph Hr. assert (i < length (es_results st)) as Hlt.
  { rewrite (eo_results _ _ Hok). by eapply lookup_lt_Some. }
  eapply (each_move w w st _ i ph0 _ item); try done.
  - cbn. by rewrite length_insert.
  - intros j Hj. cbn. by rewrite list_lookup_insert_ne.
  - exists r. split; [cbn; by rewrite list_lookup_insert_eq|done].
  - intros err' Hg. eapply (each_source_kept st); [done| |by apply (eo_group _ _ Hok)].
    intros j x Hj. exact (set_result_kept st i ph0 r (eo_kept _ _ Hok) Hi Hph j x Hj).
  - change (iters_running (set_phase i (IReturning err) st) <= Z.max 0 (es_max st))%Z.
    rewrite (running_set _ _ _ _ Hi). pose proof (eo_slots _ _ Hok). cbn [is_running]. case_match; lia.
Qed.

Lemma each_return_ok w st i err :
  each_ok w st -> es_phases st !! i = Some (IReturning err) -> each_ok w (report err (set_phase i IReturned st)).
Proof.
  intros Hok Hi. destruct (item_of _ _ _ _ Hok Hi) as [item Hit].
  destruct (eo_iter _ _ Hok _ _ _ Hit Hi) as (r & Hr & Hc).
  assert (is_Some (group_wait (es_group st)) -> is_Some (group_wait (go_return err (es_group st)))) as Hg.
  { rewrite go_return_wait. intros [? ->]. eauto. }
  eapply (each_move w w st _ i _ _ item); try done.
  - exists r. split; [done|]. cbn [es_cont es_group report set_phase]. rewrite go_return_wait.
    destruct Hc as [[Hok' ->]|[Hc ->]].
    + left. split; [done|]. destruct (iteration_error _ _ _ _); [right|by left]. destruct (group_wait (es_group st)); eauto.
    + right. split; [done|]. destruct (group_wait (es_group st)); eauto.
  - intros err' Hw. cbn in Hw. rewrite go_return_wait in Hw.
    destruct (group_wait (es_group st)) as [e0|] eqn:Eg.
    + simplify_eq. eapply (each_source_kept st); [done|done|]. by apply (eo_group _ _ Hok).
    + subst. exists i, r. split; [done|]. cbn. destruct Hc as [[_ Hc]|[Hc Hd]]; [by right|].
      left. simplify_eq. split; [apply Hc|done].
  - change (iters_running (set_phase i IReturned st) <= Z.max 0 (es_max st))%Z.
    rewrite (running_set _ _ _ _ Hi). pose proof (eo_slots _ _ Hok). cbn. lia.
Qed.

Lemma each_access_ok w w' st i {B} (o : base_op B) k x :
  each_ok w st -> es_phases st !! i = Some (IRunning (Do o k)) -> base_exec (es_id st, Some i) o w x w' ->
  each_ok w' (set_phase i (IRunning (k x)) st) /\ iterated w w'.
Proof.
  intros Hok Hi Hx. rewrite (eo_id _ _ Hok) in Hx. destruct (item_of _ _ _ _ Hok Hi) as [item Hit].
  destruct (eo_iter _ _ Hok _ _ _ Hit Hi) as (inner & Hin & Hperm & Hk).
  destruct (base_exec_answers _ _ _ _ _ Hx) as (Ha & He & Ho).
  destruct (base_exec_sent _ _ _ _ _ _ _ Hperm Hx) as [Hreq Hcnt]. split.
  - eapply (each_move w w' st _ i _ _ item); try done.
    + intros j Hj. apply Ho. congruence.
    + apply (eo_kept _ _ Hok _ _ Hi).
    + exists inner. split; [done|]. by apply Hk.
    + intros err Hg. eapply (each_source_kept st); [done|done|]. by apply (eo_group _ _ Hok).
    + rewrite (running_set _ _ _ _ Hi). pose proof (eo_slots _ _ Hok). cbn. lia.
  - split; [done| | |].
    + intros who Hw. apply Ho. intros ->. naive_solver.
    + intros [who r] [?|[E Hok']]%Hreq; [by left|]. right. cbn in *. subst who. cbn. split; [done|]. split; [by eexists|]. eauto.
    + intros j inner' Hin' Hle. simplify_eq. destruct (decide (j = i)) as [->|]; [by apply Hcnt|].
      rewrite Ho by congruence. done.
Qed.

Lemma each_step_ok w st w' st' :
  each_ok w st -> each_step w st w' st' ->
  each_ok w' st' /\ iterated w w' /\ es_items st' = es_items st /\ es_cont st' = es_cont st.
Proof.
  intros Hok Hstep. destruct Hstep as [i body w st Hi Hb Hr|i item text w st Hi Hit Ht|i B o k x w w' st Hi Hx|i r w st Hi|i err w st Hi].
  - split; [by apply each_acquire_ok|]. split; [apply iterated_refl|done].
  - split; [|split; [apply iterated_refl|done]]. eapply each_result_ok; [done|done|done|by left|]. by right.
  - destruct (each_access_ok _ _ _ _ _ _ _ Hok Hi Hx). auto.
  - split; [|split; [apply iterated_refl|done]]. destruct (item_of _ _ _ _ Hok Hi) as [item Hit].
    destruct (eo_iter _ _ Hok _ _ _ Hit Hi) as (inner & Hin & Hq). rewrite (eo_id _ _ Hok).
    eapply each_result_ok; [done|done|done|right; by eexists|]. by left.
  - split; [by apply each_return_ok|]. split; [apply iterated_refl|done].
Qed.

Lemma omap_id_Some {A} (l : list (option A)) : (forall i x, l !! i = Some x -> is_Some x) -> Some <$> omap id l = l.
Proof.
  induction l as [|[x|] l IH]; intros Hl; [done| |].
  - rewrite omap_cons_eq. cbn. f_equal. apply IH. intros i. apply (Hl (S i)).
  - by destruct (Hl 0 None eq_refl).
Qed.

Lemma each_joined w st :
  each_ok w st -> Forall (eq IReturned) (es_phases st) ->
  iterations_done (ws_ID s) (es_cont st) (es_items st) (omap id (es_results st)) (group_wait (es_group st)).
Proof.
  intros Hok Hall. assert (forall i item, es_items st !! i = Some item -> iter_ok w st i item IReturned) as Hret.
  { intros i item Hi. apply (eo_iter _ _ Hok _ _ _ Hi).
    destruct (lookup_lt_is_Some_2 (es_phases st) i) as [ph Hph].
    { rewrite (eo_phases _ _ Hok). by eapply lookup_lt_Some. }
    rewrite Hph. f_equal. symmetry. by apply (Forall_lookup_1 _ _ _ _ Hall Hph). }
  assert (Some <$> omap id (es_results st) = es_results st) as Hres.
  { apply omap_id_Some. intros i x Hi. destruct (lookup_lt_is_Some_2 (es_items st) i) as [item Hit].
    { rewrite <- (eo_results _ _ Hok). by eapply lookup_lt_Some. }
    destruct (Hret _ _ Hit) as (r & Hr & _). simplify_eq. by eexists. }
  assert (forall i r, omap id (es_results st) !! i = Some r <-> es_results st !! i = Some (Some r)) as Hlk.
  { intros i r. rewrite <- Hres at 2. rewrite list_lookup_fmap_Some. naive_solver. }
  split.
  - apply Forall2_same_length_lookup. split.
    { rewrite length_imap, <- (eo_results _ _ Hok), <- Hres at 1. by rewrite length_fmap. }
    intros i [i' item] r E1 E2. rewrite list_lookup_imap in E1. destruct (es_items st !! i) as [it|] eqn:Eit; [|done].
    cbn in E1. injection E1 as <- <-. apply Hlk in E2. destruct (Hret _ _ Eit) as (r' & Hr' & Hc). simplify_eq.
    cbn. naive_solver.
  - destruct (group_wait (es_group st)) as [err|] eqn:Eg.
    + destruct (eo_group _ _ Hok err Eg) as (i & r & Hr & Hc). apply Hlk in Hr.
      destruct Hc as [[Hc ->]|Hc]; [exists r; split; [by eapply list_elem_of_lookup_2|done]|].
      assert (exists text, err = IterationFailed (ws_ID s) i text /\ es_cont st = false) as (text & -> & Ec).
      { unfold iteration_error in Hc. repeat case_match; simplify_eq. eauto. }
      split; [done|]. eauto.
    + intros i r Hr. apply Hlk in Hr. destruct (lookup_lt_is_Some_2 (es_items st) i) as [item Hit].
      { rewrite <- (eo_results _ _ Hok). by eapply lookup_lt_Some. }
      destruct (Hret _ _ Hit) as (r' & Hr' & Hc). rewrite Eg in Hc. simplify_eq.
      destruct Hc as [[_ [?|[? ?]]]|[_ [? ?]]]; done.
Qed.

Lemma start_each_ok w maxPar cont items bodies :
  (maxPar <= runtimeMaxParallel)%Z -> (Z.of_nat (length items) <= max_iterations s)%Z ->
  Forall2 (fun ii body => body_ok e s ii.1 ii.2 body) (imap pair items) bodies ->
  (forall i, own (ws_ID s, Some i) (ww_sent w) = []) ->
  each_ok w (start_each (ws_ID s) maxPar cont items bodies).
Proof.
  intros Hmax Hlen Hb Hown. split; cbn; rewrite ?length_fmap; try done.
  - intros i ph. cbn. rewrite !list_lookup_fmap. destruct (items !! i); cbn; [|done]. by intros [= <-].
  - intros i item ph Hi. rewrite list_lookup_fmap, Hi. intros [= <-]. split; [done|].
    destruct (Forall2_lookup_l _ _ _ i (i, item) Hb) as (body & Hbody & Hok).
    { by rewrite list_lookup_imap, Hi. }
    exists body. by split.
  - rewrite new_group_wait. done.
  - change (iters_running (start_each (ws_ID s) maxPar cont items bodies) <= Z.max 0 maxPar)%Z.
    assert (iters_running (start_each (ws_ID s) maxPar cont items bodies) = 0%Z) as ->; [|lia].
    unfold iters_running. cbn. clear. induction items as [|x l IH]; [done|]. cbn [fmap list_fmap]. rewrite filter_cons.
    cbn. done.
Qed.
End iterations.

(** ** The whole state *)
Section execution.
Context e (failureMode : string) (levels : list (list WorkflowStep)).
Implicit Types (ex : exec_state group) (ts : list (option (thread (egroup:=egroup)))).

(** The dependencies of [s] have run and their results are there. *)
Definition deps_seen ex w s : Prop :=
  forall d, d ∈ ws_DependsOn s ->
    exists s' r, ws_ID s' = d /\ (s', r) ∈ ex_finished ex /\ s' ∈ concat levels /\
      (r = None \/ shouldContinueOnError s' failureMode = true) /\ is_Some (entry d w).

Definition thread_ok ex w s (th : thread (egroup:=egroup)) : Prop :=
  exists c, (h_clear c = true -> deps_seen ex w s) /\ (h_stopped c = true -> level_done ex = true) /\
    match th with
    | TMain p => holds (step_permitted e s) (step_answers s) p (step_outcome s) (view s c w) /\
        (h_iterated c = false -> forall i, own (ws_ID s, Some i) (ww_sent w) = [])
    | TEach st k => each_ok e s w st /\ h_iterated c = true /\
        forall x, iterations_done (ws_ID s) (es_cont st) (es_items st) x.1 x.2 ->
          holds (step_permitted e s) (step_answers s) (k x) (step_outcome s) (view s c w)
    end.

(** How many requests a step, or one of its iterations, may send. *)
Definition request_limit s (it : option nat) : nat :=
  match it with
  | None => max_calls s
  | Some _ => match ws_InnerStep s with Some inner => max_calls inner | None => 0 end
  end.

Definition sender_ok s (it : option nat) (r : tool_request) : Prop :=
  match it with
  | None => request_ok e s r
  | Some _ => exists inner, ws_InnerStep s = Some inner /\ request_ok e inner r
  end.

Record wf_inv (k : nat) (st : wf_state (group:=group) (egroup:=egroup)) : Prop := {
  wi_exec : exec_inv failureMode levels k (wf_exec st);
  wi_group : group_done (ex_group (wf_exec st)) = true -> is_Some (ex_group_err (wf_exec st));
  wi_len : length (wf_threads st) = length (ex_level (wf_exec st));
  wi_thread : forall i s ph, ex_level (wf_exec st) !! i = Some (s, ph) ->
    match ph with
    | Running => exists th, wf_threads st !! i = Some (Some th) /\ thread_ok (wf_exec st) (wf_w st) s th
    | _ => wf_threads st !! i = Some None
    end;
  wi_running : forall s, (s, Running) ∈ ex_level (wf_exec st) ->
    s ∈ ex_started (wf_exec st) /\ forall r, (s, r) ∉ ex_finished (wf_exec st);
  wi_finished : forall s r, (s, r) ∈ ex_finished (wf_exec st) ->
    s ∈ ex_started (wf_exec st) /\ exists err c, r = describe <$> err /\ step_outcome s err (view s c (wf_w st));
  wi_unstarted : forall s, s ∈ concat levels -> s ∉ ex_started (wf_exec st) ->
    entry (ws_ID s) (wf_w st) = None /\ forall it, own (ws_ID s, it) (ww_sent (wf_w st)) = [];
  wi_blocked : forall s r, (s, r) ∈ ex_finished (wf_exec st) -> entry (ws_ID s) (wf_w st) = None ->
    level_done (wf_exec st) = true;
  wi_deps : forall s, s ∈ concat levels -> is_Some (entry (ws_ID s) (wf_w st)) -> deps_seen (wf_exec st) (wf_w st) s;
  wi_sent : forall p, p ∈ ww_sent (wf_w st) ->
    exists s, s ∈ ex_started (wf_exec st) /\ ws_ID s = p.1.1 /\ sender_ok s p.1.2 p.2;
  wi_count : forall s it, s ∈ concat levels -> length (own (ws_ID s, it) (ww_sent (wf_w st))) <= request_limit s it;
}.

Context (Hids : NoDup (ws_ID <$> concat levels)).
Context (Hbounded : forall s, s ∈ concat levels -> bounded s).

Lemma same_step s s' : s ∈ concat levels -> s' ∈ concat levels -> ws_ID s = ws_ID s' -> s = s'.
Proof using Hids. by apply NoDup_fmap_elem. Qed.

Lemma level_member k ex i s ph :
  exec_inv failureMode levels k ex -> ex_level ex !! i = Some (s, ph) -> s ∈ concat levels.
Proof using Type.
  intros Hi Hl. pose proof (ei_level _ _ _ _ Hi) as Hk. destruct k as [|k]; [by rewrite Hk in Hl|].
  apply list_elem_of_In, in_concat. exists (ex_level ex).*1. split.
  - apply list_elem_of_In. by eapply list_elem_of_lookup_2.
  - apply list_elem_of_In, list_elem_of_fmap. exists (s, ph). split; [done|]. by eapply list_elem_of_lookup_2.
Qed.

Lemma started_member k ex s : exec_inv failureMode levels k ex -> s ∈ ex_started ex -> s ∈ concat levels.
Proof using Type.
  intros Hi Hs. apply (ei_started _ _ _ _ Hi) in Hs as (j & l & _ & Hl & Hs). apply list_elem_of_In, in_concat.
  exists l. rewrite <- !list_elem_of_In. split; [by eapply list_elem_of_lookup_2|done].
Qed.

(** Two goroutines of a level belong to different steps. *)
Lemma level_unique k ex i j s s' ph ph' :
  exec_inv failureMode levels k ex -> ex_level ex !! i = Some (s, ph) -> ex_level ex !! j = Some (s', ph') ->
  ws_ID s = ws_ID s' -> i = j.
Proof using Hids.
  intros Hi H1 H2 E. assert (s = s') as <- by (apply same_step; eauto using level_member).
  pose proof (ei_level _ _ _ _ Hi) as Hk. destruct k as [|k]; [by rewrite Hk in H1|].
  assert (NoDup (ex_level ex).*1) as Hnd.
  { apply (NoDup_fmap_1 ws_ID). apply list_elem_of_split_length in Hk as (l1 & l2 & El & _).
    rewrite El, concat_app in Hids. cbn [concat] in Hids. rewrite !fmap_app in Hids.
    apply NoDup_app in Hids as (_ & _ & Hn). by apply NoDup_app in Hn as (Hn & _ & _). }
  apply (NoDup_lookup _ i j s Hnd); by rewrite list_lookup_fmap, ?H1, ?H2.
Qed.

(** ** A goroutine acts on the world *)
Lemma deps_seen_mono ex ex' w w' s :
  (forall x, x ∈ ex_finished ex -> x ∈ ex_finished ex') ->
  (forall id, is_Some (entry id w) -> is_Some (entry id w')) ->
  deps_seen ex w s -> deps_seen ex' w' s.
Proof using Type. intros Hf Hm Hd d Hin. destruct (Hd d Hin) as (s' & r & ? & ? & ? & ? & ?). exists s', r. eauto 10. Qed.

Lemma each_ok_frame s w w' st :
  (forall i, own (ws_ID s, Some i) (ww_sent w') = own (ws_ID s, Some i) (ww_sent w)) ->
  each_ok e s w st -> each_ok e s w' st.
Proof using Type.
  intros Hs [? ? ? ? Hi ? ? ?]. split; try done. intros i item ph Hit Hph. specialize (Hi i item ph Hit Hph).
  unfold iter_ok in *. by rewrite Hs.
Qed.

Lemma view_frame s s' c w w' : frame s w w' -> ws_ID s' <> ws_ID s -> view s' c w' = view s' c w.
Proof using Type. intros [He Hs _] Hne. unfold view. rewrite He, Hs by done. done. Qed.

Lemma thread_ok_mono ex ex' w s th :
  (forall x, x ∈ ex_finished ex -> x ∈ ex_finished ex') -> (level_done ex = true -> level_done ex' = true) ->
  thread_ok ex w s th -> thread_ok ex' w s th.
Proof using Type.
  intros Hf Hl (c & Hc & Hs & Ht). exists c. split; [|split; [auto|done]]. intros ?. eapply deps_seen_mono; eauto.
Qed.

Lemma thread_ok_frame ex s s' w w' th :
  frame s w w' -> ws_ID s' <> ws_ID s -> thread_ok ex w s' th -> thread_ok ex w' s' th.
Proof using Type.
  intros Hf Hne (c & Hc & Hs & Ht). exists c. split; [|split; [done|]].
  { intros ?. eapply deps_seen_mono; [done|apply (fr_mono _ _ _ Hf)|auto]. }
  destruct th as [p|st k]; rewrite (view_frame s s' c w w') by done.
  - destruct Ht as [Hh Hi]. split; [done|]. intros Hit i. rewrite (fr_sent _ _ _ Hf) by done. auto.
  - destruct Ht as (He & Hi & Hk). split; [|done]. eapply each_ok_frame; [|done]. intros i. by apply (fr_sent _ _ _ Hf).
Qed.

Lemma inv_world k w ex ts i s th' w' :
  wf_inv k {| wf_w := w; wf_exec := ex; wf_threads := ts |} -> ex_level ex !! i = Some (s, Running) ->
  frame s w w' -> thread_ok ex w' s th' ->
  (is_Some (entry (ws_ID s) w') -> is_Some (entry (ws_ID s) w) \/ deps_seen ex w s) ->
  (forall p, p ∈ ww_sent w' -> p ∈ ww_sent w \/ (p.1.1 = ws_ID s /\ sender_ok s p.1.2 p.2)) ->
  (forall it, length (own (ws_ID s, it) (ww_sent w')) <= request_limit s it) ->
  wf_inv k {| wf_w := w'; wf_exec := ex; wf_threads := <[i := Some th']> ts |}.
Proof using Hids.
  intros [H1 H2 H3 H4 H5 H6 H7 H8 H9 H10 H11] Hi Hf Ht Hd Hs Hc. cbn [wf_w wf_exec wf_threads] in *.
  assert (s ∈ concat levels) as Hmem by (by eapply level_member).
  destruct (H5 s) as [Hst Hnf]; [by eapply list_elem_of_lookup_2|].
  assert (forall s', s' ∈ concat levels -> s' <> s -> ws_ID s' <> ws_ID s) as Hdiff.
  { intros s' Hm Hne E. apply Hne. by apply same_step. }
  assert (forall s' r, (s', r) ∈ ex_finished ex -> ws_ID s' <> ws_ID s) as Hfin.
  { intros s' r Hin. apply Hdiff; [|by intros ->; eapply Hnf]. eapply started_member; [done|]. by eapply H6. }
  split; cbn [wf_w wf_exec wf_threads]; try done.
  - by rewrite length_insert.
  - intros j s' ph Hj. destruct (decide (i = j)) as [<-|Hne].
    + simplify_eq. exists th'. split; [|done]. apply list_lookup_insert_eq. rewrite H3. by eapply lookup_lt_Some.
    + rewrite list_lookup_insert_ne by done. specialize (H4 j s' ph Hj). destruct ph; try done.
      destruct H4 as (th & Hth & Hok). exists th. split; [done|]. eapply thread_ok_frame; [done| |done].
      intros E. apply Hne. by eapply level_unique.
  - intros s' r Hin. destruct (H6 s' r Hin) as (? & err & c & ? & ?). split; [done|]. exists err, c.
    by rewrite (view_frame s s' c w w') by eauto.
  - intros s' Hm Hns. assert (ws_ID s' <> ws_ID s) as Hne by (apply Hdiff; [done|]; by intros ->).
    rewrite (fr_entry _ _ _ Hf) by done. destruct (H7 s' Hm Hns) as [? Ho]. split; [done|]. intros it.
    by rewrite (fr_sent _ _ _ Hf).
  - intros s' r Hin. rewrite (fr_entry _ _ _ Hf) by eauto. by apply (H8 s' r).
  - intros s' Hm Hsome. eapply deps_seen_mono; [done|apply (fr_mono _ _ _ Hf)|].
    destruct (decide (ws_ID s' = ws_ID s)) as [E|Hne].
    + assert (s' = s) as -> by (by apply same_step). destruct (Hd Hsome); auto.
    + apply H9; [done|]. by rewrite <- (fr_entry _ _ _ Hf).
  - intros p [Hp|[E Hp]]%Hs; [by apply H10|]. exists s. by rewrite E.
  - intros s' it Hm. destruct (decide (ws_ID s' = ws_ID s)) as [E|Hne].
    + assert (s' = s) as -> by (by apply same_step). apply Hc.
    + rewrite (fr_sent _ _ _ Hf) by done. by apply H11.
Qed.

(** ** A goroutine moves on *)
Lemma inv_goroutine k w ex ex' ts i s ph ph' t' :
  wf_inv k {| wf_w := w; wf_exec := ex; wf_threads := ts |} -> exec_inv failureMode levels k ex' ->
  ex_level ex !! i = Some (s, ph) -> ex_level ex' = <[i := (s, ph')]> (ex_level ex) ->
  (forall x, x ∈ ex_finished ex -> x ∈ ex_finished ex') ->
  (forall x, x ∈ ex_started ex -> x ∈ ex_started ex') ->
  (group_done (ex_group ex') = true -> is_Some (ex_group_err ex')) ->
  (level_done ex = true -> level_done ex' = true) ->
  match ph' with
  | Running => exists th, t' = Some th /\ thread_ok ex' w s th /\ s ∈ ex_started ex' /\ forall r, (s, r) ∉ ex_finished ex'
  | _ => t' = None
  end ->
  (forall s' r, (s', r) ∈ ex_finished ex' -> (s', r) ∈ ex_finished ex \/
     (s' = s /\ ph' <> Running /\ s ∈ ex_started ex' /\ (entry (ws_ID s) w = None -> level_done ex' = true) /\
      exists err c, r = describe <$> err /\ step_outcome s err (view s c w))) ->
  wf_inv k {| wf_w := w; wf_exec := ex'; wf_threads := <[i := t']> ts |}.
Proof using Hids.
  intros [H1 H2 H3 H4 H5 H6 H7 H8 H9 H10 H11] Hx Hi El Hf Hs Hg Hl Ht Hnew. cbn [wf_w wf_exec wf_threads] in *.
  assert (i < length (ex_level ex)) as Hlt by (by eapply lookup_lt_Some).
  assert (forall x w s, deps_seen x w s -> ex_finished x = ex_finished ex -> deps_seen ex' w s) as Hdeps.
  { intros x w0 s0 Hd E. eapply deps_seen_mono; [|done|done]. by rewrite E. }
  split; cbn [wf_w wf_exec wf_threads]; try done.
  - by rewrite El, !length_insert.
  - intros j s' phj. rewrite El. destruct (decide (i = j)) as [<-|Hne].
    + rewrite !list_lookup_insert_eq by (by rewrite ?H3). intros [= <- <-]. destruct ph'; naive_solver.
    + rewrite !list_lookup_insert_ne by done. intros Hj. specialize (H4 j s' phj Hj). destruct phj; try done.
      destruct H4 as (th & Hth & Hok). exists th. split; [done|]. by eapply thread_ok_mono.
  - intros s' Hin. rewrite El in Hin. apply list_elem_of_lookup_1 in Hin as [j Hj].
    destruct (decide (i = j)) as [<-|Hne].
    + rewrite list_lookup_insert_eq in Hj by done. simplify_eq. destruct Ht as (th & _ & _ & Hst & Hnf). by split.
    + rewrite list_lookup_insert_ne in Hj by done. destruct (H5 s') as [Hst Hnf]; [by eapply list_elem_of_lookup_2|].
      split; [by apply Hs|]. intros r [?|(-> & _)]%Hnew; [by eapply Hnf|].
      apply Hne. exact (level_unique _ _ _ _ _ _ _ _ H1 Hi Hj eq_refl).
  - intros s' r [Hin|(-> & _ & Hst & _ & Ho)]%Hnew; [|by split].
    destruct (H6 s' r Hin) as (? & ?). split; [by apply Hs|done].
  - intros s' Hm Hns. apply H7; [done|]. intros ?. by apply Hns, Hs.
  - intros s' r [Hin|(-> & _ & _ & Hb & _)]%Hnew; [intros; eapply Hl, H8; eauto|done].
  - intros s' Hm Hsome. eapply Hdeps; [by apply H9|done].
  - intros p Hp. destruct (H10 p Hp) as (s' & Hst & ?). exists s'. split; [by apply Hs|done].
Qed.

(** ** The steps of the system *)
Context (Hdeps : forall k (ex : exec_state group) s d, exec_inv failureMode levels k ex -> s ∈ ex_started ex ->
  d ∈ ws_DependsOn s -> exists s', ws_ID s' = d /\ completed failureMode ex s').

Lemma waiting_unstarted k ex s :
  exec_inv failureMode levels k ex -> (s, Waiting) ∈ ex_level ex -> s ∉ ex_started ex.
Proof using Hids.
  intros Hi Hw Hs. pose proof (ei_once _ _ _ _ Hi) as Ho.
  assert (NoDup (ws_ID <$> ex_started ex ++ waiting (ex_level ex) ++ concat (ex_pending ex))) as Hn.
  { apply submseteq_Permutation in Ho as [rest Hp]. rewrite Hp, fmap_app in Hids. by apply NoDup_app in Hids as (? & _). }
  rewrite fmap_app in Hn. apply NoDup_app in Hn as (_ & Hn & _). apply (Hn (ws_ID s)).
  - apply list_elem_of_fmap. eauto.
  - apply list_elem_of_fmap. exists s. split; [done|]. apply elem_of_app. left. unfold waiting.
    apply list_elem_of_fmap. exists (s, Waiting). split; [done|]. by apply list_elem_of_filter.
Qed.

(** The thread of a goroutine that runs. *)
Lemma thread_of k st i s ph th :
  wf_inv k st -> ex_level (wf_exec st) !! i = Some (s, ph) -> wf_threads st !! i = Some (Some th) ->
  ph = Running /\ thread_ok (wf_exec st) (wf_w st) s th.
Proof using Type.
  intros Hi Hl Ht. pose proof (wi_thread _ _ Hi i s ph Hl) as Hw. destruct ph; try congruence.
  destruct Hw as (th' & Hth & Hok). split; [done|]. by simplify_eq.
Qed.

Lemma thread_step k st i th :
  wf_inv k st -> wf_threads st !! i = Some (Some th) ->
  exists s, ex_level (wf_exec st) !! i = Some (s, Running) /\ thread_ok (wf_exec st) (wf_w st) s th.
Proof using Type.
  intros Hi Ht. destruct (lookup_lt_is_Some_2 (ex_level (wf_exec st)) i) as [[s ph] Hl].
  { rewrite <- (wi_len _ _ Hi). by eapply lookup_lt_Some. }
  destruct (thread_of _ _ _ _ _ _ Hi Hl Ht) as [-> ?]. eauto.
Qed.

Lemma clear_deps k st s :
  wf_inv k st -> s ∈ ex_started (wf_exec st) -> level_done (wf_exec st) = false ->
  deps_seen (wf_exec st) (wf_w st) s.
Proof using Hdeps.
  intros Hi Hs Hl d Hd. destruct (Hdeps _ _ _ _ (wi_exec _ _ Hi) Hs Hd) as (s' & Eid & r & Hin & Hr).
  exists s', r. split; [done|]. split; [done|]. destruct (wi_finished _ _ Hi s' r Hin) as (Hst & err & c & _ & Ho).
  split; [by eapply started_member; [apply (wi_exec _ _ Hi)|]|]. split; [done|].
  destruct (entry d (wf_w st)) eqn:E; [by eexists|]. subst d.
  rewrite (wi_blocked _ _ Hi s' r Hin E) in Hl. done.
Qed.

Lemma step_exec_sent s isDone {B} (o : step_op B) c w x w' :
  step_permitted e s B o (view s c w) -> step_exec (ws_ID s) isDone o w x w' ->
  (forall p, p ∈ ww_sent w' -> p ∈ ww_sent w \/ (p.1 = (ws_ID s, None) /\ request_ok e s p.2)) /\
  (length (own (ws_ID s, None) (ww_sent w)) <= max_calls s ->
   length (own (ws_ID s, None) (ww_sent w')) <= max_calls s).
Proof using Type.
  destruct o as [B o| | | | | | | | | |state| |]; cbn [step_permitted step_exec]; intros Hp Hx;
    [by eapply (base_exec_sent (request_ok e s) (max_calls s))|..]; try destruct x;
    repeat match goal with Hx : exists _, _ |- _ => destruct Hx | Hx : _ /\ _ |- _ => destruct Hx end;
    unfold save in *; try (destruct (SaveState _ _ _ _)); simplify_eq; by auto.
Qed.

Lemma inv_access k w w' ex ts i s ph {B} (o : step_op B) kont x :
  wf_inv k {| wf_w := w; wf_exec := ex; wf_threads := ts |} ->
  ex_level ex !! i = Some (s, ph) -> ts !! i = Some (Some (TMain (Do o kont))) ->
  step_exec (ws_ID s) (level_done ex) o w x w' ->
  wf_inv k {| wf_w := w'; wf_exec := ex; wf_threads := <[i := Some (TMain (kont x))]> ts |}.
Proof using Hids Hdeps.
  intros Hi Hl Ht Hx. destruct (thread_of _ _ _ _ _ _ Hi Hl Ht) as [-> (c & Hc & Hstop & [Hperm Hk] & Hit)].
  cbn [wf_w wf_exec wf_threads] in *.
  destruct (step_exec_answers _ _ _ _ _ _ _ _ Hperm Hx) as (c' & Ha & Hf & Hclear & Hst & Hiter & Hown & Hentry).
  destruct (step_exec_sent _ _ _ _ _ _ _ Hperm Hx) as [Hreq Hcnt].
  assert (s ∈ concat levels) as Hmem by (by eapply level_member; [apply (wi_exec _ _ Hi)|]).
  destruct (wi_running _ _ Hi s) as [Hstarted _]; [by eapply list_elem_of_lookup_2|]. cbn [wf_exec] in *.
  eapply inv_world; try done.
  - exists c'. split; [|split; [naive_solver|split; [by apply Hk|]]].
    + intros [Hc'|Hnd]%Hclear; (eapply deps_seen_mono; [done|apply (fr_mono _ _ _ Hf)|]); [by apply Hc|].
      by apply (clear_deps k {| wf_w := w; wf_exec := ex; wf_threads := ts |}).
    + rewrite Hiter. intros Hni j. rewrite Hown. by apply Hit.
  - intros [?|?]%Hentry; auto.
  - intros [who r] [?|[E Hok]]%Hreq; [by left|]. right. cbn in *. subst who. by split.
  - intros [j|]; [rewrite Hown; apply (wi_count _ _ Hi s (Some j) Hmem)|]. apply Hcnt, (wi_count _ _ Hi s None Hmem).
Qed.

Lemma inv_iterate k w ex ts i id maxPar cont items bodies kont :
  wf_inv k {| wf_w := w; wf_exec := ex; wf_threads := ts |} ->
  ts !! i = Some (Some (TMain (Do (SIterate id maxPar cont items bodies) kont))) ->
  wf_inv k {| wf_w := w; wf_exec := ex; wf_threads := <[i := Some (TEach (start_each id maxPar cont items bodies) kont)]> ts |}.
Proof using Hids.
  intros Hi Ht. destruct (thread_step _ _ _ _ Hi Ht) as (s & Hl & c & Hc & Hstop & [Hperm Hk] & Hit).
  cbn [wf_w wf_exec wf_threads] in *. destruct Hperm as (-> & Hni & Hmax & Hlen & Hne & Hb).
  assert (s ∈ concat levels) as Hmem by (by eapply level_member; [apply (wi_exec _ _ Hi)|]).
  eapply (inv_world k w ex ts i s); [done|done|apply frame_refl| |auto|auto|intros it; apply (wi_count _ _ Hi s it Hmem)].
  exists {| h_clear := h_clear c; h_stopped := h_stopped c; h_iterated := true |}. split; [done|]. split; [done|].
  split; [|split; [done|]].
  - apply start_each_ok; [done..|]. by apply Hit.
  - intros x Hx. by apply Hk.
Qed.

Lemma inv_each k w w' ex ts i st st' kont :
  wf_inv k {| wf_w := w; wf_exec := ex; wf_threads := ts |} ->
  ts !! i = Some (Some (TEach st kont)) -> each_step w st w' st' ->
  wf_inv k {| wf_w := w'; wf_exec := ex; wf_threads := <[i := Some (TEach st' kont)]> ts |}.
Proof using Hids.
  intros Hi Ht Hx. destruct (thread_step _ _ _ _ Hi Ht) as (s & Hl & c & Hc & Hstop & He & Hit & Hk).
  cbn [wf_w wf_exec wf_threads] in *. destruct (each_step_ok _ _ _ _ _ _ He Hx) as (He' & [D1 D2 D3 D4] & Eit & Ec).
  assert (s ∈ concat levels) as Hmem by (by eapply level_member; [apply (wi_exec _ _ Hi)|]).
  assert (view s c w' = view s c w) as Ev by (unfold view; rewrite D1, D2 by (by right); done).
  eapply inv_world; try done.
  - split; [done|auto|]. intros id'. by rewrite D1.
  - exists c. rewrite Ev, Eit, Ec. split; [|done]. intros Hcl. eapply deps_seen_mono; [done| |by apply Hc].
    intros id'. by rewrite D1.
  - rewrite D1. auto.
  - intros p [?|(E & [j Ej] & Hreq)]%D3; [by left|]. right. rewrite Ej. done.
  - intros [j|]; [|rewrite D2 by (by right); apply (wi_count _ _ Hi s None Hmem)].
    pose proof (wi_count _ _ Hi s (Some j) Hmem) as Hle. cbn [request_limit wf_w] in *.
    destruct (ws_InnerStep s) as [inner|] eqn:Ein; [by eapply D4|].
    assert (own (ws_ID s, Some j) (ww_sent w') = []) as ->; [|done].
    destruct (own (ws_ID s, Some j) (ww_sent w')) as [|r l] eqn:Eo; [done|]. exfalso.
    assert (r ∈ own (ws_ID s, Some j) (ww_sent w')) as ([who r'] & -> & Hin)%list_elem_of_fmap by (rewrite Eo; left).
    apply list_elem_of_filter in Hin as [Ew Hin]. cbn in Ew. subst who. apply D3 in Hin as [Hin|(_ & _ & inner & Hin & _)]; [|done].
    assert (r' ∈ own (ws_ID s, Some j) (ww_sent w)) as Hr'.
    { apply list_elem_of_fmap. eexists. split; [|apply list_elem_of_filter; split; [|exact Hin]]; done. }
    destruct (own (ws_ID s, Some j) (ww_sent w)); [by apply not_elem_of_nil in Hr'|cbn in Hle; lia].
Qed.

Lemma inv_joined k w ex ts i st kont :
  wf_inv k {| wf_w := w; wf_exec := ex; wf_threads := ts |} ->
  ts !! i = Some (Some (TEach st kont)) -> Forall (eq IReturned) (es_phases st) ->
  wf_inv k {| wf_w := w; wf_exec := ex;
    wf_threads := <[i := Some (TMain (kont (omap id (es_results st), group_wait (es_group st))))]> ts |}.
Proof using Hids.
  intros Hi Ht Hall. destruct (thread_step _ _ _ _ Hi Ht) as (s & Hl & c & Hc & Hstop & He & Hit & Hk).
  cbn [wf_w wf_exec wf_threads] in *.
  assert (s ∈ concat levels) as Hmem by (by eapply level_member; [apply (wi_exec _ _ Hi)|]).
  eapply (inv_world k w ex ts i s); [done|done|apply frame_refl| |auto|auto|intros it; apply (wi_count _ _ Hi s it Hmem)].
  exists c. split; [done|]. split; [done|]. split; [|congruence]. apply Hk. by apply (each_joined _ _ _ _ He).
Qed.

Lemma inv_started k w ex ex' ts i s :
  wf_inv k {| wf_w := w; wf_exec := ex; wf_threads := ts |} ->
  ex_level ex !! i = Some (s, Waiting) -> exec_do failureMode (Acquire i) ex = Some ex' ->
  wf_inv k {| wf_w := w; wf_exec := ex'; wf_threads := <[i := Some (TMain (stepExecutor e s))]> ts |}.
Proof using Hids Hbounded.
  clear Hdeps. intros Hi Hl E. cbn [exec_do] in E. destruct (ex_result ex) eqn:Er; [done|].
  pose proof (wi_exec _ _ Hi) as Hx. cbn [wf_exec] in Hx.
  assert (s ∉ ex_started ex) as Hns by (eapply waiting_unstarted; [done|by eapply list_elem_of_lookup_2]).
  assert (s ∈ concat levels) as Hmem by (by eapply level_member).
  pose proof (inv_acquire _ _ _ _ _ _ Hx Er E) as Hx'.
  unfold exec_acquire in E. rewrite Hl in E. case_match; [|done]. injection E as <-.
  destruct (wi_unstarted _ _ Hi s Hmem Hns) as [Hent Hown]. cbn [wf_w] in *.
  eapply (inv_goroutine k w ex _ ts i s Waiting Running); try done; cbn.
  - set_solver.
  - apply (wi_group _ _ Hi).
  - exists (TMain (stepExecutor e s)). split; [done|]. split; [|split; [set_solver|]].
    + exists {| h_clear := false; h_stopped := false; h_iterated := false |}. split; [done|]. split; [done|]. split; [|done].
      unfold view. rewrite Hent, Hown. apply executor_holds. by apply Hbounded.
    + intros r Hin. destruct (wi_finished _ _ Hi s r Hin) as [? _]. done.
  - intros s' r Hin. by left.
Qed.

Lemma inv_ended k w ex ex' ts i err :
  wf_inv k {| wf_w := w; wf_exec := ex; wf_threads := ts |} ->
  ts !! i = Some (Some (TMain (Ret err))) -> exec_do failureMode (Finish i (describe <$> err)) ex = Some ex' ->
  wf_inv k {| wf_w := w; wf_exec := ex'; wf_threads := <[i := None]> ts |}.
Proof using Hids.
  clear Hdeps Hbounded. intros Hi Ht E. cbn [exec_do] in E. destruct (ex_result ex) eqn:Er; [done|].
  destruct (thread_step _ _ _ _ Hi Ht) as (s & Hl & c & Hc & Hstop & Ho & _). cbn [wf_exec wf_w] in *.
  change (step_outcome s err (view s c w)) in Ho.
  pose proof (inv_finish _ _ _ _ _ _ _ (wi_exec _ _ Hi) Er E) as Hx'. cbn [wf_exec] in Hx'.
  unfold exec_finish in E. rewrite Hl in E. injection E as <-.
  destruct (wi_running _ _ Hi s) as [Hstarted _]; [by eapply list_elem_of_lookup_2|].
  eapply (inv_goroutine k w ex _ ts i s Running); try done; cbn.
  - set_solver.
  - apply (wi_group _ _ Hi).
  - intros s' r [?|E%list_elem_of_singleton]%elem_of_app; [by left|]. right. injection E as -> ->.
    split; [done|]. split; [done|]. split; [done|]. split; [|by exists err, c].
    intros Hn. unfold step_outcome in Ho. cbn [view l_entry] in Ho. rewrite Hn in Ho.
    destruct err as [[]|]; try done. destruct Ho as [_ Hs]. by apply Hstop.
Qed.

(** Goroutines that have no program of their own. *)
Lemma inv_silent k w ex ex' ts i s ph ph' :
  wf_inv k {| wf_w := w; wf_exec := ex; wf_threads := ts |} -> exec_inv failureMode levels k ex' ->
  ex_level ex !! i = Some (s, ph) -> ph <> Running -> ph' <> Running ->
  ex_level ex' = <[i := (s, ph')]> (ex_level ex) ->
  ex_finished ex' = ex_finished ex -> ex_started ex' = ex_started ex ->
  (group_done (ex_group ex') = true -> is_Some (ex_group_err ex')) ->
  (level_done ex = true -> level_done ex' = true) ->
  wf_inv k {| wf_w := w; wf_exec := ex'; wf_threads := ts |}.
Proof using Hids.
  intros Hi Hx Hl Hph Hph' El Ef Es Hg Hld. rewrite <- (list_insert_id ts i None).
  - eapply (inv_goroutine k w ex ex' ts i s ph ph'); try done.
    + by rewrite Ef.
    + by rewrite Es.
    + by destruct ph'.
    + intros s' r. rewrite Ef. by left.
  - pose proof (wi_thread _ _ Hi i s ph Hl) as Hw. by destruct ph.
Qed.

Lemma inv_gave_up k w ex ex' ts i :
  wf_inv k {| wf_w := w; wf_exec := ex; wf_threads := ts |} -> exec_do failureMode (GiveUp i) ex = Some ex' ->
  wf_inv k {| wf_w := w; wf_exec := ex'; wf_threads := ts |}.
Proof using Hids.
  intros Hi E. cbn [exec_do] in E. destruct (ex_result ex) eqn:Er; [done|].
  pose proof (inv_give_up _ _ _ _ _ _ (wi_exec _ _ Hi) Er E) as Hx'. cbn [wf_exec] in Hx'.
  unfold exec_give_up in E. destruct (ex_level ex !! i) as [[s []]|] eqn:El; try done. case_match; [|done]. injection E as <-.
  eapply (inv_silent k w ex _ ts i s Waiting (Returning (Some ContextDone))); try done. apply (wi_group _ _ Hi).
Qed.

Lemma inv_returned k w ex ex' ts i :
  wf_inv k {| wf_w := w; wf_exec := ex; wf_threads := ts |} -> exec_do failureMode (Return i) ex = Some ex' ->
  wf_inv k {| wf_w := w; wf_exec := ex'; wf_threads := ts |}.
Proof using Hids.
  intros Hi E. cbn [exec_do] in E. destruct (ex_result ex) eqn:Er; [done|].
  pose proof (inv_return _ _ _ _ _ _ (wi_exec _ _ Hi) Er E) as Hx'. cbn [wf_exec] in Hx'.
  unfold exec_return in E. destruct (ex_level ex !! i) as [[s [| |err|]]|] eqn:El; try done. injection E as <-.
  eapply (inv_silent k w ex _ ts i s (Returning err) Returned); try done; cbn.
  - unfold ex_group_err. cbn. rewrite go_return_done, go_return_wait. intros [Hg|Hg]%orb_true_iff.
    + destruct (wi_group _ _ Hi Hg) as [x Hw]. cbn in Hw. unfold ex_group_err in Hw. cbn in Hw. rewrite Hw. by eexists.
    + apply bool_decide_eq_true in Hg. destruct (group_wait (ex_group ex)); [by eexists|done].
  - unfold level_done. cbn. rewrite go_return_done. intros [->| ->]%orb_true_iff; [done|]. by rewrite orb_true_r.
Qed.

Lemma inv_next_level k w ex ex' ts :
  wf_inv k {| wf_w := w; wf_exec := ex; wf_threads := ts |} -> exec_do failureMode NextLevel ex = Some ex' ->
  exists k', wf_inv k' {| wf_w := w; wf_exec := ex'; wf_threads := (fun _ => None) <$> ex_level ex' |}.
Proof using Type.
  intros Hi E. destruct (inv_do _ _ _ _ _ _ (wi_exec _ _ Hi) E) as [k' Hx']. cbn [wf_exec] in Hx'. exists k'.
  cbn [exec_do] in E. destruct (ex_result ex) eqn:Er; [done|]. unfold exec_next in E. case_decide as Hall; [|done].
  assert (ex_finished ex' = ex_finished ex /\ ex_started ex' = ex_started ex /\
          (forall s, (s, Running) ∉ ex_level ex') /\
          (group_done (ex_group ex') = true -> is_Some (ex_group_err ex')) /\
          (level_done ex = true -> level_done ex' = true)) as (Ef & Es & Hnr & Hg & Hl).
  { pose proof (wi_group _ _ Hi) as Hg. cbn [wf_exec] in Hg.
    assert (forall s, (s, Running) ∉ ex_level ex) as Hnr.
    { intros s Hin. rewrite Forall_forall in Hall. by specialize (Hall _ Hin). }
    destruct (ex_group_err ex) as [err|] eqn:Ee; [injection E as <-; by eauto|].
    destruct (ex_pending ex) as [|level rest]; injection E as <-; [by rewrite <- Ee in Hg; eauto|].
    split_and!; try done; cbn.
    - intros s (s' & Hs' & _)%list_elem_of_fmap. done.
    - by rewrite new_group_done.
    - unfold level_done. cbn. intros [->|Hd]%orb_true_iff; [done|]. by destruct (Hg Hd). }
  assert (forall s, deps_seen ex w s -> deps_seen ex' w s) as Hdm.
  { intros s. apply deps_seen_mono; [by rewrite Ef|done]. }
  destruct Hi as [H1 H2 H3 H4 H5 H6 H7 H8 H9 H10 H11]. cbn [wf_w wf_exec wf_threads] in *.
  split; cbn [wf_w wf_exec wf_threads]; rewrite ?Ef, ?Es; try done.
  - by rewrite length_fmap.
  - intros i s ph Hl'. rewrite list_lookup_fmap, Hl'. destruct ph; try done.
    exfalso. eapply Hnr. by eapply list_elem_of_lookup_2.
  - intros s Hin. by apply Hnr in Hin.
  - eauto.
  - eauto.
Qed.

Lemma inv_surroundings k w ex ex' ts ev :
  wf_inv k {| wf_w := w; wf_exec := ex; wf_threads := ts |} -> environment_event ev = true ->
  exec_do failureMode ev ex = Some ex' ->
  exists k', wf_inv k' {| wf_w := w; wf_exec := ex'; wf_threads := ts |}.
Proof using Type.
  intros Hi Hev E. destruct (inv_do _ _ _ _ _ _ (wi_exec _ _ Hi) E) as [k' Hx']. cbn [wf_exec] in Hx'. exists k'.
  assert (ex_level ex' = ex_level ex /\ ex_finished ex' = ex_finished ex /\ ex_started ex' = ex_started ex /\
          ex_group ex' = ex_group ex /\ (level_done ex = true -> level_done ex' = true)) as (El & Ef & Es & Eg & Hl).
  { destruct ev; try done; cbn in E; repeat case_match; simplify_eq; done. }
  destruct Hi as [H1 H2 H3 H4 H5 H6 H7 H8 H9 H10 H11]. cbn [wf_w wf_exec wf_threads] in *.
  assert (forall s, deps_seen ex w s -> deps_seen ex' w s) as Hdm.
  { intros s. apply deps_seen_mono; [by rewrite Ef|done]. }
  split; cbn [wf_w wf_exec wf_threads]; unfold ex_group_err; rewrite ?El, ?Ef, ?Es, ?Eg; eauto.
  intros i s ph Hp. specialize (H4 i s ph Hp). destruct ph; try done. destruct H4 as (th & Hth & Hok). exists th. split; [done|].
  eapply thread_ok_mono; [|done|done]. by rewrite Ef.
Qed.

(** Nothing here depends on the store. *)
Lemma thread_ok_store ex w s th store : thread_ok ex w s th -> thread_ok ex (with_store store w) s th.
Proof using Type.
  intros (c & Hc & Hs & Ht). exists c. do 2 (split; [done|]). destruct th as [p|st k]; [done|].
  destruct Ht as ([H1 H2 H3 H4 H5 H6 H7 H8] & ? & ?). split; [|done].
  exact (Build_each_ok e s (with_store store w) st H1 H2 H3 H4 H5 H6 H7 H8).
Qed.

Lemma inv_store k w ex ts store :
  wf_inv k {| wf_w := w; wf_exec := ex; wf_threads := ts |} ->
  exists k', wf_inv k' {| wf_w := with_store store w; wf_exec := ex; wf_threads := ts |}.
Proof using Type.
  intros [H1 H2 H3 H4 H5 H6 H7 H8 H9 H10 H11]. exists k.
  refine (Build_wf_inv k {| wf_w := with_store store w; wf_exec := ex; wf_threads := ts |}
    H1 H2 H3 _ H5 H6 H7 H8 H9 H10 H11).
  intros i s ph Hl. specialize (H4 i s ph Hl). destruct ph; try done. destruct H4 as (th & Hth & Hok).
  exists th. split; [done|]. by apply thread_ok_store.
Qed.

(** Every step of the system preserves the invariant. *)
Lemma inv_step k st st' : wf_inv k st -> wf_step e failureMode st st' -> exists k', wf_inv k' st'.
Proof using Hids Hbounded Hdeps.
  intros Hi Hstep. destruct Hstep; eauto using inv_started, inv_access, inv_iterate, inv_each, inv_joined, inv_ended,
    inv_gave_up, inv_returned, inv_next_level, inv_surroundings, inv_store.
Qed.

Lemma inv_reachable k st st' : wf_inv k st -> rtc (wf_step e failureMode) st st' -> exists k', wf_inv k' st'.
Proof using Hids Hbounded Hdeps.
  intros Hi Hr. revert k Hi. induction Hr as [|st1 st2 st3 Hs _ IH]; intros k Hi; [eauto|].
  destruct (inv_step _ _ _ Hi Hs) as [k' Hi']. by eapply IH.
Qed.

(** Who changed the world in a step, and that outcomes stay. *)
Lemma step_frame k st st' :
  wf_inv k st -> wf_step e failureMode st st' ->
  ((forall id, entry id (wf_w st') = entry id (wf_w st)) \/
   exists s, (s, Running) ∈ ex_level (wf_exec st) /\ frame s (wf_w st) (wf_w st')) /\
  (forall x, x ∈ ex_finished (wf_exec st) -> x ∈ ex_finished (wf_exec st')).
Proof using Type.
  intros Hi Hstep. assert (forall ev x y, exec_do failureMode ev x = Some y ->
    forall p, p ∈ ex_finished x -> p ∈ ex_finished y) as Hmono.
  { intros ev x y E p Hp. destruct ev; cbn in E; unfold exec_acquire, exec_give_up, exec_finish, exec_return, exec_next in E;
      repeat case_match; simplify_eq; cbn; try done; apply elem_of_app; by left. }
  destruct Hstep; cbn [wf_w wf_exec wf_threads] in *; (split; [|by eauto]); try (by left); right.
  - destruct (thread_of _ _ _ _ _ _ Hi ltac:(done) ltac:(done)) as [-> (c & _ & _ & [Hperm _] & _)]. exists s.
    split; [by eapply list_elem_of_lookup_2|]. cbn [wf_w] in *.
    by destruct (step_exec_answers _ _ _ _ _ _ _ _ Hperm ltac:(done)) as (c' & _ & Hf & _).
  - destruct (thread_step _ _ _ _ Hi ltac:(done)) as (s & Hl & c & _ & _ & He & _). exists s.
    split; [by eapply list_elem_of_lookup_2|]. cbn [wf_w] in *.
    destruct (each_step_ok _ _ _ _ _ _ He ltac:(done)) as (_ & [D1 D2 _ _] & _).
    split; [done|auto|]. intros id'. by rewrite D1.
Qed.

Lemma finished_stable k st st' s r :
  wf_inv k st -> rtc (wf_step e failureMode) st st' -> (s, r) ∈ ex_finished (wf_exec st) ->
  (s, r) ∈ ex_finished (wf_exec st') /\ entry (ws_ID s) (wf_w st') = entry (ws_ID s) (wf_w st).
Proof using Hids Hbounded Hdeps.
  intros Hi Hr. revert k Hi. induction Hr as [|st1 st2 st3 Hs _ IH]; intros k Hi Hin; [done|].
  destruct (step_frame _ _ _ Hi Hs) as [Hw Hf]. destruct (inv_step _ _ _ Hi Hs) as [k' Hi'].
  destruct (IH _ Hi' (Hf _ Hin)) as [Hin' E]. split; [done|]. rewrite E.
  destruct Hw as [Hw|(s0 & Hrun & Hfr)]; [by apply Hw|]. apply (fr_entry _ _ _ Hfr). intros Eid.
  destruct (wi_running _ _ Hi s0 Hrun) as [Hst Hnf]. destruct (wi_finished _ _ Hi s r Hin) as [Hst' _].
  assert (s = s0) as -> by (apply same_step; eauto using started_member, wi_exec). by eapply Hnf.
Qed.

End execution.

End invariant.
