(* ===== verification/WorkflowSafety.v ===== *)
(** * Safety of workflow executions

    The theorems about every interleaving of [WorkflowExecution], from the invariant of
    [WorkflowInvariant], and an executable scheduler that produces runs. *)

From S2P Require Import Prelude Programs VmcpTypes WorkflowTypes Router ParamHeaders SchemaCoercion Core.
From S2P Require Import Workflow DagExecutor DagExecution WorkflowContext WorkflowStore TemplateExpansion StepExecution StepGuarantees.
From S2P Require Import WorkflowExecution WorkflowInvariant.

Section safety.
Context `{RT : Runtime} {group egroup : Type} `{EX : Errgroup exec_error group} `{EI : Errgroup wf_error egroup}.
Implicit Types (e : workflowEngine) (w : wf_world) (s : WorkflowStep).

(** A result that later steps may rely on: the step completed, was skipped, or failed in
    a way after which the workflow goes on. *)
Definition settled (failureMode : string) s (r : StepResult) : Prop :=
  stp_Status r = StepStatusCompleted \/ stp_Status r = StepStatusSkipped \/
  stp_Status r = StepStatusFailed /\ shouldContinueOnError s failureMode = true.

(** An execution of [steps]: from the executor's first state, with nothing recorded. *)
Inductive execution e (failureMode : string) (steps : list WorkflowStep)
    (st : wf_state (group:=group) (egroup:=egroup)) : Prop :=
  | execution_of (range : gmap string Z -> list (string * Z)) (maxParallel others : Z)
      (ex : exec_state group) (w : wf_world) :
      (forall m, range m ≡ₚ map_to_list m) ->
      executeDAG range maxParallel others steps = Some (inr ex) ->
      (0 <= others <= newDAGExecutor maxParallel)%Z -> untouched w ->
      rtc (wf_step e failureMode) (wf_start w ex) st ->
      execution e failureMode steps st.

Lemma executeDAG_fresh range maxParallel others steps (ex : exec_state group) :
  executeDAG range maxParallel others steps = Some (inr ex) ->
  ex_level ex = [] /\ ex_started ex = [] /\ ex_finished ex = [] /\ ex_group ex = new_group.
Proof. unfold executeDAG. intros E. repeat case_match; simplify_eq; done. Qed.

Lemma execution_inv e failureMode steps st :
  execution e failureMode steps st -> Forall bounded steps ->
  exists levels k, concat levels ≡ₚ steps /\ NoDup (ws_ID <$> concat levels) /\
    wf_inv e failureMode levels k st /\
    (forall k (ex : exec_state group) s d, exec_inv failureMode levels k ex -> s ∈ ex_started ex ->
       d ∈ ws_DependsOn s -> exists s', ws_ID s' = d /\ completed failureMode ex s').
Proof.
  intros [range mp others ex w Ho Hst Hsl [Hu1 Hu2] Hr] Hb.
  destruct (executeDAG_start _ _ _ _ _ Ho Hst Hsl) as (levels & El & _ & Hinv).
  destruct (levels_spec _ Ho _ _ El) as (Hp & Hn & _).
  destruct (executeDAG_fresh _ _ _ _ _ Hst) as (E1 & E2 & E3 & E4).
  assert (NoDup (ws_ID <$> concat levels)) as Hids by (by rewrite Hp).
  assert (forall k (ex : exec_state group) s d, exec_inv failureMode levels k ex -> s ∈ ex_started ex ->
       d ∈ ws_DependsOn s -> exists s', ws_ID s' = d /\ completed failureMode ex s') as Hdeps.
  { intros k ex' s d. by apply (inv_deps_completed failureMode range steps). }
  assert (wf_inv (egroup:=egroup) e failureMode levels 0 (wf_start w ex)) as H0.
  { split; cbn [wf_start wf_exec wf_threads wf_w]; unfold entry; rewrite ?E1, ?E2, ?E3, ?E4, ?Hu1, ?Hu2; try done.
    - by rewrite new_group_done.
    - intros s. set_solver.
    - intros s r. set_solver.
    - intros s r. set_solver.
    - intros s _ [? Hs]. by rewrite lookup_empty in Hs.
    - intros p. set_solver.
    - intros s it _. cbn. lia. }
  assert (forall s, s ∈ concat levels -> bounded s) as Hb'.
  { intros s. rewrite Hp. by apply (proj1 (Forall_forall _ _) Hb). }
  destruct (inv_reachable _ _ _ Hids Hb' Hdeps _ _ _ H0 Hr) as [k Hk]. by exists levels, k.
Qed.

(** The record of a step that has ended in a way that lets the workflow go on. *)
Lemma finished_settled e failureMode levels k st s r :
  wf_inv e failureMode levels k st -> (s, r) ∈ ex_finished (wf_exec st) ->
  r = None \/ shouldContinueOnError s failureMode = true ->
  match entry (ws_ID s) (wf_w st) with
  | Some x => settled failureMode s x
  | None => shouldContinueOnError s failureMode = true /\ level_done (wf_exec st) = true
  end.
Proof.
  intros Hi Hfin Hr. destruct (wi_finished _ _ _ _ _ Hi s r Hfin) as (_ & err & c & -> & Ho).
  pose proof (wi_blocked _ _ _ _ _ Hi s _ Hfin) as Hbl.
  unfold step_outcome in Ho. cbn [view l_entry] in Ho. unfold settled. destruct (entry (ws_ID s) (wf_w st)) as [x|].
  - destruct err as [err|].
    + assert (stp_Status x = StepStatusFailed) as Hf by (destruct err; naive_solver). destruct Hr as [?|?]; [done|]. auto.
    + destruct Ho as [(? & _)|[(? & _)|(? & Hc & _)]]; auto. right. right. split; [done|].
      unfold shouldContinueOnError. unfold continues in Hc. by destruct (ws_OnError s) as [h|]; [rewrite Hc|].
  - destruct err as [err|]; [|done]. destruct Hr as [?|?]; [done|]. auto.
Qed.

(** C6. A step sees the final results of the steps it depends on.  From the moment a step
    is recorded as started, in every interleaving of the steps of its level, of the
    iterations of forEach steps and of cancellations, each of its dependencies has a
    result in the context, which is completed, skipped, or a failure after which the
    workflow continues, and that result never changes again. *)
Theorem steps_see_dependencies e failureMode steps st s d :
  execution e failureMode steps st -> Forall bounded steps -> s ∈ steps ->
  is_Some (wc_Steps (ww_ctx (wf_w st)) !! ws_ID s) -> d ∈ ws_DependsOn s ->
  exists s' r, s' ∈ steps /\ ws_ID s' = d /\ settled failureMode s' r /\
    forall st', rtc (wf_step e failureMode) st st' -> wc_Steps (ww_ctx (wf_w st')) !! d = Some r.
Proof.
  intros Hex Hb Hs Hsome Hd. destruct (execution_inv _ _ _ _ Hex Hb) as (levels & k & Hp & Hids & Hi & Hdeps).
  assert (forall s, s ∈ concat levels -> bounded s) as Hb'.
  { intros s0. rewrite Hp. by apply (proj1 (Forall_forall _ _) Hb). }
  destruct (wi_deps _ _ _ _ _ Hi s) with (d := d) as (s' & r & <- & Hfin & Hm & Hr & [x Hx]); [by rewrite Hp|done|done|].
  exists s', x. split; [by rewrite <- Hp|]. split; [done|]. split.
  - pose proof (finished_settled _ _ _ _ _ _ _ Hi Hfin Hr) as Hset. by rewrite Hx in Hset.
  - intros st' Hr'. destruct (finished_stable _ _ _ Hids Hb' Hdeps _ _ _ _ _ Hi Hr' Hfin) as [_ E].
    change (entry (ws_ID s') (wf_w st') = Some x). by rewrite E.
Qed.


(** The record of a step that ended with [err] and sent the requests [sent]. *)
Definition recorded_as s (err : option wf_error) (x : StepResult) (sent : list tool_request) : Prop :=
  match err with
  | Some err => err <> StepContextDone /\ stp_Status x = StepStatusFailed /\ stp_Error x = Some err
  | None =>
      completed_ok s x sent \/
      (stp_Status x = StepStatusSkipped /\ sent = [] /\ stp_Output x = default_output (ws_DefaultResults s)) \/
      (stp_Status x = StepStatusFailed /\ continues s = true /\ ws_Type s = StepTypeTool /\
       stp_Output x = default_output (ws_DefaultResults s) /\ is_Some (stp_Error x))
  end.

(** C20. The outcome the executor is told is the outcome that is recorded.  When a step has
    ended with an error, the context holds it as failed with that error; without an
    error, it is completed, with as many retries as it sent requests beyond the first,
    or skipped without a request, or a tool step that failed and has its default results.
    The exception is a step that found the context of its level done when it began: the
    executor is told that error, the step has sent nothing and there is no record of it,
    and the context is done from then on. *)
Theorem step_outcomes_recorded e failureMode steps st s r :
  execution e failureMode steps st -> Forall bounded steps -> (s, r) ∈ ex_finished (wf_exec st) ->
  let sent := own (ws_ID s, None) (ww_sent (wf_w st)) in
  exists err, r = describe <$> err /\
    match wc_Steps (ww_ctx (wf_w st)) !! ws_ID s with
    | Some x => recorded_as s err x sent
    | None => err = Some StepContextDone /\ sent = [] /\ level_done (wf_exec st) = true
    end.
Proof.
  intros Hex Hb Hin. destruct (execution_inv _ _ _ _ Hex Hb) as (levels & k & Hp & Hids & Hi & Hdeps).
  destruct (wi_finished _ _ _ _ _ Hi s r Hin) as (_ & err & c & ? & Ho). exists err. split; [done|].
  pose proof (wi_blocked _ _ _ _ _ Hi s r Hin) as Hbl. unfold step_outcome in Ho. cbn [view l_entry l_sent] in Ho.
  unfold entry in *. destruct (wc_Steps (ww_ctx (wf_w st)) !! ws_ID s) as [x|].
  - destruct err as [[]|]; done.
  - destruct err as [[]|]; try done. destruct Ho as [? _]. auto.
Qed.

(** The iterations of a forEach step are bounded: at most a thousand of them, at most
    fifty at a time, and when they have all returned there is exactly one result for
    each item, in the order of the items. *)
Theorem foreach_bounded e failureMode steps st i each kont :
  execution e failureMode steps st -> Forall bounded steps ->
  wf_threads st !! i = Some (Some (TEach each kont)) ->
  (iters_running each <= 50)%Z /\ length (es_items each) <= 1000 /\
  (Forall (eq IReturned) (es_phases each) ->
   it_Item <$> omap id (es_results each) = es_items each /\
   it_Index <$> omap id (es_results each) = seq 0 (length (es_items each))).
Proof.
  intros Hex Hb Ht. destruct (execution_inv _ _ _ _ Hex Hb) as (levels & k & Hp & Hids & Hi & Hdeps).
  destruct (thread_step _ _ _ _ _ _ _ Hi Ht) as (s & Hl & c & _ & _ & He & _).
  pose proof (eo_slots _ _ _ _ He) as Hslots. destruct (eo_limits _ _ _ _ He) as [Hmax Hlen].
  unfold runtimeMaxParallel in Hmax. split; [lia|]. split.
  { assert (max_iterations s <= 1000)%Z; [|lia]. unfold max_iterations, MaxForEachIterations. case_match eqn:E; [done|].
    by apply Z.ltb_ge in E. }
  intros Hall. destruct (each_joined _ _ _ _ He Hall) as [Hr _].
  generalize dependent (omap id (es_results each)). intros results Hr. clear -Hr.
  assert (forall ii r, iteration_ok ii.1 ii.2 r \/ cancelled_iteration ii.1 ii.2 r -> it_Index r = ii.1 /\ it_Item r = ii.2) as Hiv.
  { intros ii r [(? & ? & _)|(? & ? & _)]; auto. }
  split; apply list_eq; intros i.
  - rewrite list_lookup_fmap. destruct (results !! i) as [r|] eqn:Er.
    + destruct (Forall2_lookup_r _ _ _ _ _ Hr Er) as ([j item] & Hj & [_ E]%Hiv). cbn in *.
      rewrite list_lookup_imap in Hj. destruct (es_items each !! i); [|done]. cbn in Hj. by simplify_eq.
    + apply lookup_ge_None_1 in Er. apply Forall2_length in Hr. rewrite length_imap in Hr.
      symmetry. apply lookup_ge_None_2. cbn. lia.
  - rewrite list_lookup_fmap. destruct (results !! i) as [r|] eqn:Er.
    + destruct (Forall2_lookup_r _ _ _ _ _ Hr Er) as ([j item] & Hj & [E _]%Hiv). cbn in *.
      rewrite list_lookup_imap in Hj. destruct (es_items each !! i) eqn:Ei; [|done]. cbn in Hj. simplify_eq.
      rewrite lookup_seq_lt; [done|]. by eapply lookup_lt_Some.
    + apply lookup_ge_None_1 in Er. apply Forall2_length in Hr. rewrite length_imap in Hr.
      symmetry. apply lookup_seq_ge. cbn. lia.
Qed.
End safety.

(** ** A scheduler *)
Inductive wf_event :=
  | EvExec (ev : exec_event)                  (* executor events without a program *)
  | EvStart (i : nat)
  | EvAccess (i : nat) (now : Time) (reply : error + option ToolCallResult)
  | EvIterate (i : nat)
  | EvIterAcquire (i j : nat)
  | EvIterAccess (i j : nat) (reply : error + option ToolCallResult)
  | EvIterFinish (i j : nat)
  | EvIterReturn (i j : nat)
  | EvJoin (i : nat)
  | EvFinish (i : nat).

Section scheduler.
Context `{RT : Runtime} (e : workflowEngine) (failureMode : string).
Local Abbreviation state := (wf_state (group:=option exec_error) (egroup:=option wf_error)).
Local Abbreviation iterating := (each_state (egroup:=option wf_error)).

Definition perform_base (who : sender) (reply : error + option ToolCallResult) {B : Type} (o : base_op B)
    (w : wf_world) : B * wf_world :=
  match o in base_op B return B * wf_world with
  | BCancelled => (false, w)
  | BContext => (ww_ctx w, w)
  | BAttempts _ _ => (0, w)
  | BCall target name args headers =>
      (reply, send who {| tr_target := target; tr_name := name; tr_args := args; tr_headers := headers |} w)
  | BStopped last => (last, w)
  end.

Definition perform (now : Time) (reply : error + option ToolCallResult) (id : string) (isDone : bool)
    {B : Type} (o : step_op B) (w : wf_world) : option (B * wf_world) :=
  match o in step_op B return option (B * wf_world) with
  | SBase o => Some (perform_base (id, None) reply o w)
  | SContextDone => Some (isDone, w)
  | SNow => Some (now, w)
  | SStart id => Some (tt, with_ctx (RecordStepStart now id (ww_ctx w)) w)
  | SSuccess id output content => Some (tt, with_ctx (RecordStepSuccess now id output content (ww_ctx w)) w)
  | SFailure id err => Some (tt, with_ctx (RecordStepFailure now id err (ww_ctx w)) w)
  | SSkipped id output => Some (tt, with_ctx (RecordStepSkipped now now id output (ww_ctx w)) w)
  | SRetryCount id n => Some (tt, update_step (set_retry_count n) id w)
  | SOutput id output => Some (tt, update_step (set_output output) id w)
  | SStatus status => Some (buildWorkflowStatus steps_range now now (ww_ctx w) status, w)
  | SSave state => Some (save now state w)
  | SElicit _ _ => Some (ElicitDeadline, w)
  | SIterate _ _ _ _ _ => None
  end.

Lemma perform_base_sound who reply {B} (o : base_op B) w :
  base_exec who o w (perform_base who reply o w).1 (perform_base who reply o w).2.
Proof. destruct o; cbn; auto. Qed.

Lemma perform_sound now reply id isDone {B} (o : step_op B) w x w' :
  perform now reply id isDone o w = Some (x, w') -> step_exec id isDone o w x w'.
Proof.
  destruct o; cbn; intros E; try (injection E as <- <-; by eauto); [|injection E as E; by eauto|done].
  injection E as Ex. pose proof (perform_base_sound (id, None) reply o w) as Hp. by rewrite Ex in Hp.
Qed.

(** The iterations a program is about to start. *)
Definition start_iterations {B : Type} (o : step_op B)
    : (B -> prog step_op (option wf_error)) -> option (thread (egroup:=option wf_error)) :=
  match o in step_op B return (B -> prog step_op (option wf_error)) -> option thread with
  | SIterate id maxPar cont items bodies => fun k => Some (TEach (start_each id maxPar cont items bodies) k)
  | _ => fun _ => None
  end.

Definition each_do (ev : wf_event) (w : wf_world) (st : iterating) : option (wf_world * iterating) :=
  match ev with
  | EvIterAcquire _ j =>
      match es_phases st !! j, es_bodies st !! j with
      | Some IWaiting, Some body =>
          if (iters_running st <? es_max st)%Z then Some (w, set_phase j (IRunning body) st) else None
      | _, _ => None
      end
  | EvIterAccess _ j reply =>
      match es_phases st !! j with
      | Some (IRunning (Do o k)) =>
          let (x, w') := perform_base (es_id st, Some j) reply o w in Some (w', set_phase j (IRunning (k x)) st)
      | _ => None
      end
  | EvIterFinish _ j =>
      match es_phases st !! j with
      | Some (IRunning (Ret r)) =>
          Some (w, set_result j r (set_phase j (IReturning (iteration_error (es_id st) (es_cont st) j r)) st))
      | _ => None
      end
  | EvIterReturn _ j =>
      match es_phases st !! j with
      | Some (IReturning err) => Some (w, report err (set_phase j IReturned st))
      | _ => None
      end
  | _ => None
  end.

Lemma each_do_sound ev w st w' st' : each_do ev w st = Some (w', st') -> each_step w st w' st'.
Proof.
  destruct ev as [| | | |i j|i j reply|i j|i j| |]; cbn; try done; intros E.
  - destruct (es_phases st !! j) as [[]|] eqn:Ep; try done. destruct (es_bodies st !! j) eqn:Eb; [|done].
    destruct (Z.ltb_spec (iters_running st) (es_max st)); [|done]. injection E as <- <-. by constructor.
  - destruct (es_phases st !! j) as [[|[|B o k]| |]|] eqn:Ep; try done.
    pose proof (perform_base_sound (es_id st, Some j) reply o w) as Hp.
    destruct (perform_base _ reply o w) as [x w1]. injection E as <- <-. by eapply each_access.
  - destruct (es_phases st !! j) as [[|[r|]| |]|] eqn:Ep; try done. injection E as <- <-. by apply each_finish.
  - destruct (es_phases st !! j) as [[| |err|]|] eqn:Ep; try done. injection E as <- <-. by apply each_return.
Qed.

Definition target_thread (ev : wf_event) : nat :=
  match ev with
  | EvStart i | EvAccess i _ _ | EvIterate i | EvIterAcquire i _ | EvIterAccess i _ _ | EvIterFinish i _
  | EvIterReturn i _ | EvJoin i | EvFinish i => i
  | EvExec _ => 0
  end.

Definition exec_only (ev : exec_event) : bool :=
  match ev with GiveUp _ | Return _ | ParentCancelled | OthersAcquire | OthersRelease => true | _ => false end.

Definition wf_do (ev : wf_event) (st : state) : option state :=
  let w := wf_w st in let ex := wf_exec st in let ts := wf_threads st in let i := target_thread ev in
  let run_to ex' ts' := Some {| wf_w := w; wf_exec := ex'; wf_threads := ts' |} in
  match ev with
  | EvExec ev =>
      match exec_do failureMode ev ex with
      | None => None
      | Some ex' =>
          if exec_only ev then run_to ex' ts
          else match ev with NextLevel => run_to ex' ((fun _ => None) <$> ex_level ex') | _ => None end
      end
  | EvStart _ =>
      match ex_level ex !! i, exec_do failureMode (Acquire i) ex with
      | Some (s, Waiting), Some ex' => run_to ex' (<[i := Some (TMain (stepExecutor e s))]> ts)
      | _, _ => None
      end
  | EvAccess _ now reply =>
      match ex_level ex !! i, ts !! i with
      | Some (s, _), Some (Some (TMain (Do o k))) =>
          match perform now reply (ws_ID s) (level_done ex) o w with
          | Some (x, w') => Some {| wf_w := w'; wf_exec := ex; wf_threads := <[i := Some (TMain (k x))]> ts |}
          | None => None
          end
      | _, _ => None
      end
  | EvIterate _ =>
      match ts !! i with
      | Some (Some (TMain (Do o k))) =>
          match start_iterations o k with Some th => run_to ex (<[i := Some th]> ts) | None => None end
      | _ => None
      end
  | EvJoin _ =>
      match ts !! i with
      | Some (Some (TEach est k)) =>
          if forallb (fun ph => match ph with IReturned => true | _ => false end) (es_phases est)
          then run_to ex (<[i := Some (TMain (k (omap id (es_results est), group_wait (es_group est))))]> ts)
          else None
      | _ => None
      end
  | EvFinish _ =>
      match ts !! i with
      | Some (Some (TMain (Ret err))) =>
          match exec_do failureMode (Finish i (describe <$> err)) ex with
          | Some ex' => run_to ex' (<[i := None]> ts)
          | None => None
          end
      | _ => None
      end
  | ev =>
      match ts !! i with
      | Some (Some (TEach est k)) =>
          match each_do ev w est with
          | Some (w', est') => Some {| wf_w := w'; wf_exec := ex; wf_threads := <[i := Some (TEach est' k)]> ts |}
          | None => None
          end
      | _ => None
      end
  end.

Fixpoint wf_run (evs : list wf_event) (st : state) : option state :=
  match evs with
  | [] => Some st
  | ev :: evs => match wf_do ev st with Some st => wf_run evs st | None => None end
  end.

Lemma wf_do_sound ev st st' : wf_do ev st = Some st' -> wf_step e failureMode st st'.
Proof.
  destruct st as [w ex ts], ev as [ev|i|i now reply|i|i j|i j reply|i j|i j|i|i]; cbn [wf_do target_thread wf_w wf_exec wf_threads]; intros E.
  5-8: destruct (ts !! i) as [[[|est k]|]|] eqn:Et; try done;
    destruct (each_do _ w est) as [[w' est']|] eqn:Ed; [|done];
    simplify_eq; eapply wf_each; [done|]; by eapply each_do_sound.
  - destruct (exec_do failureMode ev ex) as [ex'|] eqn:Ed; [|done].
    destruct ev; cbn [exec_only] in E; simplify_eq;
      [by eapply wf_give_up|by eapply wf_return|by apply wf_next|eapply (wf_environment _ _ _); [|exact Ed]; done..].
  - destruct (ex_level ex !! i) as [[s []]|] eqn:El; try done.
    destruct (exec_do failureMode (Acquire i) ex) eqn:Ed; simplify_eq. by apply wf_acquire.
  - destruct (ex_level ex !! i) as [[s ph]|] eqn:El; [|done]. destruct (ts !! i) as [[[[|B o k]|]|]|] eqn:Et; try done.
    destruct (perform now reply (ws_ID s) (level_done ex) o w) as [[x w']|] eqn:Ep; [|done]. simplify_eq.
    eapply wf_access; [done|done|]. by eapply perform_sound.
  - destruct (ts !! i) as [[[[|B o k]|]|]|] eqn:Et; try done.
    destruct (start_iterations o k) as [th|] eqn:Es; [|done]. simplify_eq.
    destruct o; cbn in Es; simplify_eq. by apply wf_iterate.
  - destruct (ts !! i) as [[[|est k]|]|] eqn:Et; try done. destruct (forallb _ _) eqn:Ef; [|done]. simplify_eq.
    apply wf_joined; [done|]. apply Forall_forall. intros ph Hin. rewrite forallb_forall in Ef.
    specialize (Ef ph). rewrite <- list_elem_of_In in Ef. specialize (Ef Hin). by destruct ph.
  - destruct (ts !! i) as [[[[err|]|]|]|] eqn:Et; try done.
    destruct (exec_do failureMode _ ex) eqn:Ed; [|done]. simplify_eq. by eapply wf_finish.
Qed.

Lemma wf_run_sound evs st st' : wf_run evs st = Some st' -> rtc (wf_step e failureMode) st st'.
Proof.
  revert st. induction evs as [|ev evs IH]; intros st; cbn; [intros [= ->]; reflexivity|].
  destruct (wf_do ev st) as [st1|] eqn:E; [|done]. intros Hr. eapply rtc_l; [by eapply wf_do_sound|]. by apply IH.
Qed.
End scheduler.

(** ** A run: step [fetch] calls its tool;
    step [each] then iterates over two items. *)
#[local] Existing Instance sample_runtime.

Definition sample_engine : workflowEngine := {|
  we_router := {| sr_routingTable := Some sample_routes; sr_resourceTemplates := [] |};
  we_tools := []; we_elicitation := None; we_stateStore := true; we_maxParallel := 10 |}.

Definition sample_fetch : WorkflowStep :=
  mkStep "fetch" StepTypeTool "b1_echo" ∅ "" [] None None 0 ∅ ∅ "" "" 0 0 None.
Definition sample_each : WorkflowStep :=
  mkStep "each" StepTypeForEach "" ∅ "" ["fetch"] None None 0 ∅ ∅ "[1,2]" "" 0 0
    (Some (mkStep "inner" StepTypeTool "b2.echo" ∅ "" [] None None 0 ∅ ∅ "" "" 0 0 None)).

Definition sample_plan : list WorkflowStep := [sample_each; sample_fetch].

Definition sample_world : wf_world := {|
  ww_ctx := {| wc_WorkflowID := "wf"; wc_Params := []; wc_Steps := ∅; wc_Variables := []; wc_Workflow := None |};
  ww_sent := []; ww_store := NewInMemoryStateStore 0 0 |}.

Definition sample_begin : wf_state (group:=option exec_error) (egroup:=option wf_error) :=
  match executeDAG map_to_list 2 0 sample_plan with
  | Some (inr ex) => wf_start sample_world ex
  | _ => wf_start sample_world (mkExec 0 0 false [] [] None [] [] None)
  end.

Definition sample_reply : error + option ToolCallResult :=
  inr (Some {| tcr_Content := []; tcr_StructuredContent := Some [("ok", JBool true)]; tcr_IsError := false;
               tcr_Meta := None; tcr_BackendID := "" |}).

Definition sample_events : list wf_event :=
  [EvExec NextLevel; EvStart 0] ++ replicate 8 (EvAccess 0 7%Z sample_reply) ++
  [EvFinish 0; EvExec (Return 0); EvExec NextLevel; EvStart 0] ++ replicate 4 (EvAccess 0 8%Z sample_reply) ++
  [EvIterate 0; EvIterAcquire 0 1; EvIterAcquire 0 0] ++
  replicate 2 (EvIterAccess 0 1 sample_reply) ++ replicate 2 (EvIterAccess 0 0 sample_reply) ++
  [EvIterFinish 0 1; EvIterReturn 0 1; EvIterFinish 0 0; EvIterReturn 0 0] ++
  [EvJoin 0; EvAccess 0 9%Z sample_reply; EvFinish 0].

Definition sample_after (n : nat) : wf_state (group:=option exec_error) (egroup:=option wf_error) :=
  default sample_begin (wf_run sample_engine "abort" (take n sample_events) sample_begin).

Lemma sample_execution n : execution sample_engine "abort" sample_plan (sample_after n).
Proof.
  apply (execution_of _ _ _ _ map_to_list 2 0 (wf_exec sample_begin) sample_world);
    [reflexivity|vm_compute; reflexivity|vm_compute; split; discriminate|split; reflexivity|].
  change (rtc (wf_step sample_engine "abort") sample_begin (sample_after n)).
  unfold sample_after. destruct (wf_run _ _ _ _) as [st|] eqn:E; [|reflexivity]. by eapply wf_run_sound.
Qed.

Lemma sample_bounded : Forall bounded sample_plan.
Proof. repeat constructor; try discriminate; intros ? [= <-]; discriminate. Qed.

Lemma steps_see_dependencies_witness :
  exists s' r, s' ∈ sample_plan /\ ws_ID s' = "fetch" /\ settled "abort" s' r /\
    forall st', rtc (wf_step sample_engine "abort") (sample_after 18) st' ->
      wc_Steps (ww_ctx (wf_w st')) !! "fetch" = Some r.
Proof.
  apply (steps_see_dependencies sample_engine "abort" sample_plan (sample_after 18) sample_each "fetch"
    (sample_execution 18) sample_bounded);
    [apply list_elem_of_here|vm_compute; eexists; reflexivity|apply list_elem_of_here].
Defined.


Lemma step_outcomes_recorded_witness : exists err x,
  None = describe <$> err /\ wc_Steps (ww_ctx (wf_w (sample_after 32))) !! "each" = Some x /\
  recorded_as sample_each err x (own ("each", None) (ww_sent (wf_w (sample_after 32)))).
Proof.
  destruct (step_outcomes_recorded sample_engine "abort" sample_plan (sample_after 32) sample_each None
    (sample_execution 32) sample_bounded) as (err & Hr & Ho); [vm_compute; right; left|].
  assert (is_Some (wc_Steps (ww_ctx (wf_w (sample_after 32))) !! "each")) as [x Hx] by (vm_compute; eexists; reflexivity).
  change (ws_ID sample_each) with "each" in Ho. rewrite Hx in Ho. exists err, x. auto.
Defined.

Lemma foreach_bounded_witness :
  exists each kont, wf_threads (sample_after 29) !! 0 = Some (Some (TEach each kont)) /\
    (iters_running each <= 50)%Z /\ it_Item <$> omap id (es_results each) = [JNum 1; JNum 2].
Proof.
  destruct (wf_threads (sample_after 29) !! 0) as [[[|each kont]|]|] eqn:E; try (vm_compute in E; discriminate).
  pose proof (foreach_bounded sample_engine "abort" sample_plan (sample_after 29) 0 each kont
    (sample_execution 29) sample_bounded E) as (Hr & _ & Hall).
  exists each, kont. split; [exact eq_refl|]. split; [exact Hr|].
  vm_compute in E. injection E as <- <-. apply Hall. repeat constructor.
Defined.
