(* ===== verification/WorkflowOutput.v ===== *)
(** * The output of a workflow ([pkg/vmcp/composer/output_constructor.go])

    When a workflow has an output configuration, its output is built from templates,
    property by property, each coerced to the declared type or replaced by its default.
    The theorem relates the constructor to the validator of [OutputConfig]. *)

From S2P Require Import Prelude Programs VmcpTypes WorkflowTypes ParamHeaders SchemaCoercion OutputConfig WorkflowContext.
From S2P Require Import TemplateExpansion.
Local Open Scope prog_scope.

Inductive output_error :=
  | OutputConfigNil
  | AtProperty (name : string) (cause : output_error)
  | RequiredMissing (field : string)
  | RequiredNil (field : string)
  | NeitherValueNorProperties (name : string)
  | OutputExpansion (name : string) (cause : expand_error)
  | OutputNotObject (name : string)
  | OutputNotArray (name : string)
  | OutputCoercion (name value targetType : string)
  | DefaultCoercion (targetType : string).

(** A value of type [any]: [None] is the nil interface; a nil map or slice is a value
    that is encoded as [JNull]. *)
Definition go_any : Type := option json.

Definition encoded (v : go_any) : json := default JNull v.

Section output.
Context `{RT : Runtime}.

(** ** Coercion *)
Definition coerceStringToType (value targetType : string) : option json :=
  if decide (targetType = "string") then Some (JStr value)
  else if decide (targetType = "integer") then JNum <$> ParseInt value
  else if decide (targetType = "number") then ParseFloat value
  else if decide (targetType = "boolean") then JBool <$> ParseBool value
  else None.

Definition from_map (m : option fields) : json := match m with Some l => JObj l | None => JNull end.
Definition from_slice (a : option (list json)) : json := match a with Some l => JArr l | None => JNull end.

(** [None] is an error. *)
Definition coerceDefaultValue (defaultVal : any_value) (targetType : string) : option go_any :=
  if match defaultVal with ANil => true | _ => false end then Some None
  else if decide (targetType = "string") then
    Some (Some (JStr match defaultVal with AString str => str | v => fmt_v v end))
  else if decide (targetType = "integer") then
    match defaultVal with
    | AInt v => Some (Some (JNum v))
    | AFloat v => Some (Some (JNum (int64 v)))
    | AString v => (fun n => Some (JNum n)) <$> ParseInt v
    | _ => None
    end
  else if decide (targetType = "number") then
    match defaultVal with
    | AFloat v => Some (Some (JFloat v))
    | AInt v => Some (Some (float64 v))
    | AString v => Some <$> ParseFloat v
    | _ => None
    end
  else if decide (targetType = "boolean") then
    match defaultVal with
    | ABool v => Some (Some (JBool v))
    | AString v =>
        if decide (v ∈ ["true"; "True"; "TRUE"; "1"]) then Some (Some (JBool true))
        else if decide (v ∈ ["false"; "False"; "FALSE"; "0"]) then Some (Some (JBool false))
        else None
    | AInt v => Some (Some (JBool (bool_decide (v = 1%Z))))
    | _ => None
    end
  else if decide (targetType = "object") then
    match defaultVal with
    | AMap l => Some (Some (JObj l))
    | AString str => (fun m => Some (from_map m)) <$> ParseObject str
    | _ => None
    end
  else if decide (targetType = "array") then
    match defaultVal with
    | AArray l => Some (Some (JArr l))
    | AString str => (fun a => Some (from_slice a)) <$> ParseArray str
    | _ => None
    end
  else None.

Definition coerceRawJSONDefaultValue (defaultVal : any_value) (targetType : string) : output_error + go_any :=
  match coerceDefaultValue defaultVal targetType with Some v => inr v | None => inl (DefaultCoercion targetType) end.

(** The default where there is one, else the error. *)
Definition or_default (prop : OutputProperty) (err : output_error) : output_error + go_any :=
  if IsEmpty (op_Default prop) then inl err else coerceRawJSONDefaultValue (op_Default prop) (op_Type prop).

(** ** Properties *)
Definition property_from_text (name : string) (prop : OutputProperty) (expandedStr : string)
    : output_error + go_any :=
  let orElse (err : output_error) (r : option json) :=
    match r with Some v => inr (Some v) | None => or_default prop err end in
  if bool_decide (expandedStr = "<no value>") && negb (IsEmpty (op_Default prop))
  then coerceRawJSONDefaultValue (op_Default prop) (op_Type prop)
  else if decide (op_Type prop = "object") then orElse (OutputNotObject name) (from_map <$> ParseObject expandedStr)
  else if decide (op_Type prop = "array") then orElse (OutputNotArray name) (from_slice <$> ParseArray expandedStr)
  else orElse (OutputCoercion name expandedStr (op_Type prop)) (coerceStringToType expandedStr (op_Type prop)).

Definition constructOutputPropertyFromValue (name : string) (prop : OutputProperty)
    : prog base_op (output_error + go_any) :=
  run r <- Expand {["_value" := JStr (op_Value prop)]};
  Ret match r with
      | inl err => or_default prop (OutputExpansion name err)
      | inr expanded =>
          match assoc "_value" expanded with
          | Some (JStr expandedStr) => property_from_text name prop expandedStr
          | Some v => inr (Some v)
          | None => inr None
          end
      end.

(** The loop over properties, which adds each value to the object. *)
Section loop.
Context (construct : string -> OutputProperty -> prog base_op (output_error + go_any)).

Fixpoint construct_properties (l : list (string * OutputProperty)) (obj : list (string * go_any))
    : prog base_op (output_error + list (string * go_any)) :=
  match l with
  | [] => Ret (inr obj)
  | (name, prop) :: l =>
      run r <- construct name prop;
      match r with
      | inl err => Ret (inl err)
      | inr v => construct_properties l (obj ++ [(name, v)])
      end
  end.
End loop.

Fixpoint constructOutputProperty (name : string) (prop : OutputProperty) : prog base_op (output_error + go_any) :=
  if decide (op_Value prop <> "") then constructOutputPropertyFromValue name prop
  else
    let constructOutputPropertyFromProperties :=
      run r <- construct_properties (fun nested => constructOutputProperty (name +:+ "." +:+ nested)) (op_Properties prop) [];
      Ret match r with
          | inl err => inl err
          | inr nestedObj => inr (Some (JObj (prod_map id encoded <$> nestedObj)))
          end in
    if decide (op_Properties prop <> []) then constructOutputPropertyFromProperties
    else Ret (inl (NeitherValueNorProperties name)).

(** ** Outputs *)
Fixpoint check_required (required : list string) (output : list (string * go_any)) : option output_error :=
  match required with
  | [] => None
  | requiredField :: required =>
      match assoc requiredField output with
      | None => Some (RequiredMissing requiredField)
      | Some None => Some (RequiredNil requiredField)
      | Some (Some _) => check_required required output
      end
  end.

Definition constructOutputFromConfig (outputConfig : option OutputConfig) : prog base_op (output_error + fields) :=
  match outputConfig with
  | None => Ret (inl OutputConfigNil)
  | Some o =>
      run r <- construct_properties
        (fun name prop =>
          run r <- constructOutputProperty name prop;
          Ret match r with inl err => inl (AtProperty name err) | inr v => inr v end)
        (oc_Properties o) [];
      Ret match r with
          | inl err => inl err
          | inr output =>
              match check_required (oc_Required o) output with
              | Some err => inl err
              | None => inr (prod_map id encoded <$> output)
              end
          end
  end.

(** ** What the output is *)
Definition of_type (ty : string) (v : json) : Prop :=
  if decide (ty = "string") then exists s, v = JStr s
  else if decide (ty = "integer") then exists n, v = JNum n
  else if decide (ty = "number") then is_number v = true
  else if decide (ty = "boolean") then exists b, v = JBool b
  else if decide (ty = "object") then v = JNull \/ exists l, v = JObj l
  else if decide (ty = "array") then v = JNull \/ exists l, v = JArr l
  else False.

(** A value of the declared type, or an object of its nested properties. *)
Inductive matches : OutputProperty -> json -> Prop :=
  | matches_value p v : op_Value p <> "" -> of_type (op_Type p) v -> matches p v
  | matches_object p l :
      op_Value p = "" ->
      Forall2 (fun np nv => nv.1 = np.1 /\ matches np.2 nv.2) (op_Properties p) l -> matches p (JObj l).

(** The properties with templates, at any depth. *)
Inductive leaf_of : OutputProperty -> OutputProperty -> Prop :=
  | leaf_value p : op_Value p <> "" -> leaf_of p p
  | leaf_nested p q np : np ∈ op_Properties p -> leaf_of q np.2 -> leaf_of q p.

(** A property that has a default of its type. *)
Definition has_fallback (p : OutputProperty) : Prop :=
  IsEmpty (op_Default p) = false /\ coerceDefaultValue (op_Default p) (op_Type p) <> None.

Definition property_result (p : OutputProperty) (r : output_error + go_any) : Prop :=
  match r with
  | inr v => exists j, v = Some j /\ matches p j
  | inl _ => exists q, leaf_of q p /\ ~ has_fallback q
  end.

Section spec.
Context {RTok : RuntimeOk}.

Ltac typed := unfold of_type; repeat (case_decide; try done); eauto.

Lemma coerceDefaultValue_typed d ty v :
  IsEmpty d = false -> coerceDefaultValue d ty = Some v -> exists j, v = Some j /\ of_type ty j.
Proof.
  intros Hd. unfold coerceDefaultValue. destruct d; cbn in Hd; try done;
    (repeat (case_decide; subst; [|])); intros E; simplify_eq; try done;
    try (eexists; split; [reflexivity|]; typed; fail).
  all: try (eexists; split; [reflexivity|]; typed; apply float64_number).
  all: apply fmap_Some in E as (x & Hx & ->); eexists; split; [reflexivity|]; typed.
  - by eapply ParseFloat_number.
  - destruct x; cbn; eauto.
  - destruct x; cbn; eauto.
Qed.

Lemma coerceStringToType_typed value ty j : coerceStringToType value ty = Some j -> of_type ty j.
Proof.
  unfold coerceStringToType. intros E. repeat case_decide; subst; try done; simplify_eq; typed.
  - apply fmap_Some in E as (x & _ & ->). eauto.
  - by eapply ParseFloat_number.
  - apply fmap_Some in E as (x & _ & ->). eauto.
Qed.

Lemma raw_default_result p :
  op_Value p <> "" -> IsEmpty (op_Default p) = false ->
  property_result p (coerceRawJSONDefaultValue (op_Default p) (op_Type p)).
Proof.
  intros Hv Hd. unfold coerceRawJSONDefaultValue. destruct (coerceDefaultValue _ _) as [v|] eqn:E; cbn.
  - destruct (coerceDefaultValue_typed _ _ _ Hd E) as (j & -> & Ht). exists j. split; [done|]. by constructor.
  - exists p. split; [by constructor|]. by intros [_ ?].
Qed.

Lemma or_default_result p err : op_Value p <> "" -> property_result p (or_default p err).
Proof.
  intros Hv. unfold or_default. destruct (IsEmpty (op_Default p)) eqn:Ed; [|by apply raw_default_result].
  exists p. split; [by constructor|]. intros [? _]. congruence.
Qed.

Lemma property_from_text_result name p text :
  op_Value p <> "" -> property_result p (property_from_text name p text).
Proof.
  intros Hv. unfold property_from_text. destruct (bool_decide _ && _) eqn:Eb.
  { apply andb_prop in Eb as [_ Hd%negb_true_iff]. by apply raw_default_result. }
  assert (forall j, of_type (op_Type p) j -> property_result p (inr (Some j))) as Hj.
  { intros j Ht. exists j. split; [done|]. by constructor. }
  clear Eb. case_decide as Eo.
  { destruct (ParseObject text) as [m|]; cbn; [|by apply or_default_result]. apply Hj. rewrite Eo. typed. destruct m; cbn; eauto. }
  case_decide as Ea.
  { destruct (ParseArray text) as [m|]; cbn; [|by apply or_default_result]. apply Hj. rewrite Ea. typed. destruct m; cbn; eauto. }
  destruct (coerceStringToType _ _) as [j|] eqn:E; [|by apply or_default_result]. apply Hj. by eapply coerceStringToType_typed.
Qed.

Lemma expand_value text :
  always (Expand {["_value" := JStr text]})
    (fun r => match r with inl _ => True | inr l => exists s, l = [("_value", JStr s)] end).
Proof.
  unfold Expand, expandMap.
  assert (args_range {["_value" := JStr text]} = [("_value", JStr text)]) as ->.
  { apply Permutation_singleton_r. by rewrite args_range_ok, map_to_list_singleton. }
  cbn. intros []; cbn; [done|]. intros []; cbn; [done|]. intros ctx.
  destruct (template _ _) as [|out]; cbn [pbind]; [done|]. destruct (_ <? _)%Z; cbn; [done|]. by exists out.
Qed.

Lemma from_value_result name p :
  op_Value p <> "" -> always (constructOutputPropertyFromValue name p) (property_result p).
Proof.
  intros Hv. eapply always_bind; [apply expand_value|]. intros [err|l]; [by intros _; apply or_default_result|].
  intros [s ->]. by apply property_from_text_result.
Qed.

(** The loop keeps the names, in order. *)
Lemma construct_properties_result construct (P : string * OutputProperty -> go_any -> Prop) (E : output_error -> Prop) l :
  (forall name prop, (name, prop) ∈ l -> always (construct name prop)
    (fun r => match r with inl err => E err | inr v => P (name, prop) v end)) ->
  forall obj, always (construct_properties construct l obj)
    (fun r => match r with
              | inl err => E err
              | inr obj' => exists rest, obj' = obj ++ rest /\ Forall2 (fun np nv => nv.1 = np.1 /\ P np nv.2) l rest
              end).
Proof.
  induction l as [|[name prop] l IH]; intros Hc obj; cbn [construct_properties]; [exists []; by rewrite app_nil_r|].
  eapply always_bind; [apply Hc, list_elem_of_here|]. intros [err|v] Hv; cbn; [done|].
  eapply always_mono; [|apply IH; intros n q Hin; apply Hc; by apply list_elem_of_further].
  intros [err|obj']; [done|]. intros (rest & -> & Hrest). exists ((name, v) :: rest). rewrite <- app_assoc.
  split; [done|]. by constructor.
Qed.

Lemma matches_encoded p v : (exists j, v = Some j /\ matches p j) -> matches p (encoded v).
Proof. by intros (j & -> & Hj). Qed.

Lemma nested_matches props obj :
  Forall2 (fun (np : string * OutputProperty) (nv : string * go_any) =>
    nv.1 = np.1 /\ exists j, nv.2 = Some j /\ matches np.2 j) props obj ->
  Forall2 (fun np nv => nv.1 = np.1 /\ matches np.2 nv.2) props (prod_map id encoded <$> obj).
Proof.
  induction 1 as [|np [n v] props obj [Hn Hv] _ IH]; [constructor|]. constructor; [|done].
  split; [done|]. by apply matches_encoded.
Qed.

Lemma constructOutputProperty_result p : forall name depth,
  property_ok depth p -> always (constructOutputProperty name p) (property_result p).
Proof.
  induction p as [ty desc value props dflt IH] using OutputProperty_nested_ind. intros name depth Hok.
  set (p := mkProperty ty desc value props dflt) in *. destruct (decide (value = "")) as [->|Hv].
  - assert (props <> [] /\ Forall (fun np => property_ok (depth + 1) np.2) props) as [Hne Hn].
    { inversion Hok; subst; cbn in *; done. }
    cbn [constructOutputProperty op_Value op_Properties p]. rewrite decide_False, decide_True by tauto.
    eapply always_bind.
    { apply (construct_properties_result _ (fun np v => exists j, v = Some j /\ matches np.2 j)
        (fun _ => exists q, leaf_of q p /\ ~ has_fallback q)).
      intros nested prop Hin. rewrite Forall_forall in IH, Hn.
      eapply always_mono; [|apply (IH _ Hin _ _ (Hn _ Hin))]. intros [err|v]; cbn; [|done].
      intros (q & Hq & Hf). exists q. split; [|done]. by apply (leaf_nested p q (nested, prop)). }
    intros [err|obj]; [done|]. intros (rest & -> & Hr). eexists. split; [reflexivity|].
    apply matches_object; [done|]. by apply nested_matches.
  - cbn [constructOutputProperty op_Value p]. rewrite decide_True by done. by apply from_value_result.
Qed.

Lemma check_required_present (props : list (string * OutputProperty)) required output :
  Forall (fun f => f ∈ props.*1) required ->
  Forall2 (fun np nv => nv.1 = np.1 /\ exists j, nv.2 = Some j /\ matches np.2 j) props output ->
  check_required required output = None.
Proof.
  intros Hreq Hout. induction Hreq as [|f required Hf _ IH]; [done|]. cbn. rewrite IH.
  assert (exists j, @assoc go_any f output = Some (Some j)) as [j ->]; [|done]. clear -Hf Hout.
  induction Hout as [|[n p] [n' v] props output [Hn (j & Hj & _)] _ IH]; [by apply not_elem_of_nil in Hf|].
  cbn in *. subst. case_decide; [by exists j|]. apply elem_of_cons in Hf as [->|Hf]; [done|]. by apply IH.
Qed.

Lemma constructOutput_result quote o :
  ValidateOutputConfig quote (Some o) = None ->
  always (constructOutputFromConfig (Some o)) (fun r =>
    match r with
    | inr output =>
        Forall2 (fun np nv => nv.1 = np.1 /\ matches np.2 nv.2) (oc_Properties o) output /\
        Forall (fun f => f ∈ output.*1) (oc_Required o)
    | inl err => exists np cause q, np ∈ oc_Properties o /\ err = AtProperty np.1 cause /\
        leaf_of q np.2 /\ ~ has_fallback q
    end).
Proof.
  intros (_ & Hreq%Forall_forall & Hok)%(ValidateOutputConfig_None quote). unfold constructOutputFromConfig.
  eapply always_bind.
  { apply (construct_properties_result _ (fun np v => exists j, v = Some j /\ matches np.2 j)
      (fun err => exists np cause q, np ∈ oc_Properties o /\ err = AtProperty np.1 cause /\
        leaf_of q np.2 /\ ~ has_fallback q)).
    intros name prop Hin. eapply always_bind.
    - apply (constructOutputProperty_result prop name 0). by apply (Hok name).
    - intros [err|v]; cbn; [|done]. intros (q & Hq & Hf). by exists (name, prop), err, q. }
  intros [err|output]; [done|]. intros (rest & -> & Hr). cbn [app].
  rewrite (check_required_present _ _ _ Hreq Hr). pose proof (nested_matches _ _ Hr) as Hm. split; [done|].
  assert ((prod_map id encoded <$> rest).*1 = (oc_Properties o).*1) as ->; [|done].
  clear -Hm. induction Hm as [|np nv ? ? [E _] _ IH]; [done|]. cbn. by rewrite E, IH.
Qed.

(** C21. A workflow's output has the shape its configuration declares.  For a configuration
    that validation accepts, whatever the templates expand to, the output has exactly the
    declared properties, each with a value of its declared type (a null object or array
    where the text is null), nested properties likewise; the required ones are among
    them.  Construction fails only at a property with a template that has no default of
    its type, never because a required property is missing. *)
Theorem output_matches_config quote o :
  ValidateOutputConfig quote (Some o) = None ->
  always (constructOutputFromConfig (Some o)) (fun r =>
    match r with
    | inr output =>
        Forall2 (fun np nv => nv.1 = np.1 /\ matches np.2 nv.2) (oc_Properties o) output /\
        Forall (fun f => f ∈ output.*1) (oc_Required o)
    | inl err => exists np cause q, np ∈ oc_Properties o /\ err = AtProperty np.1 cause /\
        leaf_of q np.2 /\ ~ has_fallback q
    end).
Proof. apply constructOutput_result. Qed.
End spec.
End output.

Definition sample_output : OutputConfig := {|
  oc_Properties := [("count", mkProperty "integer" "a count" "12" [] ANil);
                    ("info", mkProperty "object" "nested" ""
                       [("ok", mkProperty "boolean" "a flag" "yes" [] (AString "1"))] ANil);
                    ("data", mkProperty "object" "parsed" "null" [] ANil)];
  oc_Required := ["count"; "data"] |}.

Lemma output_matches_config_witness :
  always (constructOutputFromConfig (RT:=sample_runtime) (Some sample_output)) (fun r =>
    match r with
    | inr output =>
        Forall2 (fun np nv => nv.1 = np.1 /\ matches np.2 nv.2) (oc_Properties sample_output) output /\
        Forall (fun f => f ∈ output.*1) ["count"; "data"]
    | inl err => exists np cause q, np ∈ oc_Properties sample_output /\ err = AtProperty np.1 cause /\
        leaf_of q np.2 /\ ~ has_fallback (RT:=sample_runtime) q
    end).
Proof.
  apply (output_matches_config (RT:=sample_runtime) (RTok:=sample_runtime_ok) (fun s => s) sample_output).
  vm_compute. reflexivity.
Defined.

(** The required property [data] is null: the check for nil does not see a nil map. *)
Definition first_answers {B : Type} (o : base_op B) : option B :=
  match o with
  | BCancelled => Some false
  | BContext => Some {| wc_WorkflowID := ""; wc_Params := []; wc_Steps := ∅; wc_Variables := []; wc_Workflow := None |}
  | _ => None
  end.

Fixpoint evaluate {A} (p : prog base_op A) : option A :=
  match p with
  | Ret a => Some a
  | Do o k => match first_answers o with Some x => evaluate (k x) | None => None end
  end.

Example required_output_null :
  evaluate (constructOutputFromConfig (RT:=sample_runtime) (Some sample_output)) =
  Some (inr [("count", JNum 12); ("info", JObj [("ok", JBool true)]); ("data", JNull)]).
Proof. vm_compute. reflexivity. Qed.
