(* ===== verification/WorkflowRun.v ===== *)
(** * A workflow from call to result
    ([ExecuteWorkflow] of [pkg/vmcp/composer/workflow_engine.go])

    What happens before and after the steps: the parameters get their defaults, the
    context and the first status are made, and when the executor has returned the result
    is put together and the final status saved.  A run is the start, an execution of
    [WorkflowExecution] to its end, and the finishing program; while that runs, others
    use the store. *)

From S2P Require Import Prelude Programs VmcpTypes WorkflowTypes Router ParamHeaders SchemaCoercion Core.
From S2P Require Import OutputConfig Workflow DagExecutor DagExecution WorkflowContext WorkflowStore TemplateExpansion.
From S2P Require Import StepExecution StepGuarantees WorkflowExecution WorkflowInvariant WorkflowSafety WorkflowOutput.
Local Open Scope prog_scope.

Definition defaultWorkflowTimeout : Duration := (30 * time.Minute)%Z.

(** ** Parameters *)
Definition schema_default (propSchema : json) : option json :=
  match propSchema with JObj propMap => assoc "default" propMap | _ => None end.

(** The loop over the properties of the schema. *)
Fixpoint apply_defaults (properties : list (string * json)) (result : fields) : fields :=
  match properties with
  | [] => result
  | (paramName, propSchema) :: properties =>
      match assoc paramName result, schema_default propSchema with
      | None, Some defaultValue => apply_defaults properties (result ++ [(paramName, defaultValue)])
      | _, _ => apply_defaults properties result
      end
  end.

Definition applyParameterDefaults (inputSchema : gmap string json) (params : option fields) : fields :=
  match inputSchema !! "properties" with
  | Some (JObj properties) => apply_defaults properties (default [] params)
  | _ => default [] params
  end.

Lemma assoc_app {A} k (l1 l2 : list (string * A)) :
  assoc k (l1 ++ l2) = match assoc k l1 with Some v => Some v | None => assoc k l2 end.
Proof. induction l1 as [|[k' v] l1 IH]; cbn; [done|]. by case_decide. Qed.

Lemma apply_defaults_spec properties result k :
  assoc k (apply_defaults properties result) =
  match assoc k result with
  | Some v => Some v
  | None => assoc k (omap (fun np => (fun d => (np.1, d)) <$> schema_default np.2) properties)
  end.
Proof.
  revert result. induction properties as [|[n s] l IH]; intros result; cbn [apply_defaults]; [by destruct (assoc k result)|].
  rewrite omap_cons_eq. cbn [fst snd]. destruct (schema_default s) as [d|] eqn:Ed; cbn [fmap option_fmap option_map].
  - destruct (assoc n result) as [v|] eqn:En; rewrite IH; rewrite ?assoc_app; cbn [assoc]; destruct (assoc k result) eqn:Ek; try done;
      case_decide; try done; subst; congruence.
  - rewrite <- (IH result). by destruct (assoc n result).
Qed.

(** ** Results *)
Inductive dag_error :=
  | LevelsFailed (cause : workflow_cause)
  | LevelFailed (cause : exec_error).

Inductive run_error :=
  | ErrWorkflowTimeout
  | DagFailed (cause : dag_error)
  | OutputFailed (cause : output_error).

Record WorkflowRunResult := {
  wr_WorkflowID : string;
  wr_Status : WorkflowStatusType;
  wr_Output : option fields;
  wr_Steps : gmap string StepResult;
  wr_Error : option run_error;
  wr_StartTime : Time;
  wr_EndTime : Time;
  wr_Duration : Duration;
}.

(** ** The end of a run *)
Inductive run_op : Type -> Type :=
  | RBase {B : Type} (o : base_op B) : run_op B
  | RNow : run_op Time
  | RDeadline : run_op bool                                   (* has the workflow's deadline passed? *)
  | RUpdate (startTime : Time) (status : WorkflowStatusType) : run_op unit
  | RStatus (status : WorkflowStatusType) : run_op WorkflowStatus
  | RSave (state : WorkflowStatus) : run_op bool.

Definition with_start (startTime : Time) (s : WorkflowStatus) : WorkflowStatus :=
  {| wst_WorkflowID := wst_WorkflowID s; wst_Status := wst_Status s; wst_CurrentStep := wst_CurrentStep s;
     wst_CompletedSteps := wst_CompletedSteps s; wst_PendingElicitations := wst_PendingElicitations s;
     wst_StartTime := startTime; wst_LastUpdateTime := wst_LastUpdateTime s |}.

Section engine.
Context `{RT : Runtime}.
Implicit Types (e : workflowEngine) (def : WorkflowDefinition) (w : wf_world).

Definition save_final e (startTime : Time) (status : WorkflowStatusType) : prog run_op unit :=
  if we_stateStore e then
    do state <- RStatus status;
    do _ <- RSave (with_start startTime state);
    Ret tt
  else Ret tt.

Definition end_run e (workflowID : string) (startTime : Time) (steps : gmap string StepResult)
    (status : WorkflowStatusType) (output : option fields) (err : option run_error) : prog run_op WorkflowRunResult :=
  do now <- RNow;
  run _ <- save_final e startTime status;
  Ret {| wr_WorkflowID := workflowID; wr_Status := status; wr_Output := output; wr_Steps := steps;
         wr_Error := err; wr_StartTime := startTime; wr_EndTime := now; wr_Duration := time.Sub now startTime |}.

(** [ExecuteWorkflow] from the return of [executeDAG]. *)
Definition finishWorkflow e def (workflowID : string) (startTime : Time) (dagErr : option dag_error)
    : prog run_op WorkflowRunResult :=
  do ctx <- RBase BContext;
  let finish := end_run e workflowID startTime (wc_Steps ctx) in
  match dagErr with
  | Some err =>
      do deadlineExceeded <- RDeadline;
      if deadlineExceeded then finish WorkflowStatusTimedOut None (Some ErrWorkflowTimeout)
      else finish WorkflowStatusFailed None (Some (DagFailed err))
  | None =>
      do _ <- RUpdate startTime WorkflowStatusCompleted;
      match wd_Output def with
      | None =>
          do ctx <- RBase BContext;
          finish WorkflowStatusCompleted (GetLastStepOutput steps_range ctx) None
      | Some output =>
          run r <- lift (@RBase) (constructOutputFromConfig (Some output));
          match r with
          | inl err => finish WorkflowStatusFailed None (Some (OutputFailed err))
          | inr constructed => finish WorkflowStatusCompleted (Some constructed) None
          end
      end
  end.

(** The accesses; others may have used the store before each. *)
Definition run_access {B : Type} (o : run_op B) w : B -> wf_world -> Prop :=
  match o in run_op B return B -> wf_world -> Prop with
  | RBase o => fun x w' => base_exec ("", None) o w x w'
  | RNow | RDeadline => fun _ w' => w' = w
  | RUpdate startTime status => fun _ w' =>
      exists now, w' = with_ctx (updateWorkflowMetadata steps_range now startTime status (ww_ctx w)) w
  | RStatus status => fun state w' =>
      w' = w /\ exists now now', state = buildWorkflowStatus steps_range now now' (ww_ctx w) status
  | RSave state => fun ok w' => exists now, (ok, w') = save now state w
  end.

Definition run_exec B (o : run_op B) w (x : B) w' : Prop :=
  exists store, run_access o (with_store store w) x w'.

(** ** The start of a run *)
Definition initialState (workflowID : string) (startTime : Time) : WorkflowStatus :=
  {| wst_WorkflowID := workflowID; wst_Status := WorkflowStatusRunning; wst_CurrentStep := "";
     wst_CompletedSteps := []; wst_PendingElicitations := []; wst_StartTime := startTime;
     wst_LastUpdateTime := startTime |}.

(** [now] is when the context is made, [startTime] when the result is, [now'] when the
    first status is saved. *)
Definition startWorkflow e def (workflowID : string) (params : option fields) (now startTime now' : Time)
    (store : inMemoryStateStore) : wf_world :=
  let ctx := (CreateContext workflowID now (applyParameterDefaults (wd_Parameters def) params) ∅).1 in
  let w := {| ww_ctx := ctx; ww_sent := []; ww_store := store |} in
  if we_stateStore e then (save now' (initialState workflowID startTime) w).2 else w.

(** ** Runs *)
Context {group egroup : Type} `{EX : Errgroup exec_error group} `{EI : Errgroup wf_error egroup}.

(** [expired]: the workflow's context was done when the executor returned. *)
Inductive ExecuteWorkflow e def (params : option fields) (startTime : Time)
    : bool -> WorkflowRunResult -> wf_world -> Prop :=
  | run_unordered range others workflowID now now' store cause expired result w' :
      (forall m, range m ≡ₚ map_to_list m) ->
      executeDAG (group:=group) range (we_maxParallel e) others (wd_Steps def) = Some (inl cause) ->
      let w := startWorkflow e def workflowID params now startTime now' store in
      runs run_exec (finishWorkflow e def workflowID startTime (Some (LevelsFailed cause))) w result w' ->
      ExecuteWorkflow e def params startTime expired result w'
  | run_executed range others workflowID now now' store (ex : exec_state group) st r result w' :
      (forall m, range m ≡ₚ map_to_list m) ->
      executeDAG range (we_maxParallel e) others (wd_Steps def) = Some (inr ex) ->
      (0 <= others <= newDAGExecutor (we_maxParallel e))%Z ->
      let w := startWorkflow e def workflowID params now startTime now' store in
      rtc (wf_step e (wd_FailureMode def)) (wf_start (egroup:=egroup) w ex) st ->
      ex_result (wf_exec st) = Some r ->
      runs run_exec (finishWorkflow e def workflowID startTime (LevelFailed <$> r)) (wf_w st) result w' ->
      ExecuteWorkflow e def params startTime (ex_parent_done (wf_exec st)) result w'.

(** ** What the end of a run gives *)
Definition output_ok def (steps : gmap string StepResult) (output : option fields) : Prop :=
  match wd_Output def with
  | Some o => exists l, output = Some l /\
      (forall quote, ValidateOutputConfig quote (Some o) = None ->
       Forall2 (fun np nv => nv.1 = np.1 /\ matches np.2 nv.2) (oc_Properties o) l)
  | None => (output = None /\ forall id r, steps !! id = Some r -> stp_Status r = StepStatusCompleted ->
               (stp_EndTime r <= time.zero)%Z) \/
            (exists id r, steps !! id = Some r /\ stp_Status r = StepStatusCompleted /\ output = stp_Output r /\
             forall id' r', steps !! id' = Some r' -> stp_Status r' = StepStatusCompleted -> (stp_EndTime r' <= stp_EndTime r)%Z)
  end.

Record finished e def (workflowID : string) (startTime : Time) (dagErr : option dag_error) (w : wf_world)
    (result : WorkflowRunResult) (w' : wf_world) : Prop := {
  fin_id : wr_WorkflowID result = workflowID /\ wr_StartTime result = startTime;
  fin_steps : wr_Steps result = wc_Steps (ww_ctx w);
  fin_status :
    match dagErr with
    | Some err => wr_Output result = None /\
        (wr_Status result = WorkflowStatusTimedOut /\ wr_Error result = Some ErrWorkflowTimeout \/
         wr_Status result = WorkflowStatusFailed /\ wr_Error result = Some (DagFailed err))
    | None =>
        wr_Status result = WorkflowStatusCompleted /\ wr_Error result = None /\
          output_ok def (wr_Steps result) (wr_Output result) \/
        wr_Status result = WorkflowStatusFailed /\ wr_Output result = None /\
          exists err, wr_Error result = Some (OutputFailed err)
    end;
  fin_saved : we_stateStore e = true -> workflowID <> "" -> exists status,
    LoadState workflowID (ww_store w') = inr status /\ wst_Status status = wr_Status result /\
    wst_StartTime status = startTime /\ wst_CompletedSteps status = completed_steps steps_range (wr_Steps result);
}.

Local Abbreviation ends p Q w := (holds (fun _ _ _ => True) run_exec p Q w).

Lemma end_run_holds e workflowID startTime steps status output err (Q : WorkflowRunResult -> wf_world -> Prop) w :
  wc_WorkflowID (ww_ctx w) = workflowID -> wc_Steps (ww_ctx w) = steps ->
  (forall now w', (we_stateStore e = true -> workflowID <> "" -> exists s,
     LoadState workflowID (ww_store w') = inr s /\ wst_Status s = status /\ wst_StartTime s = startTime /\
     wst_CompletedSteps s = completed_steps steps_range steps) ->
   Q {| wr_WorkflowID := workflowID; wr_Status := status; wr_Output := output; wr_Steps := steps;
        wr_Error := err; wr_StartTime := startTime; wr_EndTime := now; wr_Duration := time.Sub now startTime |} w') ->
  ends (end_run e workflowID startTime steps status output err) Q w.
Proof.
  intros Hid Hst HQ. apply holds_do; [done|]. intros now w1 [store ->]. unfold save_final.
  destruct (we_stateStore e); cbn [pbind]; [|by apply HQ].
  apply holds_do; [done|]. intros state w2 (store2 & -> & n1 & n2 & ->).
  apply holds_do; [done|]. intros ok w3 (store3 & n3 & Es). apply HQ. intros _ Hne. cbn in Es.
  unfold save in Es. cbn [ww_ctx with_store ww_store] in Es. rewrite Hid in Es. cbn in Es.
  rewrite decide_False in Es by done. simplify_eq Es. intros -> ->. eexists. cbn.
  rewrite decide_False, lookup_insert_eq by done. split; [done|]. cbn. by rewrite Hst.
Qed.

Lemma base_run {A} (p : prog base_op A) (P : A -> Prop) w :
  always p P -> ends (lift (@RBase) p) (fun a w' => P a /\ ww_ctx w' = ww_ctx w) w.
Proof.
  revert w. induction p as [a|B o k IH]; intros w Hp; [done|]. split; [done|]. intros x w' [store Hx].
  assert (ww_ctx w' = ww_ctx w) as E by (destruct o; cbn in Hx; destruct_and?; subst; done).
  rewrite <- E. apply IH, Hp.
Qed.

Lemma later_output_spec l t0 out :
  let '(t, out') := foldl later_output (t0, out) l in
  (t0 <= t)%Z /\ (forall kv, kv ∈ l -> stp_Status kv.2 = StepStatusCompleted -> (stp_EndTime kv.2 <= t)%Z) /\
  ((t = t0 /\ out' = out) \/
   exists kv, kv ∈ l /\ stp_Status kv.2 = StepStatusCompleted /\ out' = stp_Output kv.2 /\ stp_EndTime kv.2 = t).
Proof.
  revert t0 out. induction l as [|kv l IH]; intros t0 out; cbn [foldl].
  { split; [lia|]. split; [by intros ? ?%not_elem_of_nil|by left]. }
  unfold later_output at 2. cbn [fst]. destruct (bool_decide _ && _) eqn:E.
  - apply andb_prop in E as [Ec%bool_decide_eq_true Ea%Z.ltb_lt]. specialize (IH (stp_EndTime kv.2) (stp_Output kv.2)).
    destruct (foldl _ _ l) as [t out']. destruct IH as (Hle & Hall & Hw). split; [lia|]. split.
    + intros kv' [->|Hin]%elem_of_cons Hc; [done|]. by apply Hall.
    + right. destruct Hw as [[-> ->]|(kv' & ? & ? & ? & ?)]; [exists kv|exists kv']; (split; [|done]); by constructor.
  - specialize (IH t0 out). destruct (foldl _ _ l) as [t out']. destruct IH as (Hle & Hall & Hw). split; [done|]. split.
    + intros kv' [->|Hin]%elem_of_cons Hc; [|by apply Hall]. rewrite bool_decide_true in E by done. cbn in E.
      apply Z.ltb_ge in E. lia.
    + destruct Hw as [?|(kv' & ? & ?)]; [by left|]. right. exists kv'. split; [by right|done].
Qed.

Context {RTok : RuntimeOk}.

Lemma last_output_ok def ctx :
  wd_Output def = None -> output_ok def (wc_Steps ctx) (GetLastStepOutput steps_range ctx).
Proof.
  intros E. unfold output_ok, GetLastStepOutput. rewrite E.
  pose proof (later_output_spec (steps_range (wc_Steps ctx)) time.zero None) as Hl.
  destruct (foldl _ _ _) as [t out]. destruct Hl as (_ & Hall & Hw).
  assert (forall id r, wc_Steps ctx !! id = Some r -> stp_Status r = StepStatusCompleted -> (stp_EndTime r <= t)%Z) as Hm.
  { intros id r Hr. apply (Hall (id, r)). rewrite steps_range_ok. by apply elem_of_map_to_list. }
  destruct Hw as [[-> ->]|([id r] & Hin & Hc & -> & <-)]; [by left|]. right. exists id, r.
  rewrite steps_range_ok in Hin. apply elem_of_map_to_list in Hin. by repeat split.
Qed.

Lemma constructed_ok def o :
  wd_Output def = Some o ->
  always (constructOutputFromConfig (Some o))
    (fun r => match r with inr l => forall steps, output_ok def steps (Some l) | inl _ => True end).
Proof.
  intros E. destruct (ValidateOutputConfig (fun s => s) (Some o)) eqn:Ev.
  - eapply always_mono; [|apply always_True]. intros [|l] _; [done|]. intros steps. unfold output_ok. rewrite E.
    exists l. split; [done|]. intros quote Hq. rewrite ValidateOutputConfig_None in Hq.
    apply (ValidateOutputConfig_None (fun s => s)) in Hq. congruence.
  - eapply always_mono; [|by apply (constructOutput_result (fun s => s))]. intros [|l]; [done|]. intros [Hl _] steps.
    unfold output_ok. rewrite E. by exists l.
Qed.

Lemma finish_holds e def workflowID startTime dagErr w :
  wc_WorkflowID (ww_ctx w) = workflowID ->
  ends (finishWorkflow e def workflowID startTime dagErr) (finished e def workflowID startTime dagErr w) w.
Proof.
  intros Hid. apply holds_do; [done|]. intros ctx w1 (store & -> & ->). cbn [ww_ctx with_store]. destruct dagErr as [err|].
  { apply holds_do; [done|]. intros deadline w2 [store2 ->].
    destruct deadline; (apply end_run_holds; [done..|]); intros now w' Hs; split; cbn; auto. }
  apply holds_do; [done|]. intros [] w2 (store2 & now & ->).
  set (ctx := updateWorkflowMetadata steps_range now startTime WorkflowStatusCompleted (ww_ctx w)).
  assert (wc_WorkflowID ctx = workflowID /\ wc_Steps ctx = wc_Steps (ww_ctx w)) as [Hid' Hst'].
  { subst ctx. unfold updateWorkflowMetadata. by destruct (wc_Workflow (ww_ctx w)). }
  destruct (wd_Output def) as [o|] eqn:Eo.
  - eapply holds_bind; [apply base_run, (constructed_ok def o Eo)|]. intros [err|l] w3 [Hl Hc]; cbn [ww_ctx with_ctx] in Hc;
      (apply end_run_holds; [by rewrite Hc..|]); intros now' w' Hs; split; cbn; eauto 10.
  - apply holds_do; [done|]. intros ctx' w3 (store3 & -> & ->).
    apply end_run_holds; [done..|]. intros now' w' Hs. split; cbn; auto. left. do 2 (split; [done|]).
    rewrite <- Hst'. by apply (last_output_ok def ctx).
Qed.

(** ** Runs *)
Lemma access_id id isDone {B} (o : step_op B) w x w' :
  step_exec id isDone o w x w' -> wc_WorkflowID (ww_ctx w') = wc_WorkflowID (ww_ctx w).
Proof.
  destruct o as [B o| | | | | | | | | | | |]; cbn; intros Hx; [destruct o; cbn in Hx|..];
    repeat match goal with Hx : exists _, _ |- _ => destruct Hx | Hx : _ /\ _ |- _ => destruct Hx end;
    unfold save in *; try (destruct (SaveState _ _ _ _)); simplify_eq; done.
Qed.

Lemma each_id w (st : each_state (egroup:=egroup)) w' st' : each_step w st w' st' -> ww_ctx w' = ww_ctx w.
Proof.
  destruct 1 as [| |i B o k x w w' st _ Hx| |]; try done.
  destruct o; cbn in Hx; destruct_and?; subst; done.
Qed.

Lemma execution_id e failureMode (st st' : wf_state (group:=group) (egroup:=egroup)) :
  rtc (wf_step e failureMode) st st' -> wc_WorkflowID (ww_ctx (wf_w st')) = wc_WorkflowID (ww_ctx (wf_w st)).
Proof.
  induction 1 as [|st1 st2 st3 Hs _ IH]; [done|]. rewrite IH. destruct Hs; try done; cbn [wf_w].
  - by eapply access_id.
  - by erewrite each_id.
Qed.

Lemma start_world e def workflowID params now startTime now' store :
  let w := startWorkflow e def workflowID params now startTime now' store in
  untouched w /\ wc_WorkflowID (ww_ctx w) = workflowID.
Proof.
  cbn. unfold startWorkflow, save, untouched. destruct (we_stateStore e); [|done]. by destruct (SaveState _ _ _ _).
Qed.

Lemma elem_of_completed_steps steps id :
  id ∈ completed_steps steps_range steps <-> exists r, steps !! id = Some r /\ stp_Status r = StepStatusCompleted.
Proof.
  unfold completed_steps. rewrite list_elem_of_fmap. setoid_rewrite list_elem_of_filter. setoid_rewrite steps_range_ok.
  split.
  - intros ([k r] & -> & Hc & Hin%elem_of_map_to_list). by exists r.
  - intros (r & Hr & Hc). exists (id, r). by rewrite elem_of_map_to_list.
Qed.

(** What is recorded when the executor has returned without an error. *)
Lemma completed_execution e failureMode steps range others maxParallel w (ex : exec_state group)
    (st : wf_state (egroup:=egroup)) s :
  (forall m, range m ≡ₚ map_to_list m) -> executeDAG range maxParallel others steps = Some (inr ex) ->
  (0 <= others <= newDAGExecutor maxParallel)%Z -> untouched w -> rtc (wf_step e failureMode) (wf_start w ex) st ->
  ex_result (wf_exec st) = Some None -> Forall bounded steps -> s ∈ steps ->
  match wc_Steps (ww_ctx (wf_w st)) !! ws_ID s with
  | Some r => settled failureMode s r
  | None => shouldContinueOnError s failureMode = true /\ ex_parent_done (wf_exec st) = true
  end.
Proof.
  intros Ho Hst Hsl Hu Hx Er Hb Hin.
  destruct (execution_inv e failureMode steps st) as (levels & k & Hp & _ & Hi & _);
    [by apply (execution_of _ _ _ _ range maxParallel others ex w)|done|].
  pose proof (wi_exec _ _ _ _ _ Hi) as He. destruct (inv_all_completed _ _ _ _ s He Er) as (r & Hr & Hc); [by rewrite Hp|].
  pose proof (finished_settled _ _ _ _ _ _ _ Hi Hr Hc) as Hset. unfold entry in Hset.
  destruct (wc_Steps (ww_ctx (wf_w st)) !! ws_ID s); [done|]. destruct Hset as [? Hl]. split; [done|].
  destruct (ei_result _ _ _ _ He Er) as (_ & _ & Eg). unfold level_done in Hl. apply orb_true_iff in Hl as [Hl|Hl]; [done|].
  apply (wi_group _ _ _ _ _ Hi) in Hl. rewrite Eg in Hl. by destruct Hl.
Qed.

Lemma run_result e def params startTime expired result w' :
  ExecuteWorkflow e def params startTime expired result w' -> Forall bounded (wd_Steps def) ->
  match wr_Status result with
  | WorkflowStatusCompleted =>
      wr_Error result = None /\ output_ok def (wr_Steps result) (wr_Output result) /\
      (forall s, s ∈ wd_Steps def ->
       match wr_Steps result !! ws_ID s with
       | Some r => settled (wd_FailureMode def) s r
       | None => shouldContinueOnError s (wd_FailureMode def) = true /\ expired = true
       end)
  | WorkflowStatusFailed => is_Some (wr_Error result) /\ wr_Output result = None
  | WorkflowStatusTimedOut => wr_Error result = Some ErrWorkflowTimeout /\ wr_Output result = None
  | _ => False
  end /\
  (we_stateStore e = true -> wr_WorkflowID result <> "" -> exists status,
   LoadState (wr_WorkflowID result) (ww_store w') = inr status /\ wst_Status status = wr_Status result /\
   wst_StartTime status = wr_StartTime result /\
   forall id, id ∈ wst_CompletedSteps status <->
     exists r, wr_Steps result !! id = Some r /\ stp_Status r = StepStatusCompleted).
Proof.
  intros Hrun Hb.
  assert (exists workflowID dagErr w, finished e def workflowID startTime dagErr w result w' /\
    (dagErr = None -> forall s, s ∈ wd_Steps def ->
       match wc_Steps (ww_ctx w) !! ws_ID s with
       | Some r => settled (wd_FailureMode def) s r
       | None => shouldContinueOnError s (wd_FailureMode def) = true /\ expired = true
       end)) as (id & dagErr & w & [Hid Hst Hs Hsv] & Hall).
  { destruct Hrun as [range others id now now' store cause expired result w' _ _ w Hr|
      range others id now now' store ex st r result w' Ho Hst Hsl w Hx Er Hr].
    - exists id, (Some (LevelsFailed cause)), w. split; [|done]. eapply holds_runs; [by apply finish_holds, start_world|done].
    - exists id, (LevelFailed <$> r), (wf_w st). destruct (start_world e def id params now startTime now' store) as [Hu Hid].
      split; [eapply holds_runs; [apply finish_holds|done]; by rewrite (execution_id _ _ _ _ Hx)|].
      intros ->%fmap_None s Hin. by eapply completed_execution. }
  destruct Hid as [-> <-]. rewrite <- Hst in Hall. split.
  - destruct dagErr as [err|]; [by destruct Hs as [Ho [[-> ->]|[-> ->]]]|].
    destruct Hs as [(-> & ? & ?)|(-> & ? & err & ->)]; [|done]. split; [done|]. split; [done|]. by apply Hall.
  - intros He Hne. destruct (Hsv He Hne) as (status & Hl & E1 & E2 & E3). exists status. do 3 (split; [done|]).
    intros k. rewrite E3. apply elem_of_completed_steps.
Qed.

(** C7. A workflow's result says what happened.  Whatever the interleaving: the result is
    completed without an error, failed, or timed out with one, and carries the recorded
    steps; the status in the store is the same, with the start of the run and the
    completed steps.  When it is completed, the output is the declared one, or that of
    the step that completed last, and every step of the definition has a result that is
    completed, skipped, or a failure the workflow continues after, with one exception: if
    the workflow's context was done before the executor returned, a step whose failure is
    passed over may have no result at all.  So a completed workflow whose context was
    not done has a result for every step. *)
Theorem workflow_result_faithful e def params startTime expired result w' :
  ExecuteWorkflow e def params startTime expired result w' -> Forall bounded (wd_Steps def) ->
  match wr_Status result with
  | WorkflowStatusCompleted =>
      wr_Error result = None /\ output_ok def (wr_Steps result) (wr_Output result) /\
      (forall s, s ∈ wd_Steps def ->
       match wr_Steps result !! ws_ID s with
       | Some r => settled (wd_FailureMode def) s r
       | None => shouldContinueOnError s (wd_FailureMode def) = true /\ expired = true
       end)
  | WorkflowStatusFailed => is_Some (wr_Error result) /\ wr_Output result = None
  | WorkflowStatusTimedOut => wr_Error result = Some ErrWorkflowTimeout /\ wr_Output result = None
  | _ => False
  end /\
  (we_stateStore e = true -> wr_WorkflowID result <> "" -> exists status,
   LoadState (wr_WorkflowID result) (ww_store w') = inr status /\ wst_Status status = wr_Status result /\
   wst_StartTime status = wr_StartTime result /\
   forall id, id ∈ wst_CompletedSteps status <->
     exists r, wr_Steps result !! id = Some r /\ stp_Status r = StepStatusCompleted).
Proof. apply run_result. Qed.

(** ** The result of the tool

    [wraps_deadline] tells whether an error is [context.DeadlineExceeded] for
    [errors.Is], [describe_run] is its text.  [ErrWorkflowTimeout] is a new error, not
    one that wraps another. *)
Section reported.
Context (Marshal : option fields -> string + string) (wraps_deadline : run_error -> bool) (describe_run : run_error -> string).

Definition returned (result : WorkflowRunResult) : workflow_outcome :=
  match wr_Error result with
  | None => WorkflowResult None (wr_Output result)
  | Some ErrWorkflowTimeout => WorkflowErr false "workflow timed out"
  | Some err => WorkflowErr (wraps_deadline err) (describe_run err)
  end.

(** What the caller of a composite tool is told.  A completed workflow gives its
    output, encoded and structured; any other an error result without structured
    content.  When the workflow's own deadline has passed, the error is the general one
    for failed workflows, not the one the code has for timeouts. *)
Theorem composite_call_reported e def params startTime expired result w' :
  ExecuteWorkflow e def params startTime expired result w' -> Forall bounded (wd_Steps def) ->
  let tool := executeComposite Marshal (fun _ _ => returned result) def params in
  match wr_Status result with
  | WorkflowStatusCompleted =>
      match Marshal (wr_Output result) with
      | inr bytes => tcr_IsError tool = false /\ tcr_StructuredContent tool = wr_Output result /\
          tcr_Content tool = [text_content bytes]
      | inl _ => tcr_IsError tool = true
      end
  | WorkflowStatusTimedOut =>
      tool = compositeErrorResult "Workflow execution failed: workflow timed out" /\
      tool <> compositeErrorResult "Workflow execution timeout exceeded"
  | _ => tcr_IsError tool = true /\ tcr_StructuredContent tool = None
  end.
Proof.
  intros Hrun Hb. destruct (run_result _ _ _ _ _ _ _ Hrun Hb) as [Hs _]. cbn. unfold executeComposite, returned.
  destruct (wr_Status result); try done.
  - destruct Hs as [-> _]. by destruct (Marshal (wr_Output result)).
  - destruct Hs as [[err ->] _]. destruct err; cbn; try (by destruct (wraps_deadline _)); done.
  - destruct Hs as [-> _]. done.
Qed.
End reported.
End engine.

(** ** Runs that end, as examples *)
Section scheduler.
Context `{RT : Runtime}.

Definition perform_run (now : Time) (deadline : bool) {B : Type} (o : run_op B) (w : wf_world) : B * wf_world :=
  match o in run_op B return B * wf_world with
  | RBase o => perform_base ("", None) (inr None) o w
  | RNow => (now, w)
  | RDeadline => (deadline, w)
  | RUpdate startTime status => (tt, with_ctx (updateWorkflowMetadata steps_range now startTime status (ww_ctx w)) w)
  | RStatus status => (buildWorkflowStatus steps_range now now (ww_ctx w) status, w)
  | RSave state => save now state w
  end.

Fixpoint finish_run (now : Time) (deadline : bool) {A} (p : prog run_op A) (w : wf_world) : A * wf_world :=
  match p with
  | Ret a => (a, w)
  | Do o k => finish_run now deadline (k (perform_run now deadline o w).1) (perform_run now deadline o w).2
  end.

Lemma perform_run_sound now deadline {B} (o : run_op B) w :
  run_exec B o w (perform_run now deadline o w).1 (perform_run now deadline o w).2.
Proof.
  exists (ww_store w). assert (with_store (ww_store w) w = w) as -> by (by destruct w).
  destruct o; cbn; [apply perform_base_sound|done|done|by eexists|by eauto|]. exists now. by destruct (save now state w).
Qed.

Lemma finish_run_sound now deadline {A} (p : prog run_op A) w :
  runs run_exec p w (finish_run now deadline p w).1 (finish_run now deadline p w).2.
Proof.
  revert w. induction p as [a|B o k IH]; intros w; [done|]. cbn. do 2 eexists. split; [apply perform_run_sound|apply IH].
Qed.
End scheduler.

(** ** A deadline that passes between two levels *)
Section late.
Context `{RT : Runtime} {group egroup : Type} `{EX : Errgroup exec_error group} `{EI : Errgroup wf_error egroup}.
Implicit Types (e : workflowEngine) (w : wf_world) (st : wf_state (group:=group) (egroup:=egroup)).

Definition returned_level (level : list WorkflowStep) : list (WorkflowStep * run_phase) :=
  (fun s => (s, Returned)) <$> level.

Lemma returned_all level : Forall (fun p : WorkflowStep * run_phase => p.2 = Returned) (returned_level level).
Proof. apply Forall_fmap, Forall_true. done. Qed.

Lemma level_at l1 s l2 ph :
  (returned_level l1 ++ (s, ph) :: start_level l2) !! length l1 = Some (s, ph) /\
  forall ph', <[length l1 := (s, ph')]> (returned_level l1 ++ (s, ph) :: start_level l2) =
    returned_level l1 ++ (s, ph') :: start_level l2.
Proof.
  assert (length l1 = length (returned_level l1) + 0) as -> by (unfold returned_level; rewrite length_fmap; lia).
  split; [by rewrite lookup_app_r, Nat.add_comm, Nat.add_sub by lia|]. intros ph'. by rewrite insert_app_r.
Qed.

Lemma level_idle l1 l2 : running (returned_level l1 ++ start_level l2) = 0%Z.
Proof.
  unfold running. rewrite filter_app, length_app, Nat2Z.inj_add. fold (running (returned_level l1)) (running (start_level l2)).
  by rewrite running_returned, start_level_running by apply returned_all.
Qed.

(** The first goroutine that waits gets a slot, finds the context done, and returns;
    its error is passed over. *)
Lemma late_step e failureMode l1 s l2 mx oth pend g started fin w ts :
  shouldContinueOnError s failureMode = true -> (oth < mx)%Z -> length ts = length (l1 ++ s :: l2) ->
  exists started' fin', rtc (wf_step e failureMode)
    {| wf_w := w; wf_exec := mkExec mx oth true pend (returned_level l1 ++ start_level (s :: l2)) g started fin None;
       wf_threads := ts |}
    {| wf_w := w; wf_exec := mkExec mx oth true pend (returned_level (l1 ++ [s]) ++ start_level l2) (go_return None g)
         started' fin' None;
       wf_threads := <[length l1 := None]> ts |}.
Proof.
  intros Hc Hlt Hlen. exists (started ++ [s]), (fin ++ [(s, Some (describe StepContextDone))]).
  assert (length l1 < length ts) as Hts by (rewrite Hlen, length_app; cbn; lia).
  assert (forall th, <[length l1 := th]> ts !! length l1 = Some th) as Hth by (intros; by apply list_lookup_insert_eq).
  change (start_level (s :: l2)) with ((s, Waiting) :: start_level l2).
  eapply rtc_l; [eapply (wf_acquire _ _ (length l1) s); [apply level_at|]|].
  { cbn. unfold exec_acquire. cbn [ex_level]. rewrite (proj1 (level_at l1 s l2 Waiting)).
    unfold slots_used. cbn [ex_level ex_others ex_max]. change ((s, Waiting) :: start_level l2) with (start_level (s :: l2)).
    rewrite level_idle, (proj2 (Z.ltb_lt _ _)) by lia. reflexivity. }
  cbn [ex_level ex_max ex_others ex_parent_done ex_pending ex_group ex_started ex_finished ex_result].
  rewrite (proj2 (level_at l1 s l2 Waiting)).
  eapply rtc_l; [eapply (wf_access _ _ (length l1) s Running SContextDone _ true); [apply level_at|apply Hth|by split]|].
  rewrite list_insert_insert_eq.
  eapply rtc_l; [eapply (wf_finish _ _ (length l1) (Some StepContextDone)); [apply Hth|]|].
  { cbn. unfold exec_finish. cbn [ex_level]. rewrite (proj1 (level_at l1 s l2 Running)), Hc. reflexivity. }
  cbn [ex_level ex_max ex_others ex_parent_done ex_pending ex_group ex_started ex_finished ex_result].
  rewrite (proj2 (level_at l1 s l2 Running)), list_insert_insert_eq.
  eapply rtc_l; [eapply (wf_return _ _ (length l1))|].
  { cbn. unfold exec_return. cbn [ex_level]. rewrite (proj1 (level_at l1 s l2 (Returning None))). reflexivity. }
  cbn [ex_level ex_max ex_others ex_parent_done ex_pending ex_group ex_started ex_finished ex_result].
  rewrite (proj2 (level_at l1 s l2 (Returning None))). unfold returned_level. rewrite fmap_app, <- app_assoc. reflexivity.
Qed.

Lemma late_level e failureMode l2 l1 mx oth pend g started fin w ts :
  (forall s, s ∈ l2 -> shouldContinueOnError s failureMode = true) -> (oth < mx)%Z -> length ts = length (l1 ++ l2) ->
  group_wait g = None ->
  exists g' started' fin' ts', group_wait g' = None /\ rtc (wf_step e failureMode)
    {| wf_w := w; wf_exec := mkExec mx oth true pend (returned_level l1 ++ start_level l2) g started fin None;
       wf_threads := ts |}
    {| wf_w := w; wf_exec := mkExec mx oth true pend (returned_level (l1 ++ l2)) g' started' fin' None;
       wf_threads := ts' |}.
Proof.
  revert l1 g started fin ts. induction l2 as [|s l2 IH]; intros l1 g started fin ts Hc Hlt Hlen Hg.
  { exists g, started, fin, ts. split; [done|]. unfold start_level. cbn [fmap list_fmap]. by rewrite !app_nil_r. }
  destruct (late_step e failureMode l1 s l2 mx oth pend g started fin w ts) as (started' & fin' & Hs);
    [apply Hc; by left|done|done|].
  destruct (IH (l1 ++ [s]) (go_return None g) started' fin' (<[length l1 := None]> ts)) as (g' & s2 & f2 & ts' & Hg' & Hr).
  - intros t Ht. apply Hc. by right.
  - done.
  - rewrite length_insert, Hlen, !length_app. cbn. lia.
  - by rewrite go_return_wait, Hg.
  - exists g', s2, f2, ts'. split; [done|]. rewrite <- app_assoc in Hr. by etrans.
Qed.

Lemma late_levels e failureMode pend level mx oth g started fin w ts :
  (forall s, s ∈ concat pend -> shouldContinueOnError s failureMode = true) -> (oth < mx)%Z ->
  group_wait g = None -> Forall (fun p => p.2 = Returned) level ->
  exists st', rtc (wf_step e failureMode)
    {| wf_w := w; wf_exec := mkExec mx oth true pend level g started fin None; wf_threads := ts |} st' /\
    wf_w st' = w /\ ex_result (wf_exec st') = Some None /\ ex_parent_done (wf_exec st') = true.
Proof.
  revert level g started fin ts. induction pend as [|l pend IH]; intros level g started fin ts Hc Hlt Hg Hl.
  { eexists. split; [apply rtc_once, wf_next; cbn; unfold exec_next, ex_group_err; cbn; by rewrite decide_True, Hg|]. done. }
  destruct (late_level e failureMode l [] mx oth pend new_group started fin w ((fun _ => None) <$> start_level l))
    as (g' & s2 & f2 & ts' & Hg' & Hr).
  - intros s Hs. apply Hc. cbn. apply elem_of_app. by left.
  - done.
  - unfold start_level. by rewrite !length_fmap.
  - apply new_group_wait.
  - destruct (IH (returned_level l) g' s2 f2 ts') as (st' & Hr' & Hst); [|done|done|apply returned_all|].
    { intros s Hs. apply Hc. cbn. apply elem_of_app. by right. }
    exists st'. split; [|done]. eapply rtc_l; [apply wf_next; cbn; unfold exec_next, ex_group_err; cbn; by rewrite decide_True, Hg|].
    by etrans.
Qed.

Lemma wf_step_max e failureMode st st' :
  rtc (wf_step e failureMode) st st' -> ex_max (wf_exec st') = ex_max (wf_exec st).
Proof.
  induction 1 as [|st1 st2 st3 Hs _ IH]; [done|]. rewrite IH.
  assert (forall ev (ex ex' : exec_state group), exec_do failureMode ev ex = Some ex' -> ex_max ex' = ex_max ex) as Hm.
  { intros ev ex ex' Hd. apply (exec_run_max failureMode [ev]). cbn. by rewrite Hd. }
  destruct Hs; cbn [wf_exec]; try done; by eapply Hm.
Qed.

(** No goroutine of the executor runs, none has given up, and [executeDAG] has not returned. *)
Definition between_levels st : Prop :=
  Forall (fun p => p.2 = Returned) (ex_level (wf_exec st)) /\ ex_group_err (wf_exec st) = None /\
  ex_result (wf_exec st) = None.

(** From there, with the deadline passed, the executor may return without an error. *)
Lemma late_run_completes e failureMode steps st :
  execution e failureMode steps st -> Forall bounded steps -> between_levels st ->
  (0 < ex_max (wf_exec st))%Z ->
  (forall s, s ∈ steps -> shouldContinueOnError s failureMode = true) ->
  (exists st', rtc (wf_step e failureMode) st st' /\ wf_w st' = wf_w st /\
    ex_result (wf_exec st') = Some None /\ ex_parent_done (wf_exec st') = true) /\
  (forall s, s ∈ concat (ex_pending (wf_exec st)) -> wc_Steps (ww_ctx (wf_w st)) !! ws_ID s = None).
Proof.
  intros Hex Hb (Hl & Hg & Hres) Hmax Hc. destruct (execution_inv _ _ _ _ Hex Hb) as (levels & k & Hp & Hids & Hi & _).
  pose proof (wi_exec _ _ _ _ _ Hi) as He.
  assert (forall s, s ∈ concat (ex_pending (wf_exec st)) -> s ∈ concat levels) as Hin.
  { intros s. rewrite (ei_pending _ _ _ _ He). intros Hs. rewrite <- (take_drop k levels), concat_app, elem_of_app. auto. }
  split.
  - destruct (ei_slots _ _ _ _ He) as [Ho Hs]. unfold slots_used in Hs. rewrite (running_returned _ Hl) in Hs.
    destruct st as [w [mx oth pd pend level g started fin res] ts]. cbn in *. subst res.
    assert (exists oth', (oth' < mx)%Z /\ rtc (wf_step e failureMode)
      {| wf_w := w; wf_exec := mkExec mx oth pd pend level g started fin None; wf_threads := ts |}
      {| wf_w := w; wf_exec := mkExec mx oth' true pend level g started fin None; wf_threads := ts |}) as (oth' & Hlt & Hr).
    { destruct (Z.ltb_spec oth mx).
      - exists oth. split; [done|]. by apply rtc_once, (wf_environment _ _ ParentCancelled).
      - exists (oth - 1)%Z. split; [lia|]. eapply rtc_l; [by apply (wf_environment _ _ ParentCancelled)|].
        apply rtc_once, (wf_environment _ _ OthersRelease); [done|]. cbn. rewrite (proj2 (Z.ltb_lt _ _)) by lia. done. }
    destruct (late_levels e failureMode pend level mx oth' g started fin w ts) as (st' & Hr' & Hst); [|done..|].
    { intros s Hs'. apply Hc. rewrite <- Hp. auto. }
    exists st'. split; [by etrans|done].
  - intros s Hs. apply (wi_unstarted _ _ _ _ _ Hi s (Hin s Hs)). intros Hst.
    pose proof (ei_once _ _ _ _ He) as Hsub.
    assert (NoDup (ws_ID <$> (ex_started (wf_exec st) ++ waiting (ex_level (wf_exec st)) ++ concat (ex_pending (wf_exec st))))) as Hn.
    { apply submseteq_Permutation in Hsub as [rest Hperm]. rewrite Hperm, fmap_app in Hids. by apply NoDup_app in Hids as [? _]. }
    rewrite !fmap_app in Hn. apply NoDup_app in Hn as (_ & Hn & _). apply (Hn (ws_ID s)).
    + by apply list_elem_of_fmap_2.
    + apply elem_of_app. right. by apply list_elem_of_fmap_2.
Qed.

Context {RTok : RuntimeOk}.

(** What the end of a run without an error gives when no output is declared. *)
Lemma finish_completes e def workflowID startTime w : wd_Output def = None -> exists result w',
  runs run_exec (finishWorkflow e def workflowID startTime None) w result w' /\
  wr_Status result = WorkflowStatusCompleted /\ wr_Error result = None /\
  wr_Steps result = wc_Steps (ww_ctx w) /\ ww_sent w' = ww_sent w.
Proof.
  intros Eo. pose proof (finish_run_sound startTime true (finishWorkflow e def workflowID startTime None) w) as Hf.
  eexists _, _. split; [exact Hf|]. unfold finishWorkflow, end_run, save_final. rewrite Eo. cbn.
  destruct (we_stateStore e); cbn; [|done]. unfold save. by destruct (SaveState _ _ _ _).
Qed.

(** C37. A workflow that runs out of time can be reported as completed.  Take any workflow
    whose steps' failures are all passed over and that declares no output, and any
    execution of it, at a point where the goroutines of one level have returned (none
    after giving up its wait for a slot) and the next level has not begun.  The deadline
    may pass there, and yet the run may end as completed and without an error, with
    exactly the results and requests it had: the steps that had not begun have none. *)
Theorem timed_out_workflow_completes e def params startTime range others workflowID now now' store
    (ex : exec_state group) st :
  (forall m, range m ≡ₚ map_to_list m) ->
  executeDAG range (we_maxParallel e) others (wd_Steps def) = Some (inr ex) ->
  (0 <= others <= newDAGExecutor (we_maxParallel e))%Z ->
  rtc (wf_step e (wd_FailureMode def)) (wf_start (startWorkflow e def workflowID params now startTime now' store) ex) st ->
  Forall bounded (wd_Steps def) -> between_levels st -> wd_Output def = None ->
  (forall s, s ∈ wd_Steps def -> shouldContinueOnError s (wd_FailureMode def) = true) ->
  exists result w',
    ExecuteWorkflow (group:=group) (egroup:=egroup) e def params startTime true result w' /\
    wr_Status result = WorkflowStatusCompleted /\ wr_Error result = None /\
    wr_Steps result = wc_Steps (ww_ctx (wf_w st)) /\ ww_sent w' = ww_sent (wf_w st) /\
    forall s, s ∈ concat (ex_pending (wf_exec st)) -> wr_Steps result !! ws_ID s = None.
Proof.
  intros Ho Hst Hsl Hr Hb Hbt Eo Hc.
  destruct (start_world e def workflowID params now startTime now' store) as [Hu _].
  destruct (late_run_completes e (wd_FailureMode def) (wd_Steps def) st) as [(st' & Hr' & Ew & Er & Ed) Hnone]; [|done..| |done|].
  { by apply (execution_of _ _ _ _ range (we_maxParallel e) others ex _ Ho Hst Hsl Hu). }
  { rewrite (wf_step_max _ _ _ _ Hr). cbn. destruct (executeDAG_start _ _ _ _ _ Ho Hst Hsl) as (_ & _ & -> & _).
    apply newDAGExecutor_pos. }
  destruct (finish_completes e def workflowID startTime (wf_w st') Eo) as (result & w' & Hf & Hs & He & Hst' & Hsent).
  exists result, w'. rewrite Hst', Hsent, Ew. split; [|done].
  rewrite <- Ed. eapply (run_executed _ _ _ _ range others workflowID now now' store ex st' None); try done.
  by etrans.
Qed.
End late.

#[local] Existing Instances sample_runtime sample_runtime_ok.

Definition sample_definition (failureMode : string) (steps : list WorkflowStep) : WorkflowDefinition := {|
  wd_Name := "workflow"; wd_Description := ""; wd_Parameters := ∅; wd_Steps := steps;
  wd_Timeout := 0; wd_FailureMode := failureMode; wd_Output := None; wd_Annotations := None; wd_Metadata := ∅ |}.

(** A run of the events, and its result; [wf] is the identifier. *)
Definition sample_workflow_run (failureMode : string) (steps : list WorkflowStep) (evs : list wf_event)
    : option (wf_state (group:=option exec_error) (egroup:=option wf_error)) :=
  match executeDAG map_to_list 10 0 steps with
  | Some (inr ex) =>
      wf_run sample_engine failureMode evs
        (wf_start (startWorkflow sample_engine (sample_definition failureMode steps) "wf" None 1 2 3 (NewInMemoryStateStore 0 0)) ex)
  | _ => None
  end.

Definition sample_result (failureMode : string) (steps : list WorkflowStep) (evs : list wf_event) (deadline : bool)
    : option (WorkflowRunResult * wf_world) :=
  match sample_workflow_run failureMode steps evs with
  | Some st =>
      match ex_result (wf_exec st) with
      | Some r => Some (finish_run 20 deadline (finishWorkflow sample_engine (sample_definition failureMode steps) "wf" 2 (LevelFailed <$> r)) (wf_w st))
      | None => None
      end
  | None => None
  end.

Lemma sample_result_sound failureMode steps evs deadline st result w' :
  sample_workflow_run failureMode steps evs = Some st ->
  sample_result failureMode steps evs deadline = Some (result, w') ->
  ExecuteWorkflow (group:=option exec_error) (egroup:=option wf_error) sample_engine
    (sample_definition failureMode steps) None 2 (ex_parent_done (wf_exec st)) result w'.
Proof.
  unfold sample_result. intros Er. rewrite Er. unfold sample_workflow_run in Er.
  destruct (executeDAG _ _ _ _) as [[|ex]|] eqn:Ex; try done. destruct (ex_result (wf_exec st)) as [r|] eqn:Et; [|done].
  intros E. apply (run_executed _ _ _ _ map_to_list 0 "wf" 1 3 (NewInMemoryStateStore 0 0) ex st r);
    [done|exact Ex|vm_compute; by split|by eapply wf_run_sound|done|].
  apply (inj Some) in E. pose proof (finish_run_sound 20 deadline (finishWorkflow sample_engine
    (sample_definition failureMode steps) "wf" 2 (LevelFailed <$> r)) (wf_w st)) as Hf. by rewrite E in Hf.
Qed.

(** The run of [WorkflowSafety], to its end. *)
Definition whole_run : list wf_event := sample_events ++ [EvExec (Return 0); EvExec NextLevel].

(** Its first level. *)
Definition first_level : list wf_event := take 12 sample_events.

Lemma whole_run_result : exists st result w',
  sample_workflow_run "abort" sample_plan whole_run = Some st /\
  sample_result "abort" sample_plan whole_run false = Some (result, w') /\
  wr_Status result = WorkflowStatusCompleted /\ wr_WorkflowID result = "wf" /\
  wr_Output result = buildForEachOutput [iteration 0 (JNum 1) "completed" (Some [("ok", JBool true)]) "";
                                         iteration 1 (JNum 2) "completed" (Some [("ok", JBool true)]) ""] 2.
Proof. eexists _, _, _. split; [vm_compute; reflexivity|]. split; [vm_compute; reflexivity|]. vm_compute. auto. Qed.

Lemma workflow_result_faithful_witness : exists result w',
  wr_Status result = WorkflowStatusCompleted /\ wr_Error result = None /\
  (forall s, s ∈ sample_plan -> is_Some (wr_Steps result !! ws_ID s)) /\
  exists status, LoadState "wf" (ww_store w') = inr status /\ wst_Status status = WorkflowStatusCompleted.
Proof.
  destruct whole_run_result as (st & result & w' & Hr & Hres & Hs & Hid & _).
  pose proof (workflow_result_faithful sample_engine (sample_definition "abort" sample_plan) None 2 _ result w'
    (sample_result_sound _ _ _ _ _ _ _ Hr Hres) sample_bounded) as [H1 H2].
  clear Hr Hres.
  rewrite Hs in H1. destruct H1 as (He & _ & Hall). exists result, w'. split; [exact Hs|]. split; [exact He|]. split.
  - intros s Hin. specialize (Hall s Hin). destruct (wr_Steps result !! ws_ID s); [eauto|].
    destruct Hall as [Hc _]. repeat (apply elem_of_cons in Hin as [->|Hin]; [discriminate|]). by apply not_elem_of_nil in Hin.
  - rewrite Hid in H2. destruct (H2 eq_refl ltac:(discriminate)) as (status & Hl & E & _). exists status. rewrite E. auto.
Defined.

Lemma composite_call_reported_witness : exists result w',
  ExecuteWorkflow (group:=option exec_error) (egroup:=option wf_error) sample_engine
    (sample_definition "abort" sample_plan) None 2 false result w' /\
  tcr_StructuredContent (executeComposite (fun _ => inr "{}") (fun _ _ => returned (fun _ => false) (fun _ => "") result)
    (sample_definition "abort" sample_plan) None) = wr_Output result /\ is_Some (wr_Output result).
Proof.
  destruct whole_run_result as (st & result & w' & Hr & Hres & Hs & _ & Ho).
  pose proof (sample_result_sound _ _ _ _ _ _ _ Hr Hres) as Hrun.
  assert (ex_parent_done (wf_exec st) = false) as Hd by (vm_compute in Hr; injection Hr as <-; reflexivity).
  clear Hr Hres. rewrite Hd in Hrun. exists result, w'. split; [exact Hrun|].
  pose proof (composite_call_reported (fun _ => inr "{}") (fun _ => false) (fun _ => "") sample_engine
    (sample_definition "abort" sample_plan) None 2 false result w' Hrun sample_bounded) as H1.
  rewrite Hs in H1. destruct H1 as (_ & H1 & _). split; [exact H1|]. rewrite Ho. vm_compute. eauto.
Defined.

Lemma continue_mode s : shouldContinueOnError s "continue" = true.
Proof. unfold shouldContinueOnError. by destruct (ws_OnError s) as [h|]; [destruct (eh_ContinueOnError h)|]. Qed.

(** The deadline passes between the two levels of the sample: the first step has its
    result, the second has none. *)
Lemma timed_out_workflow_completes_witness : exists result w',
  ExecuteWorkflow (group:=option exec_error) (egroup:=option wf_error) sample_engine
    (sample_definition "continue" sample_plan) None 2 true result w' /\
  wr_Status result = WorkflowStatusCompleted /\ is_Some (wr_Steps result !! "fetch") /\
  wr_Steps result !! "each" = None /\ length (ww_sent w') = 1.
Proof.
  assert (exists ex st, executeDAG map_to_list 10 0 sample_plan = Some (inr ex) /\
    wf_run sample_engine "continue" first_level
      (wf_start (startWorkflow sample_engine (sample_definition "continue" sample_plan) "wf" None 1 2 3
        (NewInMemoryStateStore 0 0)) ex) = Some st /\
    between_levels st /\ is_Some (wc_Steps (ww_ctx (wf_w st)) !! "fetch") /\ length (ww_sent (wf_w st)) = 1 /\
    ex_pending (wf_exec st) = [[sample_each]]) as (ex & st & Hex & Hst & Hbt & Hf & Hl & Hp).
  { eexists _, _. split; [vm_compute; reflexivity|]. split; [vm_compute; reflexivity|].
    split; [vm_compute; repeat constructor|]. vm_compute. eauto. }
  destruct (timed_out_workflow_completes sample_engine (sample_definition "continue" sample_plan) None 2 map_to_list 0
    "wf" 1 3 (NewInMemoryStateStore 0 0) ex st) as (result & w' & Hx & Hs & _ & Est & Esent & Hnone);
    [intros m; apply Permutation_refl|exact Hex|split; vm_compute; discriminate|exact (wf_run_sound _ _ _ _ _ Hst)
    |exact sample_bounded|exact Hbt|reflexivity|intros s _; apply continue_mode|].
  clear Hex Hst. exists result, w'. rewrite Est, Esent. split; [exact Hx|]. split; [exact Hs|]. split; [exact Hf|].
  split; [|exact Hl]. rewrite <- Est. apply (Hnone sample_each). rewrite Hp. left.
Defined.
