(* ===== verification/Pagination.v ===== *)
(** * Pagination of lists
    ([pkg/vmcp/server/modern_pagination.go], [pkg/vmcp/internal/pagination/pagination.go])

    The server splits a list into pages and puts its position into the cursor; a client
    follows cursors until there are no more.  [Marshal] and [Unmarshal] are the functions
    of [encoding/json] for the cursor, with the round trip as their contract; the base64
    layer is modelled.  A client fetches pages one after the other, and the backend may
    answer differently every time, so the fetch function also gets the number of the
    request.  Logging is left out. *)

From Stdlib Require Import Ascii.
From stdpp Require Import sorting.
From S2P Require Import Prelude GoStrings Base64.

Definition modernPageSize : nat := 1000.
Definition modernCursorMaxLen : nat := 512.
Definition maxIterations : nat := 100 * 100.

(** ** The cursor *)
Record modernCursor := {
  mcur_Kind : string;
  mcur_LastKey : string;
  mcur_Delivered : Z;
}.

(** What is used of [encoding/json]: text that is valid UTF-8 survives the round trip. *)
Class CursorCodec (Marshal : modernCursor -> option string) (Unmarshal : string -> option modernCursor) : Prop :=
  codec_roundtrip : forall cur, ValidString (mcur_Kind cur) = true -> ValidString (mcur_LastKey cur) = true ->
    (0 <= mcur_Delivered cur <= MaxInt64)%Z ->
    exists payload, payload <> "" /\ Marshal cur = Some payload /\ Unmarshal payload = Some cur.

Inductive page_error := ErrInvalidCursor | ErrEncodingCursor.

Section server.
Context (Marshal : modernCursor -> option string) (Unmarshal : string -> option modernCursor).
Context {T : Type} (keyOf : T -> string).

Definition encodeModernCursor (kind lastKey : string) (delivered : Z) : option string :=
  EncodeToString <$>
    Marshal {| mcur_Kind := kind; mcur_LastKey := lastKey; mcur_Delivered := delivered |}.

Definition decodeModernCursor (wantKind cursor : string) : option (string * Z) :=
  if (modernCursorMaxLen <? String.length cursor)%nat then None
  else match DecodeString cursor with
  | None => None
  | Some raw =>
      match Unmarshal raw with
      | None => None
      | Some decoded =>
          if decide (mcur_Kind decoded <> wantKind \/ mcur_LastKey decoded = "" \/ (mcur_Delivered decoded < 0)%Z)
          then None
          else Some (mcur_LastKey decoded, mcur_Delivered decoded)
      end
  end.

(** [slices.BinarySearchFunc]: the interval shrinks with every step, so the length of the
    slice is enough fuel. *)
Fixpoint bsearch (fuel : nat) (x : list T) (target : string) (i j : nat) : nat :=
  match fuel with
  | 0 => i
  | S fuel =>
      if decide (i < j) then
        let h := (i + j) / 2 in
        match x !! h with
        | None => i
        | Some item =>
            if decide (String.le target (keyOf item)) then bsearch fuel x target i h
            else bsearch fuel x target (S h) j
        end
      else i
  end.

Definition BinarySearchFunc (x : list T) (target : string) : nat := bsearch (length x) x target 0 (length x).

(** How far the loop over the delivered copies gets. *)
Fixpoint skip_delivered (delivered : Z) (lastKey : string) (rest : list T) : nat :=
  if (delivered <=? 0)%Z then 0
  else match rest with
  | [] => 0
  | x :: rest => if decide (keyOf x = lastKey) then S (skip_delivered (delivered - 1) lastKey rest) else 0
  end.

(** The length of the run of [lastKey] at the front. *)
Fixpoint run (lastKey : string) (l : list T) : nat :=
  match l with
  | [] => 0
  | x :: l => if decide (keyOf x = lastKey) then S (run lastKey l) else 0
  end.

Definition sort_items (items : list T) : list T := merge_sort (fun a b => String.le (keyOf a) (keyOf b)) items.

(** Where the page starts, how many copies of the key of the cursor precede it, and that key. *)
Definition resume (sorted : list T) (kind cursor : string) : option (nat * nat * string) :=
  if decide (cursor = "") then Some (0, 0, "")
  else match decodeModernCursor kind cursor with
  | None => None
  | Some (lastKey, delivered) =>
      let start := BinarySearchFunc sorted lastKey in
      let carried := skip_delivered delivered lastKey (drop start sorted) in
      Some (start + carried, carried, lastKey)
  end.

Definition paginateModern (items : list T) (kind cursor : string) : page_error + (list T * string) :=
  let sorted := sort_items items in
  match resume sorted kind cursor with
  | None => inl ErrInvalidCursor
  | Some (start, carried, cursorKey) =>
      let stop := min (start + modernPageSize) (length sorted) in
      let page := take (stop - start) (drop start sorted) in
      if decide (stop = length sorted) then inr (page, "")
      else match last page with
      | None => inr (page, "")
      | Some item =>
          let lastKey := keyOf item in
          let delivered := run lastKey (reverse page) + (if decide (cursorKey = lastKey) then carried else 0) in
          match encodeModernCursor kind lastKey (Z.of_nat delivered) with
          | None => inl ErrEncodingCursor
          | Some next => inr (page, next)
          end
      end
  end.
End server.

(** ** The client *)
Inductive list_error (E : Type) :=
  | FetchFailed (e : E)
  | CursorRepeated (cursor : string)
  | TooManyPages.
Arguments FetchFailed {E} _.
Arguments CursorRepeated {E} _.
Arguments TooManyPages {E}.

Section client.
Context {E T : Type} (fetch : nat -> string -> E + (list T * string)).

(** [pages] more requests are allowed, [i] were made. *)
Fixpoint list_pages (pages i : nat) (cursor : string) (seen : gset string) (all : list T) : list_error E + list T :=
  match pages with
  | 0 => inl TooManyPages
  | S pages =>
      match fetch i cursor with
      | inl e => inl (FetchFailed e)
      | inr (items, next) =>
          let all := all ++ items in
          if decide (next = "") then inr all
          else if decide (next ∈ seen) then inl (CursorRepeated next)
          else list_pages pages (S i) next ({[next]} ∪ seen) all
      end
  end.

Definition ListAll : list_error E + list T := list_pages maxIterations 0 "" ∅ [].

(** The pages a client sees when it starts with request [i] at [cursor], and the cursors
    it is given. *)
Inductive follows : nat -> string -> list (list T) -> list string -> Prop :=
  | follows_last i cursor items : fetch i cursor = inr (items, "") -> follows i cursor [items] []
  | follows_more i cursor items next pages cursors :
      fetch i cursor = inr (items, next) -> next <> "" -> follows (S i) next pages cursors ->
      follows i cursor (items :: pages) (next :: cursors).

Lemma follows_inv i cursor items next ps cs :
  fetch i cursor = inr (items, next) -> follows i cursor ps cs ->
  (next = "" /\ ps = [items] /\ cs = []) \/
  (next <> "" /\ exists ps' cs', ps = items :: ps' /\ cs = next :: cs' /\ follows (S i) next ps' cs').
Proof. intros Ef Hf. inversion Hf as [? ? ? E'|? ? ? ? ? ? E' Hn Hf']; subst; rewrite Ef in E'; injection E'; naive_solver. Qed.

Lemma list_pages_spec pages i cursor seen all result :
  list_pages pages i cursor seen all = inr result <->
  exists ps cs, follows i cursor ps cs /\ result = all ++ concat ps /\ NoDup cs /\
    (forall c, c ∈ cs -> (c ∉ seen)) /\ length ps <= pages.
Proof.
  revert i cursor seen all. induction pages as [|pages IH]; intros i cursor seen all; cbn.
  { split; [done|]. intros (ps & cs & Hf & _ & _ & _ & Hl). destruct Hf; cbn in Hl; lia. }
  destruct (fetch i cursor) as [e|[items next]] eqn:Ef.
  { split; [done|]. intros (ps & cs & Hf & _). inversion Hf; congruence. }
  case_decide as Hn; [subst next|case_decide as Hs].
  - split.
    + intros [= <-]. exists [items], []. split_and!; [by constructor|cbn; by rewrite app_nil_r|constructor|set_solver|cbn; lia].
    + intros (ps & cs & Hf & -> & _). destruct (follows_inv _ _ _ _ _ _ Ef Hf) as [(_ & -> & ->)|[? _]]; [|done].
      cbn. by rewrite app_nil_r.
  - split; [done|]. intros (ps & cs & Hf & _ & _ & Hseen & _).
    destruct (follows_inv _ _ _ _ _ _ Ef Hf) as [[? _]|(_ & ps' & cs' & -> & -> & _)]; [done|].
    exfalso. eapply Hseen; [left|done].
  - rewrite IH. split.
    + intros (ps & cs & Hf & -> & Hnd & Hseen & Hl). exists (items :: ps), (next :: cs). split_and!.
      * by econstructor.
      * cbn. by rewrite app_assoc.
      * apply NoDup_cons. split; [|done]. intros Hin. specialize (Hseen _ Hin). set_solver.
      * intros c' [->|Hin]%elem_of_cons; [done|]. specialize (Hseen _ Hin). set_solver.
      * cbn. lia.
    + intros (ps & cs & Hf & -> & Hnd & Hseen & Hl).
      destruct (follows_inv _ _ _ _ _ _ Ef Hf) as [[? _]|(_ & ps' & cs' & -> & -> & Hf')]; [done|]. exists ps', cs'.
      apply NoDup_cons in Hnd as [Hnx Hnd]. cbn in Hl. split_and!; [done|cbn; by rewrite app_assoc|done| |lia].
      intros c' Hin. specialize (Hseen c' ltac:(by right)). set_solver.
Qed.

(** Listing from a backend is exact and always ends: whatever the backend answers,
    at most ten thousand requests are made, and the result is a list exactly when the
    cursors lead, without repeating, to a last page within that limit; it is then all
    the pages in order. *)
Theorem list_all_exact result :
  ListAll = inr result <->
  exists ps cs, follows 0 "" ps cs /\ result = concat ps /\ NoDup cs /\ length ps <= maxIterations.
Proof.
  unfold ListAll. rewrite list_pages_spec. cbn [app]. split.
  - intros (ps & cs & ? & ? & ? & _ & ?). eauto 10.
  - intros (ps & cs & ? & ? & ? & ?). exists ps, cs. split_and!; done.
Qed.
End client.

(** ** Sorted lists *)
Section sorted.
Context {T : Type} (keyOf : T -> string).
Implicit Types (s : list T).

(** The keys do not decrease. *)
Definition keys_sorted s : Prop :=
  forall i j x y, i <= j -> s !! i = Some x -> s !! j = Some y -> String.le (keyOf x) (keyOf y).

Lemma sort_items_sorted items : keys_sorted (sort_items keyOf items).
Proof.
  pose proof (StronglySorted_by keyOf items) as Hs. fold (sort_items keyOf items) in Hs. revert Hs.
  generalize (sort_items keyOf items). intros s. induction s as [|a s IH]; intros Hs i j x y Hij Hi Hj; [done|].
  cbn in Hs. apply StronglySorted_inv in Hs as [Hs Ha]. rewrite Forall_forall in Ha.
  destruct i as [|i], j as [|j]; try lia; cbn in Hi, Hj; simplify_eq.
  - reflexivity.
  - apply Ha, list_elem_of_fmap. exists y. split; [done|]. by eapply list_elem_of_lookup_2.
  - eapply IH; [done| |exact Hi|exact Hj]. lia.
Qed.

(** The index of the first key that is at least [target]. *)
Definition lower_bound s (target : string) (n : nat) : Prop :=
  n <= length s /\ (forall i x, i < n -> s !! i = Some x -> ~ String.le target (keyOf x)) /\
  (forall i x, n <= i -> s !! i = Some x -> String.le target (keyOf x)).

Lemma lower_bound_unique s target n m : lower_bound s target n -> lower_bound s target m -> n = m.
Proof.
  assert (forall n m, lower_bound s target n -> lower_bound s target m -> n < m -> False) as Hlt.
  { intros n' m' (_ & _ & H1) (Hl & H2 & _) Hnm. destruct (lookup_lt_is_Some_2 s n') as [x Hx]; [lia|].
    eapply H2; [exact Hnm|exact Hx|]. by eapply H1. }
  intros Hn Hm. destruct (Nat.lt_trichotomy n m) as [?|[?|?]]; [exfalso; eauto|done|exfalso; eauto].
Qed.

Lemma bsearch_spec fuel s target i j :
  keys_sorted s -> i <= j <= length s -> j - i <= fuel ->
  (forall k x, k < i -> s !! k = Some x -> ~ String.le target (keyOf x)) ->
  (forall k x, j <= k -> s !! k = Some x -> String.le target (keyOf x)) ->
  lower_bound s target (bsearch keyOf fuel s target i j).
Proof.
  intros Hs. revert i j. induction fuel as [|fuel IH]; intros i j Hij Hf Hlo Hhi; cbn [bsearch].
  { assert (i = j) as -> by lia. split; [lia|]. auto. }
  case_decide as Hlt; [|assert (i = j) as -> by lia; split; [lia|]; auto].
  assert (i <= (i + j) / 2 < j) as Hh.
  { split; [apply Nat.div_le_lower_bound|apply Nat.Div0.div_lt_upper_bound]; lia. }
  destruct (lookup_lt_is_Some_2 s ((i + j) / 2)) as [x Hx]; [lia|]. rewrite Hx. case_decide as Hle.
  - apply IH; [lia|lia|done|]. intros k y Hk Hy. transitivity (keyOf x); [done|]. by eapply Hs.
  - apply IH; [lia|lia| |done]. intros k y Hk Hy Hc. apply Hle. transitivity (keyOf y); [done|].
    eapply Hs; [|exact Hy|exact Hx]. lia.
Qed.

Lemma BinarySearchFunc_spec s target : keys_sorted s -> lower_bound s target (BinarySearchFunc keyOf s target).
Proof.
  intros Hs. apply bsearch_spec; [done|lia|lia|lia|]. intros k x Hk Hx. apply lookup_lt_Some in Hx. lia.
Qed.

(** ** Runs of a key *)
Lemma skip_delivered_spec (d : nat) key l1 l2 :
  (forall x, x ∈ l1 -> keyOf x = key) -> d = length l1 ->
  skip_delivered keyOf (Z.of_nat d) key (l1 ++ l2) = length l1.
Proof.
  revert d. induction l1 as [|x l1 IH]; intros d Hk ->; cbn [length app].
  - by destruct l2.
  - cbn [skip_delivered]. rewrite (proj2 (Z.leb_gt _ _)) by lia. rewrite decide_True by (apply Hk; left).
    f_equal. replace (Z.of_nat (S (length l1)) - 1)%Z with (Z.of_nat (length l1)) by lia.
    apply IH; [|done]. intros y Hy. apply Hk. by right.
Qed.

Lemma run_app key l1 l2 :
  (forall x, x ∈ l1 -> keyOf x = key) -> (forall x, head l2 = Some x -> keyOf x <> key) ->
  run keyOf key (l1 ++ l2) = length l1.
Proof.
  intros H1 H2. induction l1 as [|x l1 IH]; cbn.
  - destruct l2 as [|y l2]; [done|]. cbn. by rewrite decide_False by (by apply H2).
  - rewrite decide_True by (apply H1; left). f_equal. apply IH. intros y Hy. apply H1. by right.
Qed.
(** ** Lists without repeated keys *)
Definition count (key : string) (l : list T) : nat := length (filter (fun x => keyOf x = key) l).

Lemma count_unique key l :
  NoDup (keyOf <$> l) -> count key l = if decide (key ∈ keyOf <$> l) then 1 else 0.
Proof.
  unfold count. induction l as [|x l IH]; intros Hn; [done|]. cbn [fmap list_fmap] in *. apply NoDup_cons in Hn as [Hx Hn].
  rewrite filter_cons. destruct (decide (keyOf x = key)) as [<-|Hne].
  - rewrite decide_True by left. cbn. rewrite IH, decide_False by done. done.
  - rewrite IH by done. repeat case_decide; set_solver.
Qed.

Lemma count_app key l1 l2 : count key (l1 ++ l2) = count key l1 + count key l2.
Proof. unfold count. by rewrite filter_app, length_app. Qed.

Lemma unique_index s i j x y :
  NoDup (keyOf <$> s) -> s !! i = Some x -> s !! j = Some y -> keyOf x = keyOf y -> i = j.
Proof.
  intros Hn Hx Hy E. eapply (NoDup_lookup (keyOf <$> s)); [done|by rewrite list_lookup_fmap, Hx|].
  rewrite list_lookup_fmap, Hy. cbn. congruence.
Qed.

Lemma le_before s l f i x :
  lower_bound s l f -> s !! i = Some x -> keyOf x <> l -> String.le (keyOf x) l <-> i < f.
Proof.
  intros (_ & Hlo & Hhi) Hx Hxl. split.
  - intros Hle. destruct (decide (i < f)); [done|]. destruct Hxl. apply (anti_symm String.le); [done|].
    eapply Hhi; [|exact Hx]. lia.
  - intros Hi. destruct (total String.le (keyOf x) l); [done|]. by destruct (Hlo i x).
Qed.

Lemma skip_copy s l f y d :
  NoDup (keyOf <$> s) -> s !! f = Some y -> keyOf y = l -> (0 < d)%Z -> skip_delivered keyOf d l (drop f s) = 1.
Proof.
  intros Hn Ey Hy Hd. rewrite (drop_S _ _ _ Ey). cbn [skip_delivered].
  rewrite (proj2 (Z.leb_gt _ _)), decide_True by (done || lia). f_equal.
  destruct (drop (S f) s) as [|z r] eqn:Er; cbn [skip_delivered]; [by destruct (_ <=? _)%Z|].
  destruct (_ <=? _)%Z; [done|]. rewrite decide_False; [done|]. intros Hz.
  assert (s !! S f = Some z) as Hz' by (rewrite <- (Nat.add_0_r (S f)), <- lookup_drop, Er; done).
  assert (f = S f); [|lia]. eapply unique_index; [exact Hn|exact Ey|exact Hz'|congruence].
Qed.

(** What is skipped is exactly the keys up to the one of the cursor. *)
Lemma skip_unique s l f d i x :
  keys_sorted s -> NoDup (keyOf <$> s) -> lower_bound s l f -> (0 < d)%Z -> s !! i = Some x ->
  String.le (keyOf x) l <-> i < f + skip_delivered keyOf d l (drop f s).
Proof.
  intros Hs Hn Hf Hd Hx.
  assert ((exists y, s !! f = Some y /\ keyOf y = l) \/
    ((forall j y, s !! j = Some y -> keyOf y <> l) /\ skip_delivered keyOf d l (drop f s) = 0)) as [(y & Ey & Hy)|[Hno ->]].
  { destruct (s !! f) as [y|] eqn:Ey; [destruct (decide (keyOf y = l)) as [Hy|Hy]; [eauto|]|]; right; split.
    - intros j z Hz Hzl. destruct Hf as (_ & Hlo & Hhi). destruct (decide (j < f)) as [Hj|Hj].
      { eapply Hlo; [exact Hj|exact Hz|by rewrite Hzl]. }
      apply Hy, (anti_symm String.le); [rewrite <- Hzl; eapply Hs; [|exact Ey|exact Hz]; lia|].
      eapply Hhi; [|exact Ey]. lia.
    - rewrite (drop_S _ _ _ Ey). cbn [skip_delivered]. by rewrite (proj2 (Z.leb_gt _ _)), decide_False.
    - intros j z Hz Hzl. destruct Hf as (_ & Hlo & _). apply lookup_ge_None in Ey.
      apply lookup_lt_Some in Hz as Hj. eapply (Hlo j z); [lia|exact Hz|by rewrite Hzl].
    - apply lookup_ge_None in Ey. rewrite drop_ge by done. cbn. by destruct (_ <=? _)%Z. }
  - rewrite (skip_copy s l f y d) by done. destruct (decide (keyOf x = l)) as [Hxl|Hxl].
    + assert (i = f) as ->; [eapply unique_index; [exact Hn|exact Hx|exact Ey|congruence]|]. rewrite Hxl. split; [lia|reflexivity].
    + rewrite (le_before s l f i x) by done. assert (i <> f) by congruence. lia.
  - rewrite Nat.add_0_r. eapply le_before; [done|exact Hx|]. by eapply Hno.
Qed.
End sorted.

(** ** The walk of a client over the pages of the server *)
Section walk.
Context (Marshal : modernCursor -> option string) (Unmarshal : string -> option modernCursor).
Context `{!CursorCodec Marshal Unmarshal} {T : Type} (keyOf : T -> string) (kind : string).
Implicit Types (s items : list T).
Local Abbreviation encode := (encodeModernCursor Marshal kind).
Local Abbreviation decode := (decodeModernCursor Unmarshal kind).
Local Abbreviation keys_sorted := (keys_sorted keyOf).
Local Abbreviation lower_bound := (lower_bound keyOf).

(** Every position of the list fits into a cursor: keys are valid text and not empty,
    and no token is longer than what the server accepts. *)
Record encodable items : Prop := {
  enc_kind : ValidString kind = true;
  enc_key : forall x, x ∈ items -> keyOf x <> "" /\ ValidString (keyOf x) = true;
  enc_len : forall x d token, x ∈ items -> (0 < d <= Z.of_nat (length items))%Z ->
    encode (keyOf x) d = Some token -> String.length token <= modernCursorMaxLen;
  enc_size : (Z.of_nat (length items) <= MaxInt64)%Z;
}.

Lemma encode_decode items x d :
  encodable items -> x ∈ items -> (0 < d <= Z.of_nat (length items))%Z ->
  exists token, encode (keyOf x) d = Some token /\ token <> "" /\ decode token = Some (keyOf x, d).
Proof using CursorCodec0.
  intros [Hk Hx Hl Hsz] Hin Hd. destruct (Hx x Hin) as [Hne Hv].
  destruct (codec_roundtrip {| mcur_Kind := kind; mcur_LastKey := keyOf x; mcur_Delivered := d |}) as (payload & Hp & Hm & Hu);
    [done|done|cbn; lia|].
  exists (EncodeToString payload). unfold encodeModernCursor. rewrite Hm. split; [done|].
  assert (String.length (EncodeToString payload) <= modernCursorMaxLen) as Hlen.
  { eapply Hl; [exact Hin|exact Hd|]. unfold encodeModernCursor. by rewrite Hm. }
  split; [by intros ?%EncodeToString_nil|]. unfold decodeModernCursor.
  rewrite (proj2 (Nat.ltb_ge _ _)) by done. rewrite base64_roundtrip, Hu. cbn. rewrite decide_False; [done|].
  intros [?|[?|?]]; [done|done|lia].
Qed.

(** The cursor stands at position [p]: it names the key before it, and how many copies of
    this key come before it. *)
Definition token_at s (p : nat) (c : string) : Prop :=
  c <> "" /\ exists x f, 0 < p /\ s !! (p - 1) = Some x /\ lower_bound s (keyOf x) f /\
    decode c = Some (keyOf x, Z.of_nat (p - f)).

Lemma lower_bound_before s x p f :
  0 < p -> s !! (p - 1) = Some x -> lower_bound s (keyOf x) f -> f < p.
Proof using.
  intros Hp Hx (_ & Hf & _). destruct (decide (f < p)); [done|]. exfalso.
  apply (Hf (p - 1) x); [lia|done|reflexivity].
Qed.

Lemma run_keys s x p f i y :
  keys_sorted s -> s !! (p - 1) = Some x -> lower_bound s (keyOf x) f ->
  f <= i < p -> s !! i = Some y -> keyOf y = keyOf x.
Proof using.
  intros Hs Hx (_ & _ & Hf) Hi Hy. apply (anti_symm String.le).
  - eapply Hs; [|exact Hy|exact Hx]. lia.
  - by eapply Hf; [|exact Hy]; lia.
Qed.

Lemma token_at_inj s p q c : token_at s p c -> token_at s q c -> p = q.
Proof using.
  intros (_ & x & f & Hp & Hx & Hf & Ed) (_ & y & g & Hq & Hy & Hg & Ed'). rewrite Ed in Ed'. injection Ed' as Ek E.
  pose proof (lower_bound_before _ _ _ _ Hp Hx Hf). pose proof (lower_bound_before _ _ _ _ Hq Hy Hg).
  rewrite <- Ek in Hg. assert (f = g) as <- by (by eapply lower_bound_unique). lia.
Qed.

(** Where the server resumes. *)
Definition resumes s (p carried : nat) (cursorKey : string) : Prop :=
  (p = 0 /\ carried = 0) \/
  (exists x f, 0 < p /\ s !! (p - 1) = Some x /\ keyOf x = cursorKey /\ lower_bound s cursorKey f /\ carried = p - f).

Lemma resume_at s p c :
  keys_sorted s -> (p = 0 /\ c = "") \/ token_at s p c ->
  exists carried cursorKey, resume Unmarshal keyOf s kind c = Some (p, carried, cursorKey) /\
    resumes s p carried cursorKey.
Proof using.
  intros Hs [[-> ->]|(Hne & x & f & Hp & Hx & Hf & Ed)]; unfold resume.
  { rewrite decide_True by done. exists 0, "". split; [done|]. by left. }
  rewrite decide_False by done. rewrite Ed.
  assert (BinarySearchFunc keyOf s (keyOf x) = f) as ->
    by (eapply lower_bound_unique; [by apply BinarySearchFunc_spec|done]).
  pose proof (lower_bound_before _ _ _ _ Hp Hx Hf) as Hlt. pose proof (lookup_lt_Some _ _ _ Hx).
  assert (skip_delivered keyOf (Z.of_nat (p - f)) (keyOf x) (drop f s) = p - f) as ->.
  { rewrite <- (take_drop (p - f) (drop f s)). rewrite skip_delivered_spec.
    - rewrite length_take, length_drop. lia.
    - intros y [i Hi]%list_elem_of_lookup. apply lookup_take_Some in Hi as [Hi Hlt'].
      rewrite lookup_drop in Hi. eapply run_keys; [done|exact Hx|exact Hf| |exact Hi]. lia.
    - rewrite length_take, length_drop. lia. }
  exists (p - f), (keyOf x). split; [by replace (f + (p - f)) with p by lia|]. right. exists x, f. done.
Qed.

(** How many copies of its last key a page ends with. *)
Lemma page_run s p q x f :
  keys_sorted s -> p < q -> s !! (q - 1) = Some x -> lower_bound s (keyOf x) f ->
  run keyOf (keyOf x) (reverse (take (q - p) (drop p s))) = q - max p f.
Proof using.
  intros Hs Hpq Hx Hf. assert (f < q) as Hlt by (eapply lower_bound_before; [|exact Hx|exact Hf]; lia).
  pose proof (lookup_lt_Some _ _ _ Hx). set (m := max p f).
  replace (take (q - p) (drop p s)) with (take (m - p) (drop p s) ++ take (q - m) (drop m s)).
  2:{ replace (q - p) with ((m - p) + (q - m)) by lia. rewrite <- take_take_drop, drop_drop. do 3 f_equal. lia. }
  rewrite reverse_app, run_app.
  - rewrite length_reverse, length_take, length_drop. lia.
  - intros y Hy. rewrite elem_of_reverse in Hy. apply list_elem_of_lookup in Hy as [i Hi].
    apply lookup_take_Some in Hi as [Hi ?]. rewrite lookup_drop in Hi. eapply run_keys; [done|exact Hx|exact Hf| |exact Hi]. lia.
  - intros y. rewrite head_reverse, last_lookup, length_take, length_drop. intros Hy.
    apply lookup_take_Some in Hy as [Hy Hi]. rewrite lookup_drop in Hy. destruct Hf as (_ & Hf & _).
    intros Ek. eapply (Hf _ y); [|exact Hy|by rewrite Ek]. subst m. lia.
Qed.

Lemma pageSize_pos : 0 < modernPageSize.
Proof using. unfold modernPageSize. lia. Qed.

Lemma sort_items_elem items x : x ∈ sort_items keyOf items -> x ∈ items.
Proof using. unfold sort_items. by rewrite merge_sort_Permutation. Qed.

Lemma sort_items_length items : length (sort_items keyOf items) = length items.
Proof using. unfold sort_items. by rewrite merge_sort_Permutation. Qed.

Lemma delivered_count s p q carried cursorKey x f :
  keys_sorted s -> p < q -> s !! (q - 1) = Some x -> lower_bound s (keyOf x) f ->
  resumes s p carried cursorKey ->
  run keyOf (keyOf x) (reverse (take (q - p) (drop p s))) + (if decide (cursorKey = keyOf x) then carried else 0) = q - f.
Proof using.
  intros Hs Hpq Hx Hf Hr. rewrite (page_run s p q x f) by done.
  assert (f < q) by (eapply lower_bound_before; [|exact Hx|exact Hf]; lia).
  destruct Hr as [[-> ->]|(y & g & Hp & Hy & <- & Hg & ->)]; [case_decide; lia|].
  assert (g < p) by (eapply lower_bound_before; [|exact Hy|exact Hg]; lia).
  case_decide as E.
  - rewrite E in Hg. assert (f = g) as -> by (by eapply lower_bound_unique). lia.
  - assert (p <= f); [|lia]. destruct (decide (p <= f)); [done|]. exfalso. apply E.
    eapply run_keys; [done|exact Hx|exact Hf| |exact Hy]. lia.
Qed.

Lemma paginate_at items p c :
  encodable items -> p <= length items ->
  (p = 0 /\ c = "") \/ token_at (sort_items keyOf items) p c ->
  let s := sort_items keyOf items in
  if decide (length s <= p + modernPageSize) then
    paginateModern Marshal Unmarshal keyOf items kind c = inr (drop p s, "")
  else exists c', paginateModern Marshal Unmarshal keyOf items kind c = inr (take modernPageSize (drop p s), c') /\
    token_at s (p + modernPageSize) c'.
Proof using CursorCodec0.
  intros He Hp Hpos s. pose proof (sort_items_sorted keyOf items) as Hs. pose proof pageSize_pos as HP.
  pose proof (sort_items_length items) as Hlen. fold s in Hs, Hlen, Hpos.
  destruct (resume_at s p c Hs Hpos) as (carried & ck & Er & Hr). unfold paginateModern. fold s. rewrite Er.
  case_decide as Hl.
  - rewrite Nat.min_r by done. rewrite decide_True by done. rewrite take_ge; [done|]. by rewrite length_drop.
  - rewrite Nat.min_l by lia. rewrite decide_False by lia.
    set (q := p + modernPageSize). replace (q - p) with modernPageSize by lia.
    destruct (lookup_lt_is_Some_2 s (q - 1)) as [x Hx]; [lia|].
    assert (last (take modernPageSize (drop p s)) = Some x) as ->.
    { rewrite last_lookup, length_take, length_drop, Nat.min_l by lia. rewrite lookup_take_lt by lia.
      rewrite lookup_drop. replace (p + pred modernPageSize) with (q - 1) by lia. done. }
    pose proof (BinarySearchFunc_spec keyOf s (keyOf x) Hs) as Hf.
    pose proof (delivered_count s p q carried ck x _ Hs ltac:(lia) Hx Hf Hr) as Hd.
    replace (q - p) with modernPageSize in Hd by lia. rewrite Hd.
    assert (BinarySearchFunc keyOf s (keyOf x) < q) by (eapply lower_bound_before; [|exact Hx|exact Hf]; lia).
    destruct (encode_decode items x (Z.of_nat (q - BinarySearchFunc keyOf s (keyOf x))) He) as (token & Et & Hne & Ed).
    { by eapply sort_items_elem, list_elem_of_lookup_2. }
    { apply lookup_lt_Some in Hx. lia. }
    rewrite Et. exists token. split; [done|]. split; [done|]. exists x. eexists. split_and!; [lia|exact Hx|exact Hf|exact Ed].
Qed.

Lemma walk_from items n i p c :
  encodable items -> let s := sort_items keyOf items in
  length s - p <= n -> p <= length s -> (p = 0 /\ c = "") \/ token_at s p c ->
  exists ps cs, follows (fun _ c => paginateModern Marshal Unmarshal keyOf items kind c) i c ps cs /\
    concat ps = drop p s /\ (length ps - 1) * modernPageSize <= length s - p - 1 /\
    NoDup cs /\ forall c', c' ∈ cs -> exists q, p < q /\ token_at s q c'.
Proof using CursorCodec0.
  intros He s. pose proof pageSize_pos as HP. pose proof (sort_items_length items) as Hlen. fold s in Hlen.
  revert i p c. induction n as [n IH] using lt_wf_ind; intros i p c Hn Hp Hpos.
  pose proof (paginate_at items p c He ltac:(lia) Hpos) as Hpage. cbn zeta in Hpage. fold s in Hpage. case_decide as Hl.
  - exists [drop p s], []. split_and!; [by constructor|cbn; by rewrite app_nil_r|cbn; lia|constructor|set_solver].
  - destruct Hpage as (c' & Ep & Ht). destruct (IH (n - modernPageSize) ltac:(lia) (S i) (p + modernPageSize) c')
      as (ps & cs & Hf & Hc & Hcount & Hnd & Hcs); [lia|lia|by right|].
    exists (take modernPageSize (drop p s) :: ps), (c' :: cs). split_and!.
    + econstructor; [exact Ep|by destruct Ht|exact Hf].
    + cbn. rewrite Hc, <- drop_drop. apply take_drop.
    + destruct ps as [|p0 ps]; [by inversion Hf|]. cbn [length] in *. nia.
    + apply NoDup_cons. split; [|done]. intros (q & Hq & Ht')%Hcs.
      pose proof (token_at_inj s _ _ _ Ht Ht'). lia.
    + intros c'' [->|(q & Hq & Hq')%Hcs]%elem_of_cons; [exists (p + modernPageSize)|exists q]; split; (done || lia).
Qed.

Lemma pages_bound n len :
  (n - 1) * modernPageSize <= len - 0 - 1 -> len <= maxIterations * modernPageSize -> n <= maxIterations.
Proof using.
  intros Hn Hl. assert (0 < maxIterations * modernPageSize) by (apply Nat.mul_pos_pos; unfold maxIterations, modernPageSize; lia).
  destruct (le_lt_dec n maxIterations) as [|Hlt]; [done|].
  assert (maxIterations * modernPageSize <= (n - 1) * modernPageSize) by (apply Nat.mul_le_mono_r; lia). lia.
Qed.

Local Opaque maxIterations modernPageSize.

(** C26. A client that follows the cursors gets everything, and stops.  For any list of at
    most ten million items whose keys are not empty, are valid UTF-8 and give cursors of at
    most 512 bytes, with or without repeated keys, and as long as the list stays the same, a
    client that keeps asking for the next page receives every item exactly once, in the
    order of the keys, never sees a cursor twice, and comes to the last page. *)
Theorem pagination_delivers_all items :
  encodable items -> length items <= maxIterations * modernPageSize ->
  exists all, ListAll (fun _ c => paginateModern Marshal Unmarshal keyOf items kind c) = inr all /\
    all ≡ₚ items /\ keys_sorted all.
Proof using CursorCodec0.
  intros He Hlen. pose proof pageSize_pos as HP. pose proof (sort_items_length items) as Hl.
  destruct (walk_from items _ 0 0 "" He (Nat.le_refl _) ltac:(lia)) as (ps & cs & Hf & Hc & Hcount & Hnd & Hcs); [by left|].
  exists (sort_items keyOf items). split_and!.
  - unfold ListAll. apply list_pages_spec. exists ps, cs. split_and!; [done|by rewrite Hc|done|set_solver|].
    rewrite Hl in Hcount. eapply pages_bound; [exact Hcount|exact Hlen].
  - apply merge_sort_Permutation.
  - apply sort_items_sorted.
Qed.

(** ** A list that changes between the pages *)

(** What the client has passed: nothing, or all keys up to one. *)
Definition passed (pos : option string) (key : string) : Prop :=
  match pos with None => False | Some l => String.le key l end.

#[local] Instance passed_dec pos key : Decision (passed pos key).
Proof. destruct pos; apply _. Defined.

Definition cursor_at (pos : option string) (c : string) : Prop :=
  match pos with
  | None => c = ""
  | Some l => c <> "" /\ exists d, (0 < d)%Z /\ decode c = Some (l, d)
  end.

(** The server resumes right after what was passed. *)
Lemma resume_unique s pos c :
  keys_sorted s -> NoDup (keyOf <$> s) -> cursor_at pos c ->
  exists n carried ck, resume Unmarshal keyOf s kind c = Some (n, carried, ck) /\
    (carried = 0 \/ pos = Some ck) /\ forall i x, s !! i = Some x -> passed pos (keyOf x) <-> i < n.
Proof using.
  intros Hs Hn Hc. destruct pos as [l|]; cbn in Hc; unfold resume.
  - destruct Hc as (Hne & d & Hd & Ed). rewrite decide_False by done. rewrite Ed.
    do 3 eexists. split; [done|]. split; [by right|]. intros i x Hx. eapply skip_unique; [done|done|by apply BinarySearchFunc_spec|done|done].
  - subst c. rewrite decide_True by done. exists 0, 0, "". split; [done|]. split; [by left|]. intros i x _. cbn. split; [done|lia].
Qed.

(** The positions of a page. *)
Lemma segment_elem s n m key :
  key ∈ keyOf <$> take (m - n) (drop n s) <-> exists j x, n <= j < m /\ s !! j = Some x /\ keyOf x = key.
Proof using.
  rewrite list_elem_of_fmap. split.
  - intros (x & -> & [i Hi]%list_elem_of_lookup). apply lookup_take_Some in Hi as [Hi ?]. rewrite lookup_drop in Hi.
    exists (n + i), x. split; [lia|done].
  - intros (j & x & Hj & Hx & <-). exists x. split; [done|]. apply list_elem_of_lookup. exists (j - n).
    rewrite lookup_take_lt by lia. rewrite lookup_drop. by replace (n + (j - n)) with j by lia.
Qed.

Lemma run_reverse_pos l x : last l = Some x -> 0 < run keyOf (keyOf x) (reverse l) <= length l.
Proof using.
  intros Hl. apply last_Some in Hl as [l' ->]. rewrite reverse_snoc. cbn [run]. rewrite decide_True by done.
  rewrite length_app, <- (length_reverse l'). cbn [length]. generalize (reverse l'). intros r.
  assert (run keyOf (keyOf x) r <= length r); [|lia]. induction r as [|y r IH]; cbn; [done|]. case_decide; lia.
Qed.

Definition items_between items (pos : option string) (stop : string -> Prop) (page : list T) : Prop :=
  forall key, key ∈ keyOf <$> items -> key ∈ keyOf <$> page <-> ~ passed pos key /\ stop key.

(** A page delivers what follows, up to a key; when there is no next page, everything. *)
Lemma page_unique items pos c page next :
  encodable items -> NoDup (keyOf <$> items) -> cursor_at pos c ->
  paginateModern Marshal Unmarshal keyOf items kind c = inr (page, next) ->
  NoDup (keyOf <$> page) /\
  ((next = "" /\ items_between items pos (fun _ => True) page) \/
   (next <> "" /\ exists l, cursor_at (Some l) next /\ (forall key, passed pos key -> String.le key l) /\
      items_between items pos (fun key => String.le key l) page)).
Proof using CursorCodec0.
  intros He Hn Hc. unfold paginateModern. set (s := sort_items keyOf items).
  assert (s ≡ₚ items) as Hperm by apply merge_sort_Permutation.
  pose proof (sort_items_sorted keyOf items) as Hs. fold s in Hs.
  assert (NoDup (keyOf <$> s)) as Hns by (by rewrite Hperm).
  destruct (resume_unique s pos c Hs Hns Hc) as (n & carried & ck & Er & Hck & Hpass). rewrite Er.
  set (stop := min (n + modernPageSize) (length s)). set (pg := take (stop - n) (drop n s)).
  assert (NoDup (keyOf <$> pg)) as Hnp.
  { eapply sublist_NoDup; [exact Hns|]. apply fmap_sublist. etransitivity; [apply sublist_take|apply sublist_drop]. }
  assert (forall key (P : string -> Prop), (forall j x, n <= j -> s !! j = Some x -> j < stop <-> P (keyOf x)) ->
    key ∈ keyOf <$> items -> key ∈ keyOf <$> pg <-> ~ passed pos key /\ P key) as Hpg.
  { intros key P HP Hin. rewrite <- Hperm in Hin. apply list_elem_of_fmap in Hin as (x & -> & [j Hj]%list_elem_of_lookup).
    unfold pg. rewrite segment_elem, (Hpass j x Hj), Nat.nlt_ge. split.
    - intros (j' & x' & Hj' & Hx' & E). assert (j' = j) as -> by (eapply unique_index; [exact Hns|exact Hx'|exact Hj|exact E]).
      split; [lia|]. eapply HP; [|exact Hj|]; lia.
    - intros [? Hp]. exists j, x. split_and!; [done|by apply (HP j x)|done|done]. }
  case_decide as Hstop.
  { intros [= <- <-]. split; [done|]. left. split; [done|]. intros key. apply (Hpg key (fun _ => True)).
    intros j x _ Hx. apply lookup_lt_Some in Hx. split; [done|intros _; lia]. }
  assert (stop = n + modernPageSize /\ stop < length s) as [Es Hlt] by (unfold stop in *; lia). pose proof pageSize_pos as HP.
  destruct (lookup_lt_is_Some_2 s (stop - 1)) as [x Hx]; [lia|].
  assert (last pg = Some x) as Hlast.
  { unfold pg. rewrite last_lookup, length_take, length_drop, Nat.min_l by lia. rewrite lookup_take_lt by lia.
    rewrite lookup_drop. replace (n + pred (stop - n)) with (stop - 1) by lia. done. }
  rewrite Hlast. assert (~ passed pos (keyOf x)) as Hnx by (rewrite (Hpass _ _ Hx); lia).
  pose proof (run_reverse_pos pg x Hlast) as Hrun.
  assert ((if decide (ck = keyOf x) then carried else 0) = 0) as ->.
  { case_decide as E; [|done]. destruct Hck as [->| ->]; [done|]. destruct Hnx. cbn. by rewrite E. }
  destruct (encode_decode items x (Z.of_nat (run keyOf (keyOf x) (reverse pg) + 0)) He) as (token & Et & Hne & Ed).
  { rewrite <- Hperm. by eapply list_elem_of_lookup_2. }
  { assert (length pg <= length items); [|lia]. rewrite <- (Permutation_length Hperm). unfold pg. rewrite length_take, length_drop. lia. }
  rewrite Et. intros [= <- <-]. split; [done|]. right. split; [done|]. exists (keyOf x). split_and!.
  - split; [done|]. eexists. split; [|exact Ed]. lia.
  - intros key Hkey. destruct (total String.le key (keyOf x)) as [|Hle]; [done|]. destruct Hnx.
    destruct pos as [l0|]; [|done]. cbn in *. by transitivity key.
  - intros key. apply (Hpg key (fun key => String.le key (keyOf x))). intros j y Hj Hy. split.
    + intros Hlt'. eapply Hs; [|exact Hy|exact Hx]. lia.
    + intros Hle. destruct (decide (j < stop)); [done|]. exfalso.
      assert (String.le (keyOf x) (keyOf y)) as Hge by (eapply Hs; [|exact Hx|exact Hy]; lia).
      assert (j = stop - 1); [|lia]. eapply unique_index; [exact Hns|exact Hy|exact Hx|]. by apply (anti_symm String.le).
Qed.

Lemma walk_counts (snaps : nat -> list T) i c ps cs pos key :
  (forall i, encodable (snaps i) /\ NoDup (keyOf <$> snaps i)) -> (forall i, key ∈ keyOf <$> snaps i) ->
  follows (fun i c => paginateModern Marshal Unmarshal keyOf (snaps i) kind c) i c ps cs -> cursor_at pos c ->
  count keyOf key (concat ps) = if decide (passed pos key) then 0 else 1.
Proof using CursorCodec0.
  intros Hsn Hkey Hf. revert pos. induction Hf as [i c items E|i c items next ps cs E Hne Hf IH]; intros pos Hc; cbn [concat];
    destruct (Hsn i) as [He Hn]; destruct (page_unique _ _ _ _ _ He Hn Hc E) as [Hnd [[Hx Hb]|(Hx & l & Hl & Hmono & Hb)]];
    try done; rewrite count_app, (count_unique keyOf key items) by done; specialize (Hb key (Hkey i)).
  - cbn. repeat case_decide; tauto.
  - rewrite (IH (Some l) Hl). specialize (Hmono key). cbn [passed]. repeat case_decide; tauto.
Qed.

(** Paging through a list that changes loses and repeats nothing that stays.  Each
    page may be cut from a different state of the list, with entries added and removed in
    between; as long as keys are distinct in every state, a client that reaches the last
    page has received every key that was there all along exactly once. *)
Theorem pagination_survives_changes (snaps : nat -> list T) ps cs key :
  (forall i, encodable (snaps i) /\ NoDup (keyOf <$> snaps i)) -> (forall i, key ∈ keyOf <$> snaps i) ->
  follows (fun i c => paginateModern Marshal Unmarshal keyOf (snaps i) kind c) 0 "" ps cs ->
  count keyOf key (concat ps) = 1.
Proof using CursorCodec0. intros Hsn Hkey Hf. by rewrite (walk_counts snaps 0 "" ps cs None key). Qed.
End walk.

(** ** A sample codec: the length of the kind in unary, the count in binary, then the text *)
Fixpoint ones (n : nat) (s : string) : string := match n with 0 => s | S n => String "1"%char (ones n s) end.

Fixpoint count_ones (s : string) : nat * string :=
  match s with
  | EmptyString => (0, "")
  | String c s => if decide (c = "1"%char) then let '(n, r) := count_ones s in (S n, r) else (0, s)
  end.

Fixpoint bits (p : positive) (s : string) : string :=
  match p with
  | xH => String ","%char s
  | xO p => String "0"%char (bits p s)
  | xI p => String "1"%char (bits p s)
  end.

Fixpoint read_bits (s : string) : positive * string :=
  match s with
  | EmptyString => (xH, "")
  | String c s =>
      if decide (c = "0"%char) then let '(p, r) := read_bits s in (xO p, r)
      else if decide (c = "1"%char) then let '(p, r) := read_bits s in (xI p, r)
      else (xH, s)
  end.

Fixpoint split_at (n : nat) (s : string) : string * string :=
  match n, s with
  | S n, String c s => let '(a, b) := split_at n s in (String c a, b)
  | _, _ => ("", s)
  end.

Definition sample_Marshal (cur : modernCursor) : option string :=
  Some (ones (String.length (mcur_Kind cur)) (String ","%char (bits (Z.to_pos (mcur_Delivered cur + 1))
    (mcur_Kind cur +:+ mcur_LastKey cur)))).

Definition sample_Unmarshal (s : string) : option modernCursor :=
  let '(n, r) := count_ones s in
  let '(d, r) := read_bits r in
  let '(kind, key) := split_at n r in
  Some {| mcur_Kind := kind; mcur_LastKey := key; mcur_Delivered := (Z.pos d - 1)%Z |}.

Lemma count_ones_ones n s : count_ones (ones n (String ","%char s)) = (n, s).
Proof. induction n as [|n IH]; [done|]. cbn [ones count_ones]. rewrite decide_True by done. by rewrite IH. Qed.

Lemma read_bits_bits p s : read_bits (bits p s) = (p, s).
Proof. induction p as [p IH|p IH|]; cbn [bits read_bits]; [by rewrite decide_False, decide_True, IH by done|by rewrite decide_True, IH by done|done]. Qed.

Lemma split_at_app (a b : string) : split_at (String.length a) (a +:+ b) = (a, b).
Proof.
  induction a as [|c a IH]; [by destruct b|].
  change (split_at (S (String.length a)) (String c (a +:+ b)) = (String c a, b)). cbn [split_at]. by rewrite IH.
Qed.

#[export] Instance sample_codec : CursorCodec sample_Marshal sample_Unmarshal.
Proof.
  intros [kind key d] _ _ Hd. cbn in Hd. eexists. split; [|split; [done|]].
  - by destruct kind.
  - unfold sample_Unmarshal. cbn [mcur_Kind mcur_LastKey mcur_Delivered].
    rewrite count_ones_ones, read_bits_bits, split_at_app, Z2Pos.id by lia. do 2 f_equal. lia.
Qed.

Lemma sample_encodable : encodable sample_Marshal id "tools" ["get"; "add"].
Proof.
  split.
  - reflexivity.
  - intros x [->|[->|[]%elem_of_nil]%elem_of_cons]%elem_of_cons; done.
  - intros x d token Hx Hd. cbn in Hd. assert (d = 1 \/ d = 2)%Z as [-> | ->] by lia;
      revert Hx; intros [->|[->|[]%elem_of_nil]%elem_of_cons]%elem_of_cons; vm_compute; intros [= <-]; vm_compute; lia.
  - done.
Qed.

(** Three pages; the first two end among the copies of a key. *)
Definition long_list : list string := replicate 600 "get" ++ replicate 1500 "add".

Lemma long_list_encodable : encodable sample_Marshal id "tools" long_list.
Proof.
  assert (forall x, x ∈ long_list -> x = "get" \/ x = "add") as Hx.
  { intros x [[-> _]%elem_of_replicate|[-> _]%elem_of_replicate]%elem_of_app; auto. }
  split; [reflexivity|by intros x [-> | ->]%Hx| |vm_compute; discriminate].
  intros x d token Hin Hd.
  assert (forallb (fun n => forallb (fun x => match encodeModernCursor sample_Marshal "tools" x (Z.of_nat n) with
    | Some token => String.length token <=? modernCursorMaxLen | None => true end) ["get"; "add"]) (seq 1 (length long_list)) = true) as Hall
    by (vm_compute; reflexivity).
  rewrite forallb_forall in Hall. specialize (Hall (Z.to_nat d)). rewrite forallb_forall in Hall.
  assert (In (Z.to_nat d) (seq 1 (length long_list))) as Hn by (apply in_seq; lia).
  intros E. specialize (Hall Hn x).
  rewrite Z2Nat.id in Hall by lia. change (id x) with x in E. rewrite E in Hall. apply Nat.leb_le, Hall. destruct (Hx x Hin) as [-> | ->]; cbn; auto.
Qed.

Lemma pagination_delivers_all_witness :
  (exists all, ListAll (fun _ c => paginateModern sample_Marshal sample_Unmarshal id long_list "tools" c) = inr all /\
    all ≡ₚ long_list) /\
  exists page1 c1 page2 c2, paginateModern sample_Marshal sample_Unmarshal id long_list "tools" "" = inr (page1, c1) /\
    c1 <> "" /\ paginateModern sample_Marshal sample_Unmarshal id long_list "tools" c1 = inr (page2, c2) /\ c2 <> "".
Proof.
  split.
  - destruct (pagination_delivers_all sample_Marshal sample_Unmarshal id "tools" long_list long_list_encodable)
      as (all & Hl & Hp & _).
    + apply Nat.leb_le. vm_compute. reflexivity.
    + exists all. split; [exact Hl|exact Hp].
  - eexists _, _, _, _. split; [vm_compute; reflexivity|]. split; [discriminate|]. split; [vm_compute; reflexivity|]. discriminate.
Defined.

Lemma pagination_survives_changes_witness :
  let snaps := fun _ : nat => ["get"; "add"] in
  exists page, follows (fun i c => paginateModern sample_Marshal sample_Unmarshal id (snaps i) "tools" c) 0 "" [page] [] /\
    count id "add" (concat [page]) = 1.
Proof.
  intros snaps. exists ["add"; "get"].
  assert (follows (fun i c => paginateModern sample_Marshal sample_Unmarshal id (snaps i) "tools" c) 0 "" [["add"; "get"]] []) as Hf
    by (constructor; vm_compute; reflexivity).
  split; [exact Hf|]. apply (pagination_survives_changes sample_Marshal sample_Unmarshal id "tools" snaps _ [] "add"); [|set_solver|exact Hf].
  intros i. split; [apply sample_encodable|]. apply (bool_decide_unpack _). vm_compute. exact I.
Defined.
