(* ===== verification/RateLimit.v ===== *)
(** * Rate limiting ([pkg/ratelimit/limiter.go], [middleware.go], [internal/bucket/bucket.go])

    Token buckets kept in Redis.  The script runs atomically on the server, so a check is one
    function from the store to the store; the clock of the server, in microseconds, is an
    argument.  A key of the store has the fields of the hash and the time it expires.
    Floating-point numbers are rationals: [fl] rounds the exact result of an operation, and
    what is relied on is [Rounding].  A number Lua writes is read back unchanged, because
    Redis prints it with seventeen digits.  Telemetry and logging are left out. *)

From Stdlib Require Import Ascii QArith Qround Qminmax Qabs Lqa.
From S2P Require Import Prelude VmcpTypes SessionBinding.

(** What is used of binary64 arithmetic, away from overflow: rounding is monotone, keeps
    integers, and errs by at most a relative [ulp] and an absolute [tiny]. *)
Definition ulp : Q := 1 # (2 ^ 53).
Definition tiny : Q := 1 # (2 ^ 1074).

Class Rounding (fl : Q -> Q) : Prop := {
  fl_mono : forall x y, (x <= y)%Q -> (fl x <= fl y)%Q;
  fl_int : forall n, (Z.abs n <= 2 ^ 53)%Z -> (fl (inject_Z n) == inject_Z n)%Q;
  fl_upper : forall x, (0 <= x)%Q -> (fl x <= x + ulp * x + tiny)%Q;
  fl_lower : forall x, (0 <= x)%Q -> (x - ulp * x - tiny <= fl x)%Q;
}.

Section bucket.
Context (fl : Q -> Q).

(** ** The bucket *)
Record TokenBucket := {
  tb_key : string;
  tb_maxTokens : Z;  (* int32 *)
  tb_refillRate : Q;
  tb_expireSeconds : Z;
}.

Definition deriveKeyPrefix (namespace name : string) : string :=
  "thv:rl:{" +:+ namespace +:+ ":" +:+ name +:+ "}:".

(** [Duration.Seconds]. *)
Definition Seconds (d : Duration) : Q :=
  fl (fl (inject_Z (d / time.Second)) + fl (fl (inject_Z (d mod time.Second)) / 1000000000)).

Definition NewBucket (namespace serverName suffix : string) (maxTokens : Z) (refillPeriod : Duration) : TokenBucket :=
  let refillSec := Seconds refillPeriod in {|
  tb_key := deriveKeyPrefix namespace serverName +:+ suffix;
  tb_maxTokens := maxTokens;
  tb_refillRate := fl (inject_Z maxTokens / refillSec);
  tb_expireSeconds := Qceiling (fl (2 * refillSec));
|}.

(** The number [fmt.Sprintf] writes with six decimals: the nearest one, ties to even. *)
Definition round_even (x : Q) : Z :=
  let f := Qfloor x in
  match (x - inject_Z f ?= 1 # 2)%Q with
  | Lt => f
  | Gt => f + 1
  | Eq => if Z.even f then f else (f + 1)%Z
  end.

Definition six_decimals (x : Q) : Q := inject_Z (round_even (x * 1000000)) / 1000000.

(** ** The script *)
Record bucket_state := {
  bs_tokens : Q;
  bs_last_refill : Z;
  bs_deadline : Z;
}.

Abbreviation redis := (gmap string bucket_state) (only parsing).

(** [HMGET]: an expired key is not there. *)
Definition hmget (now : Z) (key : string) (db : redis) : option bucket_state :=
  match db !! key with
  | Some st => if (now <? bs_deadline st)%Z then Some st else None
  | None => None
  end.

(** [HSET] and [EXPIRE], which deletes the key when the time is not positive. *)
Definition hset_expire (now : Z) (key : string) (tokens : Q) (expireSec : Z) (db : redis) : redis :=
  if (expireSec <=? 0)%Z then delete key db
  else <[key := {| bs_tokens := tokens; bs_last_refill := now;
                   bs_deadline := (now + expireSec * 1000000)%Z |}]> db.

Definition sent_rate (b : TokenBucket) : Q := fl (six_decimals (tb_refillRate b)).

Definition refill (now : Z) (b : TokenBucket) (db : redis) : Q :=
  match hmget now (tb_key b) db with
  | None => inject_Z (tb_maxTokens b)
  | Some st =>
      let elapsedSec := Qmax 0 (fl (inject_Z (now - bs_last_refill st) / 1000000)) in
      Qmin (inject_Z (tb_maxTokens b)) (fl (bs_tokens st + fl (elapsedSec * sent_rate b)))
  end.

(** The index of the first bucket with less than one token. *)
Fixpoint first_reject (now : Z) (buckets : list TokenBucket) (db : redis) : option nat :=
  match buckets with
  | [] => None
  | b :: buckets =>
      if Qlt_le_dec (refill now b db) 1 then Some 0 else S <$> first_reject now buckets db
  end.

(** One round of writes, with the tokens computed from the store [db0] before it. *)
Definition write_all (now : Z) (buckets : list TokenBucket) (tokens : Q -> Q) (db0 : redis) : redis :=
  foldl (fun db b => hset_expire now (tb_key b) (tokens (refill now b db0)) (tb_expireSeconds b) db) db0 buckets.

(** The result is the index of the bucket that rejects, [None] when all allow. *)
Definition ConsumeAll (now : Z) (buckets : list TokenBucket) (db : redis) : option nat * redis :=
  match buckets with
  | [] => (None, db)
  | _ =>
      match first_reject now buckets db with
      | Some i => (Some i, write_all now buckets (fun refilled => refilled) db)
      | None => (None, write_all now buckets (fun refilled => fl (refilled - 1)) db)
      end
  end.

(** A conversion of a float to an integer truncates. *)
Definition Qtrunc (x : Q) : Z := if Qlt_le_dec x 0 then Qceiling x else Qfloor x.

Definition RetryAfter (b : TokenBucket) : Duration :=
  let d := Qtrunc (fl (inject_Z time.Second / tb_refillRate b)) in
  if (d <? time.Second)%Z then time.Second
  else (Qceiling (Seconds d) * time.Second)%Z.

(** ** The limiter *)
Record RateLimitBucket := {
  rlb_MaxTokens : Z;
  rlb_RefillPeriod : Duration;
}.

Record ToolRateLimitConfig := {
  trl_Name : string;
  trl_Shared : option RateLimitBucket;
  trl_PerUser : option RateLimitBucket;
}.

Record RateLimitConfig := {
  rlc_Shared : option RateLimitBucket;
  rlc_PerUser : option RateLimitBucket;
  rlc_Tools : list ToolRateLimitConfig;
}.

Record bucketSpec := {
  spec_namespace : string;
  spec_serverName : string;
  spec_maxTokens : Z;
  spec_refillPeriod : Duration;
}.

Record limiter := {
  lim_serverBucket : option TokenBucket;
  lim_toolBuckets : gmap string TokenBucket;
  lim_perUserSpec : option bucketSpec;
  lim_perUserTools : gmap string bucketSpec;
}.

Inductive limit_error := MaxTokensTooSmall | RefillPeriodNotPositive.

Definition validateBucketCRD (b : RateLimitBucket) : limit_error + (Z * Duration) :=
  if (rlb_MaxTokens b <? 1)%Z then inl MaxTokensTooSmall
  else if (rlb_RefillPeriod b <=? 0)%Z then inl RefillPeriodNotPositive
  else inr (rlb_MaxTokens b, rlb_RefillPeriod b).

Definition newBucket (namespace serverName suffix : string) (b : RateLimitBucket) : limit_error + TokenBucket :=
  match validateBucketCRD b with
  | inl e => inl e
  | inr (maxTokens, refillPeriod) => inr (NewBucket namespace serverName suffix maxTokens refillPeriod)
  end.

Definition newBucketSpec (namespace serverName : string) (b : RateLimitBucket) : limit_error + bucketSpec :=
  match validateBucketCRD b with
  | inl e => inl e
  | inr (maxTokens, refillPeriod) => inr {|
      spec_namespace := namespace; spec_serverName := serverName;
      spec_maxTokens := maxTokens; spec_refillPeriod := refillPeriod |}
  end.

(** A field that is nil stays as it is. *)
Definition optional {A B} (f : A -> limit_error + B) (x : option A) : limit_error + option B :=
  match x with
  | None => inr None
  | Some a => match f a with inl e => inl e | inr b => inr (Some b) end
  end.

Definition set_if {A} (key : string) (x : option A) (m : gmap string A) : gmap string A :=
  match x with None => m | Some a => <[key := a]> m end.

Fixpoint add_tools (namespace name : string) (tools : list ToolRateLimitConfig) (l : limiter)
    : limit_error + limiter :=
  match tools with
  | [] => inr l
  | t :: tools =>
      match optional (newBucket namespace name ("shared:tool:" +:+ trl_Name t)) (trl_Shared t) with
      | inl e => inl e
      | inr shared =>
      match optional (newBucketSpec namespace name) (trl_PerUser t) with
      | inl e => inl e
      | inr perUser =>
          add_tools namespace name tools {|
            lim_serverBucket := lim_serverBucket l;
            lim_toolBuckets := set_if (trl_Name t) shared (lim_toolBuckets l);
            lim_perUserSpec := lim_perUserSpec l;
            lim_perUserTools := set_if (trl_Name t) perUser (lim_perUserTools l) |}
      end
      end
  end.

(** [None] is the limiter that always allows. *)
Definition newLimiter (namespace name : string) (crd : option RateLimitConfig) : limit_error + option limiter :=
  match crd with
  | None => inr None
  | Some crd =>
      match optional (newBucket namespace name "shared") (rlc_Shared crd) with
      | inl e => inl e
      | inr shared =>
      match optional (newBucketSpec namespace name) (rlc_PerUser crd) with
      | inl e => inl e
      | inr perUser =>
      match add_tools namespace name (rlc_Tools crd) {|
              lim_serverBucket := shared; lim_toolBuckets := ∅;
              lim_perUserSpec := perUser; lim_perUserTools := ∅ |} with
      | inl e => inl e
      | inr l => inr (Some l)
      end end end
  end.

Definition user_bucket (s : bucketSpec) (suffix : string) : TokenBucket :=
  NewBucket (spec_namespace s) (spec_serverName s) suffix (spec_maxTokens s) (spec_refillPeriod s).

(** The buckets a request is checked against, in order. *)
Definition checks (l : limiter) (toolName userID : string) : list TokenBucket :=
  option_list (lim_serverBucket l) ++
  (if decide (toolName <> "") then option_list (lim_toolBuckets l !! toolName) else []) ++
  (if decide (userID <> "") then
     option_list ((fun s => user_bucket s ("user:" +:+ userID)) <$> lim_perUserSpec l) ++
     (if decide (toolName <> "") then
        option_list ((fun s => user_bucket s ("user-tool:" +:+ toolName +:+ ":" +:+ userID)) <$>
          lim_perUserTools l !! toolName)
      else [])
   else []).

Inductive verdict := Allowed | Rejected (retryAfter : Duration) | CheckFailed.

(** [up] tells whether Redis runs the script. *)
Definition limiter_Allow (up : bool) (now : Z) (l : option limiter) (toolName userID : string) (db : redis)
    : verdict * redis :=
  match l with
  | None => (Allowed, db)
  | Some l =>
      let buckets := checks l toolName userID in
      if decide (buckets = []) then (Allowed, db)
      else if negb up then (CheckFailed, db)
      else match ConsumeAll now buckets db with
      | (Some i, db) =>
          (match buckets !! i with Some b => Rejected (RetryAfter b) | None => CheckFailed end, db)
      | (None, db) => (Allowed, db)
      end
  end.
End bucket.

(** ** What a call writes *)
Section script.
Context (fl : Q -> Q).
Implicit Types (db : gmap string bucket_state) (b : TokenBucket).

(** All buckets of a call with the key of [b] are [b]. *)
Definition agrees b (buckets : list TokenBucket) : Prop :=
  forall b', b' ∈ buckets -> tb_key b' = tb_key b -> b' = b.

Definition uses b (buckets : list TokenBucket) : bool := bool_decide (tb_key b ∈ tb_key <$> buckets).

Definition written (now : Z) b (tokens : Q) : bucket_state :=
  {| bs_tokens := tokens; bs_last_refill := now; bs_deadline := (now + tb_expireSeconds b * 1000000)%Z |}.

Lemma write_all_lookup now buckets tokens db b :
  agrees b buckets -> (0 < tb_expireSeconds b)%Z ->
  write_all fl now buckets tokens db !! tb_key b =
  if uses b buckets then Some (written now b (tokens (refill fl now b db))) else db !! tb_key b.
Proof.
  intros Ha He. unfold write_all, uses.
  assert (forall l db', (forall b', b' ∈ l -> b' ∈ buckets) ->
    foldl (fun db0 b => hset_expire now (tb_key b) (tokens (refill fl now b db)) (tb_expireSeconds b) db0) db' l !! tb_key b =
    if bool_decide (tb_key b ∈ tb_key <$> l) then Some (written now b (tokens (refill fl now b db))) else db' !! tb_key b) as Hl;
    [|by apply Hl].
  intros l. induction l as [|b' l IH]; intros db' Hsub; cbn [foldl fmap list_fmap]; [done|].
  rewrite IH by (intros; apply Hsub; by right). destruct (decide (tb_key b' = tb_key b)) as [E|E].
  - rewrite (bool_decide_true (_ ∈ _ :: _)) by (rewrite E; left).
    case_bool_decide; [done|]. assert (b' = b) as -> by (apply Ha; [apply Hsub; left|done]).
    unfold hset_expire. rewrite (proj2 (Z.leb_gt _ _)) by lia. by rewrite lookup_insert_eq.
  - assert ((tb_key b ∈ tb_key b' :: (tb_key <$> l)) <-> tb_key b ∈ tb_key <$> l) as Hiff by set_solver.
    rewrite (bool_decide_ext _ _ Hiff). case_bool_decide; [done|]. unfold hset_expire.
    case_match; [by rewrite lookup_delete_ne|by rewrite lookup_insert_ne].
Qed.

Lemma write_all_other now buckets tokens db key :
  (key ∉ tb_key <$> buckets) -> write_all fl now buckets tokens db !! key = db !! key.
Proof.
  intros Hk. unfold write_all.
  assert (forall l db', (key ∉ tb_key <$> l) ->
    foldl (fun db0 b => hset_expire now (tb_key b) (tokens (refill fl now b db)) (tb_expireSeconds b) db0) db' l !! key =
    db' !! key) as Hl; [|by apply Hl].
  induction l as [|b l IH]; intros db' Hl; cbn [foldl]; [done|]. cbn in Hl. apply not_elem_of_cons in Hl as [Hb Hl].
  rewrite IH by done. unfold hset_expire. case_match; [by rewrite lookup_delete_ne|by rewrite lookup_insert_ne].
Qed.

Lemma ConsumeAll_other now buckets db key :
  (key ∉ tb_key <$> buckets) -> (ConsumeAll fl now buckets db).2 !! key = db !! key.
Proof.
  intros Hk. unfold ConsumeAll. destruct buckets as [|b l]; [done|].
  destruct (first_reject _ _ _ _); by apply write_all_other.
Qed.

Lemma uses_in b bs : agrees b bs -> uses b bs = true -> b ∈ bs.
Proof.
  intros Ha Eu. unfold uses in Eu. apply bool_decide_eq_true, list_elem_of_fmap in Eu as (b' & E & Hin).
  by rewrite <- (Ha b' Hin).
Qed.

Lemma first_reject_None now buckets db :
  first_reject fl now buckets db = None <-> forall b, b ∈ buckets -> (1 <= refill fl now b db)%Q.
Proof.
  induction buckets as [|b buckets IH]; cbn [first_reject]; [split; [intros _ b ?%elem_of_nil; done|done]|].
  destruct (Qlt_le_dec (refill fl now b db) 1) as [Hlt|Hle].
  - split; [done|]. intros Hall. specialize (Hall b ltac:(left)). exfalso. lra.
  - destruct (first_reject fl now buckets db) as [i|]; cbn.
    + split; [done|]. intros Hall. destruct IH as [_ IH]. discriminate IH. intros b' Hb'. apply Hall. by right.
    + split; [|done]. intros _ b' [->|Hb']%elem_of_cons; [done|]. by apply IH.
Qed.

Lemma first_reject_Some now buckets db i :
  first_reject fl now buckets db = Some i ->
  (exists b, buckets !! i = Some b /\ (refill fl now b db < 1)%Q) /\
  forall j b, j < i -> buckets !! j = Some b -> (1 <= refill fl now b db)%Q.
Proof.
  revert i. induction buckets as [|b buckets IH]; intros i; cbn [first_reject]; [done|].
  destruct (Qlt_le_dec (refill fl now b db) 1) as [Hlt|Hle].
  - intros [= <-]. split; [by exists b|]. lia.
  - destruct (first_reject fl now buckets db) as [k|]; cbn; [|done]. intros [= <-].
    destruct (IH k eq_refl) as [Hb Hlt]. split; [done|]. intros [|j] b' Hj; cbn; [by intros [= <-]|].
    intros Hb'. apply (Hlt j); [lia|done].
Qed.

(** What a call does to the bucket [b]. *)
Lemma ConsumeAll_spec now buckets db b :
  agrees b buckets -> (0 < tb_expireSeconds b)%Z ->
  let '(r, db') := ConsumeAll fl now buckets db in
  (r = None <-> forall b', b' ∈ buckets -> (1 <= refill fl now b' db)%Q) /\
  db' !! tb_key b =
    if uses b buckets then Some (written now b
      (match r with None => fl (refill fl now b db - 1) | Some _ => refill fl now b db end))
    else db !! tb_key b.
Proof.
  intros Ha He. unfold ConsumeAll. destruct buckets as [|b0 buckets].
  { split; [|done]. split; [intros _ b' ?%elem_of_nil; done|done]. }
  pose proof (first_reject_None now (b0 :: buckets) db) as Hf.
  destruct (first_reject fl now (b0 :: buckets) db) as [i|]; (split; [|by rewrite write_all_lookup]).
  - split; [done|]. by intros ?%Hf.
  - split; [|done]. intros _. by apply Hf.
Qed.
End script.

(** ** Arithmetic *)
Section rounding.
Context (fl : Q -> Q) `{!Rounding fl}.

#[export] Instance fl_proper : Proper (Qeq ==> Qeq) fl.
Proof using Rounding0. intros x y E. apply Qle_antisym; apply fl_mono; rewrite E; apply Qle_refl. Qed.

Lemma fl_le_int x n : (Z.abs n <= 2 ^ 53)%Z -> (x <= inject_Z n)%Q -> (fl x <= inject_Z n)%Q.
Proof. intros Hn Hx. rewrite <- (fl_int n Hn). by apply fl_mono. Qed.

Lemma fl_ge_int x n : (Z.abs n <= 2 ^ 53)%Z -> (inject_Z n <= x)%Q -> (inject_Z n <= fl x)%Q.
Proof. intros Hn Hx. rewrite <- (fl_int n Hn) at 1. by apply fl_mono. Qed.

Lemma fl_nonneg x : (0 <= x)%Q -> (0 <= fl x)%Q.
Proof. apply (fl_ge_int x 0). done. Qed.

Lemma ulp_range : (0 < ulp)%Q /\ (ulp < 1)%Q.
Proof. split; reflexivity. Qed.

Lemma tiny_pos : (0 < tiny)%Q.
Proof. reflexivity. Qed.

(** A bucket as [newBucket] makes it. *)
Record bucket_ok (b : TokenBucket) : Prop := {
  bo_max : (1 <= tb_maxTokens b < 2 ^ 31)%Z;
  bo_rate : (0 <= sent_rate fl b)%Q;
  bo_expire : (0 < tb_expireSeconds b)%Z;
}.

Abbreviation maxQ b := (inject_Z (tb_maxTokens b)) (only parsing).

(** The key of [b] holds a sensible number of tokens. *)
Definition state_ok (b : TokenBucket) (db : gmap string bucket_state) : Prop :=
  forall st, db !! tb_key b = Some st -> (0 <= bs_tokens st <= maxQ b)%Q /\
    bs_deadline st = (bs_last_refill st + tb_expireSeconds b * 1000000)%Z.

Lemma maxQ_pos b : bucket_ok b -> (1 <= maxQ b)%Q.
Proof. intros [[H _] _ _]. change 1%Q with (inject_Z 1). by rewrite <- Zle_Qle. Qed.

Lemma refill_range now b db : bucket_ok b -> state_ok b db -> (0 <= refill fl now b db <= maxQ b)%Q.
Proof using Rounding0.
  intros Hb Hst. pose proof (maxQ_pos b Hb) as Hm. unfold refill, hmget.
  destruct (db !! tb_key b) as [st|] eqn:E; [|lra]. destruct (now <? bs_deadline st)%Z; [|lra].
  destruct (Hst st E) as [Ht _]. split; [|apply Q.le_min_l]. apply Q.min_glb; [lra|].
  apply fl_nonneg. assert (0 <= fl (Qmax 0 (fl (inject_Z (now - bs_last_refill st) / 1000000)) * sent_rate fl b))%Q; [|lra].
  apply fl_nonneg, Qmult_le_0_compat; [apply Q.le_max_l|by apply bo_rate].
Qed.

Lemma consume_range b r : bucket_ok b -> (1 <= r <= maxQ b)%Q -> (0 <= fl (r - 1) <= maxQ b)%Q.
Proof using Rounding0.
  intros Hb Hr. split; [apply fl_nonneg; lra|]. apply fl_le_int; [|lra]. destruct Hb as [Hm _ _]. lia.
Qed.

(** The state stays sensible. *)
Lemma ConsumeAll_ok now buckets db b :
  bucket_ok b -> agrees b buckets -> state_ok b db -> state_ok b (ConsumeAll fl now buckets db).2.
Proof using Rounding0.
  intros Hb Ha Hst. pose proof (ConsumeAll_spec fl now buckets db b Ha (bo_expire _ Hb)) as H.
  destruct (ConsumeAll fl now buckets db) as [r db']. destruct H as [Hr Hk]. intros st. cbn. rewrite Hk.
  destruct (uses b buckets) eqn:Eu; [|apply Hst]. intros [= <-]. cbn. split; [|done].
  pose proof (refill_range now b db Hb Hst) as Hrange. destruct r; [done|]. apply consume_range; [done|].
  split; [|by destruct Hrange]. apply Hr; [done|]. by apply uses_in.
Qed.

(** ** How much a bucket refills *)

(** The effective rate: what was sent to Redis, or what expiry gives back. *)
Definition rate (b : TokenBucket) : Q := Qmax (sent_rate fl b) (maxQ b / inject_Z (tb_expireSeconds b)).

(** The rounding of one check. *)
Definition slack (b : TokenBucket) : Q := 2 * ulp * maxQ b + (3 + 2 * sent_rate fl b) * tiny.

Definition seconds (us : Z) : Q := inject_Z us / 1000000.

Lemma rate_nonneg b : bucket_ok b -> (0 <= rate b)%Q.
Proof. intros Hb. unfold rate. eapply Qle_trans; [apply (bo_rate _ Hb)|apply Q.le_max_l]. Qed.

Lemma elapsed_upper now last :
  (last <= now)%Z -> (Qmax 0 (fl (seconds (now - last))) <= (1 + ulp) * seconds (now - last) + tiny)%Q.
Proof using Rounding0.
  intros Hl. pose proof ulp_range. pose proof tiny_pos.
  assert (0 <= seconds (now - last))%Q as Hs.
  { unfold seconds. apply Qle_shift_div_l; [done|]. rewrite Qmult_0_l. change 0%Q with (inject_Z 0). rewrite <- Zle_Qle. lia. }
  apply Q.max_lub; [nra|]. eapply Qle_trans; [by apply fl_upper|]. lra.
Qed.

Lemma product_upper (u s tn r R E : Q) :
  (0 <= u < 1 -> 0 <= s -> 0 < tn -> 0 <= r <= R -> 0 <= E <= (1 + u) * s + tn ->
   (1 + u) * (E * r) + tn <= (1 + u) * (1 + u) * R * s + (2 * r + 1) * tn)%Q.
Proof using.
  intros Hu Hs Ht Hr HE.
  assert (E * r <= ((1 + u) * s + tn) * r)%Q as H1 by (apply Qmult_le_compat_r; lra).
  assert ((1 + u) * (E * r) <= (1 + u) * (((1 + u) * s + tn) * r))%Q as H2 by (apply Qmult_le_l; lra).
  assert (0 <= (1 + u) * (1 + u) * s)%Q as H0 by (apply Qmult_le_0_compat; [|done]; apply Qmult_le_0_compat; lra).
  assert (0 <= ((1 + u) * (1 + u) * s) * (R - r))%Q as H3 by (apply Qmult_le_0_compat; lra).
  assert (0 <= (1 - u) * (tn * r))%Q as H4 by (apply Qmult_le_0_compat; [lra|]; apply Qmult_le_0_compat; lra).
  lra.
Qed.

Lemma seconds_nonneg n : (0 <= n)%Z -> (0 <= seconds n)%Q.
Proof using.
  intros Hn. unfold seconds. apply Qle_shift_div_l; [done|]. rewrite Qmult_0_l. change 0%Q with (inject_Z 0).
  by rewrite <- Zle_Qle.
Qed.

Lemma expired_refill b n :
  bucket_ok b -> (tb_expireSeconds b * 1000000 <= n)%Z -> (maxQ b <= rate b * seconds n)%Q.
Proof using.
  intros Hb Hn. pose proof (bo_expire _ Hb) as He. pose proof (maxQ_pos b Hb) as Hm.
  assert (0 < inject_Z (tb_expireSeconds b))%Q as Hpos by (change 0%Q with (inject_Z 0); by rewrite <- Zlt_Qlt).
  assert (inject_Z (tb_expireSeconds b) <= seconds n)%Q as Hs.
  { unfold seconds. apply Qle_shift_div_l; [done|]. change 1000000%Q with (inject_Z 1000000).
    rewrite <- inject_Z_mult, <- Zle_Qle. done. }
  assert (maxQ b / inject_Z (tb_expireSeconds b) <= rate b)%Q as Hr by apply Q.le_max_r.
  assert (maxQ b == maxQ b / inject_Z (tb_expireSeconds b) * inject_Z (tb_expireSeconds b))%Q as E by (field; lra).
  assert (0 <= maxQ b / inject_Z (tb_expireSeconds b))%Q as H0 by (apply Qle_shift_div_l; [done|]; lra).
  rewrite E at 1. eapply Qle_trans; [apply Qmult_le_compat_r; [exact Hr|lra]|].
  rewrite !(Qmult_comm (rate b)). apply Qmult_le_compat_r; [exact Hs|lra].
Qed.

Lemma refill_upper now b db st :
  bucket_ok b -> state_ok b db -> db !! tb_key b = Some st -> (bs_last_refill st <= now)%Z ->
  (refill fl now b db <= bs_tokens st + (1 + ulp) * (1 + ulp) * rate b * seconds (now - bs_last_refill st) +
     (ulp * maxQ b + (2 + 2 * sent_rate fl b) * tiny))%Q.
Proof using Rounding0.
  intros Hb Hst E Hl. pose proof ulp_range as Hu. pose proof tiny_pos as Ht. pose proof (maxQ_pos b Hb) as Hm.
  pose proof (bo_rate _ Hb) as Hr0. destruct (Hst st E) as [Htok Hdl].
  pose proof (seconds_nonneg (now - bs_last_refill st) ltac:(lia)) as Hs.
  set (s := seconds (now - bs_last_refill st)) in *. set (r := sent_rate fl b) in *.
  assert (0 <= rate b)%Q as HR by (by apply rate_nonneg).
  assert (0 <= r * tiny)%Q by (apply Qmult_le_0_compat; lra).
  assert (0 <= ulp * maxQ b)%Q by (apply Qmult_le_0_compat; lra).
  unfold refill, hmget. rewrite E. destruct (now <? bs_deadline st)%Z eqn:Ed.
  - fold (seconds (now - bs_last_refill st)). fold s r.
    set (Ex := Qmax 0 (fl s)). assert (0 <= Ex <= (1 + ulp) * s + tiny)%Q as HE by (split; [apply Q.le_max_l|by apply elapsed_upper]).
    pose proof (product_upper ulp s tiny r (rate b) Ex ltac:(lra) Hs Ht (conj Hr0 (Q.le_max_l _ _)) HE) as Hprod.
    assert (fl (Ex * r) <= (1 + ulp) * (Ex * r) + tiny)%Q as Hx.
    { eapply Qle_trans; [apply fl_upper, Qmult_le_0_compat; lra|lra]. }
    assert (0 <= fl (Ex * r))%Q as Hx0 by (apply fl_nonneg, Qmult_le_0_compat; lra).
    set (x := fl (Ex * r)) in *. destruct (Qlt_le_dec (maxQ b) (bs_tokens st + x)) as [Hc|Hc].
    + eapply Qle_trans; [apply Q.le_min_l|]. lra.
    + eapply Qle_trans; [apply Q.le_min_r|]. eapply Qle_trans; [apply fl_upper; lra|].
      assert (ulp * (bs_tokens st + x) <= ulp * maxQ b)%Q by (apply Qmult_le_l; lra). lra.
  - apply Z.ltb_ge in Ed. assert (maxQ b <= rate b * s)%Q as Hexp by (apply expired_refill; [done|]; lia).
    assert (rate b * s <= (1 + ulp) * (1 + ulp) * rate b * s)%Q as Hgrow; [|lra].
    assert (0 <= rate b * s)%Q as Hrs by (by apply Qmult_le_0_compat).
    assert (0 <= (2 * ulp + ulp * ulp) * (rate b * s))%Q by (apply Qmult_le_0_compat; [|done]; assert (0 <= ulp * ulp)%Q by (apply Qmult_le_0_compat; lra); lra).
    lra.
Qed.

(** ** Sequences of checks *)

(** A check: the time on the server and the buckets. *)
Abbreviation check := (Z * list TokenBucket)%type (only parsing).

Fixpoint admitted (b : TokenBucket) (calls : list check) (db : gmap string bucket_state) : Z :=
  match calls with
  | [] => 0
  | (now, buckets) :: calls =>
      let '(r, db) := ConsumeAll fl now buckets db in
      ((if uses b buckets && bool_decide (r = None) then 1 else 0) + admitted b calls db)%Z
  end.

Definition used (b : TokenBucket) (calls : list check) : Z :=
  Z.of_nat (length (filter (fun c => uses b c.2 = true) calls)).

Fixpoint ordered (from until : Z) (calls : list check) : Prop :=
  match calls with
  | [] => (from <= until)%Z
  | (now, _) :: calls => (from <= now)%Z /\ ordered now until calls
  end.

Lemma ordered_le from until calls : ordered from until calls -> (from <= until)%Z.
Proof using. revert from. induction calls as [|[now bs] calls IH]; intros from; cbn; [done|]. intros [? ?%IH]. lia. Qed.

(** The tokens the bucket has, and since when. *)
Definition level (b : TokenBucket) (from : Z) (db : gmap string bucket_state) (tokens : Q) (last : Z) : Prop :=
  match db !! tb_key b with
  | Some st => tokens = bs_tokens st /\ last = bs_last_refill st /\ (last <= from)%Z
  | None => tokens = maxQ b /\ last = from
  end.

Definition growth (b : TokenBucket) : Q := (1 + ulp) * (1 + ulp) * rate b.

Lemma growth_nonneg b : bucket_ok b -> (0 <= growth b)%Q.
Proof using.
  intros Hb. pose proof ulp_range. pose proof (rate_nonneg b Hb).
  apply Qmult_le_0_compat; [apply Qmult_le_0_compat|done]; lra.
Qed.

Lemma seconds_add a c d : (seconds (a - c) == seconds (a - d) + seconds (d - c))%Q.
Proof using. unfold seconds. replace (a - c)%Z with ((a - d) + (d - c))%Z by lia. rewrite inject_Z_plus. field. Qed.

Lemma growth_grows b a c d :
  bucket_ok b -> (c <= d)%Z -> (growth b * seconds (a - d) <= growth b * seconds (a - c))%Q.
Proof using.
  intros Hb Hd. rewrite (seconds_add a c d). pose proof (growth_nonneg b Hb) as Hg.
  pose proof (seconds_nonneg (d - c) ltac:(lia)). assert (0 <= growth b * seconds (d - c))%Q by (by apply Qmult_le_0_compat). lra.
Qed.

Lemma level_refill now from b db tokens last :
  bucket_ok b -> state_ok b db -> level b from db tokens last -> (from <= now)%Z ->
  (last <= now)%Z /\ (0 <= tokens)%Q /\
  (refill fl now b db <= tokens + growth b * seconds (now - last) + (ulp * maxQ b + (2 + 2 * sent_rate fl b) * tiny))%Q.
Proof using Rounding0.
  intros Hb Hst Hl Hf. unfold level in Hl. pose proof (maxQ_pos b Hb) as Hm. pose proof ulp_range. pose proof tiny_pos.
  pose proof (bo_rate _ Hb). destruct (db !! tb_key b) as [st|] eqn:E.
  - destruct Hl as (-> & -> & Hl). split; [lia|]. split; [by destruct (Hst st E) as [[? _] _]|].
    apply refill_upper; [done..|lia].
  - destruct Hl as [-> ->]. split; [done|]. split; [lra|]. unfold refill, hmget. rewrite E.
    assert (0 <= growth b * seconds (now - from))%Q by (apply Qmult_le_0_compat; [by apply growth_nonneg|apply seconds_nonneg; lia]).
    assert (0 <= ulp * maxQ b)%Q by (apply Qmult_le_0_compat; lra).
    assert (0 <= (2 + 2 * sent_rate fl b) * tiny)%Q by (apply Qmult_le_0_compat; lra). lra.
Qed.

Lemma consume_upper b (r : option nat) x :
  bucket_ok b -> (0 <= x <= maxQ b)%Q -> (r = None -> (1 <= x)%Q) ->
  (inject_Z (if bool_decide (r = None) then 1 else 0) +
     (match r with None => fl (x - 1) | Some _ => x end) <= x + (ulp * maxQ b + tiny))%Q.
Proof using Rounding0.
  intros Hb Hx Hr. pose proof ulp_range. pose proof tiny_pos. pose proof (maxQ_pos b Hb).
  assert (0 <= ulp * maxQ b)%Q by (apply Qmult_le_0_compat; lra). destruct r as [i|].
  { change (inject_Z (if bool_decide (Some i = None) then 1 else 0)) with 0%Q. lra. }
  specialize (Hr eq_refl). assert (fl (x - 1) <= (x - 1) + ulp * (x - 1) + tiny)%Q by (apply fl_upper; lra).
  assert (ulp * (x - 1) <= ulp * maxQ b)%Q by (apply Qmult_le_l; lra).
  change (inject_Z (if bool_decide (@None nat = None) then 1 else 0)) with 1%Q. lra.
Qed.

Lemma admitted_from b calls from until db tokens last :
  bucket_ok b -> (forall c, c ∈ calls -> agrees b c.2) -> state_ok b db -> level b from db tokens last ->
  ordered from until calls ->
  (inject_Z (admitted b calls db) <= tokens + growth b * seconds (until - last) + slack b * inject_Z (used b calls))%Q.
Proof using Rounding0.
  intros Hb. revert from db tokens last. induction calls as [|[now bs] calls IH]; intros from db tokens last Ha Hst Hl Ho.
  { cbn in Ho. destruct (level_refill until from b db tokens last Hb Hst Hl Ho) as (Hlast & Ht & _).
    assert (0 <= growth b * seconds (until - last))%Q by (apply Qmult_le_0_compat; [by apply growth_nonneg|apply seconds_nonneg; lia]).
    change (inject_Z (admitted b [] db)) with 0%Q. change (inject_Z (used b [])) with 0%Q. lra. }
  cbn in Ho. destruct Ho as [Hf Ho]. assert (agrees b bs) as Hbs by (apply (Ha (now, bs)); left).
  pose proof (ConsumeAll_spec fl now bs db b Hbs (bo_expire _ Hb)) as Hc. pose proof (ConsumeAll_ok now bs db b Hb Hbs Hst) as Hst'.
  destruct (level_refill now from b db tokens last Hb Hst Hl Hf) as (Hlast & Ht & Hr).
  cbn [admitted]. destruct (ConsumeAll fl now bs db) as [r db'] eqn:Er. destruct Hc as [Hall Hk]. cbn in Hst'.
  unfold used. rewrite filter_cons. cbn [snd]. destruct (uses b bs) eqn:Eu; cbn [andb].
  - rewrite decide_True by done. cbn [length]. rewrite Nat2Z.inj_succ, <- Z.add_1_r, inject_Z_plus.
    fold (used b calls). set (t' := bs_tokens (written now b (match r with None => fl (refill fl now b db - 1) | Some _ => refill fl now b db end))).
    assert (level b now db' t' now) as Hl' by (unfold level; rewrite Hk; done).
    specialize (IH now db' t' now (fun c Hc => Ha c (list_elem_of_further _ _ _ Hc)) Hst' Hl' Ho).
    rewrite inject_Z_plus. rewrite (seconds_add until last now).
    assert (inject_Z (if bool_decide (r = None) then 1 else 0) + t' <= refill fl now b db + (ulp * maxQ b + tiny))%Q as Hstep.
    { apply consume_upper; [done|by apply refill_range|]. intros ->. apply Hall; [done|]. by apply uses_in. }
    assert (slack b == (ulp * maxQ b + (2 + 2 * sent_rate fl b) * tiny) + (ulp * maxQ b + tiny))%Q as Hslack by (unfold slack; ring).
    change (inject_Z 1) with 1%Q. lra.
  - rewrite decide_False by done. fold (used b calls). rewrite Z.add_0_l.
    assert (exists last', level b now db' tokens last' /\ (growth b * seconds (until - last') <= growth b * seconds (until - last))%Q) as (last' & Hl' & Hg).
    { unfold level in *. rewrite Hk. destruct (db !! tb_key b) as [st|].
      - destruct Hl as (-> & -> & ?). exists (bs_last_refill st). split; [split_and!; [done..|lia]|apply Qle_refl].
      - destruct Hl as [-> ->]. exists now. split; [done|]. by apply growth_grows. }
    specialize (IH now db' tokens last' (fun c Hc => Ha c (list_elem_of_further _ _ _ Hc)) Hst' Hl' Ho). lra.
Qed.

(** The store after some checks. *)
Definition after (calls : list check) (db : gmap string bucket_state) : gmap string bucket_state :=
  foldl (fun db c => (ConsumeAll fl c.1 c.2 db).2) db calls.

Lemma after_ok b calls db :
  bucket_ok b -> (forall c, c ∈ calls -> agrees b c.2) -> state_ok b db -> state_ok b (after calls db).
Proof using Rounding0.
  intros Hb. revert db. induction calls as [|c calls IH]; intros db Ha Hst; [done|]. cbn. apply IH.
  - intros c' Hc. apply Ha. by right.
  - apply ConsumeAll_ok; [done| |done]. apply Ha. by left.
Qed.

(** Whatever the bucket holds, and since when: at the first check that uses it, it has at
    most its capacity. *)
Lemma admitted_window b calls from until db :
  bucket_ok b -> (forall c, c ∈ calls -> agrees b c.2) -> state_ok b db -> ordered from until calls ->
  (inject_Z (admitted b calls db) <= maxQ b + growth b * seconds (until - from) + slack b * inject_Z (used b calls))%Q.
Proof using Rounding0.
  intros Hb. revert from db. induction calls as [|[now bs] calls IH]; intros from db Ha Hst Ho.
  { cbn in Ho. pose proof (maxQ_pos b Hb).
    assert (0 <= growth b * seconds (until - from))%Q by (apply Qmult_le_0_compat; [by apply growth_nonneg|apply seconds_nonneg; lia]).
    change (inject_Z (admitted b [] db)) with 0%Q. change (inject_Z (used b [])) with 0%Q. lra. }
  cbn in Ho. destruct Ho as [Hf Ho]. assert (agrees b bs) as Hbs by (apply (Ha (now, bs)); left).
  pose proof (ConsumeAll_spec fl now bs db b Hbs (bo_expire _ Hb)) as Hc. pose proof (ConsumeAll_ok now bs db b Hb Hbs Hst) as Hst'.
  pose proof (growth_grows b until from now Hb Hf) as Hg.
  cbn [admitted]. destruct (ConsumeAll fl now bs db) as [r db'] eqn:Er. destruct Hc as [Hall Hk]. cbn in Hst'.
  unfold used. rewrite filter_cons. cbn [snd]. destruct (uses b bs) eqn:Eu; cbn [andb].
  - rewrite decide_True by done. cbn [length]. rewrite Nat2Z.inj_succ, <- Z.add_1_r, !inject_Z_plus.
    fold (used b calls). set (t' := bs_tokens (written now b (match r with None => fl (refill fl now b db - 1) | Some _ => refill fl now b db end))).
    assert (level b now db' t' now) as Hl' by (unfold level; rewrite Hk; done).
    pose proof (admitted_from b calls now until db' t' now Hb (fun c Hc => Ha c (list_elem_of_further _ _ _ Hc)) Hst' Hl' Ho) as Hrest.
    assert (inject_Z (if bool_decide (r = None) then 1 else 0) + t' <= refill fl now b db + (ulp * maxQ b + tiny))%Q as Hstep.
    { apply consume_upper; [done|by apply refill_range|]. intros ->. apply Hall; [done|]. by apply uses_in. }
    destruct (refill_range now b db Hb Hst) as [_ Hcap]. assert (ulp * maxQ b + tiny <= slack b)%Q as Hslack.
    { unfold slack. pose proof ulp_range. pose proof tiny_pos. pose proof (maxQ_pos b Hb). pose proof (bo_rate _ Hb).
      assert (0 <= ulp * maxQ b)%Q by (apply Qmult_le_0_compat; lra).
      assert (0 <= (2 + 2 * sent_rate fl b) * tiny)%Q by (apply Qmult_le_0_compat; lra). lra. }
    change (inject_Z 1) with 1%Q. lra.
  - rewrite decide_False by done. fold (used b calls). rewrite Z.add_0_l.
    specialize (IH now db' (fun c Hc => Ha c (list_elem_of_further _ _ _ Hc)) Hst' Ho). lra.
Qed.

Lemma fl_half x : (1 # 1000000000000 <= x)%Q -> ((1 # 2) * x <= fl x)%Q.
Proof using Rounding0.
  intros Hx. eapply Qle_trans; [|apply fl_lower; lra].
  assert (ulp * x <= (1 # 4) * x)%Q by (apply Qmult_le_compat_r; [discriminate|lra]).
  assert (tiny <= 1 # 4000000000000)%Q by discriminate. lra.
Qed.

Lemma Seconds_pos d : (0 < d <= MaxInt64)%Z -> (1 # 4000000000 <= Seconds fl d)%Q.
Proof using Rounding0.
  intros Hd. unfold Seconds. set (sec := (d / time.Second)%Z). set (nsec := (d mod time.Second)%Z).
  assert (d = time.Second * sec + nsec)%Z as Hdm by (apply Z.div_mod; done).
  assert (0 <= nsec < time.Second)%Z as Hn by (apply Z.mod_pos_bound; done).
  assert (0 <= sec <= 2 ^ 53)%Z as Hs by (unfold MaxInt64, time.Second in *; lia).
  assert (0 <= fl (fl (inject_Z nsec) / 1000000000))%Q as Hf.
  { apply fl_nonneg. apply Qle_shift_div_l; [done|]. rewrite Qmult_0_l. apply fl_nonneg. change 0%Q with (inject_Z 0). rewrite <- Zle_Qle. lia. }
  assert (fl (inject_Z sec) == inject_Z sec)%Q as Hsec by (apply fl_int; lia).
  rewrite Hsec. destruct (decide (sec = 0%Z)) as [E|E].
  - rewrite E. clear Hsec. assert (1 # 1000000000 <= fl (inject_Z nsec) / 1000000000)%Q as H1.
    { apply Qle_shift_div_l; [done|]. 
      assert (fl (inject_Z nsec) == inject_Z nsec)%Q as -> by (apply fl_int; unfold time.Second in *; lia).
      change ((1 # 1000000000) * 1000000000)%Q with (1000000000 # 1000000000). assert ((1000000000 # 1000000000) == inject_Z 1)%Q as -> by reflexivity.
      rewrite <- Zle_Qle. unfold time.Second in *. lia. }
    pose proof (fl_half _ ltac:(eapply Qle_trans; [|exact H1]; discriminate)) as H2.
    assert (1 # 2000000000 <= inject_Z 0 + fl (fl (inject_Z nsec) / 1000000000))%Q as H3.
    { change (inject_Z 0) with 0%Q. lra. }
    pose proof (fl_half _ ltac:(eapply Qle_trans; [|exact H3]; discriminate)) as H4. lra.
  - eapply Qle_trans; [|apply (fl_ge_int _ 1); [done|]]; [discriminate|].
    assert (inject_Z 1 <= inject_Z sec)%Q by (rewrite <- Zle_Qle; lia). lra.
Qed.

Lemma round_even_nonneg x : (0 <= x)%Q -> (0 <= round_even x)%Z.
Proof using.
  intros Hx. unfold round_even. assert (0 <= Qfloor x)%Z by (change 0%Z with (Qfloor 0); by apply Qfloor_resp_le).
  repeat case_match; lia.
Qed.

Lemma NewBucket_ok namespace serverName suffix maxTokens period :
  (1 <= maxTokens < 2 ^ 31)%Z -> (0 < period <= MaxInt64)%Z ->
  bucket_ok (NewBucket fl namespace serverName suffix maxTokens period).
Proof using Rounding0.
  intros Hm Hp. pose proof (Seconds_pos period Hp) as Hs. split; cbn; [done| |].
  - apply fl_nonneg, Qle_shift_div_l; [done|]. rewrite Qmult_0_l. change 0%Q with (inject_Z 0). rewrite <- Zle_Qle.
    apply round_even_nonneg, Qmult_le_0_compat; [|done]. apply fl_nonneg, Qle_shift_div_l; [lra|]. rewrite Qmult_0_l.
    change 0%Q with (inject_Z 0). rewrite <- Zle_Qle. lia.
  - assert (1 # 4000000000 <= fl (2 * Seconds fl period))%Q as Hf.
    { eapply Qle_trans; [|apply fl_half]; [lra|]. eapply Qle_trans; [|apply Qmult_le_l; [done|exact Hs]]. discriminate. }
    rewrite Zlt_Qlt. eapply Qlt_le_trans; [|apply Qle_ceiling]. change (inject_Z 0) with 0%Q. lra.
Qed.

(** C9. The limit holds over every window of every history.  Take any checks that have been
    made, from the empty store on, and then the checks of a window, in the order of the
    server's clock, by however many servers and whatever other buckets they involve.  The
    calls the bucket admits in the window are at most its capacity plus what the refill
    rate gives between the ends of the window, however long the bucket was left alone
    before; up to the rounding of floating-point numbers: a relative error of the rate
    below [2^-51], and, per check, less than [2^-51] of the capacity.  Expired entries do
    not break the bound. *)
Theorem rate_limit_bound namespace serverName suffix maxTokens period past window from until :
  (1 <= maxTokens < 2 ^ 31)%Z -> (0 < period <= MaxInt64)%Z ->
  let b := NewBucket fl namespace serverName suffix maxTokens period in
  (forall c, c ∈ past ++ window -> agrees b c.2) -> ordered from until window ->
  (inject_Z (admitted b window (after past ∅)) <=
     inject_Z maxTokens + (1 + ulp) * (1 + ulp) * rate b * seconds (until - from) + slack b * inject_Z (used b window))%Q.
Proof using Rounding0.
  intros Hm Hp b Ha Ho. assert (bucket_ok b) as Hb by (by apply NewBucket_ok).
  apply (admitted_window b window from until); [done| | |done].
  - intros c Hc. apply Ha, elem_of_app. by right.
  - apply after_ok; [done| |by intros st; rewrite lookup_empty]. intros c Hc. apply Ha, elem_of_app. by left.
Qed.
End rounding.

(** A check consumes from all of its buckets or from none.  It is allowed exactly when
    every bucket has a token, and then takes one from each; otherwise the first bucket
    without a token is named, no token is taken, and the refilled amounts are stored.
    Buckets that are not checked keep their state. *)
Theorem consume_all_or_nothing fl now (buckets : list TokenBucket) db :
  NoDup (tb_key <$> buckets) -> (forall b, b ∈ buckets -> (0 < tb_expireSeconds b)%Z) ->
  let '(r, db') := ConsumeAll fl now buckets db in
  (match r with
   | None => forall b, b ∈ buckets -> (1 <= refill fl now b db)%Q /\
       db' !! tb_key b = Some (written now b (fl (refill fl now b db - 1)%Q))
   | Some i => (exists b, buckets !! i = Some b /\ (refill fl now b db < 1)%Q) /\
       (forall j b, j < i -> buckets !! j = Some b -> (1 <= refill fl now b db)%Q) /\
       forall b, b ∈ buckets -> db' !! tb_key b = Some (written now b (refill fl now b db))
   end) /\
  forall key, (key ∉ tb_key <$> buckets) -> db' !! key = db !! key.
Proof.
  intros Hn He. assert (forall b, b ∈ buckets -> agrees b buckets) as Ha.
  { intros b Hb b' Hb' E. by eapply (NoDup_fmap_elem tb_key). }
  assert (forall b, b ∈ buckets -> uses b buckets = true) as Hu.
  { intros b Hb. apply bool_decide_eq_true, list_elem_of_fmap. eauto. }
  destruct (ConsumeAll fl now buckets db) as [r db'] eqn:E. split.
  - assert (forall b, b ∈ buckets -> db' !! tb_key b = Some (written now b
      (match r with None => fl (refill fl now b db - 1)%Q | Some _ => refill fl now b db end))) as Hk.
    { intros b Hb. pose proof (ConsumeAll_spec fl now buckets db b (Ha b Hb) (He b Hb)) as H. rewrite E in H.
      destruct H as [_ H]. by rewrite (Hu b Hb) in H. }
    unfold ConsumeAll in E. destruct buckets as [|b0 l]; [injection E as <- <-; intros b ?%elem_of_nil; done|].
    destruct (first_reject fl now (b0 :: l) db) as [i|] eqn:Ef; injection E as <- <-.
    + destruct (first_reject_Some _ _ _ _ _ Ef) as [Hlt Hge]. done.
    + intros b Hb. split; [|by apply Hk]. by apply (first_reject_None fl now (b0 :: l) db).
  - intros key Hkey. replace db' with (ConsumeAll fl now buckets db).2 by (by rewrite E). by apply ConsumeAll_other.
Qed.

(** ** Separate budgets *)
Section users.
Context (fl : Q -> Q) (namespace name : string).

(** The key of a bucket of this server. *)
Definition key_of (suffix : string) : string := deriveKeyPrefix namespace name +:+ suffix.

Lemma key_of_inj s t : key_of s = key_of t -> s = t.
Proof using. intros E. by apply app_string_inj in E as [_ ->]. Qed.

(** The limiter comes from a configuration of this server, with tool names that satisfy [P]. *)
Record limiter_of (P : string -> Prop) (l : limiter) : Prop := {
  lo_server : forall b, lim_serverBucket l = Some b -> tb_key b = key_of "shared";
  lo_tools : forall t b, lim_toolBuckets l !! t = Some b -> tb_key b = key_of ("shared:tool:" +:+ t);
  lo_user : forall s, lim_perUserSpec l = Some s -> spec_namespace s = namespace /\ spec_serverName s = name;
  lo_user_tools : forall t s, lim_perUserTools l !! t = Some s ->
    spec_namespace s = namespace /\ spec_serverName s = name /\ P t;
}.

Lemma newBucket_key suffix c b : newBucket fl namespace name suffix c = inr b -> tb_key b = key_of suffix.
Proof using. unfold newBucket. destruct (validateBucketCRD c) as [|[m p]]; [done|]. by intros [= <-]. Qed.

Lemma newBucketSpec_server c s :
  newBucketSpec namespace name c = inr s -> spec_namespace s = namespace /\ spec_serverName s = name.
Proof using. unfold newBucketSpec. destruct (validateBucketCRD c) as [|[m p]]; [done|]. by intros [= <-]. Qed.

Lemma optional_inr {A B} (f : A -> limit_error + B) x y b :
  optional f x = inr y -> y = Some b -> exists a, x = Some a /\ f a = inr b.
Proof using. destruct x as [a|]; cbn; [|by intros [= <-]]. destruct (f a) eqn:E; [done|]. intros [= <-] [= <-]. eauto. Qed.

Lemma set_if_Some {A} k (x : option A) m k' a :
  set_if k x m !! k' = Some a -> (k' = k /\ x = Some a) \/ m !! k' = Some a.
Proof using. destruct x as [a'|]; cbn; [|eauto]. intros [[-> ->]|[_ ?]]%lookup_insert_Some; eauto. Qed.

Lemma add_tools_ok P tools l l' :
  limiter_of P l -> (forall t, t ∈ tools -> P (trl_Name t)) ->
  add_tools fl namespace name tools l = inr l' -> limiter_of P l'.
Proof using.
  revert l. induction tools as [|t tools IH]; intros l Hl HP; cbn [add_tools]; [by intros [= <-]|].
  destruct (optional (newBucket _ _ _ _) _) as [|shared] eqn:Es; [done|].
  destruct (optional (newBucketSpec _ _) _) as [|perUser] eqn:Eu; [done|].
  apply IH; [|intros; apply HP; by right]. destruct Hl as [H1 H2 H3 H4]. split; cbn; [done| |done|].
  - intros k b [[-> E]|?]%set_if_Some; [|eauto].
    destruct (optional_inr _ _ _ _ Es E) as (c & _ & Hc). by eapply newBucket_key.
  - intros k s [[-> E]|?]%set_if_Some; [|eauto].
    destruct (optional_inr _ _ _ _ Eu E) as (c & _ & Hc). apply newBucketSpec_server in Hc as [? ?].
    split_and!; [done..|]. apply HP. left.
Qed.

Lemma newLimiter_ok P cfg l :
  newLimiter fl namespace name (Some cfg) = inr (Some l) -> (forall t, t ∈ rlc_Tools cfg -> P (trl_Name t)) ->
  limiter_of P l.
Proof using.
  unfold newLimiter. destruct (optional (newBucket _ _ _ _) _) as [|shared] eqn:Es; [done|].
  destruct (optional (newBucketSpec _ _) _) as [|perUser] eqn:Eu; [done|].
  destruct (add_tools _ _ _ _ _) as [|l'] eqn:Ea; [done|]. intros [= <-] HP.
  eapply add_tools_ok; [|exact HP|exact Ea]. split; cbn.
  - intros b E. destruct (optional_inr _ _ _ _ Es E) as (c & _ & Hc). by eapply newBucket_key.
  - intros t b. by rewrite lookup_empty.
  - intros s E. destruct (optional_inr _ _ _ _ Eu E) as (c & _ & Hc). by eapply newBucketSpec_server.
  - intros t s. by rewrite lookup_empty.
Qed.

Lemma add_tools_server tools l l' :
  add_tools fl namespace name tools l = inr l' -> lim_serverBucket l' = lim_serverBucket l.
Proof using.
  revert l. induction tools as [|t tools IH]; intros l; cbn [add_tools]; [by intros [= <-]|].
  do 2 (destruct (optional _ _); [done|]). intros E. apply (IH _ E).
Qed.

Lemma newLimiter_server cfg sh l :
  newLimiter fl namespace name (Some cfg) = inr (Some l) -> rlc_Shared cfg = Some sh ->
  (1 <= rlb_MaxTokens sh)%Z /\ (0 < rlb_RefillPeriod sh)%Z /\
  lim_serverBucket l = Some (NewBucket fl namespace name "shared" (rlb_MaxTokens sh) (rlb_RefillPeriod sh)).
Proof using.
  unfold newLimiter. intros E Hsh. rewrite Hsh in E. cbn [optional] in E. unfold newBucket, validateBucketCRD in E.
  destruct (rlb_MaxTokens sh <? 1)%Z eqn:E1; [done|]. destruct (rlb_RefillPeriod sh <=? 0)%Z eqn:E2; [done|].
  destruct (optional (newBucketSpec _ _) _); [done|].
  destruct (add_tools _ _ _ _ _) eqn:Ea; [done|]. injection E as <-. apply add_tools_server in Ea.
  split; [|split; [|exact Ea]]; lia.
Qed.

(** The keys of the buckets a request is checked against. *)
Lemma checks_keys P l tool user b :
  limiter_of P l -> b ∈ checks fl l tool user ->
  (lim_serverBucket l = Some b /\ tb_key b = key_of "shared") \/ tb_key b = key_of ("shared:tool:" +:+ tool) \/
  (user <> "" /\ tb_key b = key_of ("user:" +:+ user)) \/
  (user <> "" /\ P tool /\ tb_key b = key_of ("user-tool:" +:+ tool +:+ ":" +:+ user)).
Proof using.
  intros [H1 H2 H3 H4]. unfold checks. rewrite !elem_of_app. intros [Hb|[Hb|Hb]].
  - destruct (lim_serverBucket l) as [b'|] eqn:E; cbn in Hb; [|by apply elem_of_nil in Hb].
    apply list_elem_of_singleton in Hb as ->. left. split; [done|]. by apply H1.
  - case_decide; [|by apply elem_of_nil in Hb]. destruct (lim_toolBuckets l !! tool) as [b'|] eqn:E; cbn in Hb; [|by apply elem_of_nil in Hb].
    apply list_elem_of_singleton in Hb as ->. right. left. by apply H2.
  - case_decide; [|by apply elem_of_nil in Hb]. right. right. apply elem_of_app in Hb as [Hb|Hb].
    + destruct (lim_perUserSpec l) as [s|] eqn:E; cbn in Hb; [|by apply elem_of_nil in Hb].
      apply list_elem_of_singleton in Hb as ->. left. split; [done|]. cbn. destruct (H3 s eq_refl) as [-> ->]. done.
    + case_decide; [|by apply elem_of_nil in Hb]. destruct (lim_perUserTools l !! tool) as [s|] eqn:E; cbn in Hb; [|by apply elem_of_nil in Hb].
      apply list_elem_of_singleton in Hb as ->. right. cbn. destruct (H4 tool s E) as (-> & -> & ?). done.
Qed.

(** Users do not spend each other's budgets.  When no limited tool has a colon in its
    name, a request of one user never changes the per-user bucket of another user,
    neither the one of the server nor the one of any tool, whatever the identifiers of
    the users contain. *)
Theorem user_budgets_separate cfg l up now tool user other db :
  newLimiter fl namespace name (Some cfg) = inr (Some l) ->
  (forall t, t ∈ rlc_Tools cfg -> no_char ":" (trl_Name t)) -> user <> other ->
  let '(_, db') := limiter_Allow fl up now (Some l) tool user db in
  db' !! key_of ("user:" +:+ other) = db !! key_of ("user:" +:+ other) /\
  forall t, no_char ":" t ->
    db' !! key_of ("user-tool:" +:+ t +:+ ":" +:+ other) = db !! key_of ("user-tool:" +:+ t +:+ ":" +:+ other).
Proof using.
  intros Hl HP Hne. apply newLimiter_ok with (P := no_char ":") in Hl; [|done].
  assert (forall key, (key ∉ tb_key <$> checks fl l tool user) ->
    let '(_, db') := limiter_Allow fl up now (Some l) tool user db in db' !! key = db !! key) as Hother.
  { intros key Hk. unfold limiter_Allow. case_decide; [done|]. destruct (negb up); [done|].
    pose proof (ConsumeAll_other fl now (checks fl l tool user) db key Hk) as Hc.
    by destruct (ConsumeAll fl now (checks fl l tool user) db) as [[i|] db']. }
  destruct (limiter_Allow fl up now (Some l) tool user db) as [v db'].
  split; [apply Hother|intros t Ht; apply Hother]; intros (b & E & Hb)%list_elem_of_fmap;
    destruct (checks_keys _ _ _ _ _ Hl Hb) as [[_ Hk]|[Hk|[[_ Hk]|(_ & Htool & Hk)]]];
    rewrite Hk in E; apply key_of_inj in E; try discriminate E.
  - by apply app_string_inj in E as [_ ->].
  - injection E as E. change (t +:+ String ":" other = tool +:+ String ":" user) in E.
    by apply split_at_char in E as [_ ->].
Qed.
End users.

(** ** Where the limiter is applied ([limiter.go], [middleware.go]) *)
Section gate.
Context (fl : Q -> Q).

(** [Allow]: the outer [None] is a nil limiter. *)
Definition AllowIdentity (up : bool) (now : Z) (l : option (option limiter)) (identity : option Identity)
    (toolName : string) (db : gmap string bucket_state) : verdict * gmap string bucket_state :=
  match l with
  | None => (Allowed, db)
  | Some l =>
      let userID := match identity with Some i => id_Subject i | None => "" end in
      limiter_Allow fl up now l toolName userID db
  end.

Inductive http_outcome := PassedOn | TooManyRequests (retryAfter : Duration).

(** [parsed] is the method and the resource of a parsed request; a check that fails lets
    the request pass. *)
Definition rateLimitHandler (up : bool) (now : Z) (l : option (option limiter)) (identity : option Identity)
    (parsed : option (string * string)) (db : gmap string bucket_state) : http_outcome * gmap string bucket_state :=
  match parsed with
  | None => (PassedOn, db)
  | Some (method, resourceID) =>
      if decide (method <> "tools/call") then (PassedOn, db)
      else match AllowIdentity up now l identity resourceID db with
      | (Rejected retryAfter, db) => (TooManyRequests retryAfter, db)
      | (CheckFailed, db) => (PassedOn, db)
      | (Allowed, db) => (PassedOn, db)
      end
  end.
End gate.

(** ** Witnesses, with exact arithmetic *)
#[export] Instance exact_rounding : Rounding (fun x => x).
Proof.
  split; [done|done| |]; intros x Hx; pose proof ulp_range; pose proof tiny_pos;
    assert (0 <= ulp * x)%Q by (apply Qmult_le_0_compat; lra); lra.
Qed.

Definition sample_bucket : TokenBucket := NewBucket (fun x => x) "ns" "srv" "shared" 1 (10 * time.Second).

(** Used once, left alone for twenty seconds, then used three times at once: the bucket
    of two tokens admits two. *)
Lemma rate_limit_bound_witness :
  let b := NewBucket (fun x => x) "ns" "srv" "shared" 2 (20 * time.Second) in
  let past := [(0%Z, [b])] in
  let window := [(20000000%Z, [b]); (20000000%Z, [b]); (20000000%Z, [b])] in
  admitted (fun x => x) b window (after (fun x => x) past ∅) = 2%Z /\
  (inject_Z (admitted (fun x => x) b window (after (fun x => x) past ∅)) <=
     inject_Z 2 + (1 + ulp) * (1 + ulp) * rate (fun x => x) b * seconds (20000000 - 20000000) +
     slack (fun x => x) b * inject_Z (used b window))%Q.
Proof.
  intros b past window. split; [vm_compute; reflexivity|].
  apply (rate_limit_bound (fun x => x) "ns" "srv" "shared" 2 (20 * time.Second) past window 20000000 20000000).
  - done.
  - done.
  - intros c Hc b' Hb' _. cbn in Hc. repeat (apply elem_of_cons in Hc as [->|Hc]; [by apply list_elem_of_singleton in Hb'|]).
    by apply elem_of_nil in Hc.
  - cbn. lia.
Defined.

Lemma consume_all_or_nothing_witness :
  (ConsumeAll (fun x => x) 0 [sample_bucket] ∅).1 = None /\
  (1 <= refill (fun x => x) 0 sample_bucket ∅)%Q.
Proof.
  pose proof (consume_all_or_nothing (fun x => x) 0 [sample_bucket] ∅) as H.
  split; [vm_compute; reflexivity|].
  destruct H as [H _]; [apply NoDup_singleton|by intros b ->%list_elem_of_singleton|]. apply H. left.
Defined.

Definition sample_limits : RateLimitConfig := {|
  rlc_Shared := None; rlc_PerUser := Some {| rlb_MaxTokens := 2; rlb_RefillPeriod := 10 * time.Second |};
  rlc_Tools := [{| trl_Name := "get"; trl_Shared := None;
                   trl_PerUser := Some {| rlb_MaxTokens := 1; rlb_RefillPeriod := 10 * time.Second |} |}] |}.

Lemma user_budgets_separate_witness :
  exists l, newLimiter (fun x => x) "ns" "srv" (Some sample_limits) = inr (Some l) /\
    (limiter_Allow (fun x => x) true 0 (Some l) "get" "alice" ∅).2 !! key_of "ns" "srv" "user:bob" = None.
Proof.
  eexists. split; [reflexivity|].
  match goal with |- (limiter_Allow _ _ _ (Some ?l) _ _ _).2 !! _ = _ =>
    pose proof (user_budgets_separate (fun x => x) "ns" "srv" sample_limits l true 0 "get" "alice" "bob" ∅) as H end.
  destruct (limiter_Allow _ _ _ _ _ _ _) as [v db']. destruct H as [H _]; [reflexivity| |done|].
  - intros t ->%list_elem_of_singleton. vm_compute. done.
  - etransitivity; [exact H|reflexivity].
Defined.

(** A colon in a tool name lets two users share a bucket. *)
Example shared_user_tool_key :
  let spec := {| spec_namespace := "ns"; spec_serverName := "srv"; spec_maxTokens := 1; spec_refillPeriod := time.Second |} in
  let l := {| lim_serverBucket := None; lim_toolBuckets := ∅; lim_perUserSpec := None;
              lim_perUserTools := {[ "a" := spec; "a:b" := spec ]} |} in
  tb_key <$> checks (fun x => x) l "a" "b:c" = tb_key <$> checks (fun x => x) l "a:b" "c".
Proof. vm_compute. reflexivity. Qed.

(** One token in thirty days is sent to Redis as no refill at all. *)
Example refill_rate_lost :
  sent_rate (fun x => x) (NewBucket (fun x => x) "ns" "srv" "shared" 1 (30 * 24 * time.Hour)) == 0.
Proof. reflexivity. Qed.
