(* ===== verification/CachingAggregator.v ===== *)
(** * The cache of aggregated views ([pkg/vmcp/aggregator/caching_aggregator.go])

    The cache keeps the view of a caller for a while.  What a sweep over the backends
    yields depends on when it starts and on the caller's credentials: that is the argument
    [sweep].  A lookup that misses, the sweep and the addition are separate steps, so
    requests interleave; a cached view can be evicted at any time.  [sha256hex] is the
    hash of the key. *)

From Stdlib Require Import Ascii.
From S2P Require Import Prelude VmcpTypes SessionBinding.

(** What the context of a request carries. *)
Record caller := {
  call_identity : option Identity;
  call_forwarded : gmap string string;
}.

Definition NUL : ascii := ascii_of_nat 0.

(** ** The key *)
Definition subject_of (c : caller) : string :=
  match call_identity c with Some i => id_Subject i | None => "" end.

(** Pieces, each ended by a zero byte. *)
Fixpoint terminated (l : list string) : string :=
  match l with
  | [] => EmptyString
  | s :: l => s +:+ String NUL (terminated l)
  end.

Definition header_pairs (c : caller) : list (string * string) :=
  (fun k => (k, default "" (call_forwarded c !! k))) <$> merge_sort String.le (elements (dom (call_forwarded c))).

Definition key_text (c : caller) (backends : list Backend) : string :=
  subject_of c +:+ String NUL
    (terminated ((fun kv => kv.1 +:+ "=" +:+ kv.2) <$> header_pairs c) +:+ String NUL
       (terminated (merge_sort String.le (b_ID <$> backends)))).

(** ** The cache *)
Record cacheEntry (V : Type) := {
  ce_caps : V;
  ce_at : Time;
}.
Arguments Build_cacheEntry {V} _ _.
Arguments ce_caps {V} _.
Arguments ce_at {V} _.

(** A sweep in progress. *)
Record sweeping := {
  sw_caller : caller;
  sw_backends : list Backend;
  sw_start : Time;
}.

Record cachingAggregator (V : Type) := {
  ca_cache : gmap string (cacheEntry V);
  ca_sweeps : gmap nat sweeping;
  ca_now : Time;                          (* the clock of the last step *)
}.
Arguments Build_cachingAggregator {V} _ _ _.
Arguments ca_cache {V} _.
Arguments ca_sweeps {V} _.
Arguments ca_now {V} _.

(** Is the aggregator wrapped at all? *)
Definition NewCachingAggregator {V} (next : bool) (ttl : Duration) (now : Time) : option (cachingAggregator V) :=
  if negb next || (ttl <=? 0)%Z then None else Some (Build_cachingAggregator ∅ ∅ now).

Section caching.
Context {V : Type} (sha256hex : string -> string) (ttl : Duration).
Context (sweep : Time -> caller -> list Backend -> option V).

Definition cacheKey (c : caller) (backends : list Backend) : string := sha256hex (key_text c backends).

(** The first part of [AggregateCapabilities]: a fresh entry is the answer. *)
Definition cached (now : Time) (c : caller) (backends : list Backend) (s : cachingAggregator V) : option V :=
  match ca_cache s !! cacheKey c backends with
  | Some e => if (time.Sub now (ce_at e) <? ttl)%Z then Some (ce_caps e) else None
  | None => None
  end.

Definition start_sweep (tid : nat) (now : Time) (c : caller) (backends : list Backend) (s : cachingAggregator V)
    : cachingAggregator V :=
  Build_cachingAggregator (ca_cache s)
    (<[tid := {| sw_caller := c; sw_backends := backends; sw_start := now |}]> (ca_sweeps s)) now.

(** The second part: the sweep answers, and its result is kept unless it is an error. *)
Definition finish_sweep (tid : nat) (now : Time) (s : cachingAggregator V) : option V * cachingAggregator V :=
  match ca_sweeps s !! tid with
  | None => (None, s)
  | Some w =>
      let r := sweep (sw_start w) (sw_caller w) (sw_backends w) in
      (r, Build_cachingAggregator
            (match r with
             | Some caps => <[cacheKey (sw_caller w) (sw_backends w) := Build_cacheEntry caps now]> (ca_cache s)
             | None => ca_cache s
             end) (delete tid (ca_sweeps s)) now)
  end.

Definition InvalidateAll (now : Time) (s : cachingAggregator V) : cachingAggregator V :=
  Build_cachingAggregator ∅ (ca_sweeps s) now.

Definition evict_view (key : string) (s : cachingAggregator V) : cachingAggregator V :=
  Build_cachingAggregator (delete key (ca_cache s)) (ca_sweeps s) (ca_now s).

(** Subjects, headers and identifiers without zero bytes; header names without an equals
    sign, which no field name has. *)
Definition plain (c : caller) (backends : list Backend) : Prop :=
  no_char NUL (subject_of c) /\
  map_Forall (fun k v => no_char NUL k /\ no_char NUL v /\ no_char "=" k) (call_forwarded c) /\
  Forall (no_char NUL) (b_ID <$> backends).

Inductive cache_step : cachingAggregator V -> cachingAggregator V -> Prop :=
  | cache_miss tid now c backends s :
      (ca_now s <= now)%Z -> plain c backends -> ca_sweeps s !! tid = None -> cached now c backends s = None ->
      cache_step s (start_sweep tid now c backends s)
  | cache_swept tid now s :
      (ca_now s <= now)%Z -> cache_step s (finish_sweep tid now s).2
  | cache_purged now s : (ca_now s <= now)%Z -> cache_step s (InvalidateAll now s)
  | cache_evicted key s : cache_step s (evict_view key s).

Lemma terminated_inj l1 l2 r1 r2 :
  Forall (fun s => no_char NUL s /\ s <> "") l1 -> Forall (fun s => no_char NUL s /\ s <> "") l2 ->
  terminated l1 +:+ String NUL r1 = terminated l2 +:+ String NUL r2 -> l1 = l2 /\ r1 = r2.
Proof using.
  revert l2. induction l1 as [|s l1 IH]; intros [|t l2]; cbn [terminated].
  - intros _ _ E. by simplify_eq.
  - intros _ [[Ht Hne] _]%Forall_cons E. destruct t as [|a t]; [done|]. destruct (proj1 Ht). by injection E.
  - intros [[Hs Hne] _]%Forall_cons _ E. destruct s as [|a s]; [done|]. destruct (proj1 Hs). by injection E.
  - intros [[Hs _] H1]%Forall_cons [[Ht _] H2]%Forall_cons E. rewrite !app_string_assoc in E.
    apply split_at_char in E as [-> E]; [|done..]. by destruct (IH l2 H1 H2 E) as [-> ->].
Qed.

Lemma terminated_inj_last l1 l2 :
  Forall (no_char NUL) l1 -> Forall (no_char NUL) l2 -> terminated l1 = terminated l2 -> l1 = l2.
Proof using.
  revert l2. induction l1 as [|s l1 IH]; intros [|t l2]; cbn [terminated]; [done|by destruct t|by destruct s|].
  intros [Hs H1]%Forall_cons [Ht H2]%Forall_cons [-> E]%split_at_char; [|done..]. by rewrite (IH l2).
Qed.

Lemma header_pairs_spec c k v : (k, v) ∈ header_pairs c <-> call_forwarded c !! k = Some v.
Proof using.
  unfold header_pairs. rewrite list_elem_of_fmap. split.
  - intros (k' & E & Hk). simplify_eq. rewrite merge_sort_Permutation, elem_of_elements, elem_of_dom in Hk.
    destruct Hk as [v ->]. done.
  - intros E. exists k. rewrite E. split; [done|]. rewrite merge_sort_Permutation, elem_of_elements. by apply elem_of_dom.
Qed.

Lemma header_pairs_plain c backends : plain c backends ->
  Forall (fun kv => no_char NUL kv.1 /\ no_char NUL kv.2 /\ no_char "=" kv.1) (header_pairs c).
Proof using. intros (_ & Hh & _). apply Forall_forall. intros [k v] E%header_pairs_spec. apply (Hh k v E). Qed.

Lemma pair_text_inj kv kv' :
  no_char "=" kv.1 -> no_char "=" kv'.1 -> kv.1 +:+ "=" +:+ kv.2 = kv'.1 +:+ "=" +:+ kv'.2 -> kv = kv'.
Proof using. destruct kv, kv'. cbn. intros H1 H2 [-> ->]%split_at_char; done. Qed.

Lemma pair_texts_inj (l l' : list (string * string)) :
  Forall (fun kv => no_char "=" kv.1) l -> Forall (fun kv => no_char "=" kv.1) l' ->
  (fun kv => kv.1 +:+ "=" +:+ kv.2) <$> l = (fun kv => kv.1 +:+ "=" +:+ kv.2) <$> l' -> l = l'.
Proof using.
  revert l'. induction l as [|kv l IH]; intros [|kv' l']; cbn; [done..|].
  intros [H1 Hl]%Forall_cons [H2 Hl']%Forall_cons [= E%pair_text_inj Es]; [|done..]. subst. by rewrite (IH l').
Qed.

(** The key determines whom a view is for. *)
Lemma key_text_inj c c' backends backends' :
  plain c backends -> plain c' backends' -> key_text c backends = key_text c' backends' ->
  subject_of c = subject_of c' /\ call_forwarded c = call_forwarded c' /\ (b_ID <$> backends) ≡ₚ (b_ID <$> backends').
Proof using.
  intros Hp Hp' E. pose proof (header_pairs_plain _ _ Hp) as Hh. pose proof (header_pairs_plain _ _ Hp') as Hh'.
  destruct Hp as (Hs & _ & Hb), Hp' as (Hs' & _ & Hb'). unfold key_text in E.
  apply split_at_char in E as [-> E]; [|done..]. split; [done|].
  assert (forall l, Forall (fun kv => no_char NUL kv.1 /\ no_char NUL kv.2 /\ no_char "=" kv.1) l ->
    Forall (fun s => no_char NUL s /\ s <> "") ((fun kv : string * string => kv.1 +:+ "=" +:+ kv.2) <$> l)) as Hl.
  { intros l Hl. apply Forall_fmap. eapply Forall_impl; [exact Hl|]. intros [k v] (? & ? & _). cbn.
    rewrite !no_char_app. split; [done|by destruct k]. }
  apply terminated_inj in E as [E1 E2]; [|by apply Hl..].
  apply pair_texts_inj in E1; [|eapply Forall_impl; [done|]; naive_solver..].
  apply terminated_inj_last in E2; [|by rewrite merge_sort_Permutation..]. split.
  - apply map_eq. intros k. apply option_eq. intros v. by rewrite <- !header_pairs_spec, E1.
  - by rewrite <- (merge_sort_Permutation String.le (b_ID <$> backends)), E2, merge_sort_Permutation.
Qed.

(** A view that was swept for a caller, no earlier than [since], and kept at [at_]. *)
Definition swept_for (since at_ : Time) (v : V) (c : caller) (backends : list Backend) : Prop :=
  exists t, (since <= t <= at_)%Z /\ sweep t c backends = Some v.

Definition cache_ok (since : Time) (s : cachingAggregator V) : Prop :=
  (since <= ca_now s)%Z /\
  map_Forall (fun key e => (ce_at e <= ca_now s)%Z /\ exists c backends,
    key = cacheKey c backends /\ plain c backends /\ swept_for since (ce_at e) (ce_caps e) c backends) (ca_cache s) /\
  map_Forall (fun _ w => (since <= sw_start w <= ca_now s)%Z /\ plain (sw_caller w) (sw_backends w)) (ca_sweeps s).

Lemma cache_ok_later since s now cache sweeps :
  cache_ok since s -> (ca_now s <= now)%Z -> cache ⊆ ca_cache s -> sweeps ⊆ ca_sweeps s ->
  cache_ok since (Build_cachingAggregator cache sweeps now).
Proof using.
  intros (Hn & Hc & Hs) Hle Hsub Hsub'. split; [cbn; lia|]. split.
  - intros k e He. destruct (Hc k e) as [? ?]; [by eapply lookup_weaken|]. split; [cbn; lia|done].
  - intros k w Hw. destruct (Hs k w) as [? ?]; [by eapply lookup_weaken|]. split; [cbn; lia|done].
Qed.

Lemma cache_ok_step since s s' : cache_ok since s -> cache_step s s' -> cache_ok since s'.
Proof using.
  intros Hok Hstep. destruct Hstep as [tid now c backends s Hle Hp _ _|tid now s Hle|now s Hle|key s].
  - destruct (cache_ok_later since s now (ca_cache s) (ca_sweeps s)) as (Hn & Hc & Hs); [done..|].
    split; [done|]. split; [done|]. apply map_Forall_insert_2; [|done]. cbn in *. split; [|done]. lia.
  - unfold finish_sweep. destruct (ca_sweeps s !! tid) as [w|] eqn:Ew; [|done].
    destruct (cache_ok_later since s now (ca_cache s) (delete tid (ca_sweeps s))) as (Hn & Hc & Hs);
      [done..|apply delete_subseteq|]. split; [done|]. split; [|done]. cbn in *.
    destruct (sweep _ _ _) as [caps|] eqn:Esw; [|done]. apply map_Forall_insert_2; [|done].
    destruct Hok as (_ & _ & Hsw). destruct (Hsw tid w Ew) as [? ?]. cbn. split; [lia|].
    exists (sw_caller w), (sw_backends w). split; [done|]. split; [done|]. exists (sw_start w). split; [lia|done].
  - apply (cache_ok_later since s); [done..|apply map_empty_subseteq|done].
  - apply (cache_ok_later since s); [done..|apply delete_subseteq|done].
Qed.

(** A caller is served a view of its own, and not an old one.  Whatever requests,
    evictions and invalidations run at the same time, a view that comes from the cache was
    swept for a request with the same subject, the same forwarded headers and the same
    backends, was kept less than the time to live ago, and was not begun before the cache
    was last empty with no sweep in progress. *)
Theorem cached_view_own since s now c backends v :
  Inj (=) (=) sha256hex -> (0 < ttl <= MaxInt64)%Z ->
  rtc cache_step (Build_cachingAggregator ∅ ∅ since) s -> (ca_now s <= now)%Z -> plain c backends ->
  cached now c backends s = Some v ->
  exists c' backends' kept, subject_of c' = subject_of c /\ call_forwarded c' = call_forwarded c /\
    (b_ID <$> backends') ≡ₚ (b_ID <$> backends) /\
    (kept <= now < kept + ttl)%Z /\ swept_for since kept v c' backends'.
Proof using.
  intros Hinj Httl Hs Hle Hp Hv.
  assert (cache_ok since s) as (_ & Hc & _).
  { remember (Build_cachingAggregator ∅ ∅ since) as s0 eqn:E0.
    assert (cache_ok since s0) as Hok by (subst; split; [cbn; lia|]; split; apply map_Forall_empty).
    clear E0 Hv Hle. induction Hs as [|s1 s2 s3 Hstep _ IH]; [done|]. by apply IH, (cache_ok_step _ s1). }
  unfold cached in Hv. destruct (ca_cache s !! _) as [e|] eqn:Ee; [|done].
  destruct (time.Sub now (ce_at e) <? ttl)%Z eqn:Et; simplify_eq.
  apply Z.ltb_lt, time.Sub_lt in Et; [|unfold MinInt64, MaxInt64 in *; lia].
  destruct (Hc _ _ Ee) as (Hat & c' & backends' & Hk & Hp' & Hsw). apply (inj sha256hex) in Hk.
  destruct (key_text_inj _ _ _ _ Hp Hp' Hk) as (? & ? & ?).
  exists c', backends', (ce_at e). split_and!; [done..|lia|lia|done].
Qed.
End caching.

Definition sample_caller : caller := {|
  call_identity := None; call_forwarded := {[ "Authorization" := "token" ]} |}.

Definition sample_sweep (t : Time) (_ : caller) (_ : list Backend) : option Time := Some t.

Lemma cached_view_own_witness :
  let s := (finish_sweep (fun x => x) sample_sweep 0 12 (start_sweep 0 10 sample_caller [] (Build_cachingAggregator ∅ ∅ 5))).2 in
  cached (fun x => x) 60 20 sample_caller [] s = Some 10%Z /\
  exists c' backends' kept, subject_of c' = "" /\ call_forwarded c' = {[ "Authorization" := "token" ]} /\
    (b_ID <$> backends') ≡ₚ [] /\ (kept <= 20 < kept + 60)%Z /\ swept_for sample_sweep 5 kept 10%Z c' backends'.
Proof.
  intros s. split; [by vm_compute|].
  assert (plain sample_caller []) as Hp.
  { split; [done|]. split; [|constructor]. apply map_Forall_singleton. vm_compute. repeat split; discriminate. }
  apply (cached_view_own (fun x => x) 60 sample_sweep 5 s 20 sample_caller [] 10%Z);
    [by intros ? ?|done| |done|done|by vm_compute].
  eapply rtc_l; [by apply (cache_miss _ _ _ 0 10 sample_caller [])|].
  eapply rtc_l; [|apply rtc_refl]. by apply (cache_swept _ _ _ 0 12).
Defined.

(** A sweep that began before an invalidation fills the cache after it. *)
Example stale_after_invalidation :
  let s := start_sweep 0 10 sample_caller [] (Build_cachingAggregator (V := Time) ∅ ∅ 5) in
  let s := (finish_sweep (fun x => x) sample_sweep 0 30 (InvalidateAll 20 s)).2 in
  cached (fun x => x) 60 40 sample_caller [] s = Some 10%Z.
Proof. by vm_compute. Qed.

(** The issuer is not part of the key: the same subject of two issuers shares a view. *)
Example issuers_share_view :
  let c1 := {| call_identity := Some (sample_identity "t1" "https://idp" "alice"); call_forwarded := ∅ |} in
  let c2 := {| call_identity := Some (sample_identity "t2" "https://other" "alice"); call_forwarded := ∅ |} in
  let s := (finish_sweep (fun x => x) sample_sweep 0 12 (start_sweep 0 10 c1 [] (Build_cachingAggregator ∅ ∅ 5))).2 in
  cached (fun x => x) 60 20 c2 [] s = Some 10%Z.
Proof. by vm_compute. Qed.
