(* ===== verification/RateLimitedCore.v ===== *)
(** * The core behind the rate limiter ([pkg/vmcp/ratelimit/decorator.go])

    The decorator asks the limiter before it hands a tool call to the core; every other
    method is the core's own.  This composes [RateLimit] with [Core]: what the limits mean
    for the requests that reach backends. *)

From Stdlib Require Import QArith Lqa.
From S2P Require Import Prelude VmcpTypes WorkflowTypes SessionBinding ParamHeaders Admission Core CoreSpec EndToEnd RateLimit.
Local Open Scope nat_scope.

Section limited.
Context (compile : string -> option (string -> bool)).
Context (range : gmap string BackendTarget -> list (string * BackendTarget)).
Context (defs_range : gmap string WorkflowDefinition -> list (string * WorkflowDefinition)).
Context (Marshal : option fields -> string + string).
Context (fl : Q -> Q).

(** The core, and its limiter; no limiter is the core itself. *)
Record decorator := {
  dec_core : coreVMCP;
  dec_limiter : option (option limiter);
}.

Definition NewDecorator (inner : coreVMCP) (l : option (option limiter)) : decorator :=
  {| dec_core := inner; dec_limiter := l |}.

(** A call that is refused carries when to try again; a check that fails lets it pass. *)
Definition decorator_CallTool (up : bool) (now : Z) (d : decorator) (identity : option Identity) (name : string)
    (args meta : option fields) (db : gmap string bucket_state)
    : list effect * (Duration + (core_error + ToolCallResult)) * gmap string bucket_state :=
  match AllowIdentity fl up now (dec_limiter d) identity name db with
  | (Rejected retryAfter, db) => ([], inl retryAfter, db)
  | (CheckFailed, db) | (Allowed, db) =>
      let '(effects, r) := CallTool compile range defs_range Marshal (dec_core d) identity name args meta in
      (effects, inr r, db)
  end.

(** Tool calls of any callers, with the time at which each is checked. *)
Record tool_request := {
  tr_now : Z;
  tr_identity : option Identity;
  tr_name : string;
  tr_args : option fields;
  tr_meta : option fields;
}.

(** What the calls send, while Redis answers. *)
Fixpoint sent_by (d : decorator) (rs : list tool_request) (db : gmap string bucket_state) : list effect :=
  match rs with
  | [] => []
  | r :: rs =>
      let '(effects, _, db) :=
        decorator_CallTool true (tr_now r) d (tr_identity r) (tr_name r) (tr_args r) (tr_meta r) db in
      effects ++ sent_by d rs db
  end.

Lemma ConsumeAll_index now (buckets : list TokenBucket) db i db' :
  ConsumeAll fl now buckets db = (Some i, db') -> is_Some (buckets !! i).
Proof using.
  unfold ConsumeAll. destruct buckets as [|b l]; [done|].
  destruct (first_reject fl now (b :: l) db) as [j|] eqn:E; [|done]. intros [= -> _].
  destruct (first_reject_Some _ _ _ _ _ E) as [(b' & -> & _) _]. by exists b'.
Qed.

Lemma CallTool_one c identity name args meta :
  length (CallTool compile range defs_range Marshal c identity name args meta).1 <= 1.
Proof using.
  destruct (CallTool compile range defs_range Marshal c identity name args meta).1 as [|e l] eqn:E; [cbn; lia|].
  destruct (CallTool_effects compile range defs_range Marshal c identity name args meta e) as [E' _];
    [rewrite E; left|]. rewrite E in E'. rewrite E'. cbn. lia.
Qed.

(** The check a request makes. *)
Definition check_of (l : limiter) (r : tool_request) : Z * list TokenBucket :=
  (tr_now r, checks fl l (tr_name r) (match tr_identity r with Some i => id_Subject i | None => "" end)).

Lemma sent_admitted c l b rs db :
  lim_serverBucket l = Some b ->
  (Z.of_nat (length (sent_by (NewDecorator c (Some (Some l))) rs db)) <= admitted fl b (check_of l <$> rs) db)%Z.
Proof using.
  intros Hb. revert db. induction rs as [|r rs IH]; intros db; [cbn; lia|]. cbn [sent_by fmap list_fmap admitted check_of].
  unfold decorator_CallTool, AllowIdentity, limiter_Allow. cbn [NewDecorator dec_limiter dec_core negb].
  set (buckets := checks fl l (tr_name r) _). assert (b ∈ buckets) as Hin.
  { unfold buckets, checks. rewrite Hb. left. }
  assert (uses b buckets = true) as -> by (apply bool_decide_eq_true, list_elem_of_fmap; eauto).
  rewrite decide_False by (intros E; rewrite E in Hin; by apply elem_of_nil in Hin).
  pose proof (CallTool_one c (tr_identity r) (tr_name r) (tr_args r) (tr_meta r)) as H1.
  destruct (ConsumeAll fl (tr_now r) buckets db) as [v db'] eqn:Ec. specialize (IH db').
  destruct v as [i|]; cbn [andb].
  - destruct (buckets !! i) eqn:Ei; [rewrite bool_decide_false by done; cbn [app]; lia|].
    destruct (ConsumeAll_index _ _ _ _ _ Ec) as [b' Eb]. congruence.
  - destruct (CallTool _ _ _ _ _ _ _ _ _) as [effects res]. rewrite bool_decide_true by done.
    rewrite length_app. cbn in H1. lia.
Qed.

Context `{!Rounding fl}.

(** The shared limit of a server bounds what its backends receive.  While Redis answers,
    the tool calls of all users together send, between two times, at most the capacity of
    the bucket plus what it refills in that time, up to the rounding of floating-point
    numbers; whatever other limits apply, and also when calls are refused or denied. *)
Theorem limited_dispatch namespace name cfg sh l c rs from until :
  newLimiter fl namespace name (Some cfg) = inr (Some l) -> rlc_Shared cfg = Some sh ->
  (rlb_MaxTokens sh < 2 ^ 31)%Z -> (rlb_RefillPeriod sh <= MaxInt64)%Z ->
  ordered from until (check_of l <$> rs) ->
  let b := NewBucket fl namespace name "shared" (rlb_MaxTokens sh) (rlb_RefillPeriod sh) in
  (inject_Z (Z.of_nat (length (sent_by (NewDecorator c (Some (Some l))) rs ∅))) <=
     inject_Z (rlb_MaxTokens sh) + growth fl b * seconds (until - from) +
     slack fl b * inject_Z (used b (check_of l <$> rs)))%Q.
Proof using Rounding0.
  intros Hl Hsh Hm Hp Ho b. destruct (newLimiter_server _ _ _ _ _ _ Hl Hsh) as (Hm1 & Hp1 & Hb).
  apply newLimiter_ok with (P := fun _ => True) in Hl; [|done].
  eapply Qle_trans; [rewrite <- Zle_Qle; apply (sent_admitted c l b rs ∅ Hb)|].
  apply (admitted_from fl b _ from until ∅ (inject_Z (rlb_MaxTokens sh)) from).
  - by apply NewBucket_ok.
  - intros ck (r & -> & _)%list_elem_of_fmap b' Hb' Hk.
    destruct (checks_keys _ _ _ _ _ _ _ _ Hl Hb') as [[E _]|[E|[[_ E]|(_ & _ & E)]]]; [rewrite Hb in E; by injection E|..];
      change (tb_key b) with (key_of namespace name "shared") in Hk; rewrite E in Hk; apply key_of_inj in Hk; discriminate Hk.
  - intros st. by rewrite lookup_empty.
  - unfold level. by rewrite lookup_empty.
  - exact Ho.
Qed.
End limited.

Definition sample_shared : RateLimitConfig := {|
  rlc_Shared := Some {| rlb_MaxTokens := 1; rlb_RefillPeriod := 10 * time.Second |}; rlc_PerUser := None; rlc_Tools := [] |}.

Definition sample_request (now : Z) : tool_request := {|
  tr_now := now; tr_identity := None; tr_name := "a_get"; tr_args := None; tr_meta := None |}.

(** Two calls in quick succession: one reaches the backend. *)
Lemma limited_dispatch_witness :
  exists l, newLimiter (fun x => x) "ns" "srv" (Some sample_shared) = inr (Some l) /\
    length (sent_by sample_compile map_to_list map_to_list sample_marshal (fun x => x)
      (NewDecorator sample_core (Some (Some l))) [sample_request 0; sample_request 5] ∅) = 1 /\
    (1 <= inject_Z 1 + growth (fun x => x) sample_bucket * seconds (5 - 0) + slack (fun x => x) sample_bucket * inject_Z 2)%Q.
Proof.
  eexists. split; [reflexivity|]. split; [vm_compute; reflexivity|].
  exact (limited_dispatch sample_compile map_to_list map_to_list sample_marshal (fun x => x) "ns" "srv"
    sample_shared {| rlb_MaxTokens := 1; rlb_RefillPeriod := 10 * time.Second |} _ sample_core
    [sample_request 0; sample_request 5] 0 5 eq_refl eq_refl ltac:(done) ltac:(done) ltac:(cbn; lia)).
Defined.
