(* ===== verification/SessionData.v ===== *)
(** * Storage of session metadata
    ([pkg/transport/session/session_data_storage.go], [session_data_storage_local.go],
    [session_data_storage_redis.go])

    The interface [DataStorage] with what its clients rely on, [DataStorageOk], and its two
    implementations.  The local one is a map that a cleanup removes old entries from; the
    other keeps JSON in Redis, with a time to live that every access renews.  Clock
    readings are arguments.  [None] is an error of the backend. *)

From Stdlib Require Import Ascii.
From S2P Require Import Prelude Base64.

Abbreviation metadata := (gmap string string) (only parsing).

(** ** The interface *)
Inductive load_result := Loaded (m : metadata) | ErrSessionNotFound | LoadFailed.

Class DataStorage (S : Type) := {
  ds_Load : Time -> string -> S -> load_result * S;
  ds_Create : Time -> string -> metadata -> S -> option bool * S;
  ds_Update : Time -> string -> metadata -> S -> option bool * S;
  ds_Delete : Time -> string -> S -> bool * S;
  ds_storable : metadata -> Prop;                        (* what survives the encoding *)
  ds_look : Time -> S -> string -> option metadata;      (* what a client can see *)
}.

(** The contents [s'] are those of [s] except for [id]. *)
Definition only_changes {S} `{DataStorage S} (now : Time) (s s' : S) (id : string) (m : option metadata) : Prop :=
  forall id', ds_look now s' id' = if decide (id' = id) then m else ds_look now s id'.

(** The promises, for a session with an identifier, as long as the backend does not fail:
    creation is only for absent sessions, updates only for present ones, a load changes
    nothing, and time alone only removes. *)
Class DataStorageOk {S : Type} `{DataStorage S} (ok : S -> Prop) : Prop := {
  ds_load : forall now id s, ok s -> id <> "" ->
    let '(r, s') := ds_Load now id s in
    ok s' /\ only_changes now s s' id (ds_look now s id) /\
    r = match ds_look now s id with Some m => Loaded m | None => ErrSessionNotFound end;
  ds_create : forall now id m s, ok s -> id <> "" -> ds_storable m ->
    let '(r, s') := ds_Create now id m s in
    ok s' /\ match ds_look now s id with
             | Some old => r = Some false /\ only_changes now s s' id (Some old)
             | None => r = Some true /\ only_changes now s s' id (Some m)
             end;
  ds_update : forall now id m s, ok s -> id <> "" -> ds_storable m ->
    let '(r, s') := ds_Update now id m s in
    ok s' /\ match ds_look now s id with
             | Some _ => r = Some true /\ only_changes now s s' id (Some m)
             | None => r = Some false /\ only_changes now s s' id None
             end;
  ds_delete : forall now id s, ok s -> id <> "" ->
    let '(r, s') := ds_Delete now id s in ok s' /\ r = true /\ only_changes now s s' id None;
  ds_expire : forall now now' s id m, ok s -> (now <= now')%Z ->
    ds_look now' s id = Some m -> ds_look now s id = Some m;
}.

(** ** In memory *)
Record localDataEntry := {
  lde_metadata : metadata;
  lde_lastAccess : Time;
}.

Record LocalSessionDataStorage := {
  lds_sessions : gmap string localDataEntry;
  lds_ttl : Duration;
}.

Definition lds_set (sessions : gmap string localDataEntry) (s : LocalSessionDataStorage) : LocalSessionDataStorage :=
  {| lds_sessions := sessions; lds_ttl := lds_ttl s |}.

Definition NewLocalSessionDataStorage (ttl : Duration) : option LocalSessionDataStorage :=
  if (ttl <=? 0)%Z then None else Some {| lds_sessions := ∅; lds_ttl := ttl |}.

Definition newLocalDataEntry (now : Time) (m : metadata) : localDataEntry :=
  {| lde_metadata := m; lde_lastAccess := now |}.

(** The lock is held for the lookup and the refresh together. *)
Definition local_Load (now : Time) (id : string) (s : LocalSessionDataStorage)
    : load_result * LocalSessionDataStorage :=
  if decide (id = "") then (LoadFailed, s)
  else match lds_sessions s !! id with
  | None => (ErrSessionNotFound, s)
  | Some entry => (Loaded (lde_metadata entry),
                   lds_set (<[id := newLocalDataEntry now (lde_metadata entry)]> (lds_sessions s)) s)
  end.

Definition local_Create (now : Time) (id : string) (m : metadata) (s : LocalSessionDataStorage)
    : option bool * LocalSessionDataStorage :=
  if decide (id = "") then (None, s)
  else match lds_sessions s !! id with
  | Some _ => (Some false, s)
  | None => (Some true, lds_set (<[id := newLocalDataEntry now m]> (lds_sessions s)) s)
  end.

Definition local_Update (now : Time) (id : string) (m : metadata) (s : LocalSessionDataStorage)
    : option bool * LocalSessionDataStorage :=
  if decide (id = "") then (None, s)
  else match lds_sessions s !! id with
  | None => (Some false, s)
  | Some _ => (Some true, lds_set (<[id := newLocalDataEntry now m]> (lds_sessions s)) s)
  end.

Definition local_Delete (id : string) (s : LocalSessionDataStorage) : bool * LocalSessionDataStorage :=
  if decide (id = "") then (false, s) else (true, lds_set (delete id (lds_sessions s)) s).

Definition local_deleteExpired (now : Time) (s : LocalSessionDataStorage) : LocalSessionDataStorage :=
  let cutoff := time.Add now (- lds_ttl s) in
  lds_set (delete_if (fun _ entry => time.Before (lde_lastAccess entry) cutoff) (lds_sessions s)) s.

Definition local_Close (s : LocalSessionDataStorage) : LocalSessionDataStorage := lds_set ∅ s.

#[export] Instance local_DataStorage : DataStorage LocalSessionDataStorage := {|
  ds_Load := local_Load;
  ds_Create := local_Create;
  ds_Update := local_Update;
  ds_Delete _ id s := local_Delete id s;
  ds_storable _ := True;
  ds_look _ s id := lde_metadata <$> lds_sessions s !! id;
|}.

Lemma local_changes now s id m sessions :
  (forall id', sessions !! id' = if decide (id' = id) then m else lds_sessions s !! id') ->
  only_changes now s (lds_set sessions s) id (lde_metadata <$> m).
Proof. intros Hs id'. cbn. rewrite Hs. by case_decide. Qed.

Lemma lookup_insert_case {A} (m : gmap string A) i x j :
  <[i := x]> m !! j = if decide (j = i) then Some x else m !! j.
Proof. rewrite lookup_insert. repeat case_decide; congruence. Qed.

Lemma lookup_delete_case {A} (m : gmap string A) i j :
  delete i m !! j = if decide (j = i) then None else m !! j.
Proof. rewrite lookup_delete. repeat case_decide; congruence. Qed.

Lemma unchanged {S} `{DataStorage S} now (s : S) id m :
  ds_look now s id = m -> only_changes now s s id m.
Proof. intros <- id'. case_decide; by subst. Qed.

#[export] Instance local_ok : DataStorageOk (fun _ : LocalSessionDataStorage => True).
Proof.
  split; cbn [ds_Load ds_Create ds_Update ds_Delete ds_look local_DataStorage];
    unfold local_Load, local_Create, local_Update, local_Delete.
  - intros now id s _ Hid. rewrite decide_False by done. destruct (lds_sessions s !! id) as [e|] eqn:E.
    + split; [done|]. split; [|done]. apply (local_changes now s id (Some (newLocalDataEntry now (lde_metadata e)))), lookup_insert_case.
    + split; [done|]. split; [|done]. apply unchanged. cbn. by rewrite E.
  - intros now id m s _ Hid _. rewrite decide_False by done. destruct (lds_sessions s !! id) as [e|] eqn:E; (split; [done|]).
    + split; [done|]. apply unchanged. cbn. by rewrite E.
    + split; [done|]. apply (local_changes now s id (Some (newLocalDataEntry now m))), lookup_insert_case.
  - intros now id m s _ Hid _. rewrite decide_False by done. destruct (lds_sessions s !! id) as [e|] eqn:E; (split; [done|]).
    + split; [done|]. apply (local_changes now s id (Some (newLocalDataEntry now m))), lookup_insert_case.
    + split; [done|]. apply unchanged. cbn. by rewrite E.
  - intros now id s _ Hid. rewrite decide_False by done. split; [done|]. split; [done|].
    apply (local_changes now s id None), lookup_delete_case.
  - done.
Qed.

(** ** In Redis *)

(** A key: its value and when it expires. *)
Record redis_key := {
  rk_data : string;
  rk_deadline : Time;
}.

Record RedisSessionDataStorage := {
  rds_keys : gmap string redis_key;
  rds_prefix : string;
  rds_ttl : Duration;
}.

Definition rds_set (keys : gmap string redis_key) (s : RedisSessionDataStorage) : RedisSessionDataStorage :=
  {| rds_keys := keys; rds_prefix := rds_prefix s; rds_ttl := rds_ttl s |}.

Definition live (now : Time) (k : option redis_key) : option redis_key :=
  match k with
  | Some k => if (now <? rk_deadline k)%Z then Some k else None
  | None => None
  end.

Definition redis_key_of (id : string) (s : RedisSessionDataStorage) : string := rds_prefix s +:+ id.

(** What is used of [encoding/json]: a map of valid text survives the round trip. *)
Definition valid_text (m : metadata) : Prop :=
  map_Forall (fun k v => ValidString k = true /\ ValidString v = true) m.

Class MetadataCodec (Marshal : metadata -> option string) (Unmarshal : string -> option metadata) : Prop :=
  metadata_roundtrip : forall m, valid_text m -> exists data, Marshal m = Some data /\ Unmarshal data = Some m.

Section redis.
Context (Marshal : metadata -> option string) (Unmarshal : string -> option metadata).

(** [SET] with the time to live. *)
Definition redis_set (now : Time) (key data : string) (s : RedisSessionDataStorage) : RedisSessionDataStorage :=
  rds_set (<[key := {| rk_data := data; rk_deadline := time.Add now (rds_ttl s) |}]> (rds_keys s)) s.

(** [GETEX] renews the key. *)
Definition redis_Load (now : Time) (id : string) (s : RedisSessionDataStorage)
    : load_result * RedisSessionDataStorage :=
  if decide (id = "") then (LoadFailed, s)
  else match live now (rds_keys s !! redis_key_of id s) with
  | None => (ErrSessionNotFound, s)
  | Some k =>
      (match Unmarshal (rk_data k) with Some m => Loaded m | None => LoadFailed end,
       redis_set now (redis_key_of id s) (rk_data k) s)
  end.

(** [SET XX]. *)
Definition redis_Update (now : Time) (id : string) (m : metadata) (s : RedisSessionDataStorage)
    : option bool * RedisSessionDataStorage :=
  if decide (id = "") then (None, s)
  else match Marshal m with
  | None => (None, s)
  | Some data =>
      match live now (rds_keys s !! redis_key_of id s) with
      | None => (Some false, s)
      | Some _ => (Some true, redis_set now (redis_key_of id s) data s)
      end
  end.

(** [SET NX]. *)
Definition redis_Create (now : Time) (id : string) (m : metadata) (s : RedisSessionDataStorage)
    : option bool * RedisSessionDataStorage :=
  if decide (id = "") then (None, s)
  else match Marshal m with
  | None => (None, s)
  | Some data =>
      match live now (rds_keys s !! redis_key_of id s) with
      | Some _ => (Some false, s)
      | None => (Some true, redis_set now (redis_key_of id s) data s)
      end
  end.

Definition redis_Delete (id : string) (s : RedisSessionDataStorage) : bool * RedisSessionDataStorage :=
  if decide (id = "") then (false, s)
  else (true, rds_set (delete (redis_key_of id s) (rds_keys s)) s).

#[local] Instance redis_DataStorage : DataStorage RedisSessionDataStorage := {|
  ds_Load := redis_Load;
  ds_Create := redis_Create;
  ds_Update := redis_Update;
  ds_Delete _ id s := redis_Delete id s;
  ds_storable := valid_text;
  ds_look now s id := k ← live now (rds_keys s !! redis_key_of id s); Unmarshal (rk_data k);
|}.

(** Everything under the prefix is an encoded map, and keys live for some time. *)
Definition redis_storage_ok (s : RedisSessionDataStorage) : Prop :=
  (0 < rds_ttl s)%Z /\
  forall id k, rds_keys s !! redis_key_of id s = Some k -> is_Some (Unmarshal (rk_data k)).

Lemma redis_key_inj s id id' : redis_key_of id s = redis_key_of id' s -> id = id'.
Proof using. intros E. by apply app_string_inj in E as [_ ->]. Qed.

Lemma redis_set_changes now s id data m :
  redis_storage_ok s -> Unmarshal data = Some m ->
  redis_storage_ok (redis_set now (redis_key_of id s) data s) /\
  only_changes now s (redis_set now (redis_key_of id s) data s) id (Some m).
Proof using.
  intros [Ht Hs] Hd. split.
  - split; [done|]. intros id' k. unfold redis_key_of. cbn.
    intros [[_ <-]|[_ Hk]]%lookup_insert_Some; [cbn; by rewrite Hd|]. by eapply Hs.
  - intros id'. cbn. case_decide as E.
    + subst. rewrite lookup_insert_eq. cbn. unfold time.Add. rewrite (proj2 (Z.ltb_lt _ _)) by lia. done.
    + rewrite lookup_insert_ne; [done|]. intros ?%(redis_key_inj s). congruence.
Qed.

Lemma live_decodes now s id k :
  redis_storage_ok s -> live now (rds_keys s !! redis_key_of id s) = Some k -> is_Some (Unmarshal (rk_data k)).
Proof using.
  intros [_ Hs] E. apply (Hs id). unfold live in E. destruct (rds_keys s !! _) as [k'|]; [|done].
  by destruct (now <? rk_deadline k')%Z; simplify_eq.
Qed.

Lemma redis_ok : MetadataCodec Marshal Unmarshal -> DataStorageOk redis_storage_ok.
Proof using.
  intros Hc. split; cbn [ds_Load ds_Create ds_Update ds_Delete ds_look ds_storable redis_DataStorage];
    unfold redis_Load, redis_Create, redis_Update, redis_Delete.
  - intros now id s Hok Hid. rewrite decide_False by done.
    destruct (live now (rds_keys s !! redis_key_of id s)) as [k|] eqn:E; cbn.
    + assert (is_Some (Unmarshal (rk_data k))) as [m Hm] by (by eapply live_decodes).
      rewrite Hm. destruct (redis_set_changes now s id (rk_data k) m Hok Hm). done.
    + split; [done|]. split; [|done]. apply unchanged. cbn. by rewrite E.
  - intros now id m s Hok Hid Hm. rewrite decide_False by done. destruct (Hc m Hm) as (data & -> & Hd).
    destruct (live now (rds_keys s !! redis_key_of id s)) as [k|] eqn:E; cbn.
    + assert (is_Some (Unmarshal (rk_data k))) as [old Hold] by (by eapply live_decodes).
      rewrite Hold. split; [done|]. split; [done|]. apply unchanged. cbn. by rewrite E.
    + destruct (redis_set_changes now s id data m Hok Hd). done.
  - intros now id m s Hok Hid Hm. rewrite decide_False by done. destruct (Hc m Hm) as (data & -> & Hd).
    destruct (live now (rds_keys s !! redis_key_of id s)) as [k|] eqn:E; cbn.
    + assert (is_Some (Unmarshal (rk_data k))) as [old Hold] by (by eapply live_decodes).
      rewrite Hold. destruct (redis_set_changes now s id data m Hok Hd). done.
    + split; [done|]. split; [done|]. apply unchanged. cbn. by rewrite E.
  - intros now id s [Ht Hs] Hid. rewrite decide_False by done. split; [|split; [done|]].
    + split; [done|]. intros id' k. unfold redis_key_of. cbn. intros [_ Hk]%lookup_delete_Some. by eapply Hs.
    + intros id'. cbn. unfold redis_key_of. cbn. case_decide as E.
      * subst. by rewrite lookup_delete_eq.
      * rewrite lookup_delete_ne; [done|]. intros ?%(redis_key_inj s). congruence.
  - intros now now' s id m _ Hle. cbn. unfold live. destruct (rds_keys s !! _) as [k|]; [|done].
    destruct (now' <? rk_deadline k)%Z eqn:E; [|done]. cbn. rewrite (proj2 (Z.ltb_lt _ _)) by (apply Z.ltb_lt in E; lia). done.
Qed.
End redis.

(** Both storages keep the promises of the interface: a session is created only when it is
    absent, updated only when it is present, loading changes nothing that can be seen,
    deletion removes exactly one session, and time only removes.  For Redis this rests on
    the round trip of the JSON encoding. *)
Theorem storage_contracts Marshal Unmarshal :
  MetadataCodec Marshal Unmarshal ->
  @DataStorageOk _ (redis_DataStorage Marshal Unmarshal) (redis_storage_ok Unmarshal) /\
  @DataStorageOk _ local_DataStorage (fun _ => True).
Proof. intros Hc. split; [by apply redis_ok|apply local_ok]. Qed.

(** A codec that keeps a map as bits. *)
Fixpoint bits (p : positive) : string :=
  match p with
  | xH => ""
  | xO p => String "0" (bits p)
  | xI p => String "1" (bits p)
  end.

Fixpoint of_bits (s : string) : positive :=
  match s with
  | EmptyString => xH
  | String a s => if (a =? "0")%char then xO (of_bits s) else xI (of_bits s)
  end.

Lemma of_bits_bits p : of_bits (bits p) = p.
Proof. induction p as [p IH|p IH|]; cbn; by rewrite ?IH. Qed.

Lemma storage_contracts_witness :
  @DataStorageOk _ (redis_DataStorage (fun m => Some (bits (encode m))) (fun s => decode (of_bits s)))
    (redis_storage_ok (fun s => decode (of_bits s))) /\
  @DataStorageOk _ local_DataStorage (fun _ => True).
Proof.
  apply storage_contracts. intros m _. exists (bits (encode m)). split; [done|].
  by rewrite of_bits_bits, decode_encode.
Defined.
