(* ===== verification/TransportSession.v ===== *)
(** * Sessions of the proxies
    ([pkg/transport/session/manager.go], [storage_local.go])

    The local storage is a concurrent map from identifiers to pointers to entries; an entry
    holds the session and the time of the last access, and is never changed: an access
    replaces the pointer.  Operations that touch the map more than once are split into
    their atomic steps, so they interleave; the clock of a step is an argument, and never
    goes back.  [parse] is [uuid.Parse].  Logging is left out. *)

From S2P Require Import Prelude.

(** ** The storage *)
Record localEntry := {
  le_session : nat;       (* the session object *)
  le_lastAccess : Time;
}.

Abbreviation ptr := nat (only parsing).

(** A load that has read its entry, and what a cleanup has collected. *)
Record loading := {
  ld_id : string;
  ld_entry : ptr;
  ld_start : Time;
}.

Record collected_entry := {
  ex_id : string;
  ex_entry : ptr;
  ex_before : Time;
}.

Record LocalStorage := {
  ls_sessions : gmap string ptr;
  ls_entries : gmap ptr localEntry;   (* the entries ever made *)
  ls_next : ptr;
  ls_loads : gmap nat loading;        (* loads in progress *)
  ls_collected : list collected_entry;        (* of the cleanups in progress *)
  ls_closed : list nat;               (* sessions closed by cleanups *)
  ls_now : Time;
}.

Definition NewLocalStorage (now : Time) : LocalStorage := {|
  ls_sessions := ∅; ls_entries := ∅; ls_next := 0; ls_loads := ∅; ls_collected := []; ls_closed := [];
  ls_now := now |}.

(** [newLocalEntry]: the new pointer is [ls_next]. *)
Definition new_entry (now : Time) (session : nat) (s : LocalStorage) : LocalStorage := {|
  ls_sessions := ls_sessions s;
  ls_entries := <[ls_next s := {| le_session := session; le_lastAccess := now |}]> (ls_entries s);
  ls_next := S (ls_next s); ls_loads := ls_loads s; ls_collected := ls_collected s; ls_closed := ls_closed s;
  ls_now := now |}.

Definition set_sessions (m : gmap string ptr) (s : LocalStorage) : LocalStorage := {|
  ls_sessions := m; ls_entries := ls_entries s; ls_next := ls_next s; ls_loads := ls_loads s;
  ls_collected := ls_collected s; ls_closed := ls_closed s; ls_now := ls_now s |}.

Definition set_loads (m : gmap nat loading) (now : Time) (s : LocalStorage) : LocalStorage := {|
  ls_sessions := ls_sessions s; ls_entries := ls_entries s; ls_next := ls_next s; ls_loads := m;
  ls_collected := ls_collected s; ls_closed := ls_closed s; ls_now := now |}.

Definition set_collected (l : list collected_entry) (closed : list nat) (s : LocalStorage) : LocalStorage := {|
  ls_sessions := ls_sessions s; ls_entries := ls_entries s; ls_next := ls_next s; ls_loads := ls_loads s;
  ls_collected := l; ls_closed := closed; ls_now := ls_now s |}.

(** [Store], with the session and its identifier. *)
Definition Store (now : Time) (id : string) (session : nat) (s : LocalStorage) : option string * LocalStorage :=
  if decide (id = "") then (Some "cannot store session with empty ID", s)
  else let p := ls_next s in
       let s := new_entry now session s in
       (None, set_sessions (<[id := p]> (ls_sessions s)) s).

(** The first half of [Load] by thread [tid]; [None] is not found. *)
Definition load_read (now : Time) (tid : nat) (id : string) (s : LocalStorage) : option ptr * LocalStorage :=
  if decide (id = "") then (None, s)
  else match ls_sessions s !! id with
  | None => (None, s)
  | Some p => (Some p, set_loads (<[tid := {| ld_id := id; ld_entry := p; ld_start := now |}]> (ls_loads s)) now s)
  end.

(** The second half: the new entry replaces the old one unless the map has changed. *)
Definition load_swap (now : Time) (tid : nat) (s : LocalStorage) : option nat * LocalStorage :=
  match ls_loads s !! tid with
  | None => (None, s)
  | Some l =>
      match ls_entries s !! ld_entry l with
      | None => (None, s)
      | Some entry =>
          let p := ls_next s in
          let s := set_loads (delete tid (ls_loads s)) now (new_entry now (le_session entry) s) in
          (Some (le_session entry),
           if decide (ls_sessions s !! ld_id l = Some (ld_entry l))
           then set_sessions (<[ld_id l := p]> (ls_sessions s)) s else s)
      end
  end.

Definition Delete (id : string) (s : LocalStorage) : option string * LocalStorage :=
  if decide (id = "") then (Some "cannot delete session with empty ID", s)
  else (None, set_sessions (delete id (ls_sessions s)) s).

(** One visit of the first pass of [DeleteExpired]. *)
Definition collect (before : Time) (id : string) (s : LocalStorage) : LocalStorage :=
  match ls_sessions s !! id with
  | None => s
  | Some p =>
      match ls_entries s !! p with
      | Some entry =>
          if time.Before (le_lastAccess entry) before
          then set_collected (ls_collected s ++ [{| ex_id := id; ex_entry := p; ex_before := before |}]) (ls_closed s) s
          else s
      | None => s
      end
  end.

(** One item of the second pass, the oldest one first. *)
Definition delete_collected (s : LocalStorage) : LocalStorage :=
  match ls_collected s with
  | [] => s
  | item :: rest =>
      match ls_entries s !! ex_entry item with
      | Some entry =>
          if time.Before (le_lastAccess entry) (ex_before item) then
            if decide (ls_sessions s !! ex_id item = Some (ex_entry item))
            then set_collected rest (ls_closed s ++ [le_session entry])
                   (set_sessions (delete (ex_id item) (ls_sessions s)) s)
            else set_collected rest (ls_closed s) s
          else set_collected rest (ls_closed s) s
      | None => set_collected rest (ls_closed s) s
      end
  end.

Definition Close (s : LocalStorage) : LocalStorage := set_sessions ∅ s.

Definition Count (s : LocalStorage) : nat := size (ls_sessions s).

(** ** Steps *)
Inductive session_step : LocalStorage -> LocalStorage -> Prop :=
  | step_store now id session s : (ls_now s <= now)%Z -> session_step s (Store now id session s).2
  | step_load_read now tid id s : (ls_now s <= now)%Z -> ls_loads s !! tid = None ->
      session_step s (load_read now tid id s).2
  | step_load_swap now tid s : (ls_now s <= now)%Z -> session_step s (load_swap now tid s).2
  | step_delete id s : session_step s (Delete id s).2
  | step_collect before id s : session_step s (collect before id s)
  | step_delete_collected s : session_step s (delete_collected s)
  | step_close s : session_step s (Close s).

(** ** Invariant *)
Record storage_ok (s : LocalStorage) : Prop := {
  so_entries : forall p e, ls_entries s !! p = Some e -> p < ls_next s /\ (le_lastAccess e <= ls_now s)%Z;
  so_sessions : forall id p, ls_sessions s !! id = Some p -> is_Some (ls_entries s !! p);
  so_loads : forall tid l, ls_loads s !! tid = Some l ->
    is_Some (ls_entries s !! ld_entry l) /\ (ld_start l <= ls_now s)%Z /\
    forall p e, ls_sessions s !! ld_id l = Some p -> ls_entries s !! p = Some e ->
      p = ld_entry l \/ (ld_start l <= le_lastAccess e)%Z;
}.

(** Whatever is stored for the session was accessed since. *)
Definition fresh_since (t : Time) (id : string) (s : LocalStorage) : Prop :=
  (t <= ls_now s)%Z /\
  forall p e, ls_sessions s !! id = Some p -> ls_entries s !! p = Some e -> (t <= le_lastAccess e)%Z.

(** What steps may do to the map and the entries. *)
Record extends (s s' : LocalStorage) : Prop := {
  ext_now : (ls_now s <= ls_now s')%Z;
  ext_next : ls_next s <= ls_next s';
  ext_entries : forall p e, ls_entries s' !! p = Some e ->
    ls_entries s !! p = Some e \/ (ls_next s <= p < ls_next s' /\ (ls_now s <= le_lastAccess e <= ls_now s')%Z);
  ext_kept : forall p e, ls_entries s !! p = Some e -> p < ls_next s -> ls_entries s' !! p = Some e;
  ext_sessions : forall id p, ls_sessions s' !! id = Some p ->
    ls_sessions s !! id = Some p \/ (ls_next s <= p /\ is_Some (ls_entries s' !! p));
}.

Lemma extends_refl s : extends s s.
Proof. split; eauto with lia. Qed.

(** A step that leaves the map, the entries and the clock alone. *)
Lemma extends_same s s' :
  ls_sessions s' = ls_sessions s -> ls_entries s' = ls_entries s -> ls_next s' = ls_next s ->
  (ls_now s <= ls_now s')%Z -> extends s s'.
Proof. intros E1 E2 E3 Hn. split; rewrite ?E1, ?E2, ?E3; eauto with lia. Qed.

(** A step that only removes sessions. *)
Lemma extends_remove s s' :
  (forall id p, ls_sessions s' !! id = Some p -> ls_sessions s !! id = Some p) ->
  ls_entries s' = ls_entries s -> ls_next s' = ls_next s -> ls_now s' = ls_now s -> extends s s'.
Proof. intros E1 E2 E3 E4. split; rewrite ?E2, ?E3, ?E4; eauto with lia. Qed.

(** A step that makes an entry, and may put it into the map. *)
Lemma extends_new s s' now id session :
  (ls_now s <= now)%Z -> ls_entries s' = <[ls_next s := {| le_session := session; le_lastAccess := now |}]> (ls_entries s) ->
  ls_next s' = S (ls_next s) -> ls_now s' = now ->
  (ls_sessions s' = ls_sessions s \/ ls_sessions s' = <[id := ls_next s]> (ls_sessions s)) -> extends s s'.
Proof.
  intros Hn He Hx Hw Hs. split; rewrite ?Hw, ?Hx; [done|lia| | |].
  - intros p e. rewrite He. intros [[<- <-]|[_ ?]]%lookup_insert_Some; [right; cbn; lia|by left].
  - intros p e Hp Hlt. rewrite He. rewrite lookup_insert_ne by lia. done.
  - intros id' p. destruct Hs as [->| ->]; [by left|]. intros [[_ <-]|[_ ?]]%lookup_insert_Some; [|by left].
    right. split; [lia|]. rewrite He, lookup_insert_eq. eauto.
Qed.

Lemma load_swap_extends now tid s : (ls_now s <= now)%Z -> extends s (load_swap now tid s).2.
Proof.
  intros Hn. unfold load_swap. destruct (ls_loads s !! tid) as [l|]; [|apply extends_refl].
  destruct (ls_entries s !! ld_entry l) as [e|]; [|apply extends_refl]. cbn.
  case_decide; eapply (extends_new _ _ now (ld_id l) (le_session e)); cbn; eauto.
Qed.

Lemma step_extends s s' : session_step s s' -> extends s s'.
Proof.
  intros [now id session s0 Hn|now tid id s0 Hn Ht|now tid s0 Hn|id s0|before id s0|s0|s0].
  - unfold Store. case_decide; [apply extends_refl|]. eapply (extends_new _ _ now id session); cbn; eauto.
  - unfold load_read. case_decide; [apply extends_refl|]. destruct (ls_sessions s0 !! id); [|apply extends_refl].
    by apply extends_same.
  - by apply load_swap_extends.
  - unfold Delete. case_decide; [apply extends_refl|]. apply extends_remove; cbn; [|done..].
    by intros id' p [_ ?]%lookup_delete_Some.
  - unfold collect. repeat case_match; try apply extends_refl. by apply extends_same.
  - unfold delete_collected. repeat case_match; try apply extends_refl; try (by apply extends_same).
    apply extends_remove; cbn; [|done..]. by intros id' p [_ ?]%lookup_delete_Some.
  - apply extends_remove; cbn; [|done..]. intros id p. by rewrite lookup_empty.
Qed.

(** What an extension keeps. *)
Lemma extends_fresh s s' t id :
  storage_ok s -> extends s s' -> fresh_since t id s -> fresh_since t id s'.
Proof.
  intros [He Hs _] [X1 X2 X3 X4 X5] [Ht Hf]. split; [lia|]. intros p e Hp Hpe.
  destruct (X5 id p Hp) as [Hold|[Hnew _]].
  - destruct (Hs id p Hold) as [e' He']. destruct (He p e' He') as [Hlt _].
    rewrite (X4 p e' He' Hlt) in Hpe. injection Hpe as <-. by eapply Hf.
  - destruct (X3 p e Hpe) as [Hold|[_ ?]]; [|lia]. destruct (He p e Hold). lia.
Qed.

Lemma step_loads s s' tid l :
  session_step s s' -> ls_loads s' !! tid = Some l ->
  ls_loads s !! tid = Some l \/
  (ls_sessions s !! ld_id l = Some (ld_entry l) /\ ls_sessions s' = ls_sessions s /\ (ls_now s <= ld_start l <= ls_now s')%Z).
Proof.
  intros [now id session s0 Hn|now tid' id s0 Hn Ht|now tid' s0 Hn|id s0|before id s0|s0|s0].
  - unfold Store. case_decide; cbn; by left.
  - unfold load_read. case_decide; [by left|]. destruct (ls_sessions s0 !! id) as [p|] eqn:E; [|by left]. cbn.
    intros [[_ <-]|[_ ?]]%lookup_insert_Some; [right; cbn; split_and!; [done..|lia|lia]|by left].
  - unfold load_swap. destruct (ls_loads s0 !! tid') as [l'|] eqn:El; [|by left].
    destruct (ls_entries s0 !! ld_entry l'); [|by left]. cbn. case_decide; cbn; intros [_ ?]%lookup_delete_Some; by left.
  - unfold Delete. case_decide; by left.
  - unfold collect. repeat case_match; by left.
  - unfold delete_collected. repeat case_match; by left.
  - by left.
Qed.

Lemma step_ok s s' : storage_ok s -> session_step s s' -> storage_ok s'.
Proof.
  intros Hok Hstep. pose proof (step_extends _ _ Hstep) as [X1 X2 X3 X4 X5]. pose proof Hok as [He Hs Hl].
  assert (forall p e, ls_entries s !! p = Some e -> ls_entries s' !! p = Some e) as Hkept.
  { intros p e Hp. destruct (He p e Hp). by apply X4. }
  split.
  - intros p e Hp. destruct (X3 p e Hp) as [Hold|[? ?]]; [|lia]. destruct (He p e Hold). lia.
  - intros id p Hp. destruct (X5 id p Hp) as [[e Hold]%Hs|[_ ?]]; [|done]. apply Hkept in Hold. eauto.
  - intros tid l Hld. destruct (step_loads _ _ _ _ Hstep Hld) as [Hold|(Hp & Es & Hst)].
    + destruct (Hl tid l Hold) as ([e Hent] & Hst & Hfr). split_and!; [eauto|lia|].
      intros p e' Hp Hpe. destruct (X5 _ _ Hp) as [Hsame|[Hnew _]].
      * destruct (Hs _ _ Hsame) as [e0 He0]. rewrite (Hkept _ _ He0) in Hpe. injection Hpe as <-. by eapply Hfr.
      * right. destruct (X3 p e' Hpe) as [Hbad|[_ ?]]; [destruct (He p e' Hbad); lia|lia].
    + destruct (Hs _ _ Hp) as [e Hent]. split_and!; [eauto|lia|]. rewrite Es, Hp. intros p e' [= <-] _. by left.
Qed.

Lemma reachable_ok now s : rtc session_step (NewLocalStorage now) s -> storage_ok s.
Proof.
  assert (storage_ok (NewLocalStorage now)) as Hinit.
  { split; cbn; intros *; by rewrite lookup_empty. }
  intros Hr. revert Hinit. induction Hr as [|s s' s'' Hstep _ IH]; [done|]. intros Hok. apply IH. by eapply step_ok.
Qed.

Lemma reachable_fresh s s' t id :
  rtc session_step s s' -> storage_ok s -> fresh_since t id s -> storage_ok s' /\ fresh_since t id s'.
Proof.
  induction 1 as [|s s' s'' Hstep _ IH]; [done|]. intros Hok Hf. apply IH; [by eapply step_ok|].
  eapply extends_fresh; [done|by apply step_extends|done].
Qed.

Lemma swap_fresh now tid s l session :
  storage_ok s -> ls_loads s !! tid = Some l -> (ls_now s <= now)%Z ->
  (load_swap now tid s).1 = Some session -> fresh_since (ld_start l) (ld_id l) (load_swap now tid s).2.
Proof.
  intros [He Hs Hl] Hld Hn. destruct (Hl tid l Hld) as ([entry Hent] & Hst & Hfr).
  unfold load_swap. rewrite Hld, Hent. intros _. cbn. case_decide as Hd; (split; [cbn; lia|]); cbn; intros p e.
  - rewrite lookup_insert_eq. intros [= <-]. rewrite lookup_insert_eq. intros [= <-]. cbn. lia.
  - intros Hp. destruct (Hs _ _ Hp) as [e' He']. destruct (He p e' He') as [Hlt _]. rewrite lookup_insert_ne by lia.
    intros Hpe. destruct (Hfr p e Hp Hpe) as [->|]; [|done]. by destruct Hd.
Qed.

(** A cleanup does not take away a session that is in use.  Whatever other loads,
    stores, deletions and cleanups run at the same time, once a load has returned a
    session, no cleanup whose cutoff is at most the time at which that load began
    removes it. *)
Theorem loaded_session_kept start s tid l now session s' item rest :
  rtc session_step (NewLocalStorage start) s -> ls_loads s !! tid = Some l -> (ls_now s <= now)%Z ->
  (load_swap now tid s).1 = Some session -> rtc session_step (load_swap now tid s).2 s' ->
  ls_collected s' = item :: rest -> (ex_before item <= ld_start l)%Z ->
  ls_sessions (delete_collected s') !! ld_id l = ls_sessions s' !! ld_id l.
Proof.
  intros Hr Hld Hn Hsw Hr' Hc Hb. apply reachable_ok in Hr.
  assert (session_step s (load_swap now tid s).2) as Hstep by (by constructor).
  destruct (reachable_fresh _ _ (ld_start l) (ld_id l) Hr') as [[He Hs _] [_ Hf]];
    [by eapply step_ok|by eapply swap_fresh|].
  unfold delete_collected. rewrite Hc. destruct (ls_entries s' !! ex_entry item) as [e|] eqn:Ee; [|done].
  destruct (time.Before _ _) eqn:Et; [|done]. unfold time.Before in Et. apply Z.ltb_lt in Et.
  case_decide as Hd; [|done]. cbn. destruct (decide (ld_id l = ex_id item)) as [E|E]; [|by rewrite lookup_delete_ne].
  exfalso. specialize (Hf (ex_entry item) e). rewrite E in Hf. specialize (Hf Hd Ee). lia.
Qed.

(** ** The manager *)
Section manager.
Context (parse : string -> bool) (factory : string -> nat).

Inductive manager_error :=
  | EmptySessionID
  | InvalidSessionID
  | SessionExists (id : string)
  | StorageFailed (text : string).

Definition validateSessionID (id : string) : option manager_error :=
  if decide (id = "") then Some EmptySessionID
  else if negb (parse id) then Some InvalidSessionID
  else None.

(** [Load] when nothing happens between its two halves. *)
Definition Load (now : Time) (id : string) (s : LocalStorage) : option nat * LocalStorage :=
  let tid := fresh (dom (ls_loads s)) in
  match load_read now tid id s with
  | (None, s) => (None, s)
  | (Some _, s) => load_swap now tid s
  end.

Definition stored (r : option string * LocalStorage) : option manager_error * LocalStorage :=
  (StorageFailed <$> r.1, r.2).

Definition AddSession (now : Time) (id : string) (session : nat) (s : LocalStorage)
    : option manager_error * LocalStorage :=
  match validateSessionID id with
  | Some e => (Some e, s)
  | None =>
      match Load now id s with
      | (Some _, s) => (Some (SessionExists id), s)
      | (None, s) => stored (Store now id session s)
      end
  end.

Definition AddWithID (now : Time) (id : string) (s : LocalStorage) : option manager_error * LocalStorage :=
  match validateSessionID id with
  | Some e => (Some e, s)
  | None =>
      match Load now id s with
      | (Some _, s) => (Some (SessionExists id), s)
      | (None, s) => stored (Store now id (factory id) s)
      end
  end.

Definition UpsertSession (now : Time) (id : string) (session : nat) (s : LocalStorage)
    : option manager_error * LocalStorage :=
  match validateSessionID id with
  | Some e => (Some e, s)
  | None => stored (Store now id session s)
  end.

Definition DeleteSession (id : string) (s : LocalStorage) : option manager_error * LocalStorage :=
  match validateSessionID id with
  | Some e => (Some e, s)
  | None => stored (Delete id s)
  end.
End manager.

(** ** Witness: a load while a cleanup has collected the session *)
Definition sample_storage : LocalStorage := (Store 0 "s" 7 (NewLocalStorage 0)).2.
Definition sample_loading : LocalStorage := (load_read 100 0 "s" (collect 50 "s" sample_storage)).2.

Lemma sample_reachable : rtc session_step (NewLocalStorage 0) sample_loading.
Proof.
  eapply rtc_l; [by apply (step_store 0 "s" 7)|]. eapply rtc_l; [apply (step_collect 50 "s")|].
  eapply rtc_l; [by apply (step_load_read 100 0 "s")|]. apply rtc_refl.
Qed.

Lemma loaded_session_kept_witness :
  (load_swap 101 0 sample_loading).1 = Some 7 /\
  ls_sessions (delete_collected (load_swap 101 0 sample_loading).2) !! "s" =
  ls_sessions (load_swap 101 0 sample_loading).2 !! "s".
Proof.
  split; [reflexivity|].
  exact (loaded_session_kept 0 sample_loading 0 {| ld_id := "s"; ld_entry := 0; ld_start := 100 |} 101 7
    (load_swap 101 0 sample_loading).2 {| ex_id := "s"; ex_entry := 0; ex_before := 50 |} []
    sample_reachable eq_refl ltac:(done) eq_refl (rtc_refl _ _) eq_refl ltac:(done)).
Defined.

(** A load that has read its entry when a cleanup removes it returns a closed session. *)
Example load_returns_closed_session :
  let s := delete_collected sample_loading in
  (load_swap 101 0 s).1 = Some 7 /\ 7 ∈ ls_closed s /\ ls_sessions (load_swap 101 0 s).2 !! "s" = None.
Proof. split; [reflexivity|]. split; [vm_compute; left|reflexivity]. Qed.
