(* ===== verification/SessionManager.v ===== *)
(** * Sessions shared by several servers
    ([pkg/vmcp/server/sessionmanager/session_manager.go], [pkg/cache/validating_cache.go])

    Every server of a deployment (a pod) keeps live sessions in a cache of its own; the
    metadata of a session is in a storage they share.  An operation of the manager is a
    program over the accesses it makes, in the order in which it makes them, to the
    storage, the cache of its pod and the session factory.  Programs of any number of
    requests on any number of pods interleave between accesses.  An access to the storage
    may fail, with or without having taken effect; a storage entry may expire, and a cache
    may evict, at any time.  Time limits and logging are left out. *)

From Stdlib Require Import Ascii.
From S2P Require Import Prelude Programs GoStrings VmcpTypes HealthMonitor HealthReport SessionBinding SessionData.

Definition MetadataKeyTerminated : string := "terminated".
Definition MetadataValTrue : string := "true".
Definition MetadataKeyBackendIDs : string := "vmcp.backend.ids".
Definition MetadataKeyBackendSessionPrefix : string := "vmcp.backend.session.".

(** A live session: the object (a pointer), its connections, its identifier and its
    metadata.  A decorated session is another object with the same connections. *)
Record MultiSession := {
  ms_object : nat;
  ms_handle : nat;
  ms_ID : string;
  ms_metadata : metadata;
}.

(** ** Programs *)

(** What a caller of [singleflight.Group.Do] is told: to run the function, or to wait for the
    caller that runs it. *)
Inductive ticket := Leads (flight : nat) | Joins (flight : nat).

Inductive op : Type -> Type :=
  | OUUID : op string
  | OLoad (id : string) : op load_result
  | OCreate (id : string) (m : metadata) : op (option bool)
  | OUpdate (id : string) (m : metadata) : op (option bool)
  | ODelete (id : string) : op bool
  | OMake (id : string) (backends : list Backend) : op (option MultiSession)
  | ORestore (id : string) (m : metadata) (backends : list Backend) : op (option MultiSession)
  | OClose (s : MultiSession) : op unit
  | OCacheGet (id : string) : op (option MultiSession)
  | OCacheRemove (id : string) (s : MultiSession) : op unit
  | OCacheContainsOrAdd (id : string) (s : MultiSession) : op bool
  | OCacheAdd (id : string) (s : MultiSession) : op unit
  | OFlight (key : string) : op ticket
  | OLand (key : string) (flight : nat) (v : option MultiSession) : op unit
  | OAwait (key : string) (flight : nat) : op (option MultiSession).

Abbreviation prog := (Programs.prog op).
Local Open Scope prog_scope.

(** ** The cache ([ValidatingCache])

    [OCacheRemove] looks the entry up again and removes it if it is the same object, under
    the lock.  A whole [Get] runs under a singleflight group: [OFlight] is the entry of [Do],
    which makes the caller the leader of a new flight when none is in progress for the key on
    this server; [OLand] is the end of the leader's function, when the flight is forgotten and
    its answer given to all; [OAwait] is what the callers do that joined, and goes on when the
    flight has landed. *)
Inductive check_result := Alive | ErrExpired | CheckError.

Section cache.
Context (check : string -> MultiSession -> prog check_result).
Context (load : string -> prog (option MultiSession)).

Definition getHit (key : string) (val : MultiSession) : prog (option MultiSession) :=
  run r <- check key val;
  match r with
  | ErrExpired => do _ <- OCacheRemove key val; Ret None
  | _ => Ret (Some val)
  end.

(** The function that runs under the flight.  The discarded value is released by the eviction
    callback, which closes it. *)
Definition get_or_load (key : string) : prog (option MultiSession) :=
  do cached <- OCacheGet key;
  run alive <- match cached with Some val => getHit key val | None => Ret None end;
  match alive with
  | Some v => Ret (Some v)
  | None =>
      run loaded <- load key;
      match loaded with
      | None => Ret None
      | Some v =>
          do alreadySet <- OCacheContainsOrAdd key v;
          if alreadySet then
            do winner <- OCacheGet key;
            match winner with
            | Some winner => do _ <- OClose v; Ret (Some winner)
            | None => do _ <- OCacheAdd key v; Ret (Some v)
            end
          else Ret (Some v)
      end
  end.

Definition cache_Get (key : string) : prog (option MultiSession) :=
  do t <- OFlight key;
  match t with
  | Leads flight => run v <- get_or_load key; do _ <- OLand key flight v; Ret v
  | Joins flight => do v <- OAwait key flight; Ret v
  end.
End cache.

(** ** The manager *)
Record Manager := {
  mgr_backends : list Backend;         (* [backendReg.List] *)
  mgr_backendHealth : option Monitor;
}.

Definition is_terminated (m : metadata) : bool := bool_decide (m !! MetadataKeyTerminated = Some MetadataValTrue).

Definition value (key : string) (m : metadata) : string := default "" (m !! key).

Definition mark_terminated (m : metadata) : metadata := <[MetadataKeyTerminated := MetadataValTrue]> m.

Definition shouldOpenSession (sm : Manager) (backend : Backend) : bool :=
  match mgr_backendHealth sm with
  | None => true
  | Some monitor =>
      match QueryBackendStatus (b_ID backend) monitor with
      | (status, true) => ShouldOpenSession (Some status)
      | (_, false) => ShouldOpenSession (b_HealthStatus backend)
      end
  end.

Definition listAllBackends (sm : Manager) : list Backend := mgr_backends sm.

Definition listBackendsForNewSession (sm : Manager) : list Backend :=
  filter (fun backend => shouldOpenSession sm backend = true) (mgr_backends sm).

(** Two attempts. *)
Definition Generate : prog string :=
  do sessionID <- OUUID;
  do stored <- OCreate sessionID ∅;
  match stored with
  | Some true => Ret sessionID
  | _ =>
      do sessionID <- OUUID;
      do stored <- OCreate sessionID ∅;
      match stored with
      | Some true => Ret sessionID
      | _ => Ret ""
      end
  end.

Definition cleanupFailedPlaceholder {A} (sessionID : string) (m : metadata) (k : prog A) : prog A :=
  do _ <- OUpdate sessionID (mark_terminated m); k.

(** [None] is an error. *)
Definition CreateSession (sm : Manager) (sessionID : string) : prog (option MultiSession) :=
  if decide (sessionID = "") then Ret None else
  do placeholder <- OLoad sessionID;
  match placeholder with
  | ErrSessionNotFound | LoadFailed => Ret None
  | Loaded placeholder =>
      if is_terminated placeholder then Ret None else
      do made <- OMake sessionID (listBackendsForNewSession sm);
      match made with
      | None => cleanupFailedPlaceholder sessionID placeholder (Ret None)
      | Some sess =>
          do placeholder2 <- OLoad sessionID;
          match placeholder2 with
          | ErrSessionNotFound => do _ <- OClose sess; Ret None
          | LoadFailed => do _ <- OClose sess; cleanupFailedPlaceholder sessionID placeholder (Ret None)
          | Loaded placeholder2 =>
              if is_terminated placeholder2 then do _ <- OClose sess; Ret None
              else
                do stored <- OUpdate sessionID (ms_metadata sess);
                match stored with
                | None => do _ <- OClose sess; cleanupFailedPlaceholder sessionID placeholder2 (Ret None)
                | Some false => do _ <- OClose sess; Ret None
                | Some true => do _ <- OCacheAdd sessionID sess; Ret (Some sess)
                end
          end
      end
  end.

(** [None] is an error, [Some true] is terminated. *)
Definition Validate (sessionID : string) : prog (option bool) :=
  if decide (sessionID = "") then Ret None else
  do r <- OLoad sessionID;
  match r with
  | ErrSessionNotFound => Ret (Some true)
  | LoadFailed => Ret None
  | Loaded m => Ret (Some (is_terminated m))
  end.

(** [true] is success. *)
Definition Terminate (sessionID : string) : prog bool :=
  if decide (sessionID = "") then Ret false else
  do r <- OLoad sessionID;
  match r with
  | ErrSessionNotFound => Ret true
  | LoadFailed => Ret false
  | Loaded m =>
      match m !! MetadataKeyIdentityBinding with
      | Some _ => do deleted <- ODelete sessionID; Ret deleted
      | None =>
          do updated <- OUpdate sessionID (mark_terminated m);
          match updated with
          | None => do deleted <- ODelete sessionID; Ret deleted
          | Some _ => Ret true
          end
      end
  end.

Definition comma : ascii := ",".

(** An identifier in a stored list. *)
Definition listed (workloadID backendIDs : string) : Prop :=
  workloadID <> "" /\ workloadID ∈ TrimSpace <$> Split comma backendIDs.

Lemma listed_Join l b :
  Forall (fun t => no_char comma t /\ t <> "" /\ TrimSpace t = t) l -> listed b (Join comma l) <-> b ∈ l.
Proof.
  intros Hl. unfold listed. destruct l as [|t l]; [cbn; set_solver|].
  rewrite Split_Join; [|done|eapply Forall_impl; [done|]; naive_solver].
  assert (TrimSpace <$> t :: l = t :: l) as ->.
  { rewrite <- (list_fmap_id (t :: l)) at 2. apply Forall_fmap_ext_1. eapply Forall_impl; [done|]. naive_solver. }
  rewrite Forall_forall in Hl. split; [naive_solver|]. intros Hb. split; [|done]. by apply Hl.
Qed.

(** [true] is success. *)
Definition updateMetadata (sessionID : string) (m : metadata) : prog bool :=
  do updated <- OUpdate sessionID m;
  match updated with
  | None => Ret false
  | Some _ => Ret true
  end.

(** The metadata without the expired backend. *)
Definition drop_backend (workloadID backendIDs : string) (m : metadata) : metadata :=
  let remaining := filter (fun t => t <> "" /\ t <> workloadID) (TrimSpace <$> Split comma backendIDs) in
  <[MetadataKeyBackendIDs := Join comma remaining]> (delete (MetadataKeyBackendSessionPrefix +:+ workloadID) m).

(** The metadata is what the caller holds; [None] is nil. *)
Definition NotifyBackendExpired (sessionID workloadID : string) (m : option metadata) : prog unit :=
  match m with
  | None => Ret tt
  | Some m =>
      if is_terminated m then Ret tt
      else match m !! MetadataKeyBackendIDs with
      | None => Ret tt
      | Some backendIDs => run _ <- updateMetadata sessionID (drop_backend workloadID backendIDs m); Ret tt
      end
  end.

Definition checkSession (sessionID : string) (sess : MultiSession) : prog check_result :=
  do r <- OLoad sessionID;
  match r with
  | ErrSessionNotFound => Ret ErrExpired
  | LoadFailed => Ret CheckError
  | Loaded m =>
      if is_terminated m then Ret ErrExpired
      else if decide (value MetadataKeyBackendIDs (ms_metadata sess) <> value MetadataKeyBackendIDs m)
      then Ret ErrExpired
      else Ret Alive
  end.

Definition loadSession (sm : Manager) (sessionID : string) : prog (option MultiSession) :=
  do r <- OLoad sessionID;
  match r with
  | ErrSessionNotFound | LoadFailed => Ret None
  | Loaded m =>
      if is_terminated m then Ret None
      else match m !! MetadataKeyIdentityBinding with
      | None => Ret None
      | Some _ =>
          do restored <- ORestore sessionID m (listAllBackends sm);
          match restored with
          | None => Ret None
          | Some restored =>
              do updated <- OUpdate sessionID (ms_metadata restored);
              match updated with
              | None => Ret (Some restored)
              | Some true => Ret (Some restored)
              | Some false => do _ <- OClose restored; Ret None
              end
          end
      end
  end.

Definition GetMultiSession (sm : Manager) (sessionID : string) : prog (option MultiSession) :=
  cache_Get checkSession (loadSession sm) sessionID.

(** [fn] decorates a session, [None] is nil; [true] is success. *)
Definition DecorateSession (sm : Manager) (sessionID : string) (fn : MultiSession -> option MultiSession) : prog bool :=
  run sess <- GetMultiSession sm sessionID;
  match sess with
  | None => Ret false
  | Some sess =>
      match fn sess with
      | None => Ret false
      | Some decorated =>
          if decide (ms_ID decorated <> sessionID) then Ret false else
          do updated <- OUpdate sessionID (ms_metadata decorated);
          match updated with
          | None => Ret false
          | Some false => Ret false
          | Some true => do _ <- OCacheAdd sessionID decorated; Ret true
          end
      end
  end.
