(* ===== verification/SessionSystem.v ===== *)
(** * Pods, requests and interference

    The manager's programs of [SessionManager] run against a shared storage and one cache
    per pod, access by access, in any order.  A session that is gone from the storage stays
    gone on every pod; a session that is opened is handed to the cache or closed; a backend
    that expired leaves the sessions of the other pods. *)

From Stdlib Require Import Ascii.
From S2P Require Import Prelude Programs GoStrings VmcpTypes HealthMonitor SessionBinding SessionData SessionManager.

(** ** Effects of the accesses *)
Record world := {
  w_store : gmap string metadata;
  w_cache : gmap (nat * string) MultiSession;
  w_closed : list nat;             (* connections that were closed *)
  w_next : nat;                    (* the connections of the next session *)
  w_issued : gset string;          (* identifiers the generator gave out *)
  w_flights : gmap (nat * string) nat;                       (* the lookup in progress for a key on a pod *)
  w_landed : gmap (string * nat) (option MultiSession);      (* the answers of the lookups that ended *)
  w_flight : nat;                  (* the number of the next lookup *)
}.

Definition set_store (store : gmap string metadata) (w : world) : world :=
  {| w_store := store; w_cache := w_cache w; w_closed := w_closed w; w_next := w_next w; w_issued := w_issued w;
     w_flights := w_flights w; w_landed := w_landed w; w_flight := w_flight w |}.

Definition set_cache (cache : gmap (nat * string) MultiSession) (w : world) : world :=
  {| w_store := w_store w; w_cache := cache; w_closed := w_closed w; w_next := w_next w; w_issued := w_issued w;
     w_flights := w_flights w; w_landed := w_landed w; w_flight := w_flight w |}.

Definition close_session (s : MultiSession) (w : world) : world :=
  {| w_store := w_store w; w_cache := w_cache w; w_closed := ms_handle s :: w_closed w; w_next := w_next w;
     w_issued := w_issued w; w_flights := w_flights w; w_landed := w_landed w; w_flight := w_flight w |}.

Definition open_next (w : world) : world :=
  {| w_store := w_store w; w_cache := w_cache w; w_closed := w_closed w; w_next := S (w_next w); w_issued := w_issued w;
     w_flights := w_flights w; w_landed := w_landed w; w_flight := w_flight w |}.

Definition issue (id : string) (w : world) : world :=
  {| w_store := w_store w; w_cache := w_cache w; w_closed := w_closed w; w_next := w_next w;
     w_issued := {[id]} ∪ w_issued w; w_flights := w_flights w; w_landed := w_landed w; w_flight := w_flight w |}.

(** A lookup begins, and ends. *)
Definition take_off (pod : nat) (key : string) (w : world) : world :=
  {| w_store := w_store w; w_cache := w_cache w; w_closed := w_closed w; w_next := w_next w; w_issued := w_issued w;
     w_flights := <[(pod, key) := w_flight w]> (w_flights w); w_landed := w_landed w; w_flight := S (w_flight w) |}.

Definition land (pod : nat) (key : string) (flight : nat) (v : option MultiSession) (w : world) : world :=
  {| w_store := w_store w; w_cache := w_cache w; w_closed := w_closed w; w_next := w_next w; w_issued := w_issued w;
     w_flights := delete (pod, key) (w_flights w); w_landed := <[(key, flight) := v]> (w_landed w); w_flight := w_flight w |}.

Definition evict (pod : nat) (id : string) (s : MultiSession) (w : world) : world :=
  close_session s (set_cache (delete (pod, id) (w_cache w)) w).

(** What an update does to the storage. *)
Definition update_store (id : string) (m : metadata) (w : world) : world :=
  match w_store w !! id with Some _ => set_store (<[id := m]> (w_store w)) w | None => w end.

Definition create_store (id : string) (m : metadata) (w : world) : world :=
  match w_store w !! id with Some _ => w | None => set_store (<[id := m]> (w_store w)) w end.

Definition is_present (id : string) (w : world) : bool :=
  match w_store w !! id with Some _ => true | None => false end.

(** A new session of the factory: new connections, the identifier asked for, bound to its
    caller. *)
Definition opened_by (w : world) (id : string) (s : MultiSession) : Prop :=
  ms_object s = w_next w /\ ms_handle s = w_next w /\ ms_ID s = id /\
  is_Some (ms_metadata s !! MetadataKeyIdentityBinding).

(** The results an access may have, and the world after it; with [faulty], the storage
    may fail, and a failed write may have happened all the same. *)
Definition exec (faulty : bool) (pod : nat) {B : Type} (o : op B) (w : world) : B -> world -> Prop :=
  match o in op B return B -> world -> Prop with
  | OUUID => fun u w' => (u ∉ w_issued w) /\ u <> "" /\ w' = issue u w
  | OLoad id => fun r w' =>
      w' = w /\ (r = match w_store w !! id with Some m => Loaded m | None => ErrSessionNotFound end \/
                 faulty = true /\ r = LoadFailed)
  | OCreate id m => fun r w' =>
      r = Some (negb (is_present id w)) /\ w' = create_store id m w \/
      faulty = true /\ r = None /\ (w' = w \/ w' = create_store id m w)
  | OUpdate id m => fun r w' =>
      r = Some (is_present id w) /\ w' = update_store id m w \/
      faulty = true /\ r = None /\ (w' = w \/ w' = update_store id m w)
  | ODelete id => fun r w' =>
      r = true /\ w' = set_store (delete id (w_store w)) w \/
      faulty = true /\ r = false /\ (w' = w \/ w' = set_store (delete id (w_store w)) w)
  | OMake id _ => fun r w' =>
      r = None /\ w' = w \/ exists s, r = Some s /\ opened_by w id s /\ w' = open_next w
  | ORestore id _ _ => fun r w' =>
      r = None /\ w' = w \/ exists s, r = Some s /\ opened_by w id s /\ w' = open_next w
  | OClose s => fun _ w' => w' = close_session s w
  | OCacheGet id => fun r w' => r = w_cache w !! (pod, id) /\ w' = w
  | OCacheRemove id s => fun _ w' =>
      w' = match w_cache w !! (pod, id) with
           | Some current => if ms_object current =? ms_object s then evict pod id current w else w
           | None => w
           end
  | OCacheContainsOrAdd id s => fun r w' =>
      match w_cache w !! (pod, id) with
      | Some _ => r = true /\ w' = w
      | None => r = false /\ w' = set_cache (<[(pod, id) := s]> (w_cache w)) w
      end
  | OCacheAdd id s => fun _ w' => w' = set_cache (<[(pod, id) := s]> (w_cache w)) w
  | OFlight key => fun t w' =>
      match w_flights w !! (pod, key) with
      | Some flight => t = Joins flight /\ w' = w
      | None => t = Leads (w_flight w) /\ w' = take_off pod key w
      end
  | OLand key flight v => fun _ w' => w' = land pod key flight v w
  | OAwait key flight => fun v w' => w_landed w !! (key, flight) = Some v /\ w' = w
  end.

(** ** Requests *)
Inductive request :=
  | RGenerate
  | RCreate (id : string)
  | RValidate (id : string)
  | RTerminate (id : string)
  | RGet (id : string)
  | RNotify (id workloadID : string) (m : option metadata)
  | RDecorate (id : string) (fn : MultiSession -> option MultiSession).

Inductive answer :=
  | AGenerate (id : string)
  | ACreate (s : option MultiSession)
  | AValidate (r : option bool)
  | ATerminate (ok : bool)
  | AGet (s : option MultiSession)
  | ANotify
  | ADecorate (ok : bool).

Definition serve_request (sm : Manager) (r : request) : prog answer :=
  match r with
  | RGenerate => pmap AGenerate Generate
  | RCreate id => pmap ACreate (CreateSession sm id)
  | RValidate id => pmap AValidate (Validate id)
  | RTerminate id => pmap ATerminate (Terminate id)
  | RGet id => pmap AGet (GetMultiSession sm id)
  | RNotify id workloadID m => pmap (fun _ => ANotify) (NotifyBackendExpired id workloadID m)
  | RDecorate id fn => pmap ADecorate (DecorateSession sm id fn)
  end.

(** A request in progress, on its pod. *)
Definition thread : Type := nat * request * prog answer.

Record deployment := {
  sys_world : world;
  sys_threads : list thread;
}.

Inductive system_step (faulty : bool) (sm : Manager) : deployment -> deployment -> Prop :=
  | step_request pod r w ts :
      system_step faulty sm {| sys_world := w; sys_threads := ts |}
        {| sys_world := w; sys_threads := ts ++ [(pod, r, serve_request sm r)] |}
  | step_access i pod r {B} (o : op B) k x w w' ts :
      ts !! i = Some (pod, r, Do o k) ->
      exec faulty pod o w x w' ->
      system_step faulty sm {| sys_world := w; sys_threads := ts |}
        {| sys_world := w'; sys_threads := <[i := (pod, r, k x)]> ts |}
  | step_expiry id w ts :
      system_step faulty sm {| sys_world := w; sys_threads := ts |}
        {| sys_world := set_store (delete id (w_store w)) w; sys_threads := ts |}
  | step_eviction pod id s w ts :
      w_cache w !! (pod, id) = Some s ->
      system_step faulty sm {| sys_world := w; sys_threads := ts |}
        {| sys_world := evict pod id s w; sys_threads := ts |}.

(** ** Gone sessions *)
Section gone.
Context (faulty : bool) (sm : Manager) (id : string).

(** Lookups of the session with this number or a later one began after it was gone. *)
Context (since : nat).

(** What an access can answer while [id] is not stored and was given out; [fresh] is whether
    every lookup in progress on the pod began since. *)
Definition gone_result (fresh : bool) {B : Type} (o : op B) : B -> Prop :=
  match o in op B return B -> Prop with
  | OUUID => fun u => u <> id
  | OLoad id' => fun r => id' = id -> r = ErrSessionNotFound \/ faulty = true /\ r = LoadFailed
  | OUpdate id' _ => fun r => id' = id -> r = Some false \/ faulty = true /\ r = None
  | OFlight id' => fun t => id' = id ->
      match t with Leads flight => since <= flight | Joins flight => fresh = true -> since <= flight end
  | OAwait id' flight => fun v => id' = id -> since <= flight -> faulty = false -> v = None
  | _ => fun _ => True
  end.

(** Storing the session, and a late lookup that finds it. *)
Definition revives {B : Type} (o : op B) : Prop :=
  match o with
  | OCreate id' _ => id' = id
  | OLand id' flight v => id' = id /\ since <= flight /\ faulty = false /\ v <> None
  | _ => False
  end.

(** The program does not revive [id], and answers as [Q] says, as long as [id] is gone. *)
Fixpoint while_gone (fresh : bool) {A} (p : prog A) (Q : A -> Prop) : Prop :=
  match p with
  | Ret a => Q a
  | Do o k => ~ revives o /\ forall x, gone_result fresh o x -> while_gone fresh (k x) Q
  end.

(** What a request says of a session that is gone. *)
Definition dead_answer (fresh : bool) (r : request) (a : answer) : Prop :=
  match r with
  | RGenerate => a <> AGenerate id
  | RCreate id' => id' = id -> a = ACreate None
  | RValidate id' => id' = id -> a = AValidate (Some true) \/ faulty = true /\ a = AValidate None
  | RGet id' => id' = id -> faulty = false -> fresh = true -> a = AGet None
  | RDecorate id' _ => id' = id -> a = ADecorate false
  | RTerminate _ | RNotify _ _ _ => True
  end.

Lemma while_gone_bind fresh {A C} (p : prog A) (k : A -> prog C) Q R :
  while_gone fresh p R -> (forall a, R a -> while_gone fresh (k a) Q) -> while_gone fresh (pbind p k) Q.
Proof using. intros Hp Hk. induction p as [a|B o k' IH]; [by apply Hk|]. destruct Hp as [? Hp]. split; [done|]. eauto. Qed.

Lemma while_gone_mono fresh {A} (p : prog A) (Q R : A -> Prop) :
  (forall a, Q a -> R a) -> while_gone fresh p Q -> while_gone fresh p R.
Proof using. intros HQR. induction p as [a|B o k IH]; [by apply HQR|]. intros [? Hp]. split; [done|]. eauto. Qed.

Lemma while_gone_do fresh {A B} (o : op B) (k : B -> prog A) Q :
  ~ revives o -> (forall x, gone_result fresh o x -> while_gone fresh (k x) Q) -> while_gone fresh (Do o k) Q.
Proof using. by split. Qed.

Ltac gone_tac :=
  repeat match goal with
    | H : gone_result _ _ _ |- _ => cbn in H
    | |- while_gone _ (Ret _) _ => cbn [while_gone]
    | |- while_gone _ (Do _ _) _ => apply while_gone_do; [cbn; try tauto|intros ? ?]
    | |- while_gone _ (match ?x with _ => _ end) _ => destruct x eqn:?
    | |- while_gone _ (cleanupFailedPlaceholder _ _ _) _ => unfold cleanupFailedPlaceholder
    | |- while_gone _ (pbind (match ?x with _ => _ end) _) _ => destruct x eqn:?
    | |- while_gone _ (pbind (Do _ _) _) _ => cbn [pbind]
    | |- while_gone _ (pbind (Ret _) _) _ => cbn [pbind]
    | |- while_gone _ (pbind (pbind (match ?x with _ => _ end) _) _) _ => destruct x eqn:?
    | |- while_gone _ (pbind (pbind _ _) _) _ => progress cbn [pbind]
    end.

Lemma generate_gone fresh : id <> "" -> while_gone fresh Generate (fun u => u <> id).
Proof using. intros ?. unfold Generate. gone_tac; congruence. Qed.

Lemma create_gone fresh id' : while_gone fresh (CreateSession sm id') (fun s => id' = id -> s = None).
Proof using.
  unfold CreateSession. gone_tac; intros; subst; try done.
  match goal with H : id = id -> _ |- _ => destruct (H eq_refl) as [?|[_ ?]]; congruence end.
Qed.

Lemma check_gone fresh id' s :
  while_gone fresh (checkSession id' s) (fun r => id' = id -> faulty = false -> r = ErrExpired).
Proof using.
  unfold checkSession. gone_tac; intros; subst; try done;
    match goal with H : id = id -> _ |- _ => destruct (H eq_refl) as [?|[? ?]]; congruence end.
Qed.

Lemma load_gone fresh id' : while_gone fresh (loadSession sm id') (fun s => id' = id -> s = None).
Proof using.
  unfold loadSession. gone_tac; intros; subst; try done;
    match goal with H : id = id -> _ = ErrSessionNotFound \/ _ |- _ => destruct (H eq_refl) as [?|[? ?]]; congruence end.
Qed.

Lemma lookup_gone fresh id' :
  while_gone fresh (get_or_load checkSession (loadSession sm) id') (fun s => id' = id -> faulty = false -> s = None).
Proof using.
  unfold get_or_load. apply while_gone_do; [by intros []|]. intros cached _.
  apply (while_gone_bind _ _ _ _ (fun s => id' = id -> faulty = false -> s = None)).
  - destruct cached as [s|]; [|done]. unfold getHit. eapply while_gone_bind; [apply check_gone|].
    intros r Hr. destruct r; gone_tac; intros; try done; discriminate (Hr ltac:(done) ltac:(done)).
  - intros [s|] Hs; [done|]. eapply while_gone_bind; [apply load_gone|].
    intros [s|] Hl; gone_tac; intros; try done; discriminate (Hl ltac:(done)).
Qed.

(** A lookup that leads a flight lands with nothing; one that joins a late flight is told so. *)
Lemma get_gone fresh id' :
  while_gone fresh (GetMultiSession sm id') (fun s => id' = id -> faulty = false -> fresh = true -> s = None).
Proof using.
  unfold GetMultiSession, cache_Get. apply while_gone_do; [by intros []|]. intros [flight|flight] Ht; cbn in Ht.
  - eapply while_gone_bind; [apply lookup_gone|]. intros s Hs. split.
    + intros (E & _ & Hf & Hn). by apply Hn, Hs.
    + intros _ _. cbn. auto.
  - apply while_gone_do; [by intros []|]. cbn. intros v Hv E Hf Hfresh. by apply Hv; [|apply Ht|].
Qed.

Lemma serve_gone fresh r : id <> "" -> while_gone fresh (serve_request sm r) (dead_answer fresh r).
Proof using.
  intros Hid. destruct r as [|id'|id'|id'|id'|id' workloadID m|id' fn]; cbn [serve_request]; unfold pmap.
  - eapply while_gone_bind; [by apply generate_gone|]. cbn. congruence.
  - eapply while_gone_bind; [apply create_gone|]. cbn. intros a Ha ?. by rewrite Ha.
  - unfold Validate. gone_tac; cbn; intros; subst; try done;
      match goal with H : id = id -> _ |- _ => destruct (H eq_refl) as [?|[? ?]]; naive_solver end.
  - unfold Terminate. gone_tac; done.
  - eapply while_gone_bind; [apply get_gone|]. cbn. intros a Ha ? ? ?. by rewrite Ha.
  - unfold NotifyBackendExpired, updateMetadata. gone_tac; done.
  - unfold DecorateSession. apply (while_gone_bind _ _ _ _ (fun ok => id' = id -> ok = false));
      [|cbn; intros a Ha ?; by rewrite Ha].
    eapply while_gone_bind; [apply get_gone|]. intros [s|] _; [|done].
    gone_tac; cbn; intros; subst; try done.
    match goal with H : _ = _ -> _ |- _ => destruct (H eq_refl) as [?|[? ?]]; congruence end.
Qed.

(** The world in which it is gone. *)
Record gone_world (fresh : nat -> bool) (w : world) : Prop := {
  gw_issued : id ∈ w_issued w;
  gw_store : w_store w !! id = None;
  gw_since : since <= w_flight w;
  gw_flights pod flight : fresh pod = true -> w_flights w !! (pod, id) = Some flight -> since <= flight;
  gw_landed flight v : since <= flight -> faulty = false -> w_landed w !! (id, flight) = Some v -> v = None;
}.

Lemma gone_world_frame fresh w w' :
  gone_world fresh w -> id ∈ w_issued w' -> w_store w' !! id = None ->
  w_flights w' = w_flights w -> w_landed w' = w_landed w -> w_flight w' = w_flight w -> gone_world fresh w'.
Proof using. intros [] ? ? E1 E2 E3. split; rewrite ?E1, ?E2, ?E3; done. Qed.

(** A storage without [id] answers so, and stays without it. *)
Lemma exec_gone fresh pod {B} (o : op B) w x w' :
  gone_world fresh w -> ~ revives o -> exec faulty pod o w x w' -> gone_result (fresh pod) o x /\ gone_world fresh w'.
Proof using.
  intros Hg Hc Hx. pose proof Hg as [Hi Hs Hn Hf Hl].
  destruct o as [|id'|id' m|id' m|id'|id' bs|id' m bs|s|id'|id' s|id' s|id' s|id'|id' flight v|id' flight]; cbn in *.
  13: { destruct (w_flights w !! (pod, id')) as [flight|] eqn:E; destruct Hx as [-> ->]; cbn.
        - split; [|done]. intros -> Hp. by apply (Hf pod).
        - split; [done|]. split; cbn; [done|done|lia| |done]. intros pod' flight Hp.
          rewrite lookup_insert. case_decide; [by intros [= <-]|by apply Hf]. }
  13: { subst w'. split; [done|]. split; cbn; [done|done|done| |].
        - intros pod' flight'. rewrite lookup_delete. case_decide; [done|]. apply Hf.
        - intros flight' v' ? ?. rewrite lookup_insert. case_decide as E; [|by apply Hl].
          injection E as -> ->. intros [= <-]. apply dec_stable. intros ?. apply Hc. done. }
  13: { destruct Hx as [Hx ->]. split; [|done]. intros -> ? ?. by apply (Hl flight). }
  all: unfold create_store, update_store, is_present in *;
    repeat match goal with
      | H : _ /\ _ |- _ => destruct H
      | H : _ \/ _ |- _ => destruct H
      | H : exists _, _ |- _ => destruct H
      | |- _ => case_match
      end; simplify_eq; cbn;
    (split; [|eapply gone_world_frame; [exact Hg|cbn; set_solver|cbn|done..]]);
    rewrite ?lookup_insert_ne, ?lookup_delete_None by congruence; auto;
    intros; subst; try done; try (right; done); try (left; congruence); congruence.
Qed.
End gone.

(** ** Requests in progress *)

(** A program that generates no identifier, begins no lookup, and ends only lookups before [n]. *)
Fixpoint calm (n : nat) {A} (p : prog A) : Prop :=
  match p with
  | Ret _ => True
  | Do o k =>
      match o with
      | OUUID | OCreate _ _ | OFlight _ => False
      | OLand _ flight _ => flight < n
      | _ => True
      end /\ forall x, calm n (k x)
  end.

Lemma calm_bind n {A C} (p : prog A) (k : A -> prog C) : calm n p -> (forall a, calm n (k a)) -> calm n (pbind p k).
Proof. intros Hp Hk. induction p as [a|B o k' IH]; [by apply Hk|]. destruct Hp as [? Hp]. split; [done|]. eauto. Qed.

Lemma calm_mono n n' {A} (p : prog A) : n <= n' -> calm n p -> calm n' p.
Proof. intros Hn. induction p as [a|B o k IH]; [done|]. intros [Ho Hk]. split; [|eauto]. destruct o; try done. lia. Qed.

Lemma calm_gone faulty id n fresh {A} (p : prog A) : calm n p -> while_gone faulty id n fresh p (fun _ => True).
Proof.
  induction p as [a|B o k IH]; [done|]. intros [Ho Hk]. split; [|eauto].
  destruct o; try done; cbn; try tauto. intros (_ & ? & _). lia.
Qed.

Ltac calm_tac :=
  repeat match goal with
    | |- calm _ (Ret _) => done
    | |- calm _ (Do _ _) => split; [done|intros ?]
    | |- calm _ (match ?x with _ => _ end) => destruct x
    | |- calm _ (cleanupFailedPlaceholder _ _ _) => unfold cleanupFailedPlaceholder
    | |- calm _ (pbind _ _) => apply calm_bind; [|intros ?]
    end.

Lemma lookup_calm n sm id : calm n (get_or_load checkSession (loadSession sm) id).
Proof. unfold get_or_load, getHit, checkSession, loadSession. calm_tac. Qed.

Section progress.
Context (sm : Manager).

(** What follows the first identifier of [Generate], and what follows its second. *)
Definition second_try : prog string :=
  (do sessionID <- OUUID;
   do stored <- OCreate sessionID ∅;
   match stored with
   | Some true => Ret sessionID
   | _ => Ret ""
   end)%prog.

Inductive generating : prog answer -> Prop :=
  | generating_first u :
      generating (pmap AGenerate (do stored <- OCreate u ∅; match stored with Some true => Ret u | _ => second_try end)%prog)
  | generating_again : generating (pmap AGenerate second_try)
  | generating_second u :
      generating (pmap AGenerate (do stored <- OCreate u ∅; match stored with Some true => Ret u | _ => Ret "" end)%prog).

Inductive in_progress (n : nat) : prog answer -> Prop :=
  | in_progress_start r : in_progress n (serve_request sm r)
  | in_progress_calm p : calm n p -> in_progress n p
  | in_progress_generating p : generating p -> in_progress n p.

Lemma in_progress_mono n n' p : n <= n' -> in_progress n p -> in_progress n' p.
Proof using. intros Hn [r|p' Hp|p' Hp]; [apply in_progress_start|apply in_progress_calm; by eapply calm_mono|by apply in_progress_generating]. Qed.

Lemma exec_flight faulty pod {B} (o : op B) w x w' : exec faulty pod o w x w' -> w_flight w <= w_flight w'.
Proof using.
  destruct o; cbn; unfold create_store, update_store; intros Hx; repeat case_match; destruct_or?; destruct_and?;
    destruct_or?; destruct_and?; subst; cbn; try lia.
  all: repeat match goal with H : exists _, _ |- _ => destruct H end; destruct_and?; subst; cbn; lia.
Qed.

(** The programs that begin no lookup. *)
Lemma serve_calm n r :
  match r with RGenerate | RGet _ | RDecorate _ _ => True | _ => calm n (serve_request sm r) end.
Proof using.
  destruct r; cbn [serve_request]; try done; unfold pmap, CreateSession, Validate, Terminate, NotifyBackendExpired, updateMetadata;
    calm_tac.
Qed.

Lemma lookup_progress faulty pod {C} id (k : option MultiSession -> prog C) w t w' :
  (forall n s, calm n (k s)) -> exec faulty pod (OFlight id) w t w' ->
  calm (w_flight w') (pbind (match t with
    | Leads flight => run v <- get_or_load checkSession (loadSession sm) id; do _ <- OLand id flight v; Ret v
    | Joins flight => do v <- OAwait id flight; Ret v
    end)%prog k).
Proof using.
  intros Hk Hx. cbn in Hx. apply calm_bind; [|done]. destruct (w_flights w !! (pod, id)) as [flight|]; destruct Hx as [-> ->].
  - calm_tac.
  - apply calm_bind; [apply lookup_calm|]. intros v. split; [cbn; lia|]. done.
Qed.

(** A request goes on as one in progress. *)
Lemma in_progress_step faulty p pod w w' :
  in_progress (w_flight w) p ->
  match p with
  | Ret _ => True
  | Do o k => forall x, exec faulty pod o w x w' -> in_progress (w_flight w') (k x)
  end.
Proof using.
  assert (forall p, calm (w_flight w) p -> match p with
    | Ret _ => True | Do o k => forall x, exec faulty pod o w x w' -> in_progress (w_flight w') (k x) end) as Hcalm.
  { intros [a|B o k]; [done|]. intros [_ Hk] x Hx%exec_flight. apply in_progress_calm. eapply calm_mono; [done|apply Hk]. }
  intros [r|p' Hp|p' Hp]; [|by apply Hcalm|].
  - pose proof (serve_calm (w_flight w) r) as Hc. destruct r as [|id|id|id|id|id workloadID m|id fn]; try by apply Hcalm.
    + cbn. intros u _. apply in_progress_generating. apply (generating_first u).
    + cbn. intros t Ht. apply in_progress_calm. unfold pmap. apply (lookup_progress faulty pod id _ w t w'); [done|exact Ht].
    + cbn [serve_request]. unfold pmap, DecorateSession, GetMultiSession, cache_Get. cbn [pbind]. intros t Ht.
      apply in_progress_calm. apply calm_bind; [|done]. apply (lookup_progress faulty pod id _ w t w'); [|exact Ht].
      intros n s. calm_tac.
  - destruct Hp as [u| |u]; cbn.
    + intros x _. destruct x as [[]|]; [by apply in_progress_calm|apply in_progress_generating, generating_again..].
    + intros u _. apply in_progress_generating, (generating_second u).
    + intros x _. destruct x as [[]|]; by apply in_progress_calm.
Qed.
End progress.

(** ** Reachable deployments *)
Record system_ok (sm : Manager) (s : deployment) : Prop := {
  ok_threads : Forall (fun '(_, _, p) => in_progress sm (w_flight (sys_world s)) p) (sys_threads s);
  ok_issued : "" ∉ w_issued (sys_world s);
  ok_landed key flight v : w_landed (sys_world s) !! (key, flight) = Some v -> flight < w_flight (sys_world s);
}.

Lemma lands_below sm n p :
  in_progress sm n p ->
  match p with
  | Do o _ => match o with OLand _ flight _ => flight < n | _ => True end
  | Ret _ => True
  end.
Proof.
  assert (forall p : prog answer, calm n p -> match p with
    | Do o _ => match o with OLand _ flight _ => flight < n | _ => True end | Ret _ => True end) as Hcalm.
  { intros [a|B o k]; [done|]. intros [Ho _]. by destruct o. }
  intros [r|p' Hp|p' Hp]; [|by apply Hcalm|by destruct Hp].
  pose proof (serve_calm sm n r) as Hc. destruct r; try by apply Hcalm. all: done.
Qed.

Lemma exec_world_ok faulty pod {B} (o : op B) w x w' :
  match o with OLand _ flight _ => flight < w_flight w | _ => True end -> exec faulty pod o w x w' -> "" ∉ w_issued w ->
  (forall key flight v, w_landed w !! (key, flight) = Some v -> flight < w_flight w) ->
  "" ∉ w_issued w' /\ forall key flight v, w_landed w' !! (key, flight) = Some v -> flight < w_flight w'.
Proof.
  intros Ho Hx Hi Hl. destruct o; cbn in Hx; unfold create_store, update_store in Hx;
    repeat match goal with
      | H : _ /\ _ |- _ => destruct H
      | H : _ \/ _ |- _ => destruct H
      | H : exists _, _ |- _ => destruct H
      | _ => case_match
      end; subst; cbn; (split; [set_solver|]); try done.
  - intros ? ? ? ?%Hl. lia.
  - intros ? ? ?. rewrite lookup_insert. case_decide as E; [|by apply Hl]. by injection E as <- <-.
Qed.

Lemma system_step_ok faulty sm s s' : system_ok sm s -> system_step faulty sm s s' -> system_ok sm s'.
Proof.
  intros [Ht Hi Hl] Hs. destruct Hs as [pod r w ts|i pod r B o k x w w' ts Hp Hx|id w ts|pod id c w ts Hc]; cbn in *;
    [split; [|done..]|..|split; done|split; done].
  - apply Forall_app_2; [done|]. apply Forall_singleton. apply in_progress_start.
  - pose proof (Forall_lookup_1 _ _ _ _ Ht Hp) as Hk. cbn in Hk.
    destruct (exec_world_ok faulty pod o w x w' (lands_below _ _ _ Hk) Hx Hi Hl). split; [|done..]. cbn.
    apply Forall_insert; [|by apply (in_progress_step sm faulty _ pod w w' Hk)].
    eapply Forall_impl; [exact Ht|]. intros [[? ?] q]. apply in_progress_mono. by eapply exec_flight.
Qed.

(** ** A session that is gone *)

(** The session was given out, is not stored, and the request that generated it is not about to
    store it. *)
Definition about_to_store {A} (id : string) (p : prog A) : Prop :=
  match p with Do (OCreate id' _) _ => id' = id | _ => False end.

Definition gone (id : string) (s : deployment) : Prop :=
  id ∈ w_issued (sys_world s) /\ w_store (sys_world s) !! id = None /\
  Forall (fun '(_, _, p) => ~ about_to_store id p) (sys_threads s).

(** No lookup of the session is in progress on the pod. *)
Definition no_lookup (id : string) (s : deployment) (pod : nat) : bool :=
  bool_decide (w_flights (sys_world s) !! (pod, id) = None).

Lemma in_progress_gone faulty sm id fresh n p :
  id <> "" -> in_progress sm n p -> ~ about_to_store id p -> while_gone faulty id n fresh p (fun _ => True).
Proof.
  intros Hid [r|p' Hp|p' Hp] Hno.
  - eapply while_gone_mono; [|by apply serve_gone]. done.
  - by apply calm_gone.
  - assert (forall u, u <> id -> while_gone faulty id n fresh
      (pmap AGenerate (do stored <- OCreate u ∅; match stored with Some true => Ret u | _ => Ret "" end)%prog) (fun _ => True)) as Hsecond.
    { intros u Hu. apply while_gone_do; [done|]. intros x _. by destruct x as [[]|]. }
    assert (while_gone faulty id n fresh (pmap AGenerate second_try) (fun _ => True)) as Hagain.
    { apply while_gone_do; [by intros []|]. intros u Hu. by apply (Hsecond u). }
    destruct Hp as [u| |u]; cbn in Hno; [|done|by apply Hsecond].
    apply while_gone_do; [done|]. intros x _. by destruct x as [[]|].
Qed.

(** The invariant: every request is one that does not revive the session, and the requests from
    the [m]th on answer that it is dead. *)
Record mourned (faulty : bool) (id : string) (since m : nat) (fresh : nat -> bool) (s : deployment) : Prop := {
  mn_world : gone_world faulty id since fresh (sys_world s);
  mn_length : m <= length (sys_threads s);
  mn_threads i pod r p : sys_threads s !! i = Some (pod, r, p) ->
    while_gone faulty id since (fresh pod) p (fun a => m <= i -> dead_answer faulty id (fresh pod) r a);
}.

Lemma mourned_step faulty sm id since m fresh s s' :
  id <> "" -> mourned faulty id since m fresh s -> system_step faulty sm s s' -> mourned faulty id since m fresh s'.
Proof.
  intros Hid [Hw Hm Ht] Hs. destruct Hs as [pod r w ts|i pod r B o k x w w' ts Hi Hx|id' w ts|pod id' c w ts Hc]; cbn in *.
  - split; cbn; [done|rewrite length_app; lia|]. intros i pod' r' p [Hi|[_ Hi]]%lookup_app_Some; [by apply Ht|].
    apply list_lookup_singleton_Some in Hi as [_ [= <- <- <-]].
    eapply while_gone_mono; [|by apply serve_gone]. done.
  - destruct (Ht i pod r _ Hi) as [Hno Hk]. destruct (exec_gone faulty id since fresh pod o w x w' Hw Hno Hx) as [Hr Hw'].
    split; cbn; [done|by rewrite length_insert|]. intros j pod' r' p Hj.
    destruct (decide (i = j)) as [<-|]; [|rewrite list_lookup_insert_ne in Hj by done; by apply Ht].
    rewrite list_lookup_insert_eq in Hj by (by eapply lookup_lt_Some). injection Hj as <- <- <-. by apply Hk.
  - split; cbn; [|done..]. eapply gone_world_frame; [exact Hw|apply Hw| |done..]. cbn. apply lookup_delete_None. right. apply Hw.
  - split; cbn; [|done..]. eapply gone_world_frame; [exact Hw|apply Hw|apply Hw|done..].
Qed.

Lemma gone_mourned faulty sm id s :
  system_ok sm s -> gone id s ->
  id <> "" /\ mourned faulty id (w_flight (sys_world s)) (length (sys_threads s)) (no_lookup id s) s.
Proof.
  intros [Ht Hi Hl] (Hiss & Hst & Hno). assert (id <> "") as Hid by (by intros ->). split; [done|]. split; [|done|].
  - split; [done|done|done| |].
    + intros pod flight Hf E. unfold no_lookup in Hf. apply bool_decide_eq_true in Hf. congruence.
    + intros flight v Hf _ E%Hl. lia.
  - intros i pod r p Hp. apply while_gone_mono with (Q := fun _ => True).
    + intros a _ Hle. apply lookup_lt_Some in Hp. by destruct (Nat.lt_irrefl i (Nat.lt_le_trans _ _ _ Hp Hle)).
    + apply (in_progress_gone _ sm); [done|exact (Forall_lookup_1 _ _ _ _ Ht Hp)|exact (Forall_lookup_1 _ _ _ _ Hno Hp)].
Qed.

Lemma mourned_gone faulty id since m fresh s : mourned faulty id since m fresh s -> gone id s.
Proof.
  intros [[] ? Ht]. split_and!; [done..|]. apply Forall_lookup. intros i [[pod r] p] Hi. specialize (Ht i pod r p Hi).
  destruct p as [a|B o k]; [by intros []|]. destruct Ht as [Hno _]. destruct o; cbn in *; tauto.
Qed.

(** ** Schedules: executions without failures, computed *)
Inductive sched_event := Arrives (pod : nat) (r : request) | Accesses (i : nat).

Section schedule.
Context (sm : Manager).
Context (uuid : world -> string).                          (* the identifier the generator picks *)
Context (factory : string -> metadata).                    (* what a session starts with *)

Definition made (id : string) (w : world) : MultiSession :=
  {| ms_object := w_next w; ms_handle := w_next w; ms_ID := id; ms_metadata := factory id |}.

Definition open_made (id : string) (w : world) : option (option MultiSession * world) :=
  if decide (is_Some (factory id !! MetadataKeyIdentityBinding)) then Some (Some (made id w), open_next w) else None.

Definition perform (pod : nat) {B : Type} (o : op B) (w : world) : option (B * world) :=
  match o in op B return option (B * world) with
  | OUUID =>
      if decide ((uuid w ∉ w_issued w) /\ uuid w <> "") then Some (uuid w, issue (uuid w) w) else None
  | OLoad id => Some (match w_store w !! id with Some m => Loaded m | None => ErrSessionNotFound end, w)
  | OCreate id m => Some (Some (negb (is_present id w)), create_store id m w)
  | OUpdate id m => Some (Some (is_present id w), update_store id m w)
  | ODelete id => Some (true, set_store (delete id (w_store w)) w)
  | OMake id _ => open_made id w
  | ORestore id _ _ => open_made id w
  | OClose s => Some (tt, close_session s w)
  | OCacheGet id => Some (w_cache w !! (pod, id), w)
  | OCacheRemove id s =>
      Some (tt, match w_cache w !! (pod, id) with
                | Some current => if ms_object current =? ms_object s then evict pod id current w else w
                | None => w
                end)
  | OCacheContainsOrAdd id s =>
      Some (match w_cache w !! (pod, id) with
            | Some _ => (true, w)
            | None => (false, set_cache (<[(pod, id) := s]> (w_cache w)) w)
            end)
  | OCacheAdd id s => Some (tt, set_cache (<[(pod, id) := s]> (w_cache w)) w)
  | OFlight key =>
      Some (match w_flights w !! (pod, key) with
            | Some flight => (Joins flight, w)
            | None => (Leads (w_flight w), take_off pod key w)
            end)
  | OLand key flight v => Some (tt, land pod key flight v w)
  | OAwait key flight => (fun v => (v, w)) <$> w_landed w !! (key, flight)
  end.

Definition happen (e : sched_event) (s : deployment) : deployment :=
  match e with
  | Arrives pod r =>
      {| sys_world := sys_world s; sys_threads := sys_threads s ++ [(pod, r, serve_request sm r)] |}
  | Accesses i =>
      match sys_threads s !! i with
      | Some (pod, r, Do o k) =>
          match perform pod o (sys_world s) with
          | Some (x, w') => {| sys_world := w'; sys_threads := <[i := (pod, r, k x)]> (sys_threads s) |}
          | None => s
          end
      | _ => s
      end
  end.

Definition schedule (es : list sched_event) (s : deployment) : deployment := foldl (fun s e => happen e s) s es.

Lemma perform_exec pod {B} (o : op B) w x w' : perform pod o w = Some (x, w') -> exec false pod o w x w'.
Proof.
  destruct o; cbn; unfold open_made; intros Hp; repeat case_match; simplify_eq; try tauto.
  - by destruct_and!.
  - right; eexists; split_and!; try done; by split_and!.
  - right; eexists; split_and!; try done; by split_and!.
  - apply fmap_Some in Hp as (v & Hv & [= -> ->]). done.
Qed.

Lemma happen_step e s : rtc (system_step false sm) s (happen e s).
Proof.
  destruct e as [pod r|i], s as [w ts]; cbn [happen sys_threads sys_world]; [apply rtc_once, step_request|].
  destruct (ts !! i) as [[[pod r] [a|B o k]]|] eqn:Hi; [apply rtc_refl| |apply rtc_refl].
  destruct (perform pod o w) as [[x w']|] eqn:Hp; [|apply rtc_refl].
  apply rtc_once. by apply (step_access _ _ i pod r o k x w w' ts Hi), perform_exec.
Qed.

Lemma schedule_steps es s : rtc (system_step false sm) s (schedule es s).
Proof.
  revert s. induction es as [|e es IH]; intros s; [apply rtc_refl|]. cbn.
  etrans; [apply happen_step|apply IH].
Qed.
End schedule.

(** The answers of the requests that finished. *)
Definition answers (s : deployment) : list (option answer) :=
  (fun '(_, _, p) => match p with Ret a => Some a | Do _ _ => None end) <$> sys_threads s.

Definition empty_world : world :=
  {| w_store := ∅; w_cache := ∅; w_closed := []; w_next := 0; w_issued := ∅;
     w_flights := ∅; w_landed := ∅; w_flight := 0 |}.

Definition empty_system : deployment := {| sys_world := empty_world; sys_threads := [] |}.

Definition sample_manager : Manager := {| mgr_backends := []; mgr_backendHealth := None |}.

Definition sample_metadata : metadata :=
  {[ MetadataKeyIdentityBinding := "u:"; MetadataKeyBackendIDs := "github,jira" ]}.

Definition sample_schedule (es : list sched_event) (s : deployment) : deployment :=
  schedule sample_manager (fun _ => "s1") (fun _ => sample_metadata) es s.

Definition ended_session : list sched_event :=
  [Arrives 0 RGenerate; Accesses 0; Accesses 0;
   Arrives 0 (RCreate "s1"); Accesses 1; Accesses 1; Accesses 1; Accesses 1; Accesses 1;
   Arrives 1 (RTerminate "s1"); Accesses 2; Accesses 2].

(** C5. A session that is gone from the storage is gone for good, on every pod and whatever the
    interleaving, failures included.  From a deployment in which it was given out, is not stored, and
    is not just being stored by the request that generated it, no request ever stores it again, and every request
    that starts from then on is told so: creating or decorating it fails, and validation
    reports it terminated (or a storage error).  When the storage does not fail, a pod serves it, from its
    cache or otherwise, only to requests that share a lookup which the pod began before the session
    was gone: a pod without such a lookup in progress serves it to nobody.  As the session stays
    gone, this holds from every later moment on too, and so on every pod once the lookups that were
    in progress have ended. *)
Theorem gone_stays_gone faulty sm id s s' :
  rtc (system_step faulty sm) empty_system s -> gone id s -> rtc (system_step faulty sm) s s' ->
  gone id s' /\
  forall i pod r a, length (sys_threads s) <= i -> sys_threads s' !! i = Some (pod, r, Ret a) ->
    dead_answer faulty id (no_lookup id s pod) r a.
Proof.
  intros Hs0 Hg Hs. assert (system_ok sm s) as Hok.
  { assert (system_ok sm empty_system) as H0 by (split; [constructor|set_solver|done]).
    clear Hg Hs. revert H0. induction Hs0 as [|s1 s2 s3 Hstep _ IH]; [done|]. intros H0. apply IH. by eapply system_step_ok. }
  destruct (gone_mourned faulty sm id s Hok Hg) as [Hid Hm]. assert (mourned faulty id (w_flight (sys_world s))
    (length (sys_threads s)) (no_lookup id s) s') as Hm'.
  { clear Hs0 Hg Hok. revert Hm. generalize (w_flight (sys_world s)) (length (sys_threads s)) (no_lookup id s).
    induction Hs as [|s1 s2 s3 Hstep _ IH]; [done|]. intros n m fresh Hm. apply IH. by eapply mourned_step. }
  split; [by eapply mourned_gone|]. intros i pod r a Hle Hi. by apply (mn_threads _ _ _ _ _ _ Hm' i pod r _ Hi).
Qed.

(** Generated and created on pod 0, terminated on pod 1; then pod 0, which still has the
    session in its cache, is asked for it. *)
Lemma gone_stays_gone_witness :
  let s := sample_schedule ended_session empty_system in
  let s' := sample_schedule ([Arrives 0 (RGet "s1")] ++ replicate 6 (Accesses 3)) s in
  gone "s1" s /\
  w_cache (sys_world s) !! (0, "s1") <> None /\
  answers s' !! 3 = Some (Some (AGet None)) /\
  w_store (sys_world s') !! "s1" = None.
Proof.
  intros s s'.
  assert (gone "s1" s) as Hg.
  { split_and!; [by vm_compute|by vm_compute|]. vm_compute. repeat constructor; intros []. }
  split; [done|]. split; [by vm_compute|]. split; [by vm_compute|].
  destruct (gone_stays_gone false sample_manager "s1" s s' (schedule_steps _ _ _ _ _) Hg (schedule_steps _ _ _ _ _))
    as [(_ & Hst & _) _]. exact Hst.
Defined.

(** The exception is real: a request that arrives after the session was terminated, and joins a
    lookup whose check had passed before, is given the session. *)
Example late_request_shares_lookup :
  let s := sample_schedule ([Arrives 0 RGenerate; Accesses 0; Accesses 0;
    Arrives 0 (RCreate "s1"); Accesses 1; Accesses 1; Accesses 1; Accesses 1; Accesses 1;
    Arrives 0 (RGet "s1"); Accesses 2; Accesses 2; Accesses 2;
    Arrives 1 (RTerminate "s1"); Accesses 3; Accesses 3]) empty_system in
  let s' := sample_schedule [Arrives 0 (RGet "s1"); Accesses 4; Accesses 2; Accesses 4] s in
  answers s !! 3 = Some (Some (ATerminate true)) /\
  exists session, answers s' !! 4 = Some (Some (AGet (Some session))) /\ ms_ID session = "s1".
Proof. intros s s'. split; [by vm_compute|]. eexists. split; [vm_compute; reflexivity|reflexivity]. Qed.

(** Marking is not enough: a client that terminates a session while it is being created can
    be told that it is terminated although the session lives on.  The mark is set between
    the second check of [CreateSession] and its update, which then overwrites it. *)
Theorem termination_lost sm :
  exists s, rtc (system_step false sm) empty_system s /\
    answers s !! 2 = Some (Some (ATerminate true)) /\
    answers s !! 3 = Some (Some (AValidate (Some false))) /\
    exists session, answers s !! 1 = Some (Some (ACreate (Some session))).
Proof.
  exists (schedule sm (fun _ => "s1") (fun _ => sample_metadata)
    [Arrives 0 RGenerate; Accesses 0; Accesses 0;
     Arrives 0 (RCreate "s1"); Accesses 1; Accesses 1; Accesses 1;
     Arrives 1 (RTerminate "s1"); Accesses 2; Accesses 2;
     Accesses 1; Accesses 1;
     Arrives 1 (RValidate "s1"); Accesses 3] empty_system).
  split; [apply schedule_steps|]. split; [by vm_compute|]. split; [by vm_compute|]. eexists. by vm_compute.
Qed.

(** ** Connections *)

(** What a request did with connections: opened, closed, handed to the cache. *)
Record ledger := {
  l_opened : list nat;
  l_closed : list nat;
  l_cached : list nat;
}.

Definition no_sessions : ledger := {| l_opened := []; l_closed := []; l_cached := [] |}.

Definition note_opened (s : option MultiSession) (l : ledger) : ledger :=
  match s with
  | Some s => {| l_opened := ms_handle s :: l_opened l; l_closed := l_closed l; l_cached := l_cached l |}
  | None => l
  end.

Definition note_closed (s : MultiSession) (l : ledger) : ledger :=
  {| l_opened := l_opened l; l_closed := ms_handle s :: l_closed l; l_cached := l_cached l |}.

Definition note_cached (s : MultiSession) (l : ledger) : ledger :=
  {| l_opened := l_opened l; l_closed := l_closed l; l_cached := ms_handle s :: l_cached l |}.

Definition note {B : Type} (o : op B) (l : ledger) : B -> ledger :=
  match o in op B return B -> ledger with
  | OMake _ _ | ORestore _ _ _ => fun r => note_opened r l
  | OClose s => fun _ => note_closed s l
  | OCacheAdd _ s => fun _ => note_cached s l
  | OCacheContainsOrAdd _ s => fun present => if present then l else note_cached s l
  | _ => fun _ => l
  end.

(** Whatever the accesses answer, the ledger and the answer at the end satisfy [Q]. *)
Fixpoint accounted {A} (p : prog A) (l : ledger) (Q : ledger -> A -> Prop) : Prop :=
  match p with
  | Ret a => Q l a
  | Do o k => forall x, accounted (k x) (note o l x) Q
  end.

Lemma accounted_bind {A C} (p : prog A) (k : A -> prog C) l Q R :
  accounted p l R -> (forall l a, R l a -> accounted (k a) l Q) -> accounted (pbind p k) l Q.
Proof. intros Hp Hk. revert l Hp. induction p as [a|B o k' IH]; cbn; eauto. Qed.

Ltac accounted_tac :=
  repeat match goal with
    | |- accounted (match ?x with _ => _ end) _ _ => destruct x
    | |- accounted (cleanupFailedPlaceholder _ _ _) _ _ => unfold cleanupFailedPlaceholder
    | |- accounted (Do _ _) _ _ => intros ?
    end.

(** An opened session is the answer, or it was closed. *)
Definition answered_or_closed (l : ledger) (s : option MultiSession) : Prop :=
  l_cached l = [] /\
  match s with
  | Some s => l_opened l = [ms_handle s] /\ l_closed l = []
  | None => l_opened l = l_closed l /\ length (l_opened l) <= 1
  end.

Lemma load_connections sm id : accounted (loadSession sm id) no_sessions answered_or_closed.
Proof. unfold loadSession. accounted_tac; repeat split; cbn; lia. Qed.

Lemma check_connections id s l : accounted (checkSession id s) l (fun l' _ => l' = l).
Proof. unfold checkSession. accounted_tac; done. Qed.

(** No request leaks the connections it opens, whatever the storage, the factory and the
    other requests do in between.  Creation either fails, having closed what it opened, or
    returns the one session it opened, cached and not closed.  A lookup closes the session
    it restored exactly when it does not hand it to the cache. *)
Theorem connections_not_leaked sm id :
  accounted (CreateSession sm id) no_sessions (fun l s =>
    match s with
    | Some s => l = {| l_opened := [ms_handle s]; l_closed := []; l_cached := [ms_handle s] |}
    | None => l_opened l = l_closed l /\ l_cached l = []
    end) /\
  accounted (GetMultiSession sm id) no_sessions (fun l s =>
    l_opened l = l_closed l ++ l_cached l /\ length (l_opened l) <= 1 /\
    (s = None -> l_cached l = []) /\
    (l_cached l <> [] -> exists session, s = Some session /\ l_cached l = [ms_handle session])).
Proof.
  split; [unfold CreateSession; accounted_tac; done|].
  unfold GetMultiSession, cache_Get. intros [flight|flight]; cbn [note];
    [|intros v; cbn; split_and!; [done|lia|done|done]].
  eapply accounted_bind; [|intros l v Hv []; exact Hv].
  unfold get_or_load. intros cached. cbn [note].
  apply (accounted_bind _ _ _ _ (fun l _ => l = no_sessions)).
  { destruct cached as [s|]; [|done]. unfold getHit. eapply accounted_bind; [apply check_connections|].
    intros ? [] ->; accounted_tac; cbn; done. }
  intros ? [s|] ->; [by cbn; split_and!; [|lia| |]|]. eapply accounted_bind; [apply load_connections|].
  intros [op cl ca] [s|] [Hc Hs]; cbn [l_opened l_closed l_cached] in *; subst ca;
    [|destruct Hs as [-> ?]; cbn; rewrite app_nil_r; split_and!; done].
  destruct Hs as [-> ->]. accounted_tac; cbn; split_and!; try done; intros; eauto.
Qed.

(** ** Backends that expire *)

(** The request runs alone, the storage does not fail. *)
Fixpoint alone (pod : nat) {A} (p : prog A) (w : world) (Q : world -> A -> Prop) : Prop :=
  match p with
  | Ret a => Q w a
  | Do o k => forall x w', exec false pod o w x w' -> alone pod (k x) w' Q
  end.

(** The new list has the backends of the old one, without the one that expired. *)
Lemma drop_backend_listed workloadID backendIDs m b :
  listed b (value MetadataKeyBackendIDs (drop_backend workloadID backendIDs m)) <->
  listed b backendIDs /\ b <> workloadID.
Proof.
  unfold drop_backend, value. rewrite lookup_insert_eq. cbn [default from_option id].
  rewrite listed_Join.
  - rewrite list_elem_of_filter. unfold listed. naive_solver.
  - apply Forall_forall. intros t [[? ?] (p & -> & Hp)%list_elem_of_fmap]%list_elem_of_filter.
    split_and!; [|done|apply TrimSpace_idem]. apply no_char_TrimSpace. by eapply Split_parts.
Qed.

Lemma alone_bind pod {A C} (p : prog A) (k : A -> prog C) w Q R :
  alone pod p w R -> (forall w a, R w a -> alone pod (k a) w Q) -> alone pod (pbind p k) w Q.
Proof. intros Hp Hk. revert w Hp. induction p as [a|B o k' IH]; cbn; eauto. Qed.

(** A cached session whose backends differ from the stored ones is evicted and closed. *)
Lemma stale_hit pod id m s w :
  w_store w !! id = Some m -> w_cache w !! (pod, id) = Some s ->
  value MetadataKeyBackendIDs (ms_metadata s) <> value MetadataKeyBackendIDs m ->
  alone pod (getHit checkSession id s) w (fun w' r => r = None /\ w' = evict pod id s w).
Proof.
  intros Hm Hs Hd x w1 [-> [->|[? _]]]; [|done]. rewrite Hm.
  destruct (is_terminated m); [|rewrite decide_True by done];
    intros [] w2 ->; rewrite Hs, Nat.eqb_refl; done.
Qed.

(** A restored session has new connections. *)
Lemma load_fresh sm pod id w :
  alone pod (loadSession sm id) w (fun w' r =>
    w_closed w ⊆ w_closed w' /\ w_cache w' = w_cache w /\
    forall s, r = Some s -> ms_handle s = w_next w /\ ms_ID s = id).
Proof.
  unfold loadSession. intros x w1 [-> [->|[? _]]]; [|done]. destruct (w_store w !! id) as [m|]; [|done].
  destruct (is_terminated m); [done|]. destruct (m !! _) as [binding|]; [|done].
  intros r w2 [[-> ->]|(s & -> & (? & ? & ? & ?) & ->)]; [done|].
  intros u w3 [[-> ->]|[? _]]; [|done]. unfold update_store, is_present. cbn [open_next w_store].
  destruct (w_store w !! id); [cbn; naive_solver|]. intros ? ? ->. cbn. split_and!; [set_solver|done..].
Qed.

(** When a backend of a session expires and one pod records it, a pod that cached the
    session earlier, and is not looking it up at that moment, does not serve its copy again: the
    stored list has exactly the other backends, and the next lookup closes the stale session and answers with new connections
    or with nothing. *)
Theorem expired_backend_propagates sm pod pod' id workloadID m backendIDs s w :
  w_store w !! id = Some m -> is_terminated m = false ->
  m !! MetadataKeyBackendIDs = Some backendIDs -> listed workloadID backendIDs ->
  w_cache w !! (pod', id) = Some s -> value MetadataKeyBackendIDs (ms_metadata s) = backendIDs ->
  w_flights w !! (pod', id) = None ->
  alone pod (NotifyBackendExpired id workloadID (Some m)) w (fun w1 _ =>
    (exists m', w_store w1 !! id = Some m' /\
       forall b, listed b (value MetadataKeyBackendIDs m') <-> listed b backendIDs /\ b <> workloadID) /\
    alone pod' (GetMultiSession sm id) w1 (fun w2 r =>
      ms_handle s ∈ w_closed w2 /\ forall s', r = Some s' -> ms_handle s' = w_next w /\ ms_ID s' = id)).
Proof.
  intros Hm Ht Hids Hl Hs Hv Hnone. unfold NotifyBackendExpired, updateMetadata. rewrite Ht, Hids.
  intros u w1 [[-> ->]|[? _]]; [|done]. unfold update_store, is_present. rewrite Hm. cbn [pbind alone].
  set (m' := drop_backend workloadID backendIDs m). pose proof (drop_backend_listed workloadID backendIDs m) as Hd.
  split; [exists m'; split; [by cbn; rewrite lookup_insert_eq|exact Hd]|].
  assert (value MetadataKeyBackendIDs (ms_metadata s) <> value MetadataKeyBackendIDs m') as Hne.
  { rewrite Hv. intros E. destruct (proj1 (Hd workloadID)) as [_ Hn]; [|by apply Hn]. fold m'. by rewrite <- E. }
  unfold GetMultiSession, cache_Get. intros t w2 Ht2. cbn in Ht2. rewrite Hnone in Ht2. destruct Ht2 as [-> ->].
  eapply alone_bind; [|intros w6 r Hr [] w7 ->; exact Hr].
  unfold get_or_load. intros c w2 [-> ->]. cbn [set_store take_off w_cache]. rewrite Hs.
  eapply alone_bind; [apply (stale_hit _ _ m'); [by cbn; rewrite lookup_insert_eq|done..]|].
  intros w3 ? [-> ->]. eapply alone_bind; [apply load_fresh|].
  intros w4 r (Hc & Hcache & Hr). cbn in Hc, Hcache, Hr. assert (ms_handle s ∈ w_closed w4) as Hin by set_solver.
  destruct r as [r|]; [|done]. intros b w5 Hb. cbn in Hb. rewrite Hcache, lookup_delete_eq in Hb.
  destruct Hb as [-> ->]. cbn. naive_solver.
Qed.

Lemma expired_backend_propagates_witness :
  let s := {| ms_object := 0; ms_handle := 0; ms_ID := "s1"; ms_metadata := sample_metadata |} in
  let w := {| w_store := {[ "s1" := sample_metadata ]}; w_cache := {[ (1, "s1") := s ]}; w_closed := [];
              w_next := 1; w_issued := {[ "s1" ]}; w_flights := ∅; w_landed := ∅; w_flight := 0 |} in
  alone 0 (NotifyBackendExpired "s1" "jira" (Some sample_metadata)) w (fun w1 _ =>
    (exists m', w_store w1 !! "s1" = Some m' /\
       forall b, listed b (value MetadataKeyBackendIDs m') <-> listed b "github,jira" /\ b <> "jira") /\
    alone 1 (GetMultiSession sample_manager "s1") w1 (fun w2 r =>
      0 ∈ w_closed w2 /\ forall s', r = Some s' -> ms_handle s' = 1 /\ ms_ID s' = "s1")).
Proof.
  intros s w. apply (expired_backend_propagates sample_manager 0 1 "s1" "jira" sample_metadata "github,jira" s w);
    [reflexivity|reflexivity|reflexivity| |reflexivity|reflexivity|reflexivity].
  split; [discriminate|]. vm_compute. right. left.
Defined.

(** ** The storage behind the accesses *)
Section storage.
Context {S : Type} `{DataStorage S} (ok : S -> Prop).

(** At [now] the storage holds what the world says. *)
Definition holds (now : Time) (s : S) (w : world) : Prop := forall id, w_store w !! id = ds_look now s id.

Definition simulates {B : Type} (now : Time) (o : op B) (w : world) (rs : B * S) : Prop :=
  ok rs.2 /\ exists w', (forall pod, exec false pod o w rs.1 w') /\ holds now rs.2 w'.

Definition expires (w w' : world) : Prop := exists id, w' = set_store (delete id (w_store w)) w.

Lemma expires_all ids w : rtc expires w (set_store (delete_keys ids (w_store w)) w).
Proof using.
  revert w. induction ids as [|id ids IH]; intros w; [destruct w; apply rtc_refl|].
  eapply rtc_l; [by exists id|]. apply (IH (set_store (delete id (w_store w)) w)).
Qed.

Context `{!DataStorageOk ok}.

Lemma simulated {B} now (o : op B) w x s s' id m store :
  ok s' -> holds now s w -> only_changes now s s' id m ->
  (forall pod, exec false pod o w x (set_store store w)) ->
  (forall id', store !! id' = if decide (id' = id) then m else w_store w !! id') ->
  simulates now o w (x, s').
Proof using.
  intros Hok Hh Hc Hx Hst. split; [done|]. exists (set_store store w). split; [done|].
  intros id'. cbn. rewrite Hst, Hc. case_decide; [done|apply Hh].
Qed.

Lemma set_store_same w : set_store (w_store w) w = w.
Proof using. by destruct w. Qed.

Lemma unchanged_store w id : forall id', w_store w !! id' = if decide (id' = id) then w_store w !! id else w_store w !! id'.
Proof using. intros id'. case_decide; by subst. Qed.

(** Any storage that keeps the promises of the interface implements the accesses of the
    deployment: what it answers, and what it holds afterwards, is one of the outcomes of the
    access, and as time passes it goes through expiries of single sessions. *)
Theorem storage_refines now s w id m :
  ok s -> holds now s w -> id <> "" -> ds_storable m ->
  simulates now (OLoad id) w (ds_Load now id s) /\
  simulates now (OCreate id m) w (ds_Create now id m s) /\
  simulates now (OUpdate id m) w (ds_Update now id m s) /\
  simulates now (ODelete id) w (ds_Delete now id s) /\
  forall now', (now <= now')%Z -> exists w', rtc expires w w' /\ holds now' s w'.
Proof.
  intros Hok Hh Hid Hm.
  pose proof (ds_load now id s Hok Hid) as HL. pose proof (ds_create now id m s Hok Hid Hm) as HC.
  pose proof (ds_update now id m s Hok Hid Hm) as HU. pose proof (ds_delete now id s Hok Hid) as HD.
  destruct (ds_Load now id s) as [r1 s1], (ds_Create now id m s) as [r2 s2], (ds_Update now id m s) as [r3 s3],
    (ds_Delete now id s) as [r4 s4].
  destruct HL as (? & HL & ->), HD as (? & -> & HD), HC as [? HC], HU as [? HU].
  rewrite <- (Hh id) in *. split_and!.
  - eapply simulated; [done..| |apply unchanged_store]. intros pod. rewrite set_store_same. cbn. auto.
  - destruct (w_store w !! id) as [old|] eqn:E; destruct HC as [-> HC].
    + eapply simulated; [done..| |rewrite <- E; apply unchanged_store].
      intros pod. left. unfold is_present, create_store. by rewrite set_store_same, E.
    + eapply (simulated _ _ _ _ _ _ _ _ (<[id := m]> (w_store w))); [done..| |apply lookup_insert_case].
      intros pod. left. unfold is_present, create_store. by rewrite E.
  - destruct (w_store w !! id) as [old|] eqn:E; destruct HU as [-> HU].
    + eapply (simulated _ _ _ _ _ _ _ _ (<[id := m]> (w_store w))); [done..| |apply lookup_insert_case].
      intros pod. left. unfold is_present, update_store. by rewrite E.
    + eapply simulated; [done..| |rewrite <- E; apply unchanged_store].
      intros pod. left. unfold is_present, update_store. by rewrite set_store_same, E.
  - eapply (simulated _ _ _ _ _ _ _ _ (delete id (w_store w))); [done..| |apply lookup_delete_case].
    intros pod. by left.
  - intros now' Hle. eexists. split; [apply (expires_all (keys_if (fun id _ => negb (bool_decide (is_Some (ds_look now' s id)))) (w_store w)))|].
    rewrite delete_keys_if. intros id'. cbn. rewrite lookup_delete_if, (Hh id').
    destruct (ds_look now' s id') as [m'|] eqn:E.
    + rewrite (ds_expire now now' s id' m') by done. done.
    + by destruct (ds_look now s id').
Qed.
End storage.

Lemma storage_refines_witness :
  let s := {| lds_sessions := {[ "s1" := newLocalDataEntry 5 sample_metadata ]}; lds_ttl := 10 |} in
  let w := {| w_store := {[ "s1" := sample_metadata ]}; w_cache := ∅; w_closed := []; w_next := 0; w_issued := ∅; w_flights := ∅; w_landed := ∅; w_flight := 0 |} in
  simulates (fun _ : LocalSessionDataStorage => True) 7 (OUpdate "s1" ∅) w (ds_Update 7 "s1" ∅ s).
Proof.
  intros s w. apply (storage_refines (fun _ : LocalSessionDataStorage => True) 7 s w "s1" ∅); try done.
  intros id. unfold s, w. cbn. rewrite !lookup_singleton. by case_decide.
Defined.
