(* ===== verification/AdmissionQueue.v ===== *)
(** * Closing a session while it is used
    ([pkg/vmcp/session/admission.go], [Close] of [default_session.go])

    Requests of a session pass an admission queue before they use its connections;
    [Close] closes the queue, waits for the requests inside, and then closes the
    connections.  The queue is a read-write lock, a wait group and a flag.  A state has
    these and the goroutines, each at a statement of the code; they take turns in any
    order. *)

From S2P Require Import Prelude.

(** A request: [lookupBackend] up to its use of the connection, and the deferred call. *)
Inductive request :=
  | RStart
  | RLocked       (* holds the read lock *)
  | ROpen         (* has seen the queue open *)
  | RAdded        (* is counted by the wait group *)
  | RUsing        (* admitted: the connection is in use *)
  | RDone
  | RRefused.     (* [ErrSessionClosed] *)

#[export] Instance request_eq_dec : EqDecision request.
Proof. solve_decision. Defined.

(** A call of [Close]; the flag tells whether [CloseAndDrain] waited. *)
Inductive closer :=
  | CStart
  | CLocked       (* holds the lock *)
  | CMarked       (* has set [closed] *)
  | CWaiting      (* in [wg.Wait] *)
  | CClosing (waited : bool)   (* closes the connections *)
  | CDone (waited : bool).

Record admissionQueue := {
  aq_readers : nat;     (* the read locks of [mu] *)
  aq_writer : bool;     (* is [mu] locked? *)
  aq_wg : nat;
  aq_closed : bool;
}.

Definition newAdmissionQueue : admissionQueue :=
  {| aq_readers := 0; aq_writer := false; aq_wg := 0; aq_closed := false |}.

(** ** The statements *)
Definition TryAdmit_step (r : request) (q : admissionQueue) : option (request * admissionQueue) :=
  match r with
  | RStart =>
      if aq_writer q then None
      else Some (RLocked, {| aq_readers := S (aq_readers q); aq_writer := false; aq_wg := aq_wg q; aq_closed := aq_closed q |})
  | RLocked =>
      if aq_closed q then
        Some (RRefused, {| aq_readers := pred (aq_readers q); aq_writer := aq_writer q; aq_wg := aq_wg q; aq_closed := true |})
      else Some (ROpen, q)
  | ROpen => Some (RAdded, {| aq_readers := aq_readers q; aq_writer := aq_writer q; aq_wg := S (aq_wg q); aq_closed := aq_closed q |})
  | RAdded => Some (RUsing, {| aq_readers := pred (aq_readers q); aq_writer := aq_writer q; aq_wg := aq_wg q; aq_closed := aq_closed q |})
  | RUsing => Some (RDone, {| aq_readers := aq_readers q; aq_writer := aq_writer q; aq_wg := pred (aq_wg q); aq_closed := aq_closed q |})
  | RDone | RRefused => None
  end.

Definition CloseAndDrain_step (c : closer) (q : admissionQueue) : option (closer * admissionQueue) :=
  match c with
  | CStart =>
      if aq_writer q then None
      else if decide (aq_readers q = 0) then
        Some (CLocked, {| aq_readers := aq_readers q; aq_writer := true; aq_wg := aq_wg q; aq_closed := aq_closed q |})
      else None
  | CLocked =>
      if aq_closed q then
        Some (CClosing false, {| aq_readers := aq_readers q; aq_writer := false; aq_wg := aq_wg q; aq_closed := true |})
      else Some (CMarked, {| aq_readers := aq_readers q; aq_writer := aq_writer q; aq_wg := aq_wg q; aq_closed := true |})
  | CMarked => Some (CWaiting, {| aq_readers := aq_readers q; aq_writer := false; aq_wg := aq_wg q; aq_closed := aq_closed q |})
  | CWaiting => if decide (aq_wg q = 0) then Some (CClosing true, q) else None
  | CClosing waited => Some (CDone waited, q)
  | CDone _ => None
  end.

(** ** The system *)
Record session_state := {
  ss_queue : admissionQueue;
  ss_requests : list request;
  ss_closers : list closer;
}.

Inductive session_step : session_state -> session_state -> Prop :=
  | step_request i r r' q q' rs cs :
      rs !! i = Some r -> TryAdmit_step r q = Some (r', q') ->
      session_step {| ss_queue := q; ss_requests := rs; ss_closers := cs |}
        {| ss_queue := q'; ss_requests := <[i := r']> rs; ss_closers := cs |}
  | step_closer i c c' q q' rs cs :
      cs !! i = Some c -> CloseAndDrain_step c q = Some (c', q') ->
      session_step {| ss_queue := q; ss_requests := rs; ss_closers := cs |}
        {| ss_queue := q'; ss_requests := rs; ss_closers := <[i := c']> cs |}.

Definition session_start (requests closers : nat) : session_state :=
  {| ss_queue := newAdmissionQueue; ss_requests := replicate requests RStart; ss_closers := replicate closers CStart |}.

(** ** The invariant *)
Definition reading (r : request) : bool := match r with RLocked | ROpen | RAdded => true | _ => false end.
Definition counted (r : request) : bool := match r with RAdded | RUsing => true | _ => false end.
Definition entering (r : request) : bool := match r with ROpen | RAdded => true | _ => false end.
Definition writing (c : closer) : bool := match c with CLocked | CMarked => true | _ => false end.
Definition first (c : closer) : bool := match c with CMarked | CWaiting | CClosing true | CDone true => true | _ => false end.
Definition returned (c : closer) : bool := match c with CDone _ => true | _ => false end.
Definition drained (c : closer) : bool := match c with CClosing true | CDone true => true | _ => false end.

Record queue_inv (st : session_state) : Prop := {
  qi_readers : aq_readers (ss_queue st) = count reading (ss_requests st);
  qi_wg : aq_wg (ss_queue st) = count counted (ss_requests st);
  qi_writer : count writing (ss_closers st) = if aq_writer (ss_queue st) then 1 else 0;
  qi_excluded : aq_writer (ss_queue st) = true -> aq_readers (ss_queue st) = 0;
  qi_first : count first (ss_closers st) = if aq_closed (ss_queue st) then 1 else 0;
  qi_entering : aq_closed (ss_queue st) = true -> count entering (ss_requests st) = 0;
  qi_drained : 0 < count drained (ss_closers st) -> aq_wg (ss_queue st) = 0;
  qi_unmarked : aq_closed (ss_queue st) = false -> forall c, c ∈ ss_closers st -> c = CStart \/ c = CLocked;
}.

Lemma count_replicate {A} (f : A -> bool) n x : f x = false -> count f (replicate n x) = 0.
Proof. intros Hf. apply count_zero. by intros y [-> _]%elem_of_replicate. Qed.

Lemma start_inv requests closers : queue_inv (session_start requests closers).
Proof.
  split; cbn [session_start ss_queue ss_requests ss_closers newAdmissionQueue aq_readers aq_wg aq_writer aq_closed];
    rewrite ?count_replicate by done; try done.
  intros _ c [-> _]%elem_of_replicate. by left.
Qed.

(** With the flags known, what is left is arithmetic. *)
Ltac counting :=
  repeat match goal with
  | H : true = true -> _ |- _ => specialize (H eq_refl)
  | H : false = false -> _ |- _ => specialize (H eq_refl)
  | H : true = false -> _ |- _ => clear H
  | H : false = true -> _ |- _ => clear H
  end; split; cbn; intros; try done; try lia; eauto.

Lemma request_inv i r r' q q' rs cs :
  queue_inv {| ss_queue := q; ss_requests := rs; ss_closers := cs |} ->
  rs !! i = Some r -> TryAdmit_step r q = Some (r', q') ->
  queue_inv {| ss_queue := q'; ss_requests := <[i := r']> rs; ss_closers := cs |}.
Proof.
  intros [H1 H2 H3 H4 H5 H6 H7 H8] Hi Hs.
  pose proof (count_insert reading rs i r r' Hi) as C1. pose proof (count_insert counted rs i r r' Hi) as C2.
  pose proof (count_insert entering rs i r r' Hi) as C3.
  assert (entering r = true -> 0 < count entering rs) as P3 by (apply count_pos; by eapply list_elem_of_lookup_2).
  pose proof (count_le drained first cs) as D. specialize (D ltac:(by intros [| | | |[]|[]])).
  destruct q as [rd wr wg cl]. cbn in *. destruct wr, cl, r; cbn in Hs; simplify_eq; cbn in *; counting.
Qed.

Lemma closer_inv i c c' q q' rs cs :
  queue_inv {| ss_queue := q; ss_requests := rs; ss_closers := cs |} ->
  cs !! i = Some c -> CloseAndDrain_step c q = Some (c', q') ->
  queue_inv {| ss_queue := q'; ss_requests := rs; ss_closers := <[i := c']> cs |}.
Proof.
  intros [H1 H2 H3 H4 H5 H6 H7 H8] Hi Hs.
  pose proof (count_insert writing cs i c c' Hi) as C1. pose proof (count_insert first cs i c c' Hi) as C2.
  pose proof (count_insert drained cs i c c' Hi) as C3.
  assert (writing c = true -> 0 < count writing cs) as P1 by (apply count_pos; by eapply list_elem_of_lookup_2).
  assert (first c = true -> 0 < count first cs) as P2 by (apply count_pos; by eapply list_elem_of_lookup_2).
  pose proof (count_le entering reading rs) as D. specialize (D ltac:(by intros [])).
  assert (c ∈ cs) as Hc by (by eapply list_elem_of_lookup_2).
  assert (forall x, x ∈ <[i := c']> cs -> x = c' \/ x ∈ cs) as Hm by (intros x; apply elem_of_insert_inv).
  destruct q as [rd wr wg cl]. cbn in *. destruct wr, cl, c as [| | | |[]|[]]; cbn in Hs; simplify_eq; cbn in *;
    try (case_decide; simplify_eq); cbn in *; counting.
  all: naive_solver.
Qed.

Lemma step_inv st st' : queue_inv st -> session_step st st' -> queue_inv st'.
Proof. intros Hi Hs. destruct Hs; [by eapply request_inv|by eapply closer_inv]. Qed.

Lemma reachable_inv requests closers st :
  rtc session_step (session_start requests closers) st -> queue_inv st.
Proof.
  intros Hr. pose proof (start_inv requests closers) as Hi. revert Hi.
  induction Hr as [|st1 st2 st3 Hs _ IH]; [done|]. intros Hi. apply IH. by eapply step_inv.
Qed.

Lemma drained_mono st st' :
  rtc session_step st st' -> 0 < count drained (ss_closers st) -> 0 < count drained (ss_closers st').
Proof.
  induction 1 as [|st1 st2 st3 Hs _ IH]; [done|]. intros Hd. apply IH. destruct Hs as [|i c c' q q' rs cs Hc Hs]; [done|].
  cbn in *. pose proof (count_insert drained cs i c c' Hc) as E.
  assert (drained c = true -> drained c' = true) as Hk.
  { destruct c as [| | | |[]|[]]; cbn in Hs; try done; by simplify_eq. }
  destruct (drained c); [rewrite Hk in E by done|]; destruct (drained c'); lia.
Qed.

Lemma drained_idle st : queue_inv st -> 0 < count drained (ss_closers st) -> RUsing ∉ ss_requests st.
Proof.
  intros Hi Hd Hin. pose proof (qi_drained _ Hi Hd) as Hw. rewrite (qi_wg _ Hi) in Hw.
  pose proof (count_pos counted _ _ Hin eq_refl). lia.
Qed.

(** C13. Requests are out before the connections are closed.  In every interleaving of any
    number of requests and calls of [Close]: when a call that has waited for the queue to
    drain closes the connections, no request is using one, then or ever after; and a
    call that has not waited is not the first, another one has closed the queue. *)
Theorem close_waits_for_requests requests closers st i waited :
  rtc session_step (session_start requests closers) st -> ss_closers st !! i = Some (CClosing waited) ->
  if waited then forall st', rtc session_step st st' -> RUsing ∉ ss_requests st'
  else exists j c, j <> i /\ ss_closers st !! j = Some c /\ first c = true.
Proof.
  intros Hr Hc. pose proof (list_elem_of_lookup_2 _ _ _ Hc) as Hin. destruct waited.
  - intros st' Hr'. apply drained_idle; [by eapply reachable_inv; etrans|].
    eapply drained_mono; [done|]. by eapply count_pos.
  - pose proof (reachable_inv _ _ _ Hr) as Hi. destruct (aq_closed (ss_queue st)) eqn:Ec.
    + pose proof (qi_first _ Hi) as Hf. rewrite Ec in Hf. destruct (list_find (fun c => first c = true) (ss_closers st)) as [[j c]|] eqn:El.
      * apply list_find_Some in El as (Hj & Hfc & _). exists j, c. split; [|done]. intros ->. by simplify_eq.
      * apply list_find_None in El. assert (count first (ss_closers st) = 0); [|lia]. apply count_zero. intros x Hx.
        rewrite Forall_forall in El. specialize (El x Hx). by destruct (first x).
    + by destruct (qi_unmarked _ Hi Ec _ Hin).
Qed.

(** A session can always finish closing: in every reachable state some goroutine can
    take a step, unless every request is done or was refused and every call of [Close]
    has returned. *)
Theorem close_never_stuck requests closers st :
  rtc session_step (session_start requests closers) st ->
  (exists st', session_step st st') \/
  Forall (fun r => r = RDone \/ r = RRefused) (ss_requests st) /\ Forall (fun c => exists w, c = CDone w) (ss_closers st).
Proof.
  intros Hr. pose proof (reachable_inv _ _ _ Hr) as Hi. destruct st as [q rs cs].
  destruct (list_find (fun r => counted r || reading r = true) rs) as [[j r]|] eqn:E1.
  { apply list_find_Some in E1 as (Hj & Hf & _). left. destruct (TryAdmit_step r q) as [[r' q']|] eqn:Es; [eauto using session_step|].
    destruct r; cbn in Es, Hf; try done; by destruct (aq_closed q). }
  assert (forall r, r ∈ rs -> counted r = false /\ reading r = false) as Hq.
  { apply list_find_None in E1. rewrite Forall_forall in E1. intros r Hin. specialize (E1 r Hin). by destruct r. }
  assert (aq_readers q = 0) as Hrd by (etrans; [apply (qi_readers _ Hi)|]; apply count_zero; naive_solver).
  assert (aq_wg q = 0) as Hwg by (etrans; [apply (qi_wg _ Hi)|]; apply count_zero; naive_solver).
  destruct (aq_writer q) eqn:Ew.
  { pose proof (qi_writer _ Hi) as Hw. cbn in Hw. rewrite Ew in Hw.
    destruct (list_find (fun c => writing c = true) cs) as [[j c]|] eqn:E2.
    - apply list_find_Some in E2 as (Hj & Hf & _). left. destruct (CloseAndDrain_step c q) as [[c' q']|] eqn:Es; [eauto using session_step|].
      destruct c; cbn in Es, Hf; try done; by destruct (aq_closed q).
    - apply list_find_None in E2. assert (count writing cs = 0); [|lia]. apply count_zero. intros x Hx.
      rewrite Forall_forall in E2. specialize (E2 x Hx). by destruct (writing x). }
  destruct (list_find (fun r => r = RStart) rs) as [[j r]|] eqn:E3.
  { apply list_find_Some in E3 as (Hj & -> & _). left. eexists. eapply step_request; [done|]. cbn. by rewrite Ew. }
  destruct (list_find (fun c => returned c = false) cs) as [[j c]|] eqn:E4.
  { apply list_find_Some in E4 as (Hj & Hf & _). left. destruct (CloseAndDrain_step c q) as [[c' q']|] eqn:Es; [eauto using session_step|].
    destruct c; cbn in Es, Hf; try done; rewrite ?Ew in Es; try (by destruct (aq_closed q)); by rewrite decide_True in Es. }
  right. apply list_find_None in E3, E4. split.
  - apply Forall_forall. intros r Hin. rewrite Forall_forall in E3. specialize (E3 r Hin). destruct (Hq r Hin). destruct r; auto; done.
  - eapply Forall_impl; [exact E4|]. intros c Hc. destruct c as [| | | | |w]; try (by destruct Hc). by exists w.
Qed.

(** ** Runs *)
Definition session_do (ev : nat + nat) (st : session_state) : option session_state :=
  match ev with
  | inl i =>
      match ss_requests st !! i with
      | Some r =>
          match TryAdmit_step r (ss_queue st) with
          | Some (r', q') => Some {| ss_queue := q'; ss_requests := <[i := r']> (ss_requests st); ss_closers := ss_closers st |}
          | None => None
          end
      | None => None
      end
  | inr i =>
      match ss_closers st !! i with
      | Some c =>
          match CloseAndDrain_step c (ss_queue st) with
          | Some (c', q') => Some {| ss_queue := q'; ss_requests := ss_requests st; ss_closers := <[i := c']> (ss_closers st) |}
          | None => None
          end
      | None => None
      end
  end.

Fixpoint session_run (evs : list (nat + nat)) (st : session_state) : option session_state :=
  match evs with
  | [] => Some st
  | ev :: evs => match session_do ev st with Some st => session_run evs st | None => None end
  end.

Lemma session_run_sound evs st st' : session_run evs st = Some st' -> rtc session_step st st'.
Proof.
  revert st. induction evs as [|ev evs IH]; intros st; cbn; [intros [= ->]; reflexivity|].
  destruct (session_do ev st) as [st1|] eqn:E; [|done]. intros Hr. eapply rtc_l; [|by apply IH]. clear Hr IH.
  destruct st as [q rs cs], ev as [i|i]; cbn in E.
  - destruct (rs !! i) eqn:Ei; [|done]. destruct (TryAdmit_step _ _) as [[r' q']|] eqn:Es; [|done]. simplify_eq. by eapply step_request.
  - destruct (cs !! i) eqn:Ei; [|done]. destruct (CloseAndDrain_step _ _) as [[c' q']|] eqn:Es; [|done]. simplify_eq. by eapply step_closer.
Qed.

(** A request is admitted, a call of [Close] waits for it. *)
Definition admitted_then_closed : list (nat + nat) := replicate 4 (inl 0) ++ replicate 3 (inr 0).

Lemma close_waits_for_requests_witness : exists st,
  session_run (admitted_then_closed ++ [inl 0; inr 0]) (session_start 1 1) = Some st /\
  forall st', rtc session_step st st' -> RUsing ∉ ss_requests st'.
Proof.
  eexists. split; [vm_compute; reflexivity|].
  refine (close_waits_for_requests 1 1 _ 0 true (session_run_sound (admitted_then_closed ++ [inl 0; inr 0]) _ _ _) _);
    vm_compute; reflexivity.
Defined.

Lemma close_never_stuck_witness : exists st,
  session_run admitted_then_closed (session_start 1 1) = Some st /\ exists st', session_step st st'.
Proof.
  destruct (session_run admitted_then_closed (session_start 1 1)) as [st|] eqn:E; [|vm_compute in E; discriminate].
  exists st. split; [reflexivity|].
  destruct (close_never_stuck 1 1 st (session_run_sound admitted_then_closed _ _ E)) as [H|[H _]]; [exact H|].
  exfalso. vm_compute in E. injection E as <-. inversion H as [|x l [E|E] _]; discriminate.
Defined.

(** A second call of [Close] does not wait: while the first waits for an admitted
    request, the second finds the queue closed, returns from [CloseAndDrain] at once and
    closes the connections the request is using. *)
Theorem second_close_does_not_wait : exists st,
  rtc session_step (session_start 1 2) st /\
  ss_requests st = [RUsing] /\ ss_closers st = [CWaiting; CClosing false].
Proof.
  eexists. split; [apply (session_run_sound (admitted_then_closed ++ [inr 1; inr 1])); vm_compute; reflexivity|].
  done.
Qed.
