(* ===== verification/SessionFactory.v ===== *)
(** * The session factory and the sessions it makes
    ([pkg/vmcp/session/factory.go], [default_session.go], [decorating_factory.go])

    A session holds a connection to each backend that could be initialised, and routes a
    capability to the first of them, by workload, that offers it.  Backends are
    initialised in parallel, at most [maxConcurrency] at a time, each into a slot of its
    own, so the results do not depend on the interleaving.  The connector is code outside
    this component: [f_connector] is what it returns for a backend, and a connection is a
    handle with the session identifier the backend gave.  Timeouts and the messages of
    logs, which the revision of a backend decides too, are left out. *)

From Stdlib Require Import Ascii.
From S2P Require Import Prelude Programs GoStrings VmcpTypes ParamHeaders Core SessionBinding SessionData SessionManager.

Record connection := { cn_handle : nat; cn_SessionID : string }.

(** What the connector returns: a connection, capabilities, and whether there is an error. *)
Record connect_result := {
  cr_conn : option connection;
  cr_caps : option CapabilityList;
  cr_err : bool;
}.

Definition defaultMaxBackendInitConcurrency : Z := 10.
Definition defaultBackendInitTimeout : Duration := (30 * time.Second)%Z.

(** [f_modern]: the backends known to be Modern, [None] without a lookup. *)
Record defaultMultiSessionFactory := {
  f_connector : BackendTarget -> option Identity -> string -> connect_result;
  f_maxConcurrency : Z;
  f_backendInitTimeout : Duration;
  f_modern : option (string -> bool);
}.

Inductive MultiSessionFactoryOption :=
  | WithMaxBackendInitConcurrency (n : Z)
  | WithBackendInitTimeout (d : Duration)
  | WithRevisionLookup (lookup : string -> bool).

Definition apply_option (f : defaultMultiSessionFactory) (o : MultiSessionFactoryOption) : defaultMultiSessionFactory :=
  match o with
  | WithMaxBackendInitConcurrency n =>
      {| f_connector := f_connector f; f_maxConcurrency := if (0 <? n)%Z then n else f_maxConcurrency f;
         f_backendInitTimeout := f_backendInitTimeout f; f_modern := f_modern f |}
  | WithBackendInitTimeout d =>
      {| f_connector := f_connector f; f_maxConcurrency := f_maxConcurrency f;
         f_backendInitTimeout := if (0 <? d)%Z then d else f_backendInitTimeout f; f_modern := f_modern f |}
  | WithRevisionLookup lookup =>
      {| f_connector := f_connector f; f_maxConcurrency := f_maxConcurrency f;
         f_backendInitTimeout := f_backendInitTimeout f; f_modern := Some lookup |}
  end.

Definition newSessionFactoryWithConnector (connector : BackendTarget -> option Identity -> string -> connect_result)
    (opts : list MultiSessionFactoryOption) : defaultMultiSessionFactory :=
  foldl apply_option
    {| f_connector := connector; f_maxConcurrency := defaultMaxBackendInitConcurrency;
       f_backendInitTimeout := defaultBackendInitTimeout; f_modern := None |} opts.

Implicit Types (f : defaultMultiSessionFactory) (b : Backend).

(** ** Backends *)
Record initResult := {
  ir_target : BackendTarget;
  ir_conn : connection;
  ir_caps : CapabilityList;
}.

Definition isKnownModern f (workloadID : string) : bool :=
  match f_modern f with None => false | Some lookup => lookup workloadID end.

(** The result, and the connections that were closed again. *)
Definition initOneBackend f (identity : option Identity) (sessionHint : string) b
    : option initResult * list connection :=
  let target := BackendToTarget b in
  if isKnownModern f (bt_WorkloadID target) then (None, [])
  else
    let r := f_connector f target identity sessionHint in
    if cr_err r then (None, option_list (cr_conn r))
    else match cr_conn r, cr_caps r with
         | Some conn, Some caps => (Some {| ir_target := target; ir_conn := conn; ir_caps := caps |}, [])
         | conn, _ => (None, option_list conn)
         end.

(** ** Routing *)

(** The loop over the capabilities of a backend: a name that is taken stays. *)
Definition add_first {A} (key : A -> string) (target : BackendTarget) (acc : gmap string BackendTarget * list A) (cap : A)
    : gmap string BackendTarget * list A :=
  match acc.1 !! key cap with
  | Some _ => acc
  | None => (<[key cap := target]> acc.1, acc.2 ++ [cap])
  end.

Definition add_backend {A} (key : A -> string) (caps : CapabilityList -> list A)
    (acc : gmap string BackendTarget * list A) (r : initResult) : gmap string BackendTarget * list A :=
  foldl (add_first key (ir_target r)) acc (caps (ir_caps r)).

Definition add_all {A} (key : A -> string) (caps : CapabilityList -> list A) (results : list initResult)
    : gmap string BackendTarget * list A :=
  foldl (add_backend key caps) (∅, []) results.

Definition buildRoutingTable (results : list initResult) : RoutingTable * list Tool * list Resource * list Prompt :=
  let (rtTools, tools) := add_all tool_Name cl_Tools results in
  let (rtResources, resources) := add_all res_URI cl_Resources results in
  let (rtPrompts, prompts) := add_all prompt_Name cl_Prompts results in
  ({| route_Tools := rtTools; route_Resources := rtResources; route_ResourceTemplates := ∅; route_Prompts := rtPrompts |},
   tools, resources, prompts).

(** ** Sessions *)
Record defaultMultiSession := {
  dms_ID : string;
  dms_metadata : metadata;
  dms_connections : gmap string connection;
  dms_routingTable : RoutingTable;
  dms_tools : list Tool;
  dms_allTools : list Tool;
  dms_resources : list Resource;
  dms_prompts : list Prompt;
  dms_backendSessions : gmap string string;
}.

Definition set_metadata (key value : string) (s : defaultMultiSession) : defaultMultiSession :=
  {| dms_ID := dms_ID s; dms_metadata := <[key := value]> (dms_metadata s); dms_connections := dms_connections s;
     dms_routingTable := dms_routingTable s; dms_tools := dms_tools s; dms_allTools := dms_allTools s;
     dms_resources := dms_resources s; dms_prompts := dms_prompts s; dms_backendSessions := dms_backendSessions s |}.

Definition backend_metadata (m : metadata) (r : initResult) : metadata :=
  if decide (cn_SessionID (ir_conn r) = "") then m
  else <[MetadataKeyBackendSessionPrefix +:+ bt_WorkloadID (ir_target r) := cn_SessionID (ir_conn r)]> m.

Definition populateBackendMetadata (results : list initResult) (m : metadata) : metadata :=
  <[MetadataKeyBackendIDs := Join comma ((fun r => bt_WorkloadID (ir_target r)) <$> results)]>
    (foldl backend_metadata m results).

(** The loop that skips nil entries. *)
Definition non_nil (backends : list (option Backend)) : list Backend := omap (fun x => x) backends.

(** The backends in their slots: the results and what was closed. *)
Definition init_backends f (identity : option Identity) (sessionHints : gmap string string) (backends : list (option Backend))
    : list (option initResult * list connection) :=
  (fun b => initOneBackend f identity (default "" (sessionHints !! b_ID b)) b) <$> non_nil backends.

Definition makeBaseSession f (sessID : string) (identity : option Identity) (backends : list (option Backend))
    (sessionHints : gmap string string) : defaultMultiSession * list connection :=
  let rawResults := init_backends f identity sessionHints backends in
  let inits := omap fst rawResults in
  let workload r := bt_WorkloadID (ir_target r) in
  let results := merge_sort (fun x y => String.le (workload x) (workload y)) inits in
  let '(routingTable, advertisedTools, allResources, allPrompts) := buildRoutingTable results in
  ({| dms_ID := sessID;
      dms_metadata := populateBackendMetadata results ∅;
      dms_connections := foldl (fun m r => <[workload r := ir_conn r]> m) ∅ inits;
      dms_routingTable := routingTable; dms_tools := advertisedTools; dms_allTools := advertisedTools;
      dms_resources := allResources; dms_prompts := allPrompts;
      dms_backendSessions := foldl (fun m r => <[workload r := cn_SessionID (ir_conn r)]> m) ∅ inits |},
   concat rawResults.*2).

(** [Close], after the queue has drained. *)
Definition close_connections (s : defaultMultiSession) : list connection := (map_to_list (dms_connections s)).*2.

(** ** Calls *)
Inductive session_error :=
  | ErrSessionClosed
  | ErrCapabilityNotFound (name : string)     (* [ErrToolNotFound] and the like *)
  | ErrNoBackendClient (workloadID : string)
  | BackendRequestFailure (workloadID : string) (cause : error).

(** [admitted]: the queue is open. *)
Definition lookupBackend (admitted : bool) (capName : string) (table : gmap string BackendTarget) (s : defaultMultiSession)
    : session_error + connection * BackendTarget :=
  if negb admitted then inl ErrSessionClosed
  else match table !! capName with
       | None => inl (ErrCapabilityNotFound capName)
       | Some target =>
           match dms_connections s !! bt_WorkloadID target with
           | None => inl (ErrNoBackendClient (bt_WorkloadID target))
           | Some conn => inr (conn, target)
           end
       end.

(** A request over the connection found; [request] is that of the backend's session. *)
Definition through {A} (admitted : bool) (capName : string) (table : gmap string BackendTarget)
    (request : connection -> string -> error + A) (s : defaultMultiSession) : session_error + A :=
  match lookupBackend admitted capName table s with
  | inl err => inl err
  | inr (conn, target) =>
      match request conn (GetBackendCapabilityName target capName) with
      | inl err => inl (BackendRequestFailure (bt_WorkloadID target) err)
      | inr a => inr a
      end
  end.

Definition session_CallTool (admitted : bool) (toolName : string) (call : connection -> string -> error + ToolCallResult)
    (s : defaultMultiSession) : session_error + ToolCallResult :=
  through admitted toolName (route_Tools (dms_routingTable s)) call s.

Definition session_ReadResource (admitted : bool) (uri : string) (read : connection -> string -> error + ResourceReadResult)
    (s : defaultMultiSession) : session_error + ResourceReadResult :=
  through admitted uri (route_Resources (dms_routingTable s)) read s.

Definition session_GetPrompt (admitted : bool) (name : string) (get : connection -> string -> error + PromptGetResult)
    (s : defaultMultiSession) : session_error + PromptGetResult :=
  through admitted name (route_Prompts (dms_routingTable s)) get s.

(** ** The factory *)
Inductive factory_error :=
  | EmptySessionID
  | InvalidSessionID (index : nat)
  | BindFailed (cause : extract_error)
  | BackendIDsAbsent
  | ErrSessionNotFound
  | BindingAbsent
  | BindingMalformed (binding : string).

Definition visible (c : ascii) : bool := let n := nat_of_ascii c in (33 <=? n) && (n <=? 126).

Fixpoint invisible_at (i : nat) (id : string) : option nat :=
  match id with
  | EmptyString => None
  | String c id => if visible c then invisible_at (S i) id else Some i
  end.

Definition validateSessionID (id : string) : option factory_error :=
  if decide (id = "") then Some EmptySessionID else InvalidSessionID <$> invisible_at 0 id.

(** A session with its binding; with the connections closed on the way. *)
Definition makeSession f (sessID : string) (identity : option Identity) (backends : list (option Backend))
    : (factory_error + defaultMultiSession * sessionBindingDecorator) * list connection :=
  let (base, closed) := makeBaseSession f sessID identity backends ∅ in
  match BindSession (dms_metadata base) identity with
  | inl err => (inl (BindFailed err), closed ++ close_connections base)
  | inr (m, d) => (inr (set_metadata MetadataKeyIdentityBinding (sbd_boundIdentity d) base, d), closed)
  end.

Definition MakeSessionWithID f (id : string) (identity : option Identity) (backends : list (option Backend))
    : (factory_error + defaultMultiSession * sessionBindingDecorator) * list connection :=
  match validateSessionID id with Some err => (inl err, []) | None => makeSession f id identity backends end.

Definition filterBackendsByStoredIDs (allBackends : list (option Backend)) (storedIDs : string) : list Backend :=
  if decide (storedIDs = "") then []
  else
    let ids := filter (fun t => t <> "") (TrimSpace <$> Split comma storedIDs) in
    filter (fun b => b_ID b ∈ ids) (non_nil allBackends).

Definition MetadataKeyTokenHash : string := "vmcp.token.hash".

Definition session_hints (storedMetadata : metadata) (backends : list Backend) : gmap string string :=
  foldl (fun m b => let hint := value (MetadataKeyBackendSessionPrefix +:+ b_ID b) storedMetadata in
                    if decide (hint = "") then m else <[b_ID b := hint]> m) ∅ backends.

Definition RestoreSession f (id : string) (storedMetadata : metadata) (allBackends : list (option Backend))
    : (factory_error + defaultMultiSession * sessionBindingDecorator) * list connection :=
  match validateSessionID id with
  | Some err => (inl err, [])
  | None =>
      match storedMetadata !! MetadataKeyBackendIDs with
      | None => (inl BackendIDsAbsent, [])
      | Some storedBackendIDs =>
          let filteredBackends := filterBackendsByStoredIDs allBackends storedBackendIDs in
          match storedMetadata !! MetadataKeyIdentityBinding with
          | None =>
              match storedMetadata !! MetadataKeyTokenHash with
              | Some _ => (inl ErrSessionNotFound, [])
              | None => (inl BindingAbsent, [])
              end
          | Some storedBinding =>
              if negb (IsUnauthenticated storedBinding) && bool_decide (Parse storedBinding = None)
              then (inl (BindingMalformed storedBinding), [])
              else
                let (base, closed) := makeBaseSession f id None (Some <$> filteredBackends)
                  (session_hints storedMetadata filteredBackends) in
                let base := set_metadata MetadataKeyIdentityBinding storedBinding base in
                match RestoreSessionBinding storedBinding with
                | None => (inl (BindingMalformed storedBinding), closed ++ close_connections base)
                | Some d => (inr (base, d), closed)
                end
          end
      end
  end.

(** ** Maps built by a loop *)
Section build.
Context {A B : Type} (k : A -> string) (v : A -> B).

Lemma insert_loop_list l m0 :
  NoDup (k <$> l) -> (forall a, a ∈ l -> m0 !! k a = None) ->
  map_to_list (foldl (fun (m : gmap string B) a => <[k a := v a]> m) m0 l) ≡ₚ map_to_list m0 ++ ((fun a => (k a, v a)) <$> l).
Proof.
  revert m0. induction l as [|a l IH]; intros m0 Hnd Hm; cbn; [by rewrite app_nil_r|].
  apply NoDup_cons in Hnd as [Ha Hnd]. rewrite IH; [|done|].
  - rewrite map_to_list_insert by (apply Hm; left). cbn. by rewrite Permutation_middle.
  - intros a' Ha'. rewrite lookup_insert_ne; [apply Hm; by right|]. intros E. apply Ha. rewrite E. by apply list_elem_of_fmap_2.
Qed.

Lemma insert_loop l : NoDup (k <$> l) -> forall i y,
  foldl (fun (m : gmap string B) a => <[k a := v a]> m) ∅ l !! i = Some y <-> exists a, a ∈ l /\ k a = i /\ v a = y.
Proof.
  intros Hnd i y. rewrite <- elem_of_map_to_list, insert_loop_list; [|done|by intros; apply lookup_empty].
  rewrite map_to_list_empty. cbn [app]. rewrite list_elem_of_fmap. naive_solver.
Qed.
End build.

(** ** Who is routed *)
Section routed.
Context {A : Type} (key : A -> string) (caps : CapabilityList -> list A).
Implicit Types (r : initResult) (acc : gmap string BackendTarget * list A).

Definition offers (name : string) r : Prop := name ∈ key <$> caps (ir_caps r).

#[export] Instance offers_dec name r : Decision (offers name r).
Proof. unfold offers. apply _. Defined.

(** The names and the entries go together. *)
Definition matched acc : Prop :=
  NoDup (key <$> acc.2) /\ forall name, name ∈ key <$> acc.2 <-> is_Some (acc.1 !! name).

Lemma add_first_loop target l acc :
  matched acc ->
  let acc' := foldl (add_first key target) acc l in
  matched acc' /\
  (forall name, acc'.1 !! name = match acc.1 !! name with
                                 | Some t => Some t
                                 | None => if decide (name ∈ key <$> l) then Some target else None
                                 end) /\
  (forall a, a ∈ acc'.2 -> a ∈ acc.2 \/ (a ∈ l /\ acc.1 !! key a = None)).
Proof.
  revert acc. induction l as [|a l IH]; intros [m out] Hm; cbn -[decide].
  { split; [done|]. split; [|by left]. intros name. destruct (m !! name); [done|]. rewrite decide_False by apply not_elem_of_nil. done. }
  unfold add_first at 2 4 6. cbn -[decide]. destruct (m !! key a) as [t|] eqn:E.
  - destruct (IH (m, out) Hm) as (H1 & H2 & H3). split; [done|].
    split; [|intros x [?|[? ?]]%H3; [by left|right; split; [by right|done]]].
    intros name. rewrite H2. cbn -[decide]. destruct (m !! name) eqn:En; [done|].
    destruct (decide (name ∈ key <$> l)) as [Hin|Hin].
    + by rewrite decide_True by (by right).
    + rewrite decide_False; [done|]. intros [->|?]%elem_of_cons; [congruence|done].
  - destruct Hm as [Hnd Hdom]. cbn in Hnd, Hdom.
    assert (key a ∉ key <$> out) as Hnew by (rewrite Hdom, E; by intros [? ?]).
    destruct (IH (<[key a := target]> m, out ++ [a])) as (H1 & H2 & H3).
    { split; cbn; rewrite fmap_app.
      - apply NoDup_app. split; [done|]. split; [|apply NoDup_singleton]. by intros x Hx ->%list_elem_of_singleton.
      - intros name. rewrite elem_of_app, Hdom. cbn. rewrite list_elem_of_singleton.
        destruct (decide (name = key a)) as [->|Hne]; [rewrite lookup_insert_eq; naive_solver|].
        rewrite lookup_insert_ne by done. naive_solver. }
    split; [done|]. cbn -[decide] in *. split.
    + intros name. rewrite H2. destruct (decide (name = key a)) as [->|Hne].
      * rewrite lookup_insert_eq, E, decide_True by left. done.
      * rewrite lookup_insert_ne by done. destruct (m !! name); [done|].
        destruct (decide (name ∈ key <$> l)) as [Hin|Hin]; [by rewrite decide_True by (by right)|].
        rewrite decide_False; [done|]. by intros [->|?]%elem_of_cons.
    + intros x [Hx|[Hx Hn]]%H3.
      * apply elem_of_app in Hx as [?|Hx%list_elem_of_singleton]; [by left|]. subst x. right. split; [left|done].
      * right. split; [by right|]. destruct (decide (key x = key a)) as [Ek|Ek]; [by rewrite Ek, lookup_insert_eq in Hn|].
        by rewrite lookup_insert_ne in Hn.
Qed.

(** The first of the results that offers a name. *)
Definition first_offer (name : string) (results : list initResult) : option initResult :=
  snd <$> list_find (fun r => offers name r) results.

Lemma first_offer_snoc name results r :
  first_offer name (results ++ [r]) =
  match first_offer name results with Some r' => Some r' | None => if decide (offers name r) then Some r else None end.
Proof.
  unfold first_offer. destruct (list_find _ results) as [[i r']|] eqn:E.
  - by rewrite (list_find_app_l _ _ _ _ _ E).
  - rewrite list_find_app_r by done. cbn. by case_decide.
Qed.

Lemma add_all_spec results :
  let acc := add_all key caps results in
  matched acc /\ (forall name, acc.1 !! name = ir_target <$> first_offer name results) /\
  (forall a, a ∈ acc.2 -> exists r, r ∈ results /\ a ∈ caps (ir_caps r) /\ acc.1 !! key a = Some (ir_target r)).
Proof.
  induction results as [|r results IH] using rev_ind; cbn zeta.
  { split; [split; [constructor|]|split; [done|by intros a ?%not_elem_of_nil]]. intros name. cbn. rewrite lookup_empty.
    split; [by intros ?%not_elem_of_nil|by intros []]. }
  unfold add_all. rewrite foldl_app. cbn [foldl]. fold (add_all key caps results).
  destruct IH as (Hm & Hl & Hs). destruct (add_first_loop (ir_target r) (caps (ir_caps r)) _ Hm) as (H1 & H2 & H3).
  split; [done|]. split.
  - intros name. unfold add_backend. rewrite H2, Hl, first_offer_snoc. unfold offers.
    destruct (first_offer name results); [done|]. cbn. by repeat case_decide.
  - intros a Ha. unfold add_backend in *. destruct (H3 a Ha) as [Ho|[Ho Hn]].
    + destruct (Hs a Ho) as (r' & Hr' & Hc & Hk). exists r'. split; [apply elem_of_app; by left|]. split; [done|].
      by rewrite H2, Hk.
    + exists r. split; [apply elem_of_app; right; left|]. split; [done|]. rewrite H2, Hn, decide_True; [done|].
      by apply list_elem_of_fmap_2.
Qed.
End routed.

(** ** The session that is made *)
Section made.
Context f (identity : option Identity) (hints : gmap string string) (backends : list (option Backend)).

Definition hint_of b : string := default "" (hints !! b_ID b).

(** A backend that the session is connected to. *)
Definition connected b (r : initResult) : Prop :=
  Some b ∈ backends /\ (initOneBackend f identity (hint_of b) b).1 = Some r.

Definition workload (r : initResult) : string := bt_WorkloadID (ir_target r).
Definition inits : list initResult := omap fst (init_backends f identity hints backends).
Definition sorted_inits : list initResult := merge_sort (fun x y => String.le (workload x) (workload y)) inits.

Lemma init_target b hint r : (initOneBackend f identity hint b).1 = Some r -> ir_target r = BackendToTarget b.
Proof.
  unfold initOneBackend. destruct (isKnownModern _ _); [done|].
  destruct (f_connector f _ _ _) as [[conn|] [caps|] []]; cbn; intros; by simplify_eq.
Qed.

Lemma elem_of_inits r : r ∈ inits <-> exists b, connected b r.
Proof.
  unfold inits, init_backends, connected, non_nil. rewrite list_elem_of_omap. setoid_rewrite list_elem_of_fmap.
  setoid_rewrite list_elem_of_omap. split.
  - intros (x & (b & -> & (b' & Hb & Hid)) & Hr). cbn in Hid. subst b'. by exists b.
  - intros (b & Hb & Hr). exists (initOneBackend f identity (hint_of b) b). split; [|done].
    exists b. split; [done|]. by exists (Some b).
Qed.

Lemma elem_of_sorted_inits r : r ∈ sorted_inits <-> exists b, connected b r.
Proof. unfold sorted_inits. rewrite merge_sort_Permutation. apply elem_of_inits. Qed.

Context (Hnd : NoDup (b_ID <$> non_nil backends)).

Lemma inits_workloads : NoDup (workload <$> inits).
Proof using Hnd.
  unfold inits, init_backends. revert Hnd. generalize (non_nil backends). intros l Hl.
  induction l as [|b l IH]; [constructor|]. cbn [fmap list_fmap] in Hl |- *. apply NoDup_cons in Hl as [Hb Hl].
  rewrite omap_cons_eq. destruct (initOneBackend _ _ _ b).1 as [r|] eqn:Er; [|by apply IH]. cbn. constructor; [|by apply IH].
  unfold workload at 1. rewrite (init_target _ _ _ Er). intros (r' & E & Hr')%list_elem_of_fmap. apply Hb.
  apply list_elem_of_omap in Hr' as (x & Hx & Hr'). apply list_elem_of_fmap in Hx as (b' & -> & Hb').
  apply list_elem_of_fmap. exists b'. split; [|done]. unfold workload in E. by rewrite (init_target _ _ _ Hr') in E.
Qed.

(** In the order of the workloads, the first to offer a name has the least workload. *)
Lemma first_offer_least {A} (key : A -> string) caps name r :
  first_offer key caps name sorted_inits = Some r ->
  (exists b, connected b r) /\ offers key caps name r /\
  forall r', (exists b, connected b r') -> offers key caps name r' -> String.le (workload r) (workload r').
Proof using Type.
  unfold first_offer. intros ([i r0] & Hf & ->)%fmap_Some. cbn. apply list_find_Some in Hf as (Hi & Ho & Hbefore).
  split; [apply elem_of_sorted_inits; by eapply list_elem_of_lookup_2|]. split; [done|].
  intros r' Hr' Ho'. apply elem_of_sorted_inits, list_elem_of_lookup_1 in Hr' as [j Hj].
  destruct (decide (j < i)) as [Hlt|Hge]; [by destruct (Hbefore j r' Hj Hlt)|].
  destruct (decide (i = j)) as [<-|Hne]; [by simplify_eq|].
  assert (StronglySorted String.le (workload <$> sorted_inits)) as Hs by apply StronglySorted_by.
  eapply (StronglySorted_lookup _ _ i j); [done| | |lia]; rewrite list_lookup_fmap, ?Hi, ?Hj; done.
Qed.

(** What a session promises of one kind of capability. *)
Record routed_well {A} (key : A -> string) (caps : CapabilityList -> list A) (table : gmap string BackendTarget)
    (advertised : list A) (s : defaultMultiSession) : Prop := {
  rw_entry : forall name t, table !! name = Some t -> exists b r, connected b r /\ t = BackendToTarget b /\
    dms_connections s !! b_ID b = Some (ir_conn r) /\ offers key caps name r /\
    forall b' r', connected b' r' -> offers key caps name r' -> String.le (b_ID b) (b_ID b');
  rw_complete : forall b r a, connected b r -> a ∈ caps (ir_caps r) -> is_Some (table !! key a);
  rw_advertised : NoDup (key <$> advertised) /\ (forall name, name ∈ key <$> advertised <-> is_Some (table !! name)) /\
    forall a, a ∈ advertised -> exists b r, connected b r /\ a ∈ caps (ir_caps r) /\ table !! key a = Some (BackendToTarget b);
}.

Lemma connected_workload b r : connected b r -> ir_target r = BackendToTarget b /\ workload r = b_ID b.
Proof using Type. intros [_ Hr]. unfold workload. by rewrite (init_target _ _ _ Hr). Qed.

Lemma connections_of id b r : connected b r -> dms_connections (makeBaseSession f id identity backends hints).1 !! b_ID b = Some (ir_conn r).
Proof using Hnd.
  intros Hc. unfold makeBaseSession. destruct (buildRoutingTable _) as [[[? ?] ?] ?]. cbn.
  apply (insert_loop workload ir_conn inits inits_workloads). exists r. split; [apply elem_of_inits; eauto|].
  split; [|done]. by apply connected_workload.
Qed.

Lemma add_all_routed {A} (key : A -> string) caps id :
  routed_well key caps (add_all key caps sorted_inits).1 (add_all key caps sorted_inits).2
    (makeBaseSession f id identity backends hints).1.
Proof using Hnd.
  destruct (add_all_spec key caps sorted_inits) as ((Hn & Hdom) & Hl & Hs). split.
  - intros name t Ht. rewrite Hl in Ht. apply fmap_Some in Ht as (r & Hr & ->).
    destruct (first_offer_least _ _ _ _ Hr) as ([b Hb] & Ho & Hle). destruct (connected_workload b r Hb) as [Et Ew].
    exists b, r. do 2 (split; [done|]). split; [by apply connections_of|]. split; [done|]. intros b' r' Hb' Ho'.
    rewrite <- Ew. destruct (connected_workload b' r' Hb') as [_ <-]. apply Hle; eauto.
  - intros b r a Hb Ha. rewrite Hl. apply fmap_is_Some. unfold first_offer. apply fmap_is_Some.
    apply (list_find_elem_of _ _ r); [apply elem_of_sorted_inits; eauto|]. by apply list_elem_of_fmap_2.
  - split; [done|]. split; [done|]. intros a Ha. destruct (Hs a Ha) as (r & Hr & Hc & Ht).
    apply elem_of_sorted_inits in Hr as [b Hb]. exists b, r. do 2 (split; [done|]). by destruct (connected_workload b r Hb) as [<- _].
Qed.

Lemma makeBaseSession_eq id :
  let s := (makeBaseSession f id identity backends hints).1 in
  route_Tools (dms_routingTable s) = (add_all tool_Name cl_Tools sorted_inits).1 /\
  dms_tools s = (add_all tool_Name cl_Tools sorted_inits).2 /\
  route_Resources (dms_routingTable s) = (add_all res_URI cl_Resources sorted_inits).1 /\
  dms_resources s = (add_all res_URI cl_Resources sorted_inits).2 /\
  route_Prompts (dms_routingTable s) = (add_all prompt_Name cl_Prompts sorted_inits).1 /\
  dms_prompts s = (add_all prompt_Name cl_Prompts sorted_inits).2.
Proof using Type.
  unfold makeBaseSession, buildRoutingTable. fold inits. change (merge_sort _ inits) with sorted_inits.
  destruct (add_all tool_Name _ _), (add_all res_URI _ _), (add_all prompt_Name _ _). done.
Qed.

(** C22. A session reaches what it routes.  When the backends have distinct identifiers,
    every tool, resource and prompt the session routes goes to a backend it holds a
    connection to and that offers it, the least of these by identifier; everything a
    connected backend offers is routed; the capabilities advertised are exactly the
    routed names, once each; and a call on an open session never finds a backend without
    a connection. *)
Theorem session_routes_connected id :
  let s := (makeBaseSession f id identity backends hints).1 in
  routed_well tool_Name cl_Tools (route_Tools (dms_routingTable s)) (dms_tools s) s /\
  routed_well res_URI cl_Resources (route_Resources (dms_routingTable s)) (dms_resources s) s /\
  routed_well prompt_Name cl_Prompts (route_Prompts (dms_routingTable s)) (dms_prompts s) s /\
  forall table name, table ∈ [route_Tools (dms_routingTable s); route_Resources (dms_routingTable s); route_Prompts (dms_routingTable s)] ->
    match lookupBackend true name table s with
    | inl err => err = ErrCapabilityNotFound name
    | inr (conn, target) => table !! name = Some target /\ dms_connections s !! bt_WorkloadID target = Some conn
    end.
Proof using Hnd.
  intros s. destruct (makeBaseSession_eq id) as (E1 & E2 & E3 & E4 & E5 & E6). fold s in E1, E2, E3, E4, E5, E6.
  assert (routed_well tool_Name cl_Tools (route_Tools (dms_routingTable s)) (dms_tools s) s) as H1 by (rewrite E1, E2; apply add_all_routed).
  assert (routed_well res_URI cl_Resources (route_Resources (dms_routingTable s)) (dms_resources s) s) as H2 by (rewrite E3, E4; apply add_all_routed).
  assert (routed_well prompt_Name cl_Prompts (route_Prompts (dms_routingTable s)) (dms_prompts s) s) as H3 by (rewrite E5, E6; apply add_all_routed).
  do 3 (split; [done|]). intros table name Ht. unfold lookupBackend. cbn [negb].
  destruct (table !! name) as [t|] eqn:E; [|done].
  assert (is_Some (dms_connections s !! bt_WorkloadID t)) as [conn Ec]; [|by rewrite Ec].
  rewrite !elem_of_cons, elem_of_nil in Ht. destruct Ht as [->|[->|[->|[]]]].
  - destruct (rw_entry _ _ _ _ _ H1 name t E) as (b & r & _ & -> & Hc & _). cbn. rewrite Hc. eauto.
  - destruct (rw_entry _ _ _ _ _ H2 name t E) as (b & r & _ & -> & Hc & _). cbn. rewrite Hc. eauto.
  - destruct (rw_entry _ _ _ _ _ H3 name t E) as (b & r & _ & -> & Hc & _). cbn. rewrite Hc. eauto.
Qed.
End made.

(** ** Connections are held or closed *)
Definition opened f (identity : option Identity) (hints : gmap string string) b : list connection :=
  if isKnownModern f (b_ID b) then []
  else option_list (cr_conn (f_connector f (BackendToTarget b) identity (hint_of hints b))).

Lemma init_accounted f identity hints b :
  let r := initOneBackend f identity (hint_of hints b) b in
  opened f identity hints b = option_list (ir_conn <$> r.1) ++ r.2.
Proof.
  unfold opened, initOneBackend. cbn. destruct (isKnownModern f (b_ID b)); [done|].
  by destruct (f_connector f _ _ _) as [[conn|] [caps|] []].
Qed.

Lemma made_accounted f identity hints backends sessID :
  NoDup (b_ID <$> non_nil backends) ->
  let (s, closed) := makeBaseSession f sessID identity backends hints in
  concat (opened f identity hints <$> non_nil backends) ≡ₚ closed ++ close_connections s.
Proof.
  intros Hnd. unfold makeBaseSession. destruct (buildRoutingTable _) as [[[rt ts] rs] ps]. unfold close_connections. cbn. clear rt ts rs ps.
  change (omap fst (init_backends f identity hints backends)) with (inits f identity hints backends).
  rewrite (insert_loop_list workload ir_conn); [|by apply inits_workloads|by intros; apply lookup_empty].
  rewrite map_to_list_empty. cbn [app]. rewrite <- list_fmap_compose. unfold inits, init_backends. clear Hnd.
  induction (non_nil backends) as [|b l IH]; [done|]. rewrite !fmap_cons. cbn [concat]. rewrite omap_cons_eq, IH, init_accounted. cbn.
  destruct (initOneBackend f identity _ b) as [[r|] closed]; cbn; [|by rewrite app_assoc]. 
  rewrite <- app_assoc, !Permutation_middle. done.
Qed.

Lemma non_nil_Some (l : list Backend) : non_nil (Some <$> l) = l.
Proof. unfold non_nil. induction l as [|b l IH]; [done|]. rewrite fmap_cons, omap_cons_eq. by rewrite IH. Qed.

Lemma filtered_NoDup backends ids :
  NoDup (b_ID <$> non_nil backends) -> NoDup (b_ID <$> filterBackendsByStoredIDs backends ids).
Proof.
  intros Hnd. unfold filterBackendsByStoredIDs. case_decide; [constructor|].
  eapply (sublist_NoDup _ (b_ID <$> non_nil backends)); [done|]. apply fmap_sublist, sublist_filter.
Qed.

(** What is stored lets [RestoreSession] connect: the identifier is valid, the backends
    and a well-formed binding are there. *)
Definition connects (id : string) (m : metadata) : bool :=
  match validateSessionID id, m !! MetadataKeyBackendIDs, m !! MetadataKeyIdentityBinding with
  | None, Some _, Some binding => IsUnauthenticated binding || bool_decide (is_Some (Parse binding))
  | _, _, _ => false
  end.

(** C23. The factory neither loses nor leaks a connection.  The connections the backends
    give for a new session (when its identifier is valid), or for a restored one (when
    also what is stored lets it connect), are exactly those held by the session that is
    returned together with those that have been closed: the ones of backends that failed,
    and all of them when no session is returned.  Otherwise there is no session and
    nothing to close. *)
Theorem connections_accounted f id :
  (forall identity backends r closed, NoDup (b_ID <$> non_nil backends) ->
   MakeSessionWithID f id identity backends = (r, closed) ->
   closed ++ match r with inr (s, _) => close_connections s | inl _ => [] end ≡ₚ
     if validateSessionID id then [] else concat (opened f identity ∅ <$> non_nil backends)) /\
  (forall m backends r closed, NoDup (b_ID <$> non_nil backends) ->
   RestoreSession f id m backends = (r, closed) ->
   let filtered := filterBackendsByStoredIDs backends (value MetadataKeyBackendIDs m) in
   closed ++ match r with inr (s, _) => close_connections s | inl _ => [] end ≡ₚ
     if connects id m then concat (opened f None (session_hints m filtered) <$> filtered) else []).
Proof.
  split.
  - intros identity backends r closed Hnd E. unfold MakeSessionWithID in E. destruct (validateSessionID id); [by simplify_eq|].
    unfold makeSession in E. pose proof (made_accounted f identity ∅ backends id Hnd) as Hm.
    destruct (makeBaseSession f id identity backends ∅) as [base cl].
    destruct (BindSession _ _) as [err|[m d]]; simplify_eq; [by rewrite app_nil_r|done].
  - intros m backends r closed Hnd E. unfold RestoreSession in E. cbn zeta. unfold connects.
    destruct (validateSessionID id); [by simplify_eq|]. unfold value.
    destruct (m !! MetadataKeyBackendIDs) as [ids|]; [|by simplify_eq]. cbn [default from_option Datatypes.id].
    destruct (m !! MetadataKeyIdentityBinding) as [bnd|]; [|by destruct (m !! MetadataKeyTokenHash); simplify_eq].
    assert (IsUnauthenticated bnd || bool_decide (is_Some (Parse bnd)) =
      negb (negb (IsUnauthenticated bnd) && bool_decide (Parse bnd = None))) as ->.
    { destruct (IsUnauthenticated bnd); [done|]. by destruct (Parse bnd). }
    destruct (negb _ && _); [by simplify_eq|]. cbn [negb].
    set (l := filterBackendsByStoredIDs backends ids) in *.
    pose proof (made_accounted f None (session_hints m l) (Some <$> l) id) as Hm. rewrite non_nil_Some in Hm.
    destruct (makeBaseSession f id None _ _) as [base cl]. specialize (Hm (filtered_NoDup _ _ Hnd)).
    destruct (RestoreSessionBinding bnd); simplify_eq; [done|by rewrite app_nil_r].
Qed.

(** ** Restoring a session *)
Lemma metadata_loop results m :
  foldl backend_metadata m results =
  foldl (fun m r => <[MetadataKeyBackendSessionPrefix +:+ workload r := cn_SessionID (ir_conn r)]> m) m
    (filter (fun r => cn_SessionID (ir_conn r) <> "") results).
Proof.
  revert m. induction results as [|r results IH]; intros m; [done|]. cbn [foldl]. rewrite IH, filter_cons.
  unfold backend_metadata. repeat case_decide; done.
Qed.

Lemma prefix_inj w w' : MetadataKeyBackendSessionPrefix +:+ w = MetadataKeyBackendSessionPrefix +:+ w' -> w = w'.
Proof. intros E. by simplify_eq. Qed.

Lemma metadata_session results r :
  NoDup (workload <$> results) -> r ∈ results ->
  value (MetadataKeyBackendSessionPrefix +:+ workload r) (populateBackendMetadata results ∅) = cn_SessionID (ir_conn r).
Proof.
  intros Hnd Hr. unfold value, populateBackendMetadata. rewrite lookup_insert_ne by done. rewrite metadata_loop.
  set (l := filter (fun r => cn_SessionID (ir_conn r) <> "") results).
  assert (NoDup ((fun r => MetadataKeyBackendSessionPrefix +:+ workload r) <$> l)) as Hl.
  { rewrite (list_fmap_compose workload (fun w => MetadataKeyBackendSessionPrefix +:+ w)).
    apply NoDup_fmap; [by intros ? ? ?%prefix_inj|]. eapply sublist_NoDup; [done|]. apply fmap_sublist, sublist_filter. }
  pose proof (insert_loop (fun r => MetadataKeyBackendSessionPrefix +:+ workload r) (fun r => cn_SessionID (ir_conn r)) l Hl
    (MetadataKeyBackendSessionPrefix +:+ workload r)) as Hi.
  destruct (foldl _ ∅ l !! _) as [sid|] eqn:E; cbn.
  - destruct (proj1 (Hi _) eq_refl) as (r' & Hr' & Ek%prefix_inj & <-). apply list_elem_of_filter in Hr' as [_ Hr'].
    by rewrite (NoDup_fmap_elem workload results r' r).
  - destruct (decide (cn_SessionID (ir_conn r) = "")) as [->|Hne]; [done|]. exfalso.
    assert (r ∈ l) as Hin by (by apply list_elem_of_filter).
    specialize (Hi (cn_SessionID (ir_conn r))). destruct Hi as [_ Hi]. specialize (Hi ltac:(eauto)). congruence.
Qed.

Lemma session_hints_spec m backends b :
  NoDup (b_ID <$> backends) -> b ∈ backends ->
  default "" (session_hints m backends !! b_ID b) = value (MetadataKeyBackendSessionPrefix +:+ b_ID b) m.
Proof.
  intros Hnd Hb. set (hint := fun b => value (MetadataKeyBackendSessionPrefix +:+ b_ID b) m).
  assert (forall h0, foldl (fun (h : gmap string string) b => if decide (hint b = "") then h else <[b_ID b := hint b]> h) h0 backends =
    foldl (fun (h : gmap string string) b => <[b_ID b := hint b]> h) h0 (filter (fun b => hint b <> "") backends)) as Hf.
  { clear. induction backends as [|b l IH]; intros h0; [done|]. cbn [foldl]. rewrite IH, filter_cons. repeat case_decide; done. }
  change (default "" (foldl (fun (h : gmap string string) b => if decide (hint b = "") then h else <[b_ID b := hint b]> h) ∅ backends !! b_ID b) = hint b).
  rewrite Hf. set (l := filter (fun b => hint b <> "") backends).
  assert (NoDup (b_ID <$> l)) as Hl by (eapply sublist_NoDup; [done|]; apply fmap_sublist, sublist_filter).
  pose proof (insert_loop b_ID hint l Hl (b_ID b)) as Hi. destruct (foldl _ ∅ l !! _) as [h|] eqn:E; cbn.
  - destruct (proj1 (Hi _) eq_refl) as (b' & Hb' & Ek & <-). apply list_elem_of_filter in Hb' as [_ Hb'].
    by rewrite (NoDup_fmap_elem b_ID backends b' b).
  - destruct (decide (hint b = "")) as [->|Hne]; [done|]. exfalso. specialize (Hi (hint b)) as [_ Hi].
    assert (b ∈ l) as Hin by (by apply list_elem_of_filter). specialize (Hi ltac:(eauto)). congruence.
Qed.

(** Identifiers that a comma-separated list can hold. *)
Definition listable (workloadID : string) : Prop :=
  no_char comma workloadID /\ workloadID <> "" /\ TrimSpace workloadID = workloadID.

Lemma filterBackends_spec allBackends l b :
  Forall listable l -> b ∈ filterBackendsByStoredIDs allBackends (Join comma l) <-> Some b ∈ allBackends /\ b_ID b ∈ l.
Proof.
  intros Hl. assert (Some b ∈ allBackends <-> b ∈ non_nil allBackends) as ->.
  { unfold non_nil. rewrite list_elem_of_omap. naive_solver. }
  unfold filterBackendsByStoredIDs. case_decide as Hj.
  - destruct l as [|a l]; [split; [by intros ?%not_elem_of_nil|by intros [_ ?%not_elem_of_nil]]|]. exfalso.
    apply Forall_cons in Hl as [(_ & Ha & _) _]. destruct a; [done|]. by destruct l.
  - rewrite list_elem_of_filter. rewrite <- (listed_Join l (b_ID b)) by done. unfold listed.
    rewrite list_elem_of_filter. tauto.
Qed.

Lemma made_session f id identity backends hints : exists base closed,
  makeBaseSession f id identity backends hints = (base, closed) /\
  dms_metadata base = populateBackendMetadata (sorted_inits f identity hints backends) ∅ /\
  dms_connections base = dms_connections (makeBaseSession f id identity backends hints).1.
Proof.
  destruct (makeBaseSession f id identity backends hints) as [base closed] eqn:E. exists base, closed. split; [done|]. split; [|done].
  unfold makeBaseSession in E. destruct (buildRoutingTable _) as [[[rt ts] rs] ps]. by simplify_eq.
Qed.

Lemma connection_source f id identity backends hints w conn :
  NoDup (b_ID <$> non_nil backends) ->
  dms_connections (makeBaseSession f id identity backends hints).1 !! w = Some conn ->
  exists b r, connected f identity hints backends b r /\ b_ID b = w /\ conn = ir_conn r.
Proof.
  intros Hnd. unfold makeBaseSession. destruct (buildRoutingTable _) as [[[rt ts] rs] ps]. cbn.
  intros (r & Hr & <- & <-)%(insert_loop workload ir_conn _ (inits_workloads f identity hints backends Hnd)).
  apply elem_of_inits in Hr as [b Hb]. exists b, r. split; [done|]. by destruct (connected_workload _ _ _ _ b r Hb).
Qed.

Lemma restorable bnd d : RestoreSessionBinding bnd = Some d ->
  negb (IsUnauthenticated bnd) && bool_decide (Parse bnd = None) = false.
Proof.
  unfold RestoreSessionBinding. destruct (IsUnauthenticated bnd); [done|]. destruct (Parse bnd); [|done].
  done.
Qed.

(** C12. A restored session goes back to the same backends.  From the metadata of a session,
    on any server and with any list of backends, a session is restored with the same
    binding; it connects to exactly those backends of the list that the session was
    connected to, and offers each the session identifier it had given. *)
Theorem restored_session_reconnects f f' id identity backends s d closed allBackends :
  MakeSessionWithID f id identity backends = (inr (s, d), closed) ->
  NoDup (b_ID <$> non_nil backends) -> NoDup (b_ID <$> non_nil allBackends) ->
  Forall (fun b => listable (b_ID b)) (non_nil backends) ->
  exists filtered hints,
    let (base, closed') := makeBaseSession f' id None (Some <$> filtered) hints in
    RestoreSession f' id (dms_metadata s) allBackends =
      (inr (set_metadata MetadataKeyIdentityBinding (sbd_boundIdentity d) base, d), closed') /\
    (forall b, b ∈ filtered <-> Some b ∈ allBackends /\ is_Some (dms_connections s !! b_ID b)) /\
    (forall b conn, b ∈ filtered -> dms_connections s !! b_ID b = Some conn -> hint_of hints b = cn_SessionID conn).
Proof.
  intros E Hnd Hnd' Hlist. unfold MakeSessionWithID in E. destruct (validateSessionID id) eqn:Ev; [done|].
  unfold makeSession in E. destruct (made_session f id identity backends ∅) as (base & cl & Eb & Em & Ec). rewrite Eb in E.
  destruct (BindSession (dms_metadata base) identity) as [err|[m d']] eqn:Ebind; [done|]. simplify_eq.
  destruct (bound_restored _ _ _ _ Ebind) as (stored & Hst & Hres & _).
  pose proof (BindSession_inr _ _ _ _ Ebind) as (-> & _). rewrite lookup_insert_eq in Hst. injection Hst as <-.
  set (results := sorted_inits f identity ∅ backends) in *.
  assert (Forall listable (workload <$> results)) as Hlw.
  { apply Forall_fmap, Forall_forall. intros r [b [Hb Hr]]%elem_of_sorted_inits. cbn.
    destruct (connected_workload f identity ∅ backends b r) as [_ ->]; [done|].
    rewrite Forall_forall in Hlist. apply Hlist. unfold non_nil. apply list_elem_of_omap. by exists (Some b). }
  assert (NoDup (workload <$> results)) as Hnw.
  { unfold results, sorted_inits. rewrite merge_sort_Permutation. by apply inits_workloads. }
  set (md := <[MetadataKeyIdentityBinding := sbd_boundIdentity d]> (dms_metadata base)).
  set (l := filterBackendsByStoredIDs allBackends (Join comma (workload <$> results))).
  exists l, (session_hints md l). destruct (makeBaseSession f' id None _ _) as [base' cl'] eqn:Eb'. split; [|split].
  - unfold RestoreSession. rewrite Ev. cbn [dms_metadata set_metadata]. fold md. unfold md at 1 2.
    rewrite lookup_insert_eq, lookup_insert_ne, Em by done. unfold populateBackendMetadata at 1. rewrite lookup_insert_eq.
    change (Join comma ((fun r => bt_WorkloadID (ir_target r)) <$> results)) with (Join comma (workload <$> results)).
    fold l. rewrite Eb', Hres. rewrite (restorable _ _ Hres). done.
  - intros b. unfold l. rewrite filterBackends_spec by done. f_equiv. cbn [dms_connections set_metadata].
    rewrite Ec. split.
    + intros (r & Er & [b' Hb']%elem_of_sorted_inits)%list_elem_of_fmap. rewrite Er.
      destruct (connected_workload _ _ _ _ b' r Hb') as [_ ->]. eexists. by apply (connections_of _ _ _ _ Hnd id b' r).
    + intros [conn Hc]. apply connection_source in Hc as (b' & r & Hb' & Eid & _); [|done].
      apply list_elem_of_fmap. exists r. destruct (connected_workload _ _ _ _ b' r Hb') as [_ ->]. split; [done|].
      apply elem_of_sorted_inits. eauto.
  - intros b conn Hb Hc. unfold hint_of. rewrite session_hints_spec by (done || by apply filtered_NoDup).
    cbn [dms_connections set_metadata] in Hc. rewrite Ec in Hc. apply connection_source in Hc as (b' & r & Hb' & <- & ->); [|done].
    destruct (connected_workload _ _ _ _ b' r Hb') as [_ <-]. unfold value, md. rewrite lookup_insert_ne by done. rewrite Em.
    apply metadata_session; [done|]. apply elem_of_sorted_inits. eauto.
Qed.

(** ** Decorators

    A decorator wraps a session, fails, or returns nil. *)
Section decorators.
Context {S : Type} (connections : S -> list connection).

Inductive decorate_error := DecoratorFailed (text : string) | DecoratorNil.

Fixpoint applyDecorators (decorators : list (S -> string + option S)) (sess : S)
    : (decorate_error + S) * list connection :=
  match decorators with
  | [] => (inr sess, [])
  | dec :: decorators =>
      match dec sess with
      | inl err => (inl (DecoratorFailed err), connections sess)
      | inr None => (inl DecoratorNil, connections sess)
      | inr (Some decorated) => applyDecorators decorators decorated
      end
  end.

(** A wrapped session has the connections of the one it wraps; then they are held by the
    result, or closed. *)
Lemma decorated_accounted decorators sess :
  Forall (fun dec => forall s s', dec s = inr (Some s') -> connections s' = connections s) decorators ->
  let (r, closed) := applyDecorators decorators sess in
  closed ++ match r with inr s => connections s | inl _ => [] end = connections sess.
Proof.
  revert sess. induction decorators as [|dec l IH]; intros sess Hd; [done|]. apply Forall_cons in Hd as [Hdec Hl]. cbn.
  destruct (dec sess) as [err|[s'|]] eqn:E; [by rewrite app_nil_r| |by rewrite app_nil_r].
  rewrite <- (Hdec sess s' E). by apply IH.
Qed.
End decorators.

(** ** Witnesses *)
Definition sample_capability (name : string) : CapabilityList := {|
  cl_Tools := [{| tool_Name := name; tool_Description := ""; tool_InputSchema := JNull; tool_OutputSchema := JNull;
                  tool_Annotations := None; tool_BackendID := "" |}];
  cl_Resources := []; cl_ResourceTemplates := []; cl_Prompts := []; cl_SupportsLogging := false; cl_SupportsSampling := false |}.

(** Backend [c] fails after it has connected; the others offer the same tool. *)
Definition sample_connector (t : BackendTarget) (_ : option Identity) (_ : string) : connect_result := {|
  cr_conn := Some {| cn_handle := String.length (bt_WorkloadID t); cn_SessionID := "s-" +:+ bt_WorkloadID t |};
  cr_caps := Some (sample_capability "echo"); cr_err := bool_decide (bt_WorkloadID t = "ccc") |}.

Definition sample_factory : defaultMultiSessionFactory := newSessionFactoryWithConnector sample_connector [WithMaxBackendInitConcurrency 2].

Definition sample_backends : list (option Backend) :=
  [Some (sample_backend "bb"); None; Some (sample_backend "ccc"); Some (sample_backend "a")].

Lemma sample_backends_NoDup : NoDup (b_ID <$> non_nil sample_backends).
Proof. vm_compute. apply (bool_decide_unpack (NoDup _)). exact I. Qed.

Lemma session_routes_connected_witness :
  let s := (makeBaseSession sample_factory "s" None sample_backends ∅).1 in
  is_Some (route_Tools (dms_routingTable s) !! "echo") /\
  match lookupBackend true "echo" (route_Tools (dms_routingTable s)) s with
  | inl err => err = ErrCapabilityNotFound "echo"
  | inr (conn, target) => route_Tools (dms_routingTable s) !! "echo" = Some target /\
      dms_connections s !! bt_WorkloadID target = Some conn
  end.
Proof.
  split; [vm_compute; eexists; reflexivity|].
  apply (session_routes_connected sample_factory None ∅ sample_backends sample_backends_NoDup "s"). left.
Defined.

Definition sample_stored : metadata :=
  {[ MetadataKeyBackendIDs := "a,ccc"; MetadataKeyIdentityBinding := UnauthenticatedSentinel ]}.

(** A new session and a restored one; backend [c] fails in both. *)
Lemma connections_accounted_witness :
  (exists s closed, MakeSessionWithID sample_factory "s" None sample_backends = (inr s, closed) /\
    closed ++ close_connections s.1 ≡ₚ concat (opened sample_factory None ∅ <$> non_nil sample_backends) /\
    length closed = 1) /\
  (exists s closed, RestoreSession sample_factory "s" sample_stored sample_backends = (inr s, closed) /\
    length (closed ++ close_connections s.1) = 2 /\ length closed = 1).
Proof.
  split.
  - destruct (MakeSessionWithID sample_factory "s" None sample_backends) as [[err|[s d]] closed] eqn:E;
      [vm_compute in E; discriminate|]. exists (s, d), closed. split; [reflexivity|]. split.
    + exact (proj1 (connections_accounted sample_factory "s") None sample_backends _ closed sample_backends_NoDup E).
    + vm_compute in E. injection E as _ _ <-. reflexivity.
  - destruct (RestoreSession sample_factory "s" sample_stored sample_backends) as [[err|[s d]] closed] eqn:E;
      [vm_compute in E; discriminate|]. exists (s, d), closed. split; [reflexivity|]. split.
    + pose proof (proj2 (connections_accounted sample_factory "s") sample_stored sample_backends _ closed
        sample_backends_NoDup E) as H. cbv zeta in H. rewrite H. vm_compute. reflexivity.
    + vm_compute in E. injection E as _ _ <-. reflexivity.
Defined.

Lemma restored_session_reconnects_witness :
  exists s d closed filtered hints, MakeSessionWithID sample_factory "s" None sample_backends = (inr (s, d), closed) /\
    (let (base, closed') := makeBaseSession sample_factory "s" None (Some <$> filtered) hints in
     RestoreSession sample_factory "s" (dms_metadata s) [Some (sample_backend "a"); Some (sample_backend "new")] =
       (inr (set_metadata MetadataKeyIdentityBinding (sbd_boundIdentity d) base, d), closed') /\
     (forall b, b ∈ filtered <-> Some b ∈ [Some (sample_backend "a"); Some (sample_backend "new")] /\
        is_Some (dms_connections s !! b_ID b)) /\
     (forall b conn, b ∈ filtered -> dms_connections s !! b_ID b = Some conn -> hint_of hints b = cn_SessionID conn)).
Proof.
  destruct (MakeSessionWithID sample_factory "s" None sample_backends) as [[err|[s d]] closed] eqn:E;
    [vm_compute in E; discriminate|].
  destruct (restored_session_reconnects sample_factory sample_factory "s" None sample_backends s d closed
    [Some (sample_backend "a"); Some (sample_backend "new")] E sample_backends_NoDup) as (filtered & hints & H).
  - vm_compute. apply (bool_decide_unpack (NoDup _)). exact I.
  - vm_compute. repeat constructor; discriminate.
  - exists s, d, closed, filtered, hints. split; [reflexivity|exact H].
Defined.
