(* ===== verification/EventStream.v ===== *)
(** * Event streams on the wire ([pkg/authz/response_filter.go], the SSE framing)

    A [text/event-stream] body is a sequence of bytes.  The response filter cuts it
    into lines at LF, keeps with each line the bytes that ended it, and rewrites one
    event at a time; [processEvents] is that loop for any rewriting of an event.  What
    a client makes of a body is [client_payloads], written from the client the code
    names in its comments: it reads up to LF, drops the CRs at the end of a line,
    dispatches at an empty line and at the end of the stream, and joins the trimmed
    values of the [data] fields.  The lemmas carry a statement about single events
    through the bytes: what the client reads from the rewritten body is, event by
    event, the rewriting of what it would have read. *)

From Stdlib Require Import Ascii.
From S2P Require Import Prelude GoStrings.

Definition LF : ascii := "010".
Definition CR : ascii := "013".

(** ** Byte slices *)

(** [bytes.TrimRight(s, "\r")]. *)
Fixpoint trim_cr (s : string) : string :=
  match s with
  | EmptyString => EmptyString
  | String a s =>
      match trim_cr s with
      | EmptyString => if decide (a = CR) then EmptyString else String a EmptyString
      | s' => String a s'
      end
  end.

(** [bytes.CutPrefix]. *)
Fixpoint CutPrefix (s prefix : string) : option string :=
  match prefix, s with
  | EmptyString, _ => Some s
  | String b prefix, String a s => if decide (a = b) then CutPrefix s prefix else None
  | String _ _, EmptyString => None
  end.

(** [bytes.TrimPrefix]. *)
Definition TrimPrefix (s prefix : string) : string := default s (CutPrefix s prefix).

(** The runes [unicode.IsSpace] accepts, by the bytes of their encoding: one byte as in
    [is_space], two bytes for U+0085 and U+00A0, three for U+1680, U+2000 to U+200A,
    U+2028, U+2029, U+202F, U+205F and U+3000. *)
Definition space2 (a b : ascii) : bool :=
  (nat_of_ascii a =? 194) && ((nat_of_ascii b =? 133) || (nat_of_ascii b =? 160)).

Definition space3 (a b c : ascii) : bool :=
  let x := nat_of_ascii a in let y := nat_of_ascii b in let z := nat_of_ascii c in
  ((x =? 225) && (y =? 154) && (z =? 128)) ||
  ((x =? 226) && (y =? 128) && (((128 <=? z) && (z <=? 138)) || (z =? 168) || (z =? 169) || (z =? 175))) ||
  ((x =? 226) && (y =? 129) && (z =? 159)) ||
  ((x =? 227) && (y =? 128) && (z =? 128)).

(** Drops the space runes at the front.  With [back], the bytes are in reverse order. *)
Fixpoint drop_spaces (back : bool) (s : string) : string :=
  match s with
  | EmptyString => EmptyString
  | String a s1 =>
      if is_space a then drop_spaces back s1
      else match s1 with
           | EmptyString => s
           | String b s2 =>
               if (if back then space2 b a else space2 a b) then drop_spaces back s2
               else match s2 with
                    | EmptyString => s
                    | String c s3 =>
                        if (if back then space3 c b a else space3 a b c) then drop_spaces back s3 else s
                    end
           end
  end.

Definition backwards (s : string) : string := String.string_of_list_ascii (reverse (String.list_ascii_of_string s)).

(** [bytes.TrimSpace]. *)
Definition TrimSpace_bytes (s : string) : string :=
  backwards (drop_spaces true (backwards (drop_spaces false s))).

(** ** Lines *)
Record sseLine := {
  sl_text : string;
  sl_term : string;
}.

(** The scan of [processSSEResponse]; every round consumes a byte, so as many rounds
    as there are bytes are enough ([render_scan]). *)
Fixpoint scan_lines (rounds : nat) (rawResponse : string) : list sseLine :=
  match rounds with
  | 0 => []
  | S rounds =>
      if decide (rawResponse = "") then []
      else match Cut LF rawResponse with
           | None => [{| sl_text := rawResponse; sl_term := "" |}]
           | Some (line, rest) => {| sl_text := line; sl_term := String LF "" |} :: scan_lines rounds rest
           end
  end.

Definition scan (rawResponse : string) : list sseLine := scan_lines (String.length rawResponse) rawResponse.

Fixpoint render (lines : list sseLine) : string :=
  match lines with
  | [] => ""
  | l :: lines => sl_text l +:+ (sl_term l +:+ render lines)
  end.

Definition isBlank (line : string) : bool := bool_decide (trim_cr line = "").

Definition eventDataValues (event : list sseLine) : list string :=
  omap (fun l =>
    match CutPrefix (trim_cr (sl_text l)) "data:" with
    | None => None
    | Some data => Some (TrimSpace_bytes (TrimPrefix data " "))
    end) event.

(** The replacement stands in for the first [data] line; the other [data] lines go, and
    with [failedClosed] the event's name goes too.  [replaced] says whether the first
    [data] line is behind. *)
Fixpoint rebuild_from (replaced : bool) (event : list sseLine) (replacement : string) (failedClosed : bool)
    : list sseLine :=
  match event with
  | [] => []
  | l :: event =>
      let trimmed := trim_cr (sl_text l) in
      if failedClosed && HasPrefix trimmed "event:" then rebuild_from replaced event replacement failedClosed
      else if negb (HasPrefix trimmed "data:") then l :: rebuild_from replaced event replacement failedClosed
      else if replaced then rebuild_from replaced event replacement failedClosed
      else
        let cr := String.substring (String.length trimmed) (String.length (sl_text l) - String.length trimmed)
                    (sl_text l) in
        {| sl_text := "data: " +:+ replacement; sl_term := cr +:+ sl_term l |}
          :: rebuild_from true event replacement failedClosed
  end.

Definition rebuildEventWithPayload (event : list sseLine) (replacement : string) (failedClosed : bool)
    : list sseLine := rebuild_from false event replacement failedClosed.

(** The loop of [processSSEResponse] for a rewriting of events that threads a state. *)
Section loop.
Context {S : Type} (resolve : S -> list sseLine -> list sseLine * S).

Fixpoint processEvents (s : S) (event lines : list sseLine) : list sseLine * S :=
  match lines with
  | [] => resolve s event
  | l :: lines =>
      if isBlank (sl_text l) then
        let (out, s) := resolve s event in
        let (rest, s) := processEvents s [] lines in
        (out ++ l :: rest, s)
      else processEvents s (event ++ [l]) lines
  end.
End loop.

(** ** The client *)
Definition client_lines (body : string) : list string := trim_cr <$> Split LF body.

Definition client_value (line : string) : option string :=
  match Cut ":" line with
  | Some (field, value) => if decide (field = "data") then Some (TrimSpace_bytes value) else None
  | None => None
  end.

Fixpoint client_events (values : list string) (lines : list string) : list (list string) :=
  match lines with
  | [] => [values]
  | line :: lines =>
      if decide (line = "") then values :: client_events [] lines
      else client_events (values ++ option_list (client_value line)) lines
  end.

(** An event with nothing in its data buffer is not dispatched. *)
Definition client_payload (values : list string) : option string :=
  let data := Join LF values in if decide (data = "") then None else Some data.

Definition client_payloads (body : string) : list string :=
  omap client_payload (client_events [] (client_lines body)).

(** ** Byte slices, lemmas *)
Fixpoint all_cr (s : string) : Prop :=
  match s with
  | EmptyString => True
  | String a s => a = CR /\ all_cr s
  end.

Lemma trim_cr_split s : exists cr, s = trim_cr s +:+ cr /\ all_cr cr.
Proof.
  induction s as [|a s (cr & E & Hcr)]; [by exists ""|]. cbn [trim_cr].
  destruct (trim_cr s) as [|b t] eqn:Et.
  - destruct (decide (a = CR)) as [->|Ha].
    + exists (String CR cr). split; [by rewrite E at 1|done].
    + exists cr. split; [by rewrite E at 1|done].
  - exists cr. split; [|done]. rewrite E at 1. done.
Qed.

Lemma trim_cr_app s cr : all_cr cr -> trim_cr (s +:+ cr) = trim_cr s.
Proof.
  intros Hcr. induction s as [|a s IH].
  - change ("" +:+ cr) with cr. induction cr as [|a cr IH]; [done|]. destruct Hcr as [-> Hcr].
    cbn [trim_cr]. rewrite IH by done. done.
  - change (String a s +:+ cr) with (String a (s +:+ cr)). cbn [trim_cr]. by rewrite IH.
Qed.

Lemma all_cr_no_lf cr : all_cr cr -> no_char LF cr.
Proof. induction cr as [|a cr IH]; [done|]. intros [-> ?%IH]. done. Qed.

Lemma no_char_trim_cr c s : no_char c s -> no_char c (trim_cr s).
Proof. destruct (trim_cr_split s) as (cr & E & _). rewrite E at 1. rewrite no_char_app. by intros [? _]. Qed.

Lemma substring_rest s t : String.substring (String.length s) (String.length (s +:+ t) - String.length s) (s +:+ t) = t.
Proof.
  induction s as [|a s IH].
  - change ("" +:+ t) with t. cbn [String.length]. rewrite Nat.sub_0_r.
    induction t as [|a t IH]; [done|]. cbn [String.length String.substring]. by rewrite IH.
  - exact IH.
Qed.

Lemma CutPrefix_Some s p t : CutPrefix s p = Some t <-> s = p +:+ t.
Proof.
  revert s. induction p as [|b p IH]; intros s.
  { change ("" +:+ t) with t. destruct s; cbn [CutPrefix]; split; congruence. }
  change (String b p +:+ t) with (String b (p +:+ t)).
  destruct s as [|a s]; cbn [CutPrefix]; [done|]. case_decide as E; [subst|].
  - rewrite IH. split; [by intros ->|by intros [= ->]].
  - split; [done|]. by intros [= ? ?].
Qed.

Lemma TrimPrefix_app p s : TrimPrefix (p +:+ s) p = s.
Proof. unfold TrimPrefix. by rewrite (proj2 (CutPrefix_Some _ p s)). Qed.

Lemma CutPrefix_HasPrefix s p : HasPrefix s p = bool_decide (is_Some (CutPrefix s p)).
Proof.
  revert s. induction p as [|b p IH]; intros s; [by destruct s|].
  destruct s as [|a s]; cbn [HasPrefix CutPrefix]; [done|]. case_decide; [apply IH|done].
Qed.

Lemma backwards_involutive s : backwards (backwards s) = s.
Proof.
  unfold backwards. by rewrite String.list_ascii_of_string_of_list_ascii, reverse_involutive, String.string_of_list_ascii_of_string.
Qed.

Lemma list_of_app s t : String.list_ascii_of_string (s +:+ t) = String.list_ascii_of_string s ++ String.list_ascii_of_string t.
Proof.
  induction s as [|a s IH]; [done|]. change (String a s +:+ t) with (String a (s +:+ t)).
  cbn [String.list_ascii_of_string]. by rewrite IH.
Qed.

Lemma backwards_app s t : backwards (s +:+ t) = backwards t +:+ backwards s.
Proof.
  unfold backwards. rewrite list_of_app, reverse_app.
  rewrite <- (String.string_of_list_ascii_of_string (_ +:+ _)), list_of_app.
  by rewrite !String.list_ascii_of_string_of_list_ascii.
Qed.

Lemma no_char_backwards c s : no_char c s -> no_char c (backwards s).
Proof.
  induction s as [|a s IH]; [done|]. intros [Ha Hs].
  change (String a s) with (String a "" +:+ s). rewrite backwards_app. apply no_char_app. split; [auto|by split].
Qed.

Lemma backwards_snoc s a : backwards (s +:+ String a "") = String a (backwards s).
Proof. unfold backwards. rewrite list_of_app. cbn. by rewrite reverse_snoc. Qed.

(** A byte sequence that a trim leaves alone, as every JSON object is. *)
Lemma TrimSpace_object t : TrimSpace_bytes (String "{" (t +:+ "}")) = String "{" (t +:+ "}").
Proof.
  unfold TrimSpace_bytes.
  assert (forall back a u, a = "{"%char \/ a = "}"%char -> drop_spaces back (String a u) = String a u) as Hd.
  { intros back a u [-> | ->]; destruct u as [|b [|c u]]; destruct back; try done; cbn [drop_spaces];
      unfold space2, space3; destruct (nat_of_ascii b =? 133), (nat_of_ascii b =? 160); done || idtac;
      rewrite ?andb_false_r; done. }
  rewrite Hd by auto. change (String "{" (t +:+ "}")) with (String "{" t +:+ "}").
  rewrite backwards_snoc, Hd by auto. by rewrite <- backwards_snoc, backwards_involutive.
Qed.

Lemma TrimSpace_blank v : TrimSpace_bytes (String " " v) = TrimSpace_bytes v.
Proof. done. Qed.

(** ** Framing *)
Definition terminated (l : sseLine) : Prop := exists cr, all_cr cr /\ sl_term l = cr +:+ String LF "".

(** A line with its end of line: all lines but the last one of a body are. *)
Definition ended (l : sseLine) : Prop := no_char LF (sl_text l) /\ terminated l.

Inductive framed : list sseLine -> Prop :=
  | framed_nil : framed []
  | framed_last l : no_char LF (sl_text l) -> all_cr (sl_term l) -> framed [l]
  | framed_cons l lines : ended l -> framed lines -> framed (l :: lines).

#[export] Hint Constructors framed : core.

Lemma framed_app event lines : Forall ended event -> framed lines -> framed (event ++ lines).
Proof. induction 1; cbn; auto. Qed.

Lemma framed_app_inv event l lines : framed (event ++ l :: lines) -> Forall ended event /\ ended l \/ lines = [] /\ Forall ended event.
Proof.
  induction event as [|e event IH]; cbn; intros Hf; inversion Hf as [|? Hn Ht Hl|? ? He Hl]; subst.
  - by right.
  - by left.
  - by destruct event.
  - destruct (IH Hl) as [[? ?]|[-> ?]]; [left|right]; auto.
Qed.

Lemma framed_tail event lines : framed (event ++ lines) -> framed lines.
Proof.
  induction event as [|e event IH]; [done|]. cbn. intros Hf. inversion Hf as [|? Hn Ht Hl|]; subst; [|auto].
  by destruct event; [|done]; cbn in *; subst.
Qed.

Lemma length_string_app s t : String.length (s +:+ t) = String.length s + String.length t.
Proof.
  induction s as [|a s IH]; [done|]. change (String a s +:+ t) with (String a (s +:+ t)).
  cbn [String.length]. by rewrite IH.
Qed.

Lemma scan_lines_ok rounds s :
  String.length s <= rounds -> framed (scan_lines rounds s) /\ render (scan_lines rounds s) = s.
Proof.
  revert s. induction rounds as [|rounds IH]; intros s Hl; cbn [scan_lines].
  { by destruct s; cbn in Hl; [|lia]. }
  case_decide as Hs; [by subst|]. destruct (Cut LF s) as [[line rest]|] eqn:E.
  - apply Cut_Some in E as [-> Hn].
    destruct (IH rest) as [Hf Hr]. { rewrite length_string_app in Hl. cbn [String.length] in Hl. lia. }
    split; [|cbn [render sl_text sl_term]; by rewrite Hr].
    apply framed_cons; [|done]. split; [done|]. by exists "".
  - apply Cut_None in E. split; [by apply framed_last|]. cbn [render sl_text sl_term]. apply app_string_nil_r.
Qed.

Lemma framed_scan s : framed (scan s).
Proof. by apply scan_lines_ok. Qed.

Lemma render_scan s : render (scan s) = s.
Proof. by apply scan_lines_ok. Qed.

(** ** What the client reads *)
Definition texts (lines : list sseLine) : list string := (fun l => trim_cr (sl_text l)) <$> lines.

Lemma client_lines_render lines :
  framed lines -> exists tail, client_lines (render lines) = texts lines ++ tail /\ (tail = [] \/ tail = [""]).
Proof.
  unfold client_lines, texts. induction 1 as [|l Hn Ht|l lines [Hn (cr & Hcr & Ht)] Hf (tail & E & Htail)].
  - exists [""]. by split; [|right].
  - exists []. split; [|by left]. cbn [render]. rewrite app_string_nil_r, Split_no_char.
    2:{ apply no_char_app. split; [done|]. by apply all_cr_no_lf. }
    cbn. by rewrite trim_cr_app.
  - exists tail. split; [|done]. cbn [render]. rewrite Ht.
    replace (sl_text l +:+ ((cr +:+ String LF "") +:+ render lines))
      with ((sl_text l +:+ cr) +:+ String LF (render lines)).
    2:{ by rewrite !app_string_assoc. }
    rewrite Split_app by (apply no_char_app; split; [done|by apply all_cr_no_lf]).
    cbn. by rewrite trim_cr_app, E by done.
Qed.

Lemma client_events_tail values lines : client_events values (lines ++ [""]) = client_events values lines ++ [[]].
Proof.
  revert values. induction lines as [|line lines IH]; intros values; [done|]. cbn [app client_events].
  case_decide; by rewrite IH.
Qed.

Lemma client_payloads_render lines :
  framed lines -> client_payloads (render lines) = omap client_payload (client_events [] (texts lines)).
Proof.
  intros (tail & E & Ht)%client_lines_render. unfold client_payloads. rewrite E.
  destruct Ht as [->| ->]; [by rewrite app_nil_r|]. rewrite client_events_tail, omap_app. cbn. by rewrite app_nil_r.
Qed.

Lemma data_client_value s :
  match CutPrefix s "data:" with
  | None => None
  | Some data => Some (TrimSpace_bytes (TrimPrefix data " "))
  end = client_value s.
Proof.
  unfold client_value. destruct (CutPrefix s "data:") as [data|] eqn:E.
  - apply CutPrefix_Some in E as ->. rewrite (proj2 (Cut_Some ":" _ "data" data)) by done.
    rewrite decide_True by done. f_equal. unfold TrimPrefix.
    destruct (CutPrefix data " ") as [d|] eqn:E; [|done]. by apply CutPrefix_Some in E as ->.
  - destruct (Cut ":" s) as [[field value]|] eqn:Ec; [|done]. case_decide; [|done]. subst.
    apply Cut_Some in Ec as [-> _]. by rewrite (proj2 (CutPrefix_Some _ _ value)) in E.
Qed.

Lemma eventDataValues_client event : eventDataValues event = omap client_value (texts event).
Proof.
  unfold eventDataValues, texts. induction event as [|l event IH]; [done|]. cbn [omap list_omap fmap list_fmap].
  rewrite data_client_value. by rewrite <- IH.
Qed.

Definition nonblank (l : sseLine) : Prop := isBlank (sl_text l) = false.

Lemma client_events_event values event rest :
  Forall nonblank event ->
  client_events values (texts event ++ rest) = client_events (values ++ eventDataValues event) rest.
Proof.
  rewrite eventDataValues_client. intros Hb. revert values.
  induction Hb as [|l event Hl Hb IH]; intros values; cbn [texts fmap list_fmap omap list_omap app].
  { by rewrite app_nil_r. }
  unfold nonblank, isBlank in Hl. apply bool_decide_eq_false in Hl. cbn [client_events].
  rewrite decide_False by done. change (list_fmap _ _ _ event) with (texts event). rewrite IH. f_equal.
  rewrite <- app_assoc. f_equal. by destruct (client_value _).
Qed.

(** ** Rewriting event by event *)
Section rewriting.
Context {S : Type} (resolve : S -> list sseLine -> list sseLine * S) (R : string -> string -> Prop).

(** What the rewriting of one event has to respect. *)
Class Rewriting : Prop := {
  rw_nil s : (resolve s []).1 = [];
  rw_framed s event : framed event -> framed (resolve s event).1;
  rw_ended s event : Forall ended event -> Forall ended (resolve s event).1;
  rw_nonblank s event : Forall nonblank event -> Forall nonblank (resolve s event).1;
  rw_payload s event :
    option_Forall2 R (client_payload (eventDataValues event)) (client_payload (eventDataValues (resolve s event).1));
}.

Lemma omap_option_Forall2 (vs ws : list (list string)) v w :
  option_Forall2 R (client_payload v) (client_payload w) ->
  Forall2 R (omap client_payload vs) (omap client_payload ws) ->
  Forall2 R (omap client_payload (v :: vs)) (omap client_payload (w :: ws)).
Proof. intros Hv Hvs. cbn. by destruct Hv; [constructor|]. Qed.

Lemma processEvents_ok (ok : Rewriting) s event lines :
  framed (event ++ lines) -> Forall nonblank event ->
  framed (processEvents resolve s event lines).1 /\
  Forall2 R (omap client_payload (client_events [] (texts (event ++ lines))))
            (omap client_payload (client_events [] (texts (processEvents resolve s event lines).1))).
Proof.
  revert s event. induction lines as [|l lines IH]; intros s event Hf Hb; cbn [processEvents].
  - rewrite app_nil_r in *. split; [by apply ok|].
    pose proof (rw_nonblank s event Hb) as Hb'.
    rewrite <- (app_nil_r (texts event)), <- (app_nil_r (texts (resolve s event).1)).
    rewrite !client_events_event by done. apply omap_option_Forall2; [apply ok|constructor].
  - destruct (isBlank (sl_text l)) eqn:El.
    2:{ assert (event ++ l :: lines = (event ++ [l]) ++ lines) as E by by rewrite <- app_assoc.
        rewrite E in Hf |- *. apply IH; [done|]. apply Forall_app; split; [done|]. by constructor. }
    pose proof (rw_nonblank s event Hb) as Hb'. pose proof (rw_ended s event) as He. pose proof (rw_payload s event) as Hp.
    destruct (resolve s event) as [out s1]. cbn [fst] in Hb', He, Hp.
    pose proof (IH s1 [] (framed_tail [l] _ (framed_tail _ _ Hf)) (Forall_nil_2 _)) as [IHf IHp].
    destruct (processEvents resolve s1 [] lines) as [rest s2] eqn:Er. cbn [fst app] in *.
    assert (framed (out ++ l :: rest)) as Hfo.
    { destruct (framed_app_inv _ _ _ Hf) as [[Hev Hl]|[-> Hev]]; apply framed_app; auto.
      cbn [processEvents] in Er. pose proof (rw_nil s1) as En. rewrite Er in En. cbn in En. subst rest.
      by apply framed_tail in Hf. }
    split; [done|]. unfold texts. rewrite !fmap_app, !fmap_cons. fold (texts event) (texts out) (texts lines) (texts rest).
    rewrite !client_events_event by done. cbn [client_events app].
    unfold isBlank in El. apply bool_decide_eq_true in El. rewrite El, !decide_True by done.
    by apply omap_option_Forall2.
Qed.
End rewriting.

(** ** Replacing the payload of an event *)

(** A JSON object as the encoders write it: on one line, with nothing around it. *)
Definition wire_object (s : string) : Prop := no_char LF s /\ exists t, s = String "{" (t +:+ "}").

Lemma trim_cr_snoc s a : a <> CR -> trim_cr (s +:+ String a "") = s +:+ String a "".
Proof.
  intros Ha. induction s as [|b s IH].
  - change ("" +:+ String a "") with (String a ""). cbn [trim_cr]. by rewrite decide_False.
  - change (String b s +:+ String a "") with (String b (s +:+ String a "")). cbn [trim_cr]. rewrite IH.
    by destruct s.
Qed.

Lemma trim_cr_data_object s : wire_object s -> trim_cr ("data: " +:+ s) = "data: " +:+ s.
Proof.
  intros [_ [t ->]]. change ("data: " +:+ String "{" (t +:+ "}")) with (("data: {" +:+ t) +:+ "}").
  by apply trim_cr_snoc.
Qed.

Lemma value_data_object s : wire_object s -> client_value ("data: " +:+ s) = Some s.
Proof. intros [_ [t ->]]. rewrite <- data_client_value. cbn. f_equal. apply TrimSpace_object. Qed.

Section rebuild.
Context (replacement : string) (Hobj : wire_object replacement) (failedClosed : bool).

(** What is shown of the rebuilt lines from what holds of the lines they come from. *)
Lemma rebuild_line_ended l :
  let trimmed := trim_cr (sl_text l) in
  let cr := String.substring (String.length trimmed) (String.length (sl_text l) - String.length trimmed) (sl_text l) in
  let l' := {| sl_text := "data: " +:+ replacement; sl_term := cr +:+ sl_term l |} in
  no_char LF (sl_text l') /\ (terminated l -> terminated l') /\ (all_cr (sl_term l) -> all_cr (sl_term l')) /\
  nonblank l'.
Proof.
  cbn. destruct (trim_cr_split (sl_text l)) as (cr & E & Hcr).
  replace (String.substring _ _ _) with cr.
  2:{ revert E. generalize (trim_cr (sl_text l)). intros tr ->. symmetry. apply substring_rest. }
  split; [apply no_char_app; by split; [|apply Hobj]|]. split_and!.
  - intros (cr' & Hcr' & ->). exists (cr +:+ cr'). split; [|by rewrite app_string_assoc].
    clear E. induction cr as [|a cr IH]; [done|]. destruct Hcr. by split; [|apply IH].
  - intros Ht. clear E. induction cr as [|a cr IH]; [done|]. destruct Hcr. by split; [|apply IH].
  - unfold nonblank, isBlank. cbn [sl_text]. by rewrite trim_cr_data_object.
Qed.

Lemma rebuild_ended replaced event :
  Forall ended event -> Forall ended (rebuild_from replaced event replacement failedClosed).
Proof.
  intros He. revert replaced. induction He as [|l event Hl He IH]; intros replaced; cbn [rebuild_from]; [done|].
  destruct (rebuild_line_ended l) as (Hn & Ht & _).
  repeat case_match; auto. constructor; [|auto]. split; [done|]. by apply Ht, Hl.
Qed.

Lemma rebuild_framed replaced event :
  framed event -> framed (rebuild_from replaced event replacement failedClosed).
Proof.
  intros Hf. revert replaced. induction Hf as [|l Hn Hc|l event Hl Hf IH]; intros replaced; cbn [rebuild_from]; [done| |];
    destruct (rebuild_line_ended l) as (Hn' & Ht & Hcr & _); repeat case_match; auto.
  apply framed_cons; [|done]. split; [done|]. by apply Ht, Hl.
Qed.

Lemma rebuild_nonblank replaced event :
  Forall nonblank event -> Forall nonblank (rebuild_from replaced event replacement failedClosed).
Proof.
  intros Hb. revert replaced. induction Hb as [|l event Hl Hb IH]; intros replaced; cbn [rebuild_from]; [done|].
  destruct (rebuild_line_ended l) as (_ & _ & _ & Hn). repeat case_match; auto.
Qed.

Lemma rebuild_values replaced event :
  eventDataValues (rebuild_from replaced event replacement failedClosed) =
  if replaced then [] else match eventDataValues event with [] => [] | _ => [replacement] end.
Proof.
  revert replaced. induction event as [|l event IH]; intros replaced; [by destruct replaced|].
  cbn [rebuild_from]. rewrite !(CutPrefix_HasPrefix (trim_cr (sl_text l))).
  assert (eventDataValues (l :: event) =
    match CutPrefix (trim_cr (sl_text l)) "data:" with
    | None => eventDataValues event
    | Some data => TrimSpace_bytes (TrimPrefix data " ") :: eventDataValues event
    end) as Ec. { unfold eventDataValues. cbn [omap list_omap]. by destruct (CutPrefix _ _). }
  rewrite Ec. destruct (CutPrefix (trim_cr (sl_text l)) "data:") as [data|] eqn:Ed.
  - assert (CutPrefix (trim_cr (sl_text l)) "event:" = None) as ->.
    { apply CutPrefix_Some in Ed as ->. done. }
    rewrite bool_decide_false by by intros [? ?]. rewrite andb_false_r, bool_decide_true by eauto. cbn [negb].
    destruct replaced; [by rewrite IH|]. unfold eventDataValues at 1. cbn [omap list_omap sl_text].
    rewrite trim_cr_data_object, data_client_value, value_data_object by done.
    change (replacement :: eventDataValues (rebuild_from true event replacement failedClosed) = [replacement]).
    by rewrite IH.
  - rewrite (bool_decide_false (is_Some None)) by by intros [? ?]. cbn [negb].
    destruct (failedClosed && _); [apply IH|].
    unfold eventDataValues at 1. cbn [omap list_omap]. rewrite Ed. apply IH.
Qed.

Lemma rebuild_payload event :
  client_payload (eventDataValues event) <> None ->
  client_payload (eventDataValues (rebuildEventWithPayload event replacement failedClosed)) = Some replacement.
Proof.
  unfold rebuildEventWithPayload. rewrite rebuild_values. destruct (eventDataValues event); [done|]. intros _.
  unfold client_payload. cbn [Join]. rewrite decide_False; [done|]. by destruct Hobj as [_ [t ->]].
Qed.
End rebuild.
