(* ===== verification/JsonRpc.v ===== *)
(** * JSON-RPC messages ([pkg/mcp/utils.go], [pkg/mcp/jsonrpc_write.go], [pkg/mcp/batch.go])

    The messages of the JSON-RPC library the proxy uses, and the reading and writing of
    their bytes.  The library and the JSON codec are the parameter [Codec]; what the
    code relies on is [CodecOk].  A [json.RawMessage] is its bytes, with [None] for a
    nil one. *)

From Stdlib Require Import Ascii.
From S2P Require Import Prelude GoStrings VmcpTypes ParamHeaders EventStream.

Inductive rpc_id := NoID | StringID (s : string) | Int64ID (n : Z).

Record rpc_error := {
  re_Code : Z;
  re_Message : string;
}.

Record RpcRequest := {
  rq_ID : rpc_id;
  rq_Method : string;
  rq_Params : option string;
}.

Record RpcResponse := {
  rs_ID : rpc_id;
  rs_Result : option string;
  rs_Error : option rpc_error;
}.

Inductive message :=
  | MRequest (r : RpcRequest)
  | MResponse (r : RpcResponse).

#[export] Instance rpc_id_eq_dec : EqDecision rpc_id.
Proof. solve_decision. Defined.
#[export] Instance rpc_error_eq_dec : EqDecision rpc_error.
Proof. solve_decision. Defined.
#[export] Instance RpcResponse_eq_dec : EqDecision RpcResponse.
Proof. solve_decision. Defined.

(** [id.Raw()], as the [interface{}] the parser keeps. *)
Definition raw_id (id : rpc_id) : json :=
  match id with
  | NoID => JNull
  | StringID s => JStr s
  | Int64ID n => JNum n
  end.

(** ** The codec *)
Class Codec := {
  (** [jsonrpc2.DecodeMessage] and [jsonrpc2.EncodeMessage] *)
  DecodeMessage : string -> option message;
  EncodeMessage : message -> option string;
  (** the values a [json.Decoder] reads before its first error or the end *)
  json_values : string -> list json;
  (** [json.Unmarshal] into a [map[string]any]; a JSON null leaves the map nil *)
  UnmarshalMap : string -> option (option fields);
  (** the matching of the key of an object with the name of a struct field, which
      ignores case *)
  field_matches : string -> string -> bool;
  (** [int64(v)] and [strconv.FormatFloat(v, 'f', 0, 64)] for a number that is not an
      integer *)
  float_int64 : string -> Z;
  FormatFloat : string -> string;
  (** the bytes of a raw message as an encoder writes them out *)
  compact : string -> string;
}.

(** [mcp.ConvertToJSONRPC2ID] of package [pkg/mcp]. *)
Definition ConvertToJSONRPC2ID `{Codec} (id : json) : option rpc_id :=
  match id with
  | JNull => Some NoID
  | JStr v => Some (StringID v)
  | JNum v => Some (Int64ID v)
  | JFloat v => Some (Int64ID (float_int64 v))
  | _ => None
  end.

(** [EncodeJSONRPCError]; the fallback body is a constant. *)
Definition internalErrorBody : string :=
  String.concat (String "034" "")
    ["{"; "jsonrpc"; ":"; "2.0"; ","; "error"; ":{"; "code"; ":-32603,"; "message"; ":"; "Internal error"; "}}"].

Definition EncodeJSONRPCError `{Codec} (resp : RpcResponse) : string :=
  default internalErrorBody (EncodeMessage (MResponse resp)).

(** ** Which values carry a result *)
Section carries.
Context `{Codec}.

Definition objectCarriesResult (object : fields) : bool :=
  existsb (fun kv => field_matches kv.1 "result") object.

Definition valueCarriesResult (value : json) : bool :=
  match value with
  | JObj object => objectCarriesResult object
  | JArr batch => existsb (fun el => match el with JObj object => objectCarriesResult object | _ => false end) batch
  | _ => false
  end.

Definition carriesResult (data : string) : bool := existsb valueCarriesResult (json_values data).
End carries.

(** [IsBatchRequest]. *)
Definition IsBatchRequest (body : string) : bool :=
  match TrimSpace_bytes body with
  | String c _ => bool_decide (c = "["%char)
  | EmptyString => false
  end.

(** ** What the code relies on *)
Class CodecOk (codec : Codec) : Prop := {
  (** a response has an identifier *)
  decode_id data r : DecodeMessage data = Some (MResponse r) -> rs_ID r <> NoID;
  (** encoders write an object on one line *)
  encode_object m data : EncodeMessage m = Some data -> wire_object data;
  (** a response with an identifier reads back, with its result rewritten by the encoder *)
  encode_read r data :
    EncodeMessage (MResponse r) = Some data -> rs_ID r <> NoID ->
    exists r', DecodeMessage data = Some (MResponse r') /\ rs_ID r' = rs_ID r /\
               rs_Result r' = compact <$> rs_Result r;
  (** an error always encodes, and what it encodes to carries no result *)
  encode_error_ok id e :
    exists data, EncodeMessage (MResponse {| rs_ID := id; rs_Result := None; rs_Error := Some e |}) = Some data /\
      carriesResult data = false /\
      forall m, DecodeMessage data = Some m -> exists r', m = MResponse r' /\ rs_Result r' = None;
  (** there is nothing in an empty body *)
  decode_empty : DecodeMessage "" = None /\ json_values "" = [];
  (** a message with a result has the field *)
  result_carried data r : DecodeMessage data = Some (MResponse r) -> rs_Result r <> None -> carriesResult data = true;
}.
