(* ===== verification/RequestParser.v ===== *)
(** * Parsing MCP requests ([pkg/mcp/parser.go])

    The middleware that parses a request once and keeps what it found in the context.
    A request is its method, path, the headers the code looks at, its body and the
    parsed request of its context.  A [map[string]interface{}] that may be nil is an
    [option fields]; reading a key of a nil map finds nothing. *)

From Stdlib Require Import Ascii.
From S2P Require Import Prelude GoStrings VmcpTypes ParamHeaders EventStream JsonRpc.

Record ParsedMCPRequest := {
  pr_Method : string;
  pr_ID : json;
  pr_Params : option string;
  pr_ResourceID : string;
  pr_Arguments : option fields;
  pr_Meta : option fields;
  pr_MCPMethodHeader : string;
  pr_MCPNameHeader : string;
  pr_ClientInfo : option fields;
  pr_ProtocolVersion : string;
  pr_IsRequest : bool;
  pr_IsBatch : bool;
}.

(** [None] for a body that cannot be read. *)
Record HttpRequest := {
  hr_Method : string;
  hr_Path : string;
  hr_ContentType : string;
  hr_McpMethod : string;
  hr_McpName : string;
  hr_Body : option string;
  hr_Parsed : option ParsedMCPRequest;
}.

(** ** Media types *)

(** [strings.ToLower], as far as the result can be compared with an ASCII constant: the
    two runes outside ASCII whose lower case is an ASCII letter are U+0130 and U+212A. *)
Definition lower_char (c : ascii) : ascii :=
  let n := nat_of_ascii c in if (65 <=? n) && (n <=? 90) then ascii_of_nat (n + 32) else c.

Fixpoint ToLower (s : string) : string :=
  match s with
  | String "196" (String "176" s) => String "i" (ToLower s)
  | String "226" (String "132" (String "170" s)) => String "k" (ToLower s)
  | String c s => String (lower_char c) (ToLower s)
  | EmptyString => EmptyString
  end.

(** What precedes the first semicolon, and the rest. *)
Definition media_base (v : string) : string * string :=
  match Cut ";" v with
  | Some (base, rest) => (base, String ";" rest)
  | None => (v, "")
  end.

(** [mime.ParseMediaType] against a fixed type: the type is right, and the parameters
    after it are well-formed, which is a parameter here. *)
Class MediaParams := media_params_ok : string -> bool.

Definition RequestHasJSONContentType `{MediaParams} (r : HttpRequest) : bool :=
  let (base, rest) := media_base (hr_ContentType r) in
  bool_decide (TrimSpace_bytes (ToLower base) = "application/json") && media_params_ok rest.

(** [strings.HasSuffix]. *)
Definition HasSuffix (s suffix : string) : bool := HasPrefix (backwards s) (backwards suffix).

Definition HTTPSSEEndpoint : string := "/sse".

Definition shouldParseMCPRequest `{MediaParams} (r : HttpRequest) : bool :=
  if negb (bool_decide (hr_Method r = "POST")) then false
  else if negb (RequestHasJSONContentType r) then false
  else negb (HasSuffix (hr_Path r) HTTPSSEEndpoint).

(** ** Reading maps *)
Definition lookup_map (m : option fields) (key : string) : option json :=
  match m with Some m => get key m | None => None end.

(** The type assertions [m[key].(string)] and [m[key].(map[string]interface{})]. *)
Definition as_string (v : option json) : option string :=
  match v with Some (JStr s) => Some s | _ => None end.
Definition as_object (v : option json) : option fields :=
  match v with Some (JObj m) => Some m | _ => None end.

Definition metaKeyProtocolVersion : string := "io.modelcontextprotocol/protocolVersion".
Definition metaKeyClientInfo : string := "io.modelcontextprotocol/clientInfo".

Definition metaFromParamsMap (paramsMap : option fields) : option fields := as_object (lookup_map paramsMap "_meta").

(** Not there, not a string and empty are the same. *)
Definition stringMetaValue (meta : option fields) (key : string) : option string :=
  match lookup_map meta key with
  | Some (JStr s) => if decide (s = "") then None else Some s
  | _ => None
  end.

Definition objectMetaValue (meta : option fields) (key : string) : option fields := as_object (lookup_map meta key).

Definition extractModernMeta (meta : option fields) : option fields * string :=
  (objectMetaValue meta metaKeyClientInfo, default "" (stringMetaValue meta metaKeyProtocolVersion)).

(** ** The handlers of the methods *)
Section handlers.
Context `{Codec}.

Abbreviation method_result := (string * option fields)%type.

Definition handleInitializeMethod (paramsMap : option fields) : method_result :=
  (match as_object (lookup_map paramsMap "clientInfo") with
   | Some clientInfo => default "" (as_string (get "name" clientInfo))
   | None => ""
   end, paramsMap).

Definition handleNamedResourceMethod (paramsMap : option fields) : method_result :=
  (default "" (as_string (lookup_map paramsMap "name")), as_object (lookup_map paramsMap "arguments")).

(** The handlers that take a string and no arguments: resource reads, subscriptions,
    log levels and notification messages. *)
Definition handle_key (key : string) (paramsMap : option fields) : method_result :=
  (default "" (as_string (lookup_map paramsMap key)), None).

Definition handleResourceReadMethod : option fields -> method_result := handle_key "uri".
Definition handleResourceSubscribeMethod : option fields -> method_result := handle_key "uri".
Definition handleResourceUnsubscribeMethod : option fields -> method_result := handle_key "uri".
Definition handleListMethod : option fields -> method_result := handle_key "cursor".
Definition handleNotificationMethod : option fields -> method_result := handle_key "method".
Definition handleLoggingMethod : option fields -> method_result := handle_key "level".

Definition handleCompletionMethod (paramsMap : option fields) : method_result :=
  (match lookup_map paramsMap "ref" with
   | Some (JObj ref) =>
       match as_string (get "name" ref) with
       | Some name => name
       | None => default "" (as_string (get "uri" ref))
       end
   | Some (JStr ref) => ref
   | _ => ""
   end, paramsMap).

Definition handleElicitationMethod (paramsMap : option fields) : method_result :=
  (default "" (as_string (lookup_map paramsMap "message")), paramsMap).

Definition handleElicitationCompleteNotificationMethod (paramsMap : option fields) : method_result :=
  (default "" (as_string (lookup_map paramsMap "elicitationId")), paramsMap).

(** A string that is there and not empty. *)
Definition non_empty (v : option string) : option string :=
  match v with Some s => if decide (s = "") then None else Some s | None => None end.

Definition handleSamplingMethod (paramsMap : option fields) : method_result :=
  let from_prefs :=
    match as_object (lookup_map paramsMap "modelPreferences") with
    | None => None
    | Some modelPrefs =>
        match non_empty (as_string (get "name" modelPrefs)) with
        | Some name => Some name
        | None =>
            match get "hints" modelPrefs with
            | Some (JArr (JObj hint :: _)) => non_empty (as_string (get "name" hint))
            | _ => None
            end
        end
    end in
  (match from_prefs with
   | Some name => name
   | None =>
       match non_empty (as_string (lookup_map paramsMap "systemPrompt")) with
       | Some systemPrompt =>
           if 50 <? String.length systemPrompt then String.substring 0 50 systemPrompt else systemPrompt
       | None => ""
       end
   end, paramsMap).

(** A string, or a number written without decimals. *)
Definition token_text (v : option json) : string :=
  match v with
  | Some (JStr s) => s
  | Some (JNum n) => fmt_d n
  | Some (JFloat f) => FormatFloat f
  | _ => ""
  end.

Definition handleProgressNotificationMethod (paramsMap : option fields) : method_result :=
  (token_text (lookup_map paramsMap "progressToken"), paramsMap).
Definition handleCancelledNotificationMethod (paramsMap : option fields) : method_result :=
  (token_text (lookup_map paramsMap "requestId"), paramsMap).
Definition handleTaskIDMethod (paramsMap : option fields) : method_result :=
  (token_text (lookup_map paramsMap "taskId"), None).
Definition handleTaskStatusNotificationMethod (paramsMap : option fields) : method_result :=
  (token_text (lookup_map paramsMap "taskId"), paramsMap).

Definition methodHandlers : gmap string (option fields -> method_result) :=
  list_to_map
    [("initialize", handleInitializeMethod);
     ("tools/call", handleNamedResourceMethod);
     ("prompts/get", handleNamedResourceMethod);
     ("resources/read", handleResourceReadMethod);
     ("resources/list", handleListMethod);
     ("tools/list", handleListMethod);
     ("prompts/list", handleListMethod);
     ("notifications/message", handleNotificationMethod);
     ("logging/setLevel", handleLoggingMethod);
     ("completion/complete", handleCompletionMethod);
     ("elicitation/create", handleElicitationMethod);
     ("sampling/createMessage", handleSamplingMethod);
     ("resources/subscribe", handleResourceSubscribeMethod);
     ("resources/unsubscribe", handleResourceUnsubscribeMethod);
     ("resources/templates/list", handleListMethod);
     ("roots/list", handleListMethod);
     ("notifications/progress", handleProgressNotificationMethod);
     ("notifications/cancelled", handleCancelledNotificationMethod);
     ("tasks/list", handleListMethod);
     ("tasks/get", handleTaskIDMethod);
     ("tasks/cancel", handleTaskIDMethod);
     ("tasks/result", handleTaskIDMethod);
     ("notifications/tasks/status", handleTaskStatusNotificationMethod);
     ("notifications/elicitation/complete", handleElicitationCompleteNotificationMethod)].

Definition staticResourceIDs : gmap string string :=
  list_to_map
    [("ping", "ping");
     ("notifications/roots/list_changed", "roots");
     ("notifications/initialized", "initialized");
     ("notifications/prompts/list_changed", "prompts");
     ("notifications/resources/list_changed", "resources");
     ("notifications/resources/updated", "resources");
     ("notifications/tools/list_changed", "tools");
     ("server/discover", "discover")].

Definition getStaticResourceID (method : string) : string := default "" (staticResourceIDs !! method).

Definition processMethodWithHandler (method : string) (paramsMap : option fields) : method_result :=
  match methodHandlers !! method with
  | Some handler => handler paramsMap
  | None => (getStaticResourceID method, None)
  end.

Definition extractResourceAndArguments (method : string) (params : option string)
    : string * option fields * option fields :=
  match params with
  | None => (getStaticResourceID method, None, None)
  | Some params =>
      match UnmarshalMap params with
      | None => (getStaticResourceID method, None, None)
      | Some paramsMap =>
          (processMethodWithHandler method paramsMap, metaFromParamsMap paramsMap)
      end
  end.

(** ** The middleware *)
Definition parseMCPRequest (body : string) : option ParsedMCPRequest :=
  if decide (body = "") then None
  else
    match DecodeMessage body with
    | Some (MRequest req) =>
        let '(resourceID, arguments, meta) := extractResourceAndArguments (rq_Method req) (rq_Params req) in
        let (clientInfo, protocolVersion) := extractModernMeta meta in
        Some {| pr_Method := rq_Method req; pr_ID := raw_id (rq_ID req); pr_Params := rq_Params req;
                pr_ResourceID := resourceID; pr_Arguments := arguments; pr_Meta := meta;
                pr_MCPMethodHeader := ""; pr_MCPNameHeader := "";
                pr_ClientInfo := clientInfo; pr_ProtocolVersion := protocolVersion;
                pr_IsRequest := true; pr_IsBatch := false |}
    | _ => None
    end.

Definition with_headers (r : HttpRequest) (p : ParsedMCPRequest) : ParsedMCPRequest :=
  {| pr_Method := pr_Method p; pr_ID := pr_ID p; pr_Params := pr_Params p; pr_ResourceID := pr_ResourceID p;
     pr_Arguments := pr_Arguments p; pr_Meta := pr_Meta p;
     pr_MCPMethodHeader := hr_McpMethod r; pr_MCPNameHeader := hr_McpName r;
     pr_ClientInfo := pr_ClientInfo p; pr_ProtocolVersion := pr_ProtocolVersion p;
     pr_IsRequest := pr_IsRequest p; pr_IsBatch := pr_IsBatch p |}.

Definition with_parsed (r : HttpRequest) (p : ParsedMCPRequest) : HttpRequest :=
  {| hr_Method := hr_Method r; hr_Path := hr_Path r; hr_ContentType := hr_ContentType r;
     hr_McpMethod := hr_McpMethod r; hr_McpName := hr_McpName r; hr_Body := hr_Body r; hr_Parsed := Some p |}.

(** The request goes to the next handler, or a batch is refused. *)
Inductive parse_outcome :=
  | Forward (r : HttpRequest)
  | BatchUnsupported.

Context `{MediaParams}.

Definition ParsingMiddleware (r : HttpRequest) : parse_outcome :=
  match hr_Parsed r with
  | Some _ => Forward r
  | None =>
      if negb (shouldParseMCPRequest r) then Forward r
      else
        match hr_Body r with
        | None => Forward r
        | Some body =>
            if IsBatchRequest body then BatchUnsupported
            else
              match parseMCPRequest body with
              | Some parsed => Forward (with_parsed r (with_headers r parsed))
              | None => Forward r
              end
        end
  end.

(** The error of [RepublishParsedMCPRequest]: the new body is a batch, or no request. *)
Inductive republish_error := RepublishBatch | RepublishInvalid.

Definition RepublishParsedMCPRequest (r : HttpRequest) (body : string) : republish_error + HttpRequest :=
  if IsBatchRequest body then inl RepublishBatch
  else
    match parseMCPRequest body with
    | None => inl RepublishInvalid
    | Some parsed => inr (with_parsed r (with_headers r parsed))
    end.
End handlers.

(** ** Reading a map that was filtered *)
Lemma get_filter (P : string -> Prop) `{forall k, Decision (P k)} key (m : fields) :
  get key (filter (fun kv => P kv.1) m) = if decide (P key) then get key m else None.
Proof.
  unfold fields in *. change (get key (filter (fun kv => P kv.1) m)) with
    (match filter (fun kv => kv.1 = key) (filter (fun kv => P kv.1) m) with (_, v) :: _ => Some v | [] => None end).
  rewrite list_filter_filter. case_decide as E.
  - unfold get. rewrite (list_filter_iff _ (fun kv : string * json => kv.1 = key) m); [done|]. intros [k v]. cbn [fst]. naive_solver.
  - rewrite (list_filter_iff _ (fun _ => False) m) by naive_solver. by induction m.
Qed.
