(* ===== verification/AuthzLists.v ===== *)
(** * Filtering the results of list operations ([pkg/authz/annotation_cache.go],
    [pkg/authz/tool_filter.go] and the list filters of [pkg/authz/response_filter.go])

    A successful answer to a list operation shows only what the caller may use.  The
    filter decodes the result, asks the authorizer about every item, and encodes what
    is left.  On the way it remembers the annotations of the tools it saw, which later
    calls are decided with.

    The types of the MCP library keep what the code looks at, and the rest of an item
    as one value; their decoding is the parameter [McpCodec], with [McpCodecOk] for what
    the filter relies on. *)

From Stdlib Require Import Ascii.
From S2P Require Import Prelude VmcpTypes SessionBinding ParamHeaders Admission EventStream JsonRpc.

(** ** The MCP types *)
Record mcpTool := {
  mt_Name : string;
  mt_Annotations : ToolAnnotations;
  mt_Rest : json;
}.

Record mcpPrompt := { mp_Name : string; mp_Rest : json }.
Record mcpResource := { mr_URI : string; mr_Rest : json }.

Record ListToolsResult := { lt_Paginated : json; lt_Tools : list mcpTool }.
Record ListPromptsResult := { lp_Paginated : json; lp_Prompts : list mcpPrompt }.
Record ListResourcesResult := { lr_Paginated : json; lr_Resources : list mcpResource }.

(** A text item with its type and what else it carries, or another kind of content. *)
Inductive mcpContent :=
  | TextContent (type text : string) (rest : json)
  | OtherContent (value : json).

Record CallToolResult := {
  cr_Content : list mcpContent;
  cr_StructuredContent : json;
  cr_IsError : bool;
  cr_Rest : json;
}.

Record FindToolOutput := { fo_Tools : list mcpTool; fo_TokenMetrics : json }.

Definition zeroFindToolOutput : FindToolOutput := {| fo_Tools := []; fo_TokenMetrics := JNull |}.

Class McpCodec := {
  UnmarshalListTools : string -> option ListToolsResult;
  MarshalListTools : ListToolsResult -> option string;
  UnmarshalListPrompts : string -> option ListPromptsResult;
  MarshalListPrompts : ListPromptsResult -> option string;
  UnmarshalListResources : string -> option ListResourcesResult;
  MarshalListResources : ListResourcesResult -> option string;
  UnmarshalCallResult : string -> option CallToolResult;
  MarshalCallResult : CallToolResult -> option string;
  (** decodes into a variable that holds a value already: whether it succeeds, and what
      the variable holds then *)
  UnmarshalFindTool : FindToolOutput -> string -> bool * FindToolOutput;
  MarshalFindTool : FindToolOutput -> option string;
}.

(** ** The annotation cache; [None] is a nil cache *)
Abbreviation AnnotationCache := (gmap string AuthzAnnotations).

Definition NewAnnotationCache : AnnotationCache := ∅.

Definition AnnotationCache_Get (c : option AnnotationCache) (toolName : string) : option AuthzAnnotations :=
  match c with None => None | Some c => c !! toolName end.

Definition AnnotationCache_Set (c : option AnnotationCache) (toolName : string) (annotations : AuthzAnnotations)
    : option AnnotationCache :=
  match c with None => None | Some c => Some (<[toolName := annotations]> c) end.

Definition hasAnyHint (ann : ToolAnnotations) : bool :=
  bool_decide (is_Some (ann_ReadOnlyHint ann)) || bool_decide (is_Some (ann_DestructiveHint ann)) ||
  bool_decide (is_Some (ann_IdempotentHint ann)) || bool_decide (is_Some (ann_OpenWorldHint ann)).

Definition convertMCPAnnotation (ann : ToolAnnotations) : AuthzAnnotations :=
  {| az_ReadOnlyHint := ann_ReadOnlyHint ann; az_DestructiveHint := ann_DestructiveHint ann;
     az_IdempotentHint := ann_IdempotentHint ann; az_OpenWorldHint := ann_OpenWorldHint ann |}.

Definition SetFromToolsList (c : option AnnotationCache) (tools : list mcpTool) : option AnnotationCache :=
  match c with
  | None => None
  | Some _ =>
      Some (foldl (fun newTools t =>
        if negb (hasAnyHint (mt_Annotations t)) then newTools
        else <[mt_Name t := convertMCPAnnotation (mt_Annotations t)]> newTools) ∅ tools)
  end.

(** ** The context of a request, as far as an authorizer sees it *)
Record authz_context := {
  ac_Identity : option Identity;
  ac_Annotations : option AuthzAnnotations;
}.

Definition WithToolAnnotations (ctx : authz_context) (ann : AuthzAnnotations) : authz_context :=
  {| ac_Identity := ac_Identity ctx; ac_Annotations := Some ann |}.

Definition AuthorizeWithJWTClaims (a : Authorizer) (ctx : authz_context) : MCPFeature -> MCPOperation -> string ->
    option fields -> option bool := a (ac_Identity ctx) (ac_Annotations ctx).

(** ** Filtering tools; a nil authorizer filters nothing *)
Definition authorizeToolCall (ctx : authz_context) (a : option Authorizer) (toolName : string) (arguments : option fields)
    : option bool :=
  match a with
  | None => Some true
  | Some a => AuthorizeWithJWTClaims a ctx MCPFeatureTool MCPOperationCall toolName arguments
  end.

Definition tool_context (ctx : authz_context) (t : mcpTool) : authz_context :=
  if hasAnyHint (mt_Annotations t) then WithToolAnnotations ctx (convertMCPAnnotation (mt_Annotations t)) else ctx.

Definition filterToolsByPolicy (ctx : authz_context) (a : option Authorizer) (tools : list mcpTool) : list mcpTool :=
  match a with
  | None => tools
  | Some _ =>
      filter (fun t => authorizeToolCall (tool_context ctx t) a (mt_Name t) None = Some true) tools
  end.

(** ** The list filters of one request *)
Section filters.
Context `{Codec} `{McpCodec}.
Context (authorizer : Authorizer) (ctx : authz_context) (passThroughTools : gset string).

(** The response to send, or an error, and the cache. *)
Definition filter_result : Type := option RpcResponse * option AnnotationCache.

Definition with_result (response : RpcResponse) (data : option string) : option RpcResponse :=
  match data with
  | None => None
  | Some data => Some {| rs_ID := rs_ID response; rs_Result := Some data; rs_Error := None |}
  end.

Definition filterToolsResponse (cache : option AnnotationCache) (response : RpcResponse) (result : string) : filter_result :=
  match UnmarshalListTools result with
  | None => (Some response, cache)
  | Some listResult =>
      let cache := SetFromToolsList cache (lt_Tools listResult) in
      let passThrough := filter (fun t => mt_Name t ∈ passThroughTools) (lt_Tools listResult) in
      let regular := filter (fun t => mt_Name t ∉ passThroughTools) (lt_Tools listResult) in
      let policyFiltered := filterToolsByPolicy ctx (Some authorizer) regular in
      (with_result response (MarshalListTools {| lt_Paginated := lt_Paginated listResult;
                                                 lt_Tools := passThrough ++ policyFiltered |}), cache)
  end.

Definition filterPromptsResponse (response : RpcResponse) (result : string) : option RpcResponse :=
  match UnmarshalListPrompts result with
  | None => Some response
  | Some listResult =>
      with_result response (MarshalListPrompts {|
        lp_Paginated := lp_Paginated listResult;
        lp_Prompts := filter (fun p =>
          AuthorizeWithJWTClaims authorizer ctx MCPFeaturePrompt MCPOperationGet (mp_Name p) None = Some true)
          (lp_Prompts listResult) |})
  end.

Definition filterResourcesResponse (response : RpcResponse) (result : string) : option RpcResponse :=
  match UnmarshalListResources result with
  | None => Some response
  | Some listResult =>
      with_result response (MarshalListResources {|
        lr_Paginated := lr_Paginated listResult;
        lr_Resources := filter (fun r =>
          AuthorizeWithJWTClaims authorizer ctx MCPFeatureResource MCPOperationRead (mr_URI r) None = Some true)
          (lr_Resources listResult) |})
  end.

(** The first text item that decodes, with what has been decoded into [output] before. *)
Fixpoint find_output (output : FindToolOutput) (content : list mcpContent)
    : option (nat * string * FindToolOutput) :=
  match content with
  | [] => None
  | TextContent type text _ :: content =>
      match UnmarshalFindTool output text with
      | (true, output) => Some (0, type, output)
      | (false, output) =>
          match find_output output content with
          | Some (i, type, output) => Some (S i, type, output)
          | None => None
          end
      end
  | OtherContent _ :: content =>
      match find_output output content with
      | Some (i, type, output) => Some (S i, type, output)
      | None => None
      end
  end.

Definition filterFindToolResponse (cache : option AnnotationCache) (response : RpcResponse) (result : string) : filter_result :=
  match UnmarshalCallResult result with
  | None => (Some response, cache)
  | Some callResult =>
      if cr_IsError callResult then (Some response, cache)
      else
        match find_output zeroFindToolOutput (cr_Content callResult) with
        | None => (Some response, cache)
        | Some (textIdx, type, output) =>
            let cache := SetFromToolsList cache (fo_Tools output) in
            let output := {| fo_Tools := filterToolsByPolicy ctx (Some authorizer) (fo_Tools output);
                             fo_TokenMetrics := fo_TokenMetrics output |} in
            match MarshalFindTool output with
            | None => (None, cache)
            | Some filteredText =>
                (with_result response (MarshalCallResult {|
                   cr_Content := <[textIdx := TextContent type filteredText JNull]> (cr_Content callResult);
                   cr_StructuredContent := cr_StructuredContent callResult;
                   cr_IsError := cr_IsError callResult; cr_Rest := cr_Rest callResult |}), cache)
            end
        end
  end.

Definition FindToolName : string := "find_tool".

Definition requiresResponseFiltering (method : string) : bool :=
  bool_decide (method = "tools/list") || bool_decide (method = "prompts/list") ||
  bool_decide (method = "resources/list") || bool_decide (method = FindToolName).

Definition filterListResponse (method : string) (cache : option AnnotationCache) (response : RpcResponse) : filter_result :=
  match rs_Error response, rs_Result response with
  | Some _, Some result =>
      if decide (TrimSpace_bytes result = "null") then (Some response, cache) else (None, cache)
  | Some _, None => (Some response, cache)
  | None, None => (Some response, cache)
  | None, Some result =>
      if decide (method = "tools/list") then filterToolsResponse cache response result
      else if decide (method = "prompts/list") then (filterPromptsResponse response result, cache)
      else if decide (method = "resources/list") then (filterResourcesResponse response result, cache)
      else if decide (method = FindToolName) then filterFindToolResponse cache response result
      else (Some response, cache)
  end.
End filters.

(** ** What the filter relies on *)
Definition tool_key (t : mcpTool) : string * ToolAnnotations := (mt_Name t, mt_Annotations t).

Class McpCodecOk (codec : Codec) (mcp : McpCodec) : Prop := {
  (** what an encoder does to the bytes of a result does not change what they decode to *)
  compact_tools data : UnmarshalListTools (compact data) = UnmarshalListTools data;
  compact_prompts data : UnmarshalListPrompts (compact data) = UnmarshalListPrompts data;
  compact_resources data : UnmarshalListResources (compact data) = UnmarshalListResources data;
  compact_call data : UnmarshalCallResult (compact data) = UnmarshalCallResult data;
  (** a list that was encoded decodes to the same items *)
  tools_read l data l' :
    MarshalListTools l = Some data -> UnmarshalListTools data = Some l' ->
    tool_key <$> lt_Tools l' = tool_key <$> lt_Tools l;
  prompts_read l data l' :
    MarshalListPrompts l = Some data -> UnmarshalListPrompts data = Some l' ->
    mp_Name <$> lp_Prompts l' = mp_Name <$> lp_Prompts l;
  resources_read l data l' :
    MarshalListResources l = Some data -> UnmarshalListResources data = Some l' ->
    mr_URI <$> lr_Resources l' = mr_URI <$> lr_Resources l;
  call_read c data c' :
    MarshalCallResult c = Some data -> UnmarshalCallResult data = Some c' ->
    cr_Content c' = cr_Content c /\ cr_StructuredContent c' = cr_StructuredContent c /\ cr_IsError c' = cr_IsError c;
  find_read o data prev : MarshalFindTool o = Some data ->
    exists o', UnmarshalFindTool prev data = (true, o') /\ tool_key <$> fo_Tools o' = tool_key <$> fo_Tools o;
  (** a null result is an empty list *)
  null_tools data l : TrimSpace_bytes data = "null" -> UnmarshalListTools data = Some l -> lt_Tools l = [];
  null_prompts data l : TrimSpace_bytes data = "null" -> UnmarshalListPrompts data = Some l -> lp_Prompts l = [];
  null_resources data l : TrimSpace_bytes data = "null" -> UnmarshalListResources data = Some l -> lr_Resources l = [];
  null_call data c : TrimSpace_bytes data = "null" -> UnmarshalCallResult data = Some c -> cr_Content c = [];
}.

(** ** What a caller may see *)
Section allowed.
Context `{McpCodec}.
Context (authorizer : Authorizer) (ctx : authz_context) (passThroughTools : gset string).

(** The decision a call of the tool without arguments gets. *)
Definition may_call (t : mcpTool) : Prop :=
  AuthorizeWithJWTClaims authorizer (tool_context ctx t) MCPFeatureTool MCPOperationCall (mt_Name t) None = Some true.

Definition may_list (t : mcpTool) : Prop := mt_Name t ∈ passThroughTools \/ may_call t.

Definition may_get (p : mcpPrompt) : Prop :=
  AuthorizeWithJWTClaims authorizer ctx MCPFeaturePrompt MCPOperationGet (mp_Name p) None = Some true.

Definition may_read (r : mcpResource) : Prop :=
  AuthorizeWithJWTClaims authorizer ctx MCPFeatureResource MCPOperationRead (mr_URI r) None = Some true.

(** Everything that a reader of the result finds in it as a list is allowed. *)
Definition shows_allowed (method result : string) : Prop :=
  (method = "tools/list" -> forall l, UnmarshalListTools result = Some l -> Forall may_list (lt_Tools l)) /\
  (method = "prompts/list" -> forall l, UnmarshalListPrompts result = Some l -> Forall may_get (lp_Prompts l)) /\
  (method = "resources/list" -> forall l, UnmarshalListResources result = Some l -> Forall may_read (lr_Resources l)) /\
  (method = FindToolName -> forall c i type o, UnmarshalCallResult result = Some c -> cr_IsError c = false ->
     find_output zeroFindToolOutput (cr_Content c) = Some (i, type, o) -> Forall may_call (fo_Tools o)).

(** The decisions look at the key of an item only. *)
Lemma Forall_key {A B} (key : A -> B) (P : A -> Prop) (l l' : list A) :
  (forall x y, key x = key y -> P x -> P y) -> key <$> l' = key <$> l -> Forall P l -> Forall P l'.
Proof.
  intros HP E Hl. revert l' E. induction Hl as [|x l Hx Hl IH]; intros [|y l'] E; try done.
  injection E as E1 E2. constructor; [by apply (HP x)|by apply IH].
Qed.

Lemma may_call_key t u : tool_key t = tool_key u -> may_call t -> may_call u.
Proof. unfold may_call, tool_context. by intros [= -> ->]. Qed.

Lemma may_list_key t u : tool_key t = tool_key u -> may_list t -> may_list u.
Proof. intros E [Hp|Hc]; [left|right]; [|by apply (may_call_key t)]. by injection E as <- _. Qed.

Lemma filterToolsByPolicy_allowed tools : Forall may_call (filterToolsByPolicy ctx (Some authorizer) tools).
Proof. apply Forall_forall. intros t [Ht _]%list_elem_of_filter. exact Ht. Qed.

Context `{cdc : Codec} {ok : McpCodecOk cdc _}.

Lemma insert_cons_S {A} (x y : A) i l : <[S i := x]> (y :: l) = y :: <[i := x]> l.
Proof. done. Qed.

Lemma find_output_replaced prev content i type o o2 text :
  find_output prev content = Some (i, type, o) -> MarshalFindTool o2 = Some text ->
  exists o', find_output prev (<[i := TextContent type text JNull]> content) = Some (i, type, o') /\
             tool_key <$> fo_Tools o' = tool_key <$> fo_Tools o2.
Proof.
  intros Hf Hm. revert prev i Hf. induction content as [|[ty tx rest|v] content IH]; intros prev i; cbn [find_output]; [done| |].
  - destruct (UnmarshalFindTool prev tx) as [[] out] eqn:E.
    + intros [= <- -> ->]. destruct (find_read o2 text prev Hm) as (o' & Er & Ho). exists o'.
      cbn [insert list_insert find_output]. by rewrite Er.
    + destruct (find_output out content) as [[[j ty'] o3]|] eqn:Ef; [|done]. intros [= <- -> ->].
      destruct (IH out j Ef) as (o' & E' & Ho). exists o'.
      rewrite insert_cons_S. cbn [find_output]. by rewrite E, E'.
  - destruct (find_output prev content) as [[[j ty'] o3]|] eqn:Ef; [|done]. intros [= <- -> ->].
    destruct (IH prev j Ef) as (o' & E' & Ho). exists o'.
    rewrite insert_cons_S. cbn [find_output]. by rewrite E'.
Qed.

Lemma shows_allowed_compact method result : shows_allowed method result -> shows_allowed method (compact result).
Proof.
  unfold shows_allowed. by rewrite compact_tools, compact_prompts, compact_resources, compact_call.
Qed.

Lemma shows_allowed_null method result : TrimSpace_bytes result = "null" -> shows_allowed method result.
Proof.
  intros Hn. split_and!.
  - intros _ l El. by rewrite (null_tools _ _ Hn El).
  - intros _ l El. by rewrite (null_prompts _ _ Hn El).
  - intros _ l El. by rewrite (null_resources _ _ Hn El).
  - intros _ c i type o Ec _. by rewrite (null_call _ _ Hn Ec).
Qed.

(** What each filter shows, whatever it was given. *)
Lemma filterToolsResponse_allowed cache response result response' cache' data :
  rs_Result response = Some result ->
  filterToolsResponse authorizer ctx passThroughTools cache response result = (Some response', cache') ->
  rs_ID response' = rs_ID response /\
  (rs_Result response' = Some data -> forall l, UnmarshalListTools data = Some l -> Forall may_list (lt_Tools l)).
Proof.
  intros Hr. unfold filterToolsResponse. destruct (UnmarshalListTools result) as [listResult|] eqn:El.
  2:{ intros [= <- <-]. split; [done|]. rewrite Hr. by intros [= ->]; rewrite El. }
  unfold with_result. destruct (MarshalListTools _) as [out|] eqn:Em; [|done]. intros [= <- _]. split; [done|].
  intros [= <-] l Hl. apply (Forall_key tool_key _ _ _ may_list_key (tools_read _ _ _ Em Hl)). cbn [lt_Tools].
  apply Forall_app. split; apply Forall_forall.
  - intros t [Ht _]%list_elem_of_filter. by left.
  - intros t Ht. right. by apply (proj1 (Forall_forall _ _) (filterToolsByPolicy_allowed _) t Ht).
Qed.

Lemma filterPromptsResponse_allowed response result response' data :
  rs_Result response = Some result -> filterPromptsResponse authorizer ctx response result = Some response' ->
  rs_ID response' = rs_ID response /\
  (rs_Result response' = Some data -> forall l, UnmarshalListPrompts data = Some l -> Forall may_get (lp_Prompts l)).
Proof.
  intros Hr. unfold filterPromptsResponse. destruct (UnmarshalListPrompts result) as [listResult|] eqn:El.
  2:{ intros [= <-]. split; [done|]. rewrite Hr. by intros [= ->]; rewrite El. }
  unfold with_result. destruct (MarshalListPrompts _) as [out|] eqn:Em; [|done]. intros [= <-]. split; [done|].
  intros [= <-] l Hl. refine (Forall_key mp_Name _ _ _ _ (prompts_read _ _ _ Em Hl) _).
  - unfold may_get. by intros x y ->.
  - apply Forall_forall. by intros p [Hp _]%list_elem_of_filter.
Qed.

Lemma filterResourcesResponse_allowed response result response' data :
  rs_Result response = Some result -> filterResourcesResponse authorizer ctx response result = Some response' ->
  rs_ID response' = rs_ID response /\
  (rs_Result response' = Some data -> forall l, UnmarshalListResources data = Some l -> Forall may_read (lr_Resources l)).
Proof.
  intros Hr. unfold filterResourcesResponse. destruct (UnmarshalListResources result) as [listResult|] eqn:El.
  2:{ intros [= <-]. split; [done|]. rewrite Hr. by intros [= ->]; rewrite El. }
  unfold with_result. destruct (MarshalListResources _) as [out|] eqn:Em; [|done]. intros [= <-]. split; [done|].
  intros [= <-] l Hl. refine (Forall_key mr_URI _ _ _ _ (resources_read _ _ _ Em Hl) _).
  - unfold may_read. by intros x y ->.
  - apply Forall_forall. by intros r [Hp _]%list_elem_of_filter.
Qed.

Lemma filterFindToolResponse_allowed cache response result response' cache' data :
  rs_Result response = Some result ->
  filterFindToolResponse authorizer ctx cache response result = (Some response', cache') ->
  rs_ID response' = rs_ID response /\
  (rs_Result response' = Some data -> forall c i type o, UnmarshalCallResult data = Some c -> cr_IsError c = false ->
   find_output zeroFindToolOutput (cr_Content c) = Some (i, type, o) -> Forall may_call (fo_Tools o)).
Proof.
  intros Hr. unfold filterFindToolResponse. destruct (UnmarshalCallResult result) as [call|] eqn:Ec.
  2:{ intros [= <- <-]. split; [done|]. rewrite Hr. by intros [= ->]; rewrite Ec. }
  destruct (cr_IsError call) eqn:Ee.
  { intros [= <- <-]. split; [done|]. rewrite Hr. intros [= ->] ?????. congruence. }
  destruct (find_output _ _) as [[[i type] output]|] eqn:Ef.
  2:{ intros [= <- <-]. split; [done|]. rewrite Hr. intros [= ->] ?????. congruence. }
  destruct (MarshalFindTool _) as [text|] eqn:Em; [|done].
  unfold with_result. destruct (MarshalCallResult _) as [out|] eqn:Eo; [|done]. intros [= <- _]. split; [done|].
  intros [= <-] c j ty o Hc _ Ho. destruct (call_read _ _ _ Eo Hc) as (Econt & _ & _). cbn [cr_Content] in Econt.
  rewrite Econt in Ho. destruct (find_output_replaced _ _ _ _ _ _ _ Ef Em) as (o' & Ef' & Hk).
  rewrite Ef' in Ho. injection Ho as <- <- <-.
  apply (Forall_key tool_key _ _ _ may_call_key Hk), filterToolsByPolicy_allowed.
Qed.

Lemma filterListResponse_allowed method cache response response' cache' data :
  filterListResponse authorizer ctx passThroughTools method cache response = (Some response', cache') ->
  rs_ID response' = rs_ID response /\ (rs_Result response' = Some data -> shows_allowed method data).
Proof.
  unfold filterListResponse. destruct (rs_Error response) eqn:Ee, (rs_Result response) as [result|] eqn:Er.
  - case_decide; [|done]. intros [= <- <-]. split; [done|]. rewrite Er. intros [= ->]. by apply shows_allowed_null.
  - intros [= <- <-]. split; [done|]. by rewrite Er.
  - case_decide as E1; [|case_decide as E2; [|case_decide as E3; [|case_decide as E4]]].
    + intros Hf. destruct (filterToolsResponse_allowed _ _ _ _ _ data Er Hf) as [Hid Hd]. split; [done|].
      intros Hs. subst method. split_and!; try done. intros _. by apply Hd.
    + intros [= Hf <-]. destruct (filterPromptsResponse_allowed _ _ _ data Er Hf) as [Hid Hd]. split; [done|].
      intros Hs. subst method. split_and!; try done. intros _. by apply Hd.
    + intros [= Hf <-]. destruct (filterResourcesResponse_allowed _ _ _ data Er Hf) as [Hid Hd]. split; [done|].
      intros Hs. subst method. split_and!; try done. intros _. by apply Hd.
    + intros Hf. destruct (filterFindToolResponse_allowed _ _ _ _ _ data Er Hf) as [Hid Hd]. split; [done|].
      intros Hs. subst method. split_and!; try done. intros _. by apply Hd.
    + intros [= <- <-]. split; [done|]. intros _. by split_and!.
  - intros [= <- <-]. split; [done|]. by rewrite Er.
Qed.
End allowed.
