(* ===== verification/SampleCodec.v ===== *)
(** * A small wire format

    A codec for JSON-RPC messages and MCP results with which the statements about the
    proxy's filters are evaluated: fields are written in base64 and separated by
    semicolons, in braces.  It meets what the filters rely on. *)

From Stdlib Require Import Ascii.
From S2P Require Import Prelude GoStrings Base64 VmcpTypes SessionBinding ParamHeaders Admission EventStream JsonRpc AuthzLists.

(** ** Fields *)
Fixpoint enc_bits (p : positive) : string :=
  match p with
  | xH => "."
  | xO p => String "0" (enc_bits p)
  | xI p => String "1" (enc_bits p)
  end.

Fixpoint dec_bits (s : string) : option positive :=
  match s with
  | String "." "" => Some xH
  | String "0" s => xO <$> dec_bits s
  | String "1" s => xI <$> dec_bits s
  | _ => None
  end.

Definition enc_Z (n : Z) : string :=
  match n with Z0 => "z" | Zpos p => String "p" (enc_bits p) | Zneg p => String "m" (enc_bits p) end.

Definition dec_Z (s : string) : option Z :=
  match s with
  | String "z" "" => Some 0%Z
  | String "p" s => Zpos <$> dec_bits s
  | String "m" s => Zneg <$> dec_bits s
  | _ => None
  end.

Definition enc_opt (o : option string) : string :=
  match o with None => "." | Some s => String "+" (EncodeToString s) end.

Definition dec_opt (s : string) : option (option string) :=
  match s with
  | String "." "" => Some None
  | String "+" s => Some <$> DecodeString s
  | _ => None
  end.

Definition enc_id (id : rpc_id) : string :=
  match id with NoID => "n" | StringID s => String "s" (EncodeToString s) | Int64ID n => String "i" (enc_Z n) end.

Definition dec_id (s : string) : option rpc_id :=
  match s with
  | String "n" "" => Some NoID
  | String "s" s => StringID <$> DecodeString s
  | String "i" s => Int64ID <$> dec_Z s
  | _ => None
  end.

Definition enc_error (e : option rpc_error) : string :=
  match e with
  | None => "."
  | Some e => enc_Z (re_Code e) +:+ String ":" (EncodeToString (re_Message e))
  end.

Definition dec_error (s : string) : option (option rpc_error) :=
  match s with
  | String "." "" => Some None
  | _ =>
      match Cut ":" s with
      | Some (code, text) =>
          match dec_Z code, DecodeString text with
          | Some code, Some text => Some (Some {| re_Code := code; re_Message := text |})
          | _, _ => None
          end
      | None => None
      end
  end.

(** ** Frames *)
Definition frame (fields : list string) : string := String "{" (Join ";" fields +:+ "}").

Definition unframe (s : string) : option (list string) :=
  match s with
  | String "{" s => match Cut "}" s with Some (body, "") => Some (Split ";" body) | _ => None end
  | _ => None
  end.

Definition message_fields (m : message) : list string :=
  match m with
  | MRequest r => ["Q"; enc_id (rq_ID r); EncodeToString (rq_Method r); enc_opt (rq_Params r)]
  | MResponse r => ["R"; enc_id (rs_ID r); enc_opt (rs_Result r); enc_error (rs_Error r)]
  end.

Definition sample_encode (m : message) : string := frame (message_fields m).

Definition parse_frame (s : string) : option message :=
  match unframe s with
  | Some [tag; id; x; y] =>
      if decide (tag = "Q") then
        match dec_id id, DecodeString x, dec_opt y with
        | Some id, Some method, Some params => Some (MRequest {| rq_ID := id; rq_Method := method; rq_Params := params |})
        | _, _, _ => None
        end
      else
        match dec_id id, dec_opt x, dec_error y with
        | Some id, Some result, Some e => Some (MResponse {| rs_ID := id; rs_Result := result; rs_Error := e |})
        | _, _, _ => None
        end
  | _ => None
  end.

(** A response needs an identifier. *)
Definition sample_decode (s : string) : option message :=
  match parse_frame s with
  | Some (MResponse {| rs_ID := NoID |}) => None
  | m => m
  end.

Definition message_value (m : message) : json :=
  match m with
  | MResponse {| rs_Result := Some result |} => JObj [("result", JStr result)]
  | _ => JObj []
  end.

(** The messages on the lines of a text, up to the first that is none. *)
Fixpoint line_values (lines : list string) : list json :=
  match lines with
  | [] => []
  | line :: lines =>
      match parse_frame line with Some m => message_value m :: line_values lines | None => [] end
  end.

Definition sample_values (s : string) : list json :=
  match parse_frame s with Some m => [message_value m] | None => line_values (Split LF s) end.

(** Maps are written as key and text pairs. *)
Definition sample_map (s : string) : option (option fields) :=
  match unframe s with
  | Some [k1; v1; k2; v2; k3; v3] =>
      match DecodeString v1, DecodeString v2, DecodeString v3 with
      | Some v1, Some v2, Some v3 => Some (Some [(k1, JStr v1); (k2, JObj [(k3, JStr v3); ("value", JStr v2)])])
      | _, _, _ => None
      end
  | Some [k1; v1] => match DecodeString v1 with Some v1 => Some (Some [(k1, JStr v1)]) | None => None end
  | _ => None
  end.

Definition sample_codec : Codec := {|
  DecodeMessage := sample_decode;
  EncodeMessage m := Some (sample_encode m);
  json_values := sample_values;
  UnmarshalMap := sample_map;
  field_matches k name := bool_decide (k = name);
  float_int64 _ := 0%Z;
  FormatFloat s := s;
  compact s := s;
|}.

(** ** Reading back *)
Lemma dec_enc_bits p : dec_bits (enc_bits p) = Some p.
Proof. induction p as [p IH|p IH|]; cbn [enc_bits dec_bits]; rewrite ?IH; done. Qed.

Lemma dec_enc_Z n : dec_Z (enc_Z n) = Some n.
Proof. destruct n; cbn [enc_Z dec_Z]; rewrite ?dec_enc_bits; done. Qed.

Lemma dec_enc_opt o : dec_opt (enc_opt o) = Some o.
Proof. destruct o as [s|]; [|done]. cbn [enc_opt dec_opt]. by rewrite base64_roundtrip. Qed.

Lemma dec_enc_id id : dec_id (enc_id id) = Some id.
Proof. destruct id; cbn [enc_id dec_id]; rewrite ?base64_roundtrip, ?dec_enc_Z; done. Qed.

(** Characters that no field contains. *)
Definition separator (c : ascii) : Prop := c = ";"%char \/ c = "}"%char \/ c = LF \/ c = ":"%char \/ c = ","%char.

Lemma encode_sextet_no_sep c x : separator c -> c <> encode_sextet x.
Proof. intros Hc. destruct x as [[[[[[] []] []] []] []] []]; destruct Hc as [->|[->|[->|[-> | ->]]]]; vm_compute; done. Qed.

Lemma no_sep_base64 c s : separator c -> no_char c (EncodeToString s).
Proof.
  intros Hc. induction s as [|[]|[] []|[] [] [] s IH] using triple_ind; cbn [EncodeToString no_char];
    repeat split; auto using encode_sextet_no_sep.
Qed.

Lemma no_sep_Z c n : separator c -> no_char c (enc_Z n).
Proof.
  intros Hc. assert (forall p, no_char c (enc_bits p)) as Hb.
  { induction p; cbn [enc_bits no_char]; (split; [|done]); destruct Hc as [->|[->|[->|[-> | ->]]]]; done. }
  destruct n; cbn [enc_Z no_char]; (split; [|done]); destruct Hc as [->|[->|[->|[-> | ->]]]]; done.
Qed.

Lemma no_sep_id c id : separator c -> no_char c (enc_id id).
Proof.
  intros Hc. destruct id; cbn [enc_id no_char]; (split; [by destruct Hc as [->|[->|[->|[-> | ->]]]]|]);
    [done|by apply no_sep_base64|by apply no_sep_Z].
Qed.

Lemma no_sep_opt c o : separator c -> no_char c (enc_opt o).
Proof.
  intros Hc. destruct o; cbn [enc_opt no_char]; (split; [by destruct Hc as [->|[->|[->|[-> | ->]]]]|]);
    [by apply no_sep_base64|done].
Qed.

Lemma no_sep_error c e : separator c -> c <> ":"%char -> no_char c (enc_error e).
Proof.
  intros Hc Hn. destruct e; cbn [enc_error no_char].
  - apply no_char_app. split; [by apply no_sep_Z|]. cbn [no_char]. split; [done|by apply no_sep_base64].
  - split; [|done]. by destruct Hc as [->|[->|[->|[-> | ->]]]].
Qed.

Lemma dec_enc_error e : dec_error (enc_error e) = Some e.
Proof.
  destruct e as [[code text]|]; [|done]. unfold dec_error, enc_error. cbn [re_Code re_Message].
  assert (Cut ":" (enc_Z code +:+ String ":" (EncodeToString text)) = Some (enc_Z code, EncodeToString text)) as E.
  { apply Cut_Some. split; [done|]. apply no_sep_Z. unfold separator. tauto. }
  rewrite E, dec_enc_Z, base64_roundtrip. by destruct code.
Qed.

Lemma Join_no_char c l : c <> ";"%char -> Forall (no_char c) l -> no_char c (Join ";" l).
Proof.
  intros Hc Hl. induction Hl as [|s l Hs Hl IH]; [done|]. destruct l as [|t l]; [done|].
  change (Join ";" (s :: t :: l)) with (s +:+ String ";" (Join ";" (t :: l))). apply no_char_app. split; [done|].
  by split.
Qed.

Lemma unframe_frame l :
  l <> [] -> Forall (no_char "}") l -> Forall (no_char ";") l -> unframe (frame l) = Some l.
Proof.
  intros Hne Hb Hs. unfold unframe, frame.
  rewrite (proj2 (Cut_Some "}" _ (Join ";" l) "")) by (split; [done|by apply Join_no_char]).
  by rewrite Split_Join.
Qed.

Lemma message_fields_ok m c : c = "}"%char \/ c = LF \/ c = ";"%char -> Forall (no_char c) (message_fields m).
Proof.
  intros Hc. assert (separator c) as Hs by (unfold separator; tauto).
  assert (c <> ":"%char) as Hn by by destruct Hc as [->|[-> | ->]].
  assert (no_char c "Q" /\ no_char c "R") as [Hq Hr] by by destruct Hc as [->|[-> | ->]].
  destruct m; cbn [message_fields];
    (apply Forall_cons_2; [assumption|]); (apply Forall_cons_2; [by apply no_sep_id|]).
  - apply Forall_cons_2; [by apply no_sep_base64|]. by apply Forall_singleton, no_sep_opt.
  - apply Forall_cons_2; [by apply no_sep_opt|]. by apply Forall_singleton, no_sep_error.
Qed.

Lemma parse_encode m : parse_frame (sample_encode m) = Some m.
Proof.
  unfold parse_frame, sample_encode. rewrite unframe_frame; [|by destruct m|by apply message_fields_ok; auto..].
  destruct m as [[id method params]|[id result e]]; cbn [message_fields].
  - rewrite decide_True by done. cbn [rq_ID rq_Method rq_Params]. by rewrite dec_enc_id, base64_roundtrip, dec_enc_opt.
  - rewrite decide_False by done. cbn [rs_ID rs_Result rs_Error]. by rewrite dec_enc_id, dec_enc_opt, dec_enc_error.
Qed.

Lemma sample_codec_ok : CodecOk sample_codec.
Proof.
  split.
  - intros data r. cbn. unfold sample_decode. destruct (parse_frame data) as [[?|[[] ? ?]]|]; try done; by intros [= <-].
  - intros m data [= <-]. split; [|by exists (Join ";" (message_fields m))].
    unfold sample_encode, frame. split; [done|]. apply no_char_app. split; [|done].
    apply Join_no_char; [done|]. apply message_fields_ok; auto.
  - intros r data [= <-] Hid. exists r. cbn. unfold sample_decode. rewrite parse_encode.
    destruct r as [[] res e]; [done|..]; split_and!; try done; by destruct res.
  - intros id e. eexists. split; [done|]. unfold carriesResult. cbn. unfold sample_values, sample_decode.
    rewrite parse_encode. split; [done|]. intros m. destruct id; [done|..]; intros [= <-]; eauto.
  - done.
  - intros data r. cbn. unfold sample_decode, carriesResult. cbn. unfold sample_values.
    destruct (parse_frame data) as [[?|[[] [] ?]]|]; try done; by intros [= <-].
Qed.

(** ** Lists of tools *)
Definition enc_hint (h : option bool) : ascii :=
  match h with None => "n" | Some true => "t" | Some false => "f" end%char.

Definition dec_hint (c : ascii) : option (option bool) :=
  match c with
  | "n"%char => Some None
  | "t"%char => Some (Some true)
  | "f"%char => Some (Some false)
  | _ => None
  end.

Definition enc_tool (t : mcpTool) : string :=
  let a := mt_Annotations t in
  String (enc_hint (ann_ReadOnlyHint a)) (String (enc_hint (ann_DestructiveHint a))
    (String (enc_hint (ann_IdempotentHint a)) (String (enc_hint (ann_OpenWorldHint a)) (EncodeToString (mt_Name t))))).

Definition dec_tool (s : string) : option mcpTool :=
  match s with
  | String a (String b (String c (String d name))) =>
      match dec_hint a, dec_hint b, dec_hint c, dec_hint d, DecodeString name with
      | Some a, Some b, Some c, Some d, Some name =>
          Some {| mt_Name := name; mt_Rest := JNull;
                  mt_Annotations := {| ann_Title := ""; ann_ReadOnlyHint := a; ann_DestructiveHint := b;
                                       ann_IdempotentHint := c; ann_OpenWorldHint := d |} |}
      | _, _, _, _, _ => None
      end
  | _ => None
  end.

(** What the format can write: tools without a title or further fields. *)
Definition plain_tool (t : mcpTool) : bool :=
  bool_decide (ann_Title (mt_Annotations t) = "") && match mt_Rest t with JNull => true | _ => false end.

Lemma dec_enc_tool t : plain_tool t = true -> dec_tool (enc_tool t) = Some t.
Proof.
  destruct t as [name [title a b c d] rest]. unfold plain_tool. cbn. rewrite andb_true_iff, bool_decide_eq_true.
  intros [-> Hr]. unfold enc_tool. cbn -[EncodeToString dec_tool enc_hint].
  assert (forall h, dec_hint (enc_hint h) = Some h) as Hh by by intros [[]|].
  unfold dec_tool. rewrite !Hh.
  change (decode_quads (skip_line_breaks ?x)) with (DecodeString x). rewrite base64_roundtrip. by destruct rest.
Qed.

(** Items in a list, each with its mark. *)
Definition enc_list (tag : string) (items : list string) : string := frame (tag :: items).

Definition dec_list {A} (tag : string) (dec : string -> option A) (s : string) : option (list A) :=
  match unframe s with
  | Some (tag' :: items) => if decide (tag' = tag) then mapM dec items else None
  | _ => None
  end.

Lemma dec_enc_list {A} tag (enc : A -> string) (dec : string -> option A) l :
  Forall (fun s => no_char "}" s /\ no_char ";" s) (tag :: (enc <$> l)) ->
  Forall (fun x => dec (enc x) = Some x) l -> dec_list tag dec (enc_list tag (enc <$> l)) = Some l.
Proof.
  intros Hs Hd. unfold dec_list, enc_list.
  rewrite unframe_frame; [|done|by eapply Forall_impl; [exact Hs|]; intros ? [? ?]..].
  rewrite decide_True by done. apply mapM_Some_2. clear Hs. by induction Hd; constructor.
Qed.

Lemma no_sep_tool c t : c = "}"%char \/ c = ";"%char -> no_char c (enc_tool t).
Proof.
  intros Hc. assert (separator c) as Hs by (unfold separator; tauto).
  unfold enc_tool. cbn [no_char]. assert (forall h, c <> enc_hint h) as Hh.
  { intros [[]|]; by destruct Hc as [-> | ->]. }
  repeat split; auto using no_sep_base64.
Qed.

Lemma dec_enc_tools tag l :
  no_char "}" tag -> no_char ";" tag -> forallb plain_tool l = true ->
  dec_list tag dec_tool (enc_list tag (enc_tool <$> l)) = Some l.
Proof.
  intros Hb Hs Hp. apply dec_enc_list.
  - constructor; [done|]. apply Forall_fmap, Forall_true. intros t. split; apply no_sep_tool; auto.
  - apply Forall_forall. intros t Ht. apply dec_enc_tool. rewrite forallb_forall in Hp. apply Hp. by apply list_elem_of_In.
Qed.

Lemma dec_enc_names tag l :
  no_char "}" tag -> no_char ";" tag -> dec_list tag DecodeString (enc_list tag (EncodeToString <$> l)) = Some l.
Proof.
  intros Hb Hs. apply dec_enc_list.
  - constructor; [done|]. apply Forall_fmap, Forall_true. intros t. split; apply no_sep_base64; unfold separator; tauto.
  - apply Forall_true. apply base64_roundtrip.
Qed.

(** Content is text, and structured content is text or nothing. *)
Definition enc_content (c : mcpContent) : option string :=
  match c with
  | TextContent "text" text JNull => Some (EncodeToString text)
  | _ => None
  end.

Definition dec_content (s : string) : option mcpContent :=
  (fun text => TextContent "text" text JNull) <$> DecodeString s.

Definition enc_call (c : CallToolResult) : option string :=
  match cr_StructuredContent c, cr_IsError c, cr_Rest c, mapM enc_content (cr_Content c) with
  | JStr s, false, JNull, Some items => Some (enc_list "C" (EncodeToString s :: items))
  | _, _, _, _ => None
  end.

Definition dec_call (s : string) : option CallToolResult :=
  match unframe s with
  | Some (tag :: structured :: items) =>
      if decide (tag = "C") then
        match DecodeString structured, mapM dec_content items with
        | Some structured, Some content =>
            Some {| cr_Content := content; cr_StructuredContent := JStr structured; cr_IsError := false; cr_Rest := JNull |}
        | _, _ => None
        end
      else None
  | _ => None
  end.

Definition sample_mcp : McpCodec := {|
  UnmarshalListTools s := (fun l => {| lt_Paginated := JNull; lt_Tools := l |}) <$> dec_list "T" dec_tool s;
  MarshalListTools l :=
    if forallb plain_tool (lt_Tools l) then Some (enc_list "T" (enc_tool <$> lt_Tools l)) else None;
  UnmarshalListPrompts s :=
    (fun l => {| lp_Paginated := JNull; lp_Prompts := (fun n => {| mp_Name := n; mp_Rest := JNull |}) <$> l |})
      <$> dec_list "P" DecodeString s;
  MarshalListPrompts l := Some (enc_list "P" (EncodeToString <$> (mp_Name <$> lp_Prompts l)));
  UnmarshalListResources s :=
    (fun l => {| lr_Paginated := JNull; lr_Resources := (fun n => {| mr_URI := n; mr_Rest := JNull |}) <$> l |})
      <$> dec_list "U" DecodeString s;
  MarshalListResources l := Some (enc_list "U" (EncodeToString <$> (mr_URI <$> lr_Resources l)));
  UnmarshalCallResult := dec_call;
  MarshalCallResult := enc_call;
  UnmarshalFindTool prev s :=
    match dec_list "F" dec_tool s with
    | Some l => (true, {| fo_Tools := l; fo_TokenMetrics := JNull |})
    | None => (false, prev)
    end;
  MarshalFindTool o :=
    if forallb plain_tool (fo_Tools o) then Some (enc_list "F" (enc_tool <$> fo_Tools o)) else None;
|}.

Lemma dec_enc_contents l items : mapM enc_content l = Some items ->
  mapM dec_content items = Some l /\ Forall (fun s => no_char "}" s /\ no_char ";" s) items.
Proof.
  intros Hm%mapM_Some_1. induction Hm as [|c s l items Hc Hm [IH IHs]]; [done|]. 
  assert (dec_content s = Some c /\ no_char "}" s /\ no_char ";" s) as (Hd & Hn).
  { destruct c as [ty text rest|]; [|done]. unfold enc_content in Hc. repeat case_match; simplify_eq.
    unfold dec_content. rewrite base64_roundtrip. split; [done|]. split; apply no_sep_base64; unfold separator; tauto. }
  split; [|by constructor]. cbn. by rewrite Hd, IH.
Qed.

Lemma dec_enc_call c data : enc_call c = Some data -> dec_call data = Some c.
Proof.
  destruct c as [content st err rest]. unfold enc_call, dec_call. cbn.
  destruct st as [| | | |st| |], err, rest, (mapM enc_content content) as [items|] eqn:Em; try done.
  intros [= <-]. apply dec_enc_contents in Em as [Hd Hs]. unfold enc_list.
  assert (Forall (fun s => no_char "}" s /\ no_char ";" s) ("C" :: EncodeToString st :: items)) as Hf.
  { constructor; [done|]. constructor; [|done]. split; apply no_sep_base64; unfold separator; tauto. }
  rewrite unframe_frame; [|done|by eapply Forall_impl; [exact Hf|]; intros ? [? ?]..].
  by rewrite decide_True, base64_roundtrip, Hd by done.
Qed.

(** A frame is no null. *)
Lemma trim_null_frame data : TrimSpace_bytes data = "null" -> unframe data = None.
Proof.
  intros Hn. destruct data as [|c data]; [done|]. unfold unframe.
  destruct (decide (c = "{"%char)) as [->|Hc].
  2:{ destruct c as [[] [] [] [] [] [] [] []]; done. }
  destruct (Cut "}" data) as [[body rest]|] eqn:E; [|done]. apply Cut_Some in E as [-> _].
  destruct rest; [|done]. change (String "}" "") with "}" in Hn. by rewrite TrimSpace_object in Hn.
Qed.

Lemma sample_mcp_ok : McpCodecOk sample_codec sample_mcp.
Proof.
  assert (forall data, TrimSpace_bytes data = "null" -> unframe data = None) as Hn by apply trim_null_frame.
  split; cbn.
  1-4: done.
  - intros [pg l] data l'. cbn. destruct (forallb plain_tool l) eqn:E; [|done]. intros [= <-].
    rewrite dec_enc_tools by done. by intros [= <-].
  - intros [pg l] data l' [= <-]. rewrite dec_enc_names by done. intros [= <-]. cbn.
    rewrite <- list_fmap_compose. by apply list_fmap_id.
  - intros [pg l] data l' [= <-]. rewrite dec_enc_names by done. intros [= <-]. cbn.
    rewrite <- list_fmap_compose. by apply list_fmap_id.
  - intros c data c' Hc. rewrite (dec_enc_call _ _ Hc). by intros [= <-].
  - intros [l tm] data prev. cbn. destruct (forallb plain_tool l) eqn:E; [|done]. intros [= <-].
    rewrite dec_enc_tools by done. by eexists.
  - intros data l H. unfold dec_list. by rewrite Hn.
  - intros data l H. unfold dec_list. by rewrite Hn.
  - intros data l H. unfold dec_list. by rewrite Hn.
  - intros data l H. unfold dec_call. by rewrite Hn.
Qed.

(** ** An authorizer that allows some names *)
Definition sample_authorizer (names : list string) : Authorizer :=
  fun _ _ _ _ name _ => Some (bool_decide (name ∈ names)).

Definition sample_context : authz_context := {| ac_Identity := None; ac_Annotations := None |}.

Definition no_hints : ToolAnnotations :=
  {| ann_Title := ""; ann_ReadOnlyHint := None; ann_DestructiveHint := None; ann_IdempotentHint := None;
     ann_OpenWorldHint := None |}.

Definition sample_tool (name : string) : mcpTool := {| mt_Name := name; mt_Annotations := no_hints; mt_Rest := JNull |}.

(** The result of a list operation, and the response that carries it. *)
Definition sample_tools_result (names : list string) : string := enc_list "T" (enc_tool <$> (sample_tool <$> names)).

Definition sample_response (result : string) : string :=
  sample_encode (MResponse {| rs_ID := Int64ID 1; rs_Result := Some result; rs_Error := None |}).
