(* ===== verification/ResponseFilter.v ===== *)
(** * Filtering responses ([pkg/authz/response_filter.go])

    A backend's answer to a list operation is buffered and filtered before the client
    gets it.  The backend is not trusted: it may mislabel the body, put the result where
    a strict reader would not look, or mix it with other frames.  The filter releases a
    frame only if it is a clean response with a filtered result, or carries no result;
    otherwise an error takes its place.  The theorems are about the bytes a client
    reads.

    [Writer] is the [http.ResponseWriter] of the server: headers go out with the first
    status or byte that is written, and stay as they were then. *)

From Stdlib Require Import Ascii.
From S2P Require Import Prelude GoStrings VmcpTypes SessionBinding ParamHeaders Admission EventStream JsonRpc RequestParser AuthzLists SampleCodec.

(** ** The response writer of the server *)
Record sent_headers := {
  sh_Status : Z;
  sh_ContentType : string;
  sh_ContentLength : option string;
}.

Record Writer := {
  w_Sent : option sent_headers;
  w_ContentType : string;
  w_ContentLength : option string;
  w_Flusher : bool;
  w_Body : string;
}.

(** Informational statuses go out on their own. *)
Definition informational (status : Z) : bool :=
  ((100 <=? status) && (status <=? 199) && negb (status =? 101))%Z.

Definition send_headers (w : Writer) (status : Z) : Writer :=
  match w_Sent w with
  | Some _ => w
  | None => {| w_Sent := Some {| sh_Status := status; sh_ContentType := w_ContentType w;
                               sh_ContentLength := w_ContentLength w |};
               w_ContentType := w_ContentType w; w_ContentLength := w_ContentLength w;
               w_Flusher := w_Flusher w; w_Body := w_Body w |}
  end.

Definition writer_WriteHeader (w : Writer) (status : Z) : Writer :=
  if informational status then w else send_headers w status.

Definition writer_Write (w : Writer) (data : string) : Writer :=
  let w := send_headers w 200 in
  {| w_Sent := w_Sent w; w_ContentType := w_ContentType w; w_ContentLength := w_ContentLength w;
     w_Flusher := w_Flusher w; w_Body := w_Body w +:+ data |}.

Definition del_ContentLength (w : Writer) : Writer :=
  {| w_Sent := w_Sent w; w_ContentType := w_ContentType w; w_ContentLength := None;
     w_Flusher := w_Flusher w; w_Body := w_Body w |}.

Definition set_headers (w : Writer) (contentType : string) (contentLength : option string) : Writer :=
  {| w_Sent := w_Sent w; w_ContentType := contentType; w_ContentLength := contentLength;
     w_Flusher := w_Flusher w; w_Body := w_Body w |}.

(** ** The filtering writer *)
Record ResponseFilteringWriter := {
  rfw_Writer : Writer;
  rfw_buffer : string;
  rfw_statusCode : Z;
}.

Definition NewResponseFilteringWriter (w : Writer) : ResponseFilteringWriter :=
  {| rfw_Writer := w; rfw_buffer := ""; rfw_statusCode := 200 |}.

Definition rfw_Write (rfw : ResponseFilteringWriter) (data : string) : ResponseFilteringWriter :=
  {| rfw_Writer := rfw_Writer rfw; rfw_buffer := rfw_buffer rfw +:+ data; rfw_statusCode := rfw_statusCode rfw |}.

Definition rfw_WriteHeader (rfw : ResponseFilteringWriter) (statusCode : Z) : ResponseFilteringWriter :=
  {| rfw_Writer := rfw_Writer rfw; rfw_buffer := rfw_buffer rfw; rfw_statusCode := statusCode |}.

Definition rfw_Flush (rfw : ResponseFilteringWriter) : ResponseFilteringWriter :=
  if w_Flusher (rfw_Writer rfw) then
    {| rfw_Writer := send_headers (writer_WriteHeader (del_ContentLength (rfw_Writer rfw)) (rfw_statusCode rfw)) 200;
       rfw_buffer := rfw_buffer rfw; rfw_statusCode := rfw_statusCode rfw |}
  else rfw.

(** What a handler does with its writer. *)
Inductive writer_call :=
  | CallSetHeaders (contentType : string) (contentLength : option string)
  | CallWriteHeader (statusCode : Z)
  | CallWrite (data : string)
  | CallFlush.

Definition rfw_call (rfw : ResponseFilteringWriter) (c : writer_call) : ResponseFilteringWriter :=
  match c with
  | CallSetHeaders ct cl =>
      {| rfw_Writer := set_headers (rfw_Writer rfw) ct cl; rfw_buffer := rfw_buffer rfw;
         rfw_statusCode := rfw_statusCode rfw |}
  | CallWriteHeader statusCode => rfw_WriteHeader rfw statusCode
  | CallWrite data => rfw_Write rfw data
  | CallFlush => rfw_Flush rfw
  end.

Definition writer_call_do (w : Writer) (c : writer_call) : Writer :=
  match c with
  | CallSetHeaders ct cl => set_headers w ct cl
  | CallWriteHeader statusCode => writer_WriteHeader w statusCode
  | CallWrite data => writer_Write w data
  | CallFlush => if w_Flusher w then send_headers w 200 else w
  end.

Definition UTF8BOM : string := String "239" (String "187" (String "191" "")).

(** ** Sniffing a body without a known media type *)

(** [bytes.ReplaceAll(s, "\r\n", "\n")] and [bytes.ReplaceAll(s, "\r", "\n")]. *)
Fixpoint replace_crlf (s : string) : string :=
  match s with
  | EmptyString => EmptyString
  | String a s' =>
      match s' with
      | String b s2 => if decide (a = CR /\ b = LF) then String LF (replace_crlf s2) else String a (replace_crlf s')
      | EmptyString => s
      end
  end.

Fixpoint replace_cr (s : string) : string :=
  match s with
  | EmptyString => EmptyString
  | String a s => String (if decide (a = CR) then LF else a) (replace_cr s)
  end.

Definition sseCarriesResult `{Codec} (rawResponse : string) : bool :=
  existsb (fun line => match CutPrefix line "data:" with Some data => carriesResult data | None => false end)
    (Split LF (replace_cr (replace_crlf rawResponse))).

Section filter.
Context `{Codec} `{McpCodec}.
Context (authorizer : Authorizer) (ctx : authz_context) (passThroughTools : gset string).
Context (method : string) (parsed : option ParsedMCPRequest).

(** ** Errors *)
Definition requestID : rpc_id :=
  match parsed with
  | None => NoID
  | Some parsed => default NoID (ConvertToJSONRPC2ID (pr_ID parsed))
  end.

Definition internal_error_text : string :=
  String.concat (String "034" "")
    ["{"; "jsonrpc"; ":"; "2.0"; ","; "error"; ":{"; "code"; ":-32603,"; "message"; ":"; "internal error"; "}}"].

Definition errorResponseBody (id : rpc_id) : string :=
  default internal_error_text
    (EncodeMessage (MResponse {| rs_ID := id; rs_Result := None;
       rs_Error := Some {| re_Code := -32603; re_Message := "internal error" |} |})).

Definition writeErrorResponse (w : Writer) (id : rpc_id) : Writer :=
  writer_Write (writer_WriteHeader w 500) (errorResponseBody id).

(** ** One response *)
Definition filterAndEncode (cache : option AnnotationCache) (response : RpcResponse)
    : option string * option AnnotationCache :=
  match filterListResponse authorizer ctx passThroughTools method cache response with
  | (None, cache) => (None, cache)
  | (Some filteredResponse, cache) => (EncodeMessage (MResponse filteredResponse), cache)
  end.

Definition processJSONResponse (w : Writer) (statusCode : Z) (cache : option AnnotationCache) (rawResponse : string)
    : Writer * option AnnotationCache :=
  match DecodeMessage rawResponse with
  | Some (MResponse response) =>
      match filterAndEncode cache response with
      | (None, cache) => (writeErrorResponse w (rs_ID response), cache)
      | (Some filteredData, cache) => (writer_Write (writer_WriteHeader w statusCode) filteredData, cache)
      end
  | _ =>
      if carriesResult rawResponse then (writeErrorResponse w requestID, cache)
      else (writer_Write (writer_WriteHeader w statusCode) rawResponse, cache)
  end.

(** ** One event of a stream; a replacement says whether it is the error *)
Definition filterSSEEventData (cache : option AnnotationCache) (data : string)
    : option (string * bool) * option AnnotationCache :=
  match DecodeMessage data with
  | Some (MResponse response) =>
      match filterAndEncode cache response with
      | (None, cache) => (Some (errorResponseBody (rs_ID response), true), cache)
      | (Some filteredData, cache) => (Some (filteredData, false), cache)
      end
  | _ => if carriesResult data then (Some (errorResponseBody requestID, true), cache) else (None, cache)
  end.

Definition probeValuesForSmuggledResult (dataValues : list string) : option (string * bool) :=
  if existsb carriesResult dataValues then Some (errorResponseBody requestID, true) else None.

Definition resolveSSEEvent (cache : option AnnotationCache) (event : list sseLine)
    : list sseLine * option AnnotationCache :=
  match event with
  | [] => ([], cache)
  | _ =>
      let dataValues := eventDataValues event in
      match dataValues with
      | [] => (event, cache)
      | _ =>
          let assembled := Join LF dataValues in
          if decide (assembled = "") then (event, cache)
          else
            let (replacement, cache) := filterSSEEventData cache assembled in
            let replacement :=
              match replacement with
              | Some _ => replacement
              | None => probeValuesForSmuggledResult dataValues
              end in
            match replacement with
            | None => (event, cache)
            | Some (payload, failedClosed) => (rebuildEventWithPayload event payload failedClosed, cache)
            end
      end
  end.

Definition write_lines (w : Writer) (lines : list sseLine) : Writer :=
  foldl (fun w l => writer_Write (writer_Write w (sl_text l)) (sl_term l)) w lines.

Definition processSSEResponse (w : Writer) (cache : option AnnotationCache) (rawResponse : string)
    : Writer * option AnnotationCache :=
  let rawResponse := TrimPrefix rawResponse UTF8BOM in
  let (outputLines, cache) := processEvents resolveSSEEvent cache [] (scan rawResponse) in
  (write_lines w outputLines, cache).

(** ** The buffered response *)
Definition mime_type (contentType : string) : string :=
  ToLower (TrimSpace_bytes (hd "" (Split ";" contentType))).

Definition FlushAndFilter (rfw : ResponseFilteringWriter) (cache : option AnnotationCache)
    : Writer * option AnnotationCache :=
  let w := rfw_Writer rfw in
  let statusCode := rfw_statusCode rfw in
  if ((statusCode <? 200) || (300 <=? statusCode))%Z then
    (writer_Write (writer_WriteHeader w statusCode) (rfw_buffer rfw), cache)
  else if negb (requiresResponseFiltering method) then
    (writer_Write (writer_WriteHeader w statusCode) (rfw_buffer rfw), cache)
  else
    let rawResponse := TrimPrefix (rfw_buffer rfw) UTF8BOM in
    if decide (rawResponse = "") then (writer_Write (writer_WriteHeader w statusCode) rawResponse, cache)
    else
      let mimeType := mime_type (w_ContentType w) in
      if decide (mimeType = "application/json") then
        processJSONResponse (del_ContentLength w) statusCode cache rawResponse
      else if decide (mimeType = "text/event-stream") then
        processSSEResponse (del_ContentLength w) cache rawResponse
      else if carriesResult rawResponse then
        processJSONResponse (del_ContentLength w) statusCode cache rawResponse
      else if sseCarriesResult rawResponse then
        processSSEResponse (del_ContentLength w) cache rawResponse
      else (writer_Write (writer_WriteHeader (del_ContentLength w) statusCode) rawResponse, cache).

(** The handler runs on the filtering writer, then the response is filtered. *)
Definition serve_filtered (w : Writer) (cache : option AnnotationCache) (calls : list writer_call)
    : Writer * option AnnotationCache :=
  FlushAndFilter (foldl rfw_call (NewResponseFilteringWriter w) calls) cache.
End filter.

(** ** What is released *)
Section released.
Context {cdc : Codec} {mcp : McpCodec} {cok : CodecOk cdc} {mok : McpCodecOk cdc mcp}.
Context (authorizer : Authorizer) (ctx : authz_context) (passThroughTools : gset string).
Context (method : string) (parsed : option ParsedMCPRequest).

Local Abbreviation allowed := (shows_allowed authorizer ctx passThroughTools method).
Local Abbreviation resolve := (resolveSSEEvent authorizer ctx passThroughTools method parsed).
Local Abbreviation encode := (filterAndEncode authorizer ctx passThroughTools method).

Definition is_response (data : string) : Prop := exists r, DecodeMessage data = Some (MResponse r).

(** A frame that shows nothing the caller may not see: a response whose result is
    filtered, or something without a result. *)
Definition safe_frame (data : string) : Prop :=
  match DecodeMessage data with
  | Some (MResponse r) => forall result, rs_Result r = Some result -> allowed result
  | _ => carriesResult data = false
  end.

(** What the client gets in place of a frame: the frame itself, if it carries no result;
    the filtered response to the same request; or an error for the same request. *)
Inductive released (data : string) : string -> Prop :=
  | released_as_is : ~ is_response data -> carriesResult data = false -> released data data
  | released_filtered r r' data' :
      DecodeMessage data = Some (MResponse r) -> DecodeMessage data' = Some (MResponse r') -> rs_ID r' = rs_ID r ->
      (forall result, rs_Result r' = Some result -> allowed result) -> released data data'
  | released_error r : DecodeMessage data = Some (MResponse r) -> released data (errorResponseBody (rs_ID r))
  | released_refused : ~ is_response data -> released data (errorResponseBody (requestID parsed)).

Lemma errorResponseBody_ok id : wire_object (errorResponseBody id) /\ safe_frame (errorResponseBody id).
Proof.
  destruct (encode_error_ok id {| re_Code := -32603; re_Message := "internal error" |}) as (data & E & Hc & Hd).
  unfold errorResponseBody. rewrite E. cbn. split; [by apply (encode_object _ _ E)|].
  unfold safe_frame. destruct (DecodeMessage data) as [[r|r]|] eqn:Ed; [done| |done].
  destruct (Hd _ eq_refl) as (r' & [= <-] & ->). done.
Qed.

Lemma released_safe data data' : released data data' -> safe_frame data'.
Proof.
  intros [Hn Hc|r r' d' Hd Hd' Hid Ha|r _|_]; try apply errorResponseBody_ok.
  - unfold safe_frame. destruct (DecodeMessage data) as [[?|r]|] eqn:E; [done| |done]. exfalso. apply Hn. by exists r.
  - unfold safe_frame. by rewrite Hd'.
Qed.

Lemma filterAndEncode_ok cache r data data' cache' :
  DecodeMessage data = Some (MResponse r) -> encode cache r = (Some data', cache') ->
  wire_object data' /\ released data data'.
Proof.
  intros Hd. unfold filterAndEncode.
  destruct (filterListResponse _ _ _ _ _ _) as [[r1|] c1] eqn:Ef; [|done]. intros [= He <-].
  split; [by apply (encode_object _ _ He)|].
  assert (rs_ID r1 = rs_ID r) as Hid by by destruct (filterListResponse_allowed _ _ _ _ _ _ _ _ "" Ef).
  destruct (encode_read _ _ He) as (r2 & Hd2 & Hid2 & Hr2). { rewrite Hid. by apply (decode_id data). }
  apply (released_filtered _ r r2); [done..|congruence|]. intros result Er. rewrite Hr2 in Er.
  apply fmap_Some in Er as (res & Eres & ->). apply (shows_allowed_compact _ _ _).
  destruct (filterListResponse_allowed _ _ _ _ _ _ _ _ res Ef) as [_ Ha]. by apply Ha.
Qed.

Lemma filterSSEEventData_ok cache data :
  match (filterSSEEventData authorizer ctx passThroughTools method parsed cache data).1 with
  | Some (data', _) => wire_object data' /\ released data data'
  | None => ~ is_response data /\ carriesResult data = false
  end.
Proof.
  unfold filterSSEEventData.
  assert (forall r, DecodeMessage data = Some (MResponse r) -> is_response data) as Hr by by intros r ?; exists r.
  assert (~ is_response data -> match (if carriesResult data
     then (Some (errorResponseBody (requestID parsed), true), cache) else (None, cache)).1 with
   | Some (data', _) => wire_object data' /\ released data data' | None => ~ is_response data /\ carriesResult data = false end) as Hno.
  { intros Hn. destruct (carriesResult data) eqn:Ec; cbn.
    - split; [apply errorResponseBody_ok|by apply released_refused].
    - done. }
  destruct (DecodeMessage data) as [[q|r]|] eqn:Ed; [apply Hno; intros [? ?]; congruence| |apply Hno; intros [? ?]; congruence].
  destruct (encode cache r) as [[data'|] c] eqn:Ee; cbn.
  - by apply (filterAndEncode_ok _ _ _ _ _ Ed Ee).
  - split; [apply errorResponseBody_ok|by apply released_error].
Qed.

(** ** Streams *)
#[local] Instance resolve_rewriting : Rewriting resolve released.
Proof.
  assert (forall cache event, event <> [] -> client_payload (eventDataValues event) = None ->
    (resolve cache event).1 = event) as Hnone.
  { intros cache [|l event] He Hp; [done|]. unfold resolveSSEEvent, client_payload in *.
    destruct (eventDataValues (l :: event)) as [|v vs]; [done|]. by case_decide. }
  assert (forall cache event data, client_payload (eventDataValues event) = Some data ->
    (resolve cache event).1 = event /\ released data data \/
    exists data' failedClosed, wire_object data' /\ released data data' /\
      (resolve cache event).1 = rebuildEventWithPayload event data' failedClosed) as Hsome.
  { intros cache [|l event] data Hp; [done|]. unfold resolveSSEEvent, client_payload in *.
    destruct (eventDataValues (l :: event)) as [|v vs]; [done|].
    destruct (decide (Join LF (v :: vs) = "")); [done|]. injection Hp as <-.
    pose proof (filterSSEEventData_ok cache (Join LF (v :: vs))) as Hf.
    destruct (filterSSEEventData _ _ _ _ _ _ _) as [[[data' fc]|] c]; cbn [fst] in Hf.
    - right. exists data', fc. naive_solver.
    - destruct Hf as [Hn Hc]. unfold probeValuesForSmuggledResult.
      destruct (existsb carriesResult (v :: vs)); [|left; split; [done|by apply released_as_is]].
      right. exists (errorResponseBody (requestID parsed)), true. split_and!; [apply errorResponseBody_ok| |done].
      by apply released_refused. }
  assert (forall cache event, exists event', (resolve cache event).1 = event' /\
    (event' = event \/ exists data' fc, wire_object data' /\ event' = rebuild_from false event data' fc)) as Hshape.
  { intros cache event. exists (resolve cache event).1. split; [done|].
    destruct (client_payload (eventDataValues event)) as [data|] eqn:Ep.
    - destruct (Hsome cache event data Ep) as [[-> _]|(d & fc & Hw & _ & ->)]; [by left|right]. by exists d, fc.
    - destruct event as [|l event]; [by left|]. by rewrite Hnone; [left|..]. }
  split.
  - done.
  - intros cache event Hf. destruct (Hshape cache event) as (e & -> & [->|(d & fc & Hw & ->)]); [done|].
    by apply rebuild_framed.
  - intros cache event Hf. destruct (Hshape cache event) as (e & -> & [->|(d & fc & Hw & ->)]); [done|].
    by apply rebuild_ended.
  - intros cache event Hf. destruct (Hshape cache event) as (e & -> & [->|(d & fc & Hw & ->)]); [done|].
    by apply rebuild_nonblank.
  - intros cache event. destruct (client_payload (eventDataValues event)) as [data|] eqn:Ep.
    + destruct (Hsome cache event data Ep) as [[-> Hr]|(d & fc & Hw & Hr & ->)]; [rewrite Ep; by constructor|].
      rewrite (rebuild_payload _ Hw) by by rewrite Ep. by constructor.
    + destruct event as [|l event]; [constructor|]. rewrite Hnone by done. rewrite Ep. constructor.
Qed.

Lemma stream_frames cache rawResponse :
  Forall2 released (client_payloads rawResponse)
    (client_payloads (render (processEvents resolve cache [] (scan rawResponse)).1)).
Proof.
  rewrite <- (render_scan rawResponse) at 1.
  rewrite client_payloads_render by apply framed_scan.
  destruct (processEvents_ok resolve released resolve_rewriting cache [] (scan rawResponse)) as [Hf Hr];
    [apply framed_scan|done|]. by rewrite client_payloads_render.
Qed.

(** ** Writers *)
Lemma Write_body w data : w_Body (writer_Write w data) = w_Body w +:+ data.
Proof. unfold writer_Write, send_headers. by destruct (w_Sent w). Qed.

Lemma WriteHeader_body w status : w_Body (writer_WriteHeader w status) = w_Body w.
Proof. unfold writer_WriteHeader, send_headers. by destruct (informational status), (w_Sent w). Qed.

Lemma write_lines_body w lines : w_Body (write_lines w lines) = w_Body w +:+ render lines.
Proof.
  revert w. induction lines as [|l lines IH]; intros w; cbn [write_lines foldl render]; [by rewrite app_string_nil_r|].
  change (foldl _ ?w lines) with (write_lines w lines). by rewrite IH, !Write_body, !app_string_assoc.
Qed.

(** What the client reads from the filtered stream is, event by event, what is
    released in place of what it would have read from the backend's stream: no event is
    added, dropped or reordered, an event that carries no result is the same, and the
    others are the filtered response or an error for the same request.  The backend's
    bytes are arbitrary: values split over lines, CRs, several messages in one event,
    batches and results in frames that are no responses are all covered. *)
Theorem stream_released w cache rawResponse :
  exists body,
    w_Body (processSSEResponse authorizer ctx passThroughTools method parsed w cache rawResponse).1 = w_Body w +:+ body /\
    Forall2 released (client_payloads (TrimPrefix rawResponse UTF8BOM)) (client_payloads body).
Proof.
  unfold processSSEResponse. pose proof (stream_frames cache (TrimPrefix rawResponse UTF8BOM)) as Hr.
  destruct (processEvents _ _ _ _) as [lines c]. exists (render lines). by rewrite <- write_lines_body.
Qed.

(** ** The whole response *)

(** The handler settles on its headers before it flushes, and does not end on an
    informational status. *)
Fixpoint settled (flushed : bool) (status : Z) (calls : list writer_call) : Prop :=
  match calls with
  | [] => informational status = false
  | CallSetHeaders _ _ :: calls => flushed = false /\ settled flushed status calls
  | CallWriteHeader status' :: calls => flushed = false /\ settled flushed status' calls
  | CallWrite _ :: calls => settled flushed status calls
  | CallFlush :: calls => informational status = false /\ settled true status calls
  end.

(** Headers that went out are the ones the filter will decide with. *)
Definition consistent (rfw : ResponseFilteringWriter) : Prop :=
  forall h, w_Sent (rfw_Writer rfw) = Some h ->
    sh_Status h = rfw_statusCode rfw /\ sh_ContentType h = w_ContentType (rfw_Writer rfw).

Lemma calls_consistent calls : forall flushed rfw,
  settled flushed (rfw_statusCode rfw) calls -> consistent rfw -> w_Body (rfw_Writer rfw) = "" ->
  (flushed = false -> w_Sent (rfw_Writer rfw) = None) ->
  let rfw' := foldl rfw_call rfw calls in
  consistent rfw' /\ w_Body (rfw_Writer rfw') = "" /\ informational (rfw_statusCode rfw') = false.
Proof.
  induction calls as [|c calls IH]; intros flushed rfw Hs Hc Hb Hf; [done|].
  destruct c as [ct cl|status|data|]; cbn [settled foldl rfw_call] in *.
  - destruct Hs as [-> Hs]. specialize (Hf eq_refl). apply (IH false); [done| |done|done].
    unfold consistent. cbn. by rewrite Hf.
  - destruct Hs as [-> Hs]. specialize (Hf eq_refl). apply (IH false); [done| |done|done].
    unfold consistent. cbn. by rewrite Hf.
  - by apply (IH flushed).
  - destruct Hs as [Hi Hs]. unfold rfw_Flush. destruct (w_Flusher (rfw_Writer rfw)); [|by apply (IH true)].
    apply (IH true); [done| | |done]; unfold writer_WriteHeader; rewrite Hi; clear IH Hf.
    + unfold consistent in *. destruct rfw as [[[h|] ct cl fl bd] buf st]; cbn in *; [done|]. by intros h [= <-].
    + by destruct rfw as [[[h|] ct cl fl bd] buf st].
Qed.

Lemma processJSONResponse_safe w statusCode cache rawResponse :
  w_Body w = "" ->
  safe_frame (w_Body (processJSONResponse authorizer ctx passThroughTools method parsed w statusCode cache rawResponse).1).
Proof.
  intros Hb. unfold processJSONResponse, writeErrorResponse.
  assert (forall st data, w_Body (writer_Write (writer_WriteHeader w st) data) = data) as Hw.
  { intros st data. by rewrite Write_body, WriteHeader_body, Hb. }
  assert (~ is_response rawResponse -> safe_frame (w_Body (if carriesResult rawResponse
    then (writer_Write (writer_WriteHeader w 500) (errorResponseBody (requestID parsed)), cache)
    else (writer_Write (writer_WriteHeader w statusCode) rawResponse, cache)).1)) as Hno.
  { intros Hn. destruct (carriesResult rawResponse) eqn:Ec; cbn [fst]; rewrite Hw; [apply errorResponseBody_ok|].
    by apply (released_safe rawResponse), released_as_is. }
  destruct (DecodeMessage rawResponse) as [[q|r]|] eqn:Ed; [apply Hno; intros [? ?]; congruence| |apply Hno; intros [? ?]; congruence].
  destruct (encode cache r) as [[data'|] c] eqn:Ee; cbn [fst]; rewrite Hw; [|apply errorResponseBody_ok].
  apply (released_safe rawResponse). by apply (filterAndEncode_ok _ _ _ _ _ Ed Ee).
Qed.

Lemma processSSEResponse_safe w cache rawResponse :
  w_Body w = "" ->
  Forall safe_frame (client_payloads
    (w_Body (processSSEResponse authorizer ctx passThroughTools method parsed w cache rawResponse).1)).
Proof.
  intros Hb. unfold processSSEResponse. pose proof (stream_frames cache (TrimPrefix rawResponse UTF8BOM)) as Hr.
  destruct (processEvents _ _ _ _) as [lines c]. cbn [fst] in *. rewrite write_lines_body, Hb.
  change ("" +:+ render lines) with (render lines). apply Forall_forall. intros p Hp.
  apply list_elem_of_lookup in Hp as [i Hi]. destruct (Forall2_lookup_r _ _ _ _ _ Hr Hi) as (q & _ & Hq).
  by apply (released_safe q).
Qed.

(** The headers that are sent name the media type the filter looked at. *)
Definition typed (w : Writer) : Prop := forall h, w_Sent w = Some h -> sh_ContentType h = w_ContentType w.

Lemma send_typed w status : typed w -> typed (send_headers w status) /\ w_ContentType (send_headers w status) = w_ContentType w.
Proof. unfold typed, send_headers. destruct (w_Sent w) eqn:E; [by rewrite E|]. intros _. split; [|done]. by intros h [= <-]. Qed.

Lemma WriteHeader_typed w status :
  typed w -> typed (writer_WriteHeader w status) /\ w_ContentType (writer_WriteHeader w status) = w_ContentType w.
Proof. unfold writer_WriteHeader. destruct (informational status); [done|apply send_typed]. Qed.

Lemma Write_typed w data : typed w -> typed (writer_Write w data) /\ w_ContentType (writer_Write w data) = w_ContentType w.
Proof. intros Hw. destruct (send_typed w 200 Hw) as [Ht Hc]. by split. Qed.

Lemma write_typed w status data :
  typed w -> let w' := writer_Write (writer_WriteHeader w status) data in typed w' /\ w_ContentType w' = w_ContentType w.
Proof.
  intros Hw. destruct (WriteHeader_typed w status Hw) as [Ht Hc]. destruct (Write_typed _ data Ht) as [Ht' Hc'].
  split; [done|congruence].
Qed.

Lemma write_lines_typed w lines :
  typed w -> typed (write_lines w lines) /\ w_ContentType (write_lines w lines) = w_ContentType w.
Proof.
  revert w. induction lines as [|l lines IH]; intros w Hw; [done|]. cbn [write_lines foldl].
  destruct (Write_typed w (sl_text l) Hw) as [H1 E1]. destruct (Write_typed _ (sl_term l) H1) as [H2 E2].
  destruct (IH _ H2) as [H3 E3]. split; [done|]. change (foldl _ ?w lines) with (write_lines w lines). congruence.
Qed.

Lemma FlushAndFilter_typed rfw cache :
  typed (rfw_Writer rfw) ->
  let w' := (FlushAndFilter authorizer ctx passThroughTools method parsed rfw cache).1 in
  typed w' /\ w_ContentType w' = w_ContentType (rfw_Writer rfw).
Proof.
  intros Hw. assert (typed (del_ContentLength (rfw_Writer rfw))) as Hd by exact Hw.
  unfold FlushAndFilter, processJSONResponse, processSSEResponse, writeErrorResponse.
  repeat (case_match || case_decide); cbn [fst];
    exact (write_typed _ _ _ Hw) || exact (write_typed _ _ _ Hd) || exact (write_lines_typed _ _ Hd).
Qed.

(** The bytes a handler writes. *)
Fixpoint written (calls : list writer_call) : string :=
  match calls with
  | [] => ""
  | CallWrite data :: calls => data +:+ written calls
  | _ :: calls => written calls
  end.

Lemma calls_buffer calls rfw : rfw_buffer (foldl rfw_call rfw calls) = rfw_buffer rfw +:+ written calls.
Proof.
  revert rfw. induction calls as [|c calls IH]; intros rfw; cbn [foldl written]; [by rewrite app_string_nil_r|].
  rewrite IH. destruct c; cbn [rfw_call rfw_buffer rfw_WriteHeader rfw_Write written]; [done..| |].
  - by rewrite app_string_assoc.
  - unfold rfw_Flush. by destruct (w_Flusher _).
Qed.

(** The shapes in which a released body is safe: as one message, as a stream, or, with
    another media type, in the shape it was recognised in. *)
Definition safe_body (mimeType backend body : string) : Prop :=
  if decide (mimeType = "application/json") then safe_frame body
  else if decide (mimeType = "text/event-stream") then Forall safe_frame (client_payloads body)
  else carriesResult backend = true /\ safe_frame body \/
       sseCarriesResult backend = true /\ Forall safe_frame (client_payloads body) \/
       body = backend /\ carriesResult backend = false /\ sseCarriesResult backend = false.

Lemma safe_body_empty mimeType : safe_body mimeType "" "".
Proof.
  destruct decode_empty as [Hd Hv]. assert (carriesResult "" = false) as Hc by (unfold carriesResult; by rewrite Hv).
  unfold safe_body. case_decide; [unfold safe_frame; by rewrite Hd|]. case_decide; [|by right; right].
  change (client_payloads "") with (@nil string). constructor.
Qed.

Lemma FlushAndFilter_safe rfw cache h :
  requiresResponseFiltering method = true -> consistent rfw -> w_Body (rfw_Writer rfw) = "" ->
  informational (rfw_statusCode rfw) = false ->
  let w' := (FlushAndFilter authorizer ctx passThroughTools method parsed rfw cache).1 in
  w_Sent w' = Some h -> (200 <= sh_Status h < 300)%Z ->
  safe_body (mime_type (sh_ContentType h)) (TrimPrefix (rfw_buffer rfw) UTF8BOM) (w_Body w').
Proof.
  intros Hm Hc Hb Hi w' Hs Hst.
  assert (sh_ContentType h = w_ContentType (rfw_Writer rfw)) as ->.
  { destruct (FlushAndFilter_typed rfw cache) as [Ht Et]; [intros ? ?; by apply Hc|]. by rewrite (Ht h Hs). }
  assert (forall w st data, w_Body w = "" -> w_Body (writer_Write (writer_WriteHeader w st) data) = data) as Hw.
  { intros w st data E. by rewrite Write_body, WriteHeader_body, E. }
  subst w'. unfold FlushAndFilter in *. rewrite Hm in *. cbn [negb] in *.
  destruct (_ || _)%Z eqn:Est.
  { exfalso. apply orb_true_iff in Est. assert (sh_Status h = rfw_statusCode rfw) as E; [|lia].
    cbn [fst] in Hs. unfold writer_Write, writer_WriteHeader in Hs. rewrite Hi in Hs. unfold send_headers in Hs.
    destruct (w_Sent (rfw_Writer rfw)) as [h'|] eqn:Eh; cbn in Hs; rewrite ?Eh in Hs; injection Hs as <-; [|done].
    by apply Hc. }
  clear Hs. case_decide as Er; [rewrite Er; cbn [fst]; rewrite Hw by done; apply safe_body_empty|].
  unfold safe_body. case_decide; [by apply processJSONResponse_safe|].
  case_decide; [by apply processSSEResponse_safe|].
  destruct (carriesResult _) eqn:Ej; [left; split; [done|]; by apply processJSONResponse_safe|].
  destruct (sseCarriesResult _) eqn:Es; [right; left; split; [done|]; by apply processSSEResponse_safe|].
  right. right. cbn [fst]. by rewrite Hw.
Qed.

(** C3. A response to a list operation that reaches the client with a 2xx status is
    safe, whatever the backend sent and however it labelled it: every frame that a
    reader of the announced media type finds in the bytes either carries no result or
    is a response whose items the caller may use. *)
Theorem response_filtered w cache calls h :
  requiresResponseFiltering method = true -> settled false 200 calls -> w_Sent w = None -> w_Body w = "" ->
  let w' := (serve_filtered authorizer ctx passThroughTools method parsed w cache calls).1 in
  w_Sent w' = Some h -> (200 <= sh_Status h < 300)%Z ->
  safe_body (mime_type (sh_ContentType h)) (TrimPrefix (written calls) UTF8BOM) (w_Body w').
Proof.
  intros Hm Hs Hw Hb. unfold serve_filtered.
  destruct (calls_consistent calls false (NewResponseFilteringWriter w)) as (Hc & Hb' & Hi); [done| |done|done|].
  { unfold consistent. cbn. by rewrite Hw. }
  pose proof (calls_buffer calls (NewResponseFilteringWriter w)) as Eb. cbn [NewResponseFilteringWriter rfw_buffer] in Eb.
  change (written calls) with ("" +:+ written calls). rewrite <- Eb. by apply FlushAndFilter_safe.
Qed.
End released.

(** ** A stream and a mislabelled body *)
Definition sample_writer (contentType : string) : Writer :=
  {| w_Sent := None; w_ContentType := contentType; w_ContentLength := Some "512"; w_Flusher := true; w_Body := "" |}.

(** A notification, then a list over two lines of the same event, with CRLF line ends. *)
Definition sample_notice : string :=
  sample_encode (MRequest {| rq_ID := NoID; rq_Method := "notifications/progress"; rq_Params := None |}).

Definition sample_stream : string :=
  "event: message" +:+ String CR (String LF ("data: " +:+ sample_notice +:+ String CR (String LF (String CR (String LF
  ("data: " +:+ sample_response (sample_tools_result ["echo"; "drop_tables"]) +:+ String LF
  ("data: " +:+ sample_notice +:+ String LF ""))))))).

Lemma stream_released_witness :
  exists body,
    w_Body (@processSSEResponse sample_codec sample_mcp (sample_authorizer ["echo"]) sample_context ∅ "tools/list" None
              (sample_writer "text/event-stream") (Some ∅) sample_stream).1 = body /\
    Forall2 (@released sample_codec sample_mcp (sample_authorizer ["echo"]) sample_context ∅ "tools/list" None)
      (client_payloads (TrimPrefix sample_stream UTF8BOM)) (client_payloads body) /\
    client_payloads body = [sample_notice; @errorResponseBody sample_codec NoID].
Proof.
  destruct (@stream_released sample_codec sample_mcp sample_codec_ok sample_mcp_ok (sample_authorizer ["echo"])
    sample_context ∅ "tools/list" None (sample_writer "text/event-stream") (Some ∅) sample_stream) as (body & Hb & Hr).
  exists body. split_and!; [done..|]. revert Hb.
  change (w_Body (sample_writer "text/event-stream") +:+ body) with body. intros <-. vm_compute. reflexivity.
Defined.

(** The backend labels a list as plain text and flushes it with a 201. *)
Definition sample_calls : list writer_call :=
  [CallSetHeaders "text/plain" (Some "77"); CallWriteHeader 201; CallFlush;
   CallWrite (UTF8BOM +:+ sample_response (sample_tools_result ["echo"; "drop_tables"]))].

Lemma response_filtered_witness :
  let w' := (@serve_filtered sample_codec sample_mcp (sample_authorizer ["echo"]) sample_context ∅ "tools/list" None
               (sample_writer "text/plain") (Some ∅) sample_calls).1 in
  w_Sent w' = Some {| sh_Status := 201; sh_ContentType := "text/plain"; sh_ContentLength := None |} /\
  w_Body w' = sample_response (sample_tools_result ["echo"]) /\
  @safe_body sample_codec sample_mcp (sample_authorizer ["echo"]) sample_context ∅ "tools/list" (mime_type "text/plain")
    (TrimPrefix (written sample_calls) UTF8BOM) (w_Body w').
Proof.
  split; [vm_compute; reflexivity|]. split; [vm_compute; reflexivity|].
  apply (@response_filtered sample_codec sample_mcp sample_codec_ok sample_mcp_ok (sample_authorizer ["echo"])
    sample_context ∅ "tools/list" None (sample_writer "text/plain") (Some ∅) sample_calls
    {| sh_Status := 201; sh_ContentType := "text/plain"; sh_ContentLength := None |}); [reflexivity| |reflexivity| | |].
  - repeat split.
  - reflexivity.
  - vm_compute. reflexivity.
  - cbn. lia.
Defined.
