(* ===== verification/AuthzMiddleware.v ===== *)
(** * The authorization middleware ([pkg/authz/middleware.go])

    Every request passes the parser and then this middleware, which refuses it, serves
    it, or serves it and filters the response.  What it decides is a [verdict]; what a
    verdict does to the response is [serve].  The backend is the handler that comes
    next: what it does with the response writer is a function of the request and of the
    context it is called with. *)

From Stdlib Require Import Ascii.
From S2P Require Import Prelude GoStrings VmcpTypes SessionBinding ParamHeaders Admission EventStream JsonRpc RequestParser AuthzLists SampleCodec ResponseFilter.

(** ** Methods *)
Record featureOperation := {
  op_Feature : option MCPFeature;
  op_Operation : option MCPOperation;
}.

Definition protocol_level : featureOperation := {| op_Feature := None; op_Operation := None |}.
Definition feature_op (f : MCPFeature) (o : MCPOperation) : featureOperation :=
  {| op_Feature := Some f; op_Operation := Some o |}.

Definition method_table : list (string * featureOperation) :=
    [("initialize", protocol_level);
     ("ping", protocol_level);
     ("tools/call", feature_op MCPFeatureTool MCPOperationCall);
     ("tools/list", feature_op MCPFeatureTool MCPOperationList);
     ("prompts/get", feature_op MCPFeaturePrompt MCPOperationGet);
     ("prompts/list", feature_op MCPFeaturePrompt MCPOperationList);
     ("resources/read", feature_op MCPFeatureResource MCPOperationRead);
     ("resources/list", feature_op MCPFeatureResource MCPOperationList);
     ("resources/templates/list", feature_op MCPFeatureResource MCPOperationList);
     ("resources/subscribe", feature_op MCPFeatureResource MCPOperationRead);
     ("resources/unsubscribe", feature_op MCPFeatureResource MCPOperationRead);
     ("features/list", {| op_Feature := None; op_Operation := Some MCPOperationList |});
     ("roots/list", protocol_level);
     ("server/discover", protocol_level);
     ("subscriptions/listen", protocol_level);
     ("logging/setLevel", protocol_level);
     ("completion/complete", protocol_level);
     ("notifications/message", protocol_level);
     ("notifications/initialized", protocol_level);
     ("notifications/progress", protocol_level);
     ("notifications/cancelled", protocol_level);
     ("notifications/roots/list_changed", protocol_level);
     ("notifications/tools/list_changed", protocol_level);
     ("notifications/prompts/list_changed", protocol_level);
     ("notifications/resources/list_changed", protocol_level);
     ("notifications/resources/updated", protocol_level);
     ("notifications/tasks/status", protocol_level)].

Definition MCPMethodToFeatureOperation : gmap string featureOperation := list_to_map method_table.

Definition shouldSkipInitialAuthorization (r : HttpRequest) : bool :=
  if negb (bool_decide (hr_Method r = "POST")) then true
  else HasSuffix (hr_Path r) HTTPSSEEndpoint.

Definition shouldSkipSubsequentAuthorization (method : string) : bool :=
  bool_decide (method = "ping") || bool_decide (method = "initialize").

(** ** The arguments of a meta-tool ([optimizer.CallToolInput]) *)
Record CallToolInput := {
  ci_ToolName : string;
  ci_Parameters : option fields;
}.

Definition callToolArgToolName : string := "tool_name".

Definition delete_key (key : string) (m : fields) : fields := filter (fun kv => kv.1 <> key) m.

Definition resolveCallToolTarget (name : string) (params : option fields) : string * option fields :=
  if negb (bool_decide (name = "")) then (name, params)
  else
    match non_empty (as_string (lookup_map params callToolArgToolName)) with
    | None => (name, params)
    | Some nested => (nested, delete_key callToolArgToolName <$> params)
    end.

Section decode.
Context `{Codec}.

(** The fields of an object in their order, into a struct: keys match without regard to
    case, a later key overwrites, a null leaves a string and empties a map, and objects
    decode into the map that is there. *)
Fixpoint decode_input (object : fields) (input : CallToolInput) : option CallToolInput :=
  match object with
  | [] => Some input
  | (key, value) :: object =>
      if field_matches key "tool_name" then
        match value with
        | JStr s => decode_input object {| ci_ToolName := s; ci_Parameters := ci_Parameters input |}
        | JNull => decode_input object input
        | _ => None
        end
      else if field_matches key "parameters" then
        match value with
        | JObj m =>
            let old := default [] (ci_Parameters input) in
            let kept := filter (fun kv => kv.1 ∉ m.*1) old in
            decode_input object {| ci_ToolName := ci_ToolName input; ci_Parameters := Some (kept ++ m) |}
        | JNull => decode_input object {| ci_ToolName := ci_ToolName input; ci_Parameters := None |}
        | _ => None
        end
      else decode_input object input
  end.

(** [schema.Translate[optimizer.CallToolInput]]: an encoder writes the keys of a map in
    order, and a nil map as a null. *)
Definition TranslateCallToolInput (arguments : option fields) : option CallToolInput :=
  let object :=
    match arguments with
    | None => []
    | Some m => merge_sort (fun x y => String.le x.1 y.1) m
    end in
  match decode_input object {| ci_ToolName := ""; ci_Parameters := None |} with
  | None => None
  | Some raw =>
      let (name, params) := resolveCallToolTarget (ci_ToolName raw) (ci_Parameters raw) in
      Some {| ci_ToolName := name; ci_Parameters := params |}
  end.
End decode.

(** ** Verdicts *)
Inductive verdict :=
  | Reject (marked : bool)
  | Deny (id : json)
  | Serve (ctx : authz_context)
  | ServeFiltered (method : string).

Section middleware.
Context `{Codec} `{McpCodec} `{MediaParams}.
Context (a : Authorizer) (passThroughTools : gset string).

Definition authorizeAndServe (cache : option AnnotationCache) (ctx : authz_context) (feature : MCPFeature)
    (operation : MCPOperation) (msgID : json) (toolName : string) (args : option fields) : verdict :=
  let ctx :=
    match AnnotationCache_Get cache toolName with
    | Some ann => WithToolAnnotations ctx ann
    | None => ctx
    end in
  match AuthorizeWithJWTClaims a ctx feature operation toolName args with
  | Some true => Serve ctx
  | _ => Deny msgID
  end.

Definition handleToolsCall (cache : option AnnotationCache) (ctx : authz_context) (parsedRequest : ParsedMCPRequest)
    : verdict :=
  if decide (pr_ResourceID parsedRequest ∈ passThroughTools) then
    match TranslateCallToolInput (pr_Arguments parsedRequest) with
    | None => Deny (pr_ID parsedRequest)
    | Some input =>
        if negb (bool_decide (ci_ToolName input = "")) then
          authorizeAndServe cache ctx MCPFeatureTool MCPOperationCall (pr_ID parsedRequest)
            (ci_ToolName input) (ci_Parameters input)
        else if decide (pr_ResourceID parsedRequest = FindToolName) then ServeFiltered FindToolName
        else Serve ctx
    end
  else
    authorizeAndServe cache ctx MCPFeatureTool MCPOperationCall (pr_ID parsedRequest)
      (pr_ResourceID parsedRequest) (pr_Arguments parsedRequest).

(** The handler of [Middleware]; a rejection says whether the denial marker is set.  The
    map has no other pairs than the ones matched here. *)
Definition Middleware (cache : option AnnotationCache) (ctx : authz_context) (r : HttpRequest) : verdict :=
  if bool_decide (hr_Method r = "POST") && negb (RequestHasJSONContentType r) then Reject true
  else if shouldSkipInitialAuthorization r then Serve ctx
  else
    match hr_Parsed r with
    | None => Reject false
    | Some parsedRequest =>
        if shouldSkipSubsequentAuthorization (pr_Method parsedRequest) then Serve ctx
        else
          match MCPMethodToFeatureOperation !! pr_Method parsedRequest with
          | None => Deny (pr_ID parsedRequest)
          | Some featureOp =>
              match op_Feature featureOp, op_Operation featureOp with
              | None, None => Serve ctx
              | _, Some MCPOperationList => ServeFiltered (pr_Method parsedRequest)
              | Some MCPFeatureTool, Some MCPOperationCall => handleToolsCall cache ctx parsedRequest
              | Some feature, Some operation =>
                  authorizeAndServe cache ctx feature operation (pr_ID parsedRequest)
                    (pr_ResourceID parsedRequest) (pr_Arguments parsedRequest)
              | _, _ => Deny (pr_ID parsedRequest)
              end
          end
    end.

(** ** The response *)
Definition handleUnauthorized (w : Writer) (msgID : json) : Writer :=
  let id := default NoID (ConvertToJSONRPC2ID msgID) in
  let body := EncodeJSONRPCError {| rs_ID := id; rs_Result := None;
                                    rs_Error := Some {| re_Code := 403; re_Message := "Unauthorized" |} |} in
  writer_Write (writer_WriteHeader (set_headers w "application/json" (w_ContentLength w)) 403) body.

Definition rejectInvalidMCPRequest (w : Writer) : Writer :=
  writer_Write (writer_WriteHeader (set_headers w "text/plain; charset=utf-8" None) 400)
    ("Invalid or malformed MCP request" +:+ String LF "").

Definition serve (next : HttpRequest -> authz_context -> list writer_call) (cache : option AnnotationCache)
    (ctx : authz_context) (r : HttpRequest) (w : Writer) : Writer * option AnnotationCache :=
  match Middleware cache ctx r with
  | Reject _ => (rejectInvalidMCPRequest w, cache)
  | Deny id => (handleUnauthorized w id, cache)
  | Serve ctx' => (foldl writer_call_do w (next r ctx'), cache)
  | ServeFiltered method =>
      serve_filtered a ctx passThroughTools method (hr_Parsed r) w cache (next r ctx)
  end.
End middleware.

(** ** What reaches the backend *)
Definition always_allowed : list string :=
  ["initialize"; "ping"; "roots/list"; "server/discover"; "subscriptions/listen"; "logging/setLevel";
   "completion/complete"; "notifications/message"; "notifications/initialized"; "notifications/progress";
   "notifications/cancelled"; "notifications/roots/list_changed"; "notifications/tools/list_changed";
   "notifications/prompts/list_changed"; "notifications/resources/list_changed"; "notifications/resources/updated";
   "notifications/tasks/status"].

(** Lists whose responses are filtered, and lists that the filtering writer passes on. *)
Definition filtered_lists : list string := ["tools/list"; "prompts/list"; "resources/list"].

Definition unfiltered_lists : list string := ["resources/templates/list"; "features/list"].

Definition list_methods : list string := filtered_lists ++ unfiltered_lists.

Definition resource_methods : list string := ["resources/read"; "resources/subscribe"; "resources/unsubscribe"].

(** Which methods the table pairs with which operation. *)
Definition classified (entry : string * featureOperation) : bool :=
  match op_Feature entry.2, op_Operation entry.2 with
  | None, None => bool_decide (entry.1 ∈ always_allowed)
  | _, Some MCPOperationList => bool_decide (entry.1 ∈ list_methods)
  | Some MCPFeatureTool, Some MCPOperationCall => bool_decide (entry.1 = "tools/call")
  | Some MCPFeaturePrompt, Some MCPOperationGet => bool_decide (entry.1 = "prompts/get")
  | Some MCPFeatureResource, Some MCPOperationRead => bool_decide (entry.1 ∈ resource_methods)
  | _, _ => false
  end.

Lemma method_classified method fo :
  MCPMethodToFeatureOperation !! method = Some fo -> classified (method, fo) = true.
Proof.
  intros Hl%elem_of_list_to_map_2%list_elem_of_In. assert (forallb classified method_table = true) as Ht by by vm_compute.
  rewrite forallb_forall in Ht. by apply Ht.
Qed.

Section gate.
Context `{Codec} `{McpCodec} `{MediaParams}.
Context (a : Authorizer) (passThroughTools : gset string) (cache : option AnnotationCache) (ctx : authz_context).

(** The parameters of a request as the backend will read them. *)
Definition params_of (req : RpcRequest) : option fields :=
  match rq_Params req with
  | Some params => default None (UnmarshalMap params)
  | None => None
  end.

Definition param_text (req : RpcRequest) (key : string) : string := default "" (as_string (lookup_map (params_of req) key)).
Definition call_arguments (req : RpcRequest) : option fields := as_object (lookup_map (params_of req) "arguments").

Definition call_context (name : string) : authz_context :=
  match AnnotationCache_Get cache name with
  | Some ann => WithToolAnnotations ctx ann
  | None => ctx
  end.

Definition authorized (feature : MCPFeature) (operation : MCPOperation) (name : string) (args : option fields) : Prop :=
  AuthorizeWithJWTClaims a (call_context name) feature operation name args = Some true.

Inductive permitted (req : RpcRequest) : verdict -> Prop :=
  | permitted_protocol : rq_Method req ∈ always_allowed -> permitted req (Serve ctx)
  | permitted_list :
      rq_Method req ∈ filtered_lists -> requiresResponseFiltering (rq_Method req) = true ->
      permitted req (ServeFiltered (rq_Method req))
  | permitted_unfiltered :
      rq_Method req ∈ unfiltered_lists -> requiresResponseFiltering (rq_Method req) = false ->
      permitted req (ServeFiltered (rq_Method req))
  | permitted_tool :
      rq_Method req = "tools/call" -> param_text req "name" ∉ passThroughTools ->
      authorized MCPFeatureTool MCPOperationCall (param_text req "name") (call_arguments req) ->
      permitted req (Serve (call_context (param_text req "name")))
  | permitted_target input :
      rq_Method req = "tools/call" -> param_text req "name" ∈ passThroughTools ->
      TranslateCallToolInput (call_arguments req) = Some input -> ci_ToolName input <> "" ->
      authorized MCPFeatureTool MCPOperationCall (ci_ToolName input) (ci_Parameters input) ->
      permitted req (Serve (call_context (ci_ToolName input)))
  | permitted_find input :
      rq_Method req = "tools/call" -> param_text req "name" = FindToolName -> FindToolName ∈ passThroughTools ->
      TranslateCallToolInput (call_arguments req) = Some input -> ci_ToolName input = "" ->
      permitted req (ServeFiltered FindToolName)
  | permitted_meta input :
      rq_Method req = "tools/call" -> param_text req "name" ∈ passThroughTools -> param_text req "name" <> FindToolName ->
      TranslateCallToolInput (call_arguments req) = Some input -> ci_ToolName input = "" ->
      permitted req (Serve ctx)
  | permitted_prompt :
      rq_Method req = "prompts/get" ->
      authorized MCPFeaturePrompt MCPOperationGet (param_text req "name") (call_arguments req) ->
      permitted req (Serve (call_context (param_text req "name")))
  | permitted_resource :
      rq_Method req ∈ resource_methods ->
      authorized MCPFeatureResource MCPOperationRead (param_text req "uri") None ->
      permitted req (Serve (call_context (param_text req "uri"))).

Definition reaches_backend (v : verdict) : Prop :=
  match v with Serve _ | ServeFiltered _ => True | Reject _ | Deny _ => False end.

Lemma handler_named method :
  method = "tools/call" \/ method = "prompts/get" -> methodHandlers !! method = Some handleNamedResourceMethod.
Proof. by intros [-> | ->]. Qed.

Lemma handler_resource method : method ∈ resource_methods -> methodHandlers !! method = Some (handle_key "uri").
Proof. unfold resource_methods. rewrite !elem_of_cons, elem_of_nil. by intros [->|[->|[->|[]]]]. Qed.

Lemma static_resource method : method ∈ resource_methods -> getStaticResourceID method = "".
Proof. unfold resource_methods. rewrite !elem_of_cons, elem_of_nil. by intros [->|[->|[->|[]]]]. Qed.

Lemma extract_with method handler params :
  methodHandlers !! method = Some handler -> handler None = ("", None) -> getStaticResourceID method = "" ->
  (extractResourceAndArguments method params).1 =
  handler (match params with Some params => default None (UnmarshalMap params) | None => None end).
Proof.
  intros Hm Hn Hs. unfold extractResourceAndArguments. rewrite Hs.
  destruct params as [params|]; [|by symmetry]. destruct (UnmarshalMap params); [|by symmetry].
  unfold processMethodWithHandler. cbn [fst]. by rewrite Hm.
Qed.

Lemma authorizeAndServe_permitted feature operation id name args v :
  authorizeAndServe a cache ctx feature operation id name args = v -> reaches_backend v ->
  v = Serve (call_context name) /\ authorized feature operation name args.
Proof.
  unfold authorizeAndServe, authorized. fold (call_context name). intros <-.
  by destruct (AuthorizeWithJWTClaims a (call_context name) _ _ _ _) as [[]|].
Qed.

(** A parsed request is the request of the body. *)
Lemma parseMCPRequest_spec body p :
  parseMCPRequest body = Some p ->
  exists req, DecodeMessage body = Some (MRequest req) /\ pr_Method p = rq_Method req /\
    (pr_ResourceID p, pr_Arguments p) = (extractResourceAndArguments (rq_Method req) (rq_Params req)).1.
Proof.
  unfold parseMCPRequest. case_decide; [done|]. destruct (DecodeMessage body) as [[req|]|]; [|done..].
  destruct (extractResourceAndArguments _ _) as [[rid args] meta] eqn:E. destruct (extractModernMeta meta) as [ci pv].
  intros [= <-]. exists req. cbn. by rewrite E.
Qed.

Lemma handleToolsCall_permitted req p v :
  rq_Method req = "tools/call" -> pr_ResourceID p = param_text req "name" -> pr_Arguments p = call_arguments req ->
  handleToolsCall a passThroughTools cache ctx p = v -> reaches_backend v -> permitted req v.
Proof.
  intros Hm Hn Ha. unfold handleToolsCall. rewrite Hn, Ha. intros Hv Hr. case_decide as Hp.
  - destruct (TranslateCallToolInput _) as [input|] eqn:Et; [|by subst].
    destruct (bool_decide (ci_ToolName input = "")) eqn:En; cbn [negb] in Hv.
    + apply bool_decide_eq_true in En. case_decide as Ef; subst v.
      * apply (permitted_find _ input); by rewrite ?Ef in *.
      * by apply (permitted_meta _ input).
    + apply bool_decide_eq_false in En. destruct (authorizeAndServe_permitted _ _ _ _ _ _ Hv Hr) as [-> Hau].
      by apply (permitted_target _ input).
  - destruct (authorizeAndServe_permitted _ _ _ _ _ _ Hv Hr) as [-> Hau]. by apply permitted_tool.
Qed.

Lemma list_permitted req : rq_Method req ∈ list_methods -> permitted req (ServeFiltered (rq_Method req)).
Proof.
  intros [Hl|Hl]%elem_of_app; [apply permitted_list|apply permitted_unfiltered]; try done;
    repeat (apply elem_of_cons in Hl as [->|Hl]; [done|]); by apply not_elem_of_nil in Hl.
Qed.

Lemma Middleware_permitted r p req v :
  hr_Method r = "POST" -> HasSuffix (hr_Path r) HTTPSSEEndpoint = false -> hr_Parsed r = Some p ->
  pr_Method p = rq_Method req ->
  (pr_ResourceID p, pr_Arguments p) = (extractResourceAndArguments (rq_Method req) (rq_Params req)).1 ->
  Middleware a passThroughTools cache ctx r = v -> reaches_backend v -> permitted req v.
Proof.
  intros Hpost Hsse Hp Hm He. unfold Middleware, shouldSkipInitialAuthorization. rewrite Hpost, Hsse, Hp, Hm.
  rewrite bool_decide_true by done. cbn [negb andb]. destruct (negb _); [by intros <-|].
  unfold shouldSkipSubsequentAuthorization.
  destruct (bool_decide (rq_Method req = "ping") || bool_decide (rq_Method req = "initialize")) eqn:Eskip.
  { intros <- _. apply permitted_protocol. rewrite orb_true_iff, !bool_decide_eq_true in Eskip.
    destruct Eskip as [-> | ->]; apply (bool_decide_eq_true_1 _); by vm_compute. }
  clear Eskip. destruct (MCPMethodToFeatureOperation !! rq_Method req) as [fo|] eqn:El; [|by intros <-].
  apply method_classified in El. unfold classified in El. cbn [fst snd] in El. intros Hv Hr.
  destruct (op_Feature fo) as [[]|], (op_Operation fo) as [[]|]; try discriminate El;
    apply bool_decide_eq_true in El; try (subst v; by apply list_permitted || by apply permitted_protocol).
  - rewrite (extract_with _ handleNamedResourceMethod) in He; [|by rewrite El; apply handler_named; left|done|by rewrite El].
    injection He as Hn Ha. by apply (handleToolsCall_permitted req p).
  - rewrite (extract_with _ handleNamedResourceMethod) in He; [|by rewrite El; apply handler_named; right|done|by rewrite El].
    injection He as Hn Ha. rewrite Hn, Ha in Hv.
    destruct (authorizeAndServe_permitted _ _ _ _ _ _ Hv Hr) as [-> Hau]. by apply permitted_prompt.
  - rewrite (extract_with _ (handle_key "uri")) in He; [|by apply handler_resource|done|by apply static_resource].
    injection He as Hn Ha. rewrite Hn, Ha in Hv.
    destruct (authorizeAndServe_permitted _ _ _ _ _ _ Hv Hr) as [-> Hau]. by apply permitted_resource.
Qed.

End gate.

(** ** Lists and calls *)
Lemma SetFromToolsList_get c tools t :
  t ∈ tools -> (forall u, u ∈ tools -> mt_Name u = mt_Name t -> u = t) ->
  AnnotationCache_Get (SetFromToolsList (Some c) tools) (mt_Name t) =
  if hasAnyHint (mt_Annotations t) then Some (convertMCPAnnotation (mt_Annotations t)) else None.
Proof.
  intros Ht Hu. cbn [SetFromToolsList AnnotationCache_Get].
  set (add := fun (newTools : AnnotationCache) u => if negb (hasAnyHint (mt_Annotations u)) then newTools
     else <[mt_Name u := convertMCPAnnotation (mt_Annotations u)]> newTools).
  assert (forall l, (forall u, u ∈ l -> u ∈ tools) -> t ∈ l ->
    foldl add ∅ l !! mt_Name t =
    if hasAnyHint (mt_Annotations t) then Some (convertMCPAnnotation (mt_Annotations t)) else None) as Hl.
  2:{ by apply Hl. }
  assert (forall l, (forall u, u ∈ l -> u ∈ tools) -> hasAnyHint (mt_Annotations t) = false ->
    foldl add ∅ l !! mt_Name t = None) as Hno.
  { intros l Hin Eh. induction l as [|u l IH] using rev_ind; [done|]. rewrite foldl_snoc. unfold add at 1.
    rewrite <- IH by (intros v ?; apply Hin; set_solver).
    destruct (decide (mt_Name u = mt_Name t)) as [En|En]; [|destruct (negb _); [done|by rewrite lookup_insert_ne]].
    assert (u = t) as -> by (apply Hu; [apply Hin; set_solver|done]). by rewrite Eh. }
  intros l Hin Hl. destruct (hasAnyHint (mt_Annotations t)) eqn:Eh; [|by apply Hno].
  induction l as [|u l IH] using rev_ind; [by apply not_elem_of_nil in Hl|]. rewrite foldl_snoc. unfold add at 1.
  destruct (decide (mt_Name u = mt_Name t)) as [En|En].
  - assert (u = t) as -> by (apply Hu; [apply Hin; set_solver|done]). rewrite Eh. cbn. by rewrite lookup_insert_eq.
  - rewrite <- IH by ((intros v ?; apply Hin; set_solver) || set_solver).
    destruct (negb _); [done|]. by rewrite lookup_insert_ne.
Qed.

(** A tool that a list shows can be called: after the response to a tools/list has
    been filtered, a call of a listed tool without arguments by the same caller is
    decided with the same annotations, and so it is served.  The tool's name must occur
    once in the backend's list. *)
Theorem listed_tool_callable `{Codec} `{McpCodec} a passThroughTools ctx c response result listResult t p :
  UnmarshalListTools result = Some listResult -> t ∈ lt_Tools listResult -> mt_Name t ∉ passThroughTools ->
  (forall u, u ∈ lt_Tools listResult -> mt_Name u = mt_Name t -> u = t) -> may_call a ctx t ->
  pr_ResourceID p = mt_Name t -> pr_Arguments p = None ->
  let cache := (filterToolsResponse a ctx passThroughTools (Some c) response result).2 in
  handleToolsCall a passThroughTools cache ctx p = Serve (tool_context ctx t).
Proof.
  intros El Ht Hp Hu Hm Hr Ha cache. subst cache. unfold filterToolsResponse. rewrite El. cbn [snd].
  unfold handleToolsCall. rewrite Hr, Ha, decide_False by done.
  unfold authorizeAndServe. rewrite (SetFromToolsList_get c _ t Ht Hu). unfold may_call, tool_context in *.
  by destruct (hasAnyHint (mt_Annotations t)); rewrite Hm.
Qed.

(** ** Samples *)

(** Only tools that say they are read-only. *)
Definition read_only_policy : Authorizer :=
  fun _ ann _ _ _ _ => Some (bool_decide ((ann ≫= az_ReadOnlyHint) = Some true)).

Definition read_only_tool (name : string) : mcpTool :=
  {| mt_Name := name; mt_Rest := JNull;
     mt_Annotations := {| ann_Title := ""; ann_ReadOnlyHint := Some true; ann_DestructiveHint := None;
                          ann_IdempotentHint := None; ann_OpenWorldHint := None |} |}.

Definition sample_page (tools : list mcpTool) : string := enc_list "T" (enc_tool <$> tools).

Definition sample_call (name : string) : ParsedMCPRequest :=
  {| pr_Method := "tools/call"; pr_ID := JNum 2; pr_Params := None; pr_ResourceID := name; pr_Arguments := None;
     pr_Meta := None; pr_MCPMethodHeader := ""; pr_MCPNameHeader := ""; pr_ClientInfo := None; pr_ProtocolVersion := "";
     pr_IsRequest := true; pr_IsBatch := false |}.

Definition sample_list_response (tools : list mcpTool) : RpcResponse :=
  {| rs_ID := Int64ID 1; rs_Result := Some (sample_page tools); rs_Error := None |}.

Lemma listed_tool_callable_witness :
  let tools := [read_only_tool "search"; sample_tool "delete"] in
  let cache := (@filterToolsResponse sample_mcp read_only_policy sample_context ∅ (Some ∅) (sample_list_response tools)
                  (sample_page tools)).2 in
  @handleToolsCall sample_codec read_only_policy ∅ cache sample_context (sample_call "search") =
  Serve (tool_context sample_context (read_only_tool "search")).
Proof.
  apply (@listed_tool_callable sample_codec sample_mcp read_only_policy ∅ sample_context ∅
    (sample_list_response [read_only_tool "search"; sample_tool "delete"])
    (sample_page [read_only_tool "search"; sample_tool "delete"])
    {| lt_Paginated := JNull; lt_Tools := [read_only_tool "search"; sample_tool "delete"] |}
    (read_only_tool "search") (sample_call "search")).
  - vm_compute. reflexivity.
  - by left.
  - apply not_elem_of_empty.
  - intros u. cbn [lt_Tools]. rewrite !elem_of_cons, elem_of_nil. intros [->|[->|[]]]; done.
  - vm_compute. reflexivity.
  - reflexivity.
  - reflexivity.
Defined.

Definition sample_request (contentType body : string) : HttpRequest :=
  {| hr_Method := "POST"; hr_Path := "/mcp"; hr_ContentType := contentType; hr_McpMethod := ""; hr_McpName := "";
     hr_Body := Some body; hr_Parsed := None |}.

(** A call of [echo], in the sample format. *)
Definition sample_call_message : RpcRequest :=
  {| rq_ID := Int64ID 1; rq_Method := "tools/call"; rq_Params := Some (frame ["name"; Base64.EncodeToString "echo"]) |}.

Definition sample_call_body : string := sample_encode (MRequest sample_call_message).

Definition no_media_params : MediaParams := fun rest => bool_decide (rest = "").

