(* ===== verification/FilterLimits.v ===== *)
(** * Where the response filter ends

    Responses that pass the filters of [AuthzMiddleware] and [ResponseFilter] with more
    than the caller may see, or that make a listed tool uncallable.  Each statement is
    about the same definitions as the guarantees. *)

From Stdlib Require Import Ascii.
From S2P Require Import Prelude GoStrings VmcpTypes SessionBinding ParamHeaders Admission EventStream JsonRpc RequestParser AuthzLists SampleCodec ResponseFilter AuthzMiddleware.

(** ** Byte order marks *)

Section limits.
Context {cdc : Codec} {mcp : McpCodec}.
Context (a : Authorizer) (ctx : authz_context) (passThroughTools : gset string).

(** C38. The filter strips one byte order mark and its client strips one more: a JSON body
    behind two of them reaches a client that follows the decoding the code cites
    unfiltered, because a JSON decoder takes a byte order mark for a syntax error and
    finds no result behind it. *)
Theorem double_bom_unfiltered method parsed w cache body :
  (forall s, DecodeMessage (UTF8BOM +:+ s) = None) -> (forall s, json_values (UTF8BOM +:+ s) = []) ->
  mime_type (w_ContentType w) = "application/json" -> w_Body w = "" ->
  let w' := (serve_filtered a ctx passThroughTools method parsed w cache [CallWrite (UTF8BOM +:+ (UTF8BOM +:+ body))]).1 in
  requiresResponseFiltering method = true -> TrimPrefix (w_Body w') UTF8BOM = body.
Proof.
  intros Hd Hv Hmime Hb w' Hm. subst w'. unfold serve_filtered, FlushAndFilter.
  cbn [foldl rfw_call rfw_Write NewResponseFilteringWriter rfw_statusCode rfw_buffer rfw_Writer].
  change ("" +:+ ?s) with s. rewrite Hm, TrimPrefix_app. cbn [negb orb Z.ltb Z.leb Z.compare Pos.compare Pos.compare_cont].
  rewrite decide_False by done. rewrite Hmime, decide_True by done.
  unfold processJSONResponse. rewrite Hd. unfold carriesResult. rewrite Hv. cbn [existsb fst].
  rewrite Write_body, WriteHeader_body. cbn [del_ContentLength w_Body]. rewrite Hb.
  change ("" +:+ ?s) with s. apply TrimPrefix_app.
Qed.

(** ** The response of the search tool *)

(** The filter of the search tool rewrites one text item of the result; the
    structured content, which the search tool fills with the same list, stays as it
    was. *)
Theorem find_tool_structured_kept {mok : McpCodecOk cdc mcp} cache response result call response' cache' data call' :
  rs_Result response = Some result -> UnmarshalCallResult result = Some call ->
  filterFindToolResponse a ctx cache response result = (Some response', cache') ->
  rs_Result response' = Some data -> UnmarshalCallResult data = Some call' ->
  cr_StructuredContent call' = cr_StructuredContent call.
Proof.
  intros Hr Hc. unfold filterFindToolResponse. rewrite Hc.
  assert (Some response = Some response' -> rs_Result response' = Some data -> UnmarshalCallResult data = Some call' ->
    cr_StructuredContent call' = cr_StructuredContent call) as Hsame by (intros [= <-]; congruence).
  destruct (cr_IsError call); [intros [= E _]; apply Hsame; by rewrite E|].
  destruct (find_output _ _) as [[[i ty] o]|]; [|intros [= E _]; apply Hsame; by rewrite E].
  destruct (MarshalFindTool _) as [text|]; [|done]. unfold with_result.
  destruct (MarshalCallResult _) as [out|] eqn:Eo; [|done]. intros [= <- _] [= <-] Hc'.
  by destruct (call_read _ _ _ Eo Hc') as (_ & -> & _).
Qed.

(** A call of the search tool whose arguments also name a tool the caller may call
    is authorized as a call of that tool, and its response is not filtered: the client
    gets what the backend wrote. *)
Theorem find_tool_named_unfiltered `{MediaParams} next cache r p input w :
  hr_Method r = "POST" -> RequestHasJSONContentType r = true -> HasSuffix (hr_Path r) HTTPSSEEndpoint = false ->
  hr_Parsed r = Some p -> pr_Method p = "tools/call" -> pr_ResourceID p = FindToolName ->
  FindToolName ∈ passThroughTools -> TranslateCallToolInput (pr_Arguments p) = Some input -> ci_ToolName input <> "" ->
  authorized a cache ctx MCPFeatureTool MCPOperationCall (ci_ToolName input) (ci_Parameters input) ->
  (serve a passThroughTools next cache ctx r w).1 =
  foldl writer_call_do w (next r (call_context cache ctx (ci_ToolName input))).
Proof.
  intros Hpost Hj Hs Hp Hm Hn Hpt Ht Hne Ha.
  assert (Middleware a passThroughTools cache ctx r = Serve (call_context cache ctx (ci_ToolName input))) as E.
  { unfold Middleware, shouldSkipInitialAuthorization. rewrite Hpost, Hj, Hs, Hp, bool_decide_true by done.
    cbn [negb andb]. rewrite Hm. change (shouldSkipSubsequentAuthorization "tools/call") with false.
    change (MCPMethodToFeatureOperation !! "tools/call") with (Some (feature_op MCPFeatureTool MCPOperationCall)).
    cbn [feature_op op_Feature op_Operation]. unfold handleToolsCall. rewrite Hn, decide_True, Ht by done.
    rewrite bool_decide_false by done. cbn [negb]. unfold authorizeAndServe. fold (call_context cache ctx (ci_ToolName input)).
    unfold authorized in Ha. by rewrite Ha. }
  unfold serve. by rewrite E.
Qed.
End limits.

(** ** Samples *)
Lemma Split_head c a s : c <> a -> exists rest parts, Split c (String a s) = String a rest :: parts.
Proof.
  intros Ha. cbn [Split]. rewrite decide_False by done. pose proof (Split_not_nil c s).
  destruct (Split c s) as [|part parts]; [done|]. by eexists _, _.
Qed.

Lemma sample_bom s : @DecodeMessage sample_codec (UTF8BOM +:+ s) = None /\ @json_values sample_codec (UTF8BOM +:+ s) = [].
Proof.
  assert (parse_frame (UTF8BOM +:+ s) = None) as Hp by done. cbn [DecodeMessage json_values sample_codec].
  unfold sample_decode, sample_values. rewrite Hp. split; [done|].
  destruct (Split_head LF "239" (String "187" (String "191" "") +:+ s)) as (rest & parts & E); [done|].
  change (UTF8BOM +:+ s) with (String "239" (String "187" (String "191" "") +:+ s)). by rewrite E.
Qed.

Lemma double_bom_unfiltered_witness :
  TrimPrefix (w_Body (@serve_filtered sample_codec sample_mcp (sample_authorizer ["echo"]) sample_context ∅ "tools/list" None
      (sample_writer "application/json") (Some ∅)
      [CallWrite (UTF8BOM +:+ (UTF8BOM +:+ sample_response (sample_tools_result ["echo"; "drop_tables"])))]).1) UTF8BOM =
  sample_response (sample_tools_result ["echo"; "drop_tables"]).
Proof.
  apply (@double_bom_unfiltered sample_codec sample_mcp (sample_authorizer ["echo"]) sample_context ∅ "tools/list" None
    (sample_writer "application/json") (Some ∅)).
  - apply sample_bom.
  - apply sample_bom.
  - vm_compute. reflexivity.
  - reflexivity.
  - vm_compute. reflexivity.
Defined.

(** The search tool finds two tools, in the text and as structured content. *)
Definition sample_found (names : list string) : string := enc_list "F" (enc_tool <$> (sample_tool <$> names)).

Definition sample_search_result : CallToolResult :=
  {| cr_Content := [TextContent "text" (sample_found ["echo"; "drop_tables"]) JNull];
     cr_StructuredContent := JStr (sample_found ["echo"; "drop_tables"]); cr_IsError := false; cr_Rest := JNull |}.

Definition sample_search_text : string := default "" (enc_call sample_search_result).

Lemma find_tool_structured_kept_witness :
  let response := {| rs_ID := Int64ID 1; rs_Result := Some sample_search_text; rs_Error := None |} in
  exists data call', rs_Result <$> (@filterFindToolResponse sample_mcp (sample_authorizer ["echo"]) sample_context
      None response sample_search_text).1 = Some (Some data) /\ dec_call data = Some call' /\
    cr_Content call' = [TextContent "text" (sample_found ["echo"]) JNull] /\
    cr_StructuredContent call' = JStr (sample_found ["echo"; "drop_tables"]).
Proof.
  intros response.
  set (call' := {| cr_Content := [TextContent "text" (sample_found ["echo"]) JNull];
                   cr_StructuredContent := JStr (sample_found ["echo"; "drop_tables"]);
                   cr_IsError := false; cr_Rest := JNull |}).
  exists (default "" (enc_call call')), call'. split_and!; [vm_compute; reflexivity..|].
  apply (@find_tool_structured_kept sample_codec sample_mcp (sample_authorizer ["echo"]) sample_context sample_mcp_ok
    None response sample_search_text sample_search_result
    {| rs_ID := Int64ID 1; rs_Result := enc_call call'; rs_Error := None |} None (default "" (enc_call call')) call');
    vm_compute; reflexivity.
Defined.

(** The arguments of the search name a tool as well. *)
Definition sample_search_call : ParsedMCPRequest :=
  {| pr_Method := "tools/call"; pr_ID := JNum 3; pr_Params := None; pr_ResourceID := FindToolName;
     pr_Arguments := Some [("tool_description", JStr "anything"); ("tool_name", JStr "echo")];
     pr_Meta := None; pr_MCPMethodHeader := ""; pr_MCPNameHeader := ""; pr_ClientInfo := None; pr_ProtocolVersion := "";
     pr_IsRequest := true; pr_IsBatch := false |}.

Definition sample_search_request : HttpRequest := with_parsed (sample_request "application/json" "") sample_search_call.

Definition sample_backend : HttpRequest -> authz_context -> list writer_call :=
  fun _ _ => [CallSetHeaders "application/json" None; CallWrite (sample_response sample_search_text)].

Lemma find_tool_named_unfiltered_witness :
  w_Body (@serve sample_codec sample_mcp no_media_params (sample_authorizer ["echo"]) {[FindToolName; "call_tool"]}
            sample_backend (Some ∅) sample_context sample_search_request (sample_writer "")).1 =
  sample_response sample_search_text.
Proof.
  rewrite (@find_tool_named_unfiltered sample_codec sample_mcp (sample_authorizer ["echo"]) sample_context
    {[FindToolName; "call_tool"]} no_media_params sample_backend (Some ∅) sample_search_request sample_search_call
    {| ci_ToolName := "echo"; ci_Parameters := None |} (sample_writer ""));
    [reflexivity| | | | | | | | | |]; try (vm_compute; reflexivity).
  set_solver.
Defined.

(** ** Bodies without a media type *)

(** A list cut over two data lines, as plain text: a reader of the stream joins them. *)
Definition sample_cut (s : string) (n : nat) : string :=
  "data: " +:+ String.substring 0 n s +:+ String LF
    ("data: " +:+ String.substring n (String.length s) s +:+ String LF (String LF "")).

(** The sniffing of a body without a known media type looks at single lines, so a result
    whose data is cut over two lines of one event is not recognised, and the body
    passes as it is. *)
Example split_list_unlabelled :
  let backend := sample_cut (sample_response (sample_tools_result ["echo"; "drop_tables"])) 40 in
  let w' := (@serve_filtered sample_codec sample_mcp (sample_authorizer ["echo"]) sample_context ∅ "tools/list" None
               (sample_writer "text/plain") (Some ∅) [CallWrite backend]).1 in
  w_Body w' = backend /\
  exists data, client_payloads (w_Body w') = [data] /\
    @DecodeMessage sample_codec data =
      Some (MResponse {| rs_ID := Int64ID 1; rs_Error := None;
                         rs_Result := Some (sample_tools_result ["echo"; "drop_tables"]) |}).
Proof.
  split; [vm_compute; reflexivity|].
  exists (let s := sample_response (sample_tools_result ["echo"; "drop_tables"]) in
          String.substring 0 40 s +:+ String LF (String.substring 40 (String.length s) s)).
  split; vm_compute; reflexivity.
Qed.

(** ** Pages *)

(** Every page of a list replaces the remembered annotations: after the second page, a
    tool of the first page, which the list showed, is denied. *)
Example next_page_forgets :
  let cache page c := (@filterToolsResponse sample_mcp read_only_policy sample_context ∅ c
                         (sample_list_response page) (sample_page page)).2 in
  let first := cache [read_only_tool "search"] (Some ∅) in
  let second := cache [read_only_tool "fetch"] first in
  @handleToolsCall sample_codec read_only_policy ∅ first sample_context (sample_call "search") =
    Serve (tool_context sample_context (read_only_tool "search")) /\
  @handleToolsCall sample_codec read_only_policy ∅ second sample_context (sample_call "search") = Deny (JNum 2).
Proof. split; vm_compute; reflexivity. Qed.
