(* ===== verification/McpRevision.v ===== *)
(** * Protocol revisions ([pkg/mcp/revision.go])

    A request is of the Legacy revision, with a session, or of the Modern one, with its
    protocol metadata in [_meta].  This file models the classification of requests, the
    headers a Modern request repeats its method and name in, and the metadata a gateway
    strips and mints. *)

From Stdlib Require Import Ascii.
From S2P Require Import Prelude GoStrings Base64 VmcpTypes ParamHeaders EventStream JsonRpc RequestParser SampleCodec.

Inductive Revision := RevisionLegacy | RevisionModern.

Definition MCPVersionModern : string := "2026-07-28".
Definition MCPVersionLegacy : string := "2025-11-25".

Definition Revision_String (r : Revision) : string :=
  match r with RevisionModern => MCPVersionModern | RevisionLegacy => MCPVersionLegacy end.

Definition metaKeyClientCapabilities : string := "io.modelcontextprotocol/clientCapabilities".
Definition ReservedMetaPrefix : string := "io.modelcontextprotocol/".

Definition passthroughMetaKeys : list string :=
  ["io.modelcontextprotocol/related-task"; "io.modelcontextprotocol/model-immediate-response"].

Definition modernSignalMetaKeys : list string :=
  [metaKeyProtocolVersion; metaKeyClientInfo; metaKeyClientCapabilities].

(** ** Stripping and minting metadata *)
Definition is_reserved (key : string) : Prop := HasPrefix key ReservedMetaPrefix = true /\ key ∉ passthroughMetaKeys.

Definition StripReservedMeta (meta : option fields) : option fields :=
  match meta with
  | None | Some [] => None
  | Some m =>
      match filter (fun kv => ~ is_reserved kv.1) m with
      | [] => None
      | stripped => Some stripped
      end
  end.

Definition ModernRequestMeta (clientName clientVersion : string) : fields :=
  [(metaKeyProtocolVersion, JStr MCPVersionModern);
   (metaKeyClientInfo, JObj [("name", JStr clientName); ("version", JStr clientVersion)]);
   (metaKeyClientCapabilities, JObj [])].

(** ** Errors *)
Inductive mismatch_reason := ReasonValue | ReasonMissing | ReasonMalformed.

Inductive revision_error :=
  | HeaderMismatchError (header body : string)
  | RequestHeaderMismatchError (header headerValue bodyValue : string) (reason : mismatch_reason)
  | UnsupportedVersionError (requested : string) (supported : list string)
  | MissingClientCapabilityError
  | MissingModernMetadataError.

Definition error_Code (e : revision_error) : Z :=
  match e with
  | HeaderMismatchError _ _ => -32020
  | RequestHeaderMismatchError _ _ _ _ => -32020
  | UnsupportedVersionError _ _ => -32022
  | MissingClientCapabilityError => -32021
  | MissingModernMetadataError => -32602
  end.

(** ** Classification *)
Definition has_key (meta : option fields) (key : string) : bool :=
  match lookup_map meta key with Some _ => true | None => false end.

Definition hasModernSignal (meta : option fields) (protoHeader : string) : bool :=
  if decide (protoHeader = MCPVersionModern) then true
  else existsb (has_key meta) modernSignalMetaKeys.

Definition hasObjectMetaValue (meta : option fields) (key : string) : bool :=
  match objectMetaValue meta key with Some _ => true | None => false end.

Definition ClassifyRevision (method : string) (meta : option fields) (protoHeader : string)
    : Revision * option revision_error :=
  if decide (method = "initialize") then (RevisionLegacy, None)
  else if negb (hasModernSignal meta protoHeader) then (RevisionLegacy, None)
  else
    match stringMetaValue meta metaKeyProtocolVersion with
    | None =>
        if decide (protoHeader <> "" /\ protoHeader <> MCPVersionModern) then (RevisionLegacy, None)
        else if decide (protoHeader <> "") then (RevisionModern, Some (HeaderMismatchError protoHeader ""))
        else (RevisionModern, Some MissingModernMetadataError)
    | Some bodyVersion =>
        if decide (bodyVersion <> MCPVersionModern) then
          (RevisionModern, Some (UnsupportedVersionError bodyVersion [MCPVersionModern]))
        else if decide (protoHeader <> "" /\ protoHeader <> bodyVersion) then
          (RevisionModern, Some (HeaderMismatchError protoHeader bodyVersion))
        else if negb (hasObjectMetaValue meta metaKeyClientCapabilities) then
          (RevisionModern, Some MissingClientCapabilityError)
        else (RevisionModern, None)
    end.

Definition ExtractMeta `{Codec} (params : option string) : option fields :=
  match params with
  | None | Some "" => None
  | Some params =>
      match UnmarshalMap params with
      | None => None
      | Some paramsMap => metaFromParamsMap paramsMap
      end
  end.

(** ** Names in headers *)
Definition sentinelPrefix : string := "=?base64?".
Definition sentinelSuffix : string := "?=".

(** [strings.TrimSuffix]. *)
Definition TrimSuffix (s suffix : string) : string := backwards (TrimPrefix (backwards s) (backwards suffix)).

Definition decodeSentinelName (v : string) : option string :=
  if negb (HasPrefix v sentinelPrefix) || negb (HasSuffix v sentinelSuffix) then Some v
  else StdDecodeString (TrimSuffix (TrimPrefix v sentinelPrefix) sentinelSuffix).

(** A byte that a header value shows as it is. *)
Definition header_byte (c : ascii) : bool := (33 <=? nat_of_ascii c) && (nat_of_ascii c <=? 126).

Definition needsSentinelEncoding (v : string) : bool :=
  if HasPrefix v sentinelPrefix && HasSuffix v sentinelSuffix then true
  else negb (all_chars header_byte v).

Definition EncodeSentinelName (v : string) : string :=
  if negb (needsSentinelEncoding v) then v
  else sentinelPrefix +:+ (StdEncodeToString v +:+ sentinelSuffix).

Definition nameRequiredMethods : list string := ["tools/call"; "resources/read"; "prompts/get"].

Definition IsNameRequiredMethod (method : string) : bool := bool_decide (method ∈ nameRequiredMethods).

Definition ValidateHeaderConsistency (parsed : ParsedMCPRequest) : option revision_error :=
  if decide (pr_MCPMethodHeader parsed = "") then Some (RequestHeaderMismatchError "Mcp-Method" "" "" ReasonMissing)
  else if decide (pr_MCPMethodHeader parsed <> pr_Method parsed) then
    Some (RequestHeaderMismatchError "Mcp-Method" (pr_MCPMethodHeader parsed) (pr_Method parsed) ReasonValue)
  else if decide (pr_MCPNameHeader parsed = "") then
    if IsNameRequiredMethod (pr_Method parsed) then Some (RequestHeaderMismatchError "Mcp-Name" "" "" ReasonMissing)
    else None
  else
    match decodeSentinelName (pr_MCPNameHeader parsed) with
    | None =>
        Some (RequestHeaderMismatchError "Mcp-Name" (pr_MCPNameHeader parsed) (pr_ResourceID parsed) ReasonMalformed)
    | Some decoded =>
        if decide (decoded <> pr_ResourceID parsed) then
          Some (RequestHeaderMismatchError "Mcp-Name" decoded (pr_ResourceID parsed) ReasonValue)
        else None
    end.

(** [JSONRPCCodeForStatus] of [errors.go]. *)
Definition JSONRPCCodeForStatus (status : Z) : Z :=
  if ((status =? 403) || (status =? 422))%Z then 403
  else if (status =? 413)%Z then -32600
  else -32603.

(** ** Classification, exactly *)

(** A request names a version, and whether it does. *)
Definition names_version (meta : option fields) (version : string) : Prop :=
  version <> "" /\ lookup_map meta metaKeyProtocolVersion = Some (JStr version).

Lemma stringMetaValue_Some meta key s :
  stringMetaValue meta key = Some s <-> s <> "" /\ lookup_map meta key = Some (JStr s).
Proof.
  unfold stringMetaValue. destruct (lookup_map meta key) as [[| | | |t| |]|]; try naive_solver.
  case_decide; naive_solver.
Qed.

Lemma signal_version meta version h : names_version meta version -> hasModernSignal meta h = true.
Proof.
  intros [_ E]. unfold hasModernSignal. case_decide; [done|]. unfold modernSignalMetaKeys. cbn [existsb].
  unfold has_key at 1. by rewrite E.
Qed.

Definition claims_nothing (meta : option fields) (protoHeader : string) : Prop :=
  protoHeader <> MCPVersionModern /\ forall key, key ∈ modernSignalMetaKeys -> lookup_map meta key = None.

(** What a Modern request has, and what makes a request Legacy. *)
Definition modern_request (method : string) (meta : option fields) (protoHeader : string) : Prop :=
  method <> "initialize" /\ names_version meta MCPVersionModern /\ (protoHeader = "" \/ protoHeader = MCPVersionModern) /\
  exists caps, lookup_map meta metaKeyClientCapabilities = Some (JObj caps).

Definition legacy_request (method : string) (meta : option fields) (protoHeader : string) : Prop :=
  method = "initialize" \/ claims_nothing meta protoHeader \/
  (forall version, ~ names_version meta version) /\ protoHeader <> "" /\ protoHeader <> MCPVersionModern.

Lemma hasModernSignal_false meta h : hasModernSignal meta h = false <-> claims_nothing meta h.
Proof.
  unfold hasModernSignal, claims_nothing. case_decide as Eh; [naive_solver|]. split.
  - intros E. split; [done|]. intros key Hk%list_elem_of_In.
    destruct (lookup_map meta key) eqn:El; [|done]. exfalso. apply not_true_iff_false in E. apply E.
    apply existsb_exists. exists key. split; [done|]. unfold has_key. by rewrite El.
  - intros [_ Hk]. apply not_true_iff_false. intros (key & Hin & E)%existsb_exists.
    unfold has_key in E. by rewrite (Hk key (proj2 (list_elem_of_In _ _) Hin)) in E.
Qed.

Lemma hasObjectMetaValue_true meta key :
  hasObjectMetaValue meta key = true <-> exists o, lookup_map meta key = Some (JObj o).
Proof.
  unfold hasObjectMetaValue, objectMetaValue, as_object. destruct (lookup_map meta key) as [[]|]; naive_solver.
Qed.

Lemma named_not_legacy method meta h version :
  method <> "initialize" -> names_version meta version -> ~ legacy_request method meta h.
Proof.
  intros Hm Hn [?|[Hc|[Hnone _]]]; [done| |by destruct (Hnone version)].
  apply (signal_version _ _ h) in Hn. apply hasModernSignal_false in Hc. congruence.
Qed.

Lemma legacy_not_modern method meta h : legacy_request method meta h -> ~ modern_request method meta h.
Proof. intros Hl (Hm & Hn & _). by destruct (named_not_legacy method meta h _ Hm Hn). Qed.

Lemma names_version_unique meta v w : names_version meta v -> names_version meta w -> v = w.
Proof. intros [_ E] [_ E']. congruence. Qed.

(** The outcome of the classification, one case per return statement. *)
Lemma ClassifyRevision_cases method meta h :
  (legacy_request method meta h /\ ClassifyRevision method meta h = (RevisionLegacy, None)) \/
  (modern_request method meta h /\ ClassifyRevision method meta h = (RevisionModern, None)) \/
  (~ legacy_request method meta h /\ ~ modern_request method meta h /\
   exists e, ClassifyRevision method meta h = (RevisionModern, Some e)).
Proof.
  unfold ClassifyRevision. case_decide as Ei; [left; split; [by left|done]|].
  destruct (hasModernSignal meta h) eqn:Es; cbn [negb].
  2:{ left. split; [|done]. right. left. by apply hasModernSignal_false. }
  destruct (stringMetaValue meta metaKeyProtocolVersion) as [version|] eqn:Ev.
  - apply stringMetaValue_Some in Ev. pose proof (named_not_legacy _ _ h _ Ei Ev) as Hl. right.
    case_decide as E1; [|case_decide as E2; [|destruct (hasObjectMetaValue _ _) eqn:Ec; cbn [negb]]].
    + right. split_and!; [done| |by eexists]. intros (_ & Hn & _). by apply E1, (names_version_unique meta).
    + subst version. right. split_and!; [done| |by eexists]. intros (_ & _ & [?|?] & _); tauto.
    + subst version. left. split; [|done]. split_and!; [done|done| |by apply hasObjectMetaValue_true].
      destruct (decide (h = "")); [by left|]. destruct (decide (h = MCPVersionModern)); tauto.
    + right. split_and!; [done| |by eexists]. intros (_ & _ & _ & Hc%hasObjectMetaValue_true). congruence.
  - assert (forall v, ~ names_version meta v) as Hnone.
    { intros v Hv%stringMetaValue_Some. congruence. }
    assert (~ modern_request method meta h) as Hm by (intros (_ & Hn & _); by destruct (Hnone MCPVersionModern)).
    case_decide as E1; [left; split; [by right; right|done]|].
    assert (~ legacy_request method meta h) as Hl.
    { intros [?|[Hc%hasModernSignal_false|[_ ?]]]; [done|congruence|tauto]. }
    right. right. split_and!; [done|done|]. case_decide; by eexists.
Qed.

Lemma classified_modern method meta h :
  modern_request method meta h -> ClassifyRevision method meta h = (RevisionModern, None).
Proof.
  intros Hm. destruct (ClassifyRevision_cases method meta h) as [[Hl _]|[[_ ->]|(_ & ? & _)]]; [|done|done].
  by destruct (legacy_not_modern _ _ _ Hl).
Qed.

(** C34. A request is served as Modern exactly when it is not an initialize, names the
    Modern version in its metadata with a header that agrees or is absent, and carries
    client capabilities as an object; and it is served as Legacy exactly when it is an
    initialize, or claims nothing, or names no version while its header names another
    revision.  Everything else is refused, as a Modern request. *)
Theorem classification_exact method meta h :
  (ClassifyRevision method meta h = (RevisionModern, None) <-> modern_request method meta h) /\
  (ClassifyRevision method meta h = (RevisionLegacy, None) <-> legacy_request method meta h) /\
  (~ modern_request method meta h /\ ~ legacy_request method meta h <->
   exists e, ClassifyRevision method meta h = (RevisionModern, Some e)).
Proof.
  pose proof (legacy_not_modern method meta h) as Hx.
  destruct (ClassifyRevision_cases method meta h) as [[Hl ->]|[[Hm ->]|(Hl & Hm & e & ->)]];
    split_and!; split; first [done|tauto|by intros [? ?]|by eexists].
Qed.

(** ** Headers *)
Lemma HasSuffix_app s p : HasSuffix (s +:+ p) p = true.
Proof. unfold HasSuffix. rewrite backwards_app. apply HasPrefix_app. Qed.

Lemma TrimSuffix_app s p : TrimSuffix (s +:+ p) p = s.
Proof. unfold TrimSuffix. rewrite backwards_app, TrimPrefix_app. apply backwards_involutive. Qed.

Lemma sentinel_roundtrip v : decodeSentinelName (EncodeSentinelName v) = Some v.
Proof.
  unfold EncodeSentinelName, needsSentinelEncoding, decodeSentinelName.
  destruct (HasPrefix v sentinelPrefix && HasSuffix v sentinelSuffix) eqn:E; cbn [negb];
    [|destruct (all_chars header_byte v); cbn [negb]; [by rewrite <- negb_andb, E|]].
  all: rewrite HasPrefix_app, <- app_string_assoc, HasSuffix_app; cbn [negb orb].
  all: rewrite app_string_assoc, TrimPrefix_app, TrimSuffix_app; apply std_roundtrip.
Qed.

Lemma encoded_header_bytes v : all_chars header_byte (EncodeSentinelName v) = true.
Proof.
  unfold EncodeSentinelName. destruct (needsSentinelEncoding v) eqn:E; cbn [negb].
  - rewrite !all_chars_app. unfold StdEncodeToString. cbn zeta. rewrite all_chars_app, !andb_true_iff.
    split_and!; [done| | |done].
    + apply EncodeToString_chars; [done|]. intros x t IH. cbn [map_string all_chars]. rewrite IH, andb_true_r.
      destruct x as [[[[[[] []] []] []] []] []]; vm_compute; reflexivity.
    + unfold padding. by destruct (_ mod 4) as [|[|[|[|]]]].
  - unfold needsSentinelEncoding in E. destruct (_ && _); [done|]. by apply negb_false_iff in E.
Qed.

Lemma EncodeSentinelName_nil v : EncodeSentinelName v = "" -> v = "".
Proof. unfold EncodeSentinelName. by destruct (needsSentinelEncoding v). Qed.

(** The headers say what the body says. *)
Definition headers_agree (p : ParsedMCPRequest) : Prop :=
  pr_Method p <> "" /\ pr_MCPMethodHeader p = pr_Method p /\
  (pr_MCPNameHeader p = "" /\ IsNameRequiredMethod (pr_Method p) = false \/
   pr_MCPNameHeader p <> "" /\ decodeSentinelName (pr_MCPNameHeader p) = Some (pr_ResourceID p)).

Lemma ValidateHeaderConsistency_None p : ValidateHeaderConsistency p = None <-> headers_agree p.
Proof.
  unfold ValidateHeaderConsistency, headers_agree. case_decide as E1; [naive_solver congruence|].
  case_decide as E2; [naive_solver|]. case_decide as E3.
  - destruct (IsNameRequiredMethod _); naive_solver congruence.
  - destruct (decodeSentinelName _) as [d|]; [case_decide|]; naive_solver congruence.
Qed.

(** C33. A request classified as Modern passes the header check exactly when its
    [Mcp-Method] header is its method and its [Mcp-Name] header, decoded, is the name in
    the body, or is absent where no name is required: whoever reads the headers sees
    what the body asks for.  A client that builds its metadata with [ModernRequestMeta]
    and its name header with [EncodeSentinelName] is accepted, whatever bytes the name
    has, and its header has only visible ASCII characters. *)
Theorem modern_headers_agree p name version rest :
  (ValidateHeaderConsistency p = None <-> headers_agree p) /\
  (pr_Method p <> "" -> pr_Method p <> "initialize" -> pr_ResourceID p <> "" ->
   pr_Meta p = Some (ModernRequestMeta name version ++ rest) -> pr_MCPMethodHeader p = pr_Method p ->
   pr_MCPNameHeader p = EncodeSentinelName (pr_ResourceID p) ->
   ClassifyRevision (pr_Method p) (pr_Meta p) MCPVersionModern = (RevisionModern, None) /\
   ValidateHeaderConsistency p = None /\ all_chars header_byte (pr_MCPNameHeader p) = true).
Proof.
  pose proof (ValidateHeaderConsistency_None p) as Hv.
  split; [exact Hv|]. intros Hm Hi Hr Hmeta Hmh Hnh. split_and!.
  - apply classified_modern. rewrite Hmeta. split_and!; [done|by split|by right|by eexists].
  - apply Hv. split_and!; [done|done|]. right. rewrite Hnh. split; [|apply sentinel_roundtrip].
    by intros ?%EncodeSentinelName_nil.
  - rewrite Hnh. apply encoded_header_bytes.
Qed.

(** A tool name with a space and an accent. *)
Definition accented_call : ParsedMCPRequest := {|
  pr_Method := "tools/call"; pr_ID := JNum 1; pr_Params := None;
  pr_ResourceID := String "a" (String " " (String "195" (String "169" "")));
  pr_Arguments := None; pr_Meta := Some (ModernRequestMeta "gateway" "1" ++ []);
  pr_MCPMethodHeader := "tools/call"; pr_MCPNameHeader := "=?base64?YSDDqQ==?=";
  pr_ClientInfo := None; pr_ProtocolVersion := ""; pr_IsRequest := true; pr_IsBatch := false |}.

Lemma modern_headers_agree_witness :
  ClassifyRevision "tools/call" (pr_Meta accented_call) MCPVersionModern = (RevisionModern, None) /\
  ValidateHeaderConsistency accented_call = None /\ all_chars header_byte "=?base64?YSDDqQ==?=" = true.
Proof.
  apply (proj2 (modern_headers_agree accented_call "gateway" "1" [])); [done..|]. vm_compute. reflexivity.
Defined.

(** ** Stripping *)
Lemma lookup_StripReservedMeta meta key :
  lookup_map (StripReservedMeta meta) key = if decide (is_reserved key) then None else lookup_map meta key.
Proof.
  destruct meta as [[|kv m]|]; [by case_decide| |by case_decide].
  transitivity (get key (filter (fun kv => ~ is_reserved kv.1) (kv :: m : fields))).
  { unfold StripReservedMeta. by case_match. }
  etransitivity; [exact (get_filter (fun k => ~ is_reserved k) key (kv :: m))|]. cbn [lookup_map].
  repeat case_decide; done || tauto.
Qed.

(** Metadata that a gateway has stripped claims nothing, whatever the sender put there. *)
Lemma stripped_claims_nothing meta h : h <> MCPVersionModern -> claims_nothing (StripReservedMeta meta) h.
Proof.
  intros Hh. split; [done|]. intros key Hk. rewrite lookup_StripReservedMeta, decide_True; [done|].
  assert (Forall is_reserved modernSignalMetaKeys) as Hall.
  { apply Forall_forall. intros k. unfold modernSignalMetaKeys, is_reserved, passthroughMetaKeys.
    rewrite !elem_of_cons, elem_of_nil. intros [->|[->|[->|[]]]]; (split; [done|]);
      vm_compute; naive_solver. }
  by apply (proj1 (Forall_forall _ _) Hall).
Qed.
