(* ===== verification/ToolFilter.v ===== *)
(** * The tool filter of the proxies ([pkg/mcp/tool_filter.go], [pkg/mcp/middleware.go])

    Two middlewares share one configuration: one rewrites the lists of tools in responses,
    the other the calls in requests.  The decoding and encoding of the two kinds of messages
    is the class [ToolsCodec].  Go visits the overrides in any order: each middleware is
    built with an order of its own, and the search for an original name has another. *)

From Stdlib Require Import Ascii.
From S2P Require Import Prelude GoStrings Base64 VmcpTypes AggregatorTypes ToolResolvers ToolAdapter ParamHeaders.
From S2P Require Import EventStream JsonRpc RequestParser SampleCodec ResponseFilter.

(** ** Configuration *)
Record mcpToolOverride := {
  mo_Name : string;
  mo_Description : string;
}.

Record ToolFilterMiddlewareParams := {
  tp_FilterTools : list string;
  tp_ToolsOverride : gmap string mcpToolOverride;
}.

Abbreviation override_order := (gmap string mcpToolOverride -> list (string * mcpToolOverride)) (only parsing).

Definition middleware_options (range : override_order) (params : ToolFilterMiddlewareParams) : list ToolMiddlewareOption :=
  WithToolsFilter (tp_FilterTools params) ::
  ((fun p => WithToolsOverride p.1 (mo_Name p.2) (mo_Description p.2)) <$> range (tp_ToolsOverride params)).

(** The first part of [NewListToolsMappingMiddleware] and [NewToolCallMappingMiddleware]. *)
Definition new_config (opts : list ToolMiddlewareOption) : option toolMiddlewareConfig :=
  match apply_options opts {| mw_filterTools := ∅; mw_actualToUserOverride := ∅; mw_userToActualOverride := ∅ |} with
  | None => None
  | Some config =>
      if decide (size (mw_filterTools config) = 0 /\ size (mw_actualToUserOverride config) = 0) then None
      else Some config
  end.

(** [CreateToolFilterMiddleware] and [CreateToolCallFilterMiddleware]. *)
Definition create_config (range : override_order) (params : ToolFilterMiddlewareParams) : option toolMiddlewareConfig :=
  new_config (middleware_options range params).

Definition getToolCallActualName (c : toolMiddlewareConfig) (toolName : string) : option string :=
  if decide (size (mw_userToActualOverride c) = 0) then None
  else oe_ActualName <$> mw_userToActualOverride c !! toolName.

(** ** Messages *)

(** [Result.Tools] is a pointer to a slice of maps, any of which may be nil. *)
Record toolsListResponse := {
  tl_JSONRPC : string;
  tl_ID : json;
  tl_Tools : option (list (option fields));
}.

Record toolCallRequest := {
  tc_JSONRPC : string;
  tc_ID : json;
  tc_Method : string;
  tc_Params : option fields;
}.

(** A syntax error is distinguished from other failures. *)
Inductive unmarshalled :=
  | SyntaxError
  | TypeError
  | Decoded (r : toolsListResponse).

Class ToolsCodec := {
  UnmarshalToolsList : string -> unmarshalled;
  (** with the line feed an encoder writes *)
  EncodeToolsList : toolsListResponse -> option string;
  UnmarshalToolCall : string -> option toolCallRequest;
  MarshalToolCall : toolCallRequest -> option string;
  MarshalObject : fields -> option string;
}.

(** The tools of a body that is a list of tools. *)
Definition tools_of `{ToolsCodec} (data : string) : option (toolsListResponse * list (option fields)) :=
  match UnmarshalToolsList data with
  | Decoded r => match tl_Tools r with Some tools => Some (r, tools) | None => None end
  | _ => None
  end.

(** ** Lists *)

(** [m[key] = v]. *)
Definition put (key : string) (v : json) (m : fields) : fields := (key, v) :: filter (fun kv => kv.1 <> key) m.

(** The first loop of [processToolsListResponse]; [None] is [errToolNameNotFound]. *)
Fixpoint simple_tools (tools : list (option fields)) : option (list (SimpleTool * fields)) :=
  match tools with
  | [] => Some []
  | tool :: tools =>
      match as_string (lookup_map tool "name") with
      | None => None
      | Some toolName =>
          if decide (toolName = "") then None
          else
            match simple_tools tools with
            | None => None
            | Some rest =>
                Some (({| st_Name := toolName; st_Description := default "" (as_string (lookup_map tool "description")) |},
                       default [] tool) :: rest)
            end
      end
  end.

Section config.
Context (entries : gmap string toolOverrideEntry -> list (string * toolOverrideEntry)).
Context (config : toolMiddlewareConfig).

Definition findOriginalName (overriddenName : string) : string :=
  match list_find (fun p => oe_OverrideName p.2 = overriddenName) (entries (mw_actualToUserOverride config)) with
  | Some (_, (actualName, _)) => actualName
  | None => overriddenName
  end.

Definition tool_copy (processed : SimpleTool) (tool : fields) : fields :=
  let copy := put "name" (JStr (st_Name processed)) tool in
  if decide (st_Description processed <> "") then put "description" (JStr (st_Description processed)) copy else copy.

(** The two loops at the end; a processed tool without a match is left out. *)
Definition match_tools (simpleTools : list (SimpleTool * fields)) (processedTools : list SimpleTool) : list fields :=
  omap (fun processed =>
    match list_find (fun p => st_Name p.1 = st_Name processed \/
                              st_Name p.1 = findOriginalName (st_Name processed)) simpleTools with
    | Some (_, (_, tool)) => Some (tool_copy processed tool)
    | None => None
    end) processedTools.

Definition filtered_tools (tools : list (option fields)) : option (list fields) :=
  match simple_tools tools with
  | None => None
  | Some simpleTools =>
      Some (match_tools simpleTools (applyFilteringAndOverrides config simpleTools.*1))
  end.

Context `{ToolsCodec}.

Definition processToolsListResponse (r : toolsListResponse) (tools : list (option fields)) : option string :=
  match filtered_tools tools with
  | None => None
  | Some filteredTools =>
      EncodeToolsList {| tl_JSONRPC := tl_JSONRPC r; tl_ID := tl_ID r; tl_Tools := Some (Some <$> filteredTools) |}
  end.

(** ** Bodies *)
Inductive process_error := KeepBuffering | UnsupportedMimeType | HardFailure.

Definition processJSONBuffer (buffer : string) : process_error + string :=
  match UnmarshalToolsList buffer with
  | SyntaxError => inl KeepBuffering
  | Decoded r =>
      match tl_Tools r with
      | Some tools => match processToolsListResponse r tools with Some out => inr out | None => inl HardFailure end
      | None => inr buffer
      end
  | TypeError => inr buffer
  end.

Inductive line_separator := SepCRLF | SepLF | SepCR.

Definition separator_text (sep : line_separator) : string :=
  match sep with SepCRLF => String CR (String LF "") | SepLF => String LF "" | SepCR => String CR "" end.

(** [bytes.Split] with a separator of two bytes. *)
Fixpoint split_crlf (s : string) : list string :=
  match s with
  | EmptyString => [""]
  | String a s' =>
      match s' with
      | String b s2 =>
          if decide (a = CR /\ b = LF) then "" :: split_crlf s2
          else match split_crlf s' with l :: ls => String a l :: ls | [] => [String a ""] end
      | EmptyString => [String a ""]
      end
  end.

Definition split_lines (sep : line_separator) (buffer : string) : list string :=
  match sep with SepCRLF => split_crlf buffer | SepLF => Split LF buffer | SepCR => Split CR buffer end.

(** The last bytes decide; [inl] is one of the two errors. *)
Definition find_separator (buffer : string) : process_error + line_separator :=
  match backwards buffer with
  | String "010" (String "013" _) => inr SepCRLF
  | String "010" _ => inr SepLF
  | String "013" _ => inr SepCR
  | String _ (String _ _) => inl KeepBuffering
  | _ => inl HardFailure
  end.

Definition process_line (line : string) : option string :=
  match CutPrefix line "data:" with
  | None => Some line
  | Some data =>
      match tools_of data with
      | None => Some line
      | Some (r, tools) => (fun out => "data: " +:+ out) <$> processToolsListResponse r tools
      end
  end.

(** The loop over the lines: what is written and how many separators. *)
Fixpoint process_lines (sep : line_separator) (lines : list string) : option (string * nat) :=
  match lines with
  | [] => Some ("", 0)
  | line :: lines =>
      if decide (line = "") then process_lines sep lines
      else
        match process_line line with
        | None => None
        | Some out =>
            match process_lines sep lines with
            | None => None
            | Some (rest, linesepCount) => Some (out +:+ (separator_text sep +:+ rest), S linesepCount)
            end
        end
  end.

Definition processEventStream (buffer : string) : process_error + string :=
  match find_separator buffer with
  | inl err => inl err
  | inr sep =>
      let lines := split_lines sep buffer in
      let linesepTotal := pred (length lines) in
      match process_lines sep lines with
      | None => inl HardFailure
      | Some (out, linesepCount) =>
          inr (if decide (linesepCount < linesepTotal) then out +:+ separator_text sep else out)
      end
  end.

Definition sniffSSEToolsList (buffer : string) : bool :=
  existsb (fun line =>
    match CutPrefix line "data:" with
    | Some data => match tools_of (TrimSpace_bytes data) with Some _ => true | None => false end
    | None => false
    end) (Split LF (replace_cr (replace_crlf buffer))).

Definition processUnrecognizedMimeType (buffer : string) (successResponse : bool) : process_error + string :=
  if negb successResponse then inl UnsupportedMimeType
  else
    let buffer := TrimPrefix buffer UTF8BOM in
    match tools_of buffer with
    | Some (r, tools) => match processToolsListResponse r tools with Some out => inr out | None => inl HardFailure end
    | None =>
        if sniffSSEToolsList buffer then processEventStream buffer else inl UnsupportedMimeType
    end.

Definition processBuffer (buffer mimeType : string) (successResponse : bool) : process_error + string :=
  if decide (buffer = "") then inr ""
  else if decide (mimeType = "application/json") then processJSONBuffer buffer
  else if decide (mimeType = "text/event-stream") then processEventStream buffer
  else processUnrecognizedMimeType buffer successResponse.

(** ** The writer *)
Record toolFilterWriter := {
  tw_Writer : Writer;
  tw_buffer : string;
  tw_statusCode : Z;
}.

Definition tw_WriteHeader (rw : toolFilterWriter) (statusCode : Z) : toolFilterWriter :=
  {| tw_Writer := writer_WriteHeader (del_ContentLength (tw_Writer rw)) statusCode;
     tw_buffer := tw_buffer rw; tw_statusCode := statusCode |}.

Definition tw_Write (rw : toolFilterWriter) (data : string) : toolFilterWriter :=
  {| tw_Writer := tw_Writer rw; tw_buffer := tw_buffer rw +:+ data; tw_statusCode := tw_statusCode rw |}.

Definition writeBuffer (rw : toolFilterWriter) (data : string) : toolFilterWriter :=
  {| tw_Writer := writer_Write (tw_Writer rw) data; tw_buffer := ""; tw_statusCode := tw_statusCode rw |}.

Definition tool_mime_type (contentType : string) : string := hd "" (Split ";" contentType).

Definition drainBuffer (rw : toolFilterWriter) (terminal : bool) : bool * toolFilterWriter :=
  if decide (tw_buffer rw = "") then (true, rw)
  else
    let mimeType := tool_mime_type (w_ContentType (tw_Writer rw)) in
    let successResponse := bool_decide (tw_statusCode rw = 200%Z \/ tw_statusCode rw = 202%Z) in
    match processBuffer (tw_buffer rw) mimeType successResponse with
    | inl KeepBuffering => if terminal then (true, writeBuffer rw (tw_buffer rw)) else (false, rw)
    | inl UnsupportedMimeType => (true, writeBuffer rw (tw_buffer rw))
    | inl HardFailure =>
        (false, {| tw_Writer := tw_Writer rw; tw_buffer := ""; tw_statusCode := tw_statusCode rw |})
    | inr out => (true, writeBuffer rw out)
    end.

Definition tw_Flush (rw : toolFilterWriter) : toolFilterWriter :=
  let (forward, rw) := drainBuffer rw false in
  if forward && w_Flusher (tw_Writer rw) then
    {| tw_Writer := send_headers (tw_Writer rw) 200; tw_buffer := tw_buffer rw; tw_statusCode := tw_statusCode rw |}
  else rw.

Definition finish (rw : toolFilterWriter) : toolFilterWriter := (drainBuffer rw true).2.

Definition tw_call (rw : toolFilterWriter) (c : writer_call) : toolFilterWriter :=
  match c with
  | CallSetHeaders ct cl =>
      {| tw_Writer := set_headers (tw_Writer rw) ct cl; tw_buffer := tw_buffer rw; tw_statusCode := tw_statusCode rw |}
  | CallWriteHeader statusCode => tw_WriteHeader rw statusCode
  | CallWrite data => tw_Write rw data
  | CallFlush => tw_Flush rw
  end.

(** The handler of [NewListToolsMappingMiddleware], over what the next handler does. *)
Definition ListToolsMapping (w : Writer) (calls : list writer_call) : Writer :=
  tw_Writer (finish (foldl tw_call {| tw_Writer := w; tw_buffer := ""; tw_statusCode := 200 |} calls)).

(** ** Calls *)
Inductive toolCallFix :=
  | toolCallFilter
  | toolCallOverride (actualName : string)
  | toolCallBogus
  | toolCallNoAction.

Definition processToolCallRequest (r : toolCallRequest) : toolCallFix :=
  match tc_Params r with
  | None => toolCallBogus
  | Some params =>
      match as_string (get "name" params) with
      | None => toolCallBogus
      | Some toolName =>
          if decide (toolName = "") then toolCallBogus
          else if negb (isToolInFilter config toolName) then toolCallFilter
          else match getToolCallActualName config toolName with
               | Some actualName => toolCallOverride actualName
               | None => toolCallNoAction
               end
      end
  end.

(** [strings.EqualFold] with an ASCII string: two runes outside ASCII fold to a letter. *)
Fixpoint fold_case (s : string) : string :=
  match s with
  | String "197" (String "191" s) => String "s" (fold_case s)
  | String "226" (String "132" (String "170" s)) => String "k" (fold_case s)
  | String c s => String (lower_char c) (fold_case s)
  | EmptyString => EmptyString
  end.

Definition clientAcceptsJSON (accept : string) : bool :=
  if decide (accept = "") then true
  else existsb (fun entry =>
    let mediaType := TrimSpace_bytes (hd "" (Split ";" entry)) in
    bool_decide (fold_case mediaType = "application/json") || bool_decide (fold_case mediaType = "application/*") ||
    bool_decide (mediaType = "*/*")) (Split "," accept).

(** [session.HasJSONRPCID] of a decoded value. *)
Definition HasJSONRPCID (requestID : json) : bool := match requestID with JNull => false | _ => true end.

Definition filteredToolNotFoundMessage : string := "tool not found".

Definition not_found_text : string :=
  String.concat (String "034" "")
    ["{"; "jsonrpc"; ":"; "2.0"; ","; "error"; ":{"; "code"; ":-32602,"; "message"; ":"; "tool not found"; "}}"].

Definition filteredToolCallErrorBody (id : json) : string :=
  let resp := [("jsonrpc", JStr "2.0");
               ("error", JObj [("code", JNum (-32602)); ("message", JStr filteredToolNotFoundMessage)])] in
  default not_found_text (MarshalObject (if HasJSONRPCID id then resp ++ [("id", id)] else resp)).

Definition writeFilteredToolCallError (w : Writer) (id : json) : Writer :=
  writer_Write (writer_WriteHeader (set_headers w "application/json" (w_ContentLength w)) 200)
    (filteredToolCallErrorBody id).

Inductive call_outcome :=
  | CallForwarded (r : HttpRequest)
  | CallAnswered (w : Writer).

Definition with_body (r : HttpRequest) (body : string) : HttpRequest :=
  {| hr_Method := hr_Method r; hr_Path := hr_Path r; hr_ContentType := hr_ContentType r;
     hr_McpMethod := hr_McpMethod r; hr_McpName := hr_McpName r; hr_Body := Some body; hr_Parsed := hr_Parsed r |}.

(** The handler of [NewToolCallMappingMiddleware]. *)
Definition ToolCallMapping (accept : string) (w : Writer) (r : HttpRequest) : call_outcome :=
  match hr_Body r with
  | None => CallForwarded r
  | Some bodyBytes =>
      match UnmarshalToolCall bodyBytes with
      | None => CallForwarded r
      | Some req =>
          if decide (tc_Method req <> "tools/call") then CallForwarded r
          else
            match processToolCallRequest req with
            | toolCallNoAction => CallForwarded r
            | toolCallFilter =>
                if clientAcceptsJSON accept then CallAnswered (writeFilteredToolCallError w (tc_ID req))
                else CallAnswered (writer_WriteHeader w 400)
            | toolCallOverride actualName =>
                match MarshalToolCall {| tc_JSONRPC := tc_JSONRPC req; tc_ID := tc_ID req; tc_Method := tc_Method req;
                                         tc_Params := put "name" (JStr actualName) <$> tc_Params req |} with
                | None => CallForwarded r
                | Some bodyBytes => CallForwarded (with_body r bodyBytes)
                end
            | toolCallBogus => CallAnswered (writer_WriteHeader w 400)
            end
      end
  end.
End config.

(** ** What the parameters ask for *)
Definition user_name (params : ToolFilterMiddlewareParams) (actualName : string) : string :=
  match tp_ToolsOverride params !! actualName with
  | Some o => if decide (mo_Name o = "") then actualName else mo_Name o
  | None => actualName
  end.

Definition listed (params : ToolFilterMiddlewareParams) (name : string) : Prop :=
  tp_FilterTools params = [] \/ name ∈ tp_FilterTools params.

Definition entry_for (p : string * mcpToolOverride) : toolOverrideEntry :=
  {| oe_ActualName := p.1; oe_OverrideName := mo_Name p.2; oe_OverrideDescription := mo_Description p.2 |}.

Lemma add_filters_Some l c c' :
  add_filters l c = Some c' ->
  mw_filterTools c' = list_to_set l ∪ mw_filterTools c /\
  mw_actualToUserOverride c' = mw_actualToUserOverride c /\ mw_userToActualOverride c' = mw_userToActualOverride c.
Proof.
  revert c. induction l as [|tf l IH]; intros c; cbn [add_filters].
  - intros [= ->]. split_and!; [set_solver|done|done].
  - case_decide; [done|]. intros (E & -> & ->)%IH. cbn [mw_filterTools] in E. split_and!; [set_solver|done|done].
Qed.

Lemma apply_override_options l c c' :
  apply_options ((fun p => WithToolsOverride p.1 (mo_Name p.2) (mo_Description p.2)) <$> l) c = Some c' ->
  mw_filterTools c' = mw_filterTools c /\
  mw_actualToUserOverride c' = foldl (fun m p => <[p.1 := entry_for p]> m) (mw_actualToUserOverride c) l /\
  mw_userToActualOverride c' = foldl (fun m p => <[mo_Name p.2 := entry_for p]> m) (mw_userToActualOverride c) l.
Proof.
  revert c. induction l as [|[a o] l IH]; intros c; cbn [fmap list_fmap apply_options foldl].
  - by intros [= ->].
  - cbn [apply_option fst snd]. repeat case_decide; [done|done|]. by intros (-> & -> & ->)%IH.
Qed.

Lemma create_config_Some (range : override_order) params c :
  create_config range params = Some c ->
  mw_filterTools c = list_to_set (tp_FilterTools params) /\
  mw_actualToUserOverride c = foldl (fun m p => <[p.1 := entry_for p]> m) ∅ (range (tp_ToolsOverride params)) /\
  mw_userToActualOverride c = foldl (fun m p => <[mo_Name p.2 := entry_for p]> m) ∅ (range (tp_ToolsOverride params)).
Proof.
  unfold create_config, new_config, middleware_options. cbn [apply_options apply_option].
  destruct (add_filters _ _) as [c1|] eqn:E1; [|done]. apply add_filters_Some in E1 as (F1 & A1 & U1).
  destruct (apply_options _ c1) as [c2|] eqn:E2; [|done]. apply apply_override_options in E2 as (F2 & A2 & U2).
  case_decide; [done|]. intros [= <-]. rewrite F2, A2, U2, F1, A1, U1. cbn. split_and!; [set_solver|done|done].
Qed.

Section built.
Context (range : override_order) (params : ToolFilterMiddlewareParams) (c : toolMiddlewareConfig).
Context (range_ok : forall m, range m ≡ₚ map_to_list m) (built : create_config range params = Some c).

Lemma range_override a o : (a, o) ∈ range (tp_ToolsOverride params) <-> tp_ToolsOverride params !! a = Some o.
Proof using range_ok. by rewrite range_ok, elem_of_map_to_list. Qed.

Lemma isToolInFilter_listed name : isToolInFilter c name = true <-> listed params name.
Proof using range_ok built.
  apply create_config_Some in built as (F & _ & _). unfold isToolInFilter, listed. rewrite F. case_decide as E.
  - apply size_empty_inv in E. split; [intros _; left|done].
    destruct (tp_FilterTools params) as [|x l]; [done|]. set_solver.
  - rewrite bool_decide_eq_true, elem_of_list_to_set. split; [by right|]. intros [E'|?]; [|done].
    exfalso. apply E. rewrite E'. cbn. apply size_empty.
Qed.

Lemma getToolListOverride_built a :
  getToolListOverride c a = (fun o => entry_for (a, o)) <$> tp_ToolsOverride params !! a.
Proof using range_ok built.
  apply create_config_Some in built as (_ & A & _). unfold getToolListOverride.
  assert (mw_actualToUserOverride c !! a = (fun o => entry_for (a, o)) <$> tp_ToolsOverride params !! a) as E.
  { rewrite A. apply option_eq. intros e. rewrite (insert_loop_at fst entry_for).
    - split.
      + intros ([a' o] & Hin%range_override & <- & <-). cbn [fst]. by rewrite Hin.
      + intros (o & Ho & ->)%fmap_Some. exists (a, o). by rewrite range_override.
    - intros [a1 o1] [a2 o2] H1%range_override H2%range_override. cbn [fst]. intros <- ->. congruence. }
  rewrite E. case_decide as Es; [|done]. apply map_size_empty_inv in Es. by rewrite <- E, Es.
Qed.

(** No two tools are given the same name. *)
Definition names_distinct : Prop :=
  forall a b o o', tp_ToolsOverride params !! a = Some o -> tp_ToolsOverride params !! b = Some o' ->
    mo_Name o = mo_Name o' -> mo_Name o <> "" -> a = b.

Lemma getToolCallActualName_built name a :
  names_distinct -> name <> "" ->
  getToolCallActualName c name = Some a <-> exists o, tp_ToolsOverride params !! a = Some o /\ mo_Name o = name.
Proof using range_ok built.
  intros Hd Hn. apply create_config_Some in built as (_ & _ & U). unfold getToolCallActualName.
  assert (oe_ActualName <$> mw_userToActualOverride c !! name = Some a <->
          exists o, tp_ToolsOverride params !! a = Some o /\ mo_Name o = name) as E.
  { rewrite U, fmap_Some. split.
    - intros (e & He & ->). apply (insert_loop_at (fun p => mo_Name p.2) entry_for) in He.
      + destruct He as ([a o] & Hin%range_override & <- & <-). by exists o.
      + intros [a1 o1] [a2 o2] H1%range_override H2%range_override. cbn [snd]. intros E1 E2.
        assert (a1 = a2) as -> by (apply (Hd a1 a2 o1 o2); congruence). congruence.
    - intros (o & Ho & <-). exists (entry_for (a, o)). split; [|done].
      apply (insert_loop_at (fun p => mo_Name p.2) entry_for).
      + intros [a1 o1] [a2 o2] H1%range_override H2%range_override. cbn [snd]. intros E1 E2.
        assert (a1 = a2) as -> by (apply (Hd a1 a2 o1 o2); congruence). congruence.
      + exists (a, o). by rewrite range_override. }
  case_decide as Es; [|done]. apply map_size_empty_inv in Es. rewrite <- E, Es, lookup_empty. done.
Qed.
End built.

(** ** The view of the tools *)
Definition tool_name (t : fields) : string := default "" (as_string (get "name" t)).
Definition tool_description (t : fields) : string := default "" (as_string (get "description" t)).

Definition simple_of (t : fields) : SimpleTool := {| st_Name := tool_name t; st_Description := tool_description t |}.

Definition user_description (params : ToolFilterMiddlewareParams) (t : fields) : string :=
  match tp_ToolsOverride params !! tool_name t with
  | Some o => if decide (mo_Description o = "") then tool_description t else mo_Description o
  | None => tool_description t
  end.

(** How a tool is shown, if it is. *)
Definition shown (params : ToolFilterMiddlewareParams) (t : fields) : option fields :=
  if decide (listed params (user_name params (tool_name t))) then
    Some (tool_copy {| st_Name := user_name params (tool_name t); st_Description := user_description params t |} t)
  else None.

(** Which tool the backend is asked for; [None] when the call is answered here. *)
Definition backend_name (fix_ : toolCallFix) (name : string) : option string :=
  match fix_ with
  | toolCallNoAction => Some name
  | toolCallOverride actualName => Some actualName
  | _ => None
  end.

(** No override takes the name of another tool of the list. *)
Definition names_fresh (params : ToolFilterMiddlewareParams) (ts : list fields) : Prop :=
  forall a o, tp_ToolsOverride params !! a = Some o -> mo_Name o ∈ (tool_name <$> ts) -> a = mo_Name o.

Lemma simple_tools_named ts :
  Forall (fun t => tool_name t <> "") ts ->
  simple_tools (Some <$> ts) = Some ((fun t => (simple_of t, t)) <$> ts).
Proof.
  induction 1 as [|t ts Ht _ IH]; [done|]. cbn [fmap list_fmap simple_tools lookup_map].
  unfold tool_name in Ht. unfold simple_of at 1, tool_name, tool_description.
  destruct (as_string (get "name" t)) as [n|]; cbn [default] in *; [|done]. rewrite decide_False by done. by rewrite IH.
Qed.

Lemma override_simple_built range params c t :
  (forall m, range m ≡ₚ map_to_list m) -> create_config range params = Some c ->
  override_simple c (simple_of t) =
  {| st_Name := user_name params (tool_name t); st_Description := user_description params t |}.
Proof.
  intros Hr Hb. unfold override_simple. rewrite (getToolListOverride_built _ _ _ Hr Hb).
  unfold user_name, user_description. cbn [st_Name simple_of].
  destruct (tp_ToolsOverride params !! tool_name t) as [o|]; [|done]. cbn. repeat case_decide; done.
Qed.

Section view.
Context (range : override_order) (entries : gmap string toolOverrideEntry -> list (string * toolOverrideEntry)).
Context (params : ToolFilterMiddlewareParams) (c : toolMiddlewareConfig) (ts : list fields).
Context (range_ok : forall m, range m ≡ₚ map_to_list m) (entries_ok : forall m, entries m ≡ₚ map_to_list m).
Context (built : create_config range params = Some c) (distinct : names_distinct params).
Context (fresh : names_fresh params ts) (nodup : NoDup (tool_name <$> ts)) (named : Forall (fun t => tool_name t <> "") ts).

Lemma same_tool s t : s ∈ ts -> t ∈ ts -> tool_name s = tool_name t -> s = t.
Proof using nodup.
  intros [i Hi]%list_elem_of_lookup [j Hj]%list_elem_of_lookup E.
  assert (i = j) as ->.
  { eapply NoDup_lookup; [exact nodup| |]; rewrite list_lookup_fmap; [by rewrite Hi|by rewrite Hj; cbn; rewrite E]. }
  congruence.
Qed.

Lemma entries_override a e :
  (a, e) ∈ entries (mw_actualToUserOverride c) <->
  exists o, tp_ToolsOverride params !! a = Some o /\ e = entry_for (a, o).
Proof using range_ok entries_ok built.
  rewrite entries_ok, elem_of_map_to_list.
  pose proof (getToolListOverride_built _ _ _ range_ok built a) as E. unfold getToolListOverride in E.
  case_decide as Es.
  - apply map_size_empty_inv in Es. rewrite Es, lookup_empty. split; [done|]. intros (o & Ho & _). by rewrite Ho in E.
  - rewrite E, fmap_Some. naive_solver.
Qed.

Lemma findOriginalName_shown t : t ∈ ts -> findOriginalName entries c (user_name params (tool_name t)) = tool_name t.
Proof using range_ok entries_ok built distinct fresh named.
  intros Ht. pose proof (proj1 (Forall_forall _ _) named t Ht) as Hne. cbv beta in Hne.
  assert (tool_name t ∈ (tool_name <$> ts)) as Hin by (by apply list_elem_of_fmap_2).
  unfold findOriginalName. destruct (list_find _ _) as [[i [a e]]|] eqn:E.
  - apply list_find_Some in E as (Hi & He & _). cbn [snd] in He.
    apply list_elem_of_lookup_2, entries_override in Hi as (o & Ho & ->). cbn in He. unfold user_name in *.
    destruct (tp_ToolsOverride params !! tool_name t) as [o'|] eqn:Eo.
    + case_decide; [by rewrite (fresh a o Ho); rewrite He|]. symmetry. by apply (distinct _ _ o' o).
    + rewrite <- He. by apply (fresh a o Ho); rewrite He.
  - apply list_find_None in E. unfold user_name in *.
    destruct (tp_ToolsOverride params !! tool_name t) as [o'|] eqn:Eo; [|done]. case_decide as En; [done|].
    exfalso. apply (proj1 (Forall_forall _ _) E (tool_name t, entry_for (tool_name t, o'))); [|done].
    apply entries_override. by exists o'.
Qed.

Lemma matched t : t ∈ ts ->
  exists i, list_find (fun p => st_Name p.1 = user_name params (tool_name t) \/
      st_Name p.1 = findOriginalName entries c (user_name params (tool_name t)))
    ((fun t => (simple_of t, t)) <$> ts) = Some (i, (simple_of t, t)).
Proof using All.
  intros Ht. destruct (list_find _ _) as [[i [s u]]|] eqn:E.
  - apply list_find_Some in E as (Hi & Hs & _). apply list_lookup_fmap_Some in Hi as (u' & [= -> ->] & Hu).
    apply list_elem_of_lookup_2 in Hu. exists i. cbn [fst simple_of st_Name] in Hs.
    assert (u' = t) as ->; [|done]. apply same_tool; [done|done|].
    destruct Hs as [Hs|Hs]; [|by rewrite Hs, findOriginalName_shown].
    unfold user_name in Hs. destruct (tp_ToolsOverride params !! tool_name t) as [o|] eqn:Eo; [|done].
    case_decide; [done|]. rewrite (fresh _ o Eo); [done|]. rewrite <- Hs. by apply list_elem_of_fmap_2.
  - apply list_find_None in E. exfalso.
    apply (proj1 (Forall_forall _ _) E (simple_of t, t)); [by apply (list_elem_of_fmap_2 (fun t => (simple_of t, t)))|].
    right. cbn [fst simple_of st_Name]. by rewrite findOriginalName_shown.
Qed.

Lemma filtered_tools_shown : filtered_tools entries c (Some <$> ts) = Some (omap (shown params) ts).
Proof using All.
  unfold filtered_tools. rewrite simple_tools_named by done. f_equal.
  assert (((fun t => (simple_of t, t)) <$> ts).*1 = simple_of <$> ts) as ->.
  { rewrite <- list_fmap_compose. by apply list_fmap_ext. }
  unfold match_tools, applyFilteringAndOverrides.
  assert (forall l : list fields, (forall t, t ∈ l -> t ∈ ts) ->
    omap (fun processed => match list_find (fun p => st_Name p.1 = st_Name processed \/
        st_Name p.1 = findOriginalName entries c (st_Name processed)) ((fun t => (simple_of t, t)) <$> ts) with
      | Some (_, (_, tool)) => Some (tool_copy processed tool) | None => None end)
      (filter (fun tool => isToolInFilter c (st_Name tool) = true) (override_simple c <$> (simple_of <$> l))) =
    omap (shown params) l) as Hl; [|by apply Hl].
  induction l as [|t l IH]; intros Hl; [done|]. cbn [fmap list_fmap]. rewrite filter_cons.
  rewrite (override_simple_built _ _ _ _ range_ok built). cbn [st_Name].
  rewrite (omap_cons_eq (shown params)). unfold shown at 1.
  pose proof (isToolInFilter_listed _ _ _ range_ok built (user_name params (tool_name t))) as Hf.
  destruct (matched t (Hl t ltac:(left))) as [i Hm].
  case_decide as E1; case_decide as E2; [|by apply Hf in E1|by apply Hf in E2|by apply IH; intros; apply Hl; right].
  rewrite omap_cons_eq. cbn [st_Name]. rewrite Hm. f_equal. apply IH. intros. apply Hl. by right.
Qed.
End view.

Lemma get_cons key k v (t : fields) : get key ((k, v) :: t) = if decide (k = key) then Some v else get key t.
Proof. unfold get, fields in *. rewrite filter_cons. cbn [fst]. by case_decide. Qed.

Lemma get_put key v (t : fields) : get key (put key v t) = Some v.
Proof. unfold put. by rewrite get_cons, decide_True. Qed.

Lemma get_put_ne key key' v (t : fields) : key <> key' -> get key (put key' v t) = get key t.
Proof.
  intros Hne. unfold put. rewrite get_cons, decide_False by congruence.
  etransitivity; [exact (get_filter (fun k => k <> key') key t)|]. by rewrite decide_True.
Qed.

Lemma tool_copy_name s t : tool_name (tool_copy s t) = st_Name s.
Proof.
  unfold tool_name, tool_copy. cbn zeta. case_decide; [|by rewrite get_put].
  rewrite get_put_ne by done. by rewrite get_put.
Qed.

Lemma tool_copy_get s t key : key <> "name" -> key <> "description" -> get key (tool_copy s t) = get key t.
Proof. intros. unfold tool_copy. cbn zeta. case_decide; by rewrite !get_put_ne. Qed.

(** ** Lists and calls agree *)
Definition unambiguous (params : ToolFilterMiddlewareParams) (ts : list fields) : Prop :=
  names_distinct params /\ names_fresh params ts.

(** The tool of the backend that a name stands for in a call: the one an override gives that name
    to, and the one of that name when no override does. *)
Definition asked_for (params : ToolFilterMiddlewareParams) (name actualName : string) : Prop :=
  (exists o, tp_ToolsOverride params !! actualName = Some o /\ mo_Name o = name) \/
  (actualName = name /\ forall a o, tp_ToolsOverride params !! a = Some o -> mo_Name o <> name).

Lemma call_decided range params c req ps name :
  (forall m, range m ≡ₚ map_to_list m) -> create_config range params = Some c -> names_distinct params ->
  tc_Params req = Some ps -> get "name" ps = Some (JStr name) -> name <> "" ->
  if decide (listed params name) then
    exists actualName, backend_name (processToolCallRequest c req) name = Some actualName /\ asked_for params name actualName
  else processToolCallRequest c req = toolCallFilter.
Proof.
  intros Hr Hb Hd Hps Hn Hne. unfold processToolCallRequest. rewrite Hps, Hn. cbn [as_string].
  destruct (decide (name = "")) as [|_]; [done|].
  pose proof (isToolInFilter_listed _ _ _ Hr Hb name) as Hl.
  case_decide as El; [apply Hl in El; rewrite El|destruct (isToolInFilter c _); [by destruct El; apply Hl|done]].
  cbn [negb]. pose proof (getToolCallActualName_built _ _ _ Hr Hb name) as Ha.
  destruct (getToolCallActualName c name) as [a|]; cbn [backend_name]; eexists; (split; [reflexivity|]).
  - left. by apply Ha.
  - right. split; [done|]. intros a o Ho <-. by specialize (proj2 (Ha a Hd Hne) (ex_intro _ o (conj Ho eq_refl))).
Qed.

Lemma user_name_nonempty params name : name <> "" -> user_name params name <> "".
Proof. intros Hn. unfold user_name. destruct (_ !! _); [|done]. by case_decide. Qed.

(** Without ambiguity a name stands for a tool of the list when it is the name users know the
    tool by, or the name the backend knows it by. *)
Lemma asked_for_iff params ts t name :
  unambiguous params ts -> t ∈ ts -> tool_name t <> "" -> name <> "" ->
  asked_for params name (tool_name t) <-> name = user_name params (tool_name t) \/ name = tool_name t.
Proof.
  intros [Hd Hf] Ht Hne Hn. assert (tool_name t ∈ (tool_name <$> ts)) as Hin by (by apply list_elem_of_fmap_2).
  unfold asked_for, user_name. split.
  - intros [(o & -> & Ho)|[-> _]]; [|by right]. left. case_decide; congruence.
  - intros [E|E].
    + destruct (tp_ToolsOverride params !! tool_name t) as [o|] eqn:Eo.
      * case_decide as Eon; [|left; by exists o]. right. split; [done|]. intros a o' Ho' Eo'.
        assert (a = mo_Name o') as Ea by (apply (Hf a o' Ho'); by rewrite Eo', E). congruence.
      * right. split; [done|]. intros a o' Ho' Eo'.
        assert (a = mo_Name o') as Ea by (apply (Hf a o' Ho'); by rewrite Eo', E). congruence.
    + destruct (decide (Exists (fun p => mo_Name p.2 = name) (map_to_list (tp_ToolsOverride params)))) as [Hex|Hno].
      * apply Exists_exists in Hex as ([a o] & Hao%elem_of_map_to_list & Ho). cbn [snd] in Ho.
        assert (a = mo_Name o) as Ea by (apply (Hf a o Hao); by rewrite Ho, E). left. exists o. by rewrite <- E, <- Ho, <- Ea.
      * right. split; [done|]. intros a o Hao Ho. apply Hno, Exists_exists. exists (a, o). by rewrite elem_of_map_to_list.
Qed.

Lemma asked_for_one params name a b :
  names_distinct params -> name <> "" -> asked_for params name a -> asked_for params name b -> a = b.
Proof.
  intros Hd Hn [(o & Ho & E)|[-> Hno]] [(o' & Ho' & E')|[-> Hno']];
    [|by destruct (Hno' a o)|by destruct (Hno b o')|done]. apply (Hd a b o o'); congruence.
Qed.

(** C4. What a client is shown and what it can call.  For a list of tools with distinct names, and
    overrides that give no two tools one name and no tool the name of another, whatever
    the order in which the maps are visited: the filtered list has exactly the tools whose
    name for users the filter admits, in the order of the backend, under that name and
    otherwise unchanged apart from an overridden description.  A call of a name that the filter
    does not admit is refused.  A call of a name that it admits is sent to the backend, and it
    asks for a tool of the list exactly when the name is the one the tool is shown under or the
    backend's own name of it; it asks for no other tool of the list.  So every shown tool is
    called by the name it is shown under, and a tool that is not shown is called by no name but
    the backend's, and only if it is renamed and the filter admits that name. *)
Theorem tool_view_consistent range range' entries params cl cc ts :
  (forall m, range m ≡ₚ map_to_list m) -> (forall m, range' m ≡ₚ map_to_list m) ->
  (forall m, entries m ≡ₚ map_to_list m) ->
  create_config range params = Some cl -> create_config range' params = Some cc -> unambiguous params ts ->
  NoDup (tool_name <$> ts) -> Forall (fun t => tool_name t <> "") ts ->
  filtered_tools entries cl (Some <$> ts) = Some (omap (shown params) ts) /\
  (forall t t', shown params t = Some t' -> tool_name t' = user_name params (tool_name t) /\
     forall key, key <> "name" -> key <> "description" -> get key t' = get key t) /\
  forall req ps name, tc_Params req = Some ps -> get "name" ps = Some (JStr name) -> name <> "" ->
    if decide (listed params name) then
      is_Some (backend_name (processToolCallRequest cc req) name) /\
      forall t, t ∈ ts ->
        (backend_name (processToolCallRequest cc req) name = Some (tool_name t) <->
         name = user_name params (tool_name t) \/ name = tool_name t)
    else processToolCallRequest cc req = toolCallFilter.
Proof.
  intros Hr Hr' He Hl Hc Hu Hnd Hn. pose proof Hu as [Hd Hf]. split_and!; [by apply (filtered_tools_shown range)|..].
  { intros t t'. unfold shown. case_decide; [|done]. intros [= <-].
    split; [apply tool_copy_name|]. intros. by apply tool_copy_get. }
  intros req ps name Hps Hname Hne. pose proof (call_decided range' params cc req ps name Hr' Hc Hd Hps Hname Hne) as Hdec.
  case_decide; [|done]. destruct Hdec as (a & Ha & Hask). split; [by rewrite Ha|]. intros t Ht.
  rewrite <- (asked_for_iff params ts t name Hu Ht (proj1 (Forall_forall _ _) Hn t Ht) Hne), Ha. split.
  - by intros [= <-].
  - intros Ht'. f_equal. by apply (asked_for_one params name).
Qed.

(** ** What is written *)

(** Encoders write one line and keep the names of tools; a reader skips the space after a
    field name.  Names are valid UTF-8 texts. *)
Class ToolsCodecOk (codec : ToolsCodec) : Prop := {
  encode_names r tools data :
    tl_Tools r = Some tools -> EncodeToolsList r = Some data ->
    exists r' tools', tools_of data = Some (r', tools') /\
      (fun t => as_string (lookup_map t "name")) <$> tools' = (fun t => as_string (lookup_map t "name")) <$> tools;
  encode_line r data :
    EncodeToolsList r = Some data ->
    exists line, data = line +:+ String LF "" /\ no_char LF line /\
      UnmarshalToolsList (String " " line) = UnmarshalToolsList data;
  marshal_call r data :
    MarshalToolCall r = Some data ->
    exists r', UnmarshalToolCall data = Some r' /\ tc_Method r' = tc_Method r /\
      as_string (lookup_map (tc_Params r') "name") = as_string (lookup_map (tc_Params r) "name");
  (** what was decoded can be encoded, under another name too *)
  marshal_decoded data r params name :
    UnmarshalToolCall data = Some r -> tc_Params r = Some params ->
    is_Some (MarshalToolCall {| tc_JSONRPC := tc_JSONRPC r; tc_ID := tc_ID r; tc_Method := tc_Method r;
                                tc_Params := Some (put "name" (JStr name) params) |});
  (** the empty text is no value *)
  decode_empty : UnmarshalToolsList "" = SyntaxError;
  (** a text with a complete value at its start is a list of tools only when that value is *)
  decode_prefix a b l :
    UnmarshalToolsList a <> SyntaxError -> tools_of (a +:+ b) = Some l -> tools_of a = Some l;
}.

Section written.
Context {codec : ToolsCodec} {codec_ok : ToolsCodecOk codec}.
Context (range : override_order) (entries : gmap string toolOverrideEntry -> list (string * toolOverrideEntry)).
Context (params : ToolFilterMiddlewareParams) (c : toolMiddlewareConfig).
Context (range_ok : forall m, range m ≡ₚ map_to_list m) (built : create_config range params = Some c).

(** Every tool that a reader finds in the data is one the filter admits. *)
Definition shows_listed (data : string) : Prop :=
  forall r tools, tools_of data = Some (r, tools) ->
    Forall (fun t => exists name, as_string (lookup_map t "name") = Some name /\ listed params name) tools.

Lemma filtered_listed tools l :
  filtered_tools entries c tools = Some l ->
  Forall (fun t => exists name, as_string (get "name" t) = Some name /\ listed params name) l.
Proof using range_ok built.
  unfold filtered_tools. destruct (simple_tools tools) as [st|]; [|done]. intros [= <-].
  apply Forall_forall. intros t (s & Hs & Hm)%list_elem_of_omap.
  destruct (list_find _ _) as [[i [u f]]|]; [|done]. injection Hm as <-.
  apply list_elem_of_filter in Hs as [Hf _]. exists (st_Name s).
  split; [|by apply (isToolInFilter_listed range params c)].
  unfold tool_copy. cbn zeta. case_decide; [rewrite get_put_ne by done|]; by rewrite get_put.
Qed.

Lemma processed_listed r tools out : processToolsListResponse entries c r tools = Some out -> shows_listed out.
Proof using codec_ok range_ok built.
  unfold processToolsListResponse. destruct (filtered_tools entries c tools) as [l|] eqn:Ef; [|done].
  intros E r' tools' Ht. apply filtered_listed in Ef.
  eapply encode_names in E as (r2 & tools2 & Ht2 & En); [|reflexivity]. rewrite Ht in Ht2. injection Ht2 as <- <-.
  rewrite <- list_fmap_compose in En. clear -Ef En. revert tools' En.
  induction Ef as [|t l [name [Hn Hl]] _ IH]; intros [|t' tools'] En; try done; constructor; cbn in En;
    injection En as E1 E2; [|by apply IH]. exists name. by rewrite E1.
Qed.

Definition body_call (call : writer_call) : Prop :=
  match call with CallWrite _ | CallFlush => True | _ => False end.

Lemma writeBuffer_writes rw data :
  w_Body (tw_Writer (writeBuffer rw data)) = w_Body (tw_Writer rw) +:+ data /\
  w_ContentType (tw_Writer (writeBuffer rw data)) = w_ContentType (tw_Writer rw) /\ tw_buffer (writeBuffer rw data) = "".
Proof using. cbn. unfold send_headers. by destruct (w_Sent _). Qed.

(** A flush drains and may send the headers. *)
Lemma tw_Flush_drains rw :
  let rw' := (drainBuffer entries c rw false).2 in
  w_Body (tw_Writer (tw_Flush entries c rw)) = w_Body (tw_Writer rw') /\
  w_ContentType (tw_Writer (tw_Flush entries c rw)) = w_ContentType (tw_Writer rw') /\
  tw_buffer (tw_Flush entries c rw) = tw_buffer rw'.
Proof using.
  unfold tw_Flush. destruct (drainBuffer entries c rw false) as [forward rw']. cbn [snd].
  destruct (forward && _); [|done]. cbn. unfold send_headers. by destruct (w_Sent _).
Qed.

(** Nothing was written yet, or a complete value in which every tool is listed comes first. *)
Definition begins_listed (body : string) : Prop :=
  body = "" \/ exists value rest, body = value +:+ rest /\ UnmarshalToolsList value <> SyntaxError /\ shows_listed value.

Lemma begins_listed_shows body : begins_listed body -> shows_listed body.
Proof using codec_ok.
  intros [->|(value & rest & -> & Hv & Hs)] r tools Ht; [unfold tools_of in Ht; by rewrite decode_empty in Ht|].
  apply (Hs r tools). by apply decode_prefix in Ht.
Qed.

Lemma begins_listed_more body data : begins_listed body -> body <> "" -> begins_listed (body +:+ data).
Proof using. intros [?|(value & rest & -> & Hv & Hs)] Hb; [done|]. right. exists value, (rest +:+ data). by rewrite app_string_assoc. Qed.

Lemma processJSONBuffer_listed buffer :
  match processJSONBuffer entries c buffer with
  | inl KeepBuffering => tools_of buffer = None
  | inl UnsupportedMimeType => False
  | inl HardFailure => True
  | inr out => begins_listed out
  end.
Proof using codec_ok range_ok built.
  unfold processJSONBuffer. destruct (UnmarshalToolsList buffer) as [| |r] eqn:E; [by unfold tools_of; rewrite E|..].
  - right. exists buffer, "". rewrite app_string_nil_r, E. split_and!; [done..|]. intros r tools. unfold tools_of. by rewrite E.
  - destruct (tl_Tools r) as [tools|] eqn:Et.
    + destruct (processToolsListResponse entries c r tools) as [out|] eqn:Ep; [|done].
      right. exists out, "". rewrite app_string_nil_r. split_and!; [done| |by apply (processed_listed r tools)].
      unfold processToolsListResponse in Ep. destruct (filtered_tools entries c tools); [|done].
      eapply encode_names in Ep as (r2 & tools2 & Ht2 & _); [|reflexivity]. unfold tools_of in Ht2. by destruct (UnmarshalToolsList out).
    + right. exists buffer, "". rewrite app_string_nil_r, E. split_and!; [done..|]. intros r' tools. unfold tools_of. by rewrite E, Et.
Qed.

(** A body labelled as JSON. *)
Definition json_ok (rw : toolFilterWriter) : Prop :=
  tool_mime_type (w_ContentType (tw_Writer rw)) = "application/json" /\ begins_listed (w_Body (tw_Writer rw)).

Lemma write_json rw data : json_ok rw -> begins_listed data -> json_ok (writeBuffer rw data).
Proof using.
  intros [Hm Hb] Hd. destruct (writeBuffer_writes rw data) as (E1 & E2 & _). split; rewrite ?E1, ?E2; [done|].
  destruct (decide (w_Body (tw_Writer rw) = "")) as [->|]; [done|by apply begins_listed_more].
Qed.

Lemma drain_json rw : json_ok rw -> json_ok (drainBuffer entries c rw false).2.
Proof using codec_ok range_ok built.
  intros Hj. unfold drainBuffer. case_decide as En; [done|]. rewrite (proj1 Hj).
  unfold processBuffer. rewrite decide_False, decide_True by done.
  pose proof (processJSONBuffer_listed (tw_buffer rw)) as Hp.
  destruct (processJSONBuffer entries c (tw_buffer rw)) as [[]|out]; [done..|]. by apply write_json.
Qed.

Lemma finish_json rw : json_ok rw -> shows_listed (w_Body (tw_Writer (finish entries c rw))).
Proof using codec_ok range_ok built.
  intros Hj. unfold finish, drainBuffer. case_decide as En; [apply begins_listed_shows, Hj|]. rewrite (proj1 Hj).
  unfold processBuffer. rewrite decide_False, decide_True by done.
  pose proof (processJSONBuffer_listed (tw_buffer rw)) as Hp.
  destruct (processJSONBuffer entries c (tw_buffer rw)) as [[]|out]; cbn [snd].
  - rewrite (proj1 (writeBuffer_writes _ _)). destruct (decide (w_Body (tw_Writer rw) = "")) as [->|].
    + intros r tools Ht. change ("" +:+ tw_buffer rw) with (tw_buffer rw) in Ht. by rewrite Hp in Ht.
    + apply begins_listed_shows, begins_listed_more; [apply Hj|done].
  - done.
  - apply begins_listed_shows, Hj.
  - apply begins_listed_shows. by apply write_json.
Qed.

Lemma calls_json calls rw : Forall body_call calls -> json_ok rw -> json_ok (foldl (tw_call entries c) rw calls).
Proof using codec_ok range_ok built.
  intros Hc. revert rw. induction Hc as [|call calls Hcall _ IH]; intros rw Hw; [done|]. cbn [foldl]. apply IH.
  destruct call; cbn [tw_call body_call] in *; [done|done|done|].
  destruct (tw_Flush_drains rw) as (E1 & E2 & _). apply drain_json in Hw. unfold json_ok. by rewrite E1, E2.
Qed.

(** A line of an event stream, as a reader of single lines sees it. *)
Definition line_listed (line : string) : Prop :=
  match CutPrefix line "data:" with Some data => shows_listed data | None => True end.

Lemma process_line_listed line out :
  no_char LF line -> process_line entries c line = Some out ->
  exists lines, Split LF out = lines /\ Forall line_listed lines.
Proof using codec_ok range_ok built.
  intros Hn. unfold process_line. destruct (CutPrefix line "data:") as [data|] eqn:Ec.
  - destruct (tools_of data) as [[r tools]|] eqn:Et.
    + destruct (processToolsListResponse entries c r tools) as [enc|] eqn:Ep; [|done]. intros [= <-].
      pose proof (processed_listed _ _ _ Ep) as Hl. unfold processToolsListResponse in Ep.
      destruct (filtered_tools entries c tools); [|done].
      apply encode_line in Ep as (text & -> & Ht & Eu). eexists. split; [reflexivity|].
      rewrite <- app_string_assoc, Split_app by (by apply no_char_app).
      constructor; [|by constructor]. unfold line_listed.
      change ("data: " +:+ text) with ("data:" +:+ String " " text). rewrite (proj2 (CutPrefix_Some _ _ (String " " text))) by done.
      intros r' tools'. unfold tools_of. rewrite Eu. apply Hl.
    + intros [= <-]. eexists. split; [reflexivity|]. rewrite Split_no_char by done. constructor; [|done].
      unfold line_listed. rewrite Ec. intros r tools. by rewrite Et.
  - intros [= <-]. eexists. split; [reflexivity|]. rewrite Split_no_char by done. constructor; [|done].
    unfold line_listed. by rewrite Ec.
Qed.

Lemma process_lines_listed lines : forall out n,
  Forall (no_char LF) lines -> process_lines entries c SepLF lines = Some (out, n) -> Forall line_listed (Split LF out).
Proof using codec_ok range_ok built.
  induction lines as [|line lines IH]; cbn [process_lines]; intros out n Hn; [intros [= <- <-]; by repeat constructor|].
  apply Forall_cons in Hn as [Hn Hns]. case_decide; [by apply IH|].
  destruct (process_line entries c line) as [o|] eqn:Ep; [|done].
  destruct (process_lines entries c SepLF lines) as [[rest k]|] eqn:Er; [|done]. intros [= <- <-].
  apply (process_line_listed _ _ Hn) in Ep as (ls & Es & Hls). cbn [separator_text].
  change (String LF "" +:+ rest) with (String LF rest). rewrite Split_app_sep, Es.
  apply Forall_app. split; [done|]. by apply (IH rest k).
Qed.

Lemma processEventStream_listed buffer out :
  no_char CR buffer -> processEventStream entries c buffer = inr out -> Forall line_listed (Split LF out).
Proof using codec_ok range_ok built.
  intros Hn. unfold processEventStream.
  assert (forall sep, find_separator buffer = inr sep -> sep = SepLF) as Hsep.
  { apply no_char_backwards in Hn. unfold find_separator. destruct (backwards buffer) as [|a s]; [done|].
    destruct Hn as [Ha Hs]. intros sep. repeat (case_match; simplify_eq; try done).
    all: first [by intros [= <-]|exfalso; by apply Ha|exfalso; by apply Hs]. }
  destruct (find_separator buffer) as [err|sep]; [done|]. rewrite (Hsep sep eq_refl). cbn [split_lines].
  destruct (process_lines _ _ _ _) as [[o n]|] eqn:Ep; [|done]. intros [= <-].
  apply process_lines_listed in Ep; [|apply Forall_forall; intros p Hp; by apply (Split_parts LF buffer)].
  case_decide; [|done]. cbn [separator_text]. rewrite Split_app_sep. apply Forall_app. split; [done|]. by constructor.
Qed.

Definition ends_line (s : string) : Prop := exists t, s = t +:+ String LF "".

Lemma ends_line_app s t : ends_line t -> ends_line (s +:+ t).
Proof using. intros [u ->]. exists (s +:+ u). by rewrite app_string_assoc. Qed.

Lemma ends_line_tail s t : t <> "" -> ends_line (s +:+ t) -> ends_line t.
Proof using.
  intros Ht. induction s as [|a s IH]; [done|]. intros [u Hu]. apply IH. destruct u as [|b u].
  - change (String a s +:+ t) with (String a (s +:+ t)) in Hu. injection Hu as _ E. by destruct s, t.
  - injection Hu as _ E. by exists u.
Qed.

Lemma process_lines_ends lines : forall out n,
  process_lines entries c SepLF lines = Some (out, n) -> (out = "" /\ n = 0) \/ ends_line out.
Proof using.
  induction lines as [|line lines IH]; cbn [process_lines]; intros out n; [intros [= <- <-]; by left|].
  case_decide; [by apply IH|]. destruct (process_line entries c line) as [o|]; [|done].
  destruct (process_lines entries c SepLF lines) as [[rest k]|] eqn:Er; [|done]. intros [= <- <-]. right.
  apply ends_line_app. destruct (IH rest k eq_refl) as [[-> _]|Hr]; [by exists ""|by apply (ends_line_app (String LF ""))].
Qed.

Lemma ends_line_separator buffer : no_char CR buffer -> ends_line buffer -> find_separator buffer = inr SepLF.
Proof using.
  intros Hn [t ->]. apply no_char_app in Hn as [Hn _]. unfold find_separator. rewrite backwards_snoc.
  apply no_char_backwards in Hn. destruct (backwards t) as [|a u]; [done|]. destruct Hn as [Ha _].
  repeat (case_match; simplify_eq; try done). all: exfalso; by apply Ha.
Qed.

Lemma open_line_kept buffer : buffer <> "" -> ~ ends_line buffer -> no_char CR buffer -> exists err, find_separator buffer = inl err.
Proof using.
  intros Hb He Hn. unfold find_separator. destruct (backwards buffer) as [|a u] eqn:E.
  { destruct Hb. by rewrite <- (backwards_involutive buffer), E. }
  assert (buffer = backwards u +:+ String a "") as ->.
  { rewrite <- (backwards_involutive buffer), E. change (String a u) with (String a "" +:+ u). by rewrite backwards_app. }
  apply no_char_app in Hn as [_ [Ha _]]. assert (a <> LF) as Hl by (intros ->; apply He; by eexists).
  repeat (case_match; simplify_eq; try (by eexists)); exfalso; first [by apply Ha|by apply Hl].
Qed.

Lemma processEventStream_ends buffer out :
  no_char CR buffer -> ends_line buffer -> processEventStream entries c buffer = inr out -> ends_line out.
Proof using.
  intros Hn He. unfold processEventStream. rewrite (ends_line_separator buffer Hn He). cbn [split_lines].
  destruct (process_lines _ _ _ _) as [[o n]|] eqn:Ep; [|done]. intros [= <-].
  case_decide as Hc; [by exists o|]. apply process_lines_ends in Ep as [[-> ->]|]; [|done].
  destruct He as [t ->]. rewrite Split_app_sep, length_app in Hc. cbn in Hc.
  pose proof (Split_not_nil LF t). destruct (Split LF t); [done|]. cbn in Hc. lia.
Qed.

Lemma processEventStream_supported buffer : processEventStream entries c buffer <> inl UnsupportedMimeType.
Proof using.
  unfold processEventStream. assert (find_separator buffer <> inl UnsupportedMimeType) as Hf.
  { unfold find_separator. repeat case_match; discriminate. }
  destruct (find_separator buffer) as [err|sep]; [congruence|]. destruct (process_lines _ _ _ _) as [[]|]; discriminate.
Qed.

(** A body labelled as an event stream: whole lines, in each of which every tool is listed. *)
Definition stream_ok (rw : toolFilterWriter) : Prop :=
  tool_mime_type (w_ContentType (tw_Writer rw)) = "text/event-stream" /\ no_char CR (tw_buffer rw) /\
  (w_Body (tw_Writer rw) = "" \/ ends_line (w_Body (tw_Writer rw))) /\
  Forall line_listed (Split LF (w_Body (tw_Writer rw))).

Lemma write_stream rw data :
  stream_ok rw -> ends_line data -> Forall line_listed (Split LF data) -> stream_ok (writeBuffer rw data).
Proof using.
  intros (Hm & Hn & Hb & Hl) He Hd. destruct (writeBuffer_writes rw data) as (E1 & E2 & E3).
  unfold stream_ok. rewrite E1, E2, E3. split_and!; [done|done|by right; apply ends_line_app|].
  destruct Hb as [->|[t Ht]]; [done|]. rewrite Ht in *. rewrite Split_app_sep in Hl. apply Forall_app in Hl as [Hl _].
  rewrite app_string_assoc. change (String LF "" +:+ data) with (String LF data). rewrite Split_app_sep. by apply Forall_app.
Qed.

(** What is drained leaves the buffer empty or, when the stream goes on, as it was. *)
Lemma drain_stream rw terminal :
  stream_ok rw -> (terminal = true -> tw_buffer rw = "" \/ ends_line (tw_buffer rw)) ->
  let rw' := (drainBuffer entries c rw terminal).2 in stream_ok rw' /\ (tw_buffer rw' = "" \/ tw_buffer rw' = tw_buffer rw).
Proof using codec_ok range_ok built.
  intros Hs Ht rw'. subst rw'. pose proof Hs as (Hm & Hn & Hb & Hl). unfold drainBuffer. case_decide as En; [by auto|]. rewrite Hm.
  unfold processBuffer. rewrite decide_False, decide_False, decide_True by done.
  destruct (processEventStream entries c (tw_buffer rw)) as [err|out] eqn:Ep.
  - destruct err.
    + destruct terminal; [|by auto]. exfalso. destruct (Ht eq_refl) as [?|He]; [done|].
      unfold processEventStream in Ep. rewrite (ends_line_separator _ Hn He) in Ep. by repeat case_match.
    + by apply processEventStream_supported in Ep.
    + cbn. split; [|by left]. by split_and!.
  - cbn [snd]. assert (ends_line (tw_buffer rw)) as He.
    { destruct (backwards (tw_buffer rw)) as [|a u] eqn:Eb; [by rewrite <- (backwards_involutive (tw_buffer rw)), Eb in En|].
      assert (tw_buffer rw = backwards u +:+ String a "") as Eu.
      { rewrite <- (backwards_involutive (tw_buffer rw)), Eb. change (String a u) with (String a "" +:+ u). by rewrite backwards_app. }
      destruct (decide (a = LF)) as [->|Ha]; [by exists (backwards u)|].
      destruct (open_line_kept (tw_buffer rw) En) as [err Ee]; [|done|unfold processEventStream in Ep; by rewrite Ee in Ep].
      intros [t Et]. rewrite Et, backwards_snoc in Eb. injection Eb as E1 _. by apply Ha. }
    split; [|by left; apply writeBuffer_writes].
    apply write_stream; [done|by eapply processEventStream_ends|by eapply processEventStream_listed].
Qed.
End written.

(** The bytes a handler writes. *)
Definition written (calls : list writer_call) : string :=
  String.concat "" ((fun call => match call with CallWrite data => data | _ => "" end) <$> calls).

Lemma concat_cons x l : String.concat "" (x :: l) = x +:+ String.concat "" l.
Proof. destruct l as [|y l]; [by rewrite app_string_nil_r|done]. Qed.

Lemma written_cons call calls :
  written (call :: calls) = match call with CallWrite data => data | _ => "" end +:+ written calls.
Proof. apply concat_cons. Qed.

Lemma calls_stream {codec : ToolsCodec} {codec_ok : ToolsCodecOk codec} range entries params c calls rw :
  (forall m, range m ≡ₚ map_to_list m) -> create_config range params = Some c ->
  Forall body_call calls -> stream_ok params rw -> no_char CR (written calls) ->
  let rw' := foldl (tw_call entries c) rw calls in
  stream_ok params rw' /\ exists before, tw_buffer rw +:+ written calls = before +:+ tw_buffer rw'.
Proof.
  intros Hr Hb Hc. revert rw. induction Hc as [|call calls Hcall _ IH]; intros rw Hs Hn; cbn [foldl].
  { split; [done|]. exists "". by rewrite app_string_nil_r. }
  rewrite written_cons in *. apply no_char_app in Hn as [Hd Hn]. destruct call as [| |data|]; cbn [tw_call body_call] in *; [done|done|..].
  - destruct (IH (tw_Write rw data)) as [Hs' [before E]]; [|done|].
    + destruct Hs as (? & ? & ? & ?). split_and!; cbn; try done. by apply no_char_app.
    + split; [done|]. exists before. rewrite <- E. cbn. by rewrite app_string_assoc.
  - destruct (tw_Flush_drains entries c rw) as (E1 & E2 & E3).
    destruct (drain_stream range entries params c Hr Hb rw false Hs) as [Hs' Hbuf]; [done|].
    destruct (IH (tw_Flush entries c rw)) as [Hs2 [before E]]; [unfold stream_ok; by rewrite E1, E2, E3|done|].
    split; [done|]. rewrite E3 in E. change ("" +:+ written calls) with (written calls).
    destruct Hbuf as [Hbuf|Hbuf]; rewrite Hbuf in E; [|by exists before].
    exists (tw_buffer rw +:+ before). by rewrite app_string_assoc, <- E.
Qed.

Lemma tw_started w ct cl status :
  let rw := tw_WriteHeader {| tw_Writer := set_headers w ct cl; tw_buffer := ""; tw_statusCode := 200 |} status in
  w_ContentType (tw_Writer rw) = ct /\ w_Body (tw_Writer rw) = w_Body w.
Proof.
  unfold tw_WriteHeader, writer_WriteHeader, send_headers. cbn. destruct (informational status); [done|].
  by destruct (w_Sent w).
Qed.

(** C31. Lists are filtered before they are written, however the backend writes and flushes.  A
    response labelled as JSON, decoded as it stands, is no list of tools, or one with only tools
    the filter admits.  In an event stream that is written with line feeds and ends with one, the same holds of
    the data of every line on its own.  (A reader that strips a byte order mark from a JSON body, or
    that joins several data lines of one event into a list, is not covered: the filter does not
    look at what such readers see.) *)
Theorem tool_responses_filtered {codec : ToolsCodec} {codec_ok : ToolsCodecOk codec} range entries params c w ct cl status calls :
  (forall m, range m ≡ₚ map_to_list m) -> create_config range params = Some c ->
  w_Body w = "" -> Forall body_call calls ->
  let body := w_Body (ListToolsMapping entries c w (CallSetHeaders ct cl :: CallWriteHeader status :: calls)) in
  (tool_mime_type ct = "application/json" -> shows_listed params body) /\
  (tool_mime_type ct = "text/event-stream" -> no_char CR (written calls) -> ends_line (written calls) ->
   Forall (line_listed params) (Split LF body)).
Proof.
  intros Hr Hb Hw Hc body. subst body. unfold ListToolsMapping. cbn [foldl tw_call].
  destruct (tw_started w ct cl status) as [Hct Hbody]. set (rw := tw_WriteHeader _ status) in *. rewrite Hw in Hbody. split.
  - intros Hm. apply (finish_json range); [done..|]. apply (calls_json range); [done..|].
    split; [by rewrite Hct|]. by left.
  - intros Hm Hn He.
    destruct (calls_stream range entries params c calls rw) as [Hs [before E]]; [done..| |done|].
    { split_and!; [by rewrite Hct|done|by left|]. rewrite Hbody. by repeat constructor. }
    destruct (drain_stream range entries params c Hr Hb _ true Hs) as [(_ & _ & _ & ?) _]; [|done].
    intros _. set (buf := tw_buffer (foldl _ _ _)) in *. destruct (decide (buf = "")); [by left|right].
    apply (ends_line_tail before); [done|]. rewrite <- E. by apply ends_line_app.
Qed.

(** The name a request calls. *)
Definition called (req : toolCallRequest) : option string := as_string (lookup_map (tc_Params req) "name").

(** C32. Calls are filtered and renamed before they are sent, when the overrides give no two tools
    one name.  A request that reaches the backend and is a call of a tool comes from a call by the
    client of a name that the filter admits, and asks the backend for the tool this name stands
    for: the tool an override gives the name to, under the backend's name of it, and the name
    itself when no override gives it to a tool.  A call of a name that the filter does not admit
    is answered without the backend. *)
Theorem tool_calls_filtered {codec : ToolsCodec} {codec_ok : ToolsCodecOk codec} range params c accept w r :
  (forall m, range m ≡ₚ map_to_list m) -> create_config range params = Some c -> names_distinct params ->
  (forall r' body req, ToolCallMapping c accept w r = CallForwarded r' -> hr_Body r' = Some body ->
     UnmarshalToolCall body = Some req -> tc_Method req = "tools/call" ->
     exists sent call name actualName, hr_Body r = Some sent /\ UnmarshalToolCall sent = Some call /\
       called call = Some name /\ listed params name /\
       called req = Some actualName /\ asked_for params name actualName) /\
  (forall sent call name, hr_Body r = Some sent -> UnmarshalToolCall sent = Some call -> tc_Method call = "tools/call" ->
     called call = Some name -> ~ listed params name -> exists w', ToolCallMapping c accept w r = CallAnswered w').
Proof.
  intros Hr Hb Hd. unfold ToolCallMapping, called. split.
  - intros r' body req. destruct (hr_Body r) as [bytes|] eqn:Er; [|intros [= <-]; congruence].
    destruct (UnmarshalToolCall bytes) as [q|] eqn:Eq; [|intros [= <-]; congruence].
    case_decide as Em; [intros [= <-]; congruence|].
    unfold processToolCallRequest. destruct (tc_Params q) as [ps|] eqn:Eps; [|done].
    destruct (as_string (get "name" ps)) as [name|] eqn:En; [|done]. case_decide as Ene; [done|].
    destruct (isToolInFilter c name) eqn:Ef; cbn [negb]; [|by destruct (clientAcceptsJSON accept)].
    apply (isToolInFilter_listed range params c Hr Hb) in Ef.
    assert (as_string (lookup_map (tc_Params q) "name") = Some name) as Hname by (by rewrite Eps).
    pose proof (fun a => getToolCallActualName_built range params c Hr Hb name a Hd Ene) as Hactual.
    destruct (getToolCallActualName c name) as [a|] eqn:Ea.
    + destruct (proj1 (Hactual a) eq_refl) as (o & Ho & Eo). cbn [fmap option_fmap option_map].
      destruct (marshal_decoded bytes q ps a Eq Eps) as [data Ed]. rewrite Ed. intros [= <-] [= <-] E2 _.
      exists bytes, q, name, a. split_and!; [done..| |by left; exists o].
      apply marshal_call in Ed as (q' & Eq' & _ & E). assert (q' = req) as <- by congruence. rewrite E. cbn. by rewrite get_put.
    + intros [= <-] E1 E2 _. assert (q = req) as <- by congruence. exists bytes, q, name, name. split_and!; [done..|].
      right. split; [done|]. intros a o Ho Eo. by specialize (proj2 (Hactual a) (ex_intro _ o (conj Ho Eo))).
  - intros sent call name -> -> Hm Hname Hl. rewrite decide_False by (intros Hno; by apply Hno). unfold processToolCallRequest.
    destruct (tc_Params call) as [ps|]; [|by eexists]. cbn [lookup_map] in Hname. rewrite Hname.
    case_decide; [by eexists|]. pose proof (isToolInFilter_listed range params c Hr Hb name) as Hf.
    destruct (isToolInFilter c name); [by destruct Hl; apply Hf|]. cbn [negb]. destruct (clientAcceptsJSON accept); by eexists.
Qed.

(** ** Where the filter ends *)

(** A tool that is renamed out of the filter is not shown, and is still called by the backend's
    name of it when the filter has that one. *)
Theorem hidden_tool_called range params c ts t req ps :
  (forall m, range m ≡ₚ map_to_list m) -> create_config range params = Some c -> unambiguous params ts ->
  t ∈ ts -> tool_name t <> "" -> listed params (tool_name t) -> ~ listed params (user_name params (tool_name t)) ->
  tc_Params req = Some ps -> get "name" ps = Some (JStr (tool_name t)) ->
  shown params t = None /\ backend_name (processToolCallRequest c req) (tool_name t) = Some (tool_name t).
Proof.
  intros Hr Hb Hu Ht Hne Hl Hno Hps Hname. split; [unfold shown; by rewrite decide_False|].
  pose proof (call_decided range params c req ps (tool_name t) Hr Hb (proj1 Hu) Hps Hname Hne) as Hd.
  rewrite decide_True in Hd by done. destruct Hd as (a & -> & Ha). f_equal.
  apply (asked_for_one params (tool_name t)); [apply Hu|done|done|]. apply (asked_for_iff params ts); auto.
Qed.

Lemma finish_kept {codec : ToolsCodec} entries c rw body :
  tw_buffer rw = body -> tool_mime_type (w_ContentType (tw_Writer rw)) = "text/event-stream" ->
  find_separator body = inl KeepBuffering -> w_Body (tw_Writer (finish entries c rw)) = w_Body (tw_Writer rw) +:+ body.
Proof.
  intros Hb Hm Hs. unfold finish, drainBuffer. rewrite Hb, Hm. case_decide as E; [by rewrite E in Hs|].
  unfold processBuffer. rewrite (decide_False (P := body = "")), decide_False, decide_True by done.
  unfold processEventStream. rewrite Hs. cbn. unfold send_headers. by destruct (w_Sent _).
Qed.

Lemma concat_snoc (pieces : list string) piece : String.concat "" (pieces ++ [piece]) = String.concat "" pieces +:+ piece.
Proof.
  induction pieces as [|p pieces IH]; [done|]. change ((p :: pieces) ++ [piece]) with (p :: (pieces ++ [piece])).
  by rewrite !concat_cons, IH, app_string_assoc.
Qed.

Lemma calls_content_type {codec : ToolsCodec} entries c calls rw ct :
  Forall body_call calls -> w_ContentType (tw_Writer rw) = ct ->
  w_ContentType (tw_Writer (foldl (tw_call entries c) rw calls)) = ct.
Proof.
  intros Hc. revert rw. induction Hc as [|call calls Hcall _ IH]; intros rw Hw; [done|]. cbn [foldl]. apply IH.
  destruct call; cbn [tw_call body_call] in *; [done..|]. destruct (tw_Flush_drains entries c rw) as (_ & -> & _).
  unfold drainBuffer. case_decide; [done|].
  destruct (processBuffer _ _ _ _ _) as [[]|]; cbn [snd]; try done; by rewrite (proj1 (proj2 (writeBuffer_writes _ _))).
Qed.

(** At least two bytes, the last of which is no line break. *)
Definition open_ended (data : string) : Prop := exists t a, data = t +:+ String a "" /\ t <> "" /\ a <> LF /\ a <> CR.

Lemma open_ended_app s t : open_ended t -> open_ended (s +:+ t).
Proof.
  intros (u & a & -> & Hu & ? & ?). exists (s +:+ u), a. rewrite app_string_assoc. split_and!; [done| |done..]. by destruct s, u.
Qed.

Lemma open_ended_kept data : open_ended data -> find_separator data = inl KeepBuffering.
Proof.
  intros (t & a & -> & Ht & Hl & Hc). unfold find_separator. rewrite backwards_snoc.
  destruct (backwards t) as [|b u] eqn:E; [by destruct Ht; rewrite <- (backwards_involutive t), E|].
  repeat (case_match; simplify_eq; try done); exfalso; first [by apply Hl|by apply Hc].
Qed.

(** Pieces that a handler writes, flushing after some of them. *)
Definition piece_calls (pieces : list (string * bool)) : list writer_call :=
  pieces ≫= fun p => CallWrite p.1 :: (if p.2 : bool then [CallFlush] else []).

Lemma flush_kept {codec : ToolsCodec} entries c rw :
  open_ended (tw_buffer rw) -> tool_mime_type (w_ContentType (tw_Writer rw)) = "text/event-stream" ->
  tw_Flush entries c rw = rw.
Proof.
  intros Ho Hm. unfold tw_Flush, drainBuffer. case_decide as E.
  { rewrite E in Ho. destruct Ho as ([] & a & Ho & _); discriminate Ho. }
  rewrite Hm.
  unfold processBuffer. rewrite decide_False, decide_False, decide_True by done.
  unfold processEventStream. by rewrite (open_ended_kept _ Ho).
Qed.

Lemma pieces_kept {codec : ToolsCodec} entries c pieces rw :
  tool_mime_type (w_ContentType (tw_Writer rw)) = "text/event-stream" -> Forall (fun p => open_ended p.1) pieces ->
  foldl (tw_call entries c) rw (piece_calls pieces) =
  {| tw_Writer := tw_Writer rw; tw_buffer := tw_buffer rw +:+ String.concat "" pieces.*1; tw_statusCode := tw_statusCode rw |}.
Proof.
  intros Hm Hp. revert rw Hm. induction Hp as [|[data flushed] pieces Ho _ IH]; intros rw Hm.
  { cbn. rewrite app_string_nil_r. by destruct rw. }
  cbn [fst] in Ho. rewrite fmap_cons, concat_cons. cbn [fst]. unfold piece_calls. rewrite bind_cons. cbn [fst snd]. rewrite foldl_app.
  assert (foldl (tw_call entries c) rw (CallWrite data :: (if flushed then [CallFlush] else [])) = tw_Write rw data) as ->.
  { destruct flushed; [|done]. cbn [foldl tw_call]. apply flush_kept; [|done]. cbn. by apply open_ended_app. }
  rewrite <- app_string_assoc. by apply (IH (tw_Write rw data)).
Qed.


(** Events are merged: the blank lines between the events of a stream are left out, so two
    events that arrive together reach the client as one, whose payload is neither. *)
Theorem stream_events_merged {codec : ToolsCodec} entries c :
  tools_of " a" = None -> tools_of " b" = None ->
  let lf := String LF "" in
  let body := "data: a" +:+ (lf +:+ (lf +:+ ("data: b" +:+ (lf +:+ lf)))) in
  client_payloads body = ["a"; "b"] /\
  exists out, processEventStream entries c body = inr out /\ client_payloads out = ["a" +:+ (lf +:+ "b")].
Proof.
  intros Ha Hb lf body. split; [by vm_compute|].
  exists ("data: a" +:+ (lf +:+ ("data: b" +:+ (lf +:+ lf)))). split; [|by vm_compute].
  unfold processEventStream. change (find_separator body) with (@inr process_error _ SepLF). cbn beta iota.
  change (split_lines SepLF body) with ["data: a"; ""; "data: b"; ""; ""].
  assert (process_line entries c "data: a" = Some "data: a" /\ process_line entries c "data: b" = Some "data: b") as [Ea Eb].
  { unfold process_line. change (CutPrefix "data: a" "data:") with (Some " a").
    change (CutPrefix "data: b" "data:") with (Some " b"). cbn beta iota. by rewrite Ha, Hb. }
  cbn [process_lines]. rewrite Ea, Eb. vm_compute. reflexivity.
Qed.

(** ** A codec to evaluate with: lists of bare names, in base64 *)
Definition bare_name (t : option fields) : option string :=
  match t with
  | Some [(key, JStr name)] => if decide (key = "name") then Some name else None
  | _ => None
  end.

Definition bare_tool_named (name : string) : option fields := Some [("name", JStr name)].

Definition names_text (names : list string) : string :=
  String "{" (Join "," ("" :: (EncodeToString <$> names)) +:+ String "}" "").

Definition sample_UnmarshalToolsList (s : string) : unmarshalled :=
  match CutPrefix (TrimPrefix s " ") "{" ≫= Cut "}" with
  | None => SyntaxError
  | Some (inner, after) =>
      match mapM DecodeString (tail (Split "," inner)) with
      | Some names =>
          if decide (after = "" \/ after = String LF "") then
            Decoded {| tl_JSONRPC := "2.0"; tl_ID := JNull; tl_Tools := Some (bare_tool_named <$> names) |}
          else SyntaxError
      | None => SyntaxError
      end
  end.

Definition sample_tools_codec : ToolsCodec := {|
  UnmarshalToolsList := sample_UnmarshalToolsList;
  EncodeToolsList r :=
    match tl_Tools r with
    | None => None
    | Some tools => (fun names => names_text names +:+ String LF "") <$> mapM bare_name tools
    end;
  UnmarshalToolCall s :=
    match Cut ":" s with
    | None => None
    | Some (method, name) =>
        match DecodeString method, DecodeString name with
        | Some method, Some name =>
            Some {| tc_JSONRPC := "2.0"; tc_ID := JNull; tc_Method := method; tc_Params := Some [("name", JStr name)] |}
        | _, _ => None
        end
    end;
  MarshalToolCall r :=
    (fun name => EncodeToString (tc_Method r) +:+ String ":" (EncodeToString name)) <$>
      as_string (lookup_map (tc_Params r) "name");
  MarshalObject _ := Some "{}";
|}.

Lemma mapM_roundtrip names : mapM DecodeString (EncodeToString <$> names) = Some names.
Proof. induction names as [|n names IH]; [done|]. cbn. rewrite base64_roundtrip. cbn. by rewrite IH. Qed.

Lemma joined_no_sep ch (names : list string) : separator ch -> ch <> ","%char -> no_char ch (Join "," ("" :: (EncodeToString <$> names))).
Proof.
  intros Hs Hc. induction names as [|n names IH]; [done|].
  change (Join "," ("" :: (EncodeToString <$> n :: names))) with
    (String "," (Join "," (EncodeToString n :: (EncodeToString <$> names)))). split; [done|].
  destruct names as [|m names]; [by apply no_sep_base64|].
  change (Join "," (EncodeToString n :: (EncodeToString <$> m :: names))) with
    (EncodeToString n +:+ String "," (Join "," (EncodeToString <$> m :: names))).
  apply no_char_app. split; [by apply no_sep_base64|]. exact IH.
Qed.

Lemma names_text_no_LF names : no_char LF (names_text names).
Proof.
  unfold names_text. split; [done|]. apply no_char_app. split; [|done].
  apply joined_no_sep; [unfold separator; tauto|done].
Qed.

Lemma sample_read_names names s after :
  TrimPrefix s " " = names_text names +:+ after -> after = "" \/ after = String LF "" ->
  sample_UnmarshalToolsList s = Decoded {| tl_JSONRPC := "2.0"; tl_ID := JNull; tl_Tools := Some (bare_tool_named <$> names) |}.
Proof.
  intros E Ha. unfold sample_UnmarshalToolsList. rewrite E. unfold names_text.
  change (String "{" ?x +:+ after) with ("{" +:+ (x +:+ after)). rewrite (proj2 (CutPrefix_Some _ "{" _)) by done. cbn [mbind option_bind].
  rewrite app_string_assoc. change (String "}" "" +:+ after) with (String "}" after).
  rewrite (proj2 (Cut_Some "}" _ (Join "," ("" :: (EncodeToString <$> names))) after))
    by (split; [done|apply joined_no_sep; [unfold separator; tauto|done]]).
  rewrite Split_Join; [cbn [tail]; by rewrite mapM_roundtrip, decide_True|done|].
  constructor; [done|]. apply Forall_fmap, Forall_forall. intros n _. apply no_sep_base64. unfold separator. tauto.
Qed.

Lemma TrimPrefix_more a b : a <> "" -> TrimPrefix (a +:+ b) " " = TrimPrefix a " " +:+ b.
Proof.
  destruct a as [|x a]; [done|]. intros _. unfold TrimPrefix. change (String x a +:+ b) with (String x (a +:+ b)).
  cbn [CutPrefix]. case_decide; [|done]. by destruct a, b.
Qed.

Lemma sample_decode_prefix a b :
  sample_UnmarshalToolsList a <> SyntaxError -> sample_UnmarshalToolsList (a +:+ b) <> SyntaxError ->
  sample_UnmarshalToolsList (a +:+ b) = sample_UnmarshalToolsList a.
Proof.
  unfold sample_UnmarshalToolsList. destruct (decide (a = "")) as [->|Hne]; [done|]. rewrite TrimPrefix_more by done.
  destruct (CutPrefix (TrimPrefix a " ") "{") as [t|] eqn:E; [|done]. apply CutPrefix_Some in E. rewrite E.
  rewrite app_string_assoc, (proj2 (CutPrefix_Some _ "{" (t +:+ b))) by done. cbn [mbind option_bind].
  destruct (Cut "}" t) as [[inner after]|] eqn:Ec; [|done]. apply Cut_Some in Ec as [-> Hn].
  rewrite app_string_assoc. change (String "}" after +:+ b) with (String "}" (after +:+ b)).
  rewrite (proj2 (Cut_Some "}" _ inner (after +:+ b))) by done.
  destruct (mapM DecodeString _); [|done]. case_decide; [|done]. by case_decide.
Qed.

Lemma sample_tools_codec_ok : ToolsCodecOk sample_tools_codec.
Proof.
  assert (forall names, TrimPrefix (names_text names +:+ String LF "") " " = names_text names +:+ String LF "") as Hlf by done.
  assert (forall tools names, mapM bare_name tools = Some names -> tools = bare_tool_named <$> names) as Hbare.
  { intros tools names Hm%mapM_Some_1. induction Hm as [|t n tools names Hn _ IH]; [done|]. cbn. rewrite <- IH. f_equal.
    destruct t as [[|[k []] []]|]; try done. cbn in Hn. case_decide; [|done]. by simplify_eq. }
  split.
  - intros r tools data Et. cbn. rewrite Et. destruct (mapM bare_name tools) as [names|] eqn:Em; [|done]. intros [= <-].
    eexists _, _. unfold tools_of. cbn. rewrite (sample_read_names names _ (String LF "") (Hlf names) (or_intror eq_refl)). cbn. split; [reflexivity|].
    by rewrite (Hbare _ _ Em).
  - intros r data. cbn. destruct (tl_Tools r) as [tools|]; [|done].
    destruct (mapM bare_name tools) as [names|]; [|done]. intros [= <-]. exists (names_text names).
    split_and!; [done|apply names_text_no_LF|]. rewrite (sample_read_names names _ (String LF "") (Hlf names) (or_intror eq_refl)).
    apply (sample_read_names names _ ""); [by rewrite app_string_nil_r|auto].
  - intros r data. cbn. destruct (as_string (lookup_map (tc_Params r) "name")) as [name|]; [|done]. intros [= <-].
    eexists. cbn. rewrite (proj2 (Cut_Some ":" _ (EncodeToString (tc_Method r)) (EncodeToString name))).
    + rewrite !base64_roundtrip. done.
    + split; [done|]. apply no_sep_base64. unfold separator. tauto.
  - intros data r ps name _ _. cbn. rewrite get_put. by eexists.
  - done.
  - intros a b l Ha. unfold tools_of. cbn. intros Hl. rewrite sample_decode_prefix in Hl; [done|done|].
    intros E. by rewrite E in Hl.
Qed.

(** ** Examples *)
Definition sample_params : ToolFilterMiddlewareParams := {|
  tp_FilterTools := ["fetch"; "put"];
  tp_ToolsOverride := {[ "get" := {| mo_Name := "fetch"; mo_Description := "" |} ]} |}.

Definition sample_config : toolMiddlewareConfig := {|
  mw_filterTools := {["fetch"; "put"]};
  mw_actualToUserOverride := {[ "get" := entry_for ("get", {| mo_Name := "fetch"; mo_Description := "" |}) ]};
  mw_userToActualOverride := {[ "fetch" := entry_for ("get", {| mo_Name := "fetch"; mo_Description := "" |}) ]} |}.

Lemma sample_config_built : create_config map_to_list sample_params = Some sample_config.
Proof. vm_compute. reflexivity. Qed.

Definition sample_names (names : list string) : list fields := (fun n => [("name", JStr n)]) <$> names.

Lemma sample_distinct : names_distinct sample_params.
Proof.
  intros a b o o'. cbn [tp_ToolsOverride sample_params].
  intros [<- _]%lookup_singleton_Some [<- _]%lookup_singleton_Some. done.
Qed.

Definition sample_call_named (name : string) : toolCallRequest :=
  {| tc_JSONRPC := "2.0"; tc_ID := JNull; tc_Method := "tools/call"; tc_Params := Some [("name", JStr name)] |}.

Lemma sample_unambiguous : unambiguous sample_params (sample_names ["get"; "put"; "delete"]).
Proof.
  split; [apply sample_distinct|]. intros a o. cbn [tp_ToolsOverride sample_params].
  intros [<- <-]%lookup_singleton_Some. cbn. set_solver.
Qed.

Lemma sample_not_listed name : name <> "fetch" -> name <> "put" -> ~ listed sample_params name.
Proof. intros ? ? [E|E]; [discriminate E|]. cbn in E. set_solver. Qed.

(** [get] is shown as [fetch] and called by that name; its own name is not in the filter. *)
Lemma tool_view_consistent_witness :
  filtered_tools map_to_list sample_config (Some <$> sample_names ["get"; "put"; "delete"]) =
    Some (sample_names ["fetch"; "put"]) /\
  backend_name (processToolCallRequest sample_config (sample_call_named "fetch")) "fetch" = Some "get" /\
  processToolCallRequest sample_config (sample_call_named "get") = toolCallFilter.
Proof.
  destruct (tool_view_consistent map_to_list map_to_list map_to_list sample_params sample_config sample_config
    (sample_names ["get"; "put"; "delete"])) as (H1 & _ & H2);
    [done|done|done|apply sample_config_built..|apply sample_unambiguous| | |].
  - by repeat (constructor; [set_solver|]); constructor.
  - by repeat constructor.
  - rewrite H1. split_and!; [vm_compute; reflexivity|..].
    + pose proof (H2 (sample_call_named "fetch") [("name", JStr "fetch")] "fetch" eq_refl eq_refl ltac:(done)) as Hf.
      rewrite decide_True in Hf by (right; left). destruct Hf as [_ Hf].
      apply (Hf [("name", JStr "get")]); [left|]. left. vm_compute. reflexivity.
    + pose proof (H2 (sample_call_named "get") [("name", JStr "get")] "get" eq_refl eq_refl ltac:(done)) as Hf.
      by rewrite decide_False in Hf by (by apply sample_not_listed).
Defined.

(** The list is written in two parts, with a flush in between that finds it incomplete. *)
Lemma tool_responses_filtered_witness :
  let calls := [CallWrite "{"; CallFlush; CallWrite (",Z2V0,ZGVsZXRl}" +:+ String LF "")] in
  let body := w_Body (@ListToolsMapping map_to_list sample_config sample_tools_codec (sample_writer "")
      (CallSetHeaders "application/json" None :: CallWriteHeader 200 :: calls)) in
  body = names_text ["fetch"] +:+ String LF "" /\ @shows_listed sample_tools_codec sample_params body.
Proof.
  intros calls body. split; [vm_compute; reflexivity|].
  apply (@tool_responses_filtered sample_tools_codec sample_tools_codec_ok map_to_list map_to_list sample_params
    sample_config (sample_writer "") "application/json" None 200 calls);
    [done|apply sample_config_built|done|by repeat constructor|done].
Defined.

Definition sample_fetch_request : HttpRequest := {|
  hr_Method := "POST"; hr_Path := "/mcp"; hr_ContentType := "application/json"; hr_McpMethod := ""; hr_McpName := "";
  hr_Body := Some (EncodeToString "tools/call" +:+ String ":" (EncodeToString "fetch")); hr_Parsed := None |}.

Lemma tool_calls_filtered_witness :
  let sent := EncodeToString "tools/call" +:+ String ":" (EncodeToString "get") in
  @ToolCallMapping sample_config sample_tools_codec "" (sample_writer "") sample_fetch_request =
    CallForwarded (with_body sample_fetch_request sent) /\
  (exists name actualName, listed sample_params name /\ called (sample_call_named "get") = Some actualName /\
     asked_for sample_params name actualName) /\
  exists w', @ToolCallMapping sample_config sample_tools_codec "" (sample_writer "") (with_body sample_fetch_request sent) =
    CallAnswered w'.
Proof.
  intros sent. split_and!; [vm_compute; reflexivity|..].
  - destruct (@tool_calls_filtered sample_tools_codec sample_tools_codec_ok map_to_list sample_params sample_config ""
      (sample_writer "") sample_fetch_request) as [Hf _]; [done|apply sample_config_built|apply sample_distinct|].
    destruct (Hf (with_body sample_fetch_request sent) sent (sample_call_named "get"))
      as (_ & _ & name & actualName & _ & _ & _ & Hl & Hc & Ha); [vm_compute; reflexivity|done|vm_compute; reflexivity|done|].
    exists name, actualName. split_and!; [exact Hl|exact Hc|exact Ha].
  - apply (@tool_calls_filtered sample_tools_codec sample_tools_codec_ok map_to_list sample_params sample_config ""
      (sample_writer "") (with_body sample_fetch_request sent)) with (sent := sent) (call := sample_call_named "get") (name := "get");
      [done|apply sample_config_built|apply sample_distinct|done|vm_compute; reflexivity|done|done|by apply sample_not_listed].
Defined.


Lemma stream_events_merged_witness :
  client_payloads ("data: a" +:+ (String LF (String LF ("data: b" +:+ String LF (String LF ""))))) = ["a"; "b"].
Proof. apply (@stream_events_merged sample_tools_codec map_to_list sample_config); vm_compute; reflexivity. Defined.
