(* ===== verification/Redis.v ===== *)
(** * Redis, as the storage of the authorization server uses it

    A database is a map from keys to strings and sets, each with the time it expires at, if
    any.  An expired key is still in the map but no command sees it.  The commands are those
    the storage issues through its client ([pkg/authserver/storage/redis.go]): single
    commands, the transactions of [TxPipeline], and two Lua scripts.  The reply of a command
    is [None] when it is an error: a command on a value of the wrong type, or one whose reply
    was lost, whether it was executed or not.

    The client library turns a duration into the unit of a command: whole seconds for EXPIRE
    and at most milliseconds for SET.  How it rounds is the class [RedisClient], with what is
    documented of it in [RedisClientOk].  The JSON functions of Lua are the class [CJson]. *)

From S2P Require Import Prelude Programs.

Inductive rvalue := RString (data : string) | RSet (members : gset string).

Record rentry := mkEntry {
  re_value : rvalue;
  re_deadline : option Time;
}.

Abbreviation database := (gmap string rentry) (only parsing).

Definition alive (now : Time) (e : rentry) : bool :=
  match re_deadline e with None => true | Some deadline => (now <? deadline)%Z end.

Definition look (now : Time) (db : database) (key : string) : option rentry :=
  match db !! key with
  | Some e => if alive now e then Some e else None
  | None => None
  end.

Lemma look_earlier now now' (db : database) key e : (now <= now')%Z -> look now' db key = Some e -> look now db key = Some e.
Proof.
  intros Hle. unfold look, alive. destruct (db !! key) as [e'|]; [|done]. destruct (re_deadline e') as [d|]; [|done].
  destruct (Z.ltb_spec now' d); [|done]. by rewrite (proj2 (Z.ltb_lt now d)) by lia.
Qed.

Lemma look_alive now (db : database) key e : look now db key = Some e -> alive now e = true.
Proof. unfold look. destruct (db !! key) as [e'|]; [|done]. destruct (alive now e') eqn:Ha; congruence. Qed.

(** ** The client library *)
Definition Millisecond : Duration := 1000000%Z.

Class RedisClient := {
  set_for : Duration -> Duration;     (* how long SET keeps a key, asked for a duration *)
  expire_for : Duration -> Duration;  (* how long EXPIRE does *)
}.

Class RedisClientOk `{RedisClient} : Prop := {
  set_for_whole : forall n, (0 < n)%Z -> set_for (n * time.Second) = (n * time.Second)%Z;
  expire_for_whole : forall n, (0 < n)%Z -> expire_for (n * time.Second) = (n * time.Second)%Z;
  set_for_bound : forall d, (0 < d)%Z -> (0 < set_for d <= Z.max d Millisecond)%Z;
  expire_for_bound : forall d, (0 < d)%Z -> (d - time.Second < expire_for d)%Z;
}.

(** [cjson_user_id]: the field [user_id] of a decoded table, [None] when the text does not
    decode to a table or the field is missing.  [cjson_touch]: decoding, setting
    [last_used_at], and encoding again; [None] when one of them raises an error. *)
Class CJson := {
  cjson_user_id : string -> option string;
  cjson_touch : Z -> string -> option string;
}.

(** ** Replies and effects *)
Abbreviation reply A := (option A) (only parsing).

Definition effect (A : Type) : Type := database -> reply A * database.

(** In a script an error of [redis.call] ends the script; what it has done stays. *)
Definition ebind {A B} (m : effect A) (k : A -> effect B) : effect B :=
  fun db => match m db with
            | (None, db) => (None, db)
            | (Some a, db) => k a db
            end.

Definition eret {A} (a : A) : effect A := fun db => (Some a, db).

Definition eraise {A} : effect A := fun db => (None, db).

Declare Scope effect_scope.
Delimit Scope effect_scope with effect.
Bind Scope effect_scope with effect.
Notation "'call' x <- m ; k" := (ebind m (fun x => k)) (at level 10, x name, m at level 200, k at level 200) : effect_scope.

(** ** Commands *)
Inductive tx_command :=
  | TxSet (key data : string) (ttl : Duration)
  | TxSAdd (key member : string)
  | TxExpire (key : string) (ttl : Duration).

Inductive command : Type -> Type :=
  | Get (key : string) : command (reply (option string))
  | Set_ (key data : string) (ttl : Duration) : command (reply unit)
  | SetNX (key data : string) : command (reply bool)
  | Del (keys : list string) : command (reply Z)
  | Exists (key : string) : command (reply bool)
  | Expire (key : string) (ttl : Duration) : command (reply bool)
  | TTL (key : string) : command (reply Z)
  | SRem (key member : string) : command (reply unit)
  | SAdd (key member : string) : command (reply unit)
  | SMembers (key : string) : command (reply (list string))
  | MGet (keys : list string) : command (reply (list (option string)))
  | TxPipeline (cmds : list tx_command) : command (reply unit)
  | StoreUpstream (key idxKey data : string) (ttlMs : Z) (newUserID setPrefix : string) : command (reply unit)
  | UpdateLastUsed (key : string) (lastUsed : Z) : command (reply bool).

Section exec.
Context `{RedisClient, CJson}.
Context (order : gset string -> list string).   (* the order a set is listed in *)
Context (now : Time).

Definition lifetime (d : Duration) : option Time := Some (time.Add now d).

Definition GET (key : string) : effect (option string) := fun db =>
  match look now db key with
  | None => (Some None, db)
  | Some (mkEntry (RString data) _) => (Some (Some data), db)
  | Some (mkEntry (RSet _) _) => (None, db)
  end.

Definition set_string (key data : string) (deadline : option Time) : effect unit := fun db =>
  (Some tt, <[key := mkEntry (RString data) deadline]> db).

(** A duration of zero is no expiry. *)
Definition SET (key data : string) (ttl : Duration) : effect unit :=
  set_string key data (if (ttl =? 0)%Z then None else lifetime (set_for ttl)).

Definition SETPX (key data : string) (ttlMs : Z) : effect unit :=
  set_string key data (lifetime (ttlMs * Millisecond)).

Definition SETNX (key data : string) : effect bool := fun db =>
  match look now db key with
  | Some _ => (Some false, db)
  | None => (Some true, <[key := mkEntry (RString data) None]> db)
  end.

Definition DEL (keys : list string) : effect Z := fun db =>
  (Some (Z.of_nat (length (filter (fun key => is_Some (look now db key)) (remove_dups keys)))),
   foldr delete db keys).

Definition EXISTS (key : string) : effect bool := fun db =>
  (Some (bool_decide (is_Some (look now db key))), db).

(** Changing the deadline of a key that is there. *)
Definition set_deadline (key : string) (deadline : option Time) : effect bool := fun db =>
  match look now db key with
  | None => (Some false, db)
  | Some e => (Some true, <[key := mkEntry (re_value e) deadline]> db)
  end.

Definition EXPIRE (key : string) (ttl : Duration) : effect bool := set_deadline key (lifetime (expire_for ttl)).
Definition PEXPIRE (key : string) (ttlMs : Z) : effect bool := set_deadline key (lifetime (ttlMs * Millisecond)).
Definition PERSIST (key : string) : effect bool := set_deadline key None.

(** -2 for a missing key, -1 for one without expiry, else the time that remains, in a unit.  Of
    the reply of TTL only the sign is used. *)
Definition remaining (unit_ : Duration) (key : string) : effect Z := fun db =>
  (Some (match look now db key with
         | None => -2
         | Some e => match re_deadline e with None => -1 | Some d => (d - now) `div` unit_ end
         end)%Z, db).

Definition SADD (key member : string) : effect unit := fun db =>
  match look now db key with
  | None => (Some tt, <[key := mkEntry (RSet {[member]}) None]> db)
  | Some (mkEntry (RSet members) deadline) => (Some tt, <[key := mkEntry (RSet ({[member]} ∪ members)) deadline]> db)
  | Some (mkEntry (RString _) _) => (None, db)
  end.

(** A set without members is removed. *)
Definition SREM (key member : string) : effect unit := fun db =>
  match look now db key with
  | None => (Some tt, db)
  | Some (mkEntry (RSet members) deadline) =>
      let members := members ∖ {[member]} in
      (Some tt, if decide (members = ∅) then delete key db else <[key := mkEntry (RSet members) deadline]> db)
  | Some (mkEntry (RString _) _) => (None, db)
  end.

Definition SMEMBERS (key : string) : effect (list string) := fun db =>
  match look now db key with
  | None => (Some [], db)
  | Some (mkEntry (RSet members) _) => (Some (order members), db)
  | Some (mkEntry (RString _) _) => (None, db)
  end.

(** A value that is not a string is listed as missing. *)
Definition MGET (keys : list string) : effect (list (option string)) := fun db =>
  (Some ((fun key => match look now db key with
                     | Some (mkEntry (RString data) _) => Some data
                     | _ => None
                     end) <$> keys), db).

(** ** Transactions and scripts *)
Definition exec_tx (c : tx_command) : effect unit :=
  match c with
  | TxSet key data ttl => SET key data ttl
  | TxSAdd key member => SADD key member
  | TxExpire key ttl => (call _ <- EXPIRE key ttl; eret tt)%effect
  end.

(** In a transaction every command is executed; the reply is an error if one of theirs is. *)
Fixpoint MULTI (cmds : list tx_command) : effect unit := fun db =>
  match cmds with
  | [] => (Some tt, db)
  | c :: cmds =>
      let '(r, db) := exec_tx c db in
      let '(rs, db) := MULTI cmds db in
      (match r with Some _ => rs | None => None end, db)
  end.

Definition old_user_id (existing : option string) (nullMarker : string) : string :=
  match existing with
  | None => ""
  | Some data => if decide (data = nullMarker) then "" else default "" (cjson_user_id data)
  end.

(** The part of the script that keeps the time to live of the index. *)
Definition keep_index_alive (idxKey : string) (idxExisted : bool) (ttlMs : Z) : effect unit :=
  (if (ttlMs =? 0)%Z then call _ <- PERSIST idxKey; eret tt
   else if negb idxExisted then call _ <- PEXPIRE idxKey ttlMs; eret tt
   else
     call idxTTL <- remaining Millisecond idxKey;
     if (idxTTL =? -1)%Z then eret tt
     else if (idxTTL <? ttlMs)%Z then call _ <- PEXPIRE idxKey ttlMs; eret tt
     else eret tt)%effect.

Definition storeUpstreamTokensScript (key idxKey data : string) (ttlMs : Z) (newUserID setPrefix : string) : effect unit :=
  (call existing <- GET key;
   let oldUserID := old_user_id existing "null" in
   call _ <- (if (0 <? ttlMs)%Z then SETPX key data ttlMs else SET key data 0);
   call idxExisted <- EXISTS idxKey;
   call _ <- SADD idxKey key;
   call _ <- keep_index_alive idxKey idxExisted ttlMs;
   call _ <- (if decide (oldUserID <> "" /\ oldUserID <> newUserID) then SREM (setPrefix +:+ oldUserID) key else eret tt);
   if decide (newUserID <> "") then SADD (setPrefix +:+ newUserID) key else eret tt)%effect.

Definition updateLastUsedScript (key : string) (lastUsed : Z) : effect bool :=
  (call data <- GET key;
   match data with
   | None => eret false
   | Some data =>
       match cjson_touch lastUsed data with
       | None => eraise
       | Some data => call _ <- SET key data 0; eret true
       end
   end)%effect.

Definition exec {B} (c : command B) : database -> B * database :=
  match c in command B return database -> B * database with
  | Get key => GET key
  | Set_ key data ttl => SET key data ttl
  | SetNX key data => SETNX key data
  | Del keys => DEL keys
  | Exists key => EXISTS key
  | Expire key ttl => EXPIRE key ttl
  | TTL key => remaining time.Second key
  | SRem key member => SREM key member
  | SAdd key member => SADD key member
  | SMembers key => SMEMBERS key
  | MGet keys => MGET keys
  | TxPipeline cmds => MULTI cmds
  | StoreUpstream key idxKey data ttlMs newUserID setPrefix =>
      storeUpstreamTokensScript key idxKey data ttlMs newUserID setPrefix
  | UpdateLastUsed key lastUsed => updateLastUsedScript key lastUsed
  end.
End exec.

(** ** What a command writes *)
Inductive write :=
  | WSet (key data : string) (ttl : Duration)
  | WSetNX (key data : string)
  | WDel (keys : list string)
  | WExpire (key : string) (ttl : Duration)
  | WAdd (key member : string)
  | WRem (key member : string)
  | WTx (cmds : list tx_command)
  | WUpstream (key idxKey data : string) (ttlMs : Z) (newUserID setPrefix : string)
  | WTouch (key : string) (lastUsed : Z).

Definition written {B} (c : command B) : option write :=
  match c with
  | Set_ key data ttl => Some (WSet key data ttl)
  | SetNX key data => Some (WSetNX key data)
  | Del keys => Some (WDel keys)
  | Expire key ttl => Some (WExpire key ttl)
  | SAdd key member => Some (WAdd key member)
  | SRem key member => Some (WRem key member)
  | TxPipeline cmds => Some (WTx cmds)
  | StoreUpstream key idxKey data ttlMs newUserID setPrefix => Some (WUpstream key idxKey data ttlMs newUserID setPrefix)
  | UpdateLastUsed key lastUsed => Some (WTouch key lastUsed)
  | _ => None
  end.

(** The reply of a command that failed. *)
Definition lost {B} (c : command B) : B :=
  match c in command B return B with
  | Get _ | Set_ _ _ _ | SetNX _ _ | Del _ | Exists _ | Expire _ _ | TTL _ | SRem _ _ | SAdd _ _ | SMembers _
  | MGet _ | TxPipeline _ | StoreUpstream _ _ _ _ _ _ | UpdateLastUsed _ _ => None
  end.

Section performs.
Context `{RedisClient, CJson}.

Definition apply_write (now : Time) (w : write) (db : database) : database :=
  match w with
  | WSet key data ttl => (SET now key data ttl db).2
  | WSetNX key data => (SETNX now key data db).2
  | WDel keys => (DEL now keys db).2
  | WExpire key ttl => (EXPIRE now key ttl db).2
  | WAdd key member => (SADD now key member db).2
  | WRem key member => (SREM now key member db).2
  | WTx cmds => (MULTI now cmds db).2
  | WUpstream key idxKey data ttlMs newUserID setPrefix =>
      (storeUpstreamTokensScript now key idxKey data ttlMs newUserID setPrefix db).2
  | WTouch key lastUsed => (updateLastUsedScript now key lastUsed db).2
  end.

(** A command is executed and answered, or executed or not without an answer. *)
Inductive performs (now : Time) {B} (c : command B) (db : database) : B -> database -> Prop :=
  | performs_done order :
      (forall members, order members ≡ₚ elements members) ->
      performs now c db (exec order now c db).1 (exec order now c db).2
  | performs_lost order :
      (forall members, order members ≡ₚ elements members) ->
      performs now c db (lost c) (exec order now c db).2
  | performs_failed : performs now c db (lost c) db.

Lemma exec_writes order now {B} (c : command B) db :
  (exec order now c db).2 = match written c with Some w => apply_write now w db | None => db end.
Proof.
  destruct c; try reflexivity; cbn; unfold GET, EXISTS, remaining, SMEMBERS, MGET;
    try reflexivity; by destruct (look now db key) as [[[] ?]|].
Qed.

Lemma performs_writes now {B} (c : command B) db r db' :
  performs now c db r db' ->
  db' = db \/ exists w, written c = Some w /\ db' = apply_write now w db.
Proof.
  destruct 1; rewrite ?exec_writes; [| |by left]; destruct (written c); eauto.
Qed.
End performs.

(** ** Several callers *)
Section world.
Context `{RedisClient, CJson}.
Context {A : Type}.

Record world := mkWorld {
  w_now : Time;
  w_db : database;
  w_threads : list (prog command A);
}.

(** Time passes, a call begins, or a call in progress performs its next command. *)
Inductive world_step (starts : prog command A -> Prop) : world -> world -> Prop :=
  | step_time now' now db ts :
      (now <= now')%Z -> world_step starts (mkWorld now db ts) (mkWorld now' db ts)
  | step_start p now db ts :
      starts p -> world_step starts (mkWorld now db ts) (mkWorld now db (ts ++ [p]))
  | step_command i B (c : command B) k r now db db' ts :
      ts !! i = Some (Do c k) -> performs now c db r db' ->
      world_step starts (mkWorld now db ts) (mkWorld now db' (<[i := k r]> ts)).

(** Every write of the program is [good], as long as the replies are as [ans] says; then the
    result is as [Q] says. *)
Definition follows (good : write -> Prop) (ans : forall B, command B -> B -> Prop) (p : prog command A) (Q : A -> Prop) : Prop :=
  holds (S := unit) (fun _ c _ => forall w, written c = Some w -> good w) (fun _ c _ r _ => ans _ c r) p (fun a _ => Q a) tt.

Section invariant.
Context (starts : prog command A -> Prop) (good : write -> Prop).
Context (I : Time -> database -> Prop).
Context (ans ans' : forall B, command B -> B -> Prop).
Context (until : Time -> Prop).                          (* the time [ans'] can be relied on *)
Context (time_ok : forall now now' db, (now <= now')%Z -> I now db -> I now' db).
Context (write_ok : forall now db w, I now db -> good w -> I now (apply_write now w db)).
Context (reply_ok : forall now db B (c : command B) r db', I now db -> performs now c db r db' -> ans B c r).
Context (until_ok : forall now now', (now <= now')%Z -> until now' -> until now).
Context (reply_until : forall now db B (c : command B) r db',
           I now db -> until now -> performs now c db r db' -> ans' B c r).
Context (starts_ok : forall p, starts p -> follows good ans p (fun _ => True)).

Definition sound (w : world) : Prop :=
  I (w_now w) (w_db w) /\ Forall (fun p => follows good ans p (fun _ => True)) (w_threads w).

Lemma sound_step w w' : sound w -> world_step starts w w' -> sound w'.
Proof using time_ok write_ok reply_ok starts_ok.
  intros [HI Ht] Hs. destruct Hs as [now' now db ts Hle|p now db ts Hp|i B c k r now db db' ts Hi Hr]; cbn in *.
  - split; [by eapply time_ok|done].
  - split; [done|]. apply Forall_app. split; [done|]. apply Forall_singleton. by apply starts_ok.
  - assert (follows good ans (Do c k) (fun _ => True)) as [Hc Hk] by exact (Forall_lookup_1 _ _ _ _ Ht Hi).
    split.
    + destruct (performs_writes _ _ _ _ _ Hr) as [->|(w & Hw & ->)]; [done|]. apply write_ok; [done|]. by apply Hc.
    + apply Forall_insert; [done|]. apply (Hk r tt). by eapply reply_ok.
Qed.

Lemma sound_steps w w' : sound w -> rtc (world_step starts) w w' -> sound w'.
Proof using time_ok write_ok reply_ok starts_ok. intros Hw Hs. induction Hs; eauto using sound_step. Qed.

(** What holds of one call and the database, whatever the others do. *)
Lemma tracked (T : Time -> database -> prog command A -> Prop) w w' i p p' :
  (forall now now' db p, (now <= now')%Z -> T now db p -> T now' db p) ->
  (forall now db w p, I now db -> good w -> T now db p -> T now (apply_write now w db) p) ->
  (forall now db B (c : command B) k r db', I now db -> follows good ans (Do c k) (fun _ => True) ->
     T now db (Do c k) -> performs now c db r db' -> T now db' (k r)) ->
  sound w -> rtc (world_step starts) w w' ->
  w_threads w !! i = Some p -> T (w_now w) (w_db w) p ->
  w_threads w' !! i = Some p' -> T (w_now w') (w_db w') p'.
Proof using time_ok write_ok reply_ok starts_ok.
  intros Htime Hwrite Hown Hw Hs. revert i p Hw. induction Hs as [w|w w1 w2 Hs Hss IH]; intros i p Hw Hp HT Hp'.
  - by simplify_eq.
  - assert (sound w1) as Hw1 by (by eapply sound_step). specialize (IH i).
    destruct Hs as [now' now db ts Hle|q now db ts Hq|j B c k r now db db' ts Hj Hr]; cbn in *.
    + eapply IH; eauto.
    + eapply (IH p); eauto. by apply lookup_app_l_Some.
    + destruct Hw as [HI Ht]. assert (follows good ans (Do c k) (fun _ => True)) as Hf by exact (Forall_lookup_1 _ _ _ _ Ht Hj).
      destruct (decide (i = j)) as [->|Hij].
      * rewrite Hp in Hj. injection Hj as ->.
        eapply (IH (k r)); [done|by apply list_lookup_insert_eq, (lookup_lt_Some _ _ _ Hp)| |done]. exact (Hown _ _ _ _ _ _ _ HI Hf HT Hr).
      * eapply (IH p); [done|by rewrite list_lookup_insert_ne| |done].
        destruct (performs_writes _ _ _ _ _ Hr) as [->|(v & Hv & ->)]; [done|]. apply Hwrite; [done| |done]. by apply Hf.
Qed.

(** A call that can rely on [ans'] ends as [Q] says, if it ends in time. *)
Lemma tracked_result w w' i p Q a :
  sound w -> rtc (world_step starts) w w' ->
  w_threads w !! i = Some p ->
  (until (w_now w) -> follows good (fun B c r => ans B c r /\ ans' B c r) p Q) ->
  w_threads w' !! i = Some (Ret a) -> until (w_now w') -> Q a.
Proof using time_ok write_ok reply_ok starts_ok until_ok reply_until.
  intros Hw Hs Hp HQ Ha Hu.
  enough (until (w_now w') -> follows good (fun B c r => ans B c r /\ ans' B c r) (Ret a) Q) as HQ' by exact (HQ' Hu).
  eapply (tracked (fun now _ p => until now -> follows good (fun B c r => ans B c r /\ ans' B c r) p Q));
    [| | |done..]; cbn; clear - until_ok reply_ok reply_until.
  - intros now now' _ p Hle HT Hu. eauto.
  - intros now _ _ p _ _ HT. exact HT.
  - intros now db B c k r db' HI _ HT Hr Hu. destruct (HT Hu) as [_ Hk]. apply (Hk r tt).
    split; [by eapply reply_ok|by eapply reply_until].
Qed.
End invariant.
End world.

(** ** A call on its own *)
Section alone.
Context `{RedisClient, CJson}.

(** Nobody else writes while the call is in progress, and its commands do not fail.  Time passes. *)
Fixpoint alone {A} (p : prog command A) (now : Time) (db : database) (a : A) (now' : Time) (db' : database) : Prop :=
  match p with
  | Ret b => a = b /\ (now <= now')%Z /\ db' = db
  | Do c k =>
      exists t order, (now <= t)%Z /\ (forall members, order members ≡ₚ elements members) /\
        alone (k (exec order t c db).1) t (exec order t c db).2 a now' db'
  end.

Lemma alone_time {A} (p : prog command A) now db a now' db' : alone p now db a now' db' -> (now <= now')%Z.
Proof.
  revert now db. induction p as [b|B c k IH]; intros now db; cbn; [by intros (_ & ? & _)|].
  intros (t & order & Hle & _ & Hp). specialize (IH _ _ _ Hp). lia.
Qed.

Lemma alone_seq {A C} (p : prog command A) (k : A -> prog command C) now db c now' db' :
  alone (pbind p k) now db c now' db' ->
  exists a t db1, alone p now db a t db1 /\ alone (k a) t db1 c now' db'.
Proof.
  revert now db. induction p as [b|B o k' IH]; intros now db; cbn.
  - intros Hk. exists b, now, db. split; [|done]. split_and!; [done|lia|done].
  - intros (t & order & Hle & Ho & Hp). destruct (IH _ _ _ Hp) as (a & t1 & db1 & H1 & H2).
    exists a, t1, db1. split; [|done]. by exists t, order.
Qed.

(** The run without delays. *)
Fixpoint solo {A} (p : prog command A) (now : Time) (db : database) : A * database :=
  match p with
  | Ret a => (a, db)
  | Do c k => solo (k (exec elements now c db).1) now (exec elements now c db).2
  end.

Lemma solo_alone {A} (p : prog command A) now db : alone p now db (solo p now db).1 now (solo p now db).2.
Proof.
  revert db. induction p as [a|B c k IH]; intros db; cbn; [split_and!; [done|lia|done]|].
  exists now, elements. split_and!; [lia|done|apply IH].
Qed.

(** What all writes of a program keep. *)
Lemma alone_keeps {A} (p : prog command A) (good : write -> Prop) (I : Time -> database -> Prop)
    (ans : forall B, command B -> B -> Prop) now db a now' db' :
  (forall now now' db, (now <= now')%Z -> I now db -> I now' db) ->
  (forall now db w, I now db -> good w -> I now (apply_write now w db)) ->
  (forall now db B (c : command B) r db', I now db -> performs now c db r db' -> ans B c r) ->
  follows good ans p (fun _ => True) -> I now db -> alone p now db a now' db' -> I now' db'.
Proof.
  intros Ht Hw Ha. revert now db. unfold follows. induction p as [b|B c k IH]; intros now db Hp HI; cbn.
  - intros (_ & Hle & ->). by eapply Ht.
  - intros (t & order & Hle & Ho & Hk). destruct Hp as [Hc Hp]. assert (I t db) as HI' by (by eapply Ht).
    eapply IH; [|..|exact Hk].
    + apply (Hp _ tt). by eapply Ha, (performs_done _ _ _ order).
    + rewrite exec_writes. destruct (written c) as [w|]; [|done]. by apply Hw, Hc.
Qed.
End alone.

(** ** Schedules that can be evaluated *)
Inductive event (C : Type) :=
  | Tick (now : Time)                        (* time passes *)
  | Begin (c : C)                            (* a call begins *)
  | Perform (i : nat)                        (* a call performs its next command *)
  | Fail_ (i : nat).                         (* the next command of a call fails *)
Arguments Tick {C} _.
Arguments Begin {C} _.
Arguments Perform {C} _.
Arguments Fail_ {C} _.

Definition begins {C} (P : C -> Prop) (e : event C) : Prop := match e with Begin c => P c | _ => True end.

Section play.
Context `{RedisClient, CJson}.
Context {A C : Type} (program_of : C -> prog command A).

Definition play_event (w : world) (e : event C) : option world :=
  match e with
  | Tick now => if (w_now w <=? now)%Z then Some (mkWorld now (w_db w) (w_threads w)) else None
  | Begin c => Some (mkWorld (w_now w) (w_db w) (w_threads w ++ [program_of c]))
  | Perform i =>
      match w_threads w !! i with
      | Some (Do c k) =>
          let '(r, db) := exec elements (w_now w) c (w_db w) in
          Some (mkWorld (w_now w) db (<[i := k r]> (w_threads w)))
      | _ => None
      end
  | Fail_ i =>
      match w_threads w !! i with
      | Some (Do c k) => Some (mkWorld (w_now w) (w_db w) (<[i := k (lost c)]> (w_threads w)))
      | _ => None
      end
  end.

(** An event that cannot happen is left out. *)
Definition play (w : world) (es : list (event C)) : world :=
  foldl (fun w e => default w (play_event w e)) w es.

Lemma play_event_sound starts w e w' :
  begins (fun c => starts (program_of c)) e -> play_event w e = Some w' -> world_step starts w w'.
Proof.
  intros Hs. destruct w as [now db ts]. destruct e as [now'|c|i|i]; cbn.
  - destruct (Z.leb_spec now now'); [|done]. intros [= <-]. by apply step_time.
  - intros [= <-]. by apply step_start.
  - destruct (ts !! i) as [[a|B c k]|] eqn:Ei; try done.
    pose proof (performs_done now c db elements (fun _ => reflexivity _)) as Hp.
    destruct (exec elements now c db) as [r db'] eqn:Ee. intros [= <-]. eapply step_command; [done|exact Hp].
  - destruct (ts !! i) as [[a|B c k]|] eqn:Ei; try done. intros [= <-].
    eapply step_command; [done|apply performs_failed].
Qed.

Lemma play_sound starts w es :
  Forall (begins (fun c => starts (program_of c))) es -> rtc (world_step starts) w (play w es).
Proof.
  intros Hs. revert w. induction Hs as [|e es He _ IH]; intros w; [done|]. cbn.
  destruct (play_event w e) as [w1|] eqn:Ee; cbn; [|apply IH].
  eapply rtc_l; [by eapply play_event_sound|apply IH].
Qed.
End play.

(** ** Following programs *)
Section follows.
Context (good : write -> Prop) (ans : forall B, command B -> B -> Prop).

Lemma follows_ret {A} (a : A) (Q : A -> Prop) : Q a -> follows good ans (Ret a) Q.
Proof. done. Qed.

Lemma follows_do {A B} (c : command B) (k : B -> prog command A) (Q : A -> Prop) :
  (forall w, written c = Some w -> good w) -> (forall r, ans B c r -> follows good ans (k r) Q) ->
  follows good ans (Do c k) Q.
Proof. intros Hc Hk. split; [done|]. intros r []. apply Hk. Qed.

Lemma follows_bind {A C} (p : prog command A) (k : A -> prog command C) (Q : C -> Prop) (R : A -> Prop) :
  follows good ans p R -> (forall a, R a -> follows good ans (k a) Q) -> follows good ans (pbind p k) Q.
Proof. intros Hp Hk. eapply holds_bind; [exact Hp|]. intros a [] Ha. by apply Hk. Qed.

Lemma follows_mono {A} (p : prog command A) (Q R : A -> Prop) :
  (forall a, Q a -> R a) -> follows good ans p Q -> follows good ans p R.
Proof. intros HQR. apply holds_mono. intros a _. apply HQR. Qed.

(** Nothing is claimed of the result. *)
Lemma follows_seq {A C} (p : prog command A) (k : A -> prog command C) :
  follows good ans p (fun _ => True) -> (forall a, follows good ans (k a) (fun _ => True)) ->
  follows good ans (pbind p k) (fun _ => True).
Proof. intros Hp Hk. by eapply follows_bind. Qed.
End follows.

Lemma follows_weaken {A} (good good' : write -> Prop) ans (p : prog command A) (Q : A -> Prop) :
  (forall w, good w -> good' w) -> follows good ans p Q -> follows good' ans p Q.
Proof.
  intros Hg. unfold follows. induction p as [a|B c k IH]; [done|]. intros [Hc Hk].
  split; [auto|]. intros r [] Hr. by apply IH, Hk.
Qed.

Lemma follows_stronger {A} (good : write -> Prop) (ans ans' : forall B, command B -> B -> Prop) (p : prog command A) (Q : A -> Prop) :
  (forall B (c : command B) r, ans' B c r -> ans B c r) -> follows good ans p Q -> follows good ans' p Q.
Proof.
  intros Ha. unfold follows. induction p as [a|B c k IH]; [done|]. intros [Hc Hk].
  split; [done|]. intros r [] Hr. by apply IH, Hk, Ha.
Qed.
