(* ===== verification/RedisStorage.v ===== *)
(** * The Redis storage of the authorization server ([pkg/authserver/storage/redis.go],
    [redis_keys.go])

    Every method of [RedisStorage] is a program over Redis commands, so that calls on any
    number of servers interleave between commands ([world_step] of [Redis]).  [storage_call]
    collects the methods and [serve] gives the program of each.

    Of [fosite] the storage uses requests and clients through their getters, and builds
    [fosite.Request], [DefaultClient] and [DefaultOpenIDConnectClient] from what it stored; a
    [Request] and a [Client] are what the getters return.  Sessions are a type of their own.
    The JSON encoding of a stored type is the class [JsonOf]: two functions and what survives
    the encoding.  A reading of the clock is an argument. *)

From S2P Require Import Prelude GoStrings Programs StorageTypes Redis.

(** ** Keys ([redis_keys.go]) *)
Definition KeyTypeAccess : string := "access".
Definition KeyTypeRefresh : string := "refresh".
Definition KeyTypeAuthCode : string := "authcode".
Definition KeyTypePKCE : string := "pkce".
Definition KeyTypeClient : string := "client".
Definition KeyTypeUser : string := "user".
Definition KeyTypeProvider : string := "provider".
Definition KeyTypeUpstream : string := "upstream".
Definition KeyTypePending : string := "pending".
Definition KeyTypeInvalidated : string := "invalidated".
Definition KeyTypeJWT : string := "jwt".
Definition KeyTypeReqIDAccess : string := "reqid:access".
Definition KeyTypeReqIDRefresh : string := "reqid:refresh".
Definition KeyTypeUpstreamIdx : string := "upstream:idx".
Definition KeyTypeUserUpstream : string := "user:upstream".
Definition KeyTypeUserProviders : string := "user:providers".
Definition KeyTypeDCR : string := "dcr".

Definition DeriveKeyPrefix (namespace name : string) : string :=
  "thv:auth:{" +:+ namespace +:+ ":" +:+ name +:+ "}:".

Definition redisKey (prefix keyType id : string) : string := prefix +:+ keyType +:+ ":" +:+ id.

Definition redisSetKey (prefix keyType id : string) : string := prefix +:+ keyType +:+ ":" +:+ id.

Definition redisProviderKey (prefix providerID providerSubject : string) : string :=
  prefix +:+ KeyTypeProvider +:+ ":" +:+ fmt_d (len providerID) +:+ ":" +:+ providerID +:+ ":" +:+ providerSubject.

Definition redisDCRKey (prefix : string) (key : DCRKey) : string :=
  prefix +:+ KeyTypeDCR +:+ ":" +:+ fmt_d (len (dk_Issuer key)) +:+ ":" +:+ dk_Issuer key +:+ ":" +:+
  fmt_d (len (dk_UpstreamID key)) +:+ ":" +:+ dk_UpstreamID key +:+ ":" +:+
  fmt_d (len (dk_RedirectURI key)) +:+ ":" +:+ dk_RedirectURI key +:+ ":" +:+ dk_ScopesHash key.

Definition redisUpstreamKey (prefix sessionID providerName : string) : string :=
  prefix +:+ KeyTypeUpstream +:+ ":" +:+ sessionID +:+ ":" +:+ providerName.

(** ** Times in seconds *)
Definition unix_epoch : Z := 62135596800.                  (* seconds from the zero time *)

Definition Unix (t : Time) : Z := (t `div` time.Second - unix_epoch)%Z.

Definition time_Unix (sec : Z) : Time := ((sec + unix_epoch) * time.Second)%Z.

(** The zero time is stored as 0, and 0 is read as the zero time. *)
Definition store_time (t : Time) : Z := if time.IsZero t then 0%Z else Unix t.
Definition load_time (sec : Z) : Time := if (sec =? 0)%Z then time.zero else time_Unix sec.

(** ** Clients and requests of fosite *)
Definition TokenEndpointAuthMethodNone : string := "none".
Definition DefaultDCRClientTTL : Duration := (30 * 24 * time.Hour)%Z.

(** [cl_AuthMethod] is [None] for a client that is no [OpenIDConnectClient]. *)
Record Client := mkClient {
  cl_ID : string;
  cl_Secret : string;
  cl_RedirectURIs : list string;
  cl_GrantTypes : list string;
  cl_ResponseTypes : list string;
  cl_Scopes : list string;
  cl_Audience : list string;
  cl_Public : bool;
  cl_AuthMethod : option string;
  cl_DCRIssued : bool;
}.

Record storedClient := {
  sc_ID : string;
  sc_Secret : string;
  sc_RedirectURIs : list string;
  sc_GrantTypes : list string;
  sc_ResponseTypes : list string;
  sc_Scopes : list string;
  sc_Audience : list string;
  sc_Public : bool;
  sc_TokenEndpointAuthMethod : string;
  sc_DCRIssued : bool;
}.

Record storedSession := {
  ss_ClientID : string;
  ss_RequestedAt : Time;
  ss_RequestedScopes : list string;
  ss_GrantedScopes : list string;
  ss_RequestedAudience : list string;
  ss_GrantedAudience : list string;
  ss_Form : gmap string (list string);
  ss_RequestID : string;
  ss_Session : string;
}.

Record storedUpstreamTokens := {
  su_ProviderID : string;
  su_AccessToken : string;
  su_RefreshToken : string;
  su_IDToken : string;
  su_ExpiresAt : Z;
  su_SessionExpiresAt : Z;
  su_UserID : string;
  su_UpstreamSubject : string;
  su_ClientID : string;
}.

Record storedDCRCredentials := {
  sd_KeyIssuer : string;
  sd_KeyUpstreamID : string;
  sd_KeyRedirectURI : string;
  sd_KeyScopesHash : string;
  sd_ProviderName : string;
  sd_ClientID : string;
  sd_ClientSecret : string;
  sd_TokenEndpointAuthMethod : string;
  sd_RegistrationAccessToken : string;
  sd_RegistrationClientURI : string;
  sd_AuthorizationEndpoint : string;
  sd_TokenEndpoint : string;
  sd_CreatedAt : Z;
  sd_ClientSecretExpiresAt : Z;
}.

Record storedPendingAuthorization := {
  sp_ClientID : string;
  sp_RedirectURI : string;
  sp_State : string;
  sp_PKCEChallenge : string;
  sp_PKCEMethod : string;
  sp_Scopes : list string;
  sp_InternalState : string;
  sp_UpstreamPKCEVerifier : string;
  sp_UpstreamNonce : string;
  sp_UpstreamProviderName : string;
  sp_SessionID : string;
  sp_ResolvedUserID : string;
  sp_ResolvedUserName : string;
  sp_ResolvedUserEmail : string;
  sp_SingleLeg : bool;
  sp_ChainUpstreams : list string;
  sp_CreatedAt : Z;
}.

Record storedUser := {
  sr_ID : string;
  sr_CreatedAt : Z;
  sr_UpdatedAt : Z;
}.

Record storedProviderIdentity := {
  si_UserID : string;
  si_ProviderID : string;
  si_ProviderSubject : string;
  si_LinkedAt : Z;
  si_LastUsedAt : Z;
}.

(** ** Encodings *)
Class JsonOf (T : Type) := {
  Marshal : T -> option string;
  Unmarshal : string -> option T;
  storable : T -> Prop;           (* what the encoding keeps *)
}.

Class JsonOfOk (T : Type) `{JsonOf T} : Prop :=
  json_roundtrip : forall x, storable x -> exists data, Marshal x = Some data /\ Unmarshal data = Some x.

(** Sessions: their encoding, [None] being a nil session, and decoding into a new session. *)
Class Sessions (Session : Type) := {
  session_Marshal : option Session -> option string;
  session_Unmarshal : string -> option Session;
  session_New : Session;                              (* [defaultSessionFactory("", "", "")] *)
  session_GetExpiresAt : Session -> TokenType -> Time;
}.

(** The encodings of all stored types. *)
Class StorageJson := {
  #[global] json_client :: JsonOf storedClient;
  #[global] json_session :: JsonOf storedSession;
  #[global] json_upstream :: JsonOf storedUpstreamTokens;
  #[global] json_dcr :: JsonOf storedDCRCredentials;
  #[global] json_pending :: JsonOf storedPendingAuthorization;
  #[global] json_user :: JsonOf storedUser;
  #[global] json_identity :: JsonOf storedProviderIdentity;
}.

Inductive redis_error :=
  | Known (e : storage_error)
  | BackendFailure
  | EncodingFailure.

Definition nullMarker : string := "null".
Definition pastExpiryDCRTTL : Duration := time.Second.

(** The error of a command whose reply is not looked at. *)
Definition command_error {A} (r : reply A) : option redis_error :=
  match r with Some _ => None | None => Some BackendFailure end.

Definition filterIndexMembersByPrefix (prefix : string) (members : list string) : list string :=
  filter (fun m => HasPrefix m prefix = true) members.

(** The string without its first [n] bytes. *)
Fixpoint drop_string (n : nat) (s : string) : string :=
  match n, s with
  | S n, String _ s => drop_string n s
  | _, _ => s
  end.

(** A loop over keys whose results are not looked at ([warnOnCleanupErr]). *)
Fixpoint each {A} (l : list A) (f : A -> prog command unit) : prog command unit :=
  match l with
  | [] => Ret tt
  | x :: l => (run _ <- f x; each l f)%prog
  end.

Definition clientFromStored (stored : storedClient) (hasTTL : bool) : Client :=
  let method := sc_TokenEndpointAuthMethod stored in
  let client public auth dcr :=
    mkClient (sc_ID stored) (sc_Secret stored) (sc_RedirectURIs stored) (sc_GrantTypes stored)
      (sc_ResponseTypes stored) (sc_Scopes stored) (sc_Audience stored) public auth dcr in
  if decide (method = "")
  then client (sc_Public stored) None (sc_DCRIssued stored || (sc_Public stored && hasTTL))
  else client (sc_Public stored && bool_decide (method = TokenEndpointAuthMethodNone)) (Some method)
         (sc_DCRIssued stored).

Definition stored_of_client (client : Client) : storedClient := {|
  sc_ID := cl_ID client;
  sc_Secret := cl_Secret client;
  sc_RedirectURIs := cl_RedirectURIs client;
  sc_GrantTypes := cl_GrantTypes client;
  sc_ResponseTypes := cl_ResponseTypes client;
  sc_Scopes := cl_Scopes client;
  sc_Audience := cl_Audience client;
  sc_Public := cl_Public client;
  sc_TokenEndpointAuthMethod := default "" (cl_AuthMethod client);
  sc_DCRIssued := cl_DCRIssued client;
|}.

Definition toUpstreamTokens (s : storedUpstreamTokens) : UpstreamTokens := {|
  ut_ProviderID := su_ProviderID s;
  ut_AccessToken := su_AccessToken s;
  ut_RefreshToken := su_RefreshToken s;
  ut_IDToken := su_IDToken s;
  ut_ExpiresAt := load_time (su_ExpiresAt s);
  ut_SessionExpiresAt := load_time (su_SessionExpiresAt s);
  ut_UserID := su_UserID s;
  ut_UpstreamSubject := su_UpstreamSubject s;
  ut_ClientID := su_ClientID s;
|}.

Definition stored_of_tokens (t : UpstreamTokens) : storedUpstreamTokens := {|
  su_ProviderID := ut_ProviderID t;
  su_AccessToken := ut_AccessToken t;
  su_RefreshToken := ut_RefreshToken t;
  su_IDToken := ut_IDToken t;
  su_ExpiresAt := store_time (ut_ExpiresAt t);
  su_SessionExpiresAt := store_time (ut_SessionExpiresAt t);
  su_UserID := ut_UserID t;
  su_UpstreamSubject := ut_UpstreamSubject t;
  su_ClientID := ut_ClientID t;
|}.

Definition toDCRCredentials (s : storedDCRCredentials) : DCRCredentials := {|
  dc_Key := {| dk_Issuer := sd_KeyIssuer s; dk_UpstreamID := sd_KeyUpstreamID s;
               dk_RedirectURI := sd_KeyRedirectURI s; dk_ScopesHash := sd_KeyScopesHash s |};
  dc_ProviderName := sd_ProviderName s;
  dc_ClientID := sd_ClientID s;
  dc_ClientSecret := sd_ClientSecret s;
  dc_TokenEndpointAuthMethod := sd_TokenEndpointAuthMethod s;
  dc_RegistrationAccessToken := sd_RegistrationAccessToken s;
  dc_RegistrationClientURI := sd_RegistrationClientURI s;
  dc_AuthorizationEndpoint := sd_AuthorizationEndpoint s;
  dc_TokenEndpoint := sd_TokenEndpoint s;
  dc_CreatedAt := load_time (sd_CreatedAt s);
  dc_ClientSecretExpiresAt := load_time (sd_ClientSecretExpiresAt s);
|}.

Definition stored_of_dcr (creds : DCRCredentials) : storedDCRCredentials := {|
  sd_KeyIssuer := dk_Issuer (dc_Key creds);
  sd_KeyUpstreamID := dk_UpstreamID (dc_Key creds);
  sd_KeyRedirectURI := dk_RedirectURI (dc_Key creds);
  sd_KeyScopesHash := dk_ScopesHash (dc_Key creds);
  sd_ProviderName := dc_ProviderName creds;
  sd_ClientID := dc_ClientID creds;
  sd_ClientSecret := dc_ClientSecret creds;
  sd_TokenEndpointAuthMethod := dc_TokenEndpointAuthMethod creds;
  sd_RegistrationAccessToken := dc_RegistrationAccessToken creds;
  sd_RegistrationClientURI := dc_RegistrationClientURI creds;
  sd_AuthorizationEndpoint := dc_AuthorizationEndpoint creds;
  sd_TokenEndpoint := dc_TokenEndpoint creds;
  sd_CreatedAt := store_time (dc_CreatedAt creds);
  sd_ClientSecretExpiresAt := store_time (dc_ClientSecretExpiresAt creds);
|}.

Definition stored_of_pending (p : PendingAuthorization) : storedPendingAuthorization := {|
  sp_ClientID := pa_ClientID p;
  sp_RedirectURI := pa_RedirectURI p;
  sp_State := pa_State p;
  sp_PKCEChallenge := pa_PKCEChallenge p;
  sp_PKCEMethod := pa_PKCEMethod p;
  sp_Scopes := pa_Scopes p;
  sp_InternalState := pa_InternalState p;
  sp_UpstreamPKCEVerifier := pa_UpstreamPKCEVerifier p;
  sp_UpstreamNonce := pa_UpstreamNonce p;
  sp_UpstreamProviderName := pa_UpstreamProviderName p;
  sp_SessionID := pa_SessionID p;
  sp_ResolvedUserID := pa_ResolvedUserID p;
  sp_ResolvedUserName := pa_ResolvedUserName p;
  sp_ResolvedUserEmail := pa_ResolvedUserEmail p;
  sp_SingleLeg := pa_SingleLeg p;
  sp_ChainUpstreams := pa_ChainUpstreams p;
  sp_CreatedAt := Unix (pa_CreatedAt p);
|}.

Definition pending_of_stored (s : storedPendingAuthorization) : PendingAuthorization := {|
  pa_ClientID := sp_ClientID s;
  pa_RedirectURI := sp_RedirectURI s;
  pa_State := sp_State s;
  pa_PKCEChallenge := sp_PKCEChallenge s;
  pa_PKCEMethod := sp_PKCEMethod s;
  pa_Scopes := sp_Scopes s;
  pa_InternalState := sp_InternalState s;
  pa_UpstreamPKCEVerifier := sp_UpstreamPKCEVerifier s;
  pa_UpstreamNonce := sp_UpstreamNonce s;
  pa_UpstreamProviderName := sp_UpstreamProviderName s;
  pa_SessionID := sp_SessionID s;
  pa_ResolvedUserID := sp_ResolvedUserID s;
  pa_ResolvedUserName := sp_ResolvedUserName s;
  pa_ResolvedUserEmail := sp_ResolvedUserEmail s;
  pa_SingleLeg := sp_SingleLeg s;
  pa_ChainUpstreams := sp_ChainUpstreams s;
  pa_CreatedAt := time_Unix (sp_CreatedAt s);
|}.

Definition identity_of_stored (s : storedProviderIdentity) : ProviderIdentity := {|
  pi_UserID := si_UserID s;
  pi_ProviderID := si_ProviderID s;
  pi_ProviderSubject := si_ProviderSubject s;
  pi_LinkedAt := time_Unix (si_LinkedAt s);
  pi_LastUsedAt := time_Unix (si_LastUsedAt s);
|}.

Definition compareExpiryInt64 (a b : Z) : Z :=
  (if (a =? 0) && (b =? 0) then 0
   else if a =? 0 then 1
   else if b =? 0 then -1
   else if b <? a then 1
   else if a <? b then -1
   else 0)%Z.

(** ** The methods *)
Section storage.
Context {Session : Type} `{Sessions Session, StorageJson}.
Context (keyPrefix : string).

Record Request := mkRequest {
  rq_ID : string;
  rq_RequestedAt : Time;
  rq_Client : Client;
  rq_RequestedScope : list string;
  rq_GrantedScope : list string;
  rq_RequestedAudience : list string;
  rq_GrantedAudience : list string;
  rq_Form : gmap string (list string);
  rq_Session : option Session;
}.

Local Open Scope prog_scope.

Abbreviation program A := (prog command A) (only parsing).
Abbreviation not_found hint := (inl (Known (ErrNotFound hint))) (only parsing).
Abbreviation invalid hint := (Some (Known (ErrInvalidRequest hint))) (only parsing).

(** Reading a string that should be there. *)
Definition get_data (key hint : string) : program (redis_error + string) :=
  do r <- Get key;
  Ret (match r with
       | None => inl BackendFailure
       | Some None => not_found hint
       | Some (Some data) => inr data
       end).

Definition decode {T A} `{JsonOf T} (f : T -> A) (data : string) : redis_error + A :=
  match Unmarshal data with Some x => inr (f x) | None => inl EncodingFailure end.

(** Writing the encoding of a value. *)
Definition with_data {T} `{JsonOf T} (x : T) (k : string -> program (option redis_error)) : program (option redis_error) :=
  match Marshal x with Some data => k data | None => Ret (Some EncodingFailure) end.

Definition set_data (key data : string) (ttl : Duration) : program (option redis_error) :=
  do r <- Set_ key data ttl; Ret (command_error r).

(** ** Clients *)
Definition redis_RegisterClient (client : Client) : program (option redis_error) :=
  with_data (stored_of_client client) (fun data =>
    set_data (redisKey keyPrefix KeyTypeClient (cl_ID client)) data
      (if cl_DCRIssued client then DefaultDCRClientTTL else 0%Z)).

(** The two commands of the pipeline are sent together, but it is no transaction. *)
Definition redis_GetClient (id : string) : program (redis_error + Client) :=
  let key := redisKey keyPrefix KeyTypeClient id in
  do data <- Get key;
  do ttl <- TTL key;
  Ret (match data with
       | None => inl BackendFailure
       | Some None => not_found "Client not found"
       | Some (Some data) =>
           match ttl with
           | None => inl BackendFailure
           | Some ttl => decode (fun stored => clientFromStored stored (0 <=? ttl)%Z) data
           end
       end).

Definition redis_RenewClientTTL (client : option Client) : program (option redis_error) :=
  match client with
  | None => Ret None
  | Some client =>
      if negb (cl_DCRIssued client) then Ret None
      else do r <- Expire (redisKey keyPrefix KeyTypeClient (cl_ID client)) DefaultDCRClientTTL; Ret (command_error r)
  end.

Definition redis_ClientAssertionJWTValid (jti : string) : program (option redis_error) :=
  do exists_ <- Exists (redisKey keyPrefix KeyTypeJWT jti);
  Ret (match exists_ with
       | None => Some BackendFailure
       | Some true => Some (Known ErrJTIKnown)
       | Some false => None
       end).

Definition redis_SetClientAssertionJWT (jti : string) (exp now : Time) : program (option redis_error) :=
  let ttl := time.Sub exp now in
  if (ttl <=? 0)%Z then Ret None else set_data (redisKey keyPrefix KeyTypeJWT jti) "1" ttl.

(** ** Requests *)
Definition marshalRequester (request : Request) : option string :=
  match session_Marshal (rq_Session request) with
  | None => None
  | Some sessionData =>
      Marshal {| ss_ClientID := cl_ID (rq_Client request);
                 ss_RequestedAt := rq_RequestedAt request;
                 ss_RequestedScopes := rq_RequestedScope request;
                 ss_GrantedScopes := rq_GrantedScope request;
                 ss_RequestedAudience := rq_RequestedAudience request;
                 ss_GrantedAudience := rq_GrantedAudience request;
                 ss_Form := rq_Form request;
                 ss_RequestID := rq_ID request;
                 ss_Session := sessionData |}
  end.

Definition unmarshalRequester (data : string) : program (redis_error + Request) :=
  match Unmarshal (T := storedSession) data with
  | None => Ret (inl EncodingFailure)
  | Some stored =>
      rbind (redis_GetClient (ss_ClientID stored)) (fun client =>
        let request sess :=
          mkRequest (ss_RequestID stored) (ss_RequestedAt stored) client (ss_RequestedScopes stored)
            (ss_GrantedScopes stored) (ss_RequestedAudience stored) (ss_GrantedAudience stored)
            (ss_Form stored) (Some sess) in
        if decide (ss_Session stored = "") then Ret (inr (request session_New))
        else match session_Unmarshal (ss_Session stored) with
             | None => Ret (inl EncodingFailure)
             | Some sess => Ret (inr (request sess))
             end)
  end.

Definition getTTLFromRequester (request : Request) (tokenType : TokenType) (defaultTTL : Duration) (now : Time) : Duration :=
  match rq_Session request with
  | None => defaultTTL
  | Some sess =>
      let expTime := session_GetExpiresAt sess tokenType in
      if time.IsZero expTime then defaultTTL
      else let ttl := time.Sub expTime now in if (ttl <=? 0)%Z then defaultTTL else ttl
  end.

(** The checks of the arguments, and the encoding, before a request is stored. *)
Definition with_request (name hint : string) (request : option Request)
    (k : Request -> string -> program (option redis_error)) : program (option redis_error) :=
  if decide (name = "") then Ret (invalid hint)
  else match request with
  | None => Ret (invalid "request cannot be nil")
  | Some request =>
      match marshalRequester request with
      | None => Ret (Some EncodingFailure)
      | Some data => k request data
      end
  end.

Definition get_request (key hint : string) : program (redis_error + Request) := rbind (get_data key hint) unmarshalRequester.

(** ** Authorization codes *)
Definition redis_CreateAuthorizeCodeSession (code : string) (request : option Request) (now : Time) : program (option redis_error) :=
  with_request code "authorization code cannot be empty" request (fun request data =>
    set_data (redisKey keyPrefix KeyTypeAuthCode code) data
      (getTTLFromRequester request AuthorizeCode DefaultAuthCodeTTL now)).

Definition redis_GetAuthorizeCodeSession (code : string) : program (option Request * option redis_error) :=
  run r <- get_request (redisKey keyPrefix KeyTypeAuthCode code) "Authorization code not found";
  match r with
  | inl e => Ret (None, Some e)
  | inr request =>
      do invalidated <- Exists (redisKey keyPrefix KeyTypeInvalidated code);
      Ret (match invalidated with
           | None => (None, Some BackendFailure)
           | Some true => (Some request, Some (Known ErrInvalidatedAuthorizeCode))
           | Some false => (Some request, None)
           end)
  end.

Definition redis_InvalidateAuthorizeCodeSession (code : string) : program (option redis_error) :=
  let key := redisKey keyPrefix KeyTypeAuthCode code in
  do exists_ <- Exists key;
  match exists_ with
  | None => Ret (Some BackendFailure)
  | Some false => Ret (Some (Known (ErrNotFound "Authorization code not found")))
  | Some true =>
      do r <- TxPipeline [TxSet (redisKey keyPrefix KeyTypeInvalidated code) "1" DefaultInvalidatedCodeTTL;
                          TxExpire key DefaultInvalidatedCodeTTL];
      Ret (command_error r)
  end.

(** ** Tokens: access and refresh tokens are stored in the same way *)
Definition create_token (keyType reqIDType signature : string) (request : Request) (data : string) (ttl : Duration)
    : program (option redis_error) :=
  let reqIDKey := redisSetKey keyPrefix reqIDType (rq_ID request) in
  do r <- TxPipeline [TxSet (redisKey keyPrefix keyType signature) data ttl; TxSAdd reqIDKey signature; TxExpire reqIDKey ttl];
  Ret (command_error r).

Definition delete_token (keyType reqIDType hint signature : string) : program (option redis_error) :=
  let key := redisKey keyPrefix keyType signature in
  run r <- get_data key hint;
  match r with
  | inl e => Ret (Some e)
  | inr data =>
      do deleted <- Del [key];
      match deleted with
      | None => Ret (Some BackendFailure)
      | Some _ =>
          match Unmarshal (T := storedSession) data with
          | Some stored =>
              if decide (ss_RequestID stored = "") then Ret None
              else do _ <- SRem (redisSetKey keyPrefix reqIDType (ss_RequestID stored)) signature; Ret None
          | None => Ret None
          end
      end
  end.

(** Deleting the tokens of a request, then the index. *)
Definition delete_indexed (keyType reqIDKey : string) (signatures : list string) : program unit :=
  run _ <- each signatures (fun sig => do _ <- Del [redisKey keyPrefix keyType sig]; Ret tt);
  do _ <- Del [reqIDKey]; Ret tt.

Definition revoke (keyType reqIDType requestID : string) : program (option redis_error) :=
  let reqIDKey := redisSetKey keyPrefix reqIDType requestID in
  do signatures <- SMembers reqIDKey;
  match signatures with
  | None => Ret (Some BackendFailure)
  | Some signatures => run _ <- delete_indexed keyType reqIDKey signatures; Ret None
  end.

Definition redis_CreateAccessTokenSession (signature : string) (request : option Request) (now : Time) : program (option redis_error) :=
  with_request signature "access token signature cannot be empty" request (fun request data =>
    create_token KeyTypeAccess KeyTypeReqIDAccess signature request data
      (getTTLFromRequester request AccessToken DefaultAccessTokenTTL now)).

Definition redis_GetAccessTokenSession (signature : string) : program (redis_error + Request) :=
  get_request (redisKey keyPrefix KeyTypeAccess signature) "Access token not found".

Definition redis_DeleteAccessTokenSession (signature : string) : program (option redis_error) :=
  delete_token KeyTypeAccess KeyTypeReqIDAccess "Access token not found" signature.

Definition redis_CreateRefreshTokenSession (signature : string) (request : option Request) (now : Time) : program (option redis_error) :=
  with_request signature "refresh token signature cannot be empty" request (fun request data =>
    create_token KeyTypeRefresh KeyTypeReqIDRefresh signature request data
      (getTTLFromRequester request RefreshToken DefaultRefreshTokenTTL now)).

Definition redis_GetRefreshTokenSession (signature : string) : program (redis_error + Request) :=
  get_request (redisKey keyPrefix KeyTypeRefresh signature) "Refresh token not found".

Definition redis_DeleteRefreshTokenSession (signature : string) : program (option redis_error) :=
  delete_token KeyTypeRefresh KeyTypeReqIDRefresh "Refresh token not found" signature.

Definition redis_RotateRefreshToken (requestID refreshTokenSignature : string) : program (option redis_error) :=
  do _ <- Del [redisKey keyPrefix KeyTypeRefresh refreshTokenSignature];
  do _ <- SRem (redisSetKey keyPrefix KeyTypeReqIDRefresh requestID) refreshTokenSignature;
  let reqIDAccessKey := redisSetKey keyPrefix KeyTypeReqIDAccess requestID in
  do signatures <- SMembers reqIDAccessKey;
  match signatures with
  | None => Ret None
  | Some signatures => run _ <- delete_indexed KeyTypeAccess reqIDAccessKey signatures; Ret None
  end.

Definition redis_RevokeAccessToken (requestID : string) : program (option redis_error) :=
  revoke KeyTypeAccess KeyTypeReqIDAccess requestID.

Definition redis_RevokeRefreshToken (requestID : string) : program (option redis_error) :=
  revoke KeyTypeRefresh KeyTypeReqIDRefresh requestID.

Definition redis_RevokeRefreshTokenMaybeGracePeriod (requestID : string) (_ : string) : program (option redis_error) :=
  redis_RevokeRefreshToken requestID.

(** ** PKCE *)
Definition redis_CreatePKCERequestSession (signature : string) (request : option Request) (now : Time) : program (option redis_error) :=
  with_request signature "PKCE signature cannot be empty" request (fun request data =>
    set_data (redisKey keyPrefix KeyTypePKCE signature) data
      (getTTLFromRequester request AuthorizeCode DefaultPKCETTL now)).

Definition redis_GetPKCERequestSession (signature : string) : program (redis_error + Request) :=
  get_request (redisKey keyPrefix KeyTypePKCE signature) "PKCE request not found".

(** Deleting a key that should be there. *)
Definition delete_key (key hint : string) : program (option redis_error) :=
  do r <- Del [key];
  Ret (match r with
       | None => Some BackendFailure
       | Some n => if (n =? 0)%Z then Some (Known (ErrNotFound hint)) else None
       end).

Definition redis_DeletePKCERequestSession (signature : string) : program (option redis_error) :=
  delete_key (redisKey keyPrefix KeyTypePKCE signature) "PKCE request not found".

(** ** Upstream tokens *)
Definition upstream_ttl (expiry now : Time) : Duration :=
  let ttl := wrap64 (time.Sub expiry now + DefaultRefreshTokenTTL) in
  if (ttl <=? 0)%Z then time.Second else ttl.

(** A lifetime of 0 is none. *)
Definition marshalUpstreamTokensWithTTL (tokens : option UpstreamTokens) (now : Time) : option (string * Duration) :=
  match tokens with
  | None => Some (nullMarker, DefaultAccessTokenTTL)
  | Some t =>
      match Marshal (stored_of_tokens t) with
      | None => None
      | Some data =>
          Some (data, if negb (time.IsZero (ut_ExpiresAt t)) then upstream_ttl (ut_ExpiresAt t) now
                      else if negb (time.IsZero (ut_SessionExpiresAt t)) then upstream_ttl (ut_SessionExpiresAt t) now
                      else 0%Z)
      end
  end.

Definition check_row (sessionID providerName : string) : option redis_error :=
  if decide (sessionID = "") then invalid "session ID cannot be empty"
  else if decide (providerName = "") then invalid "provider name cannot be empty"
  else None.

Definition redis_StoreUpstreamTokens (sessionID providerName : string) (tokens : option UpstreamTokens) (now : Time)
    : program (option redis_error) :=
  match check_row sessionID providerName with
  | Some e => Ret (Some e)
  | None =>
      match marshalUpstreamTokensWithTTL tokens now with
      | None => Ret (Some EncodingFailure)
      | Some (data, ttl) =>
          do r <- StoreUpstream (redisUpstreamKey keyPrefix sessionID providerName)
                    (redisSetKey keyPrefix KeyTypeUpstreamIdx sessionID) data (ttl `div` Millisecond)%Z
                    (match tokens with Some t => ut_UserID t | None => "" end)
                    (keyPrefix +:+ KeyTypeUserUpstream +:+ ":");
          Ret (command_error r)
      end
  end.

Definition redis_ResolveUpstreamTokenRowID (sha256hex : string -> string) (sessionID providerName : string)
    : redis_error + string :=
  match check_row sessionID providerName with
  | Some e => inl e
  | None => inr (upstreamTokenRowID sha256hex [redisUpstreamKey keyPrefix sessionID providerName])
  end.

(** The tokens come with [ErrExpired] when they have expired. *)
Definition unmarshalUpstreamTokens (data : string) (now : Time) : option UpstreamTokens * option redis_error :=
  if decide (data = nullMarker) then (None, None)
  else match Unmarshal (T := storedUpstreamTokens) data with
  | None => (None, Some EncodingFailure)
  | Some stored =>
      let tokens := toUpstreamTokens stored in
      if negb (time.IsZero (ut_ExpiresAt tokens)) && time.After now (ut_ExpiresAt tokens)
      then (Some tokens, Some (Known ErrExpired))
      else (Some tokens, None)
  end.

Definition redis_GetUpstreamTokens (sessionID providerName : string) (now : Time)
    : program (option UpstreamTokens * option redis_error) :=
  match check_row sessionID providerName with
  | Some e => Ret (None, Some e)
  | None =>
      run r <- get_data (redisUpstreamKey keyPrefix sessionID providerName) "Upstream tokens not found";
      Ret (match r with
           | inl e => (None, Some e)
           | inr data => unmarshalUpstreamTokens data now
           end)
  end.

Definition row_prefix (sessionID : string) : string := keyPrefix +:+ KeyTypeUpstream +:+ ":" +:+ sessionID +:+ ":".

(** One entry of the loop of [GetAllUpstreamTokens]. *)
Definition add_row (sessionID : string) (now : Time) (result : gmap string (option UpstreamTokens))
    (row : string * option string) : gmap string (option UpstreamTokens) :=
  let '(providerKey, val) := row in
  match val with
  | None => result
  | Some data =>
      let '(tokens, parseErr) := unmarshalUpstreamTokens data now in
      match parseErr with
      | Some EncodingFailure => result
      | _ =>
          let fromKey := if (len (row_prefix sessionID) <? len providerKey)%Z
                         then drop_string (String.length (row_prefix sessionID)) providerKey else "" in
          let providerName := match tokens with
                              | Some t => if decide (fromKey = "") then ut_ProviderID t else fromKey
                              | None => fromKey
                              end in
          if decide (providerName = "") then result else <[providerName := tokens]> result
      end
  end.

Definition redis_GetAllUpstreamTokens (sessionID : string) (now : Time)
    : program (redis_error + gmap string (option UpstreamTokens)) :=
  do members <- SMembers (redisSetKey keyPrefix KeyTypeUpstreamIdx sessionID);
  match members with
  | None => Ret (inl BackendFailure)
  | Some members =>
      match filterIndexMembersByPrefix keyPrefix members with
      | [] => Ret (inr ∅)
      | providerKeys =>
          do values <- MGet providerKeys;
          Ret (match values with
               | None => inl BackendFailure
               | Some values => inr (foldl (add_row sessionID now) ∅ (zip providerKeys values))
               end)
      end
  end.

(** The user of a row, if there is one. *)
Definition row_user (data : reply (option string)) : string :=
  match data with
  | Some (Some data) =>
      if decide (data = nullMarker) then ""
      else match Unmarshal (T := storedUpstreamTokens) data with Some stored => su_UserID stored | None => "" end
  | _ => ""
  end.

Fixpoint collect_users (providerKeys : list string) : program (list string) :=
  match providerKeys with
  | [] => Ret []
  | providerKey :: providerKeys =>
      do data <- Get providerKey;
      run userIDs <- collect_users providerKeys;
      Ret (if decide (row_user data = "") then userIDs else row_user data :: userIDs)
  end.

Definition redis_DeleteUpstreamTokens (sessionID : string) : program (option redis_error) :=
  let idxKey := redisSetKey keyPrefix KeyTypeUpstreamIdx sessionID in
  do members <- SMembers idxKey;
  match members with
  | None => Ret (Some BackendFailure)
  | Some members =>
      match filterIndexMembersByPrefix keyPrefix members with
      | [] => Ret (Some (Known (ErrNotFound "Upstream tokens not found")))
      | providerKeys =>
          run userIDs <- collect_users providerKeys;
          do deleted <- Del (providerKeys ++ [idxKey]);
          match deleted with
          | None => Ret (Some BackendFailure)
          | Some _ =>
              run _ <- each userIDs (fun userID => each providerKeys (fun providerKey =>
                         do _ <- SRem (redisSetKey keyPrefix KeyTypeUserUpstream userID) providerKey; Ret tt));
              Ret None
          end
      end
  end.

Definition redis_DeleteUpstreamTokensForProvider (sessionID providerName : string) : program (option redis_error) :=
  match check_row sessionID providerName with
  | Some e => Ret (Some e)
  | None =>
      let key := redisUpstreamKey keyPrefix sessionID providerName in
      do data <- Get key;
      do deleted <- Del [key];
      match deleted with
      | None => Ret (Some BackendFailure)
      | Some _ =>
          do _ <- SRem (redisSetKey keyPrefix KeyTypeUpstreamIdx sessionID) key;
          if decide (row_user data = "") then Ret None
          else do _ <- SRem (redisSetKey keyPrefix KeyTypeUserUpstream (row_user data)) key; Ret None
      end
  end.

Definition parseUserUpstreamEntry (val : option string) (providerID : string) : option storedUpstreamTokens :=
  match val with
  | None => None
  | Some data =>
      if decide (data = nullMarker) then None
      else match Unmarshal data with
      | None => None
      | Some stored => if decide (su_ProviderID stored = providerID) then Some stored else None
      end
  end.

Definition later_row (providerID : string) (winner : option storedUpstreamTokens) (val : option string)
    : option storedUpstreamTokens :=
  match parseUserUpstreamEntry val providerID with
  | None => winner
  | Some stored =>
      match winner with
      | None => Some stored
      | Some w => if (0 <? compareExpiryInt64 (su_ExpiresAt stored) (su_ExpiresAt w))%Z then Some stored else winner
      end
  end.

Definition redis_GetLatestUpstreamTokensForUser (userID providerID : string) : program (redis_error + UpstreamTokens) :=
  if decide (userID = "") then Ret (inl (Known (ErrInvalidRequest "user ID cannot be empty")))
  else if decide (providerID = "") then Ret (inl (Known (ErrInvalidRequest "provider ID cannot be empty")))
  else
    do members <- SMembers (redisSetKey keyPrefix KeyTypeUserUpstream userID);
    match members with
    | None => Ret (inl BackendFailure)
    | Some members =>
        match filterIndexMembersByPrefix keyPrefix members with
        | [] => Ret (not_found "Upstream tokens not found")
        | members =>
            do values <- MGet members;
            Ret (match values with
                 | None => inl BackendFailure
                 | Some values =>
                     match foldl (later_row providerID) None values with
                     | None => not_found "Upstream tokens not found"
                     | Some winner => inr (toUpstreamTokens winner)
                     end
                 end)
        end
    end.

(** ** Credentials at upstream servers *)
Definition dcr_ttl (creds : DCRCredentials) (now : Time) : Duration :=
  if time.IsZero (dc_ClientSecretExpiresAt creds) then 0%Z
  else let until := time.Sub (dc_ClientSecretExpiresAt creds) now in
       if (0 <? until)%Z then until else pastExpiryDCRTTL.

Definition redis_StoreDCRCredentials (creds : option DCRCredentials) (now : Time) : program (option redis_error) :=
  match creds, validateDCRCredentialsForStore creds with
  | _, Some e => Ret (Some (Known e))
  | None, None => Ret None   (* not reached: nil credentials are not valid *)
  | Some creds, None =>
      with_data (stored_of_dcr creds) (fun data =>
        set_data (redisDCRKey keyPrefix (dc_Key creds)) data (dcr_ttl creds now))
  end.

Definition redis_GetDCRCredentials (key : DCRKey) : program (redis_error + DCRCredentials) :=
  rbind (get_data (redisDCRKey keyPrefix key) "DCR credentials not found") (fun data =>
    Ret (decode toDCRCredentials data)).

(** ** Pending authorizations *)
Definition redis_StorePendingAuthorization (state : string) (pending : option PendingAuthorization) : program (option redis_error) :=
  if decide (state = "") then Ret (invalid "state cannot be empty")
  else match pending with
  | None => Ret (invalid "pending authorization cannot be nil")
  | Some pending =>
      with_data (stored_of_pending pending) (fun data =>
        set_data (redisKey keyPrefix KeyTypePending state) data DefaultPendingAuthorizationTTL)
  end.

Definition redis_LoadPendingAuthorization (state : string) (now : Time) : program (redis_error + PendingAuthorization) :=
  rbind (get_data (redisKey keyPrefix KeyTypePending state) "Pending authorization not found") (fun data =>
    Ret (match decode pending_of_stored data with
         | inl e => inl e
         | inr pending =>
             if (DefaultPendingAuthorizationTTL <? time.Sub now (pa_CreatedAt pending))%Z
             then inl (Known ErrExpired) else inr pending
         end)).

Definition redis_DeletePendingAuthorization (state : string) : program (option redis_error) :=
  delete_key (redisKey keyPrefix KeyTypePending state) "Pending authorization not found".

(** ** Users *)
Definition create_data (key data text : string) (k : program (option redis_error)) : program (option redis_error) :=
  do result <- SetNX key data;
  match result with
  | None => Ret (Some BackendFailure)
  | Some false => Ret (Some (Known (ErrAlreadyExists text)))
  | Some true => k
  end.

Definition redis_CreateUser (user : option User) : program (option redis_error) :=
  match user with
  | None => Ret (invalid "user cannot be nil")
  | Some user =>
      if decide (user_ID user = "") then Ret (invalid "user ID cannot be empty")
      else
        with_data {| sr_ID := user_ID user; sr_CreatedAt := Unix (user_CreatedAt user);
                     sr_UpdatedAt := Unix (user_UpdatedAt user) |} (fun data =>
          create_data (redisKey keyPrefix KeyTypeUser (user_ID user)) data "user already exists" (Ret None))
  end.

Definition redis_GetUser (id : string) : program (redis_error + User) :=
  rbind (get_data (redisKey keyPrefix KeyTypeUser id) "user not found") (fun data =>
    Ret (decode (fun stored => {| user_ID := sr_ID stored; user_CreatedAt := time_Unix (sr_CreatedAt stored);
                                  user_UpdatedAt := time_Unix (sr_UpdatedAt stored) |}) data)).

(** Deleting the keys of an index, then the index. *)
Definition delete_members (setKey : string) : program unit :=
  do members <- SMembers setKey;
  match members with
  | None => Ret tt
  | Some members =>
      run _ <- each members (fun key => do _ <- Del [key]; Ret tt);
      do _ <- Del [setKey]; Ret tt
  end.

(** The user must exist. *)
Definition with_user {A} (id : string) (fail : redis_error -> A) (k : program A) : program A :=
  do exists_ <- Exists (redisKey keyPrefix KeyTypeUser id);
  match exists_ with
  | None => Ret (fail BackendFailure)
  | Some false => Ret (fail (Known (ErrNotFound "user not found")))
  | Some true => k
  end.

Definition redis_DeleteUser (id : string) : program (option redis_error) :=
  with_user id Some (
    do deleted <- Del [redisKey keyPrefix KeyTypeUser id];
    match deleted with
    | None => Ret (Some BackendFailure)
    | Some _ =>
        run _ <- delete_members (redisSetKey keyPrefix KeyTypeUserProviders id);
        run _ <- delete_members (redisSetKey keyPrefix KeyTypeUserUpstream id);
        Ret None
    end).

(** ** Identities at providers *)
Definition redis_CreateProviderIdentity (identity : option ProviderIdentity) : program (option redis_error) :=
  match identity with
  | None => Ret (invalid "identity cannot be nil")
  | Some identity =>
      if decide (pi_UserID identity = "") then Ret (invalid "user ID cannot be empty")
      else if decide (pi_ProviderID identity = "") then Ret (invalid "provider ID cannot be empty")
      else if decide (pi_ProviderSubject identity = "") then Ret (invalid "provider subject cannot be empty")
      else
        with_user (pi_UserID identity) Some (
          let key := redisProviderKey keyPrefix (pi_ProviderID identity) (pi_ProviderSubject identity) in
          with_data {| si_UserID := pi_UserID identity; si_ProviderID := pi_ProviderID identity;
                       si_ProviderSubject := pi_ProviderSubject identity;
                       si_LinkedAt := Unix (pi_LinkedAt identity);
                       si_LastUsedAt := Unix (pi_LastUsedAt identity) |} (fun data =>
            create_data key data "provider identity already linked"
              (do r <- SAdd (redisSetKey keyPrefix KeyTypeUserProviders (pi_UserID identity)) key; Ret (command_error r))))
  end.

Definition redis_GetProviderIdentity (providerID providerSubject : string) : program (redis_error + ProviderIdentity) :=
  rbind (get_data (redisProviderKey keyPrefix providerID providerSubject) "provider identity not found") (fun data =>
    Ret (decode identity_of_stored data)).

Definition redis_UpdateProviderIdentityLastUsed (providerID providerSubject : string) (lastUsedAt : Time)
    : program (option redis_error) :=
  do result <- UpdateLastUsed (redisProviderKey keyPrefix providerID providerSubject) (Unix lastUsedAt);
  Ret (match result with
       | None => Some BackendFailure
       | Some false => Some (Known (ErrNotFound "provider identity not found"))
       | Some true => None
       end).

(** The loop over the identities of a user. *)
Fixpoint get_identities (keys : list string) : program (redis_error + list ProviderIdentity) :=
  match keys with
  | [] => Ret (inr [])
  | key :: keys =>
      do data <- Get key;
      match data with
      | None => Ret (inl BackendFailure)
      | Some None => get_identities keys
      | Some (Some data) =>
          match decode identity_of_stored data with
          | inl e => Ret (inl e)
          | inr identity => rbind (get_identities keys) (fun identities => Ret (inr (identity :: identities)))
          end
      end
  end.

Definition redis_GetUserProviderIdentities (userID : string) : program (redis_error + list ProviderIdentity) :=
  with_user userID inl (
    do keys <- SMembers (redisSetKey keyPrefix KeyTypeUserProviders userID);
    match keys with
    | None => Ret (inl BackendFailure)
    | Some keys => get_identities keys
    end).

(** ** All calls *)
Inductive storage_call :=
  | CRegisterClient (client : Client)
  | CGetClient (id : string)
  | CRenewClientTTL (client : option Client)
  | CClientAssertionJWTValid (jti : string)
  | CSetClientAssertionJWT (jti : string) (exp now : Time)
  | CCreateAuthorizeCodeSession (code : string) (request : option Request) (now : Time)
  | CGetAuthorizeCodeSession (code : string)
  | CInvalidateAuthorizeCodeSession (code : string)
  | CCreateAccessTokenSession (signature : string) (request : option Request) (now : Time)
  | CGetAccessTokenSession (signature : string)
  | CDeleteAccessTokenSession (signature : string)
  | CCreateRefreshTokenSession (signature : string) (request : option Request) (now : Time)
  | CGetRefreshTokenSession (signature : string)
  | CDeleteRefreshTokenSession (signature : string)
  | CRotateRefreshToken (requestID refreshTokenSignature : string)
  | CRevokeAccessToken (requestID : string)
  | CRevokeRefreshToken (requestID : string)
  | CCreatePKCERequestSession (signature : string) (request : option Request) (now : Time)
  | CGetPKCERequestSession (signature : string)
  | CDeletePKCERequestSession (signature : string)
  | CStoreUpstreamTokens (sessionID providerName : string) (tokens : option UpstreamTokens) (now : Time)
  | CGetUpstreamTokens (sessionID providerName : string) (now : Time)
  | CGetAllUpstreamTokens (sessionID : string) (now : Time)
  | CDeleteUpstreamTokens (sessionID : string)
  | CDeleteUpstreamTokensForProvider (sessionID providerName : string)
  | CGetLatestUpstreamTokensForUser (userID providerID : string)
  | CStoreDCRCredentials (creds : option DCRCredentials) (now : Time)
  | CGetDCRCredentials (key : DCRKey)
  | CStorePendingAuthorization (state : string) (pending : option PendingAuthorization)
  | CLoadPendingAuthorization (state : string) (now : Time)
  | CDeletePendingAuthorization (state : string)
  | CCreateUser (user : option User)
  | CGetUser (id : string)
  | CDeleteUser (id : string)
  | CCreateProviderIdentity (identity : option ProviderIdentity)
  | CGetProviderIdentity (providerID providerSubject : string)
  | CUpdateProviderIdentityLastUsed (providerID providerSubject : string) (lastUsedAt : Time)
  | CGetUserProviderIdentities (userID : string).

(** What a call returns: the error of a call without a value, a value with or without an
    error, or an error instead of a value. *)
Inductive outcome :=
  | OError (e : option redis_error)
  | ORequest (r : option Request * option redis_error)
  | OTokens (r : option UpstreamTokens * option redis_error)
  | ORows (r : redis_error + gmap string (option UpstreamTokens))
  | OClient (r : redis_error + Client)
  | ODCR (r : redis_error + DCRCredentials)
  | OPending (r : redis_error + PendingAuthorization)
  | OUser (r : redis_error + User)
  | OIdentities (r : redis_error + list ProviderIdentity).

Definition of_request (r : redis_error + Request) : outcome :=
  ORequest (match r with inl e => (None, Some e) | inr request => (Some request, None) end).

Definition of_tokens (r : redis_error + UpstreamTokens) : outcome :=
  OTokens (match r with inl e => (None, Some e) | inr tokens => (Some tokens, None) end).

Definition of_identity (r : redis_error + ProviderIdentity) : outcome :=
  OIdentities (match r with inl e => inl e | inr identity => inr [identity] end).

Definition serve (c : storage_call) : program outcome :=
  match c with
  | CRegisterClient client => pmap OError (redis_RegisterClient client)
  | CGetClient id => pmap OClient (redis_GetClient id)
  | CRenewClientTTL client => pmap OError (redis_RenewClientTTL client)
  | CClientAssertionJWTValid jti => pmap OError (redis_ClientAssertionJWTValid jti)
  | CSetClientAssertionJWT jti exp now => pmap OError (redis_SetClientAssertionJWT jti exp now)
  | CCreateAuthorizeCodeSession code request now => pmap OError (redis_CreateAuthorizeCodeSession code request now)
  | CGetAuthorizeCodeSession code => pmap ORequest (redis_GetAuthorizeCodeSession code)
  | CInvalidateAuthorizeCodeSession code => pmap OError (redis_InvalidateAuthorizeCodeSession code)
  | CCreateAccessTokenSession signature request now => pmap OError (redis_CreateAccessTokenSession signature request now)
  | CGetAccessTokenSession signature => pmap of_request (redis_GetAccessTokenSession signature)
  | CDeleteAccessTokenSession signature => pmap OError (redis_DeleteAccessTokenSession signature)
  | CCreateRefreshTokenSession signature request now => pmap OError (redis_CreateRefreshTokenSession signature request now)
  | CGetRefreshTokenSession signature => pmap of_request (redis_GetRefreshTokenSession signature)
  | CDeleteRefreshTokenSession signature => pmap OError (redis_DeleteRefreshTokenSession signature)
  | CRotateRefreshToken requestID signature => pmap OError (redis_RotateRefreshToken requestID signature)
  | CRevokeAccessToken requestID => pmap OError (redis_RevokeAccessToken requestID)
  | CRevokeRefreshToken requestID => pmap OError (redis_RevokeRefreshToken requestID)
  | CCreatePKCERequestSession signature request now => pmap OError (redis_CreatePKCERequestSession signature request now)
  | CGetPKCERequestSession signature => pmap of_request (redis_GetPKCERequestSession signature)
  | CDeletePKCERequestSession signature => pmap OError (redis_DeletePKCERequestSession signature)
  | CStoreUpstreamTokens sessionID providerName tokens now =>
      pmap OError (redis_StoreUpstreamTokens sessionID providerName tokens now)
  | CGetUpstreamTokens sessionID providerName now => pmap OTokens (redis_GetUpstreamTokens sessionID providerName now)
  | CGetAllUpstreamTokens sessionID now => pmap ORows (redis_GetAllUpstreamTokens sessionID now)
  | CDeleteUpstreamTokens sessionID => pmap OError (redis_DeleteUpstreamTokens sessionID)
  | CDeleteUpstreamTokensForProvider sessionID providerName =>
      pmap OError (redis_DeleteUpstreamTokensForProvider sessionID providerName)
  | CGetLatestUpstreamTokensForUser userID providerID =>
      pmap of_tokens (redis_GetLatestUpstreamTokensForUser userID providerID)
  | CStoreDCRCredentials creds now => pmap OError (redis_StoreDCRCredentials creds now)
  | CGetDCRCredentials key => pmap ODCR (redis_GetDCRCredentials key)
  | CStorePendingAuthorization state pending => pmap OError (redis_StorePendingAuthorization state pending)
  | CLoadPendingAuthorization state now => pmap OPending (redis_LoadPendingAuthorization state now)
  | CDeletePendingAuthorization state => pmap OError (redis_DeletePendingAuthorization state)
  | CCreateUser user => pmap OError (redis_CreateUser user)
  | CGetUser id => pmap OUser (redis_GetUser id)
  | CDeleteUser id => pmap OError (redis_DeleteUser id)
  | CCreateProviderIdentity identity => pmap OError (redis_CreateProviderIdentity identity)
  | CGetProviderIdentity providerID subject => pmap of_identity (redis_GetProviderIdentity providerID subject)
  | CUpdateProviderIdentityLastUsed providerID subject lastUsedAt =>
      pmap OError (redis_UpdateProviderIdentityLastUsed providerID subject lastUsedAt)
  | CGetUserProviderIdentities userID => pmap OIdentities (redis_GetUserProviderIdentities userID)
  end.
End storage.
