(* ===== verification/RedisSystem.v ===== *)
(** * Calls of the Redis storage that interleave ([pkg/authserver/storage/redis.go])

    What every call of [RedisStorage] may write ([issues]), proved once for the programs of
    all calls ([calls_issue]), and the invariant on the index sets that this rests on: the
    sets that list keys list only keys of their kind ([typed_sets]).  The theorems about
    tokens, clients and upstream tokens reason about [issues] instead of the programs. *)

From Stdlib Require Import Ascii.
From S2P Require Import Prelude GoStrings Programs StorageTypes Redis RedisStorage.

(** ** Keys that a write leaves alone *)
Definition tx_key (c : tx_command) : string :=
  match c with TxSet key _ _ | TxSAdd key _ | TxExpire key _ => key end.

Definition touches (w : write) (key : string) : Prop :=
  match w with
  | WSet k _ _ | WSetNX k _ | WExpire k _ | WAdd k _ | WRem k _ | WTouch k _ => key = k
  | WDel keys => key ∈ keys
  | WTx cmds => key ∈ tx_key <$> cmds
  | WUpstream k idxKey _ _ _ setPrefix => key = k \/ key = idxKey \/ exists userID, key = setPrefix +:+ userID
  end.

Section frame.
Context `{RedisClient, CJson}.

(** The effect leaves the entry of [key] as it is. *)
Definition frames {A} (key : string) (m : effect A) : Prop := forall db, (m db).2 !! key = db !! key.

Lemma frames_bind {A B} key (m : effect A) (k : A -> effect B) :
  frames key m -> (forall a, frames key (k a)) -> frames key (ebind m k).
Proof.
  intros Hm Hk db. unfold ebind. pose proof (Hm db) as E. destruct (m db) as [[a|] db']; cbn in *; [|done].
  by rewrite (Hk a).
Qed.

Lemma frames_ret {A} key (a : A) : frames key (eret a).
Proof. done. Qed.

Lemma frames_raise {A} key : frames key (@eraise A).
Proof. done. Qed.

Lemma frames_set_string key k data deadline : key <> k -> frames key (set_string k data deadline).
Proof. intros Hk db. cbn. by rewrite lookup_insert_ne. Qed.

Lemma frames_set_deadline now key k deadline : key <> k -> frames key (set_deadline now k deadline).
Proof.
  intros Hk db. unfold set_deadline. destruct (look now db k); cbn; [|done]. by rewrite lookup_insert_ne.
Qed.

Lemma frames_SADD now key k member : key <> k -> frames key (SADD now k member).
Proof.
  intros Hk db. unfold SADD. destruct (look now db k) as [[[] ?]|]; cbn; [done|..]; by rewrite lookup_insert_ne.
Qed.

Lemma frames_SREM now key k member : key <> k -> frames key (SREM now k member).
Proof.
  intros Hk db. unfold SREM. destruct (look now db k) as [[[] ?]|]; cbn; try done.
  case_decide; [by rewrite lookup_delete_ne|by rewrite lookup_insert_ne].
Qed.

Lemma frames_GET now key k : frames key (GET now k).
Proof. intros db. unfold GET. by destruct (look now db k) as [[[] ?]|]. Qed.

Lemma foldr_delete_lookup keys (db : database) key :
  foldr delete db keys !! key = if decide (key ∈ keys) then None else db !! key.
Proof.
  induction keys as [|k keys IH]; cbn; [by rewrite decide_False by apply not_elem_of_nil|].
  destruct (decide (key = k)) as [->|Hk].
  - rewrite lookup_delete_eq. by rewrite decide_True by left.
  - rewrite lookup_delete_ne by done. rewrite IH.
    destruct (decide (key ∈ keys)); [rewrite decide_True by (by right)|rewrite decide_False by (by inversion 1)]; done.
Qed.

Lemma frames_MULTI now key cmds : key ∉ tx_key <$> cmds -> frames key (MULTI now cmds).
Proof.
  induction cmds as [|c cmds IH]; intros Hk db; [done|]. cbn in Hk. apply not_elem_of_cons in Hk as [Hc Hk].
  assert (frames key (exec_tx now c)) as Hf.
  { destruct c; cbn in *;
      [by apply frames_set_string|by apply frames_SADD|apply frames_bind; [by apply frames_set_deadline|done]]. }
  cbn. specialize (Hf db). destruct (exec_tx now c db) as [r db']. specialize (IH Hk db').
  destruct (MULTI now cmds db') as [rs db'']. cbn in *. congruence.
Qed.

Lemma frames_keep_index now key idxKey existed ttlMs : key <> idxKey -> frames key (keep_index_alive now idxKey existed ttlMs).
Proof.
  intros Hk. unfold keep_index_alive. repeat case_match; repeat first
    [apply frames_bind; [|intros ?]|apply frames_ret|by apply frames_set_deadline|case_match|done].
Qed.

Lemma frames_script now key k idxKey data ttlMs newUserID setPrefix :
  key <> k -> key <> idxKey -> (forall userID, key <> setPrefix +:+ userID) ->
  frames key (storeUpstreamTokensScript now k idxKey data ttlMs newUserID setPrefix).
Proof.
  intros Hk Hi Hu. unfold storeUpstreamTokensScript.
  apply frames_bind; [apply frames_GET|intros existing].
  apply frames_bind; [case_match; by apply frames_set_string|intros _].
  apply frames_bind; [done|intros existed].
  apply frames_bind; [by apply frames_SADD|intros _].
  apply frames_bind; [by apply frames_keep_index|intros _].
  apply frames_bind; [case_decide; [by apply frames_SREM|done]|intros _].
  case_decide; [by apply frames_SADD|done].
Qed.

Lemma frame now w db key : ~ touches w key -> apply_write now w db !! key = db !! key.
Proof.
  destruct w as [k data ttl|k data|keys|k ttl|k member|k member|cmds|k idxKey data ttlMs newUserID setPrefix|k lastUsed];
    cbn; intros Hk.
  - by apply frames_set_string.
  - unfold SETNX. destruct (look now db k); cbn; [done|]. by rewrite lookup_insert_ne.
  - rewrite foldr_delete_lookup. by case_decide.
  - by apply frames_set_deadline.
  - by apply frames_SADD.
  - by apply frames_SREM.
  - by apply frames_MULTI.
  - apply frames_script; naive_solver.
  - unfold updateLastUsedScript. apply frames_bind; [apply frames_GET|intros [?|]; [|done]].
    destruct (cjson_touch lastUsed s); [|done]. apply frames_bind; [by apply frames_set_string|done].
Qed.
End frame.

(** ** Predicates on every entry *)
Section entrywise.
Context `{RedisClient, CJson}.
Context (E : string -> rentry -> Prop).

Definition entrywise (db : database) : Prop := forall key e, db !! key = Some e -> E key e.

Definition keeps {A} (m : effect A) : Prop := forall db, entrywise db -> entrywise (m db).2.

Lemma keeps_bind {A B} (m : effect A) (k : A -> effect B) :
  keeps m -> (forall a, keeps (k a)) -> keeps (ebind m k).
Proof.
  intros Hm Hk db Hdb. unfold ebind. specialize (Hm db Hdb). destruct (m db) as [[a|] db']; cbn in *; [|done].
  by apply Hk.
Qed.

Lemma keeps_ret {A} (a : A) : keeps (eret a).
Proof. by intros db. Qed.

Lemma entrywise_insert key e db : entrywise db -> E key e -> entrywise (<[key := e]> db).
Proof. intros Hdb He k e'. rewrite lookup_insert. case_decide; [naive_solver|apply Hdb]. Qed.

Lemma entrywise_delete key db : entrywise db -> entrywise (delete key db).
Proof. intros Hdb k e. rewrite lookup_delete. case_decide; [done|apply Hdb]. Qed.

Lemma look_entry now (db : database) key e : look now db key = Some e -> db !! key = Some e.
Proof. unfold look. destruct (db !! key) as [e'|]; [|done]. case_match; congruence. Qed.

Lemma keeps_set_string key data deadline : E key (mkEntry (RString data) deadline) -> keeps (set_string key data deadline).
Proof. intros He db Hdb. by apply entrywise_insert. Qed.

Lemma keeps_SETNX now key data : E key (mkEntry (RString data) None) -> keeps (SETNX now key data).
Proof. intros He db Hdb. unfold SETNX. destruct (look now db key); cbn; [done|]. by apply entrywise_insert. Qed.

Lemma keeps_DEL now keys : keeps (DEL now keys).
Proof. intros db Hdb key e. cbn. rewrite foldr_delete_lookup. case_decide; [done|apply Hdb]. Qed.

Lemma keeps_set_deadline now key deadline :
  (forall e, E key e -> alive now e = true -> E key (mkEntry (re_value e) deadline)) -> keeps (set_deadline now key deadline).
Proof.
  intros He db Hdb. unfold set_deadline. destruct (look now db key) as [e|] eqn:El; cbn; [|done].
  apply entrywise_insert; [done|]. apply He; [by eapply Hdb, look_entry|].
  unfold look in El. destruct (db !! key) as [e'|]; [|done]. destruct (alive now e') eqn:Ha; congruence.
Qed.

Lemma keeps_SADD now key member :
  E key (mkEntry (RSet {[member]}) None) ->
  (forall members deadline, E key (mkEntry (RSet members) deadline) ->
     E key (mkEntry (RSet ({[member]} ∪ members)) deadline)) ->
  keeps (SADD now key member).
Proof.
  intros H1 H2 db Hdb. unfold SADD. destruct (look now db key) as [[[] ?]|] eqn:El; cbn;
    [done|apply entrywise_insert..]; try done. by eapply H2, Hdb, look_entry.
Qed.

Lemma keeps_SREM now key member :
  (forall members deadline, E key (mkEntry (RSet members) deadline) ->
     E key (mkEntry (RSet (members ∖ {[member]})) deadline)) ->
  keeps (SREM now key member).
Proof.
  intros Hm db Hdb. unfold SREM. destruct (look now db key) as [[[] ?]|] eqn:El; cbn; try done.
  case_decide; [by apply entrywise_delete|]. apply entrywise_insert; [done|]. by eapply Hm, Hdb, look_entry.
Qed.

Lemma keeps_GET now key : keeps (GET now key).
Proof. intros db Hdb. unfold GET. by destruct (look now db key) as [[[] ?]|]. Qed.

Lemma keeps_MULTI now cmds : Forall (fun c => keeps (exec_tx now c)) cmds -> keeps (MULTI now cmds).
Proof.
  induction 1 as [|c cmds Hc _ IH]; intros db Hdb; [done|]. cbn. specialize (Hc db Hdb).
  destruct (exec_tx now c db) as [r db']. specialize (IH db' Hc). by destruct (MULTI now cmds db').
Qed.

Lemma keeps_keep_index now idxKey existed ttlMs :
  (forall e deadline, E idxKey e -> E idxKey (mkEntry (re_value e) deadline)) ->
  keeps (keep_index_alive now idxKey existed ttlMs).
Proof.
  intros Hd. unfold keep_index_alive.
  repeat case_match; repeat first
    [apply keeps_bind; [|intros ?]|apply keeps_ret|apply keeps_set_deadline; by eauto|by intros ?|case_match].
Qed.

Lemma keeps_script now key idxKey data ttlMs newUserID setPrefix :
  (forall deadline, E key (mkEntry (RString data) deadline)) ->
  (forall k e deadline, E k e -> E k (mkEntry (re_value e) deadline)) ->
  keeps (SADD now idxKey key) ->
  (forall userID, keeps (SADD now (setPrefix +:+ userID) key)) ->
  (forall userID, keeps (SREM now (setPrefix +:+ userID) key)) ->
  keeps (storeUpstreamTokensScript now key idxKey data ttlMs newUserID setPrefix).
Proof.
  intros Hk Hd Hi Hu Hr. unfold storeUpstreamTokensScript.
  apply keeps_bind; [apply keeps_GET|intros existing].
  apply keeps_bind; [case_match; by apply keeps_set_string|intros _].
  apply keeps_bind; [by intros ?|intros existed].
  apply keeps_bind; [done|intros _].
  apply keeps_bind; [apply keeps_keep_index; intros ??; apply Hd|intros _].
  apply keeps_bind; [case_decide; [apply Hr|apply keeps_ret]|intros _].
  case_decide; [apply Hu|apply keeps_ret].
Qed.

Lemma keeps_touch now key lastUsed :
  (forall data, E key (mkEntry (RString data) None)) -> keeps (updateLastUsedScript now key lastUsed).
Proof.
  intros He. unfold updateLastUsedScript. apply keeps_bind; [apply keeps_GET|intros [data|]; [|apply keeps_ret]].
  destruct (cjson_touch lastUsed data); [|by intros ?]. apply keeps_bind; [by apply keeps_set_string|intros ?; apply keeps_ret].
Qed.
End entrywise.

(** ** What the calls write *)
Section calls.
Context `{RedisClient, CJson}.
Context {Session : Type} `{Sessions Session, StorageJson}.
Context (keyPrefix : string).

Definition is_row (key : string) : Prop := exists rest, key = redisKey keyPrefix KeyTypeUpstream rest.
Definition is_identity (key : string) : Prop := exists rest, key = redisKey keyPrefix KeyTypeProvider rest.

Definition token_write (keyType reqIDType signature : string) (request : Request) (ttl : Duration) (w : write) : Prop :=
  exists data, marshalRequester request = Some data /\
    let reqIDKey := redisSetKey keyPrefix reqIDType (rq_ID request) in
    w = WTx [TxSet (redisKey keyPrefix keyType signature) data ttl; TxSAdd reqIDKey signature; TxExpire reqIDKey ttl].

Definition delete_token_write (keyType reqIDType signature : string) (w : write) : Prop :=
  w = WDel [redisKey keyPrefix keyType signature] \/
  exists requestID, w = WRem (redisSetKey keyPrefix reqIDType requestID) signature.

Definition revoke_write (keyType reqIDType requestID : string) (w : write) : Prop :=
  (exists signature, w = WDel [redisKey keyPrefix keyType signature]) \/
  w = WDel [redisSetKey keyPrefix reqIDType requestID].

Definition issues (c : storage_call) (w : write) : Prop :=
  match c with
  | CRegisterClient client =>
      exists data, Marshal (stored_of_client client) = Some data /\
        w = WSet (redisKey keyPrefix KeyTypeClient (cl_ID client)) data (if cl_DCRIssued client then DefaultDCRClientTTL else 0%Z)
  | CRenewClientTTL (Some client) =>
      cl_DCRIssued client = true /\ w = WExpire (redisKey keyPrefix KeyTypeClient (cl_ID client)) DefaultDCRClientTTL
  | CSetClientAssertionJWT jti exp now =>
      (0 < time.Sub exp now)%Z /\ w = WSet (redisKey keyPrefix KeyTypeJWT jti) "1" (time.Sub exp now)
  | CCreateAuthorizeCodeSession code (Some request) now =>
      exists data, marshalRequester request = Some data /\
        w = WSet (redisKey keyPrefix KeyTypeAuthCode code) data (getTTLFromRequester request AuthorizeCode DefaultAuthCodeTTL now)
  | CInvalidateAuthorizeCodeSession code =>
      w = WTx [TxSet (redisKey keyPrefix KeyTypeInvalidated code) "1" DefaultInvalidatedCodeTTL;
               TxExpire (redisKey keyPrefix KeyTypeAuthCode code) DefaultInvalidatedCodeTTL]
  | CCreateAccessTokenSession signature (Some request) now =>
      token_write KeyTypeAccess KeyTypeReqIDAccess signature request
        (getTTLFromRequester request AccessToken DefaultAccessTokenTTL now) w
  | CDeleteAccessTokenSession signature => delete_token_write KeyTypeAccess KeyTypeReqIDAccess signature w
  | CCreateRefreshTokenSession signature (Some request) now =>
      token_write KeyTypeRefresh KeyTypeReqIDRefresh signature request
        (getTTLFromRequester request RefreshToken DefaultRefreshTokenTTL now) w
  | CDeleteRefreshTokenSession signature => delete_token_write KeyTypeRefresh KeyTypeReqIDRefresh signature w
  | CRotateRefreshToken requestID signature =>
      w = WDel [redisKey keyPrefix KeyTypeRefresh signature] \/
      w = WRem (redisSetKey keyPrefix KeyTypeReqIDRefresh requestID) signature \/
      revoke_write KeyTypeAccess KeyTypeReqIDAccess requestID w
  | CRevokeAccessToken requestID => revoke_write KeyTypeAccess KeyTypeReqIDAccess requestID w
  | CRevokeRefreshToken requestID => revoke_write KeyTypeRefresh KeyTypeReqIDRefresh requestID w
  | CCreatePKCERequestSession signature (Some request) now =>
      exists data, w = WSet (redisKey keyPrefix KeyTypePKCE signature) data (getTTLFromRequester request AuthorizeCode DefaultPKCETTL now)
  | CDeletePKCERequestSession signature => w = WDel [redisKey keyPrefix KeyTypePKCE signature]
  | CStoreUpstreamTokens sessionID providerName tokens now =>
      sessionID <> "" /\ providerName <> "" /\
      exists data ttl, marshalUpstreamTokensWithTTL tokens now = Some (data, ttl) /\
        w = WUpstream (redisUpstreamKey keyPrefix sessionID providerName) (redisSetKey keyPrefix KeyTypeUpstreamIdx sessionID)
              data (ttl `div` Millisecond)%Z (match tokens with Some t => ut_UserID t | None => "" end)
              (keyPrefix +:+ KeyTypeUserUpstream +:+ ":")
  | CDeleteUpstreamTokens sessionID =>
      (exists keys, Forall is_row keys /\ w = WDel (keys ++ [redisSetKey keyPrefix KeyTypeUpstreamIdx sessionID])) \/
      (exists userID key, is_row key /\ w = WRem (redisSetKey keyPrefix KeyTypeUserUpstream userID) key)
  | CDeleteUpstreamTokensForProvider sessionID providerName =>
      let key := redisUpstreamKey keyPrefix sessionID providerName in
      w = WDel [key] \/ w = WRem (redisSetKey keyPrefix KeyTypeUpstreamIdx sessionID) key \/
      (exists userID, w = WRem (redisSetKey keyPrefix KeyTypeUserUpstream userID) key)
  | CStoreDCRCredentials (Some creds) now =>
      exists data, w = WSet (redisDCRKey keyPrefix (dc_Key creds)) data (dcr_ttl creds now)
  | CStorePendingAuthorization state (Some pending) =>
      exists data, w = WSet (redisKey keyPrefix KeyTypePending state) data DefaultPendingAuthorizationTTL
  | CDeletePendingAuthorization state => w = WDel [redisKey keyPrefix KeyTypePending state]
  | CCreateUser (Some user) => exists data, w = WSetNX (redisKey keyPrefix KeyTypeUser (user_ID user)) data
  | CDeleteUser id =>
      w = WDel [redisKey keyPrefix KeyTypeUser id] \/
      (exists key, (is_identity key \/ is_row key) /\ w = WDel [key]) \/
      w = WDel [redisSetKey keyPrefix KeyTypeUserProviders id] \/
      w = WDel [redisSetKey keyPrefix KeyTypeUserUpstream id]
  | CCreateProviderIdentity (Some identity) =>
      let key := redisProviderKey keyPrefix (pi_ProviderID identity) (pi_ProviderSubject identity) in
      (exists data, w = WSetNX key data) \/ w = WAdd (redisSetKey keyPrefix KeyTypeUserProviders (pi_UserID identity)) key
  | CUpdateProviderIdentityLastUsed providerID subject lastUsedAt =>
      w = WTouch (redisProviderKey keyPrefix providerID subject) (Unix lastUsedAt)
  | _ => False
  end.

(** ** The sets that list keys *)
Definition member_ok (key member : string) : Prop :=
  (forall id, key = redisSetKey keyPrefix KeyTypeUserProviders id -> is_identity member) /\
  (forall id, key = redisSetKey keyPrefix KeyTypeUserUpstream id -> is_row member) /\
  (forall id, key = redisSetKey keyPrefix KeyTypeUpstreamIdx id -> is_row member).

Definition typed_entry (key : string) (e : rentry) : Prop :=
  forall members, re_value e = RSet members -> forall member, member ∈ members -> member_ok key member.

Definition typed_sets (db : database) : Prop := entrywise typed_entry db.

(** What a call can rely on in the reply of a command. *)
Definition typed_reply (B : Type) (c : command B) : B -> Prop :=
  match c in command B return B -> Prop with
  | SMembers key => fun r => forall members, r = Some members -> Forall (member_ok key) members
  | _ => fun _ => True
  end.

Lemma typed_replies now db B (c : command B) r db' : typed_sets db -> performs now c db r db' -> typed_reply B c r.
Proof.
  intros Hdb Hp. destruct Hp as [order Ho|order Ho|]; destruct c; try done; cbn; intros members E; try congruence.
  unfold SMEMBERS in E. destruct (look now db key) as [[[|ms] d]|] eqn:El; simplify_eq/=; [|constructor].
  apply Forall_forall. intros m Hm. rewrite (Ho ms) in Hm. apply elem_of_elements in Hm.
  by eapply (Hdb key _ (look_entry _ _ _ _ El)).
Qed.

Lemma key_prefix_inj (p s t : string) : p +:+ s = p +:+ t -> s = t.
Proof. intros E. by apply app_string_inj in E as [_ E]. Qed.
End calls.

(** Comparing keys: the prefix is stripped and the texts that remain are compared. *)
Ltac key_eqs :=
  unfold redisKey, redisSetKey, redisUpstreamKey, redisProviderKey, redisDCRKey, is_row, is_identity in *;
  unfold KeyTypeAccess, KeyTypeRefresh, KeyTypeAuthCode, KeyTypePKCE, KeyTypeClient, KeyTypeUser, KeyTypeProvider,
    KeyTypeUpstream, KeyTypePending, KeyTypeInvalidated, KeyTypeJWT, KeyTypeReqIDAccess, KeyTypeReqIDRefresh,
    KeyTypeUpstreamIdx, KeyTypeUserUpstream, KeyTypeUserProviders, KeyTypeDCR in *;
  rewrite ?app_string_assoc in *;
  repeat match goal with E : ?p +:+ _ = ?p +:+ _ |- _ => apply key_prefix_inj in E end;
  cbn in *; simplify_eq.

(** The cases of [issues]. *)
Ltac split_issue Hw :=
  cbn in Hw; try done;
  repeat match type of Hw with
    | match ?o with Some _ => _ | None => _ end => destruct o; [|done]
    | _ \/ _ => destruct Hw as [Hw|Hw]
    | exists _, _ => destruct Hw as [? Hw]
    | _ /\ _ => destruct Hw as [? Hw]
    | delete_token_write _ _ _ _ _ => destruct Hw as [Hw|Hw]
    | revoke_write _ _ _ _ _ => destruct Hw as [Hw|Hw]
    end.

Section calls_issue.
Context `{RedisClient, CJson}.
Context {Session : Type} `{Sessions Session, StorageJson}.
Context (keyPrefix : string).

Lemma typed_string key data deadline : typed_entry keyPrefix key (mkEntry (RString data) deadline).
Proof. done. Qed.

Lemma typed_add now key member :
  member_ok keyPrefix key member -> keeps (typed_entry keyPrefix) (SADD now key member).
Proof.
  intros Hm. apply keeps_SADD; cbn.
  - intros ? [= <-] m ->%elem_of_singleton. done.
  - intros members deadline Hms ? [= <-] m [->%elem_of_singleton|Hin]%elem_of_union; [done|]. by eapply Hms.
Qed.

Lemma typed_rem now key member : keeps (typed_entry keyPrefix) (SREM now key member).
Proof. apply keeps_SREM. intros members deadline Hms ? [= <-] m [Hin _]%elem_of_difference. by eapply Hms. Qed.

Lemma typed_deadline now key deadline : keeps (typed_entry keyPrefix) (set_deadline now key deadline).
Proof. apply keeps_set_deadline. intros e He _. exact He. Qed.

Lemma typed_token now keyType reqIDType signature request ttl w db :
  (reqIDType = KeyTypeReqIDAccess \/ reqIDType = KeyTypeReqIDRefresh) ->
  token_write keyPrefix keyType reqIDType signature request ttl w ->
  typed_sets keyPrefix db -> typed_sets keyPrefix (apply_write now w db).
Proof.
  intros Ht (data & _ & ->). apply keeps_MULTI. apply Forall_cons; split; [|apply Forall_cons; split; [|apply Forall_singleton]].
  - by apply keeps_set_string.
  - apply typed_add. split_and!; intros id E; destruct Ht as [-> | ->]; key_eqs.
  - apply keeps_bind; [apply typed_deadline|]. intros. apply keeps_ret.
Qed.

Lemma row_member sessionID rest :
  member_ok keyPrefix (redisSetKey keyPrefix KeyTypeUpstreamIdx sessionID) (redisKey keyPrefix KeyTypeUpstream rest).
Proof. split_and!; intros id E; [key_eqs|eexists; reflexivity..]. Qed.

Lemma typed_kept c w now db :
  issues keyPrefix c w -> typed_sets keyPrefix db -> typed_sets keyPrefix (apply_write now w db).
Proof.
  intros Hw Hdb. destruct c; split_issue Hw; try (eapply typed_token; [|exact Hw|exact Hdb]; by eauto);
    subst w; cbn [apply_write]; try (by apply keeps_DEL); try (by apply keeps_set_string); try (by apply keeps_SETNX);
    try (by apply typed_rem); try (by apply typed_deadline).
  - apply keeps_MULTI; [|done]. apply Forall_cons; split; [by apply keeps_set_string|apply Forall_singleton].
    apply keeps_bind; [apply typed_deadline|]. intros. apply keeps_ret.
  - apply keeps_script; [done|intros ??? He; exact He|apply typed_add, row_member| | |done]; intros userID.
    + apply typed_add. split_and!; intros id E; [key_eqs|eexists; reflexivity..].
    + apply typed_rem.
  - apply typed_add; [|done]. split_and!; intros id E; [eexists; reflexivity|key_eqs..].
  - by apply keeps_touch.
Qed.

(** ** The programs write what [issues] says *)
Lemma follows_each {A} good ans (l : list A) f :
  Forall (fun x => follows good ans (f x) (fun _ => True)) l -> follows good ans (each l f) (fun _ => True).
Proof. induction 1; cbn; [done|]. by apply follows_seq. Qed.

Abbreviation obeys c p := (follows (issues keyPrefix c) (typed_reply keyPrefix) p (fun _ => True)) (only parsing).

Ltac obey_step :=
  match goal with
  | |- follows _ _ (Ret _) _ => done
  | |- follows _ _ (Do _ _) _ =>
      apply follows_do; [intros ?w Hw; cbn in Hw; try discriminate Hw; injection Hw as <-|intros ?r ?Hr]
  | |- follows _ _ (pbind _ _) _ => apply follows_seq; [|intros ?]
  | |- follows _ _ (pmap _ _) _ => apply follows_seq; [|intros ?; done]
  | |- follows _ _ (rbind _ _) _ => apply follows_seq; [|intros ?]
  | |- follows _ _ (each _ _) _ => apply follows_each; apply Forall_forall; intros ?x ?Hx
  | |- follows _ _ (match ?x with _ => _ end) _ => destruct x eqn:?
  | |- follows _ _ (let _ := _ in _) _ => cbv zeta
  end.

Lemma reads_get_data good ans key hint : follows good ans (get_data key hint) (fun _ => True).
Proof. unfold get_data. repeat obey_step. Qed.

Lemma reads_get_client good ans id : follows good ans (redis_GetClient keyPrefix id) (fun _ => True).
Proof. unfold redis_GetClient. repeat obey_step. Qed.

Lemma reads_unmarshalRequester good ans data : follows good ans (unmarshalRequester keyPrefix data) (fun _ => True).
Proof. unfold unmarshalRequester. repeat first [obey_step|apply reads_get_client]. Qed.

Lemma reads_get_request good ans key hint : follows good ans (get_request keyPrefix key hint) (fun _ => True).
Proof. unfold get_request. repeat first [apply reads_get_data|apply reads_unmarshalRequester|obey_step]. Qed.

Lemma reads_collect_users good ans keys : follows good ans (collect_users keys) (fun _ => True).
Proof. induction keys as [|key keys IH]; cbn [collect_users get_identities]; repeat first [exact IH|obey_step]. Qed.

Lemma reads_get_identities good ans keys : follows good ans (get_identities keys) (fun _ => True).
Proof. induction keys as [|key keys IH]; cbn [collect_users get_identities]; repeat first [exact IH|obey_step]. Qed.

Lemma obeys_with_request c name hint request k :
  (forall r data, request = Some r -> marshalRequester r = Some data -> obeys c (k r data)) ->
  obeys c (with_request name hint request k).
Proof. intros Hk. unfold with_request. repeat obey_step. by apply Hk. Qed.

Lemma obeys_delete_indexed c keyType reqIDType requestID signatures :
  (forall w, revoke_write keyPrefix keyType reqIDType requestID w -> issues keyPrefix c w) ->
  obeys c (delete_indexed keyPrefix keyType (redisSetKey keyPrefix reqIDType requestID) signatures).
Proof. intros Hc. unfold delete_indexed. repeat obey_step; apply Hc; [left; eauto|by right]. Qed.

Lemma obeys_revoke c keyType reqIDType requestID :
  (forall w, revoke_write keyPrefix keyType reqIDType requestID w -> issues keyPrefix c w) ->
  obeys c (revoke keyPrefix keyType reqIDType requestID).
Proof. intros Hc. unfold revoke. repeat first [by apply obeys_delete_indexed|obey_step]. Qed.

Lemma obeys_delete_token c keyType reqIDType hint signature :
  (forall w, delete_token_write keyPrefix keyType reqIDType signature w -> issues keyPrefix c w) ->
  obeys c (delete_token keyPrefix keyType reqIDType hint signature).
Proof.
  intros Hc. unfold delete_token. repeat first [apply reads_get_data|obey_step]; apply Hc; [by left|right; eauto].
Qed.

Lemma obeys_with_user {A} c id fail (k : prog command A) : obeys c k -> obeys c (with_user keyPrefix id fail k).
Proof. intros Hk. unfold with_user. repeat first [exact Hk|obey_step]. Qed.

Lemma member_kept members kind id x :
  x ∈ filterIndexMembersByPrefix keyPrefix members ->
  Forall (member_ok keyPrefix (redisSetKey keyPrefix kind id)) members ->
  member_ok keyPrefix (redisSetKey keyPrefix kind id) x.
Proof. intros [_ Hx]%list_elem_of_filter Hm. by apply (proj1 (Forall_forall _ _) Hm). Qed.

Lemma obeys_DeleteUpstreamTokens sessionID :
  obeys (CDeleteUpstreamTokens sessionID) (redis_DeleteUpstreamTokens keyPrefix sessionID).
Proof.
  unfold redis_DeleteUpstreamTokens. cbv zeta. obey_step. obey_step; [|obey_step]. cbn in Hr. specialize (Hr _ eq_refl).
  assert (Forall (is_row keyPrefix) (filterIndexMembersByPrefix keyPrefix l)) as Hrows.
  { apply Forall_forall. intros x Hx. by apply (member_kept _ _ _ _ Hx Hr) with sessionID. }
  destruct (filterIndexMembersByPrefix keyPrefix l) as [|k ks] eqn:El; [obey_step|].
  obey_step; [apply reads_collect_users|]. obey_step; [left; eauto|].
  obey_step; [|obey_step]. obey_step; [|obey_step]. repeat obey_step.
  right. do 2 eexists. split; [|reflexivity]. by apply (proj1 (Forall_forall _ _) Hrows).
Qed.

Lemma obeys_delete_members c kind id :
  (forall key, member_ok keyPrefix (redisSetKey keyPrefix kind id) key -> issues keyPrefix c (WDel [key])) ->
  issues keyPrefix c (WDel [redisSetKey keyPrefix kind id]) ->
  obeys c (delete_members (redisSetKey keyPrefix kind id)).
Proof.
  intros Hk Hs. unfold delete_members. obey_step. obey_step; [|obey_step].
  cbn in Hr. specialize (Hr _ eq_refl). repeat obey_step; [|done]. apply Hk. by apply (proj1 (Forall_forall _ _) Hr).
Qed.

Lemma obeys_DeleteUser id : obeys (CDeleteUser id) (redis_DeleteUser keyPrefix id).
Proof.
  unfold redis_DeleteUser. apply obeys_with_user. obey_step; [by left|]. obey_step; [|obey_step].
  obey_step; [|obey_step; [|obey_step]]; apply obeys_delete_members; cbn.
  - intros key (Hk & _ & _). right. left. eexists. split; [left; by apply (Hk id)|done].
  - by do 2 right; left.
  - intros key (_ & Hk & _). right. left. eexists. split; [right; by apply (Hk id)|done].
  - by do 3 right.
Qed.

(** Every call writes only what [issues] says, as long as the sets list keys of their kind. *)
Lemma calls_issue c : obeys c (serve keyPrefix c).
Proof.
  destruct c; cbn [serve]; obey_step;
    try (apply reads_get_request); try (apply reads_get_client);
    try (apply obeys_with_request; intros ?? -> ?);
    try (apply obeys_delete_token; done); try (apply obeys_revoke; done);
    try (apply obeys_DeleteUpstreamTokens); try (apply obeys_DeleteUser).
  all: unfold redis_RegisterClient, redis_RenewClientTTL, redis_ClientAssertionJWTValid, redis_SetClientAssertionJWT,
    redis_GetAuthorizeCodeSession, redis_InvalidateAuthorizeCodeSession, redis_RotateRefreshToken,
    redis_DeletePKCERequestSession, redis_StoreUpstreamTokens, redis_GetUpstreamTokens, redis_GetAllUpstreamTokens,
    redis_DeleteUpstreamTokensForProvider, redis_GetLatestUpstreamTokensForUser, redis_StoreDCRCredentials,
    redis_GetDCRCredentials, redis_StorePendingAuthorization, redis_LoadPendingAuthorization,
    redis_DeletePendingAuthorization, redis_CreateUser, redis_GetUser, redis_CreateProviderIdentity,
    redis_GetProviderIdentity, redis_UpdateProviderIdentityLastUsed, redis_GetUserProviderIdentities,
    with_data, set_data, create_token, create_data, delete_key, check_row.
  all: repeat first [apply reads_get_data|apply reads_get_request|apply reads_get_identities|apply obeys_with_user
                    |apply obeys_delete_indexed|obey_step].
  all: cbn [issues]; try solve [eauto].
  all: try (by right; right).
  - split; [by destruct (cl_DCRIssued c)|done].
  - split; [lia|done].
  - by exists data.
  - by exists data.
  - repeat case_decide; naive_solver.
Qed.

(** The first parts of the keys that a call writes. *)
Definition call_heads (c : storage_call (Session := Session)) : list string :=
  match c with
  | CRegisterClient _ | CRenewClientTTL _ => [KeyTypeClient]
  | CSetClientAssertionJWT _ _ _ => [KeyTypeJWT]
  | CCreateAuthorizeCodeSession _ _ _ => [KeyTypeAuthCode]
  | CInvalidateAuthorizeCodeSession _ => [KeyTypeAuthCode; KeyTypeInvalidated]
  | CCreateAccessTokenSession _ _ _ | CDeleteAccessTokenSession _ | CRevokeAccessToken _ => [KeyTypeAccess; "reqid"]
  | CCreateRefreshTokenSession _ _ _ | CDeleteRefreshTokenSession _ | CRevokeRefreshToken _ => [KeyTypeRefresh; "reqid"]
  | CRotateRefreshToken _ _ => [KeyTypeAccess; KeyTypeRefresh; "reqid"]
  | CCreatePKCERequestSession _ _ _ | CDeletePKCERequestSession _ => [KeyTypePKCE]
  | CStoreUpstreamTokens _ _ _ _ | CDeleteUpstreamTokens _ | CDeleteUpstreamTokensForProvider _ _ => [KeyTypeUpstream; KeyTypeUser]
  | CStoreDCRCredentials _ _ => [KeyTypeDCR]
  | CStorePendingAuthorization _ _ | CDeletePendingAuthorization _ => [KeyTypePending]
  | CCreateUser _ => [KeyTypeUser]
  | CDeleteUser _ => [KeyTypeUser; KeyTypeProvider; KeyTypeUpstream]
  | CCreateProviderIdentity _ => [KeyTypeProvider; KeyTypeUser]
  | CUpdateProviderIdentityLastUsed _ _ _ => [KeyTypeProvider]
  | _ => []
  end.

Definition with_head (heads : list string) (key : string) : Prop :=
  exists head rest, head ∈ heads /\ key = redisKey keyPrefix head rest.

Lemma has_head heads key head rest : key = redisKey keyPrefix head rest -> head ∈ heads -> with_head heads key.
Proof. intros -> ?. by exists head, rest. Qed.

(** Every key is a first part and the rest. *)
Lemma reqid_access_key id : redisSetKey keyPrefix KeyTypeReqIDAccess id = redisKey keyPrefix "reqid" ("access:" +:+ id).
Proof. done. Qed.

Lemma reqid_refresh_key id : redisSetKey keyPrefix KeyTypeReqIDRefresh id = redisKey keyPrefix "reqid" ("refresh:" +:+ id).
Proof. done. Qed.

Lemma index_key id : redisSetKey keyPrefix KeyTypeUpstreamIdx id = redisKey keyPrefix KeyTypeUpstream ("idx:" +:+ id).
Proof. done. Qed.

Lemma user_upstream_key id : redisSetKey keyPrefix KeyTypeUserUpstream id = redisKey keyPrefix KeyTypeUser ("upstream:" +:+ id).
Proof. done. Qed.

Lemma user_providers_key id : redisSetKey keyPrefix KeyTypeUserProviders id = redisKey keyPrefix KeyTypeUser ("providers:" +:+ id).
Proof. done. Qed.

Lemma user_prefix_key id : (keyPrefix +:+ KeyTypeUserUpstream +:+ ":") +:+ id = redisKey keyPrefix KeyTypeUser ("upstream:" +:+ id).
Proof. by rewrite !app_string_assoc. Qed.

Ltac solve_head :=
  rewrite ?reqid_access_key, ?reqid_refresh_key, ?index_key, ?user_upstream_key, ?user_providers_key, ?user_prefix_key;
  eapply has_head; [reflexivity|set_solver].

Lemma touched_head c w key : issues keyPrefix c w -> touches w key -> with_head (call_heads c) key.
Proof.
  intros Hw Ht. destruct c; split_issue Hw; try (destruct Hw as (? & _ & Hw); cbv zeta in Hw); subst w; cbn in Ht;
    repeat match goal with
      | H : _ \/ _ |- _ => destruct H
      | H : exists _, _ |- _ => destruct H
      | H : _ ∈ _ :: _ |- _ => apply elem_of_cons in H
      | H : _ ∈ [] |- _ => by apply not_elem_of_nil in H
      | H : _ ∈ _ ++ _ |- _ => apply elem_of_app in H
      | H : Forall (is_row _) ?l, Hk : _ ∈ ?l |- _ => apply (proj1 (Forall_forall _ _) H) in Hk
      | H : is_row _ _ |- _ => destruct H
      | H : is_identity _ _ |- _ => destruct H
      end; subst; solve_head.
Qed.

Lemma head_inj head head' rest rest' :
  no_char ":" head -> no_char ":" head' -> redisKey keyPrefix head rest = redisKey keyPrefix head' rest' ->
  head = head' /\ rest = rest'.
Proof. intros Hh Hh' E%key_prefix_inj. by apply (split_at_char ":"). Qed.

Lemma heads_plain c : Forall (no_char ":") (call_heads c).
Proof. destruct c; cbn; repeat (apply Forall_cons; split); try apply Forall_nil; try done; vm_compute; naive_solver. Qed.

Lemma other_head c w head rest :
  issues keyPrefix c w -> no_char ":" head -> head ∉ call_heads c -> ~ touches w (redisKey keyPrefix head rest).
Proof.
  intros Hw Hh Hn Ht. destruct (touched_head _ _ _ Hw Ht) as (h & rest' & Hin & E).
  apply head_inj in E as [-> _]; [done..|]. by apply (proj1 (Forall_forall _ _) (heads_plain c)).
Qed.

(** So it does in any company: what the calls in progress do is covered by [issues] when the
    calls that begin are [allowed]. *)
Definition calls_allowed (allowed : storage_call -> Prop) (p : prog command outcome) : Prop :=
  exists c, allowed c /\ p = serve keyPrefix c.

Lemma begins_allowed allowed es :
  Forall (begins allowed) es -> Forall (begins (fun c => calls_allowed allowed (serve keyPrefix c))) es.
Proof. intros Hes. eapply Forall_impl; [exact Hes|]. intros [] He; cbn; try done. by exists c. Qed.

Definition allowed_write (allowed : storage_call -> Prop) (w : write) : Prop :=
  exists c, allowed c /\ issues keyPrefix c w.

Lemma allowed_obey allowed p :
  calls_allowed allowed p -> follows (allowed_write allowed) (typed_reply keyPrefix) p (fun _ => True).
Proof.
  intros (c & Hc & ->). eapply follows_weaken; [|apply calls_issue]. intros w Hw. by exists c.
Qed.

Lemma allowed_typed allowed now db w :
  typed_sets keyPrefix db -> allowed_write allowed w -> typed_sets keyPrefix (apply_write now w db).
Proof. intros Hdb (c & _ & Hw). by eapply typed_kept. Qed.

(** The calls in progress in any state that is reached from one without calls. *)
Lemma reached_sound allowed t0 db0 w :
  typed_sets keyPrefix db0 -> rtc (world_step (calls_allowed allowed)) (mkWorld t0 db0 []) w ->
  sound (allowed_write allowed) (fun _ => typed_sets keyPrefix) (typed_reply keyPrefix) w.
Proof.
  intros Hdb Hs. eapply (sound_steps (calls_allowed allowed)); [| | | | |exact Hs].
  - by intros.
  - intros now db v Hi Hv. by eapply allowed_typed.
  - intros now db B c r db' Hi Hp. by eapply typed_replies.
  - apply allowed_obey.
  - by split.
Qed.
(** Deleting the listed keys one after the other. *)
Lemma alone_del_each (f : string -> string) l now db a now' db' :
  alone (each l (fun x => Do (Del [f x]) (fun _ => Ret tt))) now db a now' db' ->
  (now <= now')%Z /\ forall key, db' !! key = if decide (key ∈ f <$> l) then None else db !! key.
Proof.
  revert now db. induction l as [|x l IH]; intros now db; cbn.
  - intros (_ & Hle & ->). split; [done|]. intros key. by rewrite decide_False by apply not_elem_of_nil.
  - intros (t & order & Hle & _ & Hl). destruct (IH _ _ Hl) as [Hle' Hk]. split; [lia|]. intros key. rewrite Hk. cbn.
    destruct (decide (key = f x)) as [->|Hne].
    + rewrite lookup_delete_eq, (decide_True (P := f x ∈ f x :: _)) by left. by case_decide.
    + rewrite lookup_delete_ne by done. destruct (decide (key ∈ f <$> l)).
      * by rewrite decide_True by (by right).
      * by rewrite decide_False by (by rewrite elem_of_cons; naive_solver).
Qed.
End calls_issue.
