(* ===== verification/RedisSample.v ===== *)
(** * A setting to evaluate the Redis storage in

    A client library that rounds to milliseconds and seconds, and an encoding that keeps a
    table of the values it knows, with the values of the examples. *)

From S2P Require Import Prelude GoStrings Programs StorageTypes Redis RedisStorage RedisSystem.

Definition sample_client_library : RedisClient := {|
  set_for d := if (d <? Millisecond)%Z then Millisecond else (d `div` Millisecond * Millisecond)%Z;
  expire_for d := if (d <? time.Second)%Z then time.Second else (d `div` time.Second * time.Second)%Z;
|}.

Lemma sample_client_ok : @RedisClientOk sample_client_library.
Proof.
  split; cbn; unfold Millisecond, time.Second.
  - intros n Hn. rewrite (proj2 (Z.ltb_ge _ _)) by lia. replace (n * 1000000000)%Z with (n * 1000 * 1000000)%Z by lia.
    by rewrite Z.div_mul by lia.
  - intros n Hn. rewrite (proj2 (Z.ltb_ge _ _)) by lia. by rewrite Z.div_mul by lia.
  - intros d Hd. destruct (Z.ltb_spec d 1000000); [lia|]. pose proof (Z.div_mod d 1000000). pose proof (Z.mod_pos_bound d 1000000). lia.
  - intros d Hd. destruct (Z.ltb_spec d 1000000000); [lia|].
    pose proof (Z.div_mod d 1000000000). pose proof (Z.mod_pos_bound d 1000000000). lia.
Qed.

(** An encoding by name. *)
Definition table_json {T} `{EqDecision T} (rows : list (string * T)) : JsonOf T := {|
  Marshal x := (fun found => found.2.1) <$> list_find (fun row => row.2 = x) rows;
  Unmarshal data := (fun found => found.2.2) <$> list_find (fun row => row.1 = data) rows;
  storable x := x ∈ rows.*2;
|}.

#[export] Instance storedClient_eq_dec : EqDecision storedClient.
Proof. solve_decision. Defined.

#[export] Instance storedSession_eq_dec : EqDecision storedSession.
Proof. solve_decision. Defined.

#[export] Instance storedUpstreamTokens_eq_dec : EqDecision storedUpstreamTokens.
Proof. solve_decision. Defined.

#[export] Instance storedDCRCredentials_eq_dec : EqDecision storedDCRCredentials.
Proof. solve_decision. Defined.

#[export] Instance storedPendingAuthorization_eq_dec : EqDecision storedPendingAuthorization.
Proof. solve_decision. Defined.

#[export] Instance storedUser_eq_dec : EqDecision storedUser.
Proof. solve_decision. Defined.

#[export] Instance storedProviderIdentity_eq_dec : EqDecision storedProviderIdentity.
Proof. solve_decision. Defined.

(** Sessions are texts; the short one expires ten seconds after the zero time, the others do not
    say when they do. *)
Definition sample_sessions : Sessions string := {|
  session_Marshal s := Some (default "null" s);
  session_Unmarshal data := Some data;
  session_New := "";
  session_GetExpiresAt s _ := if decide (s = "short") then (10 * time.Second)%Z else time.zero;
|}.

Definition sample_client : Client := mkClient "client" "secret" [] [] [] [] [] false None false.

Definition sample_request (id session : string) : Request := mkRequest id 0%Z sample_client [] [] [] [] ∅ (Some session).

Definition sample_stored (id session : string) : storedSession := {|
  ss_ClientID := "client"; ss_RequestedAt := 0%Z; ss_RequestedScopes := []; ss_GrantedScopes := [];
  ss_RequestedAudience := []; ss_GrantedAudience := []; ss_Form := ∅; ss_RequestID := id; ss_Session := session;
|}.

Definition sample_tokens (provider user : string) : UpstreamTokens := {|
  ut_ProviderID := provider; ut_AccessToken := "access"; ut_RefreshToken := "refresh"; ut_IDToken := "";
  ut_ExpiresAt := time.zero; ut_SessionExpiresAt := time.zero; ut_UserID := user; ut_UpstreamSubject := ""; ut_ClientID := "client";
|}.

Definition sample_json : StorageJson := {|
  json_client := table_json [("c", stored_of_client sample_client)];
  json_session := table_json [("r1", sample_stored "request1" "session"); ("r2", sample_stored "request1" "short")];
  json_upstream := table_json [("t1", stored_of_tokens (sample_tokens "p1" "user")); ("t2", stored_of_tokens (sample_tokens "p2" "user"))];
  json_dcr := table_json [];
  json_pending := table_json [];
  json_user := table_json [("u", {| sr_ID := "user"; sr_CreatedAt := 0; sr_UpdatedAt := 0 |})];
  json_identity := table_json [];
|}.

Definition sample_cjson : CJson := {|
  cjson_user_id data := su_UserID <$> Unmarshal (JsonOf := @json_upstream sample_json) data;
  cjson_touch _ data := Some data;
|}.

(** ** Playing schedules *)
Section sample.
#[local] Existing Instances sample_client_library sample_cjson sample_sessions sample_json.

Definition sample_play := play (serve (Session := string) "").

Definition empty_world : world := mkWorld (A := outcome (Session := string)) 1%Z ∅ [].

Lemma sample_steps allowed w es :
  Forall (begins allowed) es -> rtc (world_step (calls_allowed "" allowed)) w (sample_play w es).
Proof. intros Hes. by apply play_sound, begins_allowed. Qed.

Lemma sample_typed es : typed_sets "" (w_db (sample_play empty_world es)).
Proof.
  assert (rtc (world_step (calls_allowed "" (fun _ => True))) empty_world (sample_play empty_world es)) as Hs.
  { apply sample_steps. apply Forall_forall. by intros []. }
  apply reached_sound in Hs as [Ht _]; [done|]. by intros key e.
Qed.
End sample.
