(* ===== verification/RedisTokens.v ===== *)
(** * Codes, tokens and clients in Redis ([pkg/authserver/storage/redis.go])

    What the interleaved calls of [RedisStorage] guarantee: used codes, revoked tokens,
    registered clients and client assertions.  The last part has executions that show where
    the guarantees end. *)

From Stdlib Require Import Ascii.
From S2P Require Import Prelude GoStrings Programs StorageTypes Redis RedisStorage RedisSystem RedisSample.

(** ** Used codes *)
Section codes.
Context `{RedisClient, CJson, !RedisClientOk}.
Context {Session : Type} `{Sessions Session, StorageJson}.
Context (keyPrefix code : string).

Definition marker_key : string := redisKey keyPrefix KeyTypeInvalidated code.
Definition code_key : string := redisKey keyPrefix KeyTypeAuthCode code.

(** The code is not given to a second request. *)
Definition code_unique (c : storage_call (Session := Session)) : Prop :=
  match c with CCreateAuthorizeCodeSession code' _ _ => code' <> code | _ => True end.

Definition invalidation : write :=
  WTx [TxSet marker_key "1" DefaultInvalidatedCodeTTL; TxExpire code_key DefaultInvalidatedCodeTTL].

(** The mark of a used code is there, and the code does not outlive it. *)
Definition used (now : Time) (db : database) : Prop :=
  exists v marked, db !! marker_key = Some (mkEntry v (Some marked)) /\
    (marked <= time.Add now DefaultInvalidatedCodeTTL)%Z /\
    forall e, db !! code_key = Some e -> exists deadline, re_deadline e = Some deadline /\ (deadline <= marked)%Z.

Lemma code_writes c w :
  code_unique c -> issues keyPrefix c w -> (~ touches w marker_key /\ ~ touches w code_key) \/ w = invalidation.
Proof.
  intros Hc Hw. destruct c;
    try (left; split; (eapply other_head; [exact Hw|vm_compute; naive_solver|set_solver])).
  - split_issue Hw. subst w. left. unfold marker_key, code_key. cbn in Hc |- *. split; intros E; key_eqs.
  - cbn in Hw. subst w. destruct (decide (code0 = code)) as [->|Hne]; [by right|]. left.
    unfold marker_key, code_key. split; cbn; intros [E|[E|[]%elem_of_nil]%elem_of_cons]%elem_of_cons; key_eqs.
Qed.

Lemma ttl_whole : exists n, (0 < n)%Z /\ DefaultInvalidatedCodeTTL = (n * time.Second)%Z.
Proof. exists 1800%Z. done. Qed.

Lemma set_ttl : set_for DefaultInvalidatedCodeTTL = DefaultInvalidatedCodeTTL.
Proof. destruct ttl_whole as (n & Hn & ->). by apply set_for_whole. Qed.

Lemma expire_ttl : expire_for DefaultInvalidatedCodeTTL = DefaultInvalidatedCodeTTL.
Proof. destruct ttl_whole as (n & Hn & ->). by apply expire_for_whole. Qed.

Lemma marker_not_code : marker_key <> code_key.
Proof. unfold marker_key, code_key. intros E. key_eqs. Qed.

(** The database after the code has been marked. *)
Lemma invalidated now db :
  let marked := time.Add now DefaultInvalidatedCodeTTL in
  apply_write now invalidation db !! marker_key = Some (mkEntry (RString "1") (Some marked)) /\
  apply_write now invalidation db !! code_key =
    match look now db code_key with
    | Some e => Some (mkEntry (re_value e) (Some marked))
    | None => db !! code_key
    end.
Proof.
  cbn zeta. unfold invalidation. cbn [apply_write MULTI exec_tx ebind]. unfold SET, set_string, EXPIRE, set_deadline, lifetime, ebind.
  rewrite set_ttl, expire_ttl. cbn [fst snd]. unfold look. cbn.
  rewrite !(lookup_insert_ne _ marker_key code_key) by apply marker_not_code.
  destruct (db !! code_key) as [e|] eqn:E; [destruct (alive now e)|]; cbn;
    rewrite ?lookup_insert_eq, ?(lookup_insert_ne _ code_key marker_key) by (intros E'; by apply marker_not_code);
    rewrite ?lookup_insert_eq, ?(lookup_insert_ne _ marker_key code_key) by apply marker_not_code; done.
Qed.

Lemma not_alive now e : alive now e = false -> exists deadline, re_deadline e = Some deadline /\ (deadline <= now)%Z.
Proof. unfold alive. destruct (re_deadline e) as [d|]; [|done]. intros Hd%Z.ltb_ge. eauto. Qed.

Lemma used_time now now' db : (now <= now')%Z -> used now db -> used now' db.
Proof. intros Hle (v & marked & Hm & Hb & Hk). exists v, marked. unfold time.Add in *. split_and!; [done|lia|done]. Qed.

Lemma used_after now db : used now (apply_write now invalidation db).
Proof.
  destruct (invalidated now db) as [Hm Hk]. do 2 eexists. split; [exact Hm|]. split; [done|].
  intros e. rewrite Hk. unfold look. destruct (db !! code_key) as [e'|]; [|done].
  destruct (alive now e') eqn:Ha; intros [= <-]; [eexists; split; [reflexivity|done]|].
  destruct (not_alive _ _ Ha) as (d & Hd & Hle). exists d. split; [done|].
  unfold time.Add, DefaultInvalidatedCodeTTL, time.Minute, time.Second. lia.
Qed.

Lemma used_kept now db c w : used now db -> code_unique c -> issues keyPrefix c w -> used now (apply_write now w db).
Proof.
  intros (v & marked & Hm & Hb & Hk) Hc Hw. destruct (code_writes c w Hc Hw) as [[Hnm Hnk]| ->]; [|apply used_after].
  exists v, marked. rewrite !frame by done. done.
Qed.

(** A call of [InvalidateAuthorizeCodeSession] succeeds only after it has marked the code. *)
Fixpoint marks_first (p : prog command (outcome (Session := Session))) : Prop :=
  match p with
  | Ret a => a <> OError None
  | Do c k => written c = Some invalidation /\ marks_first (k (lost c)) \/ forall r, marks_first (k r)
  end.

Lemma invalidate_marks_first : marks_first (serve keyPrefix (CInvalidateAuthorizeCodeSession code)).
Proof. right. intros [[]|]; cbn; [|done..]. left. done. Qed.

(** ** A code that is used is refused *)
Definition refused (o : outcome (Session := Session)) : Prop := forall request, o <> ORequest (Some request, None).

(** The mark is seen. *)
Definition sees_mark (B : Type) (c : command B) : B -> Prop :=
  match c in command B return B -> Prop with
  | Exists key => fun r => key = marker_key -> r <> Some false
  | _ => fun _ => True
  end.

(** The code is not found. *)
Definition misses_code (B : Type) (c : command B) : B -> Prop :=
  match c in command B return B -> Prop with
  | Get key => fun r => key = code_key -> forall data, r <> Some (Some data)
  | _ => fun _ => True
  end.

Lemma marked_refused good :
  follows good (fun B c r => typed_reply keyPrefix B c r /\ sees_mark B c r)
    (serve keyPrefix (CGetAuthorizeCodeSession code)) refused.
Proof.
  eapply follows_bind with (R := fun r => forall request, r <> (Some request, None)); [|intros a Ha request; cbn; congruence].
  apply follows_bind with (R := fun _ => True); [apply reads_get_request|]. intros [e|request] _; [by apply follows_ret|].
  apply follows_do; [done|]. intros [[]|] [_ Hr]; by try apply follows_ret; cbn in Hr; specialize (Hr eq_refl).
Qed.

Lemma missing_refused good :
  follows good (fun B c r => typed_reply keyPrefix B c r /\ misses_code B c r)
    (serve keyPrefix (CGetAuthorizeCodeSession code)) refused.
Proof.
  eapply follows_bind with (R := fun r => forall request, r <> (Some request, None)); [|intros a Ha request; cbn; congruence].
  apply follows_bind with (R := fun r => exists e, r = inl e); [|by intros ? [e ->]].
  apply follows_bind with (R := fun r => exists e, r = inl e); [|intros ? [e ->]; by apply follows_ret; eauto].
  apply follows_do; [done|]. intros [[data|]|] [_ Hr]; cbn in Hr; [by destruct (Hr eq_refl data)|apply follows_ret; eauto..].
Qed.

Definition no_replay_before (marked now : Time) (db : database) : Prop :=
  typed_sets keyPrefix db /\ used now db /\ (marked <= time.Add now DefaultInvalidatedCodeTTL)%Z /\
  exists v later, db !! marker_key = Some (mkEntry v (Some later)) /\ (marked <= later)%Z.

Definition code_gone (now : Time) (db : database) : Prop :=
  typed_sets keyPrefix db /\ used now db /\ forall e, db !! code_key = Some e -> alive now e = false.

Lemma no_replay_kept marked now db w :
  no_replay_before marked now db -> allowed_write keyPrefix code_unique w -> no_replay_before marked now (apply_write now w db).
Proof.
  intros (Ht & Hu & Hb & v & later & Hm & Hl) (c & Hc & Hw).
  split; [by eapply typed_kept|]. split; [by eapply used_kept|]. split; [done|].
  destruct (code_writes c w Hc Hw) as [[Hnm _]| ->]; [rewrite frame by done; eauto|].
  destruct (invalidated now db) as [-> _]. eauto.
Qed.

Lemma code_gone_kept now db w :
  code_gone now db -> allowed_write keyPrefix code_unique w -> code_gone now (apply_write now w db).
Proof.
  intros (Ht & Hu & Hk) (c & Hc & Hw). split; [by eapply typed_kept|]. split; [by eapply used_kept|].
  destruct (code_writes c w Hc Hw) as [[_ Hnk]| ->]; [by rewrite frame|].
  destruct (invalidated now db) as [_ ->]. unfold look. destruct (db !! code_key) as [e|]; [|done].
  rewrite (Hk e eq_refl). naive_solver.
Qed.

Lemma alive_later now now' e : (now <= now')%Z -> alive now e = false -> alive now' e = false.
Proof. unfold alive. destruct (re_deadline e); [|done]. rewrite !Z.ltb_ge. lia. Qed.

Abbreviation steps := (rtc (world_step (calls_allowed keyPrefix code_unique))) (only parsing).
Abbreviation good := (allowed_write keyPrefix code_unique) (only parsing).

Lemma invalidated_used w w' j :
  sound good (fun _ => typed_sets keyPrefix) (typed_reply keyPrefix) w -> steps w w' ->
  w_threads w !! j = Some (serve keyPrefix (CInvalidateAuthorizeCodeSession code)) ->
  w_threads w' !! j = Some (Ret (OError None)) -> used (w_now w') (w_db w').
Proof using All.
  intros Hw Hs Hj Hj'.
  enough (used (w_now w') (w_db w') \/ marks_first (Ret (OError None))) as [|Hm] by (done || by destruct Hm).
  eapply (tracked (calls_allowed keyPrefix code_unique) good (fun _ => typed_sets keyPrefix) (typed_reply keyPrefix))
    with (T := fun now db p => used now db \/ marks_first p); [..|exact Hw|exact Hs|exact Hj| |exact Hj'].
  - by intros.
  - intros now db v Hi Hv. by eapply allowed_typed.
  - intros now db B c r db' Hi Hp. by eapply typed_replies.
  - apply allowed_obey.
  - intros now now' db p Hle [Hu|Hm]; [left; by eapply used_time|by right].
  - intros now db v p _ (c & Hc & Hv) [Hu|Hm]; [left; by eapply used_kept|by right].
  - intros now db B c k r db' _ [Hf _] HT Hp.
    pose proof (performs_writes _ _ _ _ _ Hp) as Hd. destruct HT as [Hu|Hm].
    + left. destruct Hd as [->|(v & Hv & ->)]; [done|]. destruct (Hf v Hv) as (c' & Hc' & Hv'). by eapply used_kept.
    + destruct Hm as [[Hv Hl]|Hr]; [|right; apply Hr].
      destruct Hp as [order _|order _|]; [left..|by right]; rewrite exec_writes, Hv; apply used_after.
  - right. apply invalidate_marks_first.
Qed.

Lemma refused_while_marked marked w w' i r :
  sound good (no_replay_before marked) (typed_reply keyPrefix) w -> steps w w' ->
  w_threads w !! i = Some (serve keyPrefix (CGetAuthorizeCodeSession code)) ->
  w_threads w' !! i = Some (Ret r) -> (w_now w' < marked)%Z -> refused r.
Proof using All.
  intros Hw Hs Hi Hr Hlt. refine (tracked_result (calls_allowed keyPrefix code_unique) good (no_replay_before marked)
    (typed_reply keyPrefix) sees_mark (fun now => now < marked)%Z _ _ _ _ _ _ w w' i _ refused _ Hw Hs Hi
    (fun _ => marked_refused _) Hr Hlt).
  - intros now now' db Hle (? & ? & ? & ?). split; [done|]. split; [by eapply used_time|]. unfold time.Add in *. split; [lia|done].
  - intros now db v. apply no_replay_kept.
  - intros now db B c r' db' [Hi' _] Hp. by eapply typed_replies.
  - intros now now'. lia.
  - intros now db B c r' db' (_ & _ & _ & v' & later & Hm' & Hl) Hnow Hp. destruct c; try done. cbn. intros ->.
    destruct Hp as [order _|order _|]; try done. cbn. unfold look. rewrite Hm'. unfold alive. cbn.
    rewrite (proj2 (Z.ltb_lt now later)) by lia. by rewrite bool_decide_eq_true_2.
  - apply allowed_obey.
Qed.

Lemma refused_when_gone w w' i r :
  sound good code_gone (typed_reply keyPrefix) w -> steps w w' ->
  w_threads w !! i = Some (serve keyPrefix (CGetAuthorizeCodeSession code)) ->
  w_threads w' !! i = Some (Ret r) -> refused r.
Proof using All.
  intros Hw Hs Hi Hr. refine (tracked_result (calls_allowed keyPrefix code_unique) good code_gone
    (typed_reply keyPrefix) misses_code (fun _ => True) _ _ _ _ _ _ w w' i _ refused _ Hw Hs Hi
    (fun _ => missing_refused _) Hr I).
  - intros now now' db Hle (? & ? & He). split; [done|]. split; [by eapply used_time|]. intros e Hke. by eapply alive_later, He.
  - intros now db v. apply code_gone_kept.
  - intros now db B c r' db' [Hi' _] Hp. by eapply typed_replies.
  - done.
  - intros now db B c r' db' (_ & _ & He) _ Hp. destruct c; try done. cbn. intros -> data.
    destruct Hp as [order _|order _|]; try done. cbn. unfold GET, look.
    destruct (db !! code_key) as [e|]; [|done]. by rewrite (He e eq_refl).
  - apply allowed_obey.
Qed.

(** C14. A used code stays used.  In every interleaving of the calls of any number of servers,
    with commands that fail, are lost, or find what they look for expired: once a call of
    [InvalidateAuthorizeCodeSession] has succeeded, a call of [GetAuthorizeCodeSession] that
    begins after it does not return the request as valid, except one that is in progress at
    the moment the mark expires. *)
Theorem redis_code_not_replayed t0 db0 w0 w1 w2 j i r :
  typed_sets keyPrefix db0 -> steps (mkWorld t0 db0 []) w0 ->
  w_threads w0 !! j = Some (serve keyPrefix (CInvalidateAuthorizeCodeSession code)) ->
  steps w0 w1 ->
  w_threads w1 !! j = Some (Ret (OError None)) ->
  w_threads w1 !! i = Some (serve keyPrefix (CGetAuthorizeCodeSession code)) ->
  steps w1 w2 ->
  w_threads w2 !! i = Some (Ret r) ->
  refused r \/
  exists v marked, w_db w1 !! marker_key = Some (mkEntry v (Some marked)) /\ (w_now w1 < marked <= w_now w2)%Z.
Proof using All.
  intros Hdb H01 Hj H12 Hj' Hi H23 Hr.
  pose proof (reached_sound _ _ _ _ _ Hdb H01) as Hw0. pose proof (invalidated_used _ _ _ Hw0 H12 Hj Hj') as Hu.
  assert (steps (mkWorld t0 db0 []) w1) as H02 by (by etrans). destruct (reached_sound _ _ _ _ _ Hdb H02) as [Ht Hth].
  pose proof Hu as (v & marked & Hm & Hb & Hk).
  destruct (decide (w_now w1 < marked)%Z) as [Hlt|Hge];
    [destruct (decide (w_now w2 < marked)%Z) as [Hlt2|Hge2]; [left|right; exists v, marked; split; [done|lia]]|left].
  - apply (refused_while_marked marked w1 w2 i); [|done..]. split; [|done]. split_and!; [done..|]. by exists v, marked.
  - apply (refused_when_gone w1 w2 i); [|done..]. split; [|done]. split_and!; [done..|].
    intros e He. destruct (Hk e He) as (d & Hd & Hle). unfold alive. rewrite Hd. apply Z.ltb_ge. lia.
Qed.
End codes.

(** ** Permanent clients *)
Section clients.
Context `{RedisClient, CJson}.
Context {Session : Type} `{Sessions Session, StorageJson}.
Context (keyPrefix data : string) (client : Client).
Context (encodes : Marshal (stored_of_client client) = Some data).
Context (decodes : Unmarshal data = Some (stored_of_client client)).
Context (unmarked : cl_DCRIssued client = false).

Definition client_key : string := redisKey keyPrefix KeyTypeClient (cl_ID client).

(** The client is not registered again, and no marked client of this name is renewed. *)
Definition client_unmarked (c : storage_call (Session := Session)) : Prop :=
  match c with
  | CRegisterClient other => cl_ID other <> cl_ID client
  | CRenewClientTTL (Some other) => cl_ID other = cl_ID client -> cl_DCRIssued other = false
  | _ => True
  end.

Abbreviation steps := (rtc (world_step (calls_allowed keyPrefix client_unmarked))).

Definition registered (db : database) : Prop := db !! client_key = Some (mkEntry (RString data) None).

(** The writes of these calls, and the one that registers the client. *)
Definition client_write (w : write) : Prop :=
  allowed_write keyPrefix client_unmarked w \/ w = WSet client_key data 0.

Lemma client_obeys p :
  calls_allowed keyPrefix client_unmarked p -> follows client_write (typed_reply keyPrefix) p (fun _ => True).
Proof using. intros Hp. eapply follows_weaken; [|by apply allowed_obey]. intros w. by left. Qed.

Lemma registered_kept now db w : registered db -> client_write w -> registered (apply_write now w db).
Proof using.
  clear decodes unmarked encodes. intros He [(c & Hc & Hw)| ->]; [|apply lookup_insert_eq]. unfold registered. rewrite frame; [done|].
  unfold client_key. destruct c; try (eapply other_head; [exact Hw|vm_compute; naive_solver|set_solver]).
  - split_issue Hw. subst w. cbn in *. intros E. key_eqs.
  - split_issue Hw. subst w. cbn in *. intros E. key_eqs. symmetry in E. specialize (Hc E). congruence.
Qed.

Lemma client_write_typed now db w : typed_sets keyPrefix db -> client_write w -> typed_sets keyPrefix (apply_write now w db).
Proof using encodes unmarked.
  intros Hdb [Hw| ->]; [by eapply allowed_typed|]. apply (typed_kept keyPrefix (CRegisterClient client)); [|done].
  cbn. exists data. by rewrite encodes, unmarked.
Qed.

(** ** The registration *)
Abbreviation register := (serve keyPrefix (CRegisterClient client)).

(** Where the call that registers the client is: about to write, or done, and then the
    client is stored if it has succeeded. *)
Definition registering (_ : Time) (db : database) (p : prog command (outcome (Session := Session))) : Prop :=
  match p with
  | Ret o => o = OError None -> registered db
  | Do c k =>
      match c in command B return (B -> prog command (outcome (Session := Session))) -> Prop with
      | Set_ key text ttl => fun k =>
          WSet key text ttl = WSet client_key data 0 /\ forall r, k r = Ret (OError (command_error r))
      | _ => fun _ => False
      end k
  end.

Lemma register_registering now db : registering now db register.
Proof using encodes unmarked. cbn. unfold redis_RegisterClient, with_data. rewrite encodes, unmarked. cbn. by split. Qed.

Lemma register_obeys : follows client_write (typed_reply keyPrefix) register (fun _ => True).
Proof using encodes unmarked.
  cbn. unfold redis_RegisterClient, with_data. rewrite encodes, unmarked. apply follows_do; [|done].
  intros w [= <-]. by right.
Qed.

Lemma registering_step now db B (c : command B) k r db' :
  registering now db (Do c k) -> performs now c db r db' -> registering now db' (k r).
Proof using.
  cbn. destruct c; try done. intros [[= -> -> ->] Hk] Hp. rewrite Hk. cbn. intros [= Hr].
  destruct Hp as [order _|order _|]; cbn in *; [apply lookup_insert_eq|done|done].
Qed.

Lemma client_sound v v' :
  sound client_write (fun _ => typed_sets keyPrefix) (typed_reply keyPrefix) v -> steps v v' ->
  sound client_write (fun _ => typed_sets keyPrefix) (typed_reply keyPrefix) v'.
Proof using encodes unmarked.
  apply sound_steps; [done|intros; by apply client_write_typed|intros; by eapply typed_replies|apply client_obeys].
Qed.

(** Once the call has succeeded, the client is stored without an expiry. *)
Lemma registration t0 db0 w0 w1 :
  typed_sets keyPrefix db0 -> steps (mkWorld t0 db0 []) w0 ->
  steps (mkWorld (w_now w0) (w_db w0) (w_threads w0 ++ [register])) w1 ->
  w_threads w1 !! length (w_threads w0) = Some (Ret (OError None)) ->
  sound client_write (fun _ db => typed_sets keyPrefix db /\ registered db) (typed_reply keyPrefix) w1.
Proof using encodes unmarked.
  intros Ht Hs0 Hs1 Hr.
  assert (sound client_write (fun _ => typed_sets keyPrefix) (typed_reply keyPrefix) w0) as Hw0.
  { by eapply client_sound; [|exact Hs0]. }
  assert (sound client_write (fun _ => typed_sets keyPrefix) (typed_reply keyPrefix)
    (mkWorld (w_now w0) (w_db w0) (w_threads w0 ++ [register]))) as Hw0'.
  { destruct Hw0 as [? Hf]. split; [done|]. apply Forall_app. split; [done|]. apply Forall_singleton, register_obeys. }
  destruct (client_sound _ _ Hw0' Hs1) as [Ht1 Hf1].
  split; [|done]. split; [done|].
  assert (registering (w_now w1) (w_db w1) (Ret (OError None))) as Hreg; [|by apply Hreg].
  refine (tracked _ client_write (fun _ => typed_sets keyPrefix) (typed_reply keyPrefix) _ _ _ _ registering
    _ w1 (length (w_threads w0)) register _ _ _ _ Hw0' Hs1 _ (register_registering _ _) Hr).
  - done.
  - intros; by apply client_write_typed.
  - intros; by eapply typed_replies.
  - apply client_obeys.
  - done.
  - intros now db w [o|B c k] _ Hw; cbn; [|done]. intros HT Ho. apply registered_kept; [by apply HT|done].
  - intros now db B c k r db' _ _. apply registering_step.
  - cbn. by rewrite lookup_app_r, Nat.sub_diag by lia.
Qed.

(** ** What is read of the client *)
Definition reads_client (B : Type) (c : command B) : B -> Prop :=
  match c in command B return B -> Prop with
  | Get key => fun r => key = client_key -> r = None \/ r = Some (Some data)
  | TTL key => fun r => key = client_key -> r = None \/ r = Some (-1)%Z
  | _ => fun _ => True
  end.

Definition same_client (o : outcome (Session := Session)) : Prop :=
  o = OClient (inl BackendFailure) \/ o = OClient (inr (clientFromStored (stored_of_client client) false)).

Lemma client_read good :
  follows good (fun B c r => typed_reply keyPrefix B c r /\ reads_client B c r) (serve keyPrefix (CGetClient (cl_ID client))) same_client.
Proof using decodes.
  apply follows_do; [done|]. intros r [_ Hr]. apply follows_do; [done|]. intros ttl [_ Httl]. apply follows_ret.
  destruct (Hr eq_refl) as [->| ->]; [by left|]. destruct (Httl eq_refl) as [->| ->]; [by left|].
  right. unfold decode. by rewrite decodes.
Qed.

(** C29. A permanent client stays.  Register a client without the marker of dynamic
    registration, while other calls are in progress, and let the call succeed.  From then on,
    in every interleaving of calls and whatever fails, the client is stored as it was and
    without an expiry, and every call of [GetClient] for it returns it unmarked, unless Redis
    fails.  The other calls are any but two: one that registers a client of the same
    identifier, and a renewal that is handed a marked client of that identifier, which
    [GetClient] never returns. *)
Theorem redis_permanent_client t0 db0 w0 w1 w w' i r :
  typed_sets keyPrefix db0 -> steps (mkWorld t0 db0 []) w0 ->
  steps (mkWorld (w_now w0) (w_db w0) (w_threads w0 ++ [serve keyPrefix (CRegisterClient client)])) w1 ->
  w_threads w1 !! length (w_threads w0) = Some (Ret (OError None)) ->
  steps w1 w -> w_threads w !! i = Some (serve keyPrefix (CGetClient (cl_ID client))) ->
  steps w w' -> w_threads w' !! i = Some (Ret r) ->
  w_db w' !! client_key = Some (mkEntry (RString data) None) /\ same_client r /\
  cl_DCRIssued (clientFromStored (stored_of_client client) false) = false.
Proof using encodes decodes unmarked.
  intros Ht Hs0 Hs1 Hj Hs Hi Hs' Hr. pose proof (registration _ _ _ _ Ht Hs0 Hs1 Hj) as Hw1.
  assert (forall now db B (c : command B) r db', typed_sets keyPrefix db /\ registered db -> performs now c db r db' ->
    typed_reply keyPrefix B c r) as Hrep by (intros ? ? ? ? ? ? [? _] ?; by eapply typed_replies).
  assert (forall (now : Time) db w, typed_sets keyPrefix db /\ registered db -> client_write w ->
    typed_sets keyPrefix (apply_write now w db) /\ registered (apply_write now w db)) as Hkept.
  { intros now db v [? ?] Hv. split; [by apply client_write_typed|by apply registered_kept]. }
  assert (sound client_write (fun _ db => typed_sets keyPrefix db /\ registered db) (typed_reply keyPrefix) w) as Hw
    by (by eapply sound_steps; [..|exact Hw1|exact Hs]; [|exact Hkept|exact Hrep|apply client_obeys]).
  split; [|split].
  - assert (sound client_write (fun _ db => typed_sets keyPrefix db /\ registered db) (typed_reply keyPrefix) w') as [[_ ?] _]; [|done].
    by eapply sound_steps; [..|exact Hw|exact Hs']; [|exact Hkept|exact Hrep|apply client_obeys].
  - refine (tracked_result (calls_allowed keyPrefix client_unmarked) client_write (fun _ db => typed_sets keyPrefix db /\ registered db)
      (typed_reply keyPrefix) reads_client (fun _ => True) _ _ _ _ _ _ w w' i _ same_client _ Hw Hs' Hi
      (fun _ => client_read _) Hr I); [done|exact Hkept|exact Hrep|done| |apply client_obeys].
    intros now db B c r' db' [_ Hk] _ Hp. unfold registered in Hk.
    destruct c; try done; cbn; intros ->; destruct Hp as [order _|order _|]; auto; right; cbn;
      unfold GET, remaining, look; by rewrite Hk.
  - unfold clientFromStored, stored_of_client. cbn. rewrite unmarked. case_decide; cbn; [by rewrite andb_false_r|done].
Qed.
End clients.

(** ** Executions *)
Section executions.
#[local] Existing Instances sample_client_library sample_cjson sample_sessions sample_json.

(** A code is given out, used, and presented again. *)
Definition code_given : world :=
  sample_play empty_world
    [Begin (CRegisterClient sample_client); Perform 0;
     Begin (CCreateAuthorizeCodeSession "code" (Some (sample_request "request1" "session")) 1%Z); Perform 1].

Definition code_in_use : world :=
  sample_play (mkWorld 1%Z (w_db code_given) []) [Begin (CInvalidateAuthorizeCodeSession "code")].

Definition code_used : world := sample_play code_in_use [Perform 0; Perform 0; Begin (CGetAuthorizeCodeSession "code")].

Definition code_presented : world := sample_play code_used [Perform 1; Perform 1; Perform 1; Perform 1].

Lemma redis_code_not_replayed_witness :
  exists r, w_threads code_presented !! 1 = Some (Ret r) /\
    (refused r \/ exists v marked, w_db code_used !! marker_key "" "code" = Some (mkEntry v (Some marked)) /\
                     (w_now code_used < marked <= w_now code_presented)%Z).
Proof.
  eexists. split; [vm_compute; reflexivity|].
  apply (@redis_code_not_replayed _ _ sample_client_ok string _ _ "" "code" 1%Z (w_db code_given)
           code_in_use code_used code_presented 0 1).
  - apply sample_typed.
  - unfold code_in_use. apply sample_steps. repeat constructor.
  - vm_compute. reflexivity.
  - unfold code_used. apply sample_steps. repeat constructor.
  - vm_compute. reflexivity.
  - vm_compute. reflexivity.
  - unfold code_presented. apply sample_steps. repeat constructor.
  - vm_compute. reflexivity.
Defined.

(** The mark and the code expire at the same moment, and the code is read first: a call that
    reads the code just before that moment looks for the mark after it. *)
Definition code_presented_late : world :=
  sample_play code_used
    [Tick (DefaultInvalidatedCodeTTL)%Z; Perform 1; Perform 1; Perform 1; Tick (1 + DefaultInvalidatedCodeTTL)%Z; Perform 1].

(** The exception is real: there is an execution without failures in which a code that has
    been used is returned as valid, by a call that began before the mark expired and ended
    after. *)
Theorem used_code_accepted_at_expiry :
  exists w0 w1 w2 request,
    rtc (world_step (calls_allowed "" (code_unique (Session := string) "code"))) (mkWorld 1%Z (w_db code_given) []) w0 /\
    w_threads w0 !! 0 = Some (serve "" (CInvalidateAuthorizeCodeSession "code")) /\
    rtc (world_step (calls_allowed "" (code_unique "code"))) w0 w1 /\
    w_threads w1 !! 0 = Some (Ret (OError None)) /\
    w_threads w1 !! 1 = Some (serve "" (CGetAuthorizeCodeSession "code")) /\
    rtc (world_step (calls_allowed "" (code_unique "code"))) w1 w2 /\
    w_threads w2 !! 1 = Some (Ret (ORequest (Some request, None))).
Proof.
  exists code_in_use, code_used, code_presented_late. eexists. split_and!.
  - unfold code_in_use. apply sample_steps. repeat constructor.
  - vm_compute. reflexivity.
  - unfold code_used. apply sample_steps. repeat constructor.
  - vm_compute. reflexivity.
  - vm_compute. reflexivity.
  - unfold code_presented_late. apply sample_steps. repeat constructor.
  - vm_compute. reflexivity.
Qed.

(** The client of the examples is permanent: it is registered while a code is looked up,
    and asked for much later. *)
Definition before_client : world := sample_play empty_world [Begin (CGetAuthorizeCodeSession "code")].
Definition client_stored : world :=
  sample_play (mkWorld (w_now before_client) (w_db before_client)
    (w_threads before_client ++ [serve "" (CRegisterClient sample_client)])) [Perform 0; Perform 1].
Definition client_asked : world := sample_play client_stored [Begin (CGetClient "client")].
Definition client_found : world := sample_play client_asked [Perform 2; Tick (2 * DefaultDCRClientTTL)%Z; Perform 2].

Lemma redis_permanent_client_witness :
  exists r, w_threads client_found !! 2 = Some (Ret r) /\
    (w_db client_found !! client_key "" sample_client = Some (mkEntry (RString "c") None) /\
     same_client sample_client r /\ cl_DCRIssued (clientFromStored (stored_of_client sample_client) false) = false).
Proof.
  eexists. split; [vm_compute; reflexivity|].
  apply (@redis_permanent_client _ _ string _ sample_json "" "c" sample_client ltac:(vm_compute; reflexivity)
           ltac:(vm_compute; reflexivity) ltac:(reflexivity) 1%Z ∅ before_client client_stored client_asked client_found 2).
  - apply (sample_typed []).
  - unfold before_client. apply sample_steps. repeat constructor.
  - unfold client_stored. apply sample_steps. repeat constructor.
  - vm_compute. reflexivity.
  - unfold client_asked. apply sample_steps. repeat constructor.
  - vm_compute. reflexivity.
  - unfold client_found. apply sample_steps. repeat constructor.
  - vm_compute. reflexivity.
Defined.
End executions.
