(* ===== verification/RedisRevocation.v ===== *)
(** * Revoking tokens in Redis ([pkg/authserver/storage/redis.go])

    Access and refresh tokens are found by their request through an index set, which has a
    time to live of its own.  While calls do not overlap, every token is in the index of its
    request until the last second of its life ([tokens_indexed]), and so a revocation leaves
    no token behind ([redis_revocation]).  A command that fails, or a token that is created at
    the same time, makes a revocation lose a token for good ([revocation_lost]); an execution
    at the end shows what tokens out of order do. *)

From Stdlib Require Import Ascii.
From S2P Require Import Prelude GoStrings Programs StorageTypes Redis RedisStorage RedisSystem RedisSample.

Section tokens.
Context `{RedisClient, CJson, !RedisClientOk}.
Context {Session : Type} `{Sessions Session, StorageJson}.
Context (keyPrefix : string).
Context (refresh : bool).                  (* refresh tokens, or access tokens *)
Context (requestID : string).

Definition token_type : string := if refresh then KeyTypeRefresh else KeyTypeAccess.
Definition reqid_type : string := if refresh then KeyTypeReqIDRefresh else KeyTypeReqIDAccess.
Definition token_key (signature : string) : string := redisKey keyPrefix token_type signature.
Definition reqid_key : string := redisSetKey keyPrefix reqid_type requestID.

Definition reads_as (data : string) (id : string) : Prop :=
  exists stored, Unmarshal (T := storedSession) data = Some stored /\ ss_RequestID stored = id.

(** A token of the request, with the time it expires at. *)
Definition token_of (now : Time) (db : database) (signature : string) (deadline : option Time) : Prop :=
  exists data, look now db (token_key signature) = Some (mkEntry (RString data) deadline) /\ reads_as data requestID.

(** In the last second of its life. *)
Definition dying (now : Time) (deadline : option Time) : Prop :=
  exists d, deadline = Some d /\ (d < now + time.Second)%Z.

Definition in_index (now : Time) (db : database) (signature : string) (deadline : option Time) : Prop :=
  exists members until, look now db reqid_key = Some (mkEntry (RSet members) until) /\ signature ∈ members /\
    match until with
    | None => True
    | Some until => exists d, deadline = Some d /\ (d < until + time.Second)%Z
    end.

Definition indexed (now : Time) (db : database) : Prop :=
  forall signature deadline, token_of now db signature deadline -> dying now deadline \/ in_index now db signature deadline.

(** ** What leaves the index right *)
Lemma token_earlier now now' db signature deadline :
  (now <= now')%Z -> token_of now' db signature deadline -> token_of now db signature deadline.
Proof. intros Hle (data & Hl & Hr). exists data. split; [by eapply look_earlier|done]. Qed.

Lemma indexed_time now now' db : (now <= now')%Z -> indexed now db -> indexed now' db.
Proof.
  intros Hle Hi signature deadline Ht. destruct (Hi signature deadline) as [(d & -> & Hd)|Hin].
  - by eapply token_earlier.
  - left. exists d. split; [done|lia].
  - destruct Hin as (members & until & Hl & Hm & Hu). unfold look in Hl. unfold in_index, look.
    destruct (db !! reqid_key) as [e|] eqn:E; [|done]. destruct (alive now e); [|done]. injection Hl as ->.
    destruct until as [until|]; cbn; [|right; by exists members, None].
    destruct (Z.ltb_spec now' until) as [Hlt|Hge]; [right; by exists members, (Some until)|left].
    destruct Hu as (d & -> & Hd). exists d. split; [done|lia].
Qed.

(** Tokens went away and the index is as it was. *)
Lemma indexed_fewer now db db' :
  db' !! reqid_key = db !! reqid_key ->
  (forall signature deadline, token_of now db' signature deadline -> token_of now db signature deadline) ->
  indexed now db -> indexed now db'.
Proof.
  intros Hx Ht Hi signature deadline Hs. destruct (Hi _ _ (Ht _ _ Hs)) as [Hd|Hin]; [by left|right].
  unfold in_index, look in *. by rewrite Hx.
Qed.

Lemma token_same now (db db' : database) signature deadline :
  db' !! token_key signature = db !! token_key signature ->
  token_of now db' signature deadline -> token_of now db signature deadline.
Proof. intros E (data & Hl & Hr). exists data. split; [|done]. unfold look in *. by rewrite <- E. Qed.

Lemma token_not_reqid signature id : token_key signature <> redisSetKey keyPrefix reqid_type id.
Proof. unfold token_key, token_type, reqid_type. intros E. destruct refresh; key_eqs. Qed.

Lemma token_key_inj s s' : token_key s = token_key s' -> s = s'.
Proof. unfold token_key, token_type. intros E. destruct refresh; key_eqs; done. Qed.

Lemma indexed_del_token now db signature : indexed now db -> indexed now (delete (token_key signature) db).
Proof.
  apply indexed_fewer.
  - rewrite lookup_delete_ne; [done|]. apply token_not_reqid.
  - intros s d. destruct (decide (s = signature)) as [->|Hne].
    + intros (data & Hl & _). unfold look in Hl. by rewrite lookup_delete_eq in Hl.
    + apply token_same. rewrite lookup_delete_ne; [done|]. intros E%token_key_inj. congruence.
Qed.

(** Nothing but a set is ever stored under the index. *)
Definition index_is_set (db : database) : Prop := forall data d, db !! reqid_key <> Some (mkEntry (RString data) d).

Definition index_ok (now : Time) (db : database) : Prop := indexed now db /\ index_is_set db.

Lemma index_ok_time now now' db : (now <= now')%Z -> index_ok now db -> index_ok now' db.
Proof. intros Hle [Hi Hs]. split; [by eapply indexed_time|done]. Qed.

(** ** Calls that do not deal with these tokens *)
Definition plain (c : storage_call (Session := Session)) : Prop :=
  match c with
  | CCreateAccessTokenSession _ _ _ | CDeleteAccessTokenSession _ | CRevokeAccessToken _ => refresh = true
  | CCreateRefreshTokenSession _ _ _ | CDeleteRefreshTokenSession _ | CRevokeRefreshToken _ => refresh = false
  | CRotateRefreshToken _ _ => False
  | _ => True
  end.

Lemma plain_untouched c w :
  plain c -> issues keyPrefix c w -> (forall signature, ~ touches w (token_key signature)) /\ ~ touches w reqid_key.
Proof.
  intros Hc Hw. unfold reqid_key, reqid_type, token_key, token_type. destruct c; cbn in Hc;
    try (destruct refresh; rewrite ?reqid_access_key, ?reqid_refresh_key; (split; [intros signature|]);
         (eapply other_head; [exact Hw|vm_compute; naive_solver|set_solver])).
  all: destruct refresh; try done.
  all: split_issue Hw; try (destruct Hw as (? & _ & Hw); cbv zeta in Hw); subst w; cbn; (split; [intros signature'|]);
    rewrite ?elem_of_cons, ?elem_of_nil; intros E; destruct_or? E; try done; key_eqs.
Qed.

Lemma index_ok_plain now db c w : plain c -> issues keyPrefix c w -> index_ok now db -> index_ok now (apply_write now w db).
Proof.
  intros Hc Hw [Hi Hs]. destruct (plain_untouched c w Hc Hw) as [Ht Hx]. split.
  - eapply indexed_fewer; [by apply frame| |done]. intros s d. by apply token_same, frame.
  - intros data d. rewrite frame by done. apply Hs.
Qed.

(** ** Creating a token *)
Lemma created now db key idx signature data ttl :
  key <> idx -> index_is_set db -> idx = reqid_key ->
  let db' := apply_write now (WTx [TxSet key data ttl; TxSAdd idx signature; TxExpire idx ttl]) db in
  db' !! key = Some (mkEntry (RString data) (if (ttl =? 0)%Z then None else Some (now + set_for ttl)%Z)) /\
  exists members, db' !! idx = Some (mkEntry (RSet members) (Some (now + expire_for ttl)%Z)) /\ signature ∈ members /\
    forall old until, look now db idx = Some (mkEntry (RSet old) until) -> old ⊆ members.
Proof.
  intros Hne Hs ->. cbn [apply_write MULTI exec_tx]. unfold SET, set_string, SADD, EXPIRE, set_deadline, ebind, eret, lifetime, time.Add.
  cbn [fst snd]. assert (look now (<[key := mkEntry (RString data) (if (ttl =? 0)%Z then None else Some (now + set_for ttl)%Z)]> db) reqid_key
                         = look now db reqid_key) as El by (unfold look; by rewrite lookup_insert_ne).
  rewrite El. destruct (look now db reqid_key) as [[[text|members] until]|] eqn:E; cbn.
  - exfalso. apply look_entry in E. by eapply Hs.
  - pose proof (look_alive _ _ _ _ E) as Ha. unfold look. rewrite lookup_insert_eq. unfold alive in *. cbn in *. rewrite Ha. cbn.
    rewrite lookup_insert_eq, !lookup_insert_ne, lookup_insert_eq by done. split; [done|].
    eexists. split; [done|]. split; [set_solver|]. intros old ? [= <- _]. set_solver.
  - unfold look. rewrite lookup_insert_eq. cbn.
    rewrite lookup_insert_eq, !lookup_insert_ne, lookup_insert_eq by done. split; [done|].
    eexists. split; [done|]. split; [set_solver|]. done.
Qed.

Lemma MULTI_cons now c cmds db : (MULTI now (c :: cmds) db).2 = (MULTI now cmds (exec_tx now c db).2).2.
Proof. cbn. destruct (exec_tx now c db) as [r db']. cbn. by destruct (MULTI now cmds db'). Qed.

Lemma created_token now db key idx signature data ttl :
  key <> idx ->
  apply_write now (WTx [TxSet key data ttl; TxSAdd idx signature; TxExpire idx ttl]) db !! key =
    Some (mkEntry (RString data) (if (ttl =? 0)%Z then None else Some (now + set_for ttl)%Z)).
Proof.
  intros Hne. cbn [apply_write]. rewrite MULTI_cons.
  rewrite (frames_MULTI now key [TxSAdd idx signature; TxExpire idx ttl]) by (cbn; rewrite !elem_of_cons, elem_of_nil; naive_solver).
  apply lookup_insert_eq.
Qed.

Definition create_write (id signature data : string) (ttl : Duration) : write :=
  let idx := redisSetKey keyPrefix reqid_type id in
  WTx [TxSet (token_key signature) data ttl; TxSAdd idx signature; TxExpire idx ttl].

(** A token of another request. *)
Lemma index_ok_other now db id signature data ttl :
  id <> requestID -> ~ reads_as data requestID -> index_ok now db -> index_ok now (apply_write now (create_write id signature data ttl) db).
Proof.
  intros Hid Hr [Hi Hs]. assert (reqid_key <> redisSetKey keyPrefix reqid_type id) as Hne.
  { unfold reqid_key, reqid_type. intros E. destruct refresh; key_eqs. }
  assert (forall key, key <> redisSetKey keyPrefix reqid_type id -> key <> token_key signature ->
            apply_write now (create_write id signature data ttl) db !! key = db !! key) as Hf.
  { intros key Hk Hk'. apply frame. cbn. rewrite !elem_of_cons, elem_of_nil. naive_solver. }
  assert (reqid_key <> token_key signature) as Hnt by (intros E; by eapply token_not_reqid).
  split; [|intros text d; rewrite Hf by done; apply Hs].
  eapply indexed_fewer; [by apply Hf| |done]. intros s d. destruct (decide (s = signature)) as [->|Hsig].
  - intros (data' & Hl & Hr'). apply look_entry in Hl. unfold create_write in Hl.
    rewrite created_token in Hl by apply token_not_reqid. by simplify_eq.
  - apply token_same, Hf; [apply token_not_reqid|]. intros E%token_key_inj. congruence.
Qed.

Lemma milli_second : (Millisecond < time.Second)%Z.
Proof. done. Qed.

(** A token of the request, which does not expire before the others. *)
Lemma index_ok_create now db signature data ttl :
  (0 < ttl)%Z ->
  (forall s deadline, token_of now db s deadline -> exists d, deadline = Some d /\ (d <= now + ttl)%Z) ->
  index_ok now db -> index_ok now (apply_write now (create_write requestID signature data ttl) db).
Proof using All.
  intros Httl Hord [Hi Hs]. pose proof (token_not_reqid signature requestID) as Hne.
  destruct (created now db (token_key signature) reqid_key signature data ttl Hne Hs eq_refl) as (Ht & members & Hx & Hm & Hold).
  change (redisSetKey keyPrefix reqid_type requestID) with reqid_key in Hne.
  assert (forall s, s <> signature ->
            apply_write now (create_write requestID signature data ttl) db !! token_key s = db !! token_key s) as Hf.
  { intros s Hs'. apply frame. cbn. rewrite !elem_of_cons, elem_of_nil.
    intros [E%token_key_inj|[E|[E|[]]]]; [done|by eapply token_not_reqid..]. }
  unfold create_write in *. fold reqid_key in Hf |- *. set (db' := apply_write now _ db) in *. clearbody db'.
  assert (forall d, (d <= now + ttl)%Z -> forall s, s ∈ members -> dying now (Some d) \/ in_index now db' s (Some d)) as Hnew.
  { intros d Hd s Hsm. pose proof (expire_for_bound ttl Httl). destruct (decide (now < now + expire_for ttl)%Z) as [Hlt|Hge].
    - right. exists members, (Some (now + expire_for ttl)%Z). unfold look. rewrite Hx. unfold alive. cbn.
      rewrite (proj2 (Z.ltb_lt _ _)) by done. split_and!; [done..|]. exists d. split; [done|lia].
    - left. exists d. split; [done|lia]. }
  split; [|intros text d; congruence]. intros s deadline Htok. destruct (decide (s = signature)) as [->|Hsig].
  - destruct Htok as (data' & Hl%look_entry & _). rewrite Ht, (proj2 (Z.eqb_neq ttl 0)) in Hl by lia. simplify_eq.
    pose proof (set_for_bound ttl Httl). pose proof milli_second.
    destruct (decide (ttl < Millisecond)%Z); [left; eexists; split; [done|lia]|]. apply Hnew; [lia|done].
  - apply (token_same now db db') in Htok; [|by apply Hf]. destruct (Hord _ _ Htok) as (d & -> & Hd).
    destruct (Hi _ _ Htok) as [Hdy|(old & until & Hl & Hin & _)]; [by left|]. apply Hnew; [done|]. by eapply Hold.
Qed.

(** ** Removing tokens *)
Lemma index_ok_del now db signature : index_ok now db -> index_ok now (delete (token_key signature) db).
Proof.
  intros [Hi Hs]. split; [by apply indexed_del_token|]. intros data d. rewrite lookup_delete_ne; [apply Hs|].
  apply token_not_reqid.
Qed.

Lemma index_ok_rem now db id signature :
  (forall d, ~ token_of now db signature d) -> index_ok now db ->
  index_ok now (SREM now (redisSetKey keyPrefix reqid_type id) signature db).2.
Proof.
  intros Hno [Hi Hs].
  assert (forall s, (SREM now (redisSetKey keyPrefix reqid_type id) signature db).2 !! token_key s = db !! token_key s) as Ht
    by (intros s; apply frames_SREM, token_not_reqid).
  destruct (decide (id = requestID)) as [->|Hid].
  - fold reqid_key in *. unfold SREM in *. destruct (look now db reqid_key) as [[[text|members] until]|] eqn:E; cbn in *; try done.
    split.
    + intros s d Hsd. apply (token_same now db) in Hsd; [|apply Ht]. destruct (Hi s d Hsd) as [Hd|(ms & u & Hl & Hin & Hu)]; [by left|right].
      assert (s <> signature) as Hne by (intros ->; by eapply Hno). simplify_eq.
      exists (members ∖ {[signature]}), until. rewrite decide_False by set_solver. split; [|set_solver].
      pose proof (look_alive _ _ _ _ E) as Ha. unfold look. rewrite lookup_insert_eq. unfold alive in *. cbn in *. by rewrite Ha.
    + intros text d. case_decide; [by rewrite lookup_delete_eq|by rewrite lookup_insert_eq].
  - assert (reqid_key <> redisSetKey keyPrefix reqid_type id) as Hne.
    { unfold reqid_key, reqid_type. intros E. destruct refresh; key_eqs. }
    split; [|intros text d; rewrite frames_SREM by done; apply Hs].
    eapply indexed_fewer; [by apply frames_SREM| |done]. intros s d. apply token_same, Ht.
Qed.

Lemma alone_delete_indexed keyType idx l now db a now' db' :
  alone (delete_indexed keyPrefix keyType idx l) now db a now' db' ->
  (now <= now')%Z /\
  forall key, db' !! key = if decide (key = idx \/ key ∈ redisKey keyPrefix keyType <$> l) then None else db !! key.
Proof.
  intros (u & t & db1 & He & Hd)%alone_seq. apply alone_del_each in He as [Hle Hk].
  destruct Hd as (t1 & order & Hle1 & _ & _ & Hle2 & ->). split; [lia|]. intros key. cbn.
  destruct (decide (key = idx)) as [->|Hne].
  - rewrite lookup_delete_eq. by rewrite decide_True by (by left).
  - rewrite lookup_delete_ne, Hk by done. repeat case_decide; naive_solver.
Qed.

(** The tokens that the index lists are deleted with it. *)
Lemma alone_revoke now db signatures order now1 now' db' a :
  index_ok now db -> (now <= now1)%Z -> (forall members, order members ≡ₚ elements members) ->
  (SMEMBERS order now1 reqid_key db).1 = Some signatures ->
  alone (delete_indexed keyPrefix token_type reqid_key signatures) now1 db a now' db' ->
  index_ok now' db' /\ forall s d, token_of now' db' s d -> dying now' d.
Proof.
  intros Hok Hle Ho Hm Ha. apply alone_delete_indexed in Ha as [Hle' Hk].
  apply (index_ok_time now now1) in Hok as [Hi Hs]; [|done].
  assert (forall s d, token_of now' db' s d -> dying now' d) as Hdy.
  { intros s d (data & Hl & Hr). assert (s ∉ signatures) as Hns.
    { intros Hin. apply look_entry in Hl. rewrite Hk, decide_True in Hl; [done|]. right. apply list_elem_of_fmap. eauto. }
    destruct (Hi s d) as [(d' & -> & Hd')|(ms & u & Hx & Hin & _)].
    - exists data. split; [|done]. eapply look_earlier; [exact Hle'|]. unfold look in *. rewrite Hk in Hl. by case_decide.
    - exists d'. split; [done|lia].
    - exfalso. apply Hns. unfold SMEMBERS in Hm. rewrite Hx in Hm. injection Hm as <-. rewrite (Ho ms). by apply elem_of_elements. }
  split; [|done]. split; [intros s d Ht; left; by eapply Hdy|]. intros data d. rewrite Hk, decide_True by (by left). done.
Qed.

Lemma index_ok_fewer now (db db' : database) :
  (forall s, db' !! token_key s = None \/ db' !! token_key s = db !! token_key s) ->
  db' !! reqid_key = db !! reqid_key -> index_ok now db -> index_ok now db'.
Proof.
  intros Ht Hx [Hi Hs]. split; [|intros data d; rewrite Hx; apply Hs]. eapply indexed_fewer; [done| |done].
  intros s d Htok. destruct (Ht s) as [E|E]; [|by eapply token_same].
  destruct Htok as (data & Hl%look_entry & _). congruence.
Qed.

Lemma reqid_key_inj id : reqid_key = redisSetKey keyPrefix reqid_type id -> id = requestID.
Proof. unfold reqid_key, reqid_type. intros E. destruct refresh; key_eqs; done. Qed.

(** ** Calls on their own *)

(** A token reads back with the identifier of its request, and the tokens of the request are
    created in the order they expire in. *)
Definition in_order (now : Time) (db : database) (request : Request) (ttl : Duration) : Prop :=
  (forall data id, marshalRequester request = Some data -> reads_as data id -> id = rq_ID request) /\
  (rq_ID request = requestID ->
   forall s deadline, token_of now db s deadline -> exists d, deadline = Some d /\ (d <= now + ttl)%Z).

Definition tokens_in_order (now : Time) (db : database) (c : storage_call (Session := Session)) : Prop :=
  match c with
  | CCreateAccessTokenSession _ (Some request) t =>
      refresh = false -> in_order now db request (getTTLFromRequester request AccessToken DefaultAccessTokenTTL t)
  | CCreateRefreshTokenSession _ (Some request) t =>
      refresh = true -> in_order now db request (getTTLFromRequester request RefreshToken DefaultRefreshTokenTTL t)
  | _ => True
  end.

Lemma ttl_positive request tokenType defaultTTL now :
  (0 < defaultTTL)%Z -> (0 < getTTLFromRequester request tokenType defaultTTL now)%Z.
Proof.
  intros Hd. unfold getTTLFromRequester. destruct (rq_Session request); [|done]. case_match; [done|]. cbn zeta.
  destruct (Z.leb_spec (time.Sub (session_GetExpiresAt s tokenType) now) 0); lia.
Qed.

Lemma alone_create now db signature hint request k ttl a now' db' :
  (forall rq data, k rq data = create_token keyPrefix token_type reqid_type signature rq data (ttl rq)) ->
  (forall rq, 0 < ttl rq)%Z ->
  (forall rq, request = Some rq -> in_order now db rq (ttl rq)) ->
  index_ok now db -> alone (with_request signature hint request k) now db a now' db' -> index_ok now' db'.
Proof using All.
  intros Hk Httl Hord Hok. unfold with_request. case_decide; [intros (_ & Hle & ->); by eapply index_ok_time|].
  destruct request as [rq|]; [|intros (_ & Hle & ->); by eapply index_ok_time].
  destruct (marshalRequester rq) as [data|] eqn:Em; [|intros (_ & Hle & ->); by eapply index_ok_time].
  rewrite Hk. intros (t & order & Hle & _ & _ & Hle' & ->). eapply index_ok_time; [exact Hle'|].
  rewrite exec_writes. cbn [written]. destruct (Hord rq eq_refl) as [Hread Hexp].
  apply (index_ok_time now t) in Hok; [|done].
  destruct (decide (rq_ID rq = requestID)) as [E|Hne].
  - rewrite E. apply index_ok_create; [done| |done]. intros s d Htok.
    destruct (Hexp E s d) as (d' & -> & Hd); [by eapply token_earlier|]. exists d'. split; [done|lia].
  - apply (index_ok_other t db (rq_ID rq) signature data (ttl rq)); [done| |done]. intros Hr. apply Hne. symmetry. by eapply Hread.
Qed.

Lemma alone_get_data key hint now db r now' db' :
  alone (get_data key hint) now db r now' db' -> (now <= now')%Z /\ db' = db.
Proof.
  intros (t & order & Hle & _ & _ & Hle' & ->). split; [lia|]. by rewrite exec_writes.
Qed.

Lemma alone_delete_token now db hint signature a now' db' :
  index_ok now db -> alone (delete_token keyPrefix token_type reqid_type hint signature) now db a now' db' -> index_ok now' db'.
Proof.
  intros Hok (r & t & db1 & Hg & Hd)%alone_seq. apply alone_get_data in Hg as [Hle ->].
  apply (index_ok_time now t) in Hok; [|done].
  destruct r as [e|data]; [destruct Hd as (_ & Hle' & ->); by eapply index_ok_time|].
  destruct Hd as (t1 & order & Hle1 & _ & Hd). rewrite exec_writes in Hd. cbn in Hd.
  apply (index_ok_time t t1), (index_ok_del _ _ signature) in Hok; [|done].
  destruct (Unmarshal data) as [stored|]; [|destruct Hd as (_ & Hle' & ->); by eapply index_ok_time].
  case_decide; [destruct Hd as (_ & Hle' & ->); by eapply index_ok_time|].
  destruct Hd as (t2 & order2 & Hle2 & _ & _ & Hle' & ->). rewrite exec_writes.
  eapply index_ok_time; [exact Hle'|]. apply index_ok_rem; [|by eapply index_ok_time].
  intros d (data' & Hl%look_entry & _). by rewrite lookup_delete_eq in Hl.
Qed.

Lemma alone_revoke_any now db id l now' db' a order t :
  index_ok now db -> (now <= t)%Z -> (forall members, order members ≡ₚ elements members) ->
  (SMEMBERS order t (redisSetKey keyPrefix reqid_type id) db).1 = Some l ->
  alone (delete_indexed keyPrefix token_type (redisSetKey keyPrefix reqid_type id) l) t db a now' db' -> index_ok now' db'.
Proof.
  intros Hok Hle Ho Hm Ha. destruct (decide (id = requestID)) as [->|Hne]; [by eapply alone_revoke|].
  apply alone_delete_indexed in Ha as [Hle' Hk]. eapply index_ok_fewer; [| |eapply index_ok_time; [|exact Hok]; lia].
  - intros s. rewrite Hk. case_decide; [by left|by right].
  - rewrite Hk, decide_False; [done|]. intros [E%reqid_key_inj|Hin]; [done|].
    apply list_elem_of_fmap in Hin as (s & E & _). by eapply token_not_reqid.
Qed.

Lemma alone_rotate now db id signature a now' db' :
  index_ok now db -> alone (redis_RotateRefreshToken keyPrefix id signature) now db a now' db' -> index_ok now' db'.
Proof.
  intros Hok (t1 & o1 & Hle1 & _ & t2 & o2 & Hle2 & _ & t3 & o3 & Hle3 & Ho3 & Hr).
  rewrite !exec_writes in Hr. cbn [written apply_write] in Hr.
  set (db1 := (DEL t1 [redisKey keyPrefix KeyTypeRefresh signature] db).2) in *.
  set (db2 := (SREM t2 (redisSetKey keyPrefix KeyTypeReqIDRefresh id) signature db1).2) in *.
  assert (index_ok t3 db2) as Hok2.
  { apply (index_ok_time t2); [done|]. unfold token_key, token_type, reqid_type in *. destruct refresh eqn:Er.
    - apply (index_ok_time now t1), (index_ok_del _ _ signature), (index_ok_time t1 t2) in Hok; [|lia..].
      unfold token_key, token_type in Hok. rewrite Er in Hok.
      pose proof (index_ok_rem t2 db1 id signature) as Hrem. unfold reqid_type in Hrem. rewrite Er in Hrem. apply Hrem; [|done].
      intros d (data & Hl%look_entry & _). unfold token_key, token_type in Hl. rewrite Er in Hl. unfold db1 in Hl. cbn in Hl. by rewrite lookup_delete_eq in Hl.
    - apply (index_ok_time now t2) in Hok; [|lia]. eapply index_ok_fewer; [| |exact Hok].
      + intros s. right. unfold db2, token_key, token_type. rewrite Er. rewrite frames_SREM by (intros E; key_eqs).
        cbn. rewrite lookup_delete_ne; [done|]. intros E. key_eqs.
      + unfold db2, reqid_key, reqid_type. rewrite Er. rewrite frames_SREM by (intros E; key_eqs).
        cbn. rewrite lookup_delete_ne; [done|]. intros E. key_eqs. }
  clearbody db2. clear db1 Hok.
  destruct (exec o3 t3 (SMembers (redisSetKey keyPrefix KeyTypeReqIDAccess id)) db2).1 as [l|] eqn:El;
    [|destruct Hr as (_ & Hle' & ->); by eapply index_ok_time].
  apply alone_seq in Hr as (u & t4 & db4 & Hd & _ & Hle' & ->). eapply index_ok_time; [exact Hle'|].
  destruct refresh eqn:Er.
  - apply alone_delete_indexed in Hd as [Hle4 Hk]. eapply index_ok_fewer; [| |eapply index_ok_time; [|exact Hok2]; lia].
    + intros s. rewrite Hk. case_decide; [by left|by right].
    + unfold reqid_key, reqid_type. rewrite Er, Hk, decide_False; [done|].
      intros [E|(s & E & _)%list_elem_of_fmap]; key_eqs.
  - apply (alone_revoke_any t3 db2 id l t4 db4 u o3 t3); [done|lia|done|..]; unfold reqid_type, token_type; rewrite Er; done.
Qed.

Lemma alone_revoke_call now db id a now' db' :
  index_ok now db -> alone (revoke keyPrefix token_type reqid_type id) now db a now' db' -> index_ok now' db'.
Proof.
  intros Hok (t & order & Hle & Ho & Hr). rewrite exec_writes in Hr. cbn [written] in Hr.
  destruct (exec order t (SMembers (redisSetKey keyPrefix reqid_type id)) db).1 as [l|] eqn:El;
    [|destruct Hr as (_ & Hle' & ->); eapply index_ok_time; [|exact Hok]; lia].
  apply alone_seq in Hr as (u & t1 & db1 & Hd & _ & Hle' & ->). eapply index_ok_time; [exact Hle'|].
  by apply (alone_revoke_any now db id l t1 db1 u order t).
Qed.

Lemma index_ok_call now db c a now' db' :
  typed_sets keyPrefix db -> tokens_in_order now db c -> index_ok now db -> alone (serve keyPrefix c) now db a now' db' ->
  index_ok now' db'.
Proof using All.
  intros Htyped Hord Hok Ha.
  assert (plain c -> index_ok now' db') as Hplain.
  { intros Hp. eapply (alone_keeps (serve keyPrefix c) (issues keyPrefix c)
      (fun now db => typed_sets keyPrefix db /\ index_ok now db) (typed_reply keyPrefix)); [| | | |done|exact Ha].
    - intros t t' db1 Hle [? ?]. split; [done|by eapply index_ok_time].
    - intros t db1 w [? ?] Hw. split; [by eapply typed_kept|by eapply index_ok_plain].
    - intros t db1 B cm r db2 [? _] Hr. by eapply typed_replies.
    - apply calls_issue. }
  destruct c; try (by apply Hplain); destruct refresh eqn:Er; try (by apply Hplain);
    apply alone_seq in Ha as (r & t & db1 & Ha & _ & Hle & ->); (eapply index_ok_time; [exact Hle|]); clear Hplain Hle.
  - eapply (alone_create now db signature) with (ttl := fun rq => getTTLFromRequester rq AccessToken DefaultAccessTokenTTL now0); [| | |exact Hok|exact Ha].
    + intros rq data. unfold token_type, reqid_type. by rewrite Er.
    + intros rq. by apply ttl_positive.
    + intros rq ->. by apply Hord.
  - eapply alone_delete_token; [exact Hok|]. unfold token_type, reqid_type. rewrite Er. exact Ha.
  - eapply (alone_create now db signature) with (ttl := fun rq => getTTLFromRequester rq RefreshToken DefaultRefreshTokenTTL now0); [| | |exact Hok|exact Ha].
    + intros rq data. unfold token_type, reqid_type. by rewrite Er.
    + intros rq. by apply ttl_positive.
    + intros rq ->. by apply Hord.
  - eapply alone_delete_token; [exact Hok|]. unfold token_type, reqid_type. rewrite Er. exact Ha.
  - by eapply alone_rotate.
  - by eapply alone_rotate.
  - eapply alone_revoke_call; [exact Hok|]. unfold token_type, reqid_type. rewrite Er. exact Ha.
  - eapply alone_revoke_call; [exact Hok|]. unfold token_type, reqid_type. rewrite Er. exact Ha.
Qed.

(** ** Calls one after the other *)
Inductive quiet_step : Time * database -> Time * database -> Prop :=
  | quiet_call now db c a now' db' :
      tokens_in_order now db c -> alone (serve keyPrefix c) now db a now' db' -> quiet_step (now, db) (now', db').

Lemma typed_call now db c a now' db' :
  typed_sets keyPrefix db -> alone (serve keyPrefix c) now db a now' db' -> typed_sets keyPrefix db'.
Proof.
  intros Ht Ha. eapply (alone_keeps (serve keyPrefix c) (issues keyPrefix c) (fun _ => typed_sets keyPrefix)
                         (typed_reply keyPrefix)); [| | |apply calls_issue|exact Ht|exact Ha].
  - done.
  - intros t db1 w Hdb Hw. by eapply typed_kept.
  - intros t db1 B cm r db2 Hdb Hr. by eapply typed_replies.
Qed.

Definition quiet_ok (st : Time * database) : Prop := typed_sets keyPrefix st.2 /\ index_ok st.1 st.2.

Lemma quiet_kept st st' : quiet_step st st' -> quiet_ok st -> quiet_ok st'.
Proof using All.
  intros [now db c a now' db' Hord Ha] [Ht Hok]. cbn in *. split; [by eapply typed_call|by eapply index_ok_call].
Qed.

Lemma quiet_empty now : quiet_ok (now, ∅).
Proof. split; [by intros key e|]. split; [by intros s d (data & Hl & _)|done]. Qed.

(** While calls do not overlap, every token is in the index of its request until the last
    second of its life. *)
Lemma tokens_indexed now st : rtc quiet_step (now, ∅) st -> quiet_ok st.
Proof using All. intros Hs. pose proof (quiet_empty now) as Hq. induction Hs; eauto using quiet_kept. Qed.

(** ** After the revocation *)

(** The call does not create a token of the request. *)
Definition not_for_request (c : storage_call (Session := Session)) : Prop :=
  match c with
  | CCreateAccessTokenSession _ (Some request) _ | CCreateRefreshTokenSession _ (Some request) _ =>
      forall data, marshalRequester request = Some data -> ~ reads_as data requestID
  | _ => True
  end.

Lemma token_deleted now (db : database) key signature deadline :
  token_of now (foldr delete db [key]) signature deadline -> token_of now db signature deadline.
Proof.
  cbn. destruct (decide (key = token_key signature)) as [->|Hne].
  - intros (data & Hl%look_entry & _). by rewrite lookup_delete_eq in Hl.
  - apply token_same. by rewrite lookup_delete_ne.
Qed.

Lemma token_created now db id signature data ttl s deadline :
  ~ reads_as data requestID ->
  token_of now (apply_write now (create_write id signature data ttl) db) s deadline -> token_of now db s deadline.
Proof.
  intros Hr. destruct (decide (s = signature)) as [->|Hne].
  - intros (data' & Hl%look_entry & Hr'). unfold create_write in Hl. rewrite created_token in Hl by apply token_not_reqid.
    by simplify_eq.
  - apply token_same, frame. cbn. rewrite !elem_of_cons, elem_of_nil.
    intros [E%token_key_inj|[E|[E|[]]]]; [done|by eapply token_not_reqid..].
Qed.

Lemma no_new_tokens now db c w s deadline :
  not_for_request c -> issues keyPrefix c w ->
  token_of now (apply_write now w db) s deadline -> token_of now db s deadline.
Proof.
  intros Hc Hw. assert (plain c -> token_of now (apply_write now w db) s deadline -> token_of now db s deadline) as Hplain.
  { intros Hp. destruct (plain_untouched c w Hp Hw) as [Ht _]. by apply token_same, frame. }
  assert (forall key, ~ touches w key -> key = token_key s -> token_of now (apply_write now w db) s deadline -> token_of now db s deadline)
    as Hframe by (intros key Hk ->; by apply token_same, frame).
  assert (forall key, w = WDel [key] -> token_of now (apply_write now w db) s deadline -> token_of now db s deadline) as Hdel
    by (intros key ->; apply token_deleted).
  destruct c; try (by apply Hplain); destruct refresh eqn:Er; try (by apply Hplain); split_issue Hw; try (by eapply Hdel).
  all: try (eapply Hframe; [|reflexivity]; subst w; cbn; unfold token_key, token_type; rewrite Er; intros E; key_eqs; fail).
  all: destruct Hw as (data & Hm & ->); cbv zeta; intros Htok;
    eapply (token_created now db (rq_ID r) signature data); [by apply Hc|];
    unfold create_write, token_key, token_type, reqid_type; rewrite Er; exact Htok.
Qed.

Definition revoke_call : storage_call (Session := Session) :=
  if refresh then CRevokeRefreshToken requestID else CRevokeAccessToken requestID.

Definition get_token_call (signature : string) : storage_call (Session := Session) :=
  if refresh then CGetRefreshTokenSession signature else CGetAccessTokenSession signature.

Lemma revoked_dying now db a now' db' :
  index_ok now db -> alone (serve keyPrefix revoke_call) now db a now' db' ->
  forall s d, token_of now' db' s d -> dying now' d.
Proof.
  intros Hok Ha. assert (alone (pmap OError (revoke keyPrefix token_type reqid_type requestID)) now db a now' db') as Ha'.
  { unfold revoke_call, token_type, reqid_type in *. destruct refresh; exact Ha. }
  clear Ha. destruct Ha' as (t & order & Hle & Ho & Hr). rewrite exec_writes in Hr. cbn [written] in Hr. fold reqid_key in Hr.
  destruct (exec order t (SMembers reqid_key) db).1 as [l|] eqn:El.
  - apply alone_seq in Hr as (e & t2 & db2 & Hd & _ & Hle2 & ->).
    apply alone_seq in Hd as (u & t1 & db1 & Hd & _ & Hle1 & ->).
    destruct (alone_revoke now db l order t t1 db1 u) as [_ Hdy]; [done..|]. intros s d Htok.
    destruct (Hdy s d) as (d' & -> & Hd'); [eapply token_earlier; [|exact Htok]; lia|]. exists d'. split; [done|lia].
  - destruct Hok as [_ Hs]. cbn in El. unfold SMEMBERS in El. destruct (look t db reqid_key) as [[[text|ms] u]|] eqn:E; try done.
    apply look_entry in E. by destruct (Hs _ _ E).
Qed.

(** No token of the request is found. *)
Definition finds_none (B : Type) (c : command B) : B -> Prop :=
  match c in command B return B -> Prop with
  | Get key => fun r => forall s data, key = token_key s -> r = Some (Some data) -> ~ reads_as data requestID
  | _ => fun _ => True
  end.

Definition not_of_request (o : outcome (Session := Session)) : Prop :=
  forall request e, o = ORequest (Some request, e) -> rq_ID request <> requestID.

Lemma no_token_returned good s :
  follows good (fun B c r => typed_reply keyPrefix B c r /\ finds_none B c r) (serve keyPrefix (get_token_call s)) not_of_request.
Proof.
  assert (forall hint, follows good (fun B c r => typed_reply keyPrefix B c r /\ finds_none B c r)
            (pmap of_request (get_request keyPrefix (token_key s) hint)) not_of_request) as Hf.
  2: { unfold get_token_call, token_key, token_type in *. destruct refresh; apply Hf. }
  intros hint. apply follows_bind with (R := fun r => forall request, r = inr request -> rq_ID request <> requestID).
  2: { intros [e|request] Hr rq e'; cbn; intros [= <- _]. by apply Hr. }
  apply follows_bind with (R := fun r => forall data, r = inr data -> ~ reads_as data requestID).
  { apply follows_do; [done|]. intros r [_ Hr] data E. destruct r as [[data'|]|]; simplify_eq. by eapply Hr. }
  intros [e|data] Hd; [by apply follows_ret|]. cbn. unfold unmarshalRequester.
  destruct (Unmarshal data) as [stored|] eqn:Eu; [|by apply follows_ret].
  assert (ss_RequestID stored <> requestID) as Hne by (intros E; eapply Hd; [done|by exists stored]).
  apply follows_bind with (R := fun _ => True); [apply reads_get_client|]. intros [e|client] _; [by apply follows_ret|].
  cbn zeta. case_decide; [apply follows_ret; by intros request [= <-]|].
  destruct (session_Unmarshal (ss_Session stored)); apply follows_ret; [by intros request [= <-]|done].
Qed.

Abbreviation steps := (rtc (world_step (calls_allowed keyPrefix not_for_request))) (only parsing).
Abbreviation good := (allowed_write keyPrefix not_for_request) (only parsing).

(** Tokens of the request that remain expire before [bound]. *)
Definition expiring (bound now : Time) (db : database) : Prop :=
  typed_sets keyPrefix db /\ forall s d, token_of now db s d -> exists d', d = Some d' /\ (d' < bound)%Z.

Lemma expiring_time bound now now' db : (now <= now')%Z -> expiring bound now db -> expiring bound now' db.
Proof. intros Hle [Ht He]. split; [done|]. intros s d Htok. eapply He, token_earlier; eauto. Qed.

Lemma expiring_kept bound now db w : expiring bound now db -> good w -> expiring bound now (apply_write now w db).
Proof.
  intros [Ht He] (c & Hc & Hw). split; [by eapply typed_kept|]. intros s d Htok. eapply He, no_new_tokens; eauto.
Qed.

(** C15. Revocation.  Take calls that do not overlap and whose commands do not fail, from the
    empty store on, in which the tokens of a request are created in the order they expire in,
    and then a revocation of the request, which no other call overlaps and none of whose
    commands fails.  From one second after it, in any interleaving of calls that do not create
    tokens for the request, and now also when commands fail, no call returns a token of it. *)
Theorem redis_revocation now0 now db a now' db' w w' i s r :
  rtc quiet_step (now0, ∅) (now, db) ->
  alone (serve keyPrefix revoke_call) now db a now' db' ->
  steps (mkWorld now' db' []) w -> (now' + time.Second <= w_now w)%Z ->
  w_threads w !! i = Some (serve keyPrefix (get_token_call s)) ->
  steps w w' -> w_threads w' !! i = Some (Ret r) -> not_of_request r.
Proof using All.
  intros Hq Ha Hs Hnow Hi Hs' Hr. destruct (tokens_indexed _ _ Hq) as [Ht Hok]. cbn in *.
  assert (forall now db B (c : command B) r db', expiring (now' + time.Second) now db -> performs now c db r db' -> typed_reply keyPrefix B c r)
    as Hrep by (intros ? ? ? ? ? ? [? _] ?; by eapply typed_replies).
  assert (sound good (expiring (now' + time.Second)) (typed_reply keyPrefix) w) as Hw.
  { eapply (sound_steps (calls_allowed keyPrefix not_for_request)); [| | | | |exact Hs].
    - apply expiring_time.
    - apply expiring_kept.
    - exact Hrep.
    - apply allowed_obey.
    - split; [|done]. split; [by eapply typed_call|]. intros s' d Htok. by eapply revoked_dying. }
  destruct Hw as [Hexp Hth].
  refine (tracked_result (calls_allowed keyPrefix not_for_request) good
    (fun now db => expiring (now' + time.Second) now db /\ (now' + time.Second <= now)%Z) (typed_reply keyPrefix) finds_none
    (fun _ => True) _ _ _ _ _ _ w w' i _ not_of_request _ _ Hs' Hi (fun _ => no_token_returned _ _) Hr I).
  - intros t t' db1 Hle [He Hb]. split; [by eapply expiring_time|lia].
  - intros t db1 v [He Hb] Hv. split; [by apply expiring_kept|done].
  - intros t db1 B c r' db2 [He _] Hp. by eapply Hrep.
  - done.
  - intros t db1 B c r' db2 [[_ He] Hb] _ Hp. destruct c; try done. cbn. intros s' data -> E Hreads.
    destruct Hp as [order _|order _|]; try done. cbn in E. unfold GET in E.
    destruct (look t db1 (token_key s')) as [[[text|ms] d]|] eqn:El; simplify_eq/=.
    destruct (He s' d) as (d' & -> & Hd'); [eexists; by split|]. apply look_alive in El. unfold alive in El. cbn in El.
    apply Z.ltb_lt in El. lia.
  - apply allowed_obey.
  - by split.
Qed.
(** ** Revocations that lose a token *)

(** The program reads the keys of [K] only. *)
Fixpoint reads_only {A} (K : string -> Prop) (p : prog command A) : Prop :=
  match p with
  | Ret _ => True
  | Do c k =>
      (match c with Get key | TTL key => K key | _ => False end) /\ forall r, reads_only K (k r)
  end.

Lemma reads_only_bind {A C} K (p : prog command A) (k : A -> prog command C) :
  reads_only K p -> (forall a, reads_only K (k a)) -> reads_only K (pbind p k).
Proof. intros Hp Hk. induction p as [a|B c k' IH]; cbn; [done|]. destruct Hp as [Hc Hp]. split; auto. Qed.

Lemma alone_reads_only {A} K (p : prog command A) t db db' a t' :
  reads_only K p -> (forall key, K key -> db' !! key = db !! key) -> alone p t db a t' db -> alone p t db' a t' db'.
Proof.
  intros Hp HK. revert t. induction p as [b|B c k IH]; intros t; cbn; [by intros (-> & ? & _)|].
  intros (t1 & order & Hle & Ho & Ha). exists t1, order. split; [done|]. split; [done|].
  destruct Hp as [Hc Hp]. destruct c; try done; cbn in *; unfold GET, remaining, look in *;
    (rewrite (HK _ Hc); destruct (db !! key) as [e|]; [destruct (alive t1 e); [destruct e as [[] ?]|]|]; cbn in *; by apply IH).
Qed.

(** The keys a lookup of the token reads. *)
Definition lookup_keys (s key : string) : Prop := key = token_key s \/ exists id, key = redisKey keyPrefix KeyTypeClient id.

Lemma get_token_reads s : reads_only (lookup_keys s) (serve keyPrefix (get_token_call s)).
Proof.
  assert (forall hint, reads_only (lookup_keys s) (pmap of_request (get_request keyPrefix (token_key s) hint))) as Hf.
  2: { unfold get_token_call, token_key, token_type in *. destruct refresh; apply Hf. }
  intros hint. apply reads_only_bind; [|done]. apply reads_only_bind; [split; [by left|done]|]. intros [e|data]; [done|].
  unfold unmarshalRequester. destruct (Unmarshal data) as [stored|]; [|done]. apply reads_only_bind.
  - split; [right; by eexists|]. intros r. split; [right; by eexists|done].
  - intros [e|client]; [done|]. case_decide; [done|]. by destruct (session_Unmarshal _).
Qed.

(** What a call of [get_token_call s] answers on [db] it also answers on [db']. *)
Definition token_kept (s : string) (db db' : database) : Prop :=
  forall t a t', alone (serve keyPrefix (get_token_call s)) t db a t' db -> alone (serve keyPrefix (get_token_call s)) t db' a t' db'.

(** Revoking again does not help. *)
Definition out_of_reach (s : string) (db db' : database) : Prop :=
  token_kept s db db' /\
  forall t a t' db'', alone (serve keyPrefix revoke_call) t db' a t' db'' -> a = OError None /\ token_kept s db db''.

Lemma serve_revoke : serve keyPrefix revoke_call = pmap OError (revoke keyPrefix token_type reqid_type requestID).
Proof. unfold revoke_call, token_type, reqid_type. by destruct refresh. Qed.

Lemma lookup_not_token s s' key : lookup_keys s key -> s' <> s -> key <> token_key s'.
Proof.
  intros [->|[id ->]] Hne; [by intros ?%token_key_inj|]. unfold token_key, token_type. destruct refresh; intros E; key_eqs.
Qed.

Lemma lookup_not_index s key : lookup_keys s key -> key <> reqid_key.
Proof.
  intros [->|[id ->]]; [apply token_not_reqid|]. unfold reqid_key, reqid_type. destruct refresh; intros E; key_eqs.
Qed.

(** The index is gone and what a lookup of the token reads is as it was. *)
Lemma lost_token s db db' :
  (forall key, lookup_keys s key -> db' !! key = db !! key) -> db' !! reqid_key = None -> out_of_reach s db db'.
Proof.
  intros HK Hi. split; [intros t a t'; by apply (alone_reads_only (lookup_keys s)); [apply get_token_reads|]|].
  intros t a t' db''. rewrite serve_revoke. intros (t1 & order & _ & _ & Hr). cbn in Hr. fold reqid_key in Hr.
  unfold SMEMBERS, look in Hr. rewrite Hi in Hr. cbn in Hr. destruct Hr as (t2 & order2 & _ & _ & -> & _ & ->).
  split; [done|]. intros t3 a3 t3'. apply (alone_reads_only (lookup_keys s)); [apply get_token_reads|].
  intros key Hk. rewrite <- (HK key Hk). by apply lookup_delete_ne, not_eq_sym, (lookup_not_index s).
Qed.

(** The tokens of [signatures] that [failing] does not name are deleted. *)
Definition delete_all_but (failing : string -> bool) (signatures : list string) (db : database) : database :=
  foldl (fun db s => if failing s then db else delete (token_key s) db) db signatures.

Lemma delete_all_cons failing s l db :
  delete_all_but failing (s :: l) db = delete_all_but failing l (if failing s then db else delete (token_key s) db).
Proof. done. Qed.

Lemma deleted_lookup failing signatures db key :
  (forall s, s ∈ signatures -> failing s = false -> key <> token_key s) ->
  delete_all_but failing signatures db !! key = db !! key.
Proof.
  revert db. induction signatures as [|s l IH]; intros db Hk; [done|]. rewrite delete_all_cons, IH by (intros; apply Hk; [by right|done]).
  destruct (failing s) eqn:E; [done|]. apply lookup_delete_ne, not_eq_sym, Hk; [by left|done].
Qed.

Lemma deleted_gone failing signatures db s :
  s ∈ signatures -> failing s = false -> delete_all_but failing signatures db !! token_key s = None.
Proof.
  intros Hs Hf. revert db. induction signatures as [|s' l IH]; intros db; [by apply not_elem_of_nil in Hs|].
  rewrite delete_all_cons. destruct (decide (s ∈ l)) as [Hl|Hl]; [by apply IH|]. apply elem_of_cons in Hs as [->|?]; [|done]. rewrite Hf.
  rewrite deleted_lookup; [apply lookup_delete_eq|]. intros s2 Hs2 _ E%token_key_inj. congruence.
Qed.

Abbreviation any_steps := (rtc (world_step (calls_allowed keyPrefix (fun _ => True)))) (only parsing).

Lemma del_done now key db : performs now (Del [key]) db (exec elements now (Del [key]) db).1 (delete key db).
Proof. exact (performs_done now (Del [key]) db elements (fun _ => reflexivity _)). Qed.

(** A revocation that has read the index. *)
Definition revoking (signatures : list string) : prog command (outcome (Session := Session)) :=
  pmap OError (run _ <- delete_indexed keyPrefix token_type reqid_key signatures; Ret None)%prog.

(** The rest of a revocation, in which the deletions that [failing] names fail. *)
Lemma revoke_rest failing signatures now db ts i :
  ts !! i = Some (revoking signatures) ->
  any_steps (mkWorld now db ts)
    (mkWorld now (delete reqid_key (delete_all_but failing signatures db)) (<[i := Ret (OError None)]> ts)).
Proof.
  revert db ts. induction signatures as [|s l IH]; intros db ts Hi.
  - apply rtc_once. eapply (step_command _ i _ (Del [reqid_key]) (fun _ => Ret (OError None)) _ now db (delete reqid_key db) ts Hi).
    apply del_done.
  - eapply rtc_l.
    { eapply (step_command _ _ _ _ _ (if failing s then lost (Del [token_key s]) else (exec elements now (Del [token_key s]) db).1)
        _ _ (if failing s then db else delete (token_key s) db)); [exact Hi|].
      destruct (failing s); [apply performs_failed|apply del_done]. }
    etrans; [apply IH; apply list_lookup_insert_eq; by eapply lookup_lt_Some|]. by rewrite list_insert_insert_eq.
Qed.

(** A call on its own, at one moment, as steps of the world. *)
Lemma alone_steps p now db a db' ts i :
  ts !! i = Some p -> alone p now db a now db' ->
  any_steps (mkWorld now db ts) (mkWorld now db' (<[i := Ret a]> ts)).
Proof.
  revert db ts. induction p as [b|B c k IH]; intros db ts Hi; cbn.
  - intros (-> & _ & ->). by rewrite list_insert_id.
  - intros (t & order & Hle & Ho & Ha). pose proof (alone_time _ _ _ _ _ _ Ha) as Hle'. assert (t = now) as -> by lia.
    eapply rtc_l; [eapply step_command; [exact Hi|by apply (performs_done _ _ _ order)]|].
    etrans; [eapply IH; [apply list_lookup_insert_eq; by eapply lookup_lt_Some|exact Ha]|]. by rewrite list_insert_insert_eq.
Qed.

Lemma revoke_begins now db ts members deadline i :
  look now db reqid_key = Some (mkEntry (RSet members) deadline) -> ts !! i = Some (serve keyPrefix revoke_call) ->
  any_steps (mkWorld now db ts)
    (mkWorld now db (<[i := revoking (elements members)]> ts)).
Proof.
  rewrite serve_revoke. intros Hm Hi. apply rtc_once.
  eapply (step_command _ i _ (SMembers reqid_key) (fun signatures => pmap OError (match signatures with
    | None => Ret (Some BackendFailure)
    | Some signatures => (run _ <- delete_indexed keyPrefix token_type reqid_key signatures; Ret None)%prog
    end)) (Some (elements members)) now db db ts Hi).
  assert (exec elements now (SMembers reqid_key) db = (Some (elements members), db)) as E.
  { cbn. unfold SMEMBERS. by rewrite Hm. }
  pose proof (performs_done now (SMembers reqid_key) db elements ltac:(done)) as Hp. by rewrite E in Hp.
Qed.

(** C40. A revocation can lose a token for good.  Take any request, any of its access or
    refresh tokens, and any store that has the token in the index of the request.
    (1) There is an execution of the revocation in which the command that deletes this token
    fails; it deletes the other tokens of the index, reports success, and has deleted the
    index.  (2) If a token is created while the revocation is in progress, between its reading
    the index and deleting it, no command needs to fail: both calls report success.  In both
    cases the token is returned afterwards as if nothing had happened, and every further
    revocation that runs without failures reports success and leaves it so. *)
Theorem revocation_lost now db members deadline :
  look now db reqid_key = Some (mkEntry (RSet members) deadline) ->
  (forall s, s ∈ members -> exists db',
     any_steps (mkWorld now db []) (mkWorld now db' [Ret (OError None)]) /\ out_of_reach s db db' /\
     (forall s', s' ∈ members -> s' <> s -> db' !! token_key s' = None)) /\
  (forall s request issued db1, s ∉ members -> rq_ID request = requestID ->
     let create := if refresh then CCreateRefreshTokenSession s (Some request) issued
                   else CCreateAccessTokenSession s (Some request) issued in
     alone (serve keyPrefix create) now db (OError None) now db1 -> exists db',
     any_steps (mkWorld now db []) (mkWorld now db' [Ret (OError None); Ret (OError None)]) /\ out_of_reach s db1 db').
Proof.
  intros Hl. split.
  - intros s Hs. set (failing := fun s' : string => bool_decide (s' = s)).
    exists (delete reqid_key (delete_all_but failing (elements members) db)). split_and!.
    + eapply rtc_l; [apply (step_start _ (serve keyPrefix revoke_call)); by exists revoke_call|]. cbn [app].
      etrans; [eapply (revoke_begins _ _ _ members deadline 0); [done|done]|].
      exact (revoke_rest failing (elements members) now db [revoking (elements members)] 0 eq_refl).
    + apply lost_token; [|apply lookup_delete_eq]. intros key Hk.
      rewrite lookup_delete_ne by (by apply not_eq_sym, (lookup_not_index s)).
      apply deleted_lookup. intros s' _ Hf%bool_decide_eq_false. by apply (lookup_not_token s).
    + intros s' Hs' Hne. rewrite lookup_delete_ne by apply not_eq_sym, token_not_reqid.
      apply deleted_gone; [by apply elem_of_elements|by apply bool_decide_eq_false].
  - intros s request issued db1 Hs Hid create Ha.
    exists (delete reqid_key (delete_all_but (fun _ => false) (elements members) db1)). split.
    + eapply rtc_l; [apply (step_start _ (serve keyPrefix revoke_call)); by exists revoke_call|]. cbn [app].
      etrans; [eapply (revoke_begins _ _ _ members deadline 0); [done|done]|]. cbn [list_insert insert].
      eapply rtc_l; [apply (step_start _ (serve keyPrefix create)); by exists create|]. cbn [app].
      etrans; [exact (alone_steps _ now db _ db1 [revoking (elements members); serve keyPrefix create] 1 eq_refl Ha)|].
      exact (revoke_rest (fun _ => false) (elements members) now db1 [revoking (elements members); Ret (OError None)] 0 eq_refl).
    + apply lost_token; [|apply lookup_delete_eq]. intros key Hk.
      rewrite lookup_delete_ne by (by apply not_eq_sym, (lookup_not_index s)).
      apply deleted_lookup. intros s' Hs'%elem_of_elements _. apply (lookup_not_token s); [done|]. by intros ->.
Qed.
End tokens.

(** ** Executions *)
Section executions.
#[local] Existing Instances sample_client_library sample_cjson sample_sessions sample_json.

Abbreviation serve_sample := (serve (Session := string) "") (only parsing).

(** A client, a token of a request, and its revocation. *)
Definition with_client : database := (solo (serve_sample (CRegisterClient sample_client)) 1 ∅).2.

Definition create_token_call (signature session : string) : storage_call :=
  CCreateAccessTokenSession signature (Some (sample_request "request1" session)) 1%Z.

Definition with_token : database := (solo (serve_sample (create_token_call "sig" "session")) 1 with_client).2.

Definition with_revoked : database := (solo (serve_sample (CRevokeAccessToken "request1")) 1 with_token).2.

Definition token_asked : world :=
  sample_play (mkWorld 1%Z with_revoked []) [Tick (1 + time.Second)%Z; Begin (CGetAccessTokenSession "sig")].

Definition token_refused : world := sample_play token_asked [Perform 0].

Lemma sample_quiet : rtc (quiet_step "" false "request1") (1%Z, ∅) (1%Z, with_token).
Proof.
  eapply rtc_l; [|apply rtc_once].
  - eapply (quiet_call "" false "request1" 1%Z ∅ (CRegisterClient sample_client) _ 1%Z with_client); [done|apply solo_alone].
  - eapply (quiet_call "" false "request1" 1%Z with_client (create_token_call "sig" "session") _ 1%Z with_token); [|apply solo_alone].
    intros _. split.
    + intros data id Hm (stored & Hu & <-). vm_compute in Hm. injection Hm as <-. vm_compute in Hu. by injection Hu as <-.
    + intros _ s d (data & Hl%look_entry & _). change with_client with (<["client:client" := mkEntry (RString "c") None]> (∅ : database)) in Hl.
      rewrite lookup_insert_ne in Hl; [done|]. intros E. unfold token_key, token_type in E. key_eqs.
Qed.

Lemma redis_revocation_witness : exists r, w_threads token_refused !! 0 = Some (Ret r) /\ not_of_request "request1" r.
Proof.
  eexists. split; [vm_compute; reflexivity|].
  eapply (@redis_revocation _ _ sample_client_ok string _ _ "" false "request1" 1%Z 1%Z with_token _ 1%Z with_revoked
           token_asked token_refused 0 "sig").
  - apply sample_quiet.
  - apply solo_alone.
  - unfold token_asked. apply sample_steps. repeat constructor.
  - vm_compute. discriminate.
  - vm_compute. reflexivity.
  - unfold token_refused. apply sample_steps. repeat constructor.
  - vm_compute. reflexivity.
Defined.

Lemma solo_result {A} (p : prog command A) now db a db' : solo p now db = (a, db') -> alone p now db a now db'.
Proof. intros E. pose proof (solo_alone p now db) as Ha. by rewrite E in Ha. Qed.

(** The revocation loses the token of the sample when its deletion fails, and a token that is
    created meanwhile. *)
Lemma revocation_lost_witness :
  (exists db', rtc (world_step (calls_allowed "" (fun _ => True))) (mkWorld 1%Z with_token []) (mkWorld 1%Z db' [Ret (OError None)]) /\
     exists request, alone (serve_sample (CGetAccessTokenSession "sig")) 1%Z db' (ORequest (Some request, None)) 1%Z db' /\
       rq_ID request = "request1") /\
  (exists db' request, rtc (world_step (calls_allowed "" (fun _ => True))) (mkWorld 1%Z with_token [])
       (mkWorld 1%Z db' [Ret (OError None); Ret (OError None)]) /\
     alone (serve_sample (CGetAccessTokenSession "sig2")) 1%Z db' (ORequest (Some request, None)) 1%Z db').
Proof.
  assert (exists members deadline, look 1%Z with_token (reqid_key "" false "request1") = Some (mkEntry (RSet members) deadline) /\
    "sig" ∈ members /\ "sig2" ∉ members) as (members & deadline & Hl & Hin & Hout).
  { exists {["sig"]}. eexists. split; [vm_compute; reflexivity|]. set_solver. }
  destruct (@revocation_lost _ _ string _ _ "" false "request1" 1%Z with_token members deadline Hl) as [Hfail Hmeanwhile]. split.
  - destruct (Hfail "sig" Hin) as (db' & Hs & [Hk _] & _). exists db'. split; [exact Hs|]. eexists. split; [apply Hk, solo_result; vm_compute; reflexivity|reflexivity].
  - destruct (Hmeanwhile "sig2" (sample_request "request1" "session") 1%Z
      (solo (serve_sample (create_token_call "sig2" "session")) 1 with_token).2 Hout eq_refl) as (db' & Hs & Hk & _).
    + apply solo_result. vm_compute. reflexivity.
    + exists db'. eexists. split; [exact Hs|]. apply Hk, solo_result. vm_compute. reflexivity.
Defined.

(** A token that expires early takes the index of the request with it: the index keeps the time
    to live of the token that was created last, and a revocation after that does not find the
    tokens that live on. *)
Definition index_expired : world :=
  sample_play (mkWorld 1%Z with_token [])
    [Begin (create_token_call "brief" "short"); Perform 0; Tick (10 * time.Second)%Z;
     Begin (CRevokeAccessToken "request1"); Perform 1; Perform 1;
     Begin (CGetAccessTokenSession "sig"); Perform 2; Perform 2; Perform 2].

Example revocation_after_brief_token :
  w_threads index_expired !! 1 = Some (Ret (OError None)) /\
  exists request, w_threads index_expired !! 2 = Some (Ret (ORequest (Some request, None))) /\ rq_ID request = "request1".
Proof. split; [vm_compute; reflexivity|]. eexists. split; [vm_compute; reflexivity|reflexivity]. Qed.
End executions.
