(* ===== verification/RedisUpstream.v ===== *)
(** * Tokens of upstream servers in Redis ([pkg/authserver/storage/redis.go])

    The rows of a session are found through an index set, whose time to live the script that
    stores a row maintains.  While calls do not overlap, the index lists every row and outlives
    it ([covered]), which is the invariant the comment in the script states; so listing returns
    every row and deleting leaves none ([upstream_index_complete]).  The execution at the end
    shows what an overlap does. *)

From Stdlib Require Import Ascii.
From S2P Require Import Prelude GoStrings Programs StorageTypes Redis RedisStorage RedisSystem RedisSample.

Section upstream.
Context `{RedisClient, CJson}.
Context {Session : Type} `{Sessions Session, StorageJson}.
Context (keyPrefix : string).

Definition row_key (sessionID providerName : string) : string := redisUpstreamKey keyPrefix sessionID providerName.
Definition idx_key (sessionID : string) : string := redisSetKey keyPrefix KeyTypeUpstreamIdx sessionID.
Definition user_key (userID : string) : string := redisSetKey keyPrefix KeyTypeUserUpstream userID.

(** Identifiers of sessions have no colon, and differ from the name of the index. *)
Definition valid_session (sessionID : string) : Prop := no_char ":" sessionID /\ sessionID <> "idx".

Definition valid_call (c : storage_call (Session := Session)) : Prop :=
  match c with
  | CStoreUpstreamTokens sessionID _ _ _ | CDeleteUpstreamTokens sessionID | CDeleteUpstreamTokensForProvider sessionID _ =>
      valid_session sessionID
  | _ => True
  end.

Lemma row_key_inj s p s' p' : valid_session s -> valid_session s' -> row_key s p = row_key s' p' -> s = s' /\ p = p'.
Proof.
  intros [Hs _] [Hs' _] E. unfold row_key, redisUpstreamKey in E. apply key_prefix_inj, key_prefix_inj in E. cbn in E. injection E as E.
  by apply (split_at_char ":") in E.
Qed.

Lemma row_not_index s p s' : valid_session s -> row_key s p <> idx_key s'.
Proof.
  intros [Hs Hne] E. unfold row_key, idx_key, redisUpstreamKey, redisSetKey in E. apply key_prefix_inj in E. cbn in E. injection E as E.
  apply (split_at_char ":" s p "idx" s') in E as [-> _]; [done..|]. vm_compute. naive_solver.
Qed.

Lemma idx_key_inj s s' : idx_key s = idx_key s' -> s = s'.
Proof. unfold idx_key. intros E. by key_eqs. Qed.

Lemma user_not_row u s p : user_key u <> row_key s p.
Proof. unfold user_key, row_key. intros E. key_eqs. Qed.

Lemma user_not_index u s : user_key u <> idx_key s.
Proof. unfold user_key, idx_key. intros E. key_eqs. Qed.

(** ** The sets *)

(** An index is a set of rows of its session, and the set of a user lists rows. *)
Definition upstream_entry (key : string) (e : rentry) : Prop :=
  (forall s, key = idx_key s -> exists members, re_value e = RSet members /\
     forall m, m ∈ members -> exists p, p <> "" /\ m = row_key s p) /\
  (forall u members, key = user_key u -> re_value e = RSet members ->
     forall m, m ∈ members -> exists s p, valid_session s /\ m = row_key s p).

Definition upstream_sets (db : database) : Prop := entrywise upstream_entry db.

(** The index lists every row and lives as long. *)
Definition outlives (until deadline : option Time) : Prop :=
  match until with
  | None => True
  | Some until => exists d, deadline = Some d /\ (d <= until)%Z
  end.

Definition covered (now : Time) (db : database) : Prop :=
  forall s p e, valid_session s -> look now db (row_key s p) = Some e ->
  exists members until, look now db (idx_key s) = Some (mkEntry (RSet members) until) /\
    row_key s p ∈ members /\ outlives until (re_deadline e).

Definition upstream_ok (now : Time) (db : database) : Prop :=
  typed_sets keyPrefix db /\ upstream_sets db /\ covered now db.

(** What outlives something alive is alive. *)
Lemma outlives_alive now e v until :
  alive now e = true -> outlives until (re_deadline e) -> alive now (mkEntry v until) = true.
Proof.
  unfold alive. destruct until as [until|]; [|done]. cbn. intros Ha (d & E & Hle). rewrite E in Ha.
  apply Z.ltb_lt in Ha. apply Z.ltb_lt. lia.
Qed.

Lemma covered_time now now' db : (now <= now')%Z -> covered now db -> covered now' db.
Proof.
  intros Hle Hc s p e Hs Hl. destruct (Hc s p e Hs) as (members & until & Hi & Hm & Ho); [by eapply look_earlier|].
  exists members, until. split; [|done]. apply look_entry in Hi. unfold look. rewrite Hi.
  by rewrite (outlives_alive now' e _ _ (look_alive _ _ _ _ Hl) Ho).
Qed.

(** Rows went away and the indexes are as they were. *)
Lemma covered_fewer now (db db' : database) :
  (forall s p, valid_session s -> db' !! row_key s p = None \/ db' !! row_key s p = db !! row_key s p) ->
  (forall s, valid_session s -> db' !! idx_key s = db !! idx_key s) -> covered now db -> covered now db'.
Proof.
  intros Hr Hi Hc s p e Hs Hl. destruct (Hr s p Hs) as [E|E]; [unfold look in Hl; by rewrite E in Hl|].
  destruct (Hc s p e Hs) as (members & until & Hx & Hm); [unfold look in *; by rewrite <- E|].
  exists members, until. split; [|done]. unfold look in *. by rewrite Hi.
Qed.
(** ** What keeps the sets right *)
Lemma upstream_string key data deadline :
  (forall s, key <> idx_key s) -> upstream_entry key (mkEntry (RString data) deadline).
Proof. intros Hk. split; [|done]. intros s E. by apply Hk in E. Qed.

Lemma upstream_deadline k e deadline : upstream_entry k e -> upstream_entry k (mkEntry (re_value e) deadline).
Proof. intros [Hi Hu]. split; cbn; eauto. Qed.

Lemma upstream_set_deadline now key deadline : keeps upstream_entry (set_deadline now key deadline).
Proof. apply keeps_set_deadline. intros e He _. by apply upstream_deadline. Qed.

Lemma upstream_rem now key member : keeps upstream_entry (SREM now key member).
Proof.
  apply keeps_SREM. intros members deadline [Hi Hu]. split; cbn in *.
  - intros s E. destruct (Hi s E) as (ms & [= ->] & Hms). eexists. split; [done|]. set_solver.
  - intros u ms E [= <-] m [Hm _]%elem_of_difference. by eapply Hu.
Qed.

(** A member may be added to a set that is not an index, nor the set of a user. *)
Lemma upstream_add now key member :
  (forall s, key = idx_key s -> exists p, p <> "" /\ member = row_key s p) ->
  (forall u, key = user_key u -> exists s p, valid_session s /\ member = row_key s p) ->
  keeps upstream_entry (SADD now key member).
Proof.
  intros Hi Hu. apply keeps_SADD.
  - split; cbn.
    + intros s E. eexists. split; [done|]. intros m ->%elem_of_singleton. by apply Hi.
    + intros u ms E [= <-] m ->%elem_of_singleton. by eapply Hu.
  - intros members deadline [Hi' Hu']. split; cbn in *.
    + intros s E. destruct (Hi' s E) as (ms & [= ->] & Hms). eexists. split; [done|].
      intros m [->%elem_of_singleton|Hm]%elem_of_union; [by apply Hi|by apply Hms].
    + intros u ms E [= <-] m [->%elem_of_singleton|Hm]%elem_of_union; [by eapply Hu|by eapply Hu'].
Qed.

Lemma upstream_sets_token now keyType reqIDType signature request ttl w db :
  (keyType = KeyTypeAccess \/ keyType = KeyTypeRefresh) ->
  (reqIDType = KeyTypeReqIDAccess \/ reqIDType = KeyTypeReqIDRefresh) ->
  token_write keyPrefix keyType reqIDType signature request ttl w ->
  upstream_sets db -> upstream_sets (apply_write now w db).
Proof.
  intros Hk Hr (data & _ & ->). apply keeps_MULTI. apply Forall_cons; split; [|apply Forall_cons; split; [|apply Forall_singleton]].
  - apply keeps_set_string, upstream_string. unfold idx_key. intros s E. destruct Hk as [-> | ->]; key_eqs.
  - apply upstream_add; unfold idx_key, user_key; intros s E; destruct Hr as [-> | ->]; key_eqs.
  - apply keeps_bind; [apply upstream_set_deadline|]. intros. apply keeps_ret.
Qed.

Ltac not_index := apply upstream_string; unfold idx_key; intros ? ?; key_eqs.

Lemma upstream_sets_kept c w now db :
  valid_call c -> issues keyPrefix c w -> upstream_sets db -> upstream_sets (apply_write now w db).
Proof.
  intros Hc Hw Hdb. destruct c; split_issue Hw; try (eapply upstream_sets_token; [| |exact Hw|exact Hdb]; by eauto);
    subst w; cbn [apply_write]; try (by apply keeps_DEL); try (apply keeps_set_string; [not_index|done]);
    try (apply keeps_SETNX; [not_index|done]); try (by apply upstream_rem); try (by apply upstream_set_deadline).
  - apply keeps_MULTI; [|done]. apply Forall_cons; split; [apply keeps_set_string; not_index|apply Forall_singleton].
    apply keeps_bind; [apply upstream_set_deadline|]. intros. apply keeps_ret.
  - apply keeps_script; [|intros; by apply upstream_deadline| | | |done].
    + intros d. apply upstream_string. intros s. by apply row_not_index.
    + apply upstream_add; [intros s <-%idx_key_inj; eauto|]. intros u E. symmetry in E. by apply user_not_index in E.
    + intros userID. rewrite user_prefix_key, <- user_upstream_key. apply upstream_add.
      * intros s E. by apply user_not_index in E.
      * intros u _. by exists sessionID, providerName.
    + intros userID. apply upstream_rem.
  - apply upstream_add; [| |done]; unfold idx_key, user_key; intros ? ?; key_eqs.
  - apply keeps_touch; [|done]. intros text. not_index.
Qed.

(** ** Storing a row *)
Definition row_deadline (now : Time) (ttlMs : Z) : option Time :=
  if (0 <? ttlMs)%Z then Some (now + ttlMs * Millisecond)%Z else None.

(** The index ends up with a time to live that covers the new row and the rows it covered. *)
Lemma kept_alive now idx existed ttlMs (db : database) members until :
  look now db idx = Some (mkEntry (RSet members) until) -> (0 <= ttlMs)%Z -> (existed = false -> until = None) ->
  exists until', keep_index_alive now idx existed ttlMs db = (Some tt, <[idx := mkEntry (RSet members) until']> db) /\
    outlives until' (row_deadline now ttlMs) /\
    (existed = true -> forall d, outlives until d -> outlives until' d).
Proof.
  intros Hl Hms Hex. pose proof (look_entry _ _ _ _ Hl) as Hdb. pose proof (look_alive _ _ _ _ Hl) as Ha.
  unfold keep_index_alive, PERSIST, PEXPIRE, set_deadline, remaining, ebind, eret, lifetime, row_deadline, time.Add.
  destruct (Z.eqb_spec ttlMs 0) as [->|Hne]; [rewrite Hl; by exists None|].
  rewrite (proj2 (Z.ltb_lt 0 ttlMs)) by lia. destruct existed; cbn [negb].
  - rewrite Hl. cbn. destruct until as [u|]; [|exists None; by rewrite (insert_id _ _ _ Hdb)].
    unfold alive in Ha. cbn in Ha. apply Z.ltb_lt in Ha.
    assert (0 <= (u - now) `div` Millisecond)%Z as Hpos by (apply Z.div_pos; [lia|done]).
    rewrite (proj2 (Z.eqb_neq _ (-1))) by lia. pose proof (Z.div_mod (u - now) Millisecond ltac:(done)) as Hdm.
    pose proof (Z.mod_pos_bound (u - now) Millisecond ltac:(done)) as Hmod. unfold Millisecond in *.
    destruct (Z.ltb_spec ((u - now) `div` 1000000) ttlMs).
    + rewrite Hl. eexists. split; [done|]. cbn. split; [eexists; split; [done|lia]|]. intros _ d (d' & -> & Hd). exists d'. split; [done|lia].
    + exists (Some u). rewrite (insert_id _ _ _ Hdb). split; [done|]. cbn. split; [eexists; split; [done|nia]|done].
  - rewrite Hl. cbn. eexists. split; [done|]. split; [eexists; split; [done|lia]|done].
Qed.

Lemma ebind_done {A B} (m : effect A) (k : A -> effect B) db a db' : m db = (Some a, db') -> ebind m k db = k a db'.
Proof. unfold ebind. by intros ->. Qed.
Lemma added now idx member (db : database) :
  (forall data d, db !! idx <> Some (mkEntry (RString data) d)) ->
  exists members until, SADD now idx member db = (Some tt, <[idx := mkEntry (RSet members) until]> db) /\
    alive now (mkEntry (RSet members) until) = true /\ member ∈ members /\
    (EXISTS now idx db = (Some false, db) -> until = None) /\
    forall old u, look now db idx = Some (mkEntry (RSet old) u) -> old ⊆ members /\ u = until.
Proof.
  intros Hs. unfold SADD, EXISTS. destruct (look now db idx) as [[[data|old] d]|] eqn:El.
  - apply look_entry in El. by apply Hs in El.
  - do 2 eexists. split; [done|]. split; [exact (look_alive _ _ _ _ El)|]. split; [set_solver|]. split; [by rewrite bool_decide_eq_true_2 by eauto|].
    intros ? ? [= -> ->]. split; [set_solver|done].
  - do 2 eexists. split_and!; [done|done|set_solver|done|done].
Qed.

Lemma stored_row now db s p data ttlMs newUserID :
  valid_session s -> (0 <= ttlMs)%Z -> upstream_sets db ->
  let db' := apply_write now (WUpstream (row_key s p) (idx_key s) data ttlMs newUserID (keyPrefix +:+ KeyTypeUserUpstream +:+ ":")) db in
  db' = db \/
  db' !! row_key s p = Some (mkEntry (RString data) (row_deadline now ttlMs)) /\
  exists members until, db' !! idx_key s = Some (mkEntry (RSet members) until) /\ row_key s p ∈ members /\
    outlives until (row_deadline now ttlMs) /\
    forall old u, look now db (idx_key s) = Some (mkEntry (RSet old) u) ->
      old ⊆ members /\ forall d, outlives u d -> outlives until d.
Proof.
  intros Hs Hms Hdb. cbn [apply_write]. unfold storeUpstreamTokensScript.
  assert (row_key s p <> idx_key s) as Hne by (by apply row_not_index).
  destruct (GET now (row_key s p) db) as [[existing|] db0] eqn:Eg;
    [|left; unfold ebind; rewrite Eg; unfold GET in Eg; destruct (look now db (row_key s p)) as [[[] ?]|]; by simplify_eq/=].
  assert (db0 = db) as -> by (unfold GET in Eg; destruct (look now db (row_key s p)) as [[[] ?]|]; by simplify_eq/=).
  right. rewrite (ebind_done _ _ _ _ _ Eg). cbv zeta.
  set (db1 := <[row_key s p := mkEntry (RString data) (row_deadline now ttlMs)]> db).
  rewrite (ebind_done _ _ db tt db1) by (unfold row_deadline in db1; by destruct (Z.ltb_spec 0 ttlMs)).
  assert (look now db1 (idx_key s) = look now db (idx_key s)) as El by (unfold look, db1; by rewrite lookup_insert_ne).
  set (b := bool_decide (is_Some (look now db1 (idx_key s)))).
  rewrite (ebind_done _ _ db1 b db1) by done.
  destruct (added now (idx_key s) (row_key s p) db1) as (members & until & Ha & Hal & Hm & Hfresh & Hold).
  { intros text d. unfold db1. rewrite lookup_insert_ne by done. intros E. destruct (proj1 (Hdb _ _ E) s eq_refl) as (? & ? & _). done. }
  rewrite (ebind_done _ _ _ _ _ Ha). set (db2 := <[idx_key s := _]> db1).
  destruct (kept_alive now (idx_key s) b ttlMs db2 members until) as (until' & Hk & Hout & Hkeep).
  { unfold look, db2. by rewrite lookup_insert_eq, Hal. }
  { done. }
  { intros Hb. apply Hfresh. unfold EXISTS. fold b. by rewrite Hb. }
  rewrite (ebind_done _ _ _ _ _ Hk). set (db3 := <[idx_key s := _]> db2). set (tail := ebind _ _).
  assert (forall key, (forall u, key <> user_key u) -> frames key tail) as Hf.
  { intros key Hu. assert (forall u, key <> (keyPrefix +:+ KeyTypeUserUpstream +:+ ":") +:+ u) as Hu'.
    { intros u. rewrite user_prefix_key, <- user_upstream_key. apply Hu. }
    unfold tail. apply frames_bind; [case_decide; [by apply frames_SREM|done]|intros _; case_decide; [by apply frames_SADD|done]]. }
  rewrite !Hf by (intros u E; symmetry in E; by first [apply user_not_row in E|apply user_not_index in E]).
  unfold db3, db2. rewrite lookup_insert_eq, !lookup_insert_ne by done. split; [apply lookup_insert_eq|].
  exists members, until'. split_and!; [done..|]. intros old u Ho. rewrite <- El in Ho.
  destruct (Hold old u Ho) as [Hsub ->]. split; [done|]. apply Hkeep. unfold b. rewrite Ho. by apply bool_decide_eq_true_2; eauto.
Qed.
Lemma covered_store now db s p data ttlMs newUserID :
  valid_session s -> (0 <= ttlMs)%Z -> upstream_sets db -> covered now db ->
  covered now (apply_write now (WUpstream (row_key s p) (idx_key s) data ttlMs newUserID (keyPrefix +:+ KeyTypeUserUpstream +:+ ":")) db).
Proof.
  intros Hs Hms Hdb Hc. destruct (stored_row now db s p data ttlMs newUserID Hs Hms Hdb) as [->|(Hrow & members & until & Hidx & Hm & Hout & Hold)];
    [done|].
  assert (forall key, key <> row_key s p -> key <> idx_key s -> (forall u, key <> user_key u) ->
    apply_write now (WUpstream (row_key s p) (idx_key s) data ttlMs newUserID (keyPrefix +:+ KeyTypeUserUpstream +:+ ":")) db !! key = db !! key) as Hf.
  { intros key Hk Hi Hu. apply frame. cbn [touches]. intros [E|[E|[u E]]]; [done..|].
    rewrite user_prefix_key, <- user_upstream_key in E. by apply Hu in E. }
  set (db' := apply_write _ _ _) in *. clearbody db'. intros s' p' e Hs' Hl.
  pose proof (look_alive _ _ _ _ Hl) as Ha.
  assert (forall members, row_key s' p' ∈ members -> db' !! idx_key s' = Some (mkEntry (RSet members) until) ->
            outlives until (re_deadline e) -> exists members until,
              look now db' (idx_key s') = Some (mkEntry (RSet members) until) /\ row_key s' p' ∈ members /\ outlives until (re_deadline e)) as Hdone.
  { intros ms Hin E Ho. exists ms, until. split; [|done]. unfold look. by rewrite E, (outlives_alive now e _ _ Ha Ho). }
  destruct (decide (s' = s /\ p' = p)) as [[-> ->]|Hne].
  - apply look_entry in Hl. rewrite Hrow in Hl. injection Hl as <-. by eapply Hdone.
  - assert (look now db (row_key s' p') = Some e) as Hl'.
    { unfold look in *. rewrite Hf in Hl; [done|intros E; by apply row_key_inj in E|by apply row_not_index|].
      intros u E. symmetry in E. by apply user_not_row in E. }
    destruct (Hc s' p' e Hs' Hl') as (ms & u & Hi & Hin & Ho). destruct (decide (s' = s)) as [->|Hss].
    + destruct (Hold ms u Hi) as [Hsub Hd]. eapply Hdone; [by apply Hsub, Hin|done|by apply Hd].
    + exists ms, u. split; [|done]. unfold look in *. rewrite Hf; [done| | |].
      * intros E. symmetry in E. by apply row_not_index in E.
      * intros E%idx_key_inj. done.
      * intros v E. symmetry in E. by apply user_not_index in E.
Qed.

(** ** Calls on their own *)
Lemma upstream_ok_time now now' db : (now <= now')%Z -> upstream_ok now db -> upstream_ok now' db.
Proof. intros Hle (Ht & Hu & Hc). split_and!; [done..|by eapply covered_time]. Qed.

Lemma marshal_ttl tokens now data ttl : marshalUpstreamTokensWithTTL tokens now = Some (data, ttl) -> (0 <= ttl)%Z.
Proof.
  unfold marshalUpstreamTokensWithTTL, upstream_ttl. destruct tokens as [t|]; [|intros [= _ <-]; done].
  destruct (Marshal _); [|done]. cbv zeta. intros [= _ <-].
  repeat match goal with |- context [(?x <=? ?y)%Z] => destruct (Z.leb_spec x y) end; repeat case_match; unfold time.Second; lia.
Qed.

(** A call that does not remove rows. *)
Definition removes_rows (c : storage_call (Session := Session)) : Prop :=
  match c with
  | CDeleteUser _ | CDeleteUpstreamTokens _ | CDeleteUpstreamTokensForProvider _ _ => True
  | _ => False
  end.

Lemma covered_kept c w now db :
  valid_call c -> ~ removes_rows c -> issues keyPrefix c w -> upstream_ok now db -> upstream_ok now (apply_write now w db).
Proof.
  intros Hc Hr Hw (Ht & Hu & Hcov). split_and!; [by eapply typed_kept|by eapply upstream_sets_kept|].
  destruct (decide (KeyTypeUpstream ∈ call_heads c)) as [Hin|Hn].
  - destruct c; try (by destruct Hr); try (exfalso; revert Hin; vm_compute; set_solver).
    destruct Hw as (_ & _ & data & ttl & Hm & ->). apply covered_store; [done| |done..].
    apply Z.div_pos; [by eapply marshal_ttl|done].
  - assert (forall rest, apply_write now w db !! redisKey keyPrefix KeyTypeUpstream rest = db !! redisKey keyPrefix KeyTypeUpstream rest) as Hf.
    { intros rest. apply frame. eapply other_head; [done|vm_compute; naive_solver|done]. }
    eapply covered_fewer; [| |done].
    + intros s p _. right. apply (Hf (s +:+ ":" +:+ p)).
    + intros s _. unfold idx_key. rewrite index_key. apply Hf.
Qed.
(** What a listing of a set returns. *)
Lemma listed order t key (db : database) l :
  (forall members, order members ≡ₚ elements members) -> (SMEMBERS order t key db).1 = Some l ->
  (l = [] /\ look t db key = None) \/
  exists members until, look t db key = Some (mkEntry (RSet members) until) /\ forall m, m ∈ l <-> m ∈ members.
Proof.
  intros Ho. unfold SMEMBERS. destruct (look t db key) as [[[data|members] until]|]; [done| |]; cbn; intros [= <-]; [right|by left].
  exists members, until. split; [done|]. intros m. rewrite (Ho members). apply elem_of_elements.
Qed.

Lemma alone_delete_members setKey now db a now' db' :
  alone (delete_members setKey) now db a now' db' ->
  exists l : list string, (forall m, m ∈ l -> exists members until, db !! setKey = Some (mkEntry (RSet members) until) /\ m ∈ members) /\
    forall key, key <> setKey -> db' !! key = if decide (key ∈ l) then None else db !! key.
Proof.
  intros (t & order & Hle & Ho & Hr). rewrite exec_writes in Hr. cbn [written] in Hr.
  destruct (exec order t (SMembers setKey) db).1 as [l|] eqn:El.
  2:{ destruct Hr as (_ & _ & ->). exists []. split; [by intros m ?%not_elem_of_nil|]. intros key _.
      by rewrite decide_False by apply not_elem_of_nil. }
  apply alone_seq in Hr as (u & t1 & db1 & He & t2 & o2 & _ & _ & _ & _ & ->).
  apply (alone_del_each id) in He as [_ Hk]. exists l. split.
  - intros m Hm. destruct (listed _ _ _ _ _ Ho El) as [[-> _]|(ms & until & Hl & Hin)]; [by apply not_elem_of_nil in Hm|].
    exists ms, until. split; [by eapply look_entry|by apply Hin].
  - intros key Hne. cbn. rewrite lookup_delete_ne, Hk, list_fmap_id by done. done.
Qed.

Lemma covered_delete_user id now db a now' db' :
  upstream_ok now db -> alone (redis_DeleteUser keyPrefix id) now db a now' db' -> covered now' db'.
Proof.
  intros (Ht & Hu & Hc) Ha. pose proof (alone_time _ _ _ _ _ _ Ha) as Hle. apply (covered_time _ _ _ Hle) in Hc.
  destruct Ha as (t & o & _ & _ & Ha). cbn [exec EXISTS fst snd] in Ha.
  destruct (bool_decide _); [|by destruct Ha as (_ & _ & ->)].
  destruct Ha as (t1 & o1 & _ & _ & Ha). cbn [exec DEL fst snd foldr] in Ha. set (db1 := delete _ db) in Ha.
  apply alone_seq in Ha as (? & t2 & db2 & Ha2 & Ha). apply alone_seq in Ha as (? & t3 & db3 & Ha3 & _ & _ & ->).
  apply alone_delete_members in Ha2 as (l2 & Hl2 & Hk2). apply alone_delete_members in Ha3 as (l3 & Hl3 & Hk3).
  assert (forall rest, db2 !! redisKey keyPrefix KeyTypeUpstream rest = db !! redisKey keyPrefix KeyTypeUpstream rest) as Hsame.
  { intros rest. rewrite Hk2, decide_False.
    - unfold db1. rewrite lookup_delete_ne; [done|]. intros E. key_eqs.
    - intros (ms & until & Hs & Hin)%Hl2. unfold db1 in Hs. apply lookup_delete_Some in Hs as [_ Hs].
      destruct (Ht _ _ Hs ms eq_refl _ Hin) as [Hid _]. destruct (Hid id eq_refl) as [rest' E]. key_eqs.
    - intros E. key_eqs. }
  eapply covered_fewer; [| |exact Hc].
  - intros s p Hs. rewrite Hk3 by (unfold row_key; intros E; key_eqs). case_decide; [by left|right].
    apply (Hsame (s +:+ ":" +:+ p)).
  - intros s Hs. rewrite Hk3 by (unfold idx_key; intros E; key_eqs). rewrite decide_False.
    + unfold idx_key. rewrite index_key. apply Hsame.
    + intros (ms & until & Hs3 & Hin)%Hl3. assert (upstream_sets db2) as Hu2.
      { intros key e. destruct (decide (key = redisSetKey keyPrefix KeyTypeUserProviders id)) as [->|Hne].
        - intros _. split; [intros ? E|intros ? ? E]; unfold idx_key, user_key in *; key_eqs.
        - rewrite Hk2 by done. case_decide; [done|]. intros [_ E]%lookup_delete_Some. by apply Hu. }
      destruct (proj2 (Hu2 _ _ Hs3) id ms eq_refl eq_refl _ Hin) as (s' & p' & Hs' & E). symmetry in E.
      by apply row_not_index in E.
Qed.
Lemma alone_reads {A} (p : prog command A) now db a now' db' :
  follows (fun _ => False) (fun _ _ _ => True) p (fun _ => True) -> alone p now db a now' db' -> db' = db.
Proof. intros Hp Ha. by eapply (alone_keeps p (fun _ => False) (fun _ d => d = db) (fun _ _ _ => True)). Qed.

Lemma alone_frame {A} (p : prog command A) key now db a now' db' :
  follows (fun w => ~ touches w key) (fun _ _ _ => True) p (fun _ => True) -> alone p now db a now' db' -> db' !! key = db !! key.
Proof.
  intros Hp Ha. eapply (alone_keeps p (fun w => ~ touches w key) (fun _ d => d !! key = db !! key) (fun _ _ _ => True)); eauto.
  intros t d w E Hw. by rewrite frame.
Qed.

Lemma alone_unlist userIDs keys now db a now' db' key :
  (forall u, key <> user_key u) ->
  alone (each userIDs (fun userID => each keys (fun providerKey =>
           Do (SRem (redisSetKey keyPrefix KeyTypeUserUpstream userID) providerKey) (fun _ => Ret tt)))) now db a now' db' ->
  db' !! key = db !! key.
Proof.
  intros Hk. apply alone_frame. apply follows_each, Forall_forall. intros u _. apply follows_each, Forall_forall. intros k _.
  apply follows_do; [|done]. intros w [= <-]. apply Hk.
Qed.

Lemma filter_kept (l : list string) : (forall m, m ∈ l -> HasPrefix m keyPrefix = true) -> filterIndexMembersByPrefix keyPrefix l = l.
Proof.
  unfold filterIndexMembersByPrefix. induction l as [|m l IH]; intros Hl; [done|].
  rewrite filter_cons_True by (apply Hl; by left). by rewrite IH by (intros; apply Hl; by right).
Qed.

(** The members of an index have the prefix of the storage. *)
Lemma index_members now order t db s l :
  upstream_ok now db -> (now <= t)%Z -> (forall members, order members ≡ₚ elements members) ->
  (SMEMBERS order t (idx_key s) db).1 = Some l ->
  filterIndexMembersByPrefix keyPrefix l = l /\
  (exists ps, l = row_key s <$> ps /\ "" ∉ ps) /\
  (valid_session s -> forall p e, look t db (row_key s p) = Some e -> row_key s p ∈ l).
Proof.
  intros (_ & Hu & Hc) Hle Ho Hl.
  assert (forall m, m ∈ l -> exists p, p <> "" /\ m = row_key s p) as Hrow.
  { intros m Hm. destruct (listed _ _ _ _ _ Ho Hl) as [[-> _]|(ms & until & Hi & Hin)]; [by apply not_elem_of_nil in Hm|].
    apply look_entry in Hi. destruct (proj1 (Hu _ _ Hi) s eq_refl) as (? & [= <-] & Hms). by apply Hms, Hin. }
  split_and!.
  - apply filter_kept. intros m Hm. destruct (Hrow m Hm) as (p & _ & ->). apply HasPrefix_app.
  - clear Hl. induction l as [|m l IH]; [exists []; split; [done|apply not_elem_of_nil]|].
    destruct IH as (ps & -> & Hps); [intros; apply Hrow; by right|]. destruct (Hrow m) as (p & Hp & ->); [by left|].
    exists (p :: ps). split; [done|]. by apply not_elem_of_cons.
  - intros Hs p e Hp. destruct (covered_time now t db Hle Hc s p e Hs Hp) as (ms & until & Hi & Hin & _).
    destruct (listed _ _ _ _ _ Ho Hl) as [[_ E]|(ms' & until' & Hi' & Hin')]; [congruence|]. simplify_eq. by apply Hin'.
Qed.

(** Deleting a session. *)
Lemma delete_session s now db a now' db' :
  valid_session s -> upstream_ok now db -> alone (redis_DeleteUpstreamTokens keyPrefix s) now db a now' db' ->
  (forall p, look now' db' (row_key s p) = None) /\
  forall s' p, valid_session s' -> s' <> s -> db' !! row_key s' p = db !! row_key s' p /\ db' !! idx_key s' = db !! idx_key s'.
Proof.
  intros Hs Hok (t & o & Hle & Ho & Ha). rewrite exec_writes in Ha. cbn [written] in Ha. fold (idx_key s) in Ha.
  destruct (exec o t (SMembers (idx_key s)) db).1 as [l|] eqn:El.
  2:{ exfalso. cbn in El. unfold SMEMBERS in El. destruct Hok as (_ & Hu & _).
      destruct (look t db (idx_key s)) as [[[data|ms] until]|] eqn:Ei; [|done..]. apply look_entry in Ei.
      by destruct (proj1 (Hu _ _ Ei) s eq_refl) as (? & ? & _). }
  destruct (index_members now o t db s l Hok Hle Ho El) as (Ef & (ps & -> & _) & Hin). rewrite Ef in Ha. specialize (Hin Hs).
  assert (forall p t', (t <= t')%Z -> row_key s p ∉ row_key s <$> ps -> look t' db (row_key s p) = None) as Hout.
  { intros p t' Hle' Hn. destruct (look t' db (row_key s p)) as [e|] eqn:E; [|done]. apply (look_earlier t) in E; [|done]. by apply Hin in E. }
  clear Ef El Hin. destruct (row_key s <$> ps) as [|k ks] eqn:Ek.
  { destruct Ha as (_ & Hle' & ->). split; [|done]. intros p. apply Hout; [done|]. apply not_elem_of_nil. }
  pose proof (alone_time _ _ _ _ _ _ Ha) as Hle'.
  apply alone_seq in Ha as (users & t1 & db1 & Hr & t2 & o2 & Hle2 & _ & Ha).
  apply alone_reads in Hr as ->; [|apply reads_collect_users]. cbn [exec DEL fst snd] in Ha.
  apply alone_seq in Ha as (? & t3 & db3 & Hu & _ & _ & ->). rewrite <- Ek in *. clear k ks Ek. split.
  - intros p. unfold look. rewrite (alone_unlist _ _ _ _ _ _ _ _ (fun u E => user_not_row u s p (eq_sym E)) Hu), foldr_delete_lookup.
    case_decide as Hd; [done|]. apply Hout; [done|]. set_solver.
  - intros s' p Hs' Hne. rewrite (alone_unlist _ _ _ _ _ _ _ _ (fun u E => user_not_row u s' p (eq_sym E)) Hu).
    rewrite (alone_unlist _ _ _ _ _ _ _ _ (fun u E => user_not_index u s' (eq_sym E)) Hu), !foldr_delete_lookup, !decide_False; [done|..].
    + intros [(p' & E & _)%list_elem_of_fmap|E%list_elem_of_singleton]%elem_of_app; [symmetry in E; by apply row_not_index in E|by apply idx_key_inj in E].
    + intros [(p' & E & _)%list_elem_of_fmap|E%list_elem_of_singleton]%elem_of_app; [by apply row_key_inj in E as [? _]|by apply row_not_index in E].
Qed.
(** A row that is gone is taken off the index. *)
Lemma covered_unlist now (db : database) s p :
  valid_session s -> db !! row_key s p = None -> covered now db -> covered now (SREM now (idx_key s) (row_key s p) db).2.
Proof.
  intros Hs Hno Hc s' p' e Hs' Hl.
  assert (look now db (row_key s' p') = Some e) as Hl'.
  { unfold look in *. rewrite frames_SREM in Hl; [done|by apply row_not_index]. }
  destruct (Hc s' p' e Hs' Hl') as (ms & until & Hi & Hin & Ho). destruct (decide (s' = s)) as [->|Hne].
  - assert (row_key s p' <> row_key s p) as Hrow by (intros E; unfold look in Hl'; by rewrite E, Hno in Hl').
    pose proof (look_alive _ _ _ _ Hi) as Ha. unfold SREM. rewrite Hi. cbn. rewrite decide_False by set_solver.
    exists (ms ∖ {[row_key s p]}), until. split; [|set_solver]. unfold look. rewrite lookup_insert_eq. unfold alive in *. cbn in *. by rewrite Ha.
  - exists ms, until. split; [|done]. unfold look in *. rewrite frames_SREM; [done|]. by intros E%idx_key_inj.
Qed.

Lemma covered_delete_row s p now db a now' db' :
  valid_session s -> covered now db -> alone (redis_DeleteUpstreamTokensForProvider keyPrefix s p) now db a now' db' ->
  covered now' db'.
Proof.
  intros Hs Hc Ha. unfold redis_DeleteUpstreamTokensForProvider in Ha.
  destruct (check_row s p); [destruct Ha as (_ & Hle & ->); by eapply covered_time|]. fold (row_key s p) (idx_key s) in Ha.
  destruct Ha as (t1 & o1 & Hle1 & _ & t2 & o2 & Hle2 & _ & Ha). rewrite !exec_writes in Ha.
  cbn [written apply_write exec DEL fst snd foldr] in Ha. set (db1 := delete (row_key s p) db) in Ha.
  assert (covered t2 db1) as Hc1.
  { eapply covered_fewer; [| |eapply covered_time; [|exact Hc]; lia].
    - intros s' p' _. unfold db1. destruct (decide (row_key s p = row_key s' p')) as [->|?]; [left; apply lookup_delete_eq|right; by apply lookup_delete_ne].
    - intros s' _. unfold db1. rewrite lookup_delete_ne; [done|]. by apply row_not_index. }
  destruct Ha as (t3 & o3 & Hle3 & _ & Ha). rewrite exec_writes in Ha. cbn [written apply_write] in Ha.
  apply (covered_time t2 t3) in Hc1; [|done]. apply (covered_unlist t3 db1 s p Hs) in Hc1; [|apply lookup_delete_eq].
  case_decide; [destruct Ha as (_ & Hle & ->); by eapply covered_time|].
  destruct Ha as (t4 & o4 & Hle4 & _ & _ & Hle5 & ->). rewrite exec_writes. cbn [written apply_write].
  eapply covered_fewer; [| |eapply covered_time; [|exact Hc1]; lia].
  - intros s' p' _. right. apply frames_SREM. intros E. symmetry in E. by apply user_not_row in E.
  - intros s' _. apply frames_SREM. intros E. symmetry in E. by apply user_not_index in E.
Qed.

Lemma upstream_ok_call now db c a now' db' :
  valid_call c -> upstream_ok now db -> alone (serve keyPrefix c) now db a now' db' -> upstream_ok now' db'.
Proof.
  intros Hc Hok Ha.
  assert (forall I : Time -> database -> Prop, (forall now now' db, (now <= now')%Z -> I now db -> I now' db) ->
    (forall now db w, I now db -> issues keyPrefix c w -> I now (apply_write now w db)) ->
    (forall now db, I now db -> typed_sets keyPrefix db) -> I now db -> I now' db') as Hkeep.
  { intros I Ht Hw Hi HI. eapply (alone_keeps _ (issues keyPrefix c) I (typed_reply keyPrefix)); [done|done| |apply calls_issue|done|exact Ha].
    intros t d B cm r d' Hd Hp. by eapply typed_replies, Hp; eauto. }
  assert (~ removes_rows c -> upstream_ok now' db') as Hplain.
  { intros Hr. apply Hkeep; [apply upstream_ok_time| |by intros ?? [? _]|done]. intros t d w Hd Hw. by eapply covered_kept. }
  assert (typed_sets keyPrefix db' /\ upstream_sets db') as [Ht Hu].
  { apply (Hkeep (fun _ d => typed_sets keyPrefix d /\ upstream_sets d)); [done| |by intros ?? [? _]|split; apply Hok].
    intros t d w [? ?] Hw. split; [by eapply typed_kept|by eapply upstream_sets_kept]. }
  destruct c; try (apply Hplain; by intros []); (split_and!; [done..|]); clear Hkeep Hplain;
    apply alone_seq in Ha as (r & t & db1 & Ha & _ & Hle & ->); (eapply covered_time; [exact Hle|]).
  - destruct (delete_session _ _ _ _ _ _ Hc Hok Ha) as [Hnone Hother]. destruct Hok as (_ & _ & Hcov).
    apply alone_time in Ha. apply (covered_time _ _ _ Ha) in Hcov. intros s' p e Hs' Hl.
    destruct (decide (s' = sessionID)) as [->|Hne]; [by rewrite Hnone in Hl|].
    destruct (Hother s' p Hs' Hne) as [Er Ei]. unfold look in *. rewrite Er in Hl. rewrite Ei. by eapply Hcov.
  - by eapply covered_delete_row; [|apply Hok|exact Ha].
  - by eapply covered_delete_user.
Qed.

(** ** Calls one after the other *)
Inductive upstream_step : Time * database -> Time * database -> Prop :=
  | upstream_call now db c a now' db' :
      valid_call c -> alone (serve keyPrefix c) now db a now' db' -> upstream_step (now, db) (now', db').

Lemma upstream_reached now st : rtc upstream_step (now, ∅) st -> upstream_ok st.1 st.2.
Proof.
  intros Hs. assert (upstream_ok (now, ∅ : database).1 (now, ∅ : database).2) as Hok.
  { split_and!; [by intros key e|by intros key e|]. by intros s p e _. }
  induction Hs as [|st st1 st2 Hs _ IH]; [done|]. apply IH. destruct Hs. by eapply upstream_ok_call.
Qed.
(** ** Reading a session *)

(** The entry of a provider in the result of [GetAllUpstreamTokens]: what the row holds, without
    rows that cannot be decoded. *)
Definition row_value (t : Time) (db : database) (s : string) (now : Time) (p : string) : option (option UpstreamTokens) :=
  match look t db (row_key s p) with
  | Some (mkEntry (RString data) _) =>
      match unmarshalUpstreamTokens data now with
      | (_, Some EncodingFailure) => None
      | (tokens, _) => Some tokens
      end
  | _ => None
  end.

Lemma drop_string_app (a b : string) : drop_string (String.length a) (a +:+ b) = b.
Proof. by induction a. Qed.

Lemma length_app_string (a b : string) : String.length (a +:+ b) = String.length a + String.length b.
Proof. induction a as [|c a IH]; [done|]. change (S (String.length (a +:+ b)) = S (String.length a + String.length b)). by rewrite IH. Qed.

Lemma add_row_value (db : database) t s now m p :
  p <> "" ->
  add_row keyPrefix s now m (row_key s p, match look t db (row_key s p) with Some (mkEntry (RString data) _) => Some data | _ => None end) =
  match row_value t db s now p with Some tokens => <[p := tokens]> m | None => m end.
Proof.
  intros Hp. unfold row_value, add_row. destruct (look t db (row_key s p)) as [[[data|] ?]|]; [|done..].
  assert (row_key s p = row_prefix keyPrefix s +:+ p) as E.
  { unfold row_key, redisUpstreamKey, row_prefix. by rewrite !app_string_assoc. }
  rewrite !E, drop_string_app. unfold len. rewrite length_app_string, (proj2 (Z.ltb_lt _ _)) by (destruct p; [done|cbn; lia]).
  destruct (unmarshalUpstreamTokens data now) as [[tokens|] [[]|]]; rewrite ?(decide_False (P := p = "")) by done; done.
Qed.

Lemma rows_value (db : database) t s now ps m p :
  "" ∉ ps ->
  foldl (add_row keyPrefix s now) m
    (zip (row_key s <$> ps) ((fun key => match look t db key with Some (mkEntry (RString data) _) => Some data | _ => None end) <$> (row_key s <$> ps)))
    !! p = if decide (p ∈ ps) then match row_value t db s now p with Some tokens => Some tokens | None => m !! p end else m !! p.
Proof.
  revert m. induction ps as [|p0 ps IH]; intros m Hps; [by rewrite decide_False by apply not_elem_of_nil|].
  apply not_elem_of_cons in Hps as [Hp0 Hps]. cbn [fmap list_fmap zip_with foldl].
  rewrite add_row_value by done. rewrite IH by done. destruct (decide (p = p0)) as [->|Hne].
  - rewrite (decide_True (P := p0 ∈ p0 :: ps)) by left. destruct (row_value t db s now p0); [rewrite lookup_insert_eq|]; by case_decide.
  - assert (match row_value t db s now p0 with Some tokens => <[p0 := tokens]> m | None => m end !! p = m !! p) as ->.
    { destruct (row_value t db s now p0); [by rewrite lookup_insert_ne|done]. }
    destruct (decide (p ∈ ps)); [rewrite decide_True by (by right)|rewrite decide_False by (rewrite elem_of_cons; naive_solver)]; done.
Qed.

Lemma session_rows s t now db r now' db' :
  valid_session s -> upstream_ok now db -> alone (redis_GetAllUpstreamTokens keyPrefix s t) now db r now' db' ->
  exists m t1, r = inr m /\ (now <= t1 <= now')%Z /\ forall p, m !! p = row_value t1 db s t p.
Proof.
  intros Hs Hok (t1 & o & Hle & Ho & Ha). rewrite exec_writes in Ha. cbn [written] in Ha. fold (idx_key s) in Ha.
  destruct (exec o t1 (SMembers (idx_key s)) db).1 as [l|] eqn:El.
  2:{ exfalso. cbn in El. unfold SMEMBERS in El. destruct Hok as (_ & Hu & _).
      destruct (look t1 db (idx_key s)) as [[[data|ms] until]|] eqn:Ei; [|done..]. apply look_entry in Ei.
      by destruct (proj1 (Hu _ _ Ei) s eq_refl) as (? & ? & _). }
  destruct (index_members now o t1 db s l Hok Hle Ho El) as (Ef & (ps & -> & Hps) & Hin). rewrite Ef in Ha. specialize (Hin Hs).
  assert (forall t2 p, (t1 <= t2)%Z -> p ∉ ps -> row_value t2 db s t p = None) as Hout.
  { intros t2 p Hle2 Hp. unfold row_value. destruct (look t2 db (row_key s p)) as [e|] eqn:E; [|done].
    apply (look_earlier t1), Hin, list_elem_of_fmap in E as (p' & E & Hp'); [|done]. by apply row_key_inj in E as [_ ->]. }
  clear Ef El Hin. destruct ps as [|p0 ps].
  { destruct Ha as (-> & Hle' & _). exists ∅, t1. split_and!; [done..|]. intros p. rewrite lookup_empty, Hout; [done..|apply not_elem_of_nil]. }
  destruct Ha as (t2 & o2 & Hle2 & _ & -> & Hle' & _). eexists. exists t2. split; [reflexivity|]. split; [lia|].
  intros p. rewrite (rows_value db t2 s t (p0 :: ps)) by done. destruct (decide (p ∈ p0 :: ps)).
  - rewrite lookup_empty. by destruct (row_value t2 db s t p).
  - by rewrite lookup_empty, Hout.
Qed.

(** C16. While calls do not overlap, the index of a session finds all of its rows.  After any
    calls, each alone and without failures, [GetAllUpstreamTokens] succeeds, and returns for every provider what the
    row of the provider holds at one moment during the call; and after [DeleteUpstreamTokens]
    no row of the session is left, while the rows of the other sessions are as they were.  The
    identifiers of sessions have no colon and are not the name of the index. *)
Theorem redis_upstream_sessions now0 now db s :
  rtc upstream_step (now0, ∅) (now, db) -> valid_session s ->
  (forall t r now' db', alone (redis_GetAllUpstreamTokens keyPrefix s t) now db r now' db' ->
     exists m t1, r = inr m /\ (now <= t1 <= now')%Z /\ forall p, m !! p = row_value t1 db s t p) /\
  (forall r now' db', alone (redis_DeleteUpstreamTokens keyPrefix s) now db r now' db' ->
     (forall p, look now' db' (row_key s p) = None) /\
     forall s' p, valid_session s' -> s' <> s -> db' !! row_key s' p = db !! row_key s' p).
Proof.
  intros Hs Hv. apply upstream_reached in Hs. split.
  - intros t r now' db' Ha. by eapply session_rows.
  - intros r now' db' Ha. destruct (delete_session _ _ _ _ _ _ Hv Hs Ha) as [Hnone Hother].
    split; [done|]. intros s' p Hv' Hne. by apply Hother.
Qed.
End upstream.

(** ** Examples *)
Section examples.
#[local] Existing Instances sample_client_library sample_cjson sample_sessions sample_json.

Definition store_row (provider : string) : storage_call (Session := string) :=
  CStoreUpstreamTokens "session" provider (Some (sample_tokens provider "user")) 1%Z.

Definition with_rows : database :=
  (solo (serve "" (store_row "p2")) 1%Z (solo (serve "" (store_row "p1")) 1%Z ∅).2).2.

Lemma sample_valid : valid_session "session".
Proof. split; [vm_compute; naive_solver|done]. Qed.

Lemma sample_rows : rtc (upstream_step (Session := string) "") (1%Z, ∅) (1%Z, with_rows).
Proof.
  eapply rtc_l; [|apply rtc_once]; eapply upstream_call; [|apply solo_alone| |apply solo_alone]; apply sample_valid.
Qed.

Lemma redis_upstream_sessions_witness :
  exists m t, (solo (redis_GetAllUpstreamTokens "" "session" 1%Z) 1%Z with_rows).1 = inr m /\
    (1 <= t <= 1)%Z /\ forall p, m !! p = row_value "" t with_rows "session" 1%Z p.
Proof.
  eapply (proj1 (@redis_upstream_sessions _ _ string _ _ "" 1%Z 1%Z with_rows "session" sample_rows sample_valid)).
  apply solo_alone.
Defined.

(** Another provider's tokens are stored after the index was read and before it is deleted. *)
Definition deleted_while_stored : world :=
  sample_play empty_world
    [Begin (store_row "p1"); Perform 0; Begin (CDeleteUpstreamTokens "session"); Perform 1; Perform 1;
     Begin (store_row "p2"); Perform 2; Perform 1; Perform 1;
     Begin (CDeleteUpstreamTokens "session"); Perform 3;
     Begin (CGetAllUpstreamTokens "session" 1%Z); Perform 4;
     Begin (CGetUpstreamTokens "session" "p2" 1%Z); Perform 5].

(** Tokens stored while their session is deleted are lost to the index.  There is an
    execution without failures in which the deletion reports success, a second one reports that
    there is nothing to delete and [GetAllUpstreamTokens] returns no tokens, and yet
    [GetUpstreamTokens] returns the tokens, and they have no time to live. *)
Theorem upstream_row_unlisted :
  exists w deadline data, rtc (world_step (calls_allowed "" valid_call)) empty_world w /\
    w_threads w !! 1 = Some (Ret (OError None)) /\
    w_threads w !! 2 = Some (Ret (OError None)) /\
    w_threads w !! 3 = Some (Ret (OError (Some (Known (ErrNotFound "Upstream tokens not found"))))) /\
    w_threads w !! 4 = Some (Ret (ORows (inr ∅))) /\
    w_threads w !! 5 = Some (Ret (OTokens (Some (sample_tokens "p2" "user"), None))) /\
    w_db w !! row_key "" "session" "p2" = Some (mkEntry (RString data) deadline) /\ deadline = None.
Proof.
  exists deleted_while_stored. do 2 eexists. split_and!; [|vm_compute; reflexivity..].
  unfold deleted_while_stored. apply sample_steps. repeat constructor; apply sample_valid.
Qed.
End examples.
